(* ===== verification/_CoqProject ===== *)
-Q . S2P
Prelude.v
PyDict.v
PySort.v
PyStr.v
Errors.v
PyFloat.v
Layout.v
Values.v
Program.v
Trace.v
Config.v
Hazard.v
SyncOps.v
SyncReset.v
SyncModel.v
SyncLaws.v
Scheduler.v
Schedule.v
Progress.v
SyncCredits.v
SyncRun.v
SyncFence.v
SyncValidator.v
SyncClaims.v
Intervals.v
MemoryView.v
Memory.v
MemoryProofs.v
Stats.v
Run.v
TraceExport.v
Timing.v
Report.v
ExecOrder.v
PyNum.v
Numpy.v
ExecEnv.v
ExecOps.v
ExecKernels.v
ExecGather.v
Executor.v
FunctionalSim.v
ExecFrame.v
NumpyInt.v
ExecClaims.v
FunctionalRun.v
ExecKernelProofs.v
ExecCommute.v
OrderIndependence.v
LinearTiming.v
MeasuredA2.v
RegionOverlap.v
BridgeOps.v
BridgeMemory.v
BridgeCache.v
BridgeDeps.v
BridgeClaims.v
BridgeExpr.v
BridgeExprProofs.v
BridgeRegions.v
DecodeVector.v
DecodeReduce.v
DecodeSort.v
DecodeCopy.v
DecodeMatrix.v
BridgeDispatch.v
BridgeVisit.v
UnitFlags.v
DecodeSound.v
BridgeEmit.v
VisitInvariant.v
UnitFlagProofs.v
BuiltProgram.v
LoweringClaims.v
ReportDocument.v
Adapter.v
BestFit.v
IntrinsicLayouts.v
