(* ===== verification/Prelude.v ===== *)
(** * The A2/A3 functional simulator of TileLang-Ascend

    This library models [src/tilelang/simulator], the simulator that executes a lowered kernel
    for the Ascend A2/A3 accelerators without the hardware.  The bridge turns a kernel of TVM
    TIR into a program: tasks on the lanes and pipes of cores, with the regions of memory they
    read and write and the edges this implies.  The scheduler places every task on the cycle
    axis under dependency, first-in-first-out and synchronization constraints; the executor
    applies the tasks to memory; statistics, traces, reports and cost models describe the
    result.

    ** Parts of the program and where they are

    The Python that the code uses.
    - [Prelude], [PyDict], [PySort], [PyStr], [PyFloat], [PyNum]: [outcome] is a value or a
      raised exception, [stM] a state that survives the exception; dictionaries are
      insertion-ordered association lists; [sorted] is a stable insertion sort; strings are byte
      strings (the names the simulator compares are ASCII); floats are IEEE binary64 values of
      the Standard Library's specification, so coefficients and roundings are computed exactly.
    - [Numpy]: NumPy as the class [Numpy], its operations on elements being parameters.
      [NumpyInt]: the laws the theorems use, and the NumPy of fixed-width integers that has
      them.

    The program data.
    - [Errors]: [errors.py].  An exception is its class, a label of the raise statement and the
      identifiers its message names.  [Values], [Program]: [program.py], with the platform table
      of [profile.py]; [pyval] is the universe of values that metadata, shapes and bindings
      hold, and every [__post_init__] is an [_init] function.  [Config]: [config.py].  [Hazard]:
      [hazard.py]. [Layout]: [layout.py].

    The bridge ([bridge.py]), from a lowered kernel to a program.
    - [BridgeOps]: operation names, lanes, pipes.  [BridgeExpr], [BridgeExprProofs]: integer
      expressions, with TVM as the class [Tvm].  [RegionOverlap]: the geometry of regions.
    - [BridgeMemory]: histories, aliases, caches and [emit_task]; [BridgeCache], [BridgeDeps],
      [BridgeClaims]: the caches are transparent, and which conflicts are ordered.
    - [BridgeRegions], [DecodeVector], [DecodeReduce], [DecodeSort], [DecodeCopy],
      [DecodeMatrix], [BridgeDispatch]: operands of calls to regions and metadata, one decoder
      per operation; [DecodeSound]: what every decoder guarantees.
    - [BridgeVisit]: statements under their context and the tasks they emit, with the steps of a
      tiled multiplication.  [UnitFlags]: the pairing of unit flags and [build].
    - [BridgeEmit], [VisitInvariant], [BuiltProgram]: a logic for the traversal, its invariant,
      and the theorems on the program built; [UnitFlagProofs], [LoweringClaims]: the remaining
      theorems on the traversal.

    Scheduling.
    - [SyncOps], [SyncReset], [SyncModel]: [sync.py].  Operand decoding; the static tables that
      [reset] builds; [evaluate], [on_scheduled], the audit and the diagnostics.  The protocol
      class is [SynchronizationModel], with the no-op and the flag/barrier model as instances.
      [SyncLaws] states what the scheduler relies on ([SynchronizationLaws], with a setoid on
      states that differ only in what a [defaultdict] created) and discharges it.
    - [Scheduler]: [scheduler.py], the pass loop with its limits, records and deadlock report.
      [Schedule] gives the abstract machine ([sched_run], a step relation) and the refinement;
      [Progress] the theorems on whole schedules.
    - [SyncCredits], [SyncRun], [SyncFence], [SyncClaims]: the credits, the reachable states,
      the fences and the theorems of synchronized schedules.  [SyncValidator]: the static check
      [validate_memory_synchronization].

    Memory and execution.
    - [Intervals], [MemoryView], [Memory], [MemoryProofs]: [memory.py].  Half-open ranges and
      their union, strided views, address spaces with poison, allocation, aliases, usage.
    - [ExecEnv], [ExecOps], [ExecKernels], [ExecGather], [Executor], [ExecOrder],
      [FunctionalSim]: [executor.py].  Reading and writing regions; the handlers; the dispatch
      and the synchronization-only mode; the order of execution; contracts, dynamic branches and
      [run].
    - [ExecFrame], [ExecCommute], [OrderIndependence], [ExecClaims], [ExecKernelProofs],
      [FunctionalRun]: a program logic for handlers that knows only the regions a task names,
      and the theorems on tasks, orders and whole runs.

    Costs and results.
    - [Timing], [LinearTiming], [MeasuredA2]: the estimators of [profile.py], the PyPTO model of
      [pypto_timing.py], the fitted lines of [linear_timing.py] and the table of
      [measured_a2.py].
    - [Trace], [TraceExport]: [trace.py].  [Stats], [Run]: [stats.py] and the scheduler's entry
      point.  [Report], [ReportDocument]: [report.py], its analyses and its documents.

    The front door.
    - [Adapter]: [adapter.py], from arguments to results, with torch as the class [Torch].

    Around the simulator.
    - [IntrinsicLayouts]: the layouts, fragments and swizzles of [intrinsics/].  [BestFit]: the
      buffer allocator of the tile search, [carver/roller/bestfit.py].

    ** What the theorems show

    - Schedules (C1 to C4).  The pass loop refines the abstract machine for any synchronization
      model; a returned schedule respects dependencies, FIFO order, durations and the cycle
      limit; the loop ends within one pass per task; a deadlock is reported exactly when nothing
      can run.
    - Execution (C5, C6, C8, C24 to C26).  The executor applies the tasks in the schedule's
      order, made topological; the numbers do not depend on the schedule when tasks that share a
      written buffer are ordered; a task changes only the buffers it names, also when it fails;
      what remains of a program after its data-dependent branches are resolved.
    - Synchronization (C9 to C12). Flags are FIFO credits, a wait starts after the set it
      consumes, full barriers fence their lane, [sync_all] is a rendezvous.
    - The bridge (C7, C13 to C19, C37).  Conflicting accesses are ordered by edges; a program
      whose visit succeeds passes every check of [KernelProgram] and can always be scheduled;
      every region lies in a declared buffer of its scope and core; unit flags are accepted
      exactly when every block is used in pairs; the windows behind an L0 tile hold exactly its
      elements; in the states that emission and alias activation reach, the caches change no
      answer; overlap is exact; what is extracted from an integer expression is its value.
    - Memory (C20 to C23).  The byte ranges of a view are exact, a write is read back and
      changes nothing else, allocation keeps the runtime well formed, and instantiation provides
      every buffer.
    - Data (C27, C28).  The cycle check is exact; packing round-trips.
    - The adapter (C29, C30).  A call runs the program on its arguments and returns what the run
      left in the result buffers; what the adapter keeps is consistent after any sequence of
      calls.
    - Reports (C31, C32).  The report of a schedule can always be written and lists the largest
      entries; exchanging the reports of a comparison negates every change.
    - Around the simulator (C33 to C36).  Live blocks of the buffer allocator never overlap or
      move, and an allocation takes the smallest block that fits; the fractal layouts of the
      compiler are those of the simulator; which swizzles stay in their row.
    - Limits of the program (C38 to C40). A break under a run-time condition is taken while
      lowering; recording a write forgets every access it overlaps, also in part; behind a
      [sync_all] no barrier and no flag wait of the lane synchronizes.

    Theorems without a number carry further promises of the same parts: completeness without
    synchronization, makespan bounds ([Run]), the edges that the static check accepts
    ([SyncValidator]), the placement of tasks ([BridgeClaims]), im2col ([ExecKernelProofs]),
    where a measured estimate comes from ([MeasuredA2]), typed round trips, the
    synchronization-only mode and the operations that cannot be executed ([ExecClaims]), the
    bounds of layouts ([Layout]), the fragments of matrix instructions ([IntrinsicLayouts]), the
    meaning of summaries ([Stats]), trace counters ([TraceExport]), the critical chain and the
    overlap of a report ([Report]), the formulas of the cost models ([Timing]), and the errors
    of symbolic evaluation ([Values]).

    ** Bounds and arguments of the model

    - [schedule] takes a number of passes, because Python's loop need not end when deadlock
      detection is off; C3 shows that the number of tasks is enough when it is on.  [visit] of
      [Program] takes a recursion depth; one more than the number of tasks is enough.
      [wait_visit], which only finds the cycle named in a deadlock message, takes the same
      depth.  [walk] of [Report] takes the number of operations, [order_loop] of [ExecOrder] the
      number of tasks, and [expand] of the dynamic branches its [expansion_cost]: theorems show
      that these are enough.  Following aliases takes one more than their number, splitting a
      string its length, and cutting a window its extent, each an upper bound of the steps.
    - [depth] of the bridge's expressions and of the executor's scalar expressions is Python's
      recursion limit: at zero the functions raise [RecursionError], as Python does.
    - The wall clock ([clock]) and the iteration order of Python sets ([set_order]) are
      arguments.
    - NumPy ([Numpy]), the TVM nodes behind opaque values ([node_of]), TVM's printer,
      simplifier, substitution and traversal ([Tvm], [TvmNodes]), and the digest of a report are
      arguments. The laws of [NumpyLaws] and [TvmLaws] are documented behaviour; concrete
      instances have them. [TvmLaws] speaks of integer expressions whose rewriting leaves no
      integer type, on which the simplifier keeps values; floats, overflows and narrowing casts
      have no value there.
    - Integers are unbounded, as in Python.  Bytes are integers; payload bytes are not inspected
      by the memory runtime.

    ** What is not modelled

    The import of TVM, the choice of the PrimFunc in a module and the lowering passes that the
    adapter calls; the offline fit of cost lines ([fit_linear_cost]), whose result depends on
    the summation of the interpreter version; writing files; and the compiler around the
    simulator (language front end, passes, autotuner, caches), which acts on objects of TVM.
    Text of messages is kept only where code reads it. *)

From stdpp Require Export base tactics list gmap strings.
From Stdlib Require Export ZArith Lia.

#[global] Set Default Goal Selector "!".
#[global] Set Warnings "-clear-no-such-hyp,-register-all".

(** ** Notation scope and hint databases of the development *)

Declare Scope sim_scope.
Delimit Scope sim_scope with sim.
Open Scope sim_scope.

Create HintDb sim.
Create Rewrite HintDb simrw.

(** ** Outcomes: a value, or a raised exception *)

Inductive outcome (E A : Type) : Type :=
| Ok (a : A)
| Raise (e : E).
Arguments Ok {E A} a.
Arguments Raise {E A} e.

#[global] Instance outcome_ret {E} : MRet (outcome E) := λ A a, Ok a.
#[global] Instance outcome_bind {E} : MBind (outcome E) := λ A B f m,
  match m with Ok a => f a | Raise e => Raise e end.
#[global] Instance outcome_fmap {E} : FMap (outcome E) := λ A B f m,
  match m with Ok a => Ok (f a) | Raise e => Raise e end.

Definition is_ok {E A} (m : outcome E A) : bool :=
  match m with Ok _ => true | Raise _ => false end.

(** [require b e] is Python's [if not b: raise e]. *)
Definition require {E} (b : bool) (e : E) : outcome E unit :=
  if b then Ok tt else Raise e.

Fixpoint ofold {E A B} (f : B → A → outcome E B) (l : list A) (b : B) : outcome E B :=
  match l with
  | [] => Ok b
  | a :: l => f b a ≫= ofold f l
  end.

(** [tuple(f(a) for a in l)]; [f] stays outside the recursion, so that nested data can be
    traversed with it. *)
Definition omap_list {E A B} (f : A → outcome E B) : list A → outcome E (list B) :=
  fix go l :=
    match l with
    | [] => Ok []
    | a :: l => b ← f a; bs ← go l; Ok (b :: bs)
    end.

Lemma outcome_bind_ok {E A B} (m : outcome E A) (f : A → outcome E B) b :
  m ≫= f = Ok b ↔ ∃ a, m = Ok a ∧ f a = Ok b.
Proof. destruct m; cbn; naive_solver. Qed.

Lemma outcome_bind_raise {E A B} (m : outcome E A) (f : A → outcome E B) e :
  m ≫= f = Raise e ↔ m = Raise e ∨ ∃ a, m = Ok a ∧ f a = Raise e.
Proof. destruct m; cbn; naive_solver. Qed.

Lemma require_ok {E} b (e : E) u : require b e = Ok u ↔ b = true.
Proof. destruct b, u; cbn; naive_solver. Qed.

(** Reduce the binds of the goal whose first computation is a value. *)
Ltac ok_bind := cbn [mbind outcome_bind].

(** Decompose every successful bind and guard of the context. *)
Ltac inv_ok :=
  repeat match goal with
  | H : _ ≫= _ = Ok _ |- _ => apply outcome_bind_ok in H as (? & ? & ?)
  | H : require _ _ = Ok _ |- _ => apply require_ok in H
  | H : Ok _ = Ok _ |- _ => injection H as H; subst
  | H : Raise _ = Ok _ |- _ => discriminate H
  | H : Ok _ = Raise _ |- _ => discriminate H
  end.

(** Split the scrutinee of an innermost [if]/[match] of a hypothesis. *)
Ltac split_match_in H :=
  match type of H with
  | context [match ?x with _ => _ end] =>
      lazymatch x with
      | context [match _ with _ => _ end] => fail
      | _ => let E := fresh "E" in destruct x eqn:E
      end
  end.

Lemma ofold_app {E A B} (f : B → A → outcome E B) l1 l2 b :
  ofold f (l1 ++ l2) b = ofold f l1 b ≫= ofold f l2.
Proof.
  revert b; induction l1 as [|a l1 IH]; intros b; cbn; [done|].
  destruct (f b a); cbn; [apply IH|done].
Qed.

(** Invariant rule for [ofold]: an invariant indexed by the consumed prefix. *)
Lemma ofold_invariant {E A B} (P : list A → B → Prop) (f : B → A → outcome E B) l b b' :
  P [] b →
  (∀ pre a c c', (∃ suf, l = pre ++ a :: suf) → P pre c → f c a = Ok c' → P (pre ++ [a]) c') →
  ofold f l b = Ok b' → P l b'.
Proof.
  intros H0 Hstep.
  cut (∀ suf pre c, l = pre ++ suf → P pre c → ofold f suf c = Ok b' → P l b').
  { intros Hcut Hf. exact (Hcut l [] b eq_refl H0 Hf). }
  induction suf as [|a suf IH]; intros pre c -> HP Hf; cbn in Hf.
  - inv_ok. by rewrite app_nil_r.
  - inv_ok. eapply (IH (pre ++ [a])); [by rewrite <- app_assoc| |done].
    eapply Hstep; eauto.
Qed.

Lemma omap_list_ok {E A B} (f : A → outcome E B) l l' :
  omap_list f l = Ok l' ↔ Forall2 (λ a b, f a = Ok b) l l'.
Proof.
  revert l'; induction l as [|a l IH]; intros l'; cbn.
  - split; [intros; inv_ok; constructor|intros H; by inversion H].
  - split.
    + intros H. inv_ok. constructor; [done|]. by apply IH.
    + intros H. inversion H as [|? b ? bs Hb Hbs]; subst. rewrite Hb. cbn.
      apply IH in Hbs. by rewrite Hbs.
Qed.

Lemma filter_none {A} (P : A → Prop) `{∀ x, Decision (P x)} l :
  (∀ x, x ∈ l → ¬ P x) → filter P l = [].
Proof.
  intros H0. induction l as [|x l IH]; [done|].
  rewrite filter_cons_False by set_solver. apply IH. set_solver.
Qed.

Definition some_nonempty {A} (l : list A) : option (list A) :=
  match l with [] => None | _ => Some l end.
Lemma default_some_nonempty {A} (l : list A) : default [] (some_nonempty l) = l.
Proof. by destruct l. Qed.

Lemma some_nonempty_snoc {A} (l : list A) x : some_nonempty (l ++ [x]) = Some (l ++ [x]).
Proof. by destruct l. Qed.

Lemma filter_snoc_if {A} (P : A → Prop) `{∀ x, Decision (P x)} l x :
  filter P (l ++ [x]) = if decide (P x) then filter P l ++ [x] else filter P l.
Proof.
  rewrite filter_app, filter_cons, filter_nil. case_decide; [done|]. by rewrite app_nil_r.
Qed.

(** ** Stateful code that can raise: the state survives the exception *)

Definition stM (S E A : Type) : Type := S → S * outcome E A.

#[global] Instance stM_ret {S E} : MRet (stM S E) := λ A a s, (s, Ok a).
#[global] Instance stM_bind {S E} : MBind (stM S E) := λ A B f m s,
  match m s with
  | (s', Ok a) => f a s'
  | (s', Raise e) => (s', Raise e)
  end.

Definition st_get {S E} : stM S E S := λ s, (s, Ok s).
Definition st_put {S E} (s : S) : stM S E unit := λ _, (s, Ok tt).
Definition st_raise {S E A} (e : E) : stM S E A := λ s, (s, Raise e).
Definition st_lift {S E A} (m : outcome E A) : stM S E A := λ s, (s, m).

Fixpoint st_iter {S E A} (f : A → stM S E unit) (l : list A) : stM S E unit :=
  match l with
  | [] => mret tt
  | a :: l => f a ≫= λ _, st_iter f l
  end.

(** The answers of a computation for the elements of a list; as in [omap_list], [f] stays outside
    the recursion. *)
Definition st_map {S E A B} (f : A → stM S E B) : list A → stM S E (list B) :=
  fix go l :=
    match l with
    | [] => mret []
    | a :: l => b ← f a; bs ← go l; mret (b :: bs)
    end.
