(* ===== verification/PyDict.v ===== *)
(** Python dictionaries: insertion-ordered association lists.  [d[k] = v] keeps the
    position of an existing key and appends a new one, so iterating over [d.items()]
    is iterating over the list. *)

From S2P Require Import Prelude.

(** An abbreviation, so that list lemmas apply to dictionaries directly. *)
Abbreviation dict K V := (list (K * V)).

Section dict.
Context {K V : Type} `{EqDecision K}.
Implicit Types (d : dict K V) (k : K) (v : V).

(** [d.get(k)] *)
Fixpoint dget d k : option V :=
  match d with
  | [] => None
  | (k', v) :: d => if decide (k = k') then Some v else dget d k
  end.

(** [k in d] *)
Definition dmem d k : bool :=
  match dget d k with Some _ => true | None => false end.

(** [d.get(k, default)], also the value a [defaultdict] yields *)
Definition dget_default (def : V) d k : V := default def (dget d k).

(** [d[k] = v] *)
Fixpoint dset d k v : dict K V :=
  match d with
  | [] => [(k, v)]
  | (k', v') :: d => if decide (k = k') then (k', v) :: d else (k', v') :: dset d k v
  end.

(** [d.setdefault(k, v)], and the insertion a [defaultdict] does on access *)
Definition dsetdefault d k v : dict K V :=
  match dget d k with Some _ => d | None => dset d k v end.

(** [d.pop(k, None)] on the dictionary itself *)
Fixpoint dpop d k : dict K V :=
  match d with
  | [] => []
  | (k', v') :: d => if decide (k = k') then dpop d k else (k', v') :: dpop d k
  end.

(** [d1.update(d2)] *)
Definition dupdate d1 (d2 : dict K V) : dict K V :=
  fold_left (λ acc '(k, v), dset acc k v) d2 d1.

(** [dict(pairs)]: later pairs overwrite earlier ones in place. *)
Definition dict_of_pairs (l : list (K * V)) : dict K V := dupdate [] l.

Definition dkeys d : list K := map fst d.
Definition dvalues d : list V := map snd d.

Lemma dget_dset_eq d k v : dget (dset d k v) k = Some v.
Proof.
  induction d as [|[k' v'] d IH]; cbn.
  - by rewrite decide_True.
  - case_decide; cbn; [by rewrite decide_True|]. by rewrite decide_False.
Qed.

Lemma dget_dset_ne d k k' v : k ≠ k' → dget (dset d k v) k' = dget d k'.
Proof.
  intros Hne. induction d as [|[k2 v2] d IH]; cbn.
  - by rewrite decide_False.
  - case_decide; cbn; [subst; by rewrite !decide_False|].
    case_decide; [done|apply IH].
Qed.

Lemma dget_dset d k k' v :
  dget (dset d k v) k' = if decide (k = k') then Some v else dget d k'.
Proof.
  case_decide; subst; [apply dget_dset_eq|by apply dget_dset_ne].
Qed.

Lemma dget_dpop d k k' :
  dget (dpop d k) k' = if decide (k = k') then None else dget d k'.
Proof.
  induction d as [|[k2 v2] d IH]; cbn; [by case_decide|].
  destruct (decide (k = k2)); subst; cbn; rewrite ?IH; repeat case_decide; congruence.
Qed.

Lemma dmem_true d k : dmem d k = true ↔ is_Some (dget d k).
Proof.
  unfold dmem. destruct (dget d k); [naive_solver eauto|].
  split; [done|]. by intros [? ?].
Qed.

Lemma dmem_false d k : dmem d k = false ↔ dget d k = None.
Proof. unfold dmem. by destruct (dget d k). Qed.

Lemma dget_elem_of d k v : dget d k = Some v → (k, v) ∈ d.
Proof.
  induction d as [|[k' v'] d IH]; cbn; [done|].
  case_decide as Hk; intros Hd; [simplify_eq; by left|right; auto].
Qed.

Lemma dget_None_not_key d k : dget d k = None ↔ k ∉ dkeys d.
Proof.
  induction d as [|[k' v'] d IH]; cbn; [set_solver|].
  rewrite not_elem_of_cons. case_decide; [naive_solver|]. rewrite IH. naive_solver.
Qed.

Lemma elem_of_dget d k v : NoDup (dkeys d) → (k, v) ∈ d → dget d k = Some v.
Proof.
  induction d as [|[k' v'] d IH]; cbn; [set_solver|].
  intros [Hni Hnd]%NoDup_cons [?|Hin]%elem_of_cons; simplify_eq.
  - by rewrite decide_True.
  - rewrite decide_False; [by apply IH|].
    intros ->. apply Hni, list_elem_of_fmap. by exists (k', v).
Qed.

Lemma dkeys_dset d k v :
  dkeys (dset d k v) = if dmem d k then dkeys d else dkeys d ++ [k].
Proof.
  induction d as [|[k' v'] d IH]; cbn; [done|].
  unfold dmem, dkeys in *; cbn. case_decide; cbn; [done|].
  rewrite IH. by destruct (dget d k).
Qed.

Lemma NoDup_dkeys_dset d k v : NoDup (dkeys d) → NoDup (dkeys (dset d k v)).
Proof.
  intros Hnd. rewrite dkeys_dset. destruct (dmem d k) eqn:E; [done|].
  apply dmem_false, dget_None_not_key in E. apply NoDup_app.
  split; [done|]. split; [set_solver|apply NoDup_singleton].
Qed.

Lemma dkeys_elem_of d k : k ∈ dkeys d ↔ is_Some (dget d k).
Proof.
  destruct (dget d k) eqn:E.
  - split; [eauto|]. intros _. apply dget_elem_of in E.
    apply list_elem_of_fmap. by exists (k, v).
  - apply dget_None_not_key in E. split; [done|]. by intros [? ?].
Qed.

Lemma NoDup_dkeys_dupdate l d :
  NoDup (dkeys d) → NoDup (dkeys (dupdate d l)).
Proof.
  revert d; induction l as [|[k v] l IH]; intros d Hnd; cbn; [done|].
  by apply IH, NoDup_dkeys_dset.
Qed.

Lemma dget_dupdate_notin l d k : k ∉ map fst l → dget (dupdate d l) k = dget d k.
Proof.
  revert d; induction l as [|[k' v] l IH]; intros d Hni; cbn in *; [done|].
  apply not_elem_of_cons in Hni as [Hne Hni].
  unfold dupdate in IH. rewrite IH; [|done]. by apply dget_dset_ne.
Qed.

Lemma dget_dict_of_pairs (l : list (K * V)) k :
  NoDup (map fst l) → dget (dict_of_pairs l) k = dget l k.
Proof.
  unfold dict_of_pairs. cut (∀ d, NoDup (map fst l) →
    dget (dupdate d l) k = match dget l k with Some v => Some v | None => dget d k end).
  { intros Hc Hnd. rewrite Hc; [|done]. by destruct (dget l k). }
  induction l as [|[k' v] l IH]; intros d Hnd; cbn in *; [done|].
  apply NoDup_cons in Hnd as [Hni Hnd]. unfold dupdate in IH. rewrite IH; [|done].
  case_decide; subst.
  - assert (dget l k' = None) as -> by (by apply dget_None_not_key).
    by rewrite dget_dset_eq.
  - by rewrite dget_dset_ne.
Qed.
End dict.

Local Open Scope Z_scope.

(** [d[k] = d.get(k, 0) + n] *)
Definition dadd {K} `{EqDecision K} (d : dict K Z) (k : K) (n : Z) : dict K Z :=
  dset d k (dget_default 0 d k + n).

Lemma dget_dadd {K} `{EqDecision K} (d : dict K Z) k k' n :
  dget_default 0 (dadd d k n) k' = dget_default 0 d k' + (if decide (k = k') then n else 0).
Proof. unfold dadd, dget_default. rewrite dget_dset. case_decide; subst; cbn; lia. Qed.

Lemma dget_fmap_values {K V W} `{EqDecision K} (f : V → W) (d : dict K V) k :
  dget ((λ '(k, v), (k, f v)) <$> d) k = f <$> dget d k.
Proof. induction d as [|[k' v] d IH]; cbn; [done|]. by case_decide. Qed.

#[export] Hint Rewrite @dget_dset_eq : simrw.
#[export] Hint Resolve NoDup_dkeys_dset NoDup_dkeys_dupdate : sim.
