(* ===== verification/PySort.v ===== *)
(** Python's [sorted]: a stable sort by a boolean order.  Also [bisect_left] and
    [dict.fromkeys] used for removing duplicates. *)

From S2P Require Import Prelude.
From Stdlib Require Import Sorting.Sorted.
From stdpp Require Import sorting.

Section sort.
Context {A : Type} (leb : A → A → bool).

Fixpoint insert_sorted (x : A) (l : list A) : list A :=
  match l with
  | [] => [x]
  | y :: l => if leb x y then x :: y :: l else y :: insert_sorted x l
  end.

(** [sorted(l)]; an element stays before the later elements it ties with. *)
Fixpoint py_sorted (l : list A) : list A :=
  match l with
  | [] => []
  | x :: l => insert_sorted x (py_sorted l)
  end.

Lemma insert_sorted_perm x l : insert_sorted x l ≡ₚ x :: l.
Proof.
  induction l as [|y l IH]; cbn; [done|].
  destruct (leb x y); [done|]. rewrite IH. apply perm_swap.
Qed.

Lemma py_sorted_perm l : py_sorted l ≡ₚ l.
Proof. induction l as [|x l IH]; cbn; [done|]. by rewrite insert_sorted_perm, IH. Qed.

Lemma elem_of_py_sorted x l : x ∈ py_sorted l ↔ x ∈ l.
Proof. by rewrite py_sorted_perm. Qed.

Lemma length_py_sorted l : length (py_sorted l) = length l.
Proof. apply Permutation_length, py_sorted_perm. Qed.

Context (leb_total : ∀ x y, leb x y = true ∨ leb y x = true).
Context (leb_trans : ∀ x y z, leb x y = true → leb y z = true → leb x z = true).

Lemma insert_sorted_sorted x l :
  StronglySorted (λ a b, leb a b = true) l →
  StronglySorted (λ a b, leb a b = true) (insert_sorted x l).
Proof.
  induction 1 as [|y l Hs IH Hall]; cbn; [repeat constructor|].
  destruct (leb x y) eqn:E.
  - constructor; [by constructor|]. constructor; [done|].
    eapply Forall_impl; [done|]. intros z Hz. by eapply leb_trans.
  - constructor; [done|]. rewrite insert_sorted_perm. constructor; [|done].
    destruct (leb_total x y); congruence.
Qed.

Lemma py_sorted_sorted l : StronglySorted (λ a b, leb a b = true) (py_sorted l).
Proof.
  induction l as [|x l IH]; cbn; [constructor|]. by apply insert_sorted_sorted.
Qed.
End sort.

(** Orders on the keys the code sorts by. *)
Definition Z_leb : Z → Z → bool := Z.leb.

Definition pair_leb {A B} (eqb : A → A → bool) (la : A → A → bool) (lb : B → B → bool)
    (x y : A * B) : bool :=
  if eqb x.1 y.1 then lb x.2 y.2 else la x.1 y.1.

(** Python compares strings by code point, as [String.leb] does on bytes. *)
Definition str_leb (a b : string) : bool := String.leb a b.

Lemma str_leb_total a b : str_leb a b = true ∨ str_leb b a = true.
Proof. apply String.leb_total. Qed.

(** A boolean total order, as [sorted] needs it. *)
Class LebOrder {A} (leb : A → A → bool) : Prop := {
  leb_total x y : leb x y = true ∨ leb y x = true;
  leb_trans x y z : leb x y = true → leb y z = true → leb x z = true;
  leb_antisym x y : leb x y = true → leb y x = true → x = y;
}.

#[export] Instance Z_leb_order : LebOrder Z.leb.
Proof. split; intros; lia. Qed.

Lemma str_leb_cons c1 s1 c2 s2 :
  str_leb (String c1 s1) (String c2 s2) =
  match N.compare (Ascii.N_of_ascii c1) (Ascii.N_of_ascii c2) with
  | Eq => str_leb s1 s2 | Lt => true | Gt => false
  end.
Proof. unfold str_leb, String.leb. cbn. unfold Ascii.compare. by destruct (N.compare _ _). Qed.

#[export] Instance str_leb_order : LebOrder str_leb.
Proof.
  split; [exact str_leb_total| |].
  - intros x. induction x as [|c x IH]; intros [|c' y] [|c2 z]; [done..|].
    rewrite !str_leb_cons. intros H1 H2.
    destruct (N.compare_spec (Ascii.N_of_ascii c) (Ascii.N_of_ascii c')) as [E1|E1|E1]; [| |done];
      destruct (N.compare_spec (Ascii.N_of_ascii c') (Ascii.N_of_ascii c2)) as [E2|E2|E2]; try done;
      destruct (N.compare_spec (Ascii.N_of_ascii c) (Ascii.N_of_ascii c2)); try lia; try done.
    by eapply IH.
  - intros x. induction x as [|c x IH]; intros [|c' y]; [done..|].
    rewrite !str_leb_cons, (N.compare_antisym (Ascii.N_of_ascii c)).
    destruct (N.compare_spec (Ascii.N_of_ascii c) (Ascii.N_of_ascii c')) as [E|E|E]; cbn; try done.
    intros H1 H2. f_equal; [|by apply IH].
    rewrite <- (Ascii.ascii_N_embedding c), E. apply Ascii.ascii_N_embedding.
Qed.

#[export] Instance pair_leb_order {A B} (eqb la : A → A → bool) (lb : B → B → bool)
  `{!LebOrder la} `{!LebOrder lb} (Heqb : ∀ x y, reflect (x = y) (eqb x y)) :
  LebOrder (pair_leb eqb la lb).
Proof.
  unfold pair_leb. split.
  - intros [x1 x2] [y1 y2]. cbn. destruct (Heqb x1 y1) as [->|Hne].
    + destruct (Heqb y1 y1); [apply leb_total|done].
    + destruct (Heqb y1 x1); [congruence|apply leb_total].
  - intros [x1 x2] [y1 y2] [z1 z2]. cbn.
    destruct (Heqb x1 y1) as [->|H1], (Heqb y1 z1) as [->|H2].
    + destruct (Heqb z1 z1); [apply leb_trans|done].
    + destruct (Heqb y1 z1); [done|auto].
    + destruct (Heqb x1 z1); [done|auto].
    + destruct (Heqb x1 z1) as [->|_]; [|apply leb_trans].
      intros Ha Hb. exfalso. apply H1. by apply leb_antisym.
  - intros [x1 x2] [y1 y2]. cbn. destruct (Heqb x1 y1) as [->|H1].
    + destruct (Heqb y1 y1); [|done]. intros. f_equal. by apply leb_antisym.
    + destruct (Heqb y1 x1); [congruence|]. intros. exfalso. by apply H1, leb_antisym.
Qed.

Lemma py_sorted_ordered {A} (leb : A → A → bool) `{!LebOrder leb} l :
  StronglySorted (λ a b, leb a b = true) (py_sorted leb l).
Proof. apply py_sorted_sorted; [apply leb_total|apply leb_trans]. Qed.

(** [bisect_left(a, x)] on an ascending list of integers. *)
Fixpoint bisect_left (a : list nat) (x : nat) : nat :=
  match a with
  | [] => 0
  | y :: a => if decide (y < x) then S (bisect_left a x) else 0
  end.

(** [tuple(dict.fromkeys(l))]: first occurrences, in order. *)
Fixpoint fromkeys_acc {A} `{EqDecision A} (seen : list A) (l : list A) : list A :=
  match l with
  | [] => []
  | x :: l => if decide (x ∈ seen) then fromkeys_acc seen l else x :: fromkeys_acc (x :: seen) l
  end.
Definition fromkeys {A} `{EqDecision A} (l : list A) : list A := fromkeys_acc [] l.

Lemma elem_of_fromkeys_acc {A} `{EqDecision A} (l seen : list A) x :
  x ∈ fromkeys_acc seen l ↔ x ∈ l ∧ x ∉ seen.
Proof.
  revert seen; induction l as [|y l IH]; intros seen; cbn; [set_solver|].
  case_decide.
  - rewrite IH. set_solver.
  - rewrite elem_of_cons, IH, !elem_of_cons. destruct (decide (x = y)); set_solver.
Qed.

Lemma elem_of_fromkeys {A} `{EqDecision A} (l : list A) x : x ∈ fromkeys l ↔ x ∈ l.
Proof. unfold fromkeys. rewrite elem_of_fromkeys_acc. set_solver. Qed.

(** Sorting related lists by related orders keeps the lists related. *)
Lemma py_sorted_related {A B} (R : A → B → Prop) (la : A → A → bool) (lb : B → B → bool) l k :
  (∀ x y x' y', R x x' → R y y' → la x y = lb x' y') →
  Forall2 R l k → Forall2 R (py_sorted la l) (py_sorted lb k).
Proof.
  intros HR Hl. assert (∀ x x' l k, R x x' → Forall2 R l k → Forall2 R (insert_sorted la x l) (insert_sorted lb x' k)) as Hins.
  { intros x x' l' k' Hx. induction 1 as [|y y' l' k' Hy Hl' IH]; cbn; [by repeat constructor|].
    rewrite (HR x y x' y') by done. destruct (lb x' y'); repeat constructor; done. }
  induction Hl as [|x x' l k Hx Hl IH]; cbn; [constructor|]. by apply Hins.
Qed.

(** An order that agrees on the elements of a list with the order of their keys sorts it. *)
Lemma py_sorted_by_key {A K} (leb : A → A → bool) (key : A → K) (lebk : K → K → bool) `{!LebOrder lebk} l :
  (∀ x y, x ∈ l → y ∈ l → leb x y = lebk (key x) (key y)) →
  StronglySorted (λ x y, lebk (key x) (key y) = true) (py_sorted leb l).
Proof.
  intros Hkey. assert (py_sorted leb l = py_sorted (λ x y, lebk (key x) (key y)) l) as ->.
  { apply list_eq_Forall2. eapply Forall2_impl; [apply (py_sorted_related (λ x y, x = y ∧ x ∈ l))|by intros ? ? [? _]].
    - by intros x y _ _ [<- Hx] [<- Hy]; apply Hkey.
    - apply Forall_Forall2_diag, Forall_forall. done. }
  apply py_sorted_sorted; [intros; apply leb_total|intros; by eapply leb_trans].
Qed.

(** The first elements of a sorted list: at most [n] of its elements, and no other comes before them. *)
Lemma take_sorted_top {A} (P : A → A → Prop) (leb : A → A → bool) n l :
  StronglySorted P (py_sorted leb l) →
  let top := take n (py_sorted leb l) in
  length top = Nat.min n (length l) ∧ (∀ x, x ∈ top → x ∈ l) ∧ ∀ x y, x ∈ top → y ∈ l → y ∉ top → P x y.
Proof.
  intros Hs top. split; [by unfold top; rewrite length_take, length_py_sorted|].
  split; [intros x Hx; apply (elem_of_py_sorted leb); by eapply elem_of_take in Hx as (? & ?%list_elem_of_lookup_2 & _)|].
  intros x y Hx Hy%(elem_of_py_sorted leb) Hn. rewrite <- (take_drop n (py_sorted leb l)) in Hs, Hy.
  apply StronglySorted_app in Hs as (Hp & _ & _). apply Hp; [done|]. apply elem_of_app in Hy as [?|?]; done.
Qed.
