(* ===== verification/PyStr.v ===== *)
(** The Python string operations the simulator uses, on ASCII strings: [lower],
    [upper], [strip], [startswith], [endswith], [split], slices, the substring test [in] and [int].
    Characters outside ASCII are left as they are. *)

From S2P Require Import Prelude.
Local Open Scope string_scope.

Definition lower_char (c : Ascii.ascii) : Ascii.ascii :=
  let n := Ascii.nat_of_ascii c in
  if (65 <=? n)%nat && (n <=? 90)%nat then Ascii.ascii_of_nat (n + 32) else c.

Definition upper_char (c : Ascii.ascii) : Ascii.ascii :=
  let n := Ascii.nat_of_ascii c in
  if (97 <=? n)%nat && (n <=? 122)%nat then Ascii.ascii_of_nat (n - 32) else c.

(** ASCII characters for which [str.isspace] holds: TAB..CR, FS..US and space. *)
Definition is_space (c : Ascii.ascii) : bool :=
  let n := Ascii.nat_of_ascii c in
  ((9 <=? n)%nat && (n <=? 13)%nat) || ((28 <=? n)%nat && (n <=? 32)%nat).

Fixpoint map_string (f : Ascii.ascii → Ascii.ascii) (s : string) : string :=
  match s with
  | EmptyString => EmptyString
  | String c s => String (f c) (map_string f s)
  end.

Definition lower : string → string := map_string lower_char.
Definition upper : string → string := map_string upper_char.

Fixpoint lstrip (s : string) : string :=
  match s with
  | EmptyString => EmptyString
  | String c s' => if is_space c then lstrip s' else s
  end.

(** Drop trailing white space: a character is dropped when nothing but white
    space follows it. *)
Fixpoint rstrip (s : string) : string :=
  match s with
  | EmptyString => EmptyString
  | String c s' =>
      match rstrip s' with
      | EmptyString => if is_space c then EmptyString else String c EmptyString
      | r => String c r
      end
  end.

Definition strip (s : string) : string := rstrip (lstrip s).

(** [s.strip().lower()], the normal form of every name the simulator compares. *)
Definition normalize (s : string) : string := lower (strip s).

Definition startswith (p s : string) : bool := String.prefix p s.

(** [p in s] *)
Fixpoint contains (p s : string) : bool :=
  String.prefix p s ||
  match s with
  | EmptyString => false
  | String _ s' => contains p s'
  end.

(** [s[n:]] *)
Fixpoint drop_chars (n : nat) (s : string) : string :=
  match n, s with
  | O, _ => s
  | S n, String _ s' => drop_chars n s'
  | S _, EmptyString => EmptyString
  end.

(** [s.split(c, 1)[0]] for a one-character separator *)
Fixpoint before_first (c : Ascii.ascii) (s : string) : string :=
  match s with
  | EmptyString => EmptyString
  | String x s' => if decide (x = c) then EmptyString else String x (before_first c s')
  end.

(** [s.rsplit(sep, 1)[-1]]: what follows the last occurrence of the separator *)
Fixpoint after_last (sep s : string) : string :=
  match s with
  | EmptyString => EmptyString
  | String _ s' =>
      if contains sep s' then after_last sep s'
      else if String.prefix sep s then drop_chars (String.length sep) s
      else s
  end.

(** The text before and after the first occurrence of [sep]. *)
Fixpoint cut (sep s : string) : option (string * string) :=
  if String.prefix sep s then Some (EmptyString, drop_chars (String.length sep) s)
  else match s with
       | EmptyString => None
       | String c s' => '(before, after) ← cut sep s'; Some (String c before, after)
       end.

(** [s.split(sep)] for a separator that is not empty: every part but the last consumes it. *)
Fixpoint split_fuel (fuel : nat) (sep s : string) : list string :=
  match fuel, cut sep s with
  | S fuel, Some (before, after) => before :: split_fuel fuel sep after
  | _, _ => [s]
  end.
Definition split_on (sep s : string) : list string := split_fuel (String.length s) sep s.

Example split_dtypes :
  split_on "_to_" "float16_to_float32" = ["float16"; "float32"] ∧ split_on "_to_" "_to__to_" = [""; ""; ""] ∧
  split_on "_to_" "" = [""].
Proof. repeat split; reflexivity. Qed.

(** [s[:-1]] *)
Fixpoint drop_last (s : string) : string :=
  match s with
  | EmptyString | String _ EmptyString => EmptyString
  | String c s' => String c (drop_last s')
  end.

(** [s.endswith(p)] for a suffix that is not empty *)
Fixpoint endswith (p s : string) : bool :=
  String.eqb p s || match s with EmptyString => false | String _ s' => endswith p s' end.

(** [int(s)]: blanks around it, a sign, and digits that single underscores may group. *)
Definition digit_of (c : Ascii.ascii) : option Z :=
  let n := Z.of_nat (Ascii.nat_of_ascii c) in (if (48 <=? n) && (n <=? 57) then Some (n - 48) else None)%Z.
Definition is_underscore (c : Ascii.ascii) : bool := (Ascii.nat_of_ascii c =? 95)%nat.
Fixpoint digits_from (acc : Z) (s : string) : option Z :=
  match s with
  | EmptyString => Some acc
  | String c s' =>
      match digit_of c with
      | Some d => digits_from (acc * 10 + d)%Z s'
      | None =>
          if is_underscore c then
            match s' with
            | String c' s'' => match digit_of c' with Some d => digits_from (acc * 10 + d)%Z s'' | None => None end
            | EmptyString => None
            end
          else None
      end
  end.
Definition unsigned_int (s : string) : option Z :=
  match s with
  | String c s' => match digit_of c with Some d => digits_from d s' | None => None end
  | EmptyString => None
  end.
Definition parse_int (s : string) : option Z :=
  let s := strip s in
  if startswith "-" s then z ← unsigned_int (drop_chars 1 s); Some (- z)%Z
  else if startswith "+" s then unsigned_int (drop_chars 1 s)
  else unsigned_int s.

Example parse_int_examples :
  parse_int " 128 " = Some 128%Z ∧ parse_int "-1" = Some (-1)%Z ∧ parse_int "1_000" = Some 1000%Z ∧
  parse_int "1__0" = None ∧ parse_int "" = None ∧ parse_int "K" = None ∧
  endswith ">" "mma<half>" = true ∧ drop_last "half>" = "half".
Proof. repeat split; vm_compute; reflexivity. Qed.

(** [x in {a, b, ...}] for sets of strings *)
Definition mem_str (x : string) (l : list string) : bool := bool_decide (x ∈ l).

Lemma mem_str_true x l : mem_str x l = true ↔ x ∈ l.
Proof. apply bool_decide_eq_true. Qed.

Lemma mem_str_false x l : mem_str x l = false ↔ x ∉ l.
Proof. apply bool_decide_eq_false. Qed.

Lemma lower_char_idem c : lower_char (lower_char c) = lower_char c.
Proof. destruct c as [[] [] [] [] [] [] [] []]; reflexivity. Qed.

Lemma is_space_lower c : is_space (lower_char c) = is_space c.
Proof. destruct c as [[] [] [] [] [] [] [] []]; reflexivity. Qed.

Lemma lower_idem s : lower (lower s) = lower s.
Proof.
  unfold lower. induction s as [|c s IH]; cbn; [done|]. by rewrite lower_char_idem, IH.
Qed.

Lemma lstrip_lower s : lstrip (lower s) = lower (lstrip s).
Proof.
  unfold lower. induction s as [|c s IH]; cbn; [done|]. rewrite is_space_lower.
  by destruct (is_space c).
Qed.

Lemma rstrip_lower s : rstrip (lower s) = lower (rstrip s).
Proof.
  unfold lower. induction s as [|c s IH]; cbn; [done|]. rewrite IH, is_space_lower.
  destruct (rstrip s); cbn; [by destruct (is_space c)|done].
Qed.

Lemma rstrip_idem s : rstrip (rstrip s) = rstrip s.
Proof.
  induction s as [|c s IH]; cbn; [done|].
  destruct (rstrip s) as [|c' r] eqn:E.
  - destruct (is_space c) eqn:Es; cbn; [done|]. by rewrite Es.
  - cbn [rstrip] in *. by rewrite IH.
Qed.

Lemma lstrip_rstrip_lstrip s : lstrip (rstrip (lstrip s)) = rstrip (lstrip s).
Proof.
  induction s as [|c s IH]; cbn; [done|].
  destruct (is_space c) eqn:Es; [done|]. cbn.
  destruct (rstrip s) as [|c' r]; cbn; rewrite Es; cbn; by rewrite ?Es.
Qed.

Lemma strip_idem s : strip (strip s) = strip s.
Proof. unfold strip. by rewrite lstrip_rstrip_lstrip, rstrip_idem. Qed.

Lemma normalize_idem s : normalize (normalize s) = normalize s.
Proof.
  unfold normalize, strip. by rewrite lstrip_lower, rstrip_lower, lower_idem,
    lstrip_rstrip_lstrip, rstrip_idem.
Qed.

#[export] Hint Rewrite normalize_idem strip_idem lower_idem : simrw.

(** Evaluate the membership tests on literal strings in the goal. *)
Ltac eval_mem_str :=
  repeat match goal with
  | |- context [mem_str ?x ?l] =>
      let b := eval vm_compute in (mem_str x l) in
      lazymatch b with
      | true => change (mem_str x l) with true
      | false => change (mem_str x l) with false
      end
  end; cbv iota.
