(* ===== verification/Errors.v ===== *)
(** Exceptions of the simulator ([errors.py]) and the rejection of physical shmem.

    An exception is its class, a label naming the [raise] statement and the identifiers
    its message interpolates.  The class hierarchy is the one [errors.py] declares, with
    the Python base classes it names. *)

From S2P Require Import Prelude PyStr.
Local Open Scope string_scope.

Inductive exn_class :=
| SimulatorError
| SimulatorConfigError
| ProgramValidationError
| UnsupportedSimOpError
| UnsupportedMemoryScopeError
| MemoryAccessError
| MemoryBoundsError
| MemoryCapacityError
| MemoryHazardError
| UninitializedMemoryError
| SchedulerError
| UnknownDependencyError
| SimulationDeadlockError
| SimulationLimitError
| ValueError
| KeyError
| IndexError
| TypeError
| RuntimeError
| NotImplementedError
| RecursionError
| OverflowError
| ZeroDivisionError
| AttributeError
| AssertionError.

#[global] Instance exn_class_eq_dec : EqDecision exn_class.
Proof. solve_decision. Defined.

(** Direct base classes. *)
Definition exn_bases (c : exn_class) : list exn_class :=
  match c with
  | SimulatorError => [RuntimeError]
  | SimulatorConfigError => [SimulatorError; ValueError]
  | ProgramValidationError => [SimulatorError; ValueError]
  | UnsupportedSimOpError => [SimulatorError; NotImplementedError]
  | UnsupportedMemoryScopeError => [UnsupportedSimOpError]
  | MemoryAccessError => [SimulatorError]
  | MemoryBoundsError => [MemoryAccessError; IndexError]
  | MemoryCapacityError => [MemoryAccessError]
  | MemoryHazardError => [MemoryAccessError]
  | UninitializedMemoryError => [MemoryHazardError]
  | SchedulerError => [SimulatorError]
  | UnknownDependencyError => [SchedulerError]
  | SimulationDeadlockError => [SchedulerError]
  | SimulationLimitError => [SchedulerError]
  | NotImplementedError => [RuntimeError]
  | RecursionError => [RuntimeError]
  | ValueError | KeyError | IndexError | TypeError | RuntimeError | OverflowError
  | ZeroDivisionError | AttributeError | AssertionError => []
  end.

(** [issubclass(c, d)]; the hierarchy is at most five levels deep. *)
Fixpoint is_subclass_fuel (fuel : nat) (c d : exn_class) : bool :=
  bool_decide (c = d) ||
  match fuel with
  | O => false
  | S n => existsb (λ b, is_subclass_fuel n b d) (exn_bases c)
  end.
Definition is_subclass : exn_class → exn_class → bool := is_subclass_fuel 5.

Record exn := Exn {
  exn_cls : exn_class;
  exn_label : string;
  exn_names : list string;
}.

Abbreviation result := (outcome exn).

Definition raise {A} (c : exn_class) (label : string) : result A := Raise (Exn c label []).
Definition raise_with {A} (c : exn_class) (label : string) (names : list string) : result A :=
  Raise (Exn c label names).
Definition ensure (b : bool) (c : exn_class) (label : string) : result unit :=
  require b (Exn c label []).

Definition raises_class {A} (c : exn_class) (m : result A) : Prop :=
  match m with Ok _ => False | Raise e => exn_cls e = c end.

(** [reject_shmem]: physical cross-core shmem is outside the simulator. *)
Definition reject_shmem (scope : string) : result unit :=
  let normalized := normalize scope in
  if mem_str normalized ["shmem"; "shared.shmem"; "shared_memory"] then
    raise UnsupportedMemoryScopeError "shmem"
  else Ok tt.

(** [reject_shmem_operation]: the cross-PE shmem intrinsics. *)
Definition reject_shmem_operation (operation : string) : result unit :=
  let normalized := normalize operation in
  if contains "shmem_" normalized || contains "ascend_shmem" normalized then
    raise_with UnsupportedSimOpError "shmem operation" [operation]
  else Ok tt.

Lemma ensure_ok b c l u : ensure b c l = Ok u ↔ b = true.
Proof. apply require_ok. Qed.

Ltac inv_res :=
  repeat (progress inv_ok ||
    match goal with
    | H : ensure _ _ _ = Ok _ |- _ => apply ensure_ok in H
    | H : raise _ _ = Ok _ |- _ => discriminate H
    | H : raise_with _ _ _ = Ok _ |- _ => discriminate H
    | H : mret _ = Ok _ |- _ => unfold mret, outcome_ret in H
    end).
