(* ===== verification/PyFloat.v ===== *)
(** Python floats: IEEE 754 binary64 with round to nearest, ties to even, computed by the
    Standard Library's specification of floating-point arithmetic.  The code uses literals,
    products, sums, quotients of integers, rounding to binary32 and truncation to integers. *)

From Stdlib Require Import Floats.SpecFloat.
From S2P Require Import Prelude Errors.
Local Open Scope string_scope.
Local Open Scope Z_scope.

Abbreviation float := spec_float.

Definition mantissa (z : Z) (e : Z) : float :=
  match z with
  | Z0 => S754_zero false
  | Zpos p => S754_finite false p e
  | Zneg p => S754_finite true p e
  end.

(** The nearest double to [a / b]: Python's [a / b] on integers, and the literals. *)
Definition float_div_int (a b : Z) : float := SFdiv 53 1024 (mantissa a 0) (mantissa b 0).

(** [float(z)] *)
Definition float_of_int (z : Z) : result float :=
  match binary_normalize 53 1024 z 0 false with
  | S754_infinity _ => raise OverflowError "int too large to convert to float"
  | f => Ok f
  end.

Definition float_mul (x y : float) : float := SFmul 53 1024 x y.
Definition float_add (x y : float) : float := SFadd 53 1024 x y.

(** [unpack("f", pack("f", x))[0]]: rounding to binary32, which must be in range *)
Definition round32 (x : float) : result float :=
  match x with
  | S754_finite sign m e =>
      match binary_normalize 24 128 (if sign then Zneg m else Zpos m) e sign with
      | S754_infinity _ => raise OverflowError "float too large to pack with f format"
      | f => Ok f
      end
  | _ => Ok x
  end.

(** [int(x)]: truncation *)
Definition int_of_float (x : float) : result Z :=
  match x with
  | S754_zero _ => Ok 0
  | S754_finite sign m e =>
      let magnitude := if 0 <=? e then Z.shiftl (Zpos m) e else Z.shiftr (Zpos m) (- e) in
      Ok (if sign then - magnitude else magnitude)
  | S754_infinity _ => raise OverflowError "cannot convert float infinity to integer"
  | S754_nan => raise ValueError "cannot convert float NaN to integer"
  end.

(** The bit pattern of a double. *)
Definition float_bits (f : float) : Z :=
  match f with
  | S754_finite sign m e =>
      Z.lor (Z.shiftl (Z.b2z sign) 63)
        (if Z.pos m <? 2 ^ 52 then Z.pos m else Z.shiftl (e + 1075) 52 + (Z.pos m - 2 ^ 52))
  | S754_zero sign => Z.shiftl (Z.b2z sign) 63
  | S754_infinity sign => Z.lor (Z.shiftl (Z.b2z sign) 63) (Z.shiftl 2047 52)
  | S754_nan => Z.shiftl 4095 51
  end.
Definition true_div (a b : Z) : Z := float_bits (float_div_int a b).

Example true_div_half : true_div 1 2 = 0x3fe0000000000000.
Proof. vm_compute. reflexivity. Qed.
Example true_div_third : true_div 1 3 = 0x3fd5555555555555.
Proof. vm_compute. reflexivity. Qed.
(** 0.1 + 0.2 = 0.30000000000000004, and 0.1 as a binary32. *)
Example tenths : float_bits (float_add (float_div_int 1 10) (float_div_int 2 10)) = 0x3fd3333333333334.
Proof. vm_compute. reflexivity. Qed.
Example tenth32 : (float_bits <$> [float_mul (float_div_int 1 1) (float_div_int 1 10)],
                   int_of_float (float_mul (float_div_int 25 10) (float_div_int 3 1))) =
                  ([0x3fb999999999999a], Ok 7).
Proof. vm_compute. reflexivity. Qed.
