(* ===== verification/Layout.v ===== *)
(** The physical matrix-layout codecs of [layout.py]: how a logical [rows x cols] matrix is
    laid out in L1 / L0A / L0B / L0C storage.  The theorems show that [physical_index] is a
    total injection of the logical coordinates into the padded storage, so that
    [unpack_matrix] inverts [pack_matrix] for every supported layout. *)

From S2P Require Import Prelude PyStr Errors.
Local Open Scope string_scope.
Local Open Scope Z_scope.
Local Open Scope list_scope.

Definition BYTE_PER_C0 : Z := 32.
Definition C0_NUM_PER_FRACTAL : Z := 16.
Definition BYTE_PER_FRACTAL : Z := BYTE_PER_C0 * C0_NUM_PER_FRACTAL.

Definition ceil_div (value divisor : Z) : Z := (value + divisor - 1) / divisor.
Definition round_up (value alignment : Z) : Z := ceil_div value alignment * alignment.

(** [_validate]: rows, columns and elements per C0 block. *)
Definition validate (shape : list Z) (itemsize : Z) : result (Z * Z * Z) :=
  match shape with
  | [rows; cols] =>
      if (rows <? 0) || (cols <? 0) then raise ProgramValidationError "non-negative 2D shape"
      else if (itemsize <=? 0) || negb (BYTE_PER_C0 mod itemsize =? 0) then
        raise ProgramValidationError "item size"
      else Ok (rows, cols, BYTE_PER_C0 / itemsize)
  | _ => raise ProgramValidationError "non-negative 2D shape"
  end.

(** [storage_elements]: padded physical capacity of a logical matrix. *)
Definition storage_elements (layout : string) (shape : list Z) (itemsize : Z) : result Z :=
  '(rows, cols, elements_per_c0) ← validate shape itemsize;
  let normalized := normalize layout in
  if mem_str normalized ["row_major"] then Ok (rows * cols)
  else if mem_str normalized ["l0c"] then
    Ok (round_up rows C0_NUM_PER_FRACTAL * round_up cols C0_NUM_PER_FRACTAL)
  else if mem_str normalized ["zn"; "zz"; "l0a"] then
    Ok (round_up rows C0_NUM_PER_FRACTAL * round_up cols elements_per_c0)
  else if mem_str normalized ["nz"; "l0b"] then
    Ok (round_up rows elements_per_c0 * round_up cols C0_NUM_PER_FRACTAL)
  else raise UnsupportedSimOpError "matrix layout".

(** [physical_index]: the physical element offset of one logical coordinate. *)
Definition physical_index (layout : string) (row col : Z) (shape : list Z) (itemsize : Z)
    : result Z :=
  '(rows, cols, elements_per_c0) ← validate shape itemsize;
  if negb ((0 <=? row) && (row <? rows) && ((0 <=? col) && (col <? cols))) then
    raise ProgramValidationError "logical coordinate"
  else
  let elements_per_fractal := BYTE_PER_FRACTAL / itemsize in
  let normalized := normalize layout in
  if mem_str normalized ["row_major"] then Ok (row * cols + col)
  else if mem_str normalized ["l0c"] then
    Ok (row / C0_NUM_PER_FRACTAL * C0_NUM_PER_FRACTAL * C0_NUM_PER_FRACTAL
        + col / C0_NUM_PER_FRACTAL * round_up rows C0_NUM_PER_FRACTAL * C0_NUM_PER_FRACTAL
        + row mod C0_NUM_PER_FRACTAL * C0_NUM_PER_FRACTAL
        + col mod C0_NUM_PER_FRACTAL)
  else if mem_str normalized ["zn"] then
    Ok (row / C0_NUM_PER_FRACTAL * elements_per_fractal
        + col / elements_per_c0 * round_up rows C0_NUM_PER_FRACTAL * elements_per_c0
        + row mod C0_NUM_PER_FRACTAL * elements_per_c0
        + col mod elements_per_c0)
  else if mem_str normalized ["zz"; "l0a"] then
    Ok (row / C0_NUM_PER_FRACTAL * round_up cols elements_per_c0 * C0_NUM_PER_FRACTAL
        + col * C0_NUM_PER_FRACTAL
        + row mod C0_NUM_PER_FRACTAL)
  else if mem_str normalized ["nz"; "l0b"] then
    Ok (row / elements_per_c0 * round_up cols C0_NUM_PER_FRACTAL * elements_per_c0
        + col / C0_NUM_PER_FRACTAL * elements_per_fractal
        + row mod elements_per_c0
        + col mod C0_NUM_PER_FRACTAL * elements_per_c0)
  else raise UnsupportedSimOpError "matrix layout".

(** A NumPy array: its shape and its elements in C order. *)
Record ndarray (A : Type) := NdArray { nd_shape : list Z; nd_data : list A }.
Arguments NdArray {A}.
Arguments nd_shape {A}.
Arguments nd_data {A}.

Definition prod_list (l : list Z) : Z := fold_right Z.mul 1 l.

Definition nd_wf {A} (a : ndarray A) : Prop :=
  Forall (λ e, 0 <= e) (nd_shape a) ∧ Z.of_nat (length (nd_data a)) = prod_list (nd_shape a).

(** [range(n)] and the nested loop [for row in range(rows): for col in range(cols)]. *)
Definition py_range (n : Z) : list Z := Z.of_nat <$> seq 0 (Z.to_nat n).
Definition coords (rows cols : Z) : list (Z * Z) :=
  flat_map (λ row, (λ col, (row, col)) <$> py_range cols) (py_range rows).

(** Element access and assignment, raising as NumPy does out of range. *)
Definition get_index {A} (l : list A) (i : Z) : result A :=
  match l !! Z.to_nat i with
  | Some a => if 0 <=? i then Ok a else raise IndexError "index"
  | None => raise IndexError "index"
  end.

Definition set_index {A} (l : list A) (i : Z) (a : A) : result (list A) :=
  if (0 <=? i) && (i <? Z.of_nat (length l)) then Ok (<[Z.to_nat i := a]> l)
  else raise IndexError "index".

(** The body of the packing loop: [result[index] = matrix[row, col]]. *)
Definition pack_cell {A} (itemsize : Z) (data : list A) (layout : string) (rows cols : Z)
    (acc : list A) (rc : Z * Z) : result (list A) :=
  let '(row, col) := rc in
  index ← physical_index layout row col [rows; cols] itemsize;
  v ← get_index data (row * cols + col);
  set_index acc index v.

(** [pack_matrix]; [itemsize] is the array's [dtype.itemsize], [zero] its [np.zeros] value. *)
Definition pack_matrix {A} (zero : A) (itemsize : Z) (values : ndarray A) (layout : string)
    : result (list A) :=
  match nd_shape values with
  | [rows; cols] =>
      n ← storage_elements layout [rows; cols] itemsize;
      ofold (pack_cell itemsize (nd_data values) layout rows cols)
        (coords rows cols) (replicate (Z.to_nat n) zero)
  | _ => raise ProgramValidationError "pack requires rank 2"
  end.

(** [unpack_matrix]: every element of [np.empty(shape)] is assigned, in C order. *)
Definition unpack_matrix {A} (itemsize : Z) (storage : list A) (layout : string)
    (shape : list Z) : result (ndarray A) :=
  required ← storage_elements layout shape itemsize;
  if Z.of_nat (length storage) <? required then
    raise ProgramValidationError "storage too small"
  else
    match shape with
    | [rows; cols] =>
        data ← omap_list (λ '(row, col),
            index ← physical_index layout row col shape itemsize;
            get_index storage index) (coords rows cols);
        Ok (NdArray shape data)
    | _ => raise ProgramValidationError "non-negative 2D shape"
    end.

(** ** Mixed-radix arithmetic *)

Lemma radix_bound a b A B : 0 <= a < A → 0 <= b < B → 0 <= a * B + b < A * B.
Proof. nia. Qed.

Lemma radix_inj a b a' b' B :
  0 <= b < B → 0 <= b' < B → a * B + b = a' * B + b' → a = a' ∧ b = b'.
Proof. intros Hb Hb' H. assert (a = a') by nia. nia. Qed.

Lemma ceil_div_lt x n d : 0 < d → 0 <= x < n → 0 <= x / d < ceil_div n d.
Proof.
  intros Hd Hx. unfold ceil_div. split; [apply Z.div_pos; lia|].
  apply Z.div_lt_upper_bound; [done|].
  pose proof (Z.div_mod (n + d - 1) d). pose proof (Z.mod_pos_bound (n + d - 1) d). nia.
Qed.

Lemma round_up_ge x d : 0 < d → x <= round_up x d.
Proof.
  intros Hd. unfold round_up, ceil_div.
  pose proof (Z.div_mod (x + d - 1) d). pose proof (Z.mod_pos_bound (x + d - 1) d). nia.
Qed.

Lemma div_mod_inj x y d : 0 < d → x / d = y / d → x mod d = y mod d → x = y.
Proof. intros. rewrite (Z.div_mod x d), (Z.div_mod y d); nia. Qed.

(** Item sizes that divide a C0 block. *)
Lemma validate_ok shape itemsize r :
  validate shape itemsize = Ok r ↔
  ∃ rows cols, shape = [rows; cols] ∧ 0 <= rows ∧ 0 <= cols ∧ 0 < itemsize ∧
    BYTE_PER_C0 mod itemsize = 0 ∧ r = (rows, cols, BYTE_PER_C0 / itemsize).
Proof.
  unfold validate. destruct shape as [|rows [|cols [|? ?]]]; try naive_solver.
  destruct (Z.ltb_spec rows 0), (Z.ltb_spec cols 0); cbn; try (split; [done|naive_solver lia]).
  destruct (Z.leb_spec itemsize 0); cbn; [split; [done|naive_solver lia]|].
  destruct (Z.eqb_spec (BYTE_PER_C0 mod itemsize) 0); cbn; [|split; [done|naive_solver]].
  split; [intros; inv_ok; exists rows, cols; naive_solver|].
  intros (?&?&?&?&?&?&?&->). by simplify_eq.
Qed.

Lemma c0_elements itemsize :
  0 < itemsize → BYTE_PER_C0 mod itemsize = 0 →
  0 < BYTE_PER_C0 / itemsize ∧ BYTE_PER_FRACTAL / itemsize = 16 * (BYTE_PER_C0 / itemsize).
Proof.
  intros Hi Hm. unfold BYTE_PER_FRACTAL, BYTE_PER_C0, C0_NUM_PER_FRACTAL in *.
  apply Z.mod_divide in Hm as [k Hk]; [|lia].
  rewrite Hk. replace (k * itemsize * 16) with (16 * k * itemsize) by ring.
  rewrite !Z.div_mul by lia. nia.
Qed.

(** ** The three index formulas *)

(** zN, L0C and (with the coordinates exchanged) nZ: fractals of [16 x e] elements, stored
    column of fractals by column of fractals. *)
Definition fractal_index (major e r c : Z) : Z :=
  ((c / e) * major + r / 16) * (16 * e) + ((r mod 16) * e + c mod e).

Lemma fractal_index_bound R C e r c :
  0 < e → 0 <= r < R → 0 <= c < C →
  0 <= fractal_index (ceil_div R 16) e r c < round_up R 16 * round_up C e.
Proof.
  intros He Hr Hc. unfold fractal_index, round_up.
  pose proof (ceil_div_lt r R 16 ltac:(lia) Hr) as Hrd.
  pose proof (ceil_div_lt c C e He Hc) as Hcd.
  pose proof (Z.mod_pos_bound r 16). pose proof (Z.mod_pos_bound c e).
  pose proof (radix_bound _ _ _ _ Hcd Hrd) as H1.
  assert (0 <= r mod 16 * e + c mod e < 16 * e) as H2 by (apply radix_bound; lia).
  pose proof (radix_bound _ _ _ _ H1 H2). lia.
Qed.

Lemma fractal_index_inj R e r c r' c' :
  0 < e → 0 <= r < R → 0 <= r' < R →
  fractal_index (ceil_div R 16) e r c = fractal_index (ceil_div R 16) e r' c' →
  r = r' ∧ c = c'.
Proof.
  intros He Hr Hr' Heq. unfold fractal_index in Heq.
  pose proof (Z.mod_pos_bound r 16). pose proof (Z.mod_pos_bound r' 16).
  pose proof (Z.mod_pos_bound c e He). pose proof (Z.mod_pos_bound c' e He).
  apply radix_inj in Heq as [Hq Hm]; [|nia|nia].
  apply radix_inj in Hq as [Hcd Hrd]; [|apply ceil_div_lt; lia|apply ceil_div_lt; lia].
  apply radix_inj in Hm as [Hrm Hcm]; [|lia|lia].
  split; [by apply (div_mod_inj r r' 16)|by apply (div_mod_inj c c' e)].
Qed.

(** L0A zZ: bands of 16 rows, column by column inside a band. *)
Definition band_index (width r c : Z) : Z := ((r / 16) * width + c) * 16 + r mod 16.

Lemma band_index_bound R W r c :
  0 <= r < R → 0 <= c < W → 0 <= band_index W r c < round_up R 16 * W.
Proof.
  intros Hr Hc. unfold band_index, round_up.
  pose proof (ceil_div_lt r R 16 ltac:(lia) Hr) as Hrd.
  pose proof (Z.mod_pos_bound r 16 ltac:(lia)) as Hm.
  pose proof (radix_bound _ _ _ _ Hrd Hc) as H1.
  pose proof (radix_bound _ _ _ _ H1 Hm). lia.
Qed.

Lemma band_index_inj W r c r' c' :
  0 <= c < W → 0 <= c' < W → band_index W r c = band_index W r' c' → r = r' ∧ c = c'.
Proof.
  intros Hc Hc' Heq. unfold band_index in Heq.
  pose proof (Z.mod_pos_bound r 16 ltac:(lia)). pose proof (Z.mod_pos_bound r' 16 ltac:(lia)).
  apply radix_inj in Heq as [Hq Hm]; [|lia|lia].
  apply radix_inj in Hq as [Hd ->]; [|lia|lia].
  split; [by apply (div_mod_inj r r' 16)|done].
Qed.

Definition supported_layouts : list string :=
  ["row_major"; "l0c"; "zn"; "zz"; "l0a"; "nz"; "l0b"].

(** What the two functions compute, by layout. *)
Definition layout_size (s : string) (rows cols e : Z) : Z :=
  if mem_str s ["row_major"] then rows * cols
  else if mem_str s ["l0c"] then round_up rows 16 * round_up cols 16
  else if mem_str s ["zn"; "zz"; "l0a"] then round_up rows 16 * round_up cols e
  else round_up cols 16 * round_up rows e.

Definition layout_index (s : string) (rows cols e row col : Z) : Z :=
  if mem_str s ["row_major"] then row * cols + col
  else if mem_str s ["l0c"] then fractal_index (ceil_div rows 16) 16 row col
  else if mem_str s ["zn"] then fractal_index (ceil_div rows 16) e row col
  else if mem_str s ["zz"; "l0a"] then band_index (round_up cols e) row col
  else fractal_index (ceil_div cols 16) e col row.

(** Case analysis on a supported layout name, with the name substituted. *)
Ltac layout_cases H :=
  unfold supported_layouts in H;
  repeat (apply elem_of_cons in H as [H|H]); [..|by apply elem_of_nil in H];
  rewrite !H in *.

Lemma storage_elements_spec layout shape itemsize n :
  storage_elements layout shape itemsize = Ok n ↔
  ∃ rows cols, validate shape itemsize = Ok (rows, cols, BYTE_PER_C0 / itemsize) ∧
    normalize layout ∈ supported_layouts ∧
    n = layout_size (normalize layout) rows cols (BYTE_PER_C0 / itemsize).
Proof.
  unfold storage_elements. split.
  - intros H. inv_ok. destruct x as [[rows cols] e]. exists rows, cols.
    pose proof H as Hv. apply validate_ok in Hv as (?&?&->&?&?&?&?&?); simplify_eq.
    split; [done|]. revert H0. generalize (normalize layout). intros s Hs.
    unfold layout_size, C0_NUM_PER_FRACTAL in *. unfold supported_layouts.
    destruct (mem_str s ["row_major"]) eqn:E1; inv_res.
    { apply mem_str_true in E1. set_solver. }
    destruct (mem_str s ["l0c"]) eqn:E2; inv_res.
    { apply mem_str_true in E2. set_solver. }
    destruct (mem_str s ["zn"; "zz"; "l0a"]) eqn:E3; inv_res.
    { apply mem_str_true in E3. set_solver. }
    destruct (mem_str s ["nz"; "l0b"]) eqn:E4; inv_res.
    apply mem_str_true in E4. split; [set_solver|apply Z.mul_comm].
  - intros (rows & cols & -> & Hs & ->). cbn.
    unfold layout_size, C0_NUM_PER_FRACTAL.
    layout_cases Hs; eval_mem_str; apply (f_equal Ok); ring.
Qed.

Lemma physical_index_spec layout row col shape itemsize rows cols :
  validate shape itemsize = Ok (rows, cols, BYTE_PER_C0 / itemsize) →
  normalize layout ∈ supported_layouts →
  0 <= row < rows → 0 <= col < cols →
  physical_index layout row col shape itemsize =
    Ok (layout_index (normalize layout) rows cols (BYTE_PER_C0 / itemsize) row col).
Proof.
  intros Hv Hs Hr Hc. unfold physical_index. rewrite Hv. cbn -[normalize BYTE_PER_C0].
  apply validate_ok in Hv as (rows'&cols'&->&?&?&Hi&Hd&Heq). injection Heq as <- <-.
  destruct (c0_elements itemsize Hi Hd) as [He Hf]. rewrite Hf.
  replace ((0 <=? row) && (row <? rows)) with true by lia.
  replace ((0 <=? col) && (col <? cols)) with true by lia. cbn -[normalize BYTE_PER_C0].
  unfold layout_index, fractal_index, band_index, round_up, C0_NUM_PER_FRACTAL.
  layout_cases Hs; eval_mem_str; apply (f_equal Ok); ring.
Qed.

(** ** The codec *)

Lemma layout_index_bound s rows cols e row col :
  s ∈ supported_layouts → 0 < e → 0 <= row < rows → 0 <= col < cols →
  0 <= layout_index s rows cols e row col < layout_size s rows cols e.
Proof.
  intros Hs He Hr Hc. unfold layout_index, layout_size.
  assert (cols <= round_up cols e) by (by apply round_up_ge).
  layout_cases Hs; eval_mem_str;
    first [apply fractal_index_bound; lia | apply band_index_bound; lia | nia].
Qed.

Lemma layout_index_inj s rows cols e r c r' c' :
  s ∈ supported_layouts → 0 < e →
  0 <= r < rows → 0 <= c < cols → 0 <= r' < rows → 0 <= c' < cols →
  layout_index s rows cols e r c = layout_index s rows cols e r' c' → r = r' ∧ c = c'.
Proof.
  intros Hs He Hr Hc Hr' Hc'. unfold layout_index.
  assert (cols <= round_up cols e) by (by apply round_up_ge).
  layout_cases Hs; eval_mem_str; intros Heq;
    first [apply (radix_inj r c r' c' cols); lia
          | by apply (fractal_index_inj rows e) in Heq; [|lia..]
          | by apply (fractal_index_inj rows 16) in Heq; [|lia..]
          | apply band_index_inj in Heq; [done|lia..]
          | apply (fractal_index_inj cols e) in Heq; [naive_solver|lia..] ].
Qed.

Lemma elem_of_py_range n x : x ∈ py_range n ↔ 0 <= x < n.
Proof.
  unfold py_range. rewrite list_elem_of_fmap. setoid_rewrite elem_of_seq. split.
  - intros (k & -> & Hk). lia.
  - intros Hx. exists (Z.to_nat x). lia.
Qed.

Lemma elem_of_coords rows cols r c :
  (r, c) ∈ coords rows cols ↔ 0 <= r < rows ∧ 0 <= c < cols.
Proof.
  unfold coords. rewrite list_elem_of_In, in_flat_map. split.
  - intros (r' & Hr & Hc). apply list_elem_of_In, list_elem_of_fmap in Hc as (? & ? & Hc).
    simplify_eq. apply list_elem_of_In in Hr. by rewrite elem_of_py_range in Hr, Hc.
  - intros [Hr Hc]. exists r. rewrite <- !list_elem_of_In, list_elem_of_fmap.
    rewrite elem_of_py_range. split; [done|]. exists c. by rewrite elem_of_py_range.
Qed.

Lemma length_coords rows cols :
  length (coords rows cols) = (Z.to_nat rows * Z.to_nat cols)%nat.
Proof.
  unfold coords. replace (Z.to_nat rows) with (length (py_range rows)).
  - induction (py_range rows) as [|r l IH]; [done|]. cbn [flat_map length].
    rewrite length_app, length_fmap, IH. unfold py_range. rewrite length_fmap, length_seq. lia.
  - unfold py_range. by rewrite length_fmap, length_seq.
Qed.

Lemma coords_lookup rows cols (i : nat) :
  0 <= rows → 0 <= cols →
  coords rows cols !! i =
    if decide (Z.of_nat i < rows * cols) then Some (Z.of_nat i / cols, Z.of_nat i mod cols)
    else None.
Proof.
  intros Hrows Hcols. rewrite <- (Z2Nat.id rows), <- (Z2Nat.id cols) by done.
  generalize (Z.to_nat rows) (Z.to_nat cols). clear. intros m n.
  assert (length (py_range (Z.of_nat n)) = n) as Hlen.
  { unfold py_range. by rewrite length_fmap, length_seq, Nat2Z.id. }
  assert (∀ k, length (coords (Z.of_nat k) (Z.of_nat n)) = (k * n)%nat ∧
     coords (Z.of_nat (S k)) (Z.of_nat n) = coords (Z.of_nat k) (Z.of_nat n) ++
       ((λ col, (Z.of_nat k, col)) <$> py_range (Z.of_nat n))) as Hsnoc.
  { induction k as [|k (IH & Hs)].
    - split; [done|]. unfold coords at 1. change (py_range (Z.of_nat 1)) with [0].
      cbn [flat_map]. by rewrite app_nil_r.
    - split; [rewrite Hs, length_app, IH, length_fmap, Hlen; lia|].
      unfold coords. unfold py_range at 2 4. rewrite !Nat2Z.id.
      rewrite (seq_S (S k)), fmap_app, flat_map_app. cbn [fmap list_fmap flat_map].
      by rewrite app_nil_r. }
  induction m as [|m IH].
  - cbn. case_decide; [lia|done].
  - destruct (Hsnoc m) as (Hl & ->). rewrite lookup_app. rewrite IH.
    case_decide as H1; [rewrite decide_True by lia; done|].
    rewrite Hl, list_lookup_fmap. unfold py_range. rewrite list_lookup_fmap, Nat2Z.id.
    destruct (decide (i - m * n < n)%nat) as [Hlt|Hge].
    + rewrite lookup_seq_lt by done. cbn. rewrite decide_True by lia. do 2 f_equal.
      * apply (Z.div_unique _ _ _ (Z.of_nat (i - m * n))); lia.
      * apply (Z.mod_unique _ _ (Z.of_nat m)); lia.
    + rewrite lookup_seq_ge by lia. cbn. rewrite decide_False; [done|nia].
Qed.

(** Writing a value per coordinate through an injective index. *)
Lemma write_all_spec {A} (index : Z → Z → Z) (value : Z → Z → A) (n : nat)
    (step : list A → Z * Z → result (list A)) l :
  (∀ r c acc, (r, c) ∈ l → length acc = n →
     step acc (r, c) = Ok (<[Z.to_nat (index r c) := value r c]> acc)) →
  (∀ r c, (r, c) ∈ l → 0 <= index r c < Z.of_nat n) →
  (∀ r c r' c', (r, c) ∈ l → (r', c') ∈ l → index r c = index r' c' → r = r' ∧ c = c') →
  ∀ acc, length acc = n → ∃ p, ofold step l acc = Ok p ∧ length p = n ∧
    (∀ r c, (r, c) ∈ l → p !! Z.to_nat (index r c) = Some (value r c)) ∧
    (∀ j, (∀ r c, (r, c) ∈ l → Z.to_nat (index r c) ≠ j) → p !! j = acc !! j).
Proof.
  induction l as [|[r c] l IH]; intros Hstep Hbound Hinj acc Hlen.
  { exists acc. split; [done|]. split; [done|]. split; [set_solver|done]. }
  cbn. rewrite Hstep by (set_solver || done). cbn.
  destruct (IH ltac:(set_solver) ltac:(set_solver) ltac:(set_solver)
    (<[Z.to_nat (index r c) := value r c]> acc)) as (p & Hp & Hplen & Hin & Hout).
  { by rewrite length_insert. }
  exists p. split; [done|]. split; [done|]. split.
  - intros r' c' Hrc. destruct (decide ((r', c') ∈ l)) as [Hl|Hl]; [by apply Hin|].
    apply elem_of_cons in Hrc as [Heq|]; [simplify_eq|done].
    rewrite Hout.
    + apply list_lookup_insert_eq. pose proof (Hbound r c ltac:(set_solver)). lia.
    + intros r' c' Hrc' Heq. apply Hl.
      pose proof (Hbound r c ltac:(set_solver)). pose proof (Hbound r' c' ltac:(set_solver)).
      destruct (Hinj r' c' r c) as [-> ->]; [set_solver..|lia|done].
  - intros j Hj. rewrite Hout by set_solver. apply list_lookup_insert_ne. set_solver.
Qed.

Section codec.
Context {A : Type} (zero : A) (itemsize rows cols : Z) (layout : string).
Context (Hlayout : normalize layout ∈ supported_layouts).
Context (Hitem : 0 < itemsize ∧ BYTE_PER_C0 mod itemsize = 0).
Context (Hrows : 0 <= rows) (Hcols : 0 <= cols).

Local Abbreviation e := (BYTE_PER_C0 / itemsize).
Local Abbreviation idx := (layout_index (normalize layout) rows cols e).
Local Abbreviation cap := (layout_size (normalize layout) rows cols e).

Lemma codec_validate : validate [rows; cols] itemsize = Ok (rows, cols, e).
Proof. apply validate_ok. exists rows, cols. naive_solver. Qed.

Lemma codec_storage : storage_elements layout [rows; cols] itemsize = Ok cap.
Proof. apply storage_elements_spec. exists rows, cols. eauto using codec_validate. Qed.

Lemma codec_index r c : (r, c) ∈ coords rows cols →
  physical_index layout r c [rows; cols] itemsize = Ok (idx r c).
Proof.
  intros [Hr Hc]%elem_of_coords. by apply physical_index_spec; [apply codec_validate|..].
Qed.

Lemma codec_bound r c : (r, c) ∈ coords rows cols → 0 <= idx r c < cap.
Proof.
  intros [Hr Hc]%elem_of_coords. destruct Hitem as [Hi Hd].
  apply layout_index_bound; [done|by apply c0_elements|done..].
Qed.

Lemma codec_inj r c r' c' :
  (r, c) ∈ coords rows cols → (r', c') ∈ coords rows cols →
  idx r c = idx r' c' → r = r' ∧ c = c'.
Proof.
  intros [? ?]%elem_of_coords [? ?]%elem_of_coords. destruct Hitem as [Hi Hd].
  apply layout_index_inj; [done|by apply c0_elements|done..].
Qed.

Lemma codec_cap_nonneg : 0 <= cap.
Proof.
  destruct Hitem as [Hi Hd]. pose proof (proj1 (c0_elements itemsize Hi Hd)) as He.
  unfold layout_size. pose proof Hlayout as Hs.
  pose proof (round_up_ge rows 16). pose proof (round_up_ge cols 16).
  pose proof (round_up_ge rows e He). pose proof (round_up_ge cols e He).
  layout_cases Hs; eval_mem_str; nia.
Qed.

(** The values a packed matrix holds, and the padding around them. *)
Lemma pack_matrix_spec (data : list A) :
  Z.of_nat (length data) = rows * cols →
  ∃ p, pack_matrix zero itemsize (NdArray [rows; cols] data) layout = Ok p ∧
    Z.of_nat (length p) = cap ∧
    (∀ r c, (r, c) ∈ coords rows cols →
       p !! Z.to_nat (idx r c) = data !! Z.to_nat (r * cols + c)) ∧
    (∀ j, (j < length p)%nat →
       (∀ r c, (r, c) ∈ coords rows cols → Z.to_nat (idx r c) ≠ j) → p !! j = Some zero).
Proof.
  intros Hlen. unfold pack_matrix. cbn [nd_shape nd_data]. rewrite codec_storage. ok_bind.
  pose proof codec_cap_nonneg as Hcap.
  set (value r c := default zero (data !! Z.to_nat (r * cols + c))).
  assert (∀ r c, (r, c) ∈ coords rows cols →
    data !! Z.to_nat (r * cols + c) = Some (value r c)) as Hval.
  { intros r c [? ?]%elem_of_coords.
    destruct (lookup_lt_is_Some_2 data (Z.to_nat (r * cols + c))) as [v Hv]; [nia|].
    unfold value. by rewrite Hv. }
  destruct (write_all_spec idx value (Z.to_nat cap)
    (pack_cell itemsize data layout rows cols) (coords rows cols)) with
    (acc := replicate (Z.to_nat cap) zero) as (p & Hp & Hl & Hin & Hout);
    [..|exists p; split; [exact Hp|]].
  - intros r c acc Hrc Hacc. unfold pack_cell. rewrite codec_index by done. ok_bind.
    unfold get_index. rewrite Hval by done. pose proof Hrc as [? ?]%elem_of_coords.
    replace (0 <=? r * cols + c) with true by nia. ok_bind. unfold set_index.
    pose proof (codec_bound r c Hrc). rewrite Hacc, Z2Nat.id by done.
    by replace ((0 <=? idx r c) && (idx r c <? cap)) with true by lia.
  - intros r c Hrc. pose proof (codec_bound r c Hrc). lia.
  - apply codec_inj.
  - by rewrite length_replicate.
  - split; [lia|]. split.
    + intros r c Hrc. rewrite Hin, Hval by done. done.
    + intros j Hj Hne. rewrite Hout by done. by apply lookup_replicate_2; lia.
Qed.

(** [unpack_matrix] reads back what sits at the physical index of every coordinate. *)
Lemma unpack_matrix_spec (storage data : list A) :
  cap <= Z.of_nat (length storage) →
  Z.of_nat (length data) = rows * cols →
  (∀ r c, (r, c) ∈ coords rows cols →
     storage !! Z.to_nat (idx r c) = data !! Z.to_nat (r * cols + c)) →
  unpack_matrix itemsize storage layout [rows; cols] = Ok (NdArray [rows; cols] data).
Proof.
  intros Hcap Hlen Hst. unfold unpack_matrix. rewrite codec_storage. ok_bind.
  replace (Z.of_nat (length storage) <? cap) with false by lia.
  assert (omap_list (λ '(row, col),
      index ← physical_index layout row col [rows; cols] itemsize;
      get_index storage index) (coords rows cols) = Ok data) as ->; [|done].
  apply omap_list_ok, Forall2_same_length_lookup. split.
  { rewrite length_coords. nia. }
  intros i [r c] v Hrc Hv. pose proof (list_elem_of_lookup_2 _ _ _ Hrc) as Hel.
  rewrite codec_index by done. ok_bind. unfold get_index.
  pose proof (codec_bound r c Hel) as [? ?]. rewrite Hst by done.
  rewrite coords_lookup in Hrc by done. case_decide as Hi; [|done]. simplify_eq.
  replace (Z.to_nat (Z.of_nat i / cols * cols + Z.of_nat i mod cols)) with i.
  - rewrite Hv. by replace (0 <=? _) with true by lia.
  - pose proof (Z.div_mod (Z.of_nat i) cols). lia.
Qed.
End codec.

Lemma physical_index_ok_inv layout row col shape itemsize i :
  physical_index layout row col shape itemsize = Ok i →
  ∃ rows cols, shape = [rows; cols] ∧ normalize layout ∈ supported_layouts ∧
    0 < itemsize ∧ BYTE_PER_C0 mod itemsize = 0 ∧ 0 <= rows ∧ 0 <= cols ∧
    (row, col) ∈ coords rows cols.
Proof.
  unfold physical_index. intros H. apply outcome_bind_ok in H as ([[rows cols] e] & Hv & H).
  apply validate_ok in Hv as (?&?&->&?&?&?&?&?); simplify_eq.
  destruct ((0 <=? row) && _ && _) eqn:Hrc; cbn [negb] in H; [|done].
  exists x, x0. rewrite elem_of_coords. repeat (split; [done || lia|]).
  revert H. unfold supported_layouts. generalize (normalize layout). intros s H.
  destruct (mem_str s ["row_major"]) eqn:E1; [apply mem_str_true in E1; set_solver by lia|].
  destruct (mem_str s ["l0c"]) eqn:E2; [apply mem_str_true in E2; set_solver by lia|].
  destruct (mem_str s ["zn"]) eqn:E3; [apply mem_str_true in E3; set_solver by lia|].
  destruct (mem_str s ["zz"; "l0a"]) eqn:E4; [apply mem_str_true in E4; set_solver by lia|].
  destruct (mem_str s ["nz"; "l0b"]) eqn:E5; [apply mem_str_true in E5; set_solver by lia|].
  done.
Qed.

(** ** Properties *)

(** C28. Packing a logical matrix into any supported physical layout and reading it back is
    the identity: for every item size that divides a 32-byte C0 block and every shape,
    [pack_matrix] succeeds and [unpack_matrix] recovers exactly the packed matrix, whatever
    storage follows it. *)
Theorem pack_unpack_roundtrip {A} (zero : A) itemsize rows cols layout (data extra : list A) :
  normalize layout ∈ supported_layouts →
  0 < itemsize → BYTE_PER_C0 mod itemsize = 0 →
  0 <= rows → 0 <= cols → Z.of_nat (length data) = rows * cols →
  ∃ p, pack_matrix zero itemsize (NdArray [rows; cols] data) layout = Ok p ∧
    unpack_matrix itemsize (p ++ extra) layout [rows; cols] = Ok (NdArray [rows; cols] data).
Proof.
  intros Hs Hi Hd Hr Hc Hl.
  destruct (pack_matrix_spec zero itemsize rows cols layout Hs (conj Hi Hd) Hr Hc data Hl)
    as (p & Hp & Hcap & Hin & _).
  exists p. split; [done|].
  apply unpack_matrix_spec; [done..|rewrite length_app; lia|done|].
  intros r c Hrc. rewrite <- Hin by done. apply lookup_app_l.
  pose proof (codec_bound itemsize rows cols layout Hs (conj Hi Hd) r c Hrc). lia.
Qed.

Lemma pack_unpack_roundtrip_witness :
  ∃ p, pack_matrix 0 2 (NdArray [3; 2] [1; 2; 3; 4; 5; 6]) "zN" = Ok p ∧
    unpack_matrix 2 (p ++ [9]) "zN" [3; 2] = Ok (NdArray [3; 2] [1; 2; 3; 4; 5; 6]).
Proof.
  apply pack_unpack_roundtrip; [|lia|reflexivity|lia|lia|reflexivity].
  vm_compute. repeat constructor.
Defined.

(** [physical_index] is an injection of the logical coordinates into the padded storage:
    every index it returns lies inside [storage_elements], and two coordinates never share
    one. *)
Theorem physical_index_injection layout shape itemsize r c r' c' i :
  physical_index layout r c shape itemsize = Ok i →
  physical_index layout r' c' shape itemsize = Ok i →
  (r, c) = (r', c') ∧
  ∃ n, storage_elements layout shape itemsize = Ok n ∧ 0 <= i < n.
Proof.
  intros H H'. pose proof (physical_index_ok_inv _ _ _ _ _ _ H)
    as (rows & cols & -> & Hs & Hi & Hd & Hr & Hc & Hrc).
  pose proof (physical_index_ok_inv _ _ _ _ _ _ H') as (?&?&?&_&_&_&_&_&Hrc'). simplify_eq.
  rewrite (codec_index itemsize _ _ layout Hs (conj Hi Hd) Hr Hc) in H, H' by done. simplify_eq.
  split.
  - by destruct (codec_inj itemsize x x0 layout Hs (conj Hi Hd) r c r' c') as [-> ->].
  - exists (layout_size (normalize layout) x x0 (BYTE_PER_C0 / itemsize)).
    split; [by apply codec_storage|by apply codec_bound].
Qed.

Lemma physical_index_injection_witness :
  physical_index "l0b" 5 17 [20; 40] 4 = Ok 141 ∧
  ((5, 17) = (5, 17) ∧ ∃ n, storage_elements "l0b" [20; 40] 4 = Ok n ∧ 0 <= 141 < n).
Proof.
  split; [vm_compute; reflexivity|].
  apply physical_index_injection; vm_compute; reflexivity.
Defined.
