(* ===== verification/Values.v ===== *)
(** Values carried by task metadata, and the symbolic integers of [program.py]:
    [AffineInt], [SymbolicInt] and their evaluation under runtime bindings.

    [pyval] is the universe of Python objects that occur in metadata, shapes, offsets and
    bindings.  Floats are their IEEE bit pattern and are only moved around. *)

From stdpp Require Import pretty.
From S2P Require Import Prelude PyDict PySort PyStr Errors.
Local Open Scope string_scope.
Local Open Scope Z_scope.
Local Open Scope list_scope.

Inductive MemoryScope := GM | WORKSPACE | L1 | L0A | L0B | L0C | UB | BT | LOCAL.

#[global] Instance MemoryScope_eq_dec : EqDecision MemoryScope.
Proof. solve_decision. Defined.

(** A normalised affine form: coefficients by symbol, and a constant. *)
Record AffineInt := Affine { aff_terms : list (string * Z); aff_constant : Z }.

#[global] Instance AffineInt_eq_dec : EqDecision AffineInt.
Proof. solve_decision. Defined.

(** [BufferRegion], over the type of its integer expressions. *)
Record region_of (V : Type) := Region {
  rg_buffer : string;
  rg_scope : MemoryScope;
  rg_shape : list V;
  rg_dtype : string;
  rg_byte_offset : V;
  rg_strides_bytes : option (list V);
  rg_core_id : option Z;
}.
Arguments Region {V}.
Arguments rg_buffer {V}.
Arguments rg_scope {V}.
Arguments rg_shape {V}.
Arguments rg_dtype {V}.
Arguments rg_byte_offset {V}.
Arguments rg_strides_bytes {V}.
Arguments rg_core_id {V}.

Inductive pyval :=
| VNone
| VBool (b : bool)
| VInt (z : Z)
| VFloat (bits : Z)
| VStr (s : string)
| VTuple (l : list pyval)
| VList (l : list pyval)
| VDict (kvs : list (string * pyval))
| VAffine (a : AffineInt)
| VSym (operation : string) (arguments : list pyval)
| VRegion (r : region_of pyval)
| VOther (repr : string).

Abbreviation BufferRegion := (region_of pyval).

#[global] Instance pyval_eq_dec : EqDecision pyval.
Proof.
  refine (fix go (x y : pyval) {struct x} : {x = y} + {x ≠ y} := _).
  destruct x as [|b|z|f|s|l|l|kvs|a|op args|[nm sc sh dt off st co]|r],
    y as [|b'|z'|f'|s'|l'|l'|kvs'|a'|op' args'|[nm' sc' sh' dt' off' st' co']|r'];
    try (right; discriminate).
  - by left.
  - destruct (decide (b = b')); [left|right]; congruence.
  - destruct (decide (z = z')); [left|right]; congruence.
  - destruct (decide (f = f')); [left|right]; congruence.
  - destruct (decide (s = s')); [left|right]; congruence.
  - destruct (@list_eq_dec _ go l l'); [left|right]; congruence.
  - destruct (@list_eq_dec _ go l l'); [left|right]; congruence.
  - destruct (@list_eq_dec _ (@prod_eq_dec _ _ _ go) kvs kvs'); [left|right]; congruence.
  - destruct (decide (a = a')); [left|right]; congruence.
  - destruct (decide (op = op')); [|right; congruence].
    destruct (@list_eq_dec _ go args args'); [left|right]; congruence.
  - destruct (decide (nm = nm')); [|right; congruence].
    destruct (decide (sc = sc')); [|right; congruence].
    destruct (@list_eq_dec _ go sh sh'); [|right; congruence].
    destruct (decide (dt = dt')); [|right; congruence].
    destruct (go off off'); [|right; congruence].
    destruct (@option_eq_dec _ (@list_eq_dec _ go) st st'); [|right; congruence].
    destruct (decide (co = co')); [left|right]; congruence.
  - destruct (decide (r = r')); [left|right]; congruence.
Defined.

(** Induction through the arguments of symbolic integers. *)
Definition pyval_sym_ind (P : pyval → Prop)
    (Hsym : ∀ op args, Forall P args → P (VSym op args))
    (Hother : ∀ v, (∀ op args, v ≠ VSym op args) → P v) : ∀ v, P v :=
  fix go v :=
    match v with
    | VSym op args =>
        Hsym op args ((fix all l : Forall P l :=
          match l with
          | [] => Forall_nil_2 P
          | a :: l => Forall_cons_2 P a l (go a) (all l)
          end) args)
    | v' => Hother v' ltac:(intros; discriminate)
    end.

(** Runtime symbol bindings: ints, floats and bools by name. *)
Abbreviation bindings := (dict string pyval).

(** ** Memory scopes *)

Definition scope_value (s : MemoryScope) : string :=
  match s with
  | GM => "gm" | WORKSPACE => "workspace" | L1 => "l1" | L0A => "l0a" | L0B => "l0b"
  | L0C => "l0c" | UB => "ub" | BT => "bt" | LOCAL => "local"
  end.

Definition all_scopes : list MemoryScope := [GM; WORKSPACE; L1; L0A; L0B; L0C; UB; BT; LOCAL].

(** [MemoryScope(value)] *)
Definition scope_of_value (s : string) : option MemoryScope :=
  list_find (λ sc, scope_value sc = s) all_scopes ≫= λ p, Some p.2.

Definition scope_aliases : dict string MemoryScope :=
  [("global", GM); ("shared.l1", L1); ("shared.l0a", L0A); ("shared.l0b", L0B);
   ("shared.l0c", L0C); ("shared.ub", UB); ("shared.bt", BT); ("local.var", LOCAL);
   ("wmma.matrix_a", L0A); ("wmma.matrix_b", L0B); ("wmma.accumulator", L0C)].

(** [MemoryScope.parse] *)
Definition parse_scope (scope : string) : result MemoryScope :=
  _ ← reject_shmem scope;
  let normalized := normalize scope in
  match dget scope_aliases normalized with
  | Some sc => Ok sc
  | None =>
      match scope_of_value normalized with
      | Some sc => Ok sc
      | None => raise_with UnsupportedMemoryScopeError "memory scope" [scope]
      end
  end.

(** ** Affine integers *)

(** [isinstance(v, Integral) and not isinstance(v, bool)], with its value. *)
Definition as_int (v : pyval) : option Z :=
  match v with VInt z => Some z | _ => None end.

(** The loop of [AffineInt.__post_init__] over the given terms. *)
Definition affine_combine (combined : dict string Z) (term : string * pyval)
    : result (dict string Z) :=
  let '(name, coefficient) := term in
  if mem_str name [""] then raise ProgramValidationError "affine symbol name"
  else match as_int coefficient with
  | None => raise ProgramValidationError "affine coefficients"
  | Some c => Ok (dset combined name (dget_default 0 combined name + c))
  end.

(** Tuples [(name, value)] are sorted lexicographically. *)
Definition term_leb (x y : string * Z) : bool := pair_leb String.eqb str_leb Z.leb x y.

(** [AffineInt(terms, constant)] *)
Definition affine_init (terms : list (string * pyval)) (constant : pyval) : result AffineInt :=
  combined ← ofold affine_combine terms [];
  match as_int constant with
  | None => raise ProgramValidationError "affine constant"
  | Some c =>
      Ok (Affine (py_sorted term_leb (filter (λ t, t.2 ≠ 0) combined)) c)
  end.

Definition int_terms (terms : list (string * Z)) : list (string * pyval) :=
  (λ t, (t.1, VInt t.2)) <$> terms.

Definition affine_variable (name : string) : result AffineInt :=
  affine_init [(name, VInt 1)] (VInt 0).

Definition affine_scaled (a : AffineInt) (coefficient : Z) : result AffineInt :=
  affine_init (int_terms ((λ t, (t.1, t.2 * coefficient)) <$> aff_terms a))
    (VInt (aff_constant a * coefficient)).

Definition affine_plus (a b : AffineInt) : result AffineInt :=
  affine_init (int_terms (aff_terms a ++ aff_terms b)) (VInt (aff_constant a + aff_constant b)).

(** The loop of [AffineInt.evaluate]. *)
Definition affine_term_value (b : bindings) (value : Z) (term : string * Z) : result Z :=
  match dget b term.1 with
  | None => raise_with ProgramValidationError "missing runtime binding" [term.1]
  | Some v =>
      match as_int v with
      | None => raise_with ProgramValidationError "binding must be an integer" [term.1]
      | Some z => Ok (value + term.2 * z)
      end
  end.

Definition affine_evaluate (a : AffineInt) (b : bindings) : result Z :=
  ofold (affine_term_value b) (aff_terms a) (aff_constant a).

(** ** Symbolic integers *)

Definition sym_arities : dict string nat :=
  [("add", 2%nat); ("and", 2%nat); ("eq", 2%nat); ("floordiv", 2%nat); ("floormod", 2%nat);
   ("ge", 2%nat); ("gt", 2%nat); ("le", 2%nat); ("lt", 2%nat); ("max", 2%nat); ("min", 2%nat);
   ("mul", 2%nat); ("ne", 2%nat); ("not", 1%nat); ("or", 2%nat); ("select", 3%nat);
   ("sub", 2%nat); ("truncdiv", 2%nat); ("truncmod", 2%nat)].

(** [isinstance(v, (Integral, AffineInt, SymbolicInt))] *)
Definition is_int_expr (v : pyval) : bool :=
  match v with VBool _ | VInt _ | VAffine _ | VSym _ _ => true | _ => false end.

(** [SymbolicInt(operation, arguments)] *)
Definition symbolic_init (operation : string) (arguments : list pyval) : result pyval :=
  let op := normalize operation in
  match dget sym_arities op with
  | None => raise_with ProgramValidationError "unsupported symbolic operation" [operation]
  | Some arity =>
      _ ← ensure (length arguments =? arity)%nat ProgramValidationError "symbolic arity";
      _ ← ensure (forallb is_int_expr arguments) ProgramValidationError "symbolic arguments";
      Ok (VSym op arguments)
  end.

Definition nth_value (values : list Z) (i : nat) : result Z :=
  match values !! i with Some z => Ok z | None => raise IndexError "tuple index" end.

Definition trunc_quotient (left divisor : Z) : Z :=
  Z.abs left / Z.abs divisor * (if xorb (left <? 0) (divisor <? 0) then -1 else 1).

Definition division_by_zero {A} : result A :=
  raise ProgramValidationError "symbolic integer division by zero".

(** The dispatch of [SymbolicInt.evaluate] on the evaluated arguments. *)
Definition sym_apply (operation : string) (values : list Z) : result Z :=
  left ← nth_value values 0;
  let b2z := Z.b2z in
  let truthy z := negb (z =? 0) in
  if mem_str operation ["add"] then r ← nth_value values 1; Ok (left + r)
  else if mem_str operation ["sub"] then r ← nth_value values 1; Ok (left - r)
  else if mem_str operation ["mul"] then r ← nth_value values 1; Ok (left * r)
  else if mem_str operation ["floordiv"] then
    r ← nth_value values 1; if r =? 0 then division_by_zero else Ok (left / r)
  else if mem_str operation ["floormod"] then
    r ← nth_value values 1; if r =? 0 then division_by_zero else Ok (left mod r)
  else if mem_str operation ["truncdiv"; "truncmod"] then
    divisor ← nth_value values 1;
    if divisor =? 0 then division_by_zero
    else
      let quotient := trunc_quotient left divisor in
      Ok (if mem_str operation ["truncdiv"] then quotient else left - quotient * divisor)
  else if mem_str operation ["min"] then r ← nth_value values 1; Ok (Z.min left r)
  else if mem_str operation ["max"] then r ← nth_value values 1; Ok (Z.max left r)
  else if mem_str operation ["select"] then
    if truthy left then nth_value values 1 else nth_value values 2
  else if mem_str operation ["not"] then Ok (b2z (negb (truthy left)))
  else if mem_str operation ["and"] then
    if truthy left then r ← nth_value values 1; Ok (b2z (truthy r)) else Ok 0
  else if mem_str operation ["or"] then
    if truthy left then Ok 1 else r ← nth_value values 1; Ok (b2z (truthy r))
  else if mem_str operation ["eq"; "ne"; "lt"; "le"; "gt"; "ge"] then
    r ← nth_value values 1;
    Ok (b2z (if mem_str operation ["eq"] then left =? r
             else if mem_str operation ["ne"] then negb (left =? r)
             else if mem_str operation ["lt"] then left <? r
             else if mem_str operation ["le"] then left <=? r
             else if mem_str operation ["gt"] then r <? left
             else r <=? left))
  else raise KeyError "comparison".

(** [_evaluate_runtime_int], with [SymbolicInt.evaluate] inlined: every argument is evaluated
    before the operation is dispatched. *)
Fixpoint evaluate_runtime_int (value : pyval) (b : bindings) {struct value} : result Z :=
  match value with
  | VAffine a => affine_evaluate a b
  | VSym operation arguments =>
      values ← omap_list (λ a, evaluate_runtime_int a b) arguments;
      sym_apply operation values
  | VInt z => Ok z
  | _ => raise ProgramValidationError "invalid runtime integer expression"
  end.

(** [SymbolicInt.scaled] *)
Definition symbolic_scaled (v : pyval) (coefficient : Z) : result pyval :=
  symbolic_init "mul" [v; VInt coefficient].

(** [str] of a metadata value. *)
Definition str_of (v : pyval) : string :=
  match v with
  | VNone => "None"
  | VBool true => "True"
  | VBool false => "False"
  | VInt z => pretty z
  | VStr s => s
  | VOther repr => repr
  | _ => "<object>"
  end.

(** ** Lemmas on affine forms *)

Fixpoint affine_sum (val : string → Z) (terms : list (string * Z)) : Z :=
  match terms with
  | [] => 0
  | t :: terms => t.2 * val t.1 + affine_sum val terms
  end.

Lemma affine_sum_app val l1 l2 : affine_sum val (l1 ++ l2) = affine_sum val l1 + affine_sum val l2.
Proof. induction l1 as [|t l1 IH]; cbn; [done|]. rewrite IH. lia. Qed.

Lemma affine_sum_perm val l1 l2 : l1 ≡ₚ l2 → affine_sum val l1 = affine_sum val l2.
Proof. induction 1; cbn; lia. Qed.

Lemma affine_sum_filter val l : affine_sum val (filter (λ t, t.2 ≠ 0) l) = affine_sum val l.
Proof.
  induction l as [|[n c] l IH]; [done|].
  rewrite filter_cons. case_decide as Hc; cbn in *; [by rewrite IH|].
  rewrite IH. assert (c = 0) as -> by (by destruct (decide (c = 0))). lia.
Qed.

Lemma affine_sum_scaled val c l :
  affine_sum val ((λ t, (t.1, t.2 * c)) <$> l) = affine_sum val l * c.
Proof. induction l as [|[n x] l IH]; cbn; [done|]. rewrite IH. lia. Qed.

Lemma affine_sum_dset val (d : dict string Z) k c :
  affine_sum val (dset d k (dget_default 0 d k + c)) = affine_sum val d + c * val k.
Proof.
  induction d as [|[k' v] d IH]; cbn.
  - unfold dget_default. cbn. lia.
  - unfold dget_default in *; cbn. case_decide; subst; cbn; lia.
Qed.

(** The coefficients a successful constructor call combined. *)
Lemma affine_combine_spec terms d d' :
  ofold affine_combine terms d = Ok d' →
  ∃ zs, terms = int_terms zs ∧ Forall (λ t, t.1 ≠ "") zs ∧
    (∀ val, affine_sum val d' = affine_sum val d + affine_sum val zs) ∧
    (∀ k, k ∈ dkeys d' → k ∈ dkeys d ∨ k ∈ zs.*1).
Proof.
  revert d; induction terms as [|[name v] terms IH]; intros d H; cbn in H.
  - inv_ok. exists []. cbn. split; [done|]. split; [constructor|]. split; [|set_solver].
    intros. lia.
  - destruct (mem_str name [""]) eqn:En; [done|]. apply mem_str_false in En.
    destruct v; cbn in H; try done.
    apply IH in H as (zs & -> & Hne & Hsum & Hk).
    exists ((name, z) :: zs). split; [done|]. split; [constructor; [set_solver|done]|].
    split.
    + intros val. rewrite Hsum, affine_sum_dset. cbn. lia.
    + intros k [Hin|Hin]%Hk; [|set_solver].
      rewrite dkeys_dset in Hin. destruct (dmem d name); set_solver.
Qed.

Lemma affine_combine_total zs d :
  Forall (λ t, t.1 ≠ "") zs → ∃ d', ofold affine_combine (int_terms zs) d = Ok d'.
Proof.
  revert d; induction zs as [|[n c] zs IH]; intros d Hne; cbn; [eauto|].
  apply Forall_cons in Hne as [Hn Hne].
  destruct (mem_str n [""]) eqn:E; [apply mem_str_true in E; set_solver|]. cbn. by apply IH.
Qed.

Definition affine_wf (a : AffineInt) : Prop := Forall (λ t, t.1 ≠ "") (aff_terms a).

(** Bindings that give an integer to every symbol of a list. *)
Definition binds (b : bindings) (val : string → Z) (terms : list (string * Z)) : Prop :=
  Forall (λ t, dget b t.1 = Some (VInt (val t.1))) terms.

Lemma affine_terms_value b val terms acc :
  binds b val terms → ofold (affine_term_value b) terms acc = Ok (acc + affine_sum val terms).
Proof.
  unfold binds. revert acc; induction terms as [|[n c] terms IH]; intros acc Hb.
  - cbn. f_equal. lia.
  - apply Forall_cons in Hb as [Hn Hb]. cbn in Hn. cbn [ofold affine_sum].
    assert (affine_term_value b acc (n, c) = Ok (acc + c * val n)) as ->.
    { unfold affine_term_value. cbn [fst snd]. by rewrite Hn. }
    ok_bind. rewrite IH by done. f_equal. cbn. lia.
Qed.

Lemma affine_terms_bound b terms acc z :
  ofold (affine_term_value b) terms acc = Ok z →
  Forall (λ t, ∃ x, dget b t.1 = Some (VInt x)) terms.
Proof.
  revert acc; induction terms as [|[n c] terms IH]; intros acc H; [constructor|].
  apply outcome_bind_ok in H as (acc' & Hn & H). unfold affine_term_value in Hn.
  cbn [fst snd] in Hn. destruct (dget b n) as [v|] eqn:Hv; [|done].
  destruct v; try done. constructor; [eauto|]. by eapply IH.
Qed.

Definition binding_value (b : bindings) (name : string) : Z :=
  match dget b name with Some (VInt z) => z | _ => 0 end.

Lemma bound_binds b terms :
  Forall (λ t, ∃ x, dget b t.1 = Some (VInt x)) terms → binds b (binding_value b) terms.
Proof.
  intros H. eapply Forall_impl; [exact H|]. intros t [x Hx]. unfold binding_value.
  by rewrite Hx.
Qed.

(** The value of a constructed form is the value of the terms it was given. *)
Lemma affine_init_evaluate b zs c :
  Forall (λ t, t.1 ≠ "") zs →
  Forall (λ t, ∃ x, dget b t.1 = Some (VInt x)) zs →
  ∃ a, affine_init (int_terms zs) (VInt c) = Ok a ∧ affine_wf a ∧
    affine_evaluate a b = Ok (c + affine_sum (binding_value b) zs).
Proof.
  intros Hne Hb. unfold affine_init.
  destruct (affine_combine_total zs [] Hne) as [d Hd]. rewrite Hd. ok_bind.
  destruct (affine_combine_spec _ _ _ Hd) as (zs' & Heq & _ & Hsum & Hk).
  assert (zs' = zs) as ->.
  { clear -Heq. revert zs' Heq. induction zs as [|[n x] zs IH]; intros [|[n' x'] zs'] Heq;
      try done. cbn in Heq. injection Heq as -> -> Heq. f_equal. by apply IH. }
  eexists. split; [done|].
  assert (∀ t, t ∈ py_sorted term_leb (filter (λ t, t.2 ≠ 0) d) → t.1 ∈ zs.*1) as Hin.
  { intros t Ht. rewrite elem_of_py_sorted, list_elem_of_filter in Ht.
    destruct Ht as [_ Ht]. destruct (Hk t.1) as [?|?]; [|set_solver|done].
    apply list_elem_of_fmap. by exists t. }
  split.
  - apply Forall_forall. intros t [y [-> Hy]]%Hin%list_elem_of_fmap.
    by eapply Forall_forall in Hne.
  - unfold affine_evaluate. cbn [aff_terms aff_constant].
    rewrite (affine_terms_value b (binding_value b)).
    + rewrite (affine_sum_perm _ _ _ (py_sorted_perm _ _)), affine_sum_filter, Hsum.
      done.
    + apply bound_binds, Forall_forall. intros t [y [-> Hy]]%Hin%list_elem_of_fmap.
      by eapply Forall_forall in Hb.
Qed.

Lemma affine_evaluate_sum a b z :
  affine_evaluate a b = Ok z →
  Forall (λ t, ∃ x, dget b t.1 = Some (VInt x)) (aff_terms a) ∧
  z = aff_constant a + affine_sum (binding_value b) (aff_terms a).
Proof.
  intros H. pose proof (affine_terms_bound _ _ _ _ H) as Hb. split; [done|].
  unfold affine_evaluate in H.
  rewrite (affine_terms_value b (binding_value b)) in H by (by apply bound_binds). by inv_ok.
Qed.

(** ** Lemmas on symbolic integers *)

Lemma trunc_quotient_quot l d : d ≠ 0 → trunc_quotient l d = Z.quot l d.
Proof.
  intros Hd. unfold trunc_quotient.
  destruct (Z.ltb_spec l 0), (Z.ltb_spec d 0); cbn [xorb].
  - rewrite <- Z.quot_div_nonneg by lia. rewrite Z.abs_neq, Z.abs_neq by lia.
    rewrite Z.quot_opp_opp by lia. lia.
  - rewrite <- Z.quot_div_nonneg by lia. rewrite Z.abs_neq, Z.abs_eq by lia.
    rewrite Z.quot_opp_l by lia. lia.
  - rewrite <- Z.quot_div_nonneg by lia. rewrite Z.abs_eq, Z.abs_neq by lia.
    rewrite Z.quot_opp_r by lia. lia.
  - rewrite <- Z.quot_div_nonneg by lia. rewrite !Z.abs_eq by lia. lia.
Qed.

(** Expressions the constructors can build. *)
Fixpoint int_expr_wf (v : pyval) : bool :=
  match v with
  | VBool _ | VInt _ | VAffine _ => true
  | VSym op args =>
      match dget sym_arities op with
      | Some n => (length args =? n)%nat && forallb int_expr_wf args
      | None => false
      end
  | _ => false
  end.

Lemma nth_value_ok values i : (i < length values)%nat → ∃ z, nth_value values i = Ok z.
Proof. intros [z Hz]%lookup_lt_is_Some_2. exists z. unfold nth_value. by rewrite Hz. Qed.

(** A dispatched operation of the declared arity fails only by a division by zero. *)
Lemma sym_apply_error op n values e :
  dget sym_arities op = Some n → length values = n →
  sym_apply op values = Raise e → exn_cls e = ProgramValidationError.
Proof.
  intros Hop Hlen. unfold sym_arities in Hop. cbn [dget] in Hop.
  repeat (case_decide; [simplify_eq|]); [..|done];
    destruct values as [|l [|r [|s [|? ?]]]]; try done;
    unfold sym_apply, division_by_zero, raise; cbn [nth_value lookup list_lookup]; ok_bind; eval_mem_str;
    cbv beta iota zeta; ok_bind;
    repeat match goal with |- context [if ?c then _ else _] => destruct c end;
    cbn; intros; by simplify_eq.
Qed.

Lemma omap_list_raise {E A B} (f : A → outcome E B) l e :
  omap_list f l = Raise e → ∃ a, a ∈ l ∧ f a = Raise e.
Proof.
  induction l as [|a l IH]; cbn; [done|]. destruct (f a) eqn:Ea; cbn.
  - destruct (omap_list f l) eqn:El; cbn; intros; simplify_eq. destruct IH as (x & ? & ?); set_solver.
  - intros; simplify_eq. exists a. set_solver.
Qed.

Lemma affine_evaluate_error a b e :
  affine_evaluate a b = Raise e → exn_cls e = ProgramValidationError.
Proof.
  unfold affine_evaluate. generalize (aff_constant a).
  induction (aff_terms a) as [|[n c] l IH]; intros acc H; [done|].
  apply outcome_bind_raise in H as [H|(acc' & _ & H)]; [|by eapply IH].
  unfold affine_term_value, raise_with in H. cbn [fst snd] in H.
  destruct (dget b n) as [v|]; [|by simplify_eq]. destruct v; cbn in H; by simplify_eq.
Qed.

Lemma evaluate_errors_wf v b e :
  int_expr_wf v = true →
  evaluate_runtime_int v b = Raise e → exn_cls e = ProgramValidationError.
Proof.
  induction v as [op args IH|v Hv] using pyval_sym_ind; intros Hwf H.
  - cbn [int_expr_wf] in Hwf. cbn [evaluate_runtime_int] in H. destruct (dget sym_arities op) as [n|] eqn:Hop; [|done].
    apply andb_true_iff in Hwf as [Hn%Nat.eqb_eq Hall].
    apply outcome_bind_raise in H as [H|(values & Hv & H)].
    + apply omap_list_raise in H as (a & Ha & Hr).
      eapply Forall_forall in IH; [|done]. apply IH; [|done].
      rewrite forallb_forall in Hall. by apply Hall, list_elem_of_In.
    + eapply sym_apply_error; [done| |done].
      apply omap_list_ok, Forall2_length in Hv. lia.
  - destruct v; cbn in *; try done;
      [by injection H as <-|by eapply affine_evaluate_error|].
    by destruct (Hv operation arguments).
Qed.

Lemma symbolic_init_wf op args v :
  symbolic_init op args = Ok v → Forall (λ a, int_expr_wf a = true) args → int_expr_wf v = true.
Proof.
  unfold symbolic_init. intros H Hall.
  destruct (dget sym_arities (normalize op)) as [n|] eqn:Hop; [|done]. inv_res.
  cbn [int_expr_wf]. rewrite Hop. apply andb_true_iff. split; [done|].
  apply forallb_forall. intros a Ha. eapply Forall_forall in Hall; [done|].
  by apply list_elem_of_In.
Qed.

(** ** Properties *)

(** Affine arithmetic is a homomorphism of evaluation: whenever two well-formed affine
    integers have a value under the bindings, [plus] and [scaled] succeed and evaluate to the
    sum and to the multiple of those values (normalisation, which merges, drops and sorts
    terms, never changes a value). *)
Theorem affine_homomorphism a a' b x y k :
  affine_wf a → affine_wf a' →
  affine_evaluate a b = Ok x → affine_evaluate a' b = Ok y →
  (∃ p, affine_plus a a' = Ok p ∧ affine_wf p ∧ affine_evaluate p b = Ok (x + y)) ∧
  (∃ s, affine_scaled a k = Ok s ∧ affine_wf s ∧ affine_evaluate s b = Ok (x * k)).
Proof.
  intros Ha Ha' [Hb ->]%affine_evaluate_sum [Hb' ->]%affine_evaluate_sum. split.
  - destruct (affine_init_evaluate b (aff_terms a ++ aff_terms a')
      (aff_constant a + aff_constant a')) as (p & ? & ? & Hp); [by apply Forall_app..|].
    exists p. split; [done|]. split; [done|]. rewrite Hp, affine_sum_app. f_equal. lia.
  - destruct (affine_init_evaluate b ((λ t, (t.1, t.2 * k)) <$> aff_terms a)
      (aff_constant a * k)) as (s & ? & ? & Hs); [by apply Forall_fmap..|].
    exists s. split; [done|]. split; [done|]. rewrite Hs, affine_sum_scaled. f_equal. lia.
Qed.

Lemma affine_homomorphism_witness :
  let a := Affine [("n", 2)] 1 in
  let a' := Affine [("m", 1); ("n", -2)] 3 in
  let b := [("n", VInt 5); ("m", VInt 7)] in
  (∃ p, affine_plus a a' = Ok p ∧ affine_wf p ∧ affine_evaluate p b = Ok (11 + 0)) ∧
  (∃ s, affine_scaled a 4 = Ok s ∧ affine_wf s ∧ affine_evaluate s b = Ok (11 * 4)).
Proof.
  apply affine_homomorphism; [repeat constructor; discriminate..|reflexivity|reflexivity].
Defined.

(** What the [SymbolicInt] constructor accepts, given arguments it accepted, evaluates to an
    integer or fails with [ProgramValidationError] (a missing or non-integer binding, a boolean
    operand or a division by zero): no tuple-index or unknown-operation error escapes. *)
Theorem symbolic_evaluate_errors op args v b :
  symbolic_init op args = Ok v → Forall (λ a, int_expr_wf a = true) args →
  int_expr_wf v = true ∧
  ((∃ z, evaluate_runtime_int v b = Ok z) ∨
   raises_class ProgramValidationError (evaluate_runtime_int v b)).
Proof.
  intros Hv Hargs. pose proof (symbolic_init_wf _ _ _ Hv Hargs) as Hwf. split; [done|].
  destruct (evaluate_runtime_int v b) as [z|e] eqn:He; [eauto|right].
  by apply (evaluate_errors_wf v b e).
Qed.

Lemma symbolic_evaluate_errors_witness :
  let v := VSym "truncdiv" [VInt 7; VSym "sub" [VInt 1; VInt 1]] in
  int_expr_wf v = true ∧
  ((∃ z, evaluate_runtime_int v [] = Ok z) ∨
   raises_class ProgramValidationError (evaluate_runtime_int v [])).
Proof.
  apply (symbolic_evaluate_errors " TruncDiv " [VInt 7; VSym "sub" [VInt 1; VInt 1]]);
    [vm_compute; reflexivity|repeat constructor].
Defined.
