(* ===== verification/Program.v ===== *)
(** The program data model of [program.py] with the platform names of [profile.py]: lanes,
    pipes, buffers, regions, tasks, cores and kernel programs, each with the validation its
    [__post_init__] does.  The theorems show what a validated program guarantees, in
    particular that the dependency check accepts exactly the acyclic graphs. *)

From S2P Require Import Prelude PyDict PySort PyStr Errors Values.
Local Open Scope string_scope.
Local Open Scope Z_scope.
Local Open Scope list_scope.

(** ** Platforms *)

Record DeviceProfile := {
  dp_platform : string;
  cube_core_count : Z;
  vector_core_count : Z;
  vector_lanes_per_cube : Z;
  cube_pipes : list string;
  vector_pipes : list string;
  dp_calibration : string;
}.

Definition device_profile_of (platform : string) : DeviceProfile := {|
  dp_platform := platform; cube_core_count := 20; vector_core_count := 40;
  vector_lanes_per_cube := 2; cube_pipes := ["mte2"; "mte1"; "m"; "fix"];
  vector_pipes := ["mte2"; "v"; "mte3"]; dp_calibration := "uncalibrated" |}.

Definition DEVICE_PROFILES : dict string DeviceProfile :=
  [("A2", device_profile_of "A2"); ("A3", device_profile_of "A3")].

Definition normalize_platform (platform : string) : result string :=
  let normalized := upper (strip platform) in
  if dmem DEVICE_PROFILES normalized then Ok normalized
  else raise_with SimulatorConfigError "unsupported simulator platform" [platform].

Definition get_device_profile (platform : string) : result DeviceProfile :=
  p ← normalize_platform platform;
  match dget DEVICE_PROFILES p with Some d => Ok d | None => raise KeyError "platform" end.

(** ** Lanes and pipes *)

Inductive Lane := CUBE | VECTOR_0 | VECTOR_1 | CONTROL.
Inductive Pipe := MTE2 | MTE1 | MATRIX | FIX | VECTOR | MTE3 | SCALAR.

#[global] Instance Lane_eq_dec : EqDecision Lane.
Proof. solve_decision. Defined.
#[global] Instance Pipe_eq_dec : EqDecision Pipe.
Proof. solve_decision. Defined.

Definition lane_value (l : Lane) : string :=
  match l with
  | CUBE => "cube" | VECTOR_0 => "vector0" | VECTOR_1 => "vector1" | CONTROL => "control"
  end.

Definition pipe_value (p : Pipe) : string :=
  match p with
  | MTE2 => "mte2" | MTE1 => "mte1" | MATRIX => "m" | FIX => "fix" | VECTOR => "v"
  | MTE3 => "mte3" | SCALAR => "s"
  end.

(** [Lane(value)] and [Pipe(value)] *)
Definition lane_of (s : string) : result Lane :=
  if mem_str s ["cube"] then Ok CUBE
  else if mem_str s ["vector0"] then Ok VECTOR_0
  else if mem_str s ["vector1"] then Ok VECTOR_1
  else if mem_str s ["control"] then Ok CONTROL
  else raise ValueError "Lane".

Definition pipe_of (s : string) : result Pipe :=
  if mem_str s ["mte2"] then Ok MTE2
  else if mem_str s ["mte1"] then Ok MTE1
  else if mem_str s ["m"] then Ok MATRIX
  else if mem_str s ["fix"] then Ok FIX
  else if mem_str s ["v"] then Ok VECTOR
  else if mem_str s ["mte3"] then Ok MTE3
  else if mem_str s ["s"] then Ok SCALAR
  else raise ValueError "Pipe".

Definition allowed_pipes (l : Lane) : list Pipe :=
  match l with
  | CUBE => [MTE2; MTE1; MATRIX; FIX; SCALAR]
  | VECTOR_0 => [MTE2; VECTOR; MTE3; SCALAR]
  | VECTOR_1 => [MTE2; VECTOR; MTE3; SCALAR]
  | CONTROL => [SCALAR]
  end.

(** ** Buffers *)

(** [isinstance(v, Integral)], booleans included, with [int(v)]. *)
Definition as_integral (v : pyval) : option Z :=
  match v with VInt z => Some z | VBool b => Some (Z.b2z b) | _ => None end.

Definition is_negative (v : pyval) : bool :=
  match as_integral v with Some z => z <? 0 | None => false end.

Definition nonempty (s : string) : bool := negb (mem_str s [""]).

(** Python truth value of a metadata value. *)
Definition truthy (v : pyval) : bool :=
  match v with
  | VNone => false
  | VBool b => b
  | VInt z => negb (z =? 0)
  | VFloat bits => negb ((bits =? 0) || (bits =? 2 ^ 63))
  | VStr s => nonempty s
  | VTuple l | VList l => match l with [] => false | _ => true end
  | VDict l => match l with [] => false | _ => true end
  | _ => true
  end.

Record BufferSpec := MkBufferSpec {
  bs_name : string;
  bs_scope : MemoryScope;
  bs_shape : list pyval;
  bs_dtype : string;
  bs_size_bytes : option Z;
  bs_address : option Z;
  bs_lifetime : option (Z * Z);
  bs_metadata : dict string pyval;
}.

Definition lifetime_init (lifetime : option (list pyval)) : result (option (Z * Z)) :=
  match lifetime with
  | None => Ok None
  | Some l =>
      match l with
      | [p; q] =>
          match as_integral p, as_integral q with
          | Some a, Some b =>
              if (a <? 0) || (b <? a) then raise ProgramValidationError "buffer lifetime"
              else Ok (Some (a, b))
          | _, _ => raise ProgramValidationError "buffer lifetime"
          end
      | _ => raise ProgramValidationError "buffer lifetime"
      end
  end.

Definition opt_nonneg (o : option Z) : bool :=
  match o with Some z => 0 <=? z | None => true end.

(** [BufferSpec.__post_init__]; the scope is given by its lowered spelling. *)
Definition buffer_spec_init (name scope : string) (shape : list pyval) (dtype : string)
    (size_bytes address : option Z) (lifetime : option (list pyval))
    (metadata : dict string pyval) : result BufferSpec :=
  _ ← ensure (nonempty name) ProgramValidationError "buffer name";
  sc ← parse_scope scope;
  _ ← ensure (forallb is_int_expr shape) ProgramValidationError "buffer shape";
  _ ← ensure (negb (existsb is_negative shape)) ProgramValidationError "negative extent";
  _ ← ensure (nonempty dtype) ProgramValidationError "buffer dtype";
  _ ← ensure (opt_nonneg size_bytes) ProgramValidationError "negative byte size";
  _ ← ensure (opt_nonneg address) ProgramValidationError "negative address";
  lt ← lifetime_init lifetime;
  Ok (MkBufferSpec name sc shape dtype size_bytes address lt metadata).

Definition int_extent (v : pyval) : pyval :=
  match as_integral v with Some z => VInt z | None => v end.

(** [BufferRegion.__post_init__] *)
Definition buffer_region_init (buffer scope : string) (shape : list pyval) (dtype : string)
    (byte_offset : pyval) (strides_bytes : option (list pyval)) (core_id : option Z)
    : result BufferRegion :=
  _ ← ensure (nonempty buffer) ProgramValidationError "buffer region name";
  sc ← parse_scope scope;
  _ ← ensure (forallb is_int_expr shape) ProgramValidationError "region shape";
  _ ← ensure (negb (existsb is_negative shape)) ProgramValidationError "negative region shape";
  _ ← ensure (is_int_expr byte_offset) ProgramValidationError "region byte_offset";
  _ ← ensure (negb (is_negative byte_offset)) ProgramValidationError "negative byte_offset";
  _ ← ensure (nonempty dtype) ProgramValidationError "region dtype";
  _ ← match strides_bytes with
      | None => Ok tt
      | Some strides =>
          _ ← ensure ((length strides =? length shape)%nat && forallb is_int_expr strides)
            ProgramValidationError "region strides";
          ensure (negb (existsb is_negative strides)) ProgramValidationError "negative strides"
      end;
  _ ← ensure (opt_nonneg core_id) ProgramValidationError "negative core_id";
  Ok (Region buffer sc (int_extent <$> shape) dtype byte_offset strides_bytes core_id).

(** ** Tasks *)

Record Task := MkTask {
  task_id : string;
  operation : string;
  core_id : Z;
  lane : Lane;
  pipe : Pipe;
  duration_cycles : Z;
  dependencies : list string;
  stage : option Z;
  metadata : dict string pyval;
}.

(** [Task.__post_init__]; lane and pipe are given by value, as [Lane(...)] accepts them. *)
Definition task_init (id op : string) (core : Z) (lane_name pipe_name : string)
    (duration : Z) (deps : list string) (stg : option Z) (meta : dict string pyval)
    : result Task :=
  _ ← ensure (nonempty id) ProgramValidationError "task_id";
  _ ← ensure (nonempty op) ProgramValidationError "operation";
  _ ← reject_shmem_operation op;
  _ ← ensure (0 <=? core) ProgramValidationError "negative core_id";
  _ ← ensure (0 <? duration) ProgramValidationError "duration_cycles";
  l ← lane_of lane_name;
  p ← pipe_of pipe_name;
  _ ← ensure (bool_decide (p ∈ allowed_pipes l)) ProgramValidationError "pipe on lane";
  _ ← ensure (negb (mem_str id deps)) ProgramValidationError "self dependency";
  _ ← ensure (bool_decide (NoDup deps)) ProgramValidationError "duplicate dependencies";
  Ok (MkTask id op core l p duration deps stg meta).

Record CoreProgram := MkCore { cp_core_id : Z; cp_tasks : list Task }.

(** [CoreProgram.__post_init__] *)
Definition core_program_init (core : Z) (tasks : list Task) : result CoreProgram :=
  _ ← ensure (0 <=? core) ProgramValidationError "core_id";
  _ ← ensure (forallb (λ t, core_id t =? core) tasks) ProgramValidationError "task core";
  Ok (MkCore core tasks).

(** ** Kernel programs *)

Record KernelProgram := MkKernel {
  kp_name : string;
  kp_platform : string;
  kp_cores : list CoreProgram;
  kp_buffers : list BufferSpec;
  kp_metadata : dict string pyval;
}.

(** [KernelProgram.tasks]: all tasks in stable core/program order. *)
Definition kernel_tasks (cores : list CoreProgram) : list Task :=
  flat_map cp_tasks cores.

(** [_validate_unique] *)
Definition validate_unique {A} `{EqDecision A} (kind : string) (names : list A) : result unit :=
  _ ← ofold (λ seen name,
      if decide (name ∈ seen) then raise ProgramValidationError kind
      else Ok (name :: seen)) names [];
  Ok tt.

(** The nested [visit] of [_validate_acyclic]; the recursion deepens only through tasks that
    are being visited, so a depth of one more than the number of tasks suffices. *)
Fixpoint visit (deps : dict string (list string)) (fuel : nat) (id : string)
    (st : gset string * gset string) : result (gset string * gset string) :=
  match fuel with
  | O => raise RecursionError "visit"
  | S n =>
      let '(visiting, visited) := st in
      if decide (id ∈ visiting) then
        raise_with ProgramValidationError "dependency cycle detected" [id]
      else if decide (id ∈ visited) then Ok st
      else match dget deps id with
      | None => raise KeyError "dependencies"
      | Some ds =>
          '(visiting', visited') ←
            ofold (λ st d, visit deps n d st) ds ({[id]} ∪ visiting, visited);
          Ok (visiting' ∖ {[id]}, {[id]} ∪ visited')
      end
  end.

(** [_validate_acyclic] *)
Definition validate_acyclic (tasks : list Task) : result unit :=
  let deps := dict_of_pairs ((λ t, (task_id t, dependencies t)) <$> tasks) in
  _ ← ofold (λ st id, visit deps (S (length deps)) id st) (dkeys deps) (∅, ∅);
  Ok tt.

(** [KernelProgram.__post_init__] *)
Definition kernel_program_init (name platform : string) (cores : list CoreProgram)
    (buffers : list BufferSpec) (meta : dict string pyval) : result KernelProgram :=
  _ ← ensure (nonempty name) ProgramValidationError "kernel name";
  p ← normalize_platform platform;
  _ ← validate_unique "core" (cp_core_id <$> cores);
  _ ← validate_unique "buffer" (bs_name <$> buffers);
  let tasks := kernel_tasks cores in
  _ ← validate_unique "task" (task_id <$> tasks);
  _ ← ensure (forallb (λ t, forallb (λ d, mem_str d (task_id <$> tasks)) (dependencies t)) tasks)
    ProgramValidationError "unknown dependencies";
  _ ← validate_acyclic tasks;
  Ok (MkKernel name p cores buffers meta).

Definition tasks (program : KernelProgram) : list Task := kernel_tasks (kp_cores program).

(** ** The dependency graph *)

Lemma parse_scope_value s : parse_scope (scope_value s) = Ok s.
Proof. by destruct s. Qed.

Section acyclic.
Context (deps : dict string (list string)).

(** [dep_edge x y]: task [x] names [y] as a dependency. *)
Definition dep_edge (x y : string) : Prop := ∃ ds, dget deps x = Some ds ∧ y ∈ ds.
Definition deps_closed : Prop := ∀ x y, dep_edge x y → is_Some (dget deps y).
Definition on_cycle (x : string) : Prop := tc dep_edge x x.

Lemma acc_not_on_cycle x : Acc (λ y x, dep_edge x y) x → ¬ on_cycle x.
Proof.
  induction 1 as [x _ IH]. intros Hc. inversion Hc as [? y Hxy|? y z Hxy Hyx]; subst.
  - by apply (IH x).
  - apply (IH y Hxy). eapply tc_r; eauto.
Qed.

Definition known : gset string := list_to_set (dkeys deps).

(** What one call of [visit] does to the state: it either finishes the task, leaving the path
    unchanged and every finished task accessible, or reports a real cycle. *)
Definition visit_post (id : string) (visiting visited : gset string)
    (r : result (gset string * gset string)) : Prop :=
  match r with
  | Ok (visiting', visited') =>
      visiting' = visiting ∧ visited ⊆ visited' ∧ id ∈ visited' ∧
      (∀ v, v ∈ visited' → Acc (λ y x, dep_edge x y) v)
  | Raise e => exn_cls e = ProgramValidationError ∧ ∃ x, on_cycle x
  end.

Lemma visit_fold_spec fuel ds visiting visited :
  (∀ d visited, d ∈ ds → (∀ v, v ∈ visited → Acc (λ y x, dep_edge x y) v) →
     visit_post d visiting visited (visit deps fuel d (visiting, visited))) →
  (∀ v, v ∈ visited → Acc (λ y x, dep_edge x y) v) →
  match ofold (λ st d, visit deps fuel d st) ds (visiting, visited) with
  | Ok (visiting', visited') =>
      visiting' = visiting ∧ visited ⊆ visited' ∧ (∀ d, d ∈ ds → d ∈ visited') ∧
      (∀ v, v ∈ visited' → Acc (λ y x, dep_edge x y) v)
  | Raise e => exn_cls e = ProgramValidationError ∧ ∃ x, on_cycle x
  end.
Proof.
  revert visited; induction ds as [|d ds IH]; intros visited Hv Hacc; cbn.
  - split; [done|]. set_solver.
  - pose proof (Hv d visited ltac:(set_solver) Hacc) as Hd.
    destruct (visit deps fuel d (visiting, visited)) as [[vg vd]|e]; cbn in *; [|done].
    destruct Hd as (-> & Hsub & Hin & Hacc').
    specialize (IH vd ltac:(intros; apply Hv; set_solver) Hacc').
    destruct (ofold _ ds (visiting, vd)) as [[vg' vd']|e]; [|done].
    destruct IH as (-> & Hsub' & Hall & Hacc''). split; [done|]. split; [set_solver|].
    split; [|done]. intros x [->|?]%elem_of_cons; set_solver.
Qed.

Lemma visit_measure fuel id (visiting : gset string) :
  id ∈ known → id ∉ visiting → (size (known ∖ visiting) < S fuel)%nat →
  (size (known ∖ ({[id]} ∪ visiting)) < fuel)%nat.
Proof.
  intros Hk Hn Hs.
  assert (size (known ∖ ({[id]} ∪ visiting)) < size (known ∖ visiting))%nat; [|lia].
  apply subset_size. set_solver.
Qed.

Lemma visit_path id d ds (visiting : gset string) :
  dget deps id = Some ds → d ∈ ds → (∀ u, u ∈ visiting → tc dep_edge u id) →
  ∀ u, u ∈ {[id]} ∪ visiting → tc dep_edge u d.
Proof.
  intros Hds Hd Hp u [->%elem_of_singleton|Hu]%elem_of_union.
  - apply tc_once. by exists ds.
  - eapply tc_r; [by apply Hp|]. by exists ds.
Qed.

Lemma visit_spec (Hclosed : deps_closed) fuel id visiting visited :
  visiting ⊆ known → is_Some (dget deps id) →
  (size (known ∖ visiting) < fuel)%nat →
  (∀ u, u ∈ visiting → tc dep_edge u id) →
  (∀ v, v ∈ visited → Acc (λ y x, dep_edge x y) v) →
  visit_post id visiting visited (visit deps fuel id (visiting, visited)).
Proof.
  revert id visiting visited; induction fuel as [|fuel IH];
    intros id visiting visited Hvg Hid Hfuel Hpath Hacc; [lia|].
  cbn. case_decide as Hin; cbn.
  { split; [done|]. exists id. by apply Hpath. }
  case_decide as Hvd; cbn; [set_solver|].
  destruct Hid as [ds Hds]. rewrite Hds.
  assert (id ∈ known) as Hk by (apply elem_of_list_to_set, dkeys_elem_of; eauto).
  pose proof (visit_fold_spec fuel ds ({[id]} ∪ visiting) visited) as Hfold.
  destruct (ofold _ ds _) as [[vg' vd']|e] eqn:E; ok_bind; cbn in Hfold |- *.
  - destruct Hfold as (-> & Hsub & Hall & Hacc'); [|done|].
    { intros d vd Hd Hacc'. apply IH; eauto using visit_measure, visit_path.
      - set_solver.
      - apply (Hclosed id). by exists ds. }
    split; [set_solver|]. split; [set_solver|]. split; [set_solver|].
    intros v [->%elem_of_singleton|Hv]%elem_of_union; [|by apply Hacc'].
    constructor. intros y (ds' & Hds' & Hy). simplify_eq. by apply Hacc', Hall.
  - apply Hfold; [|done].
    intros d vd Hd Hacc'. apply IH; eauto using visit_measure, visit_path.
    + set_solver.
    + apply (Hclosed id). by exists ds.
Qed.

Lemma visit_all_spec (Hclosed : deps_closed) ids visited :
  (∀ id, id ∈ ids → is_Some (dget deps id)) →
  (∀ v, v ∈ visited → Acc (λ y x, dep_edge x y) v) →
  match ofold (λ st id, visit deps (S (length deps)) id st) ids (∅, visited) with
  | Ok (visiting', visited') =>
      visiting' = ∅ ∧ visited ⊆ visited' ∧ (∀ id, id ∈ ids → id ∈ visited') ∧
      (∀ v, v ∈ visited' → Acc (λ y x, dep_edge x y) v)
  | Raise e => exn_cls e = ProgramValidationError ∧ ∃ x, on_cycle x
  end.
Proof.
  intros Hids Hacc. apply visit_fold_spec; [|done].
  intros d vd Hd Hacc'. apply visit_spec; [done|set_solver|by apply Hids| |set_solver|done].
  rewrite difference_empty_L. unfold known.
  assert (size (list_to_set (dkeys deps) : gset string) ≤ length (dkeys deps))%nat.
  { clear. induction (dkeys deps) as [|k l IH]; cbn; [by rewrite size_empty|].
    rewrite size_union_alt. rewrite size_singleton.
    pose proof (subseteq_size (list_to_set l ∖ {[k]}) (list_to_set l : gset string)
      ltac:(set_solver)). lia. }
  unfold dkeys in *. rewrite length_map in *. lia.
Qed.
End acyclic.

(** [task_edge ts x y]: some task of [ts] called [x] depends on [y]. *)
Definition task_edge (ts : list Task) (x y : string) : Prop :=
  ∃ t, t ∈ ts ∧ task_id t = x ∧ y ∈ dependencies t.

Definition deps_known (ts : list Task) : Prop :=
  ∀ t d, t ∈ ts → d ∈ dependencies t → d ∈ task_id <$> ts.

Definition deps_of (ts : list Task) : dict string (list string) :=
  dict_of_pairs ((λ t, (task_id t, dependencies t)) <$> ts).

Lemma deps_of_lookup ts x ds :
  NoDup (task_id <$> ts) →
  dget (deps_of ts) x = Some ds ↔ ∃ t, t ∈ ts ∧ task_id t = x ∧ dependencies t = ds.
Proof.
  intros Hnd. unfold deps_of.
  assert (((λ t, (task_id t, dependencies t)) <$> ts).*1 = task_id <$> ts) as Hk.
  { rewrite <- list_fmap_compose. by apply list_fmap_ext. }
  rewrite dget_dict_of_pairs by (change (NoDup (((λ t, (task_id t, dependencies t)) <$> ts).*1));
    by rewrite Hk).
  split.
  - intros Hin%dget_elem_of. apply list_elem_of_fmap in Hin as (t & ? & ?). simplify_eq. eauto.
  - intros (t & Hin & <- & <-). apply elem_of_dget.
    + unfold dkeys. change (NoDup (((λ t, (task_id t, dependencies t)) <$> ts).*1)). by rewrite Hk.
    + apply list_elem_of_fmap. eauto.
Qed.

Lemma dep_edge_task ts x y :
  NoDup (task_id <$> ts) → dep_edge (deps_of ts) x y ↔ task_edge ts x y.
Proof.
  intros Hnd. unfold dep_edge, task_edge. setoid_rewrite deps_of_lookup; [|done].
  naive_solver.
Qed.

Lemma on_cycle_task ts x :
  NoDup (task_id <$> ts) → on_cycle (deps_of ts) x ↔ tc (task_edge ts) x x.
Proof.
  intros Hnd. unfold on_cycle. generalize x at 2 4. intros z.
  split; (induction 1 as [? ? H|? ? ? H ? IH]; [apply tc_once|eapply tc_l; [|exact IH]]);
    by apply (dep_edge_task ts).
Qed.

Lemma deps_of_closed ts :
  NoDup (task_id <$> ts) → deps_known ts → deps_closed (deps_of ts).
Proof.
  intros Hnd Hk x y (t & Ht & _ & Hy)%(dep_edge_task ts); [|done].
  specialize (Hk t y Ht Hy). apply list_elem_of_fmap in Hk as (t' & -> & Ht').
  exists (dependencies t'). apply deps_of_lookup; eauto.
Qed.

Lemma acyclic_result ts :
  NoDup (task_id <$> ts) → deps_known ts →
  match validate_acyclic ts with
  | Ok _ => ∀ x, ¬ tc (task_edge ts) x x
  | Raise e => exn_cls e = ProgramValidationError ∧ ∃ x, tc (task_edge ts) x x
  end.
Proof.
  intros Hnd Hk. unfold validate_acyclic. fold (deps_of ts).
  pose proof (visit_all_spec (deps_of ts) (deps_of_closed ts Hnd Hk) (dkeys (deps_of ts)) ∅)
    as H.
  destruct (ofold _ _ _) as [[vg vd]|e]; ok_bind.
  - destruct H as (_ & _ & Hall & Hacc); [by intros ? ?%dkeys_elem_of|set_solver|].
    intros x Hc. pose proof Hc as Hc'. apply on_cycle_task in Hc'; [|done].
    assert (x ∈ dkeys (deps_of ts)) as Hx.
    { apply dkeys_elem_of. inversion Hc as [? y Hxy|? y z Hxy]; subst;
        apply (dep_edge_task ts) in Hxy as (ds & Hds & _); eauto. }
    eapply acc_not_on_cycle; [by apply Hacc, Hall|done].
  - destruct H as (? & x & Hx); [by intros ? ?%dkeys_elem_of|set_solver|].
    split; [done|]. exists x. by apply on_cycle_task.
Qed.

Lemma unique_fold_spec {A} `{EqDecision A} kind (names seen : list A) :
  NoDup seen →
  is_ok (ofold (λ (seen : list A) name,
      if decide (name ∈ seen) then raise ProgramValidationError kind
      else Ok (name :: seen)) names seen) = true ↔
  NoDup (names ++ seen).
Proof.
  revert seen; induction names as [|n names IH]; intros seen Hseen; cbn; [by split|].
  rewrite NoDup_cons, not_elem_of_app. case_decide as Hin; ok_bind.
  - cbn. split; [done|naive_solver].
  - rewrite IH by (by constructor).
    rewrite <- (Permutation_middle names seen n), NoDup_cons, not_elem_of_app. done.
Qed.

Lemma validate_unique_spec {A} `{EqDecision A} kind (names : list A) :
  validate_unique kind names = Ok tt ↔ NoDup names.
Proof.
  pose proof (unique_fold_spec kind names [] (NoDup_nil_2 (A:=A))) as H.
  rewrite app_nil_r in H. rewrite <- H. unfold validate_unique.
  by destruct (ofold _ names []).
Qed.

(** What a constructed kernel program guarantees to the rest of the simulator. *)
Record program_wf (p : KernelProgram) : Prop := {
  wf_platform : kp_platform p ∈ ["A2"; "A3"];
  wf_cores : NoDup (cp_core_id <$> kp_cores p);
  wf_unique : NoDup (task_id <$> tasks p);
  wf_known : deps_known (tasks p);
  wf_acyclic : ∀ x, ¬ tc (task_edge (tasks p)) x x;
}.

(** What the constructor of a task guarantees. *)
Record task_ok (t : Task) : Prop := {
  to_id : nonempty (task_id t) = true;
  to_op : nonempty (operation t) = true;
  to_core : 0 <= core_id t;
  to_duration : 0 < duration_cycles t;
  to_pipe : pipe t ∈ allowed_pipes (lane t);
  to_self : task_id t ∉ dependencies t;
  to_deps : NoDup (dependencies t);
}.

Lemma task_init_ok id op core l p dur deps stg meta t :
  task_init id op core l p dur deps stg meta = Ok t → task_ok t.
Proof.
  unfold task_init. intros H. inv_res.
  repeat match goal with
  | H : bool_decide _ = true |- _ => apply bool_decide_eq_true in H
  | H : negb _ = true |- _ => apply negb_true_iff, mem_str_false in H
  end.
  constructor; cbn; (done || lia).
Qed.

Lemma normalize_platform_ok s p : normalize_platform s = Ok p → p ∈ ["A2"; "A3"].
Proof.
  unfold normalize_platform, dmem. cbn [dget DEVICE_PROFILES].
  repeat case_decide; intros; inv_res; set_solver.
Qed.

Lemma kernel_init_wf name platform cores buffers meta p :
  kernel_program_init name platform cores buffers meta = Ok p →
  program_wf p ∧ tasks p = kernel_tasks cores ∧ NoDup (bs_name <$> kp_buffers p).
Proof.
  unfold kernel_program_init. intros H. inv_res.
  match goal with H : normalize_platform _ = _ |- _ => apply normalize_platform_ok in H end.
  repeat match goal with
  | H : validate_unique _ _ = Ok ?u |- _ => destruct u; apply validate_unique_spec in H
  end.
  assert (deps_known (kernel_tasks cores)) as Hk.
  { intros t d Ht%list_elem_of_In Hd%list_elem_of_In.
    match goal with H : forallb _ _ = true |- _ => rewrite forallb_forall in H;
      specialize (H t Ht); rewrite forallb_forall in H; specialize (H d Hd) end.
    by apply mem_str_true. }
  match goal with H : validate_acyclic _ = Ok ?u |- _ => destruct u;
    pose proof (acyclic_result _ ltac:(eassumption) Hk) as Hac; rewrite H in Hac end.
  split; [|split; done]. by constructor.
Qed.

(** ** Properties *)

(** C27. The dependency check is exact: on tasks with distinct identifiers and known
    dependencies, [_validate_acyclic] always returns, it accepts precisely the graphs without a
    dependency cycle, and it rejects the others with [ProgramValidationError] (the recursion
    depth it needs never exceeds one more than the number of tasks). *)
Theorem validate_acyclic_exact ts :
  NoDup (task_id <$> ts) → deps_known ts →
  (validate_acyclic ts = Ok tt ↔ ∀ x, ¬ tc (task_edge ts) x x) ∧
  (validate_acyclic ts = Ok tt ∨ raises_class ProgramValidationError (validate_acyclic ts)).
Proof.
  intros Hnd Hk. pose proof (acyclic_result ts Hnd Hk) as H.
  destruct (validate_acyclic ts) as [[]|e]; [naive_solver|].
  destruct H as (He & x & Hx). split; [|by right]. split; [done|]. intros Hno. by destruct (Hno x).
Qed.

Definition example_task (id : string) (deps : list string) : Task :=
  MkTask id "copy" 0 CUBE MTE2 1 deps None [].

Lemma validate_acyclic_exact_witness :
  let ts := [example_task "a" ["c"]; example_task "b" ["a"]; example_task "c" ["b"]] in
  (validate_acyclic ts = Ok tt ↔ ∀ x, ¬ tc (task_edge ts) x x) ∧
  (validate_acyclic ts = Ok tt ∨ raises_class ProgramValidationError (validate_acyclic ts)).
Proof.
  apply validate_acyclic_exact.
  - apply (bool_decide_unpack _). vm_compute. exact I.
  - intros t d Ht Hd. apply (list_elem_of_In) in Ht. cbn in Ht.
    destruct Ht as [<-|[<-|[<-|[]]]]; apply list_elem_of_In in Hd; cbn in Hd;
      destruct Hd as [<-|[]]; apply list_elem_of_In; cbn; auto.
Defined.

(** Constructing a kernel program establishes the well-formedness the scheduler and the
    executor rely on: a supported platform, distinct cores and task identifiers, dependencies
    that exist, and no dependency cycle. *)
Theorem kernel_program_init_wf name platform cores buffers meta p :
  kernel_program_init name platform cores buffers meta = Ok p →
  program_wf p ∧ tasks p = kernel_tasks cores ∧ NoDup (bs_name <$> kp_buffers p).
Proof. apply kernel_init_wf. Qed.

Lemma kernel_program_init_wf_witness :
  let core := MkCore 0 [example_task "a" []; example_task "b" ["a"]] in
  let p := MkKernel "k" "A2" [core] [] [] in
  kernel_program_init "k" " a2" [core] [] [] = Ok p ∧
  (program_wf p ∧ tasks p = kernel_tasks [core] ∧ NoDup (bs_name <$> kp_buffers p)).
Proof.
  split; [vm_compute; reflexivity|].
  apply (kernel_program_init_wf "k" " a2" _ [] []). vm_compute. reflexivity.
Defined.
