(* ===== verification/Trace.v ===== *)
(** Execution records ([trace.py]): the interval a task occupied on its resource. *)

From S2P Require Import Prelude PyDict PyStr Errors Values Program.
Local Open Scope string_scope.
Local Open Scope Z_scope.

Record ExecutionRecord := MkRecord {
  r_task_id : string;
  r_operation : string;
  r_core_id : Z;
  r_lane : Lane;
  r_pipe : Pipe;
  start_cycle : Z;
  end_cycle : Z;
  category : string;
  stall_reason : option string;
  r_metadata : dict string pyval;
}.

(** [ExecutionRecord.__post_init__] *)
Definition record_init (r : ExecutionRecord) : result ExecutionRecord :=
  _ ← ensure (nonempty (r_task_id r) && nonempty (r_operation r))
    ProgramValidationError "execution record identifiers";
  _ ← ensure ((0 <=? r_core_id r) && (0 <=? start_cycle r))
    ProgramValidationError "execution record core and cycles";
  _ ← ensure (start_cycle r <=? end_cycle r)
    ProgramValidationError "end_cycle precedes start_cycle";
  Ok r.

(** [ExecutionRecord.from_task] with the default category and no stall reason; the merged
    metadata keeps the task's entries, overridden by the scheduler's. *)
Definition record_from_task (t : Task) (s e : Z) (extra : dict string pyval)
    : result ExecutionRecord :=
  let merged := dupdate (metadata t) extra in
  let merged := match stage t with
                | Some n => dsetdefault merged "stage" (VInt n)
                | None => merged
                end in
  record_init (MkRecord (task_id t) (operation t) (core_id t) (lane t) (pipe t) s e
                 "operation" None merged).

(** [duration_cycles] and [resource] *)
Definition record_duration (r : ExecutionRecord) : Z := end_cycle r - start_cycle r.
Definition record_resource (r : ExecutionRecord) : string :=
  lane_value (r_lane r) +:+ "/" +:+ pipe_value (r_pipe r).

(** The half-open interval of a record. *)
Definition cycles_of (r : ExecutionRecord) : Z * Z := (start_cycle r, end_cycle r).
(** What every validated record satisfies. *)
Definition record_cycles_ok (r : ExecutionRecord) : Prop := 0 <= start_cycle r <= end_cycle r.

Lemma record_init_ok r r' : record_init r = Ok r' → r' = r ∧ 0 <= start_cycle r <= end_cycle r.
Proof. unfold record_init. intros H. inv_res. split; [done|lia]. Qed.

Lemma record_from_task_ok t s e extra r :
  record_from_task t s e extra = Ok r →
  r_task_id r = task_id t ∧ r_operation r = operation t ∧ r_core_id r = core_id t ∧
  r_lane r = lane t ∧ r_pipe r = pipe t ∧ start_cycle r = s ∧ end_cycle r = e ∧
  category r = "operation" ∧ stall_reason r = None ∧ 0 <= s <= e.
Proof. unfold record_from_task. intros [-> ?]%record_init_ok.
  cbn in *. repeat split; (done || lia). Qed.
