(* ===== verification/Config.v ===== *)
(** Simulator settings ([config.py]).  The fields whose type [__post_init__] checks are given
    as Python values; a timing profile enters a configuration only through its platform. *)

From Stdlib Require Export QArith.
From S2P Require Import Prelude PyDict PyStr Errors Values Program.
Local Open Scope string_scope.
Local Open Scope Z_scope.
Local Open Scope list_scope.

(** The constructor's arguments. *)
Record config_args := MkConfigArgs {
  ca_platform : string;
  ca_hazard_check : string;
  ca_sync_only : pyval;
  ca_dynamic_if : string;
  ca_deadlock_detect : pyval;
  ca_deadlock_history_limit : pyval;
  ca_flag_balance_check : string;
  ca_flag_blocking : pyval;
  ca_local_flag_depth : pyval;
  ca_cross_flag_depth : pyval;
  ca_execution_timeout_s : Q;
  ca_max_cycles : option Z;
  ca_timing_platform : option string;
}.

Definition default_config_args (platform : string) : config_args :=
  MkConfigArgs platform "error" (VBool false) "error" (VBool true) (VInt 8) "error" (VBool false)
    (VInt 1) (VInt 15) (120 # 1) None None.

Record SimulatorConfig := MkConfig {
  platform : string;
  hazard_check : string;
  sync_only : bool;
  dynamic_if : string;
  deadlock_detect : bool;
  deadlock_history_limit : Z;
  flag_balance_check : string;
  cfg_flag_blocking : bool;
  cfg_local_flag_depth : Z;
  cfg_cross_flag_depth : Z;
  execution_timeout_s : Q;
  max_cycles : option Z;
  timing_platform : string;
}.

Definition as_bool (v : pyval) (label : string) : result bool :=
  match v with VBool b => Ok b | _ => raise SimulatorConfigError label end.

(** [isinstance(v, int) and not isinstance(v, bool) and v > 0] *)
Definition positive_int (v : pyval) (label : string) : result Z :=
  match as_int v with
  | Some z => if z <=? 0 then raise SimulatorConfigError label else Ok z
  | None => raise SimulatorConfigError label
  end.

Definition one_of (s : string) (l : list string) (label : string) : result unit :=
  ensure (mem_str s l) SimulatorConfigError label.

(** [SimulatorConfig.__post_init__] *)
Definition config_init (a : config_args) : result SimulatorConfig :=
  p ← normalize_platform (ca_platform a);
  _ ← one_of (ca_hazard_check a) ["off"; "warn"; "error"] "hazard_check";
  so ← as_bool (ca_sync_only a) "sync_only";
  _ ← one_of (ca_dynamic_if a) ["error"; "then"; "else"] "dynamic_if";
  dd ← as_bool (ca_deadlock_detect a) "deadlock_detect";
  limit ← positive_int (ca_deadlock_history_limit a) "deadlock_history_limit";
  _ ← one_of (ca_flag_balance_check a) ["off"; "warn"; "error"] "flag_balance_check";
  fb ← as_bool (ca_flag_blocking a) "flag_blocking";
  ld ← positive_int (ca_local_flag_depth a) "local_flag_depth";
  cd ← positive_int (ca_cross_flag_depth a) "cross_flag_depth";
  _ ← ensure (negb (Qle_bool (ca_execution_timeout_s a) 0)) SimulatorConfigError "execution_timeout_s";
  _ ← ensure (match ca_max_cycles a with Some n => negb (n <=? 0) | None => true end)
    SimulatorConfigError "max_cycles";
  let tp := default p (ca_timing_platform a) in
  _ ← ensure (mem_str tp [p]) SimulatorConfigError "timing profile platform";
  Ok (MkConfig p (ca_hazard_check a) so (ca_dynamic_if a) dd limit (ca_flag_balance_check a) fb ld cd
        (ca_execution_timeout_s a) (ca_max_cycles a) tp).

(** [device_profile] *)
Definition device_profile (c : SimulatorConfig) : result DeviceProfile :=
  get_device_profile (platform c).

Record config_wf (c : SimulatorConfig) : Prop := {
  cw_platform : platform c ∈ ["A2"; "A3"];
  cw_timing : timing_platform c = platform c;
  cw_history : 0 < deadlock_history_limit c;
  cw_local : 0 < cfg_local_flag_depth c;
  cw_cross : 0 < cfg_cross_flag_depth c;
  cw_timeout : (0 < execution_timeout_s c)%Q;
  cw_max : ∀ n, max_cycles c = Some n → 0 < n;
}.

Lemma positive_int_ok v l z : positive_int v l = Ok z → 0 < z.
Proof.
  unfold positive_int. destruct (as_int v) as [n|]; [|done].
  destruct (n <=? 0) eqn:E; [done|]. intros; inv_res. lia.
Qed.

Lemma config_init_wf a c : config_init a = Ok c → config_wf c.
Proof.
  unfold config_init. intros H. inv_res.
  repeat match goal with
  | H : positive_int _ _ = Ok _ |- _ => apply positive_int_ok in H
  | H : normalize_platform _ = Ok _ |- _ => apply normalize_platform_ok in H
  end.
  constructor; cbn; try done.
  - match goal with H : mem_str _ [_] = true |- _ => apply mem_str_true in H end. set_solver.
  - apply Qnot_le_lt. intros Hle. apply Qle_bool_iff in Hle.
    match goal with H : negb (Qle_bool _ _) = true |- _ => rewrite Hle in H; done end.
  - intros n Hn. rewrite Hn in *.
    match goal with H : negb (n <=? 0) = true |- _ => apply negb_true_iff in H end. lia.
Qed.
