(* ===== verification/Hazard.v ===== *)
(** Hazard diagnostics and the reporting policy ([hazard.py]). *)

From S2P Require Import Prelude PyDict PyStr Errors Values.
Local Open Scope string_scope.
Local Open Scope Z_scope.
Local Open Scope list_scope.

Record HazardDiagnostic := MkDiag {
  hd_kind : string;
  hd_message : string;
  hd_buffer : option string;
  hd_core_id : option Z;
  hd_start : option Z;
  hd_end : option Z;
  hd_metadata : dict string pyval;
}.

(** A reporter: its mode and what it has retained, with the warnings it emitted. *)
Record HazardReporter := MkReporter {
  mode : string;
  diagnostics : list HazardDiagnostic;
  warned : list string;
}.

(** [HazardReporter.__init__] *)
Definition reporter_init (m : string) : result HazardReporter :=
  if mem_str m ["off"; "warn"; "error"] then Ok (MkReporter m [] [])
  else raise ValueError "hazard mode".

(** [report]: nothing when off; otherwise the diagnostic is kept, and warned about or raised as
    [error_type]. *)
Definition report (error_type : exn_class) (d : HazardDiagnostic) : stM HazardReporter exn unit :=
  λ r,
    if mem_str (mode r) ["off"] then (r, Ok tt)
    else
      let kept := diagnostics r ++ [d] in
      if mem_str (mode r) ["warn"] then (MkReporter (mode r) kept (warned r ++ [hd_message d]), Ok tt)
      else (MkReporter (mode r) kept (warned r), Raise (Exn error_type (hd_kind d) [hd_message d])).

(** The policy: an [off] reporter never keeps or raises, a [warn] reporter keeps everything and
    never raises, an [error] reporter raises on the first report, which it has kept. *)
Lemma report_policy error_type d r m r0 :
  reporter_init m = Ok r0 → mode r = mode r0 →
  (report error_type d r).1 = (if mem_str m ["off"] then r
     else MkReporter m (diagnostics r ++ [d])
            (if mem_str m ["warn"] then warned r ++ [hd_message d] else warned r)) ∧
  ((report error_type d r).2 = Ok tt ↔ m ≠ "error").
Proof.
  unfold reporter_init. destruct (mem_str m _) eqn:E; [|done]. intros H Hm. injection H as <-.
  cbn [mode] in Hm. unfold report. rewrite Hm.
  apply mem_str_true, list_elem_of_In in E. cbn in E. destruct r as [m' ds ws]. cbn in Hm. subst m'.
  destruct E as [<-|[<-|[<-|[]]]]; eval_mem_str; split; done.
Qed.
