(* ===== verification/SyncOps.v ===== *)
(** Synchronization operands of [sync.py]: the decision record, the names of the flag,
    barrier and collective operations, and the helpers that read, validate and print the
    operands a task carries in its metadata. *)

From stdpp Require Import pretty.
From S2P Require Import Prelude PyDict PySort PyStr Errors Values Program Trace.
Local Open Scope string_scope.
Local Open Scope Z_scope.
Local Open Scope list_scope.

(** ** Decisions *)

Record SyncDecision := MkDecision {
  ready_cycle : option Z;
  reason : option string;
  detail : string;
  producer_task_ids : list string;
}.

(** [SyncDecision.__post_init__] *)
Definition decision_init (d : SyncDecision) : result SyncDecision :=
  match ready_cycle d with
  | Some z => if z <? 0 then raise ValueError "ready_cycle" else Ok d
  | None => Ok d
  end.

Definition blocked (d : SyncDecision) : bool :=
  match ready_cycle d with None => true | Some _ => false end.

Definition block (why text : string) : SyncDecision := MkDecision None (Some why) text [].
Definition release (cycle : Z) (why text : string) (producers : list string) : SyncDecision :=
  MkDecision (Some cycle) (Some why) text producers.

(** ** Names *)

Definition SET_LOCAL : list string :=
  ["set_flag"; "auto_set_flag"; "tl.ascend_set_flag"; "tl.ascend_auto_set_flag"].
Definition WAIT_LOCAL : list string :=
  ["wait_flag"; "auto_wait_flag"; "tl.ascend_wait_flag"; "tl.ascend_auto_wait_flag"].
Definition SET_CROSS : list string :=
  ["set_cross_flag"; "auto_set_cross_flag"; "tl.ascend_set_cross_flag";
   "tl.ascend_auto_set_cross_flag"].
Definition WAIT_CROSS : list string :=
  ["wait_cross_flag"; "auto_wait_cross_flag"; "tl.ascend_wait_cross_flag";
   "tl.ascend_auto_wait_cross_flag"].
Definition BARRIER_ALL : list string := ["barrier_all"; "tl.ascend_barrier_all"].
Definition SYNC_ALL : list string := ["sync_all"; "tl.ascend_sync_all"].
Definition PIPE_BARRIER : list string :=
  ["pipe_barrier"; "auto_barrier"; "tl.ascend_pipe_barrier"; "tl.ascend_auto_barrier"].

Definition VECTOR_LANE_NAMES : list string := ["vector0"; "vector1"].
Definition MAX_CROSS_FLAG_CREDITS : Z := 15.
Definition PIPE_NAMES : list string := ["mte2"; "mte1"; "m"; "fix"; "v"; "mte3"; "s"].
Definition PIPES_BY_LANE (l : Lane) : list string :=
  match l with
  | CUBE => ["mte2"; "mte1"; "m"; "fix"; "s"]
  | VECTOR_0 => ["mte2"; "v"; "mte3"; "s"]
  | VECTOR_1 => ["mte2"; "v"; "mte3"; "s"]
  | CONTROL => ["s"]
  end.

Inductive FlagKey :=
| LocalKey (core : Z) (lane src dst : string) (flag_id : Z)
| CrossKey (core : Z) (direction lane : string) (flag_id : Z).
#[global] Instance FlagKey_eq_dec : EqDecision FlagKey.
Proof. solve_decision. Defined.

Abbreviation Participant := (Z * string)%type.
(** mode, lane kind, group core (or -1) and flag id *)
Abbreviation CollectiveKey := (Z * string * Z * Z)%type.
(** scope and phase *)
Abbreviation SyncAllKey := (string * Z)%type.

(** [", ".join(names)] *)
Fixpoint join (sep : string) (names : list string) : string :=
  match names with
  | [] => ""
  | [n] => n
  | n :: rest => n +:+ sep +:+ join sep rest
  end.

(** [_format_flag_key] *)
Definition format_flag_key (key : FlagKey) : string :=
  match key with
  | LocalKey core lane src dst id =>
      "local flag core=" +:+ pretty core +:+ " lane=" +:+ lane +:+ " " +:+ src +:+ "->" +:+ dst
      +:+ " id=" +:+ pretty id
  | CrossKey core direction lane id =>
      "cross flag core=" +:+ pretty core +:+ " direction=" +:+ direction +:+ " lane=" +:+ lane
      +:+ " id=" +:+ pretty id
  end.

(** [_format_participant] *)
Definition format_participant (p : Participant) : string :=
  "core=" +:+ pretty p.1 +:+ "/lane=" +:+ p.2.

(** [str(key)] of the key tuples, the sort key of the diagnostics. *)
Definition str_flag_key (key : FlagKey) : string :=
  match key with
  | LocalKey core lane src dst id =>
      "('local', " +:+ pretty core +:+ ", '" +:+ lane +:+ "', '" +:+ src +:+ "', '" +:+ dst
      +:+ "', " +:+ pretty id +:+ ")"
  | CrossKey core direction lane id =>
      "('cross', " +:+ pretty core +:+ ", '" +:+ direction +:+ "', '" +:+ lane +:+ "', "
      +:+ pretty id +:+ ")"
  end.
Definition str_collective_key (key : CollectiveKey) : string :=
  let '(mode, k, group, id) := key in
  "(" +:+ pretty mode +:+ ", '" +:+ k +:+ "', " +:+ pretty group +:+ ", " +:+ pretty id +:+ ")".

(** [task.operation.strip().lower()] *)
Definition op_name (t : Task) : string := normalize (operation t).

Definition meta (t : Task) (key : string) : pyval := dget_default VNone (metadata t) key.

(** [_pipe_name] *)
Definition drop_pipe_prefix (s : string) : string :=
  if startswith "pipe_" s then drop_chars 5 s else s.
Definition pipe_name (v : pyval) : string :=
  drop_pipe_prefix (normalize (if truthy v then str_of v else "")).

(** [task.metadata.get("target_pipe", task.pipe.value)], named *)
Definition target_pipe (t : Task) : string :=
  pipe_name (dget_default (VStr (pipe_value (pipe t))) (metadata t) "target_pipe").

Definition is_vector_lane (l : Lane) : bool := mem_str (lane_value l) VECTOR_LANE_NAMES.

(** ** Reading and validating one task's operands *)

(** [_flag_id] *)
Definition flag_id (t : Task) : result Z :=
  match as_int (meta t "flag_id") with
  | Some z => if z <? 0 then raise ProgramValidationError "flag_id" else Ok z
  | None => raise ProgramValidationError "flag_id"
  end.

Definition required_str (v : pyval) (label : string) : result string :=
  match v with
  | VStr s => if nonempty s then Ok s else raise ProgramValidationError label
  | _ => raise ProgramValidationError label
  end.

(** [_local_flag_key] *)
Definition local_flag_key (t : Task) : result FlagKey :=
  id ← flag_id t;
  src ← required_str (meta t "src_pipe") "src_pipe";
  dst ← required_str (meta t "dst_pipe") "dst_pipe";
  Ok (LocalKey (core_id t) (lane_value (lane t)) (pipe_name (VStr src)) (pipe_name (VStr dst)) id).

(** [_lane_kind] *)
Definition lane_kind (t : Task) : result string :=
  if mem_str (lane_value (lane t)) ["cube"] then Ok "cube"
  else if is_vector_lane (lane t) then Ok "vector"
  else raise ProgramValidationError "cross flag lane".

Definition participant (t : Task) : Participant := (core_id t, lane_value (lane t)).

(** [_cross_mode] *)
Definition cross_mode (t : Task) : result Z :=
  match as_int (dget_default (VInt 2) (metadata t) "mode") with
  | Some m => if bool_decide (m ∈ [0; 1; 2]) then Ok m
              else raise ProgramValidationError "cross mode"
  | None => raise ProgramValidationError "cross mode"
  end.

(** [_cross_target_kind] *)
Definition cross_target_kind (mode : Z) (t : Task) : result string :=
  k ← lane_kind t;
  Ok (if mode =? 2 then (if mem_str k ["cube"] then "vector" else "cube") else k).

(** [_cross_set_keys_mode2] and [_cross_wait_keys_mode2] *)
Definition cross_keys (t : Task) (from_cube from_vector : string) : result (list FlagKey) :=
  id ← flag_id t;
  if mem_str (lane_value (lane t)) ["cube"] then
    Ok ((λ l, CrossKey (core_id t) from_cube l id) <$> VECTOR_LANE_NAMES)
  else if is_vector_lane (lane t) then
    Ok [CrossKey (core_id t) from_vector (lane_value (lane t)) id]
  else raise ProgramValidationError "cross flag lane".
Definition cross_set_keys_mode2 (t : Task) : result (list FlagKey) := cross_keys t "c2v" "v2c".
Definition cross_wait_keys_mode2 (t : Task) : result (list FlagKey) := cross_keys t "v2c" "c2v".

(** [_collective_key] *)
Definition collective_key (t : Task) (mode : Z) : result CollectiveKey :=
  k ← lane_kind t;
  id ← flag_id t;
  if mode =? 0 then Ok (mode, k, -1, id)
  else if mode =? 1 then Ok (mode, "vector", core_id t, id)
  else raise ProgramValidationError "collective mode".

(** [_collective_participants] *)
Definition collective_participants (core_ids : list Z) (key : CollectiveKey)
    : result (list Participant) :=
  let '(mode, k, group, _) := key in
  if (mode =? 0) && mem_str k ["cube"] then Ok ((λ c, (c, "cube")) <$> core_ids)
  else if (mode =? 0) && mem_str k ["vector"] then
    Ok (flat_map (λ c, (λ l, (c, l)) <$> VECTOR_LANE_NAMES) core_ids)
  else if (mode =? 1) && mem_str k ["vector"] then Ok ((λ l, (group, l)) <$> VECTOR_LANE_NAMES)
  else raise ProgramValidationError "collective key".

(** [_sync_all_participants] *)
Definition sync_all_participants (core_ids : list Z) (scope : string) : result (list Participant) :=
  if mem_str scope ["aic"] then Ok ((λ c, (c, "cube")) <$> core_ids)
  else if mem_str scope ["aiv"] then
    Ok (flat_map (λ c, (λ l, (c, l)) <$> VECTOR_LANE_NAMES) core_ids)
  else if mem_str scope ["mix"] then
    Ok (flat_map (λ c, (λ l, (c, l)) <$> "cube" :: VECTOR_LANE_NAMES) core_ids)
  else raise ProgramValidationError "sync_all scope".

(** [_sync_all_task_participants]: an unscoped call on the control lane stands for every
    participant of its core. *)
Definition sync_all_task_participants (t : Task) (scope : string) : list Participant :=
  if mem_str scope ["mix"] && mem_str (lane_value (lane t)) ["control"] then
    (λ l, (core_id t, l)) <$> "cube" :: VECTOR_LANE_NAMES
  else [participant t].

(** [_sync_all_scope] *)
Definition sync_all_scope (t : Task) : result string :=
  let given := normalize (match dget (metadata t) "sync_scope" with
                          | Some v => str_of v | None => "" end) in
  let scope := if nonempty given then given
               else if mem_str (lane_value (lane t)) ["cube"] then "aic"
               else if is_vector_lane (lane t) then "aiv" else "mix" in
  if mem_str scope ["aic"; "aiv"; "mix"] then Ok scope
  else raise ProgramValidationError "sync_scope".

(** [_validate_lane_pipe] *)
Definition validate_lane_pipe (t : Task) (p : string) : result unit :=
  ensure (mem_str p (PIPES_BY_LANE (lane t))) ProgramValidationError "lane pipe".

(** [_validate_sync_task] *)
Definition validate_local_task (t : Task) : result unit :=
  _ ← match as_int (meta t "flag_id") with
      | Some z => ensure ((0 <=? z) && (z <=? 7)) ProgramValidationError "local flag_id"
      | None => raise ProgramValidationError "local flag_id"
      end;
  let src := pipe_name (meta t "src_pipe") in
  let dst := pipe_name (meta t "dst_pipe") in
  _ ← ensure (mem_str src PIPE_NAMES && negb (mem_str src ["s"])) ProgramValidationError "source pipe";
  _ ← ensure (mem_str dst PIPE_NAMES) ProgramValidationError "destination pipe";
  _ ← validate_lane_pipe t src;
  validate_lane_pipe t dst.

Definition validate_cross_set_task (t : Task) : result unit :=
  id ← flag_id t;
  _ ← ensure ((0 <=? id) && (id <=? 15)) ProgramValidationError "cross flag_id";
  mode ← cross_mode t;
  k ← lane_kind t;
  _ ← ensure (negb ((mode =? 1) && negb (mem_str k ["vector"]))) ProgramValidationError "mode 1 lane";
  let src := pipe_name (meta t "src_pipe") in
  _ ← ensure (mem_str src PIPE_NAMES && negb (mem_str src ["s"])) ProgramValidationError "source pipe";
  validate_lane_pipe t src.

Definition validate_cross_wait_task (t : Task) : result unit :=
  id ← flag_id t;
  _ ← ensure ((0 <=? id) && (id <=? 15)) ProgramValidationError "cross flag_id";
  _ ← lane_kind t;
  Ok tt.

Definition validate_sync_task (t : Task) : result unit :=
  let op := op_name t in
  _ ← (if mem_str op SET_LOCAL || mem_str op WAIT_LOCAL then validate_local_task t else Ok tt);
  _ ← (if mem_str op SET_CROSS then validate_cross_set_task t
       else if mem_str op WAIT_CROSS then validate_cross_wait_task t else Ok tt);
  if mem_str op PIPE_BARRIER then
    ensure (mem_str (target_pipe t) ["all"] || mem_str (target_pipe t) PIPE_NAMES)
      ProgramValidationError "pipe barrier target"
  else Ok tt.
