(* ===== verification/SyncReset.v ===== *)
(** [FlagBarrierSynchronizationModel.reset]: the tables computed from a program before it is
    scheduled — cross-flag modes, audited channels, the ordering and barrier predecessors of
    every task and the [sync_all] phases. *)

From S2P Require Import Prelude PyDict PySort PyStr Errors Values Program Trace SyncOps.
Local Open Scope string_scope.
Local Open Scope Z_scope.
Local Open Scope list_scope.

(** flag id, target lane kind and the core the flag is scoped to ([None]: all cores) *)
Abbreviation ModeKey := (Z * string * option Z)%type.

Record sync_tables := MkTables {
  core_ids : list Z;
  task_by_id : gmap string Task;
  cross_wait_modes : dict ModeKey Z;
  audited_cross_keys : list FlagKey;
  audited_collective_participants : list (CollectiveKey * Participant);
  barrier_dependencies : gmap string (list string);
  ordering_dependencies : gmap string (list string);
  sync_all_task_phase : dict string SyncAllKey;
  sync_all_release_dependencies : gmap string SyncAllKey;
  sync_all_expected : dict string (list Participant);
}.

(** [set.add] on a set kept as a list without duplicates *)
Definition set_add {A} `{EqDecision A} (x : A) (s : list A) : list A :=
  if decide (x ∈ s) then s else s ++ [x].
Definition set_equal {A} `{EqDecision A} (s1 s2 : list A) : bool :=
  forallb (λ x, bool_decide (x ∈ s2)) s1 && forallb (λ x, bool_decide (x ∈ s1)) s2.

(** ** Modes of the cross flags *)

(** First loop of [reset]: every task is validated, and every cross set declares its mode for
    the waits it targets. *)
Definition declare_mode (modes : dict ModeKey (list Z)) (t : Task)
    : result (dict ModeKey (list Z)) :=
  _ ← validate_sync_task t;
  if negb (mem_str (op_name t) SET_CROSS) then Ok modes
  else
    mode ← cross_mode t;
    k ← cross_target_kind mode t;
    let target_core := if mode =? 0 then None else Some (core_id t) in
    id ← flag_id t;
    Ok (dset modes (id, k, target_core)
          (set_add mode (dget_default [] modes (id, k, target_core)))).

(** Second loop: one mode per signature. *)
Definition resolve_mode (resolved : dict ModeKey Z) (entry : ModeKey * list Z)
    : result (dict ModeKey Z) :=
  match entry.2 with
  | [mode] => Ok (dset resolved entry.1 mode)
  | _ => raise ProgramValidationError "ambiguous modes"
  end.

(** Third loop: a core's mode agrees with the global one. *)
Definition check_global_mode (modes : dict ModeKey (list Z)) (entry : ModeKey * list Z)
    : result unit :=
  let '(id, k, target_core) := entry.1 in
  match target_core with
  | None => Ok tt
  | Some _ =>
      let global_modes := dget_default [] modes (id, k, None) in
      if match global_modes with [] => false | _ => true end
         && negb (set_equal global_modes entry.2)
      then raise ProgramValidationError "ambiguous modes" else Ok tt
  end.

Definition compute_wait_modes (ts : list Task) : result (dict ModeKey Z) :=
  modes ← ofold declare_mode ts [];
  resolved ← ofold resolve_mode modes [];
  _ ← ofold (λ _ entry, check_global_mode modes entry) modes tt;
  Ok resolved.

(** [_cross_wait_mode] *)
Definition cross_wait_mode (modes : dict ModeKey Z) (t : Task) : result (option Z) :=
  id ← flag_id t;
  k ← lane_kind t;
  let local := dget modes (id, k, Some (core_id t)) in
  let global_mode := dget modes (id, k, None) in
  match local, global_mode with
  | Some l, Some g => if negb (l =? g) then raise ProgramValidationError "ambiguous modes" else Ok (Some l)
  | Some l, None => Ok (Some l)
  | None, g => Ok g
  end.

(** Fourth loop: the channels some wait consumes are audited at the end. *)
Definition audit_wait (modes : dict ModeKey Z)
    (acc : list (CollectiveKey * Participant) * list FlagKey) (t : Task)
    : result (list (CollectiveKey * Participant) * list FlagKey) :=
  if negb (mem_str (op_name t) WAIT_CROSS) then Ok acc
  else
    mode ← cross_wait_mode modes t;
    match mode with
    | Some m =>
        if (m =? 0) || (m =? 1) then
          key ← collective_key t m;
          Ok (set_add (key, participant t) acc.1, acc.2)
        else if m =? 2 then
          keys ← cross_wait_keys_mode2 t;
          Ok (acc.1, foldl (λ s k, set_add k s) acc.2 keys)
        else Ok acc
    | None => Ok acc
    end.

(** ** Ordering, barriers and phases *)

Abbreviation ResourceKey := (Z * string * string)%type.

(** The local variables of the last loop and the tables it fills. *)
Record reset_acc := MkAcc {
  last_by_resource : gmap ResourceKey Task;
  resources_by_lane : gmap (Z * string) (dict string Task);
  resources_by_core : gmap Z (dict (string * string) Task);
  last_fence : gmap (Z * string) string;
  last_pipe_fence : gmap ResourceKey string;
  sync_all_phase : gmap Participant Z;
  pending_sync_all : gmap Participant SyncAllKey;
  acc_barrier : gmap string (list string);
  acc_ordering : gmap string (list string);
  acc_task_phase : dict string SyncAllKey;
  acc_release : gmap string SyncAllKey;
}.

Definition reset_acc0 : reset_acc := MkAcc ∅ ∅ ∅ ∅ ∅ ∅ ∅ ∅ ∅ [] ∅.

Definition lane_key (t : Task) : Z * string := (core_id t, lane_value (lane t)).
Definition resource_key (t : Task) : ResourceKey :=
  (core_id t, lane_value (lane t), pipe_value (pipe t)).

Definition is_set (t : Task) : bool :=
  mem_str (op_name t) SET_LOCAL || mem_str (op_name t) SET_CROSS.

(** The fences in force when the task is issued, and for a set the tail of its source pipe. *)
Definition ordering_of (acc : reset_acc) (t : Task) : list string :=
  option_list (last_fence acc !! lane_key t) ++
  option_list (last_pipe_fence acc !! resource_key t) ++
  (if is_set t then
     task_id <$> option_list
       (last_by_resource acc !!
          (core_id t, lane_value (lane t), pipe_name (meta t "src_pipe")))
   else []).

(** The pipe tails a full barrier drains: those of its lane, or of its core on the control lane. *)
Definition full_barrier_tails (acc : reset_acc) (t : Task) : list string :=
  task_id <$>
    (if mem_str (lane_value (lane t)) ["control"]
     then dvalues (default [] (resources_by_core acc !! core_id t))
     else dvalues (default [] (resources_by_lane acc !! lane_key t))).

Definition target_lane (t : Task) : string :=
  lower (str_of (dget_default (VStr (lane_value (lane t))) (metadata t) "target_lane")).

(** The [_barrier_dependencies] entry of a task, if it makes one. *)
Definition barrier_of (acc : reset_acc) (t : Task) : option (list string) :=
  if mem_str (op_name t) BARRIER_ALL then Some (full_barrier_tails acc t)
  else if mem_str (op_name t) PIPE_BARRIER then
    if mem_str (target_pipe t) ["all"] then Some (full_barrier_tails acc t)
    else Some (task_id <$> option_list
           (last_by_resource acc !! (core_id t, target_lane t, target_pipe t)))
  else if mem_str (op_name t) SYNC_ALL then
    Some (task_id <$> dvalues (default [] (resources_by_lane acc !! lane_key t)))
  else None.

(** The branch of [sync_all]: its participants must be in one phase, and they leave it. *)
Definition phase_of (acc : reset_acc) (p : Participant) : Z := default 0 (sync_all_phase acc !! p).

Definition sync_all_step (acc : reset_acc) (t : Task)
    : result (gmap Participant Z * gmap Participant SyncAllKey * dict string SyncAllKey) :=
  if mem_str (op_name t) SYNC_ALL then
    scope ← sync_all_scope t;
    let ps := sync_all_task_participants t scope in
    match remove_dups (phase_of acc <$> ps) with
    | [phase] =>
        Ok (foldl (λ m p, <[p := default 0 (m !! p) + 1]> m) (sync_all_phase acc) ps,
            <[participant t := (scope, phase)]> (pending_sync_all acc),
            dset (acc_task_phase acc) (task_id t) (scope, phase))
    | _ => raise_with ProgramValidationError "mismatched participant phases" [task_id t]
    end
  else Ok (sync_all_phase acc, pending_sync_all acc, acc_task_phase acc).

(** The fence tables after a task. *)
Definition fences_after (acc : reset_acc) (t : Task)
    : gmap (Z * string) string * gmap ResourceKey string :=
  let op := op_name t in
  let lane_fence := (<[lane_key t := task_id t]> (last_fence acc), last_pipe_fence acc) in
  let pipe_fence p :=
    (last_fence acc, <[(core_id t, lane_value (lane t), p) := task_id t]> (last_pipe_fence acc)) in
  let unchanged := (last_fence acc, last_pipe_fence acc) in
  if mem_str op WAIT_CROSS || mem_str op BARRIER_ALL || mem_str op SYNC_ALL then lane_fence
  else if mem_str op WAIT_LOCAL then
    let dst := pipe_name (meta t "dst_pipe") in
    if mem_str dst ["s"] then lane_fence else pipe_fence dst
  else if mem_str op PIPE_BARRIER then
    if mem_str (target_pipe t) ["all"] then lane_fence
    else if nonempty (target_pipe t) then pipe_fence (target_pipe t) else unchanged
  else if is_set t then
    let src := pipe_name (meta t "src_pipe") in
    if nonempty src then pipe_fence src else unchanged
  else unchanged.

(** One iteration of the last loop. *)
Definition reset_step (acc : reset_acc) (t : Task) : result reset_acc :=
  _ ← validate_sync_task t;
  let release := match pending_sync_all acc !! participant t with
                 | Some key => <[task_id t := key]> (acc_release acc)
                 | None => acc_release acc
                 end in
  let ordering := match ordering_of acc t with
                  | [] => acc_ordering acc
                  | ids => <[task_id t := fromkeys ids]> (acc_ordering acc)
                  end in
  let barrier := match barrier_of acc t with
                 | Some ids => <[task_id t := ids]> (acc_barrier acc)
                 | None => acc_barrier acc
                 end in
  '(phase, pending, task_phase) ← sync_all_step acc t;
  let fences := fences_after acc t in
  Ok (MkAcc
    (<[resource_key t := t]> (last_by_resource acc))
    (<[lane_key t := dset (default [] (resources_by_lane acc !! lane_key t))
         (pipe_value (pipe t)) t]> (resources_by_lane acc))
    (<[core_id t := dset (default [] (resources_by_core acc !! core_id t))
         (lane_value (lane t), pipe_value (pipe t)) t]> (resources_by_core acc))
    fences.1 fences.2 phase pending barrier ordering task_phase release).

(** [reset] *)
Definition reset (program : KernelProgram) : result sync_tables :=
  let ts := tasks program in
  let cores := py_sorted Z_leb (cp_core_id <$> kp_cores program) in
  modes ← compute_wait_modes ts;
  audited ← ofold (audit_wait modes) ts ([], []);
  acc ← ofold reset_step ts reset_acc0;
  expected ← ofold (λ d entry,
      ps ← sync_all_participants cores entry.2.1;
      Ok (dset d entry.2.1 ps)) (acc_task_phase acc) [];
  Ok (MkTables cores (list_to_map (reverse ((λ t, (task_id t, t)) <$> ts))) modes audited.2 audited.1
        (acc_barrier acc) (acc_ordering acc) (acc_task_phase acc) (acc_release acc) expected).
