(* ===== verification/SyncModel.v ===== *)
(** The synchronization models of [sync.py] as state machines: the live credit state of
    [FlagBarrierSynchronizationModel] with [evaluate], [on_scheduled], [audit_flag_balance] and
    [deadlock_diagnostics], and the [SynchronizationModel] protocol the scheduler uses, with
    its two implementations.

    Reading a [defaultdict] inserts the default, so [evaluate] is a state transformer too. *)

From stdpp Require Import pretty.
From S2P Require Import Prelude PyDict PySort PyStr Errors Values Program Trace SyncOps SyncReset.
Local Open Scope string_scope.
Local Open Scope Z_scope.
Local Open Scope list_scope.

Record sync_cfg := MkSyncCfg {
  flag_blocking : bool;
  local_flag_depth : Z;
  cross_flag_depth : Z;
}.

Definition default_sync_cfg : sync_cfg := MkSyncCfg false 1 15.

(** A credit: the cycle it becomes visible and the task that set it. *)
Abbreviation credit := (Z * string)%type.

Record sync_live := MkLive {
  tokens : dict FlagKey (list credit);
  collective_ready : dict CollectiveKey (dict Participant (list credit));
  collective_wait_phase : dict (CollectiveKey * Participant) Z;
  sync_all_arrivals : dict SyncAllKey (dict Participant credit);
}.

Definition sync_live0 : sync_live := MkLive [] [] [] [].

Definition put_tokens (key : FlagKey) (q : list credit) (s : sync_live) : sync_live :=
  MkLive (dset (tokens s) key q) (collective_ready s) (collective_wait_phase s)
    (sync_all_arrivals s).
Definition put_ready (key : CollectiveKey) (r : dict Participant (list credit)) (s : sync_live)
    : sync_live :=
  MkLive (tokens s) (dset (collective_ready s) key r) (collective_wait_phase s)
    (sync_all_arrivals s).
Definition put_wait_phase (key : CollectiveKey * Participant) (n : Z) (s : sync_live) : sync_live :=
  MkLive (tokens s) (collective_ready s) (dset (collective_wait_phase s) key n)
    (sync_all_arrivals s).
Definition put_arrivals (key : SyncAllKey) (a : dict Participant credit) (s : sync_live)
    : sync_live :=
  MkLive (tokens s) (collective_ready s) (collective_wait_phase s)
    (dset (sync_all_arrivals s) key a).

(** [self._tokens.get(key, ())] *)
Definition queue (toks : dict FlagKey (list credit)) (key : FlagKey) : list credit :=
  dget_default [] toks key.

Abbreviation syncM := (stM sync_live exn).

Definition st_modify (f : sync_live → sync_live) : syncM unit := λ s, (f s, Ok tt).
Definition st_reads {A} (f : sync_live → A) : syncM A := λ s, (s, Ok (f s)).

(** Reads of the three [defaultdict]s. *)
Definition read_arrivals (key : SyncAllKey) : syncM (dict Participant credit) := λ s,
  let a := dget_default [] (sync_all_arrivals s) key in (put_arrivals key a s, Ok a).
Definition read_ready (key : CollectiveKey) : syncM (dict Participant (list credit)) := λ s,
  let r := dget_default [] (collective_ready s) key in (put_ready key r s, Ok r).
Definition read_wait_phase (key : CollectiveKey * Participant) : syncM Z := λ s,
  let n := dget_default 0 (collective_wait_phase s) key in (put_wait_phase key n s, Ok n).

(** [max(values)] and [max(values, default=0)] *)
Definition max0 (l : list Z) : Z := foldr Z.max 0 l.
Definition py_max (l : list Z) : result Z :=
  match l with
  | [] => raise ValueError "max of an empty sequence"
  | z :: l => Ok (foldl Z.max z l)
  end.
Definition py_min (l : list Z) : result Z :=
  match l with
  | [] => raise ValueError "min of an empty sequence"
  | z :: l => Ok (foldl Z.min z l)
  end.

Abbreviation completed_map := (gmap string ExecutionRecord).

Definition missing_of (completed : completed_map) (ids : list string) : list string :=
  filter (λ id, completed !! id = None) ids.
Definition ends_of (completed : completed_map) (ids : list string) : list Z :=
  omap (λ id, end_cycle <$> completed !! id) ids.

Definition nonempty_list {A} (l : list A) : bool := match l with [] => false | _ => true end.

Section model.
Context (cfg : sync_cfg) (tb : sync_tables).

Definition ordering_ids (t : Task) : list string :=
  default [] (ordering_dependencies tb !! task_id t).
Definition barrier_ids (t : Task) : list string :=
  default [] (barrier_dependencies tb !! task_id t).

Definition phase_text (key : SyncAllKey) : string :=
  "scope=" +:+ key.1 +:+ " phase=" +:+ pretty key.2.

(** The [sync_all] release branch of [evaluate]. *)
Definition evaluate_release (ordering_cycle : Z) (key : SyncAllKey) : syncM SyncDecision :=
  expected ← st_lift (match dget (sync_all_expected tb) key.1 with
                      | Some ps => Ok ps
                      | None => raise KeyError "sync_all_expected" end);
  arrivals ← read_arrivals key;
  let missing := filter (λ p, dmem arrivals p = false) expected in
  if nonempty_list missing then
    mret (block "sync_all"
            (phase_text key +:+ " waiting for " +:+ join ", " (format_participant <$> missing)))
  else
    latest ← st_lift (py_max (fst <$> dvalues arrivals));
    mret (release (Z.max ordering_cycle latest) "sync_all" (phase_text key)
            (fromkeys (snd <$> dvalues arrivals))).

(** The bounded-credit guards of the experimental blocking mode. *)
Definition evaluate_local_depth (t : Task) : syncM (option SyncDecision) :=
  if flag_blocking cfg && mem_str (op_name t) SET_LOCAL then
    key ← st_lift (local_flag_key t);
    q ← st_reads (λ s, queue (tokens s) key);
    mret (if local_flag_depth cfg <=? Z.of_nat (length q)
          then Some (block "local flag depth"
                 (format_flag_key key +:+ " full (" +:+ pretty (Z.of_nat (length q)) +:+ "/"
                  +:+ pretty (local_flag_depth cfg) +:+ " outstanding credits)")) else None)
  else mret None.

Definition evaluate_cross_depth (t : Task) : syncM (option SyncDecision) :=
  if flag_blocking cfg && mem_str (op_name t) SET_CROSS then
    mode ← st_lift (cross_mode t);
    if (mode =? 0) || (mode =? 1) then mret None
    else
      keys ← st_lift (cross_set_keys_mode2 t);
      toks ← st_reads tokens;
      let full := filter (λ k, cross_flag_depth cfg <= Z.of_nat (length (queue toks k))) keys in
      mret (if nonempty_list full
            then Some (block "cross flag depth"
                   (join "; " ((λ k, format_flag_key k +:+ " full (" +:+
                      pretty (cross_flag_depth cfg) +:+ " outstanding credits)") <$> full)))
            else None)
  else mret None.

(** The credit at the head of a channel that is known to have one. *)
Definition head_credit (toks : dict FlagKey (list credit)) (key : FlagKey) : result credit :=
  match queue toks key with c :: _ => Ok c | [] => raise IndexError "tokens" end.

Definition evaluate_wait_local (t : Task) (ordering_cycle : Z) : syncM SyncDecision :=
  key ← st_lift (local_flag_key t);
  q ← st_reads (λ s, queue (tokens s) key);
  mret (match q with
        | [] => block "local flag" (format_flag_key key)
        | (cycle, producer) :: _ =>
            release (Z.max ordering_cycle cycle) "local flag" (format_flag_key key) [producer]
        end).

(** [_evaluate_collective_wait] *)
Definition evaluate_collective_wait (t : Task) (mode ordering_cycle : Z) : syncM SyncDecision :=
  key ← st_lift (collective_key t mode);
  phase ← read_wait_phase (key, participant t);
  expected ← st_lift (collective_participants (core_ids tb) key);
  ready ← read_ready key;
  id ← st_lift (flag_id t);
  let text := "mode=" +:+ pretty mode +:+ " id=" +:+ pretty id +:+ " phase=" +:+ pretty phase in
  let missing := filter (λ p, Z.of_nat (length (dget_default [] ready p)) <= phase) expected in
  if nonempty_list missing then
    mret (block "cross flag" (text +:+ " waiting for " +:+ join ", " (format_participant <$> missing)))
  else
    credits ← st_lift (omap_list (λ p,
      match dget_default [] ready p !! Z.to_nat phase with
      | Some c => Ok c | None => raise IndexError "collective phase" end) expected);
    latest ← st_lift (py_max (fst <$> credits));
    mret (release (Z.max ordering_cycle latest) "cross flag" text (snd <$> credits)).

Definition evaluate_wait_cross (t : Task) (ordering_cycle : Z) : syncM SyncDecision :=
  mode ← st_lift (cross_wait_mode (cross_wait_modes tb) t);
  match mode with
  | None =>
      id ← st_lift (flag_id t);
      mret (block "cross flag"
              ("no set_cross_flag mode declaration for core=" +:+ pretty (core_id t) +:+
               " lane=" +:+ lane_value (lane t) +:+ " id=" +:+ pretty id))
  | Some m =>
      if (m =? 0) || (m =? 1) then evaluate_collective_wait t m ordering_cycle
      else
        keys ← st_lift (cross_wait_keys_mode2 t);
        toks ← st_reads tokens;
        let missing := filter (λ k, queue toks k = []) keys in
        if nonempty_list missing then
          mret (block "cross flag" (join "; " (format_flag_key <$> missing)))
        else
          credits ← st_lift (omap_list (head_credit toks) keys);
          latest ← st_lift (py_max (fst <$> credits));
          mret (release (Z.max ordering_cycle latest) "cross flag"
                  (join "; " (format_flag_key <$> keys)) (snd <$> credits))
  end.

Definition is_barrier (t : Task) : bool :=
  mem_str (op_name t) BARRIER_ALL || mem_str (op_name t) PIPE_BARRIER
  || mem_str (op_name t) SYNC_ALL.

Definition evaluate_barrier (t : Task) (completed : completed_map) (ordering_cycle : Z)
    : SyncDecision :=
  let required := barrier_ids t in
  let missing := missing_of completed required in
  if nonempty_list missing then block "barrier" ("waiting for " +:+ join ", " missing)
  else release (Z.max (max0 (ends_of completed required)) ordering_cycle) "barrier" "" [].

(** The part of [evaluate] that follows the [sync_all] release. *)
Definition evaluate_operation (t : Task) (completed : completed_map) (ordering_cycle : Z)
    : syncM SyncDecision :=
  full_local ← evaluate_local_depth t;
  match full_local with
  | Some d => mret d
  | None =>
      full_cross ← evaluate_cross_depth t;
      match full_cross with
      | Some d => mret d
      | None =>
          if mem_str (op_name t) WAIT_LOCAL then evaluate_wait_local t ordering_cycle
          else if mem_str (op_name t) WAIT_CROSS then evaluate_wait_cross t ordering_cycle
          else if is_barrier t then mret (evaluate_barrier t completed ordering_cycle)
          else mret (MkDecision (Some ordering_cycle) None "" [])
      end
  end.

(** [evaluate]; every decision goes through [SyncDecision.__post_init__]. *)
Definition evaluate (t : Task) (completed : completed_map) : syncM SyncDecision :=
  let ordering := ordering_ids t in
  let missing := missing_of completed ordering in
  d ← (if nonempty_list missing then
         mret (block "synchronization ordering" ("waiting for " +:+ join ", " missing))
       else
         let ordering_cycle := max0 (ends_of completed ordering) in
         match sync_all_release_dependencies tb !! task_id t with
         | Some key => evaluate_release ordering_cycle key
         | None => evaluate_operation t completed ordering_cycle
         end);
  st_lift (decision_init d).

(** ** State updates *)

(** [_on_collective_set] *)
Definition on_collective_set (t : Task) (mode : Z) (r : ExecutionRecord) : syncM unit :=
  key ← st_lift (collective_key t mode);
  let producer := participant t in
  expected ← st_lift (collective_participants (core_ids tb) key);
  _ ← st_lift (ensure (bool_decide (producer ∈ expected)) ProgramValidationError "not a participant");
  ready_by ← read_ready key;
  let ready := dget_default [] ready_by producer in
  _ ← st_modify (put_ready key (dset ready_by producer ready));
  phases ← (fix go ps : syncM (list Z) :=
              match ps with
              | [] => mret []
              | p :: ps => n ← read_wait_phase (key, p); ns ← go ps; mret (n :: ns)
              end) expected;
  lowest ← st_lift (py_min phases);
  _ ← st_lift (ensure (Z.of_nat (length ready) - lowest <? MAX_CROSS_FLAG_CREDITS)
         ProgramValidationError "overflowed collective flag");
  st_modify (put_ready key (dset ready_by producer (ready ++ [(end_cycle r, task_id t)]))).

(** A mode-2 set: one credit per target channel. *)
Definition push_cross (t : Task) (r : ExecutionRecord) (key : FlagKey) : syncM unit :=
  q ← st_reads (λ s, queue (tokens s) key);
  _ ← st_modify (put_tokens key q);
  if negb (flag_blocking cfg) && (MAX_CROSS_FLAG_CREDITS <=? Z.of_nat (length q)) then
    st_lift (raise_with ProgramValidationError "overflowed" [task_id t; format_flag_key key])
  else st_modify (put_tokens key (q ++ [(end_cycle r, task_id t)])).

(** [tokens.popleft()] behind its guard *)
Definition pop_credit (t : Task) (key : FlagKey) : syncM unit :=
  q ← st_reads (λ s, queue (tokens s) key);
  match q with
  | [] => st_lift (raise_with ProgramValidationError "consumed a missing" [task_id t; format_flag_key key])
  | _ :: q => st_modify (put_tokens key q)
  end.

(** The arrivals of a [sync_all] task. *)
Definition arrive (t : Task) (r : ExecutionRecord) (key : SyncAllKey) (p : Participant)
    : syncM unit :=
  arrivals ← read_arrivals key;
  if dmem arrivals p then
    st_lift (raise_with ProgramValidationError "duplicates participant"
               [task_id t; format_participant p; phase_text key])
  else st_modify (put_arrivals key (dset arrivals p (end_cycle r, task_id t))).

(** [on_scheduled] *)
Definition on_scheduled (t : Task) (r : ExecutionRecord) : syncM unit :=
  let op := op_name t in
  if mem_str op SET_LOCAL then
    key ← st_lift (local_flag_key t);
    st_modify (λ s, put_tokens key (queue (tokens s) key ++ [(end_cycle r, task_id t)]) s)
  else if mem_str op SET_CROSS then
    mode ← st_lift (cross_mode t);
    if (mode =? 0) || (mode =? 1) then on_collective_set t mode r
    else keys ← st_lift (cross_set_keys_mode2 t); st_iter (push_cross t r) keys
  else if mem_str op WAIT_LOCAL then
    key ← st_lift (local_flag_key t); pop_credit t key
  else if mem_str op WAIT_CROSS then
    mode ← st_lift (cross_wait_mode (cross_wait_modes tb) t);
    match mode with
    | None => st_lift (raise_with ProgramValidationError "no cross flag mode declaration" [task_id t])
    | Some m =>
        if (m =? 0) || (m =? 1) then
          key ← st_lift (collective_key t m);
          n ← read_wait_phase (key, participant t);
          st_modify (put_wait_phase (key, participant t) (n + 1))
        else keys ← st_lift (cross_wait_keys_mode2 t); st_iter (pop_credit t) keys
    end
  else if mem_str op SYNC_ALL then
    key ← st_lift (match dget (sync_all_task_phase tb) (task_id t) with
                   | Some key => Ok key | None => raise KeyError "sync_all_task_phase" end);
    _ ← read_arrivals key;
    st_iter (arrive t r key) (sync_all_task_participants t key.1)
  else mret tt.

(** ** Accounting at the end of a kernel *)

Definition by_str {K V} (str : K → string) (x y : K * V) : bool := str_leb (str x.1) (str y.1).
Definition sync_key_leb {V} (x y : SyncAllKey * V) : bool :=
  pair_leb String.eqb str_leb Z.leb x.1 y.1.

Definition is_local_key (key : FlagKey) : bool :=
  match key with LocalKey _ _ _ _ _ => true | CrossKey _ _ _ _ => false end.

Definition last_set (q : list credit) : string := default "" (snd <$> last q).

(** Credits left on a local channel, or on a cross channel some task waits for. *)
Definition residual_tokens (s : sync_live) : list string :=
  omap (λ '(key, q),
      if nonempty_list q && (is_local_key key || bool_decide (key ∈ audited_cross_keys tb))
      then Some (format_flag_key key +:+ " level=" +:+ pretty (Z.of_nat (length q)) +:+
                 " last_set=" +:+ last_set q)
      else None)
    (py_sorted (by_str str_flag_key) (tokens s)).

(** Phases produced and not consumed, or the reverse, by an audited participant. *)
Definition residual_collective_participant (key : CollectiveKey)
    (ready : dict Participant (list credit)) (p : Participant) : syncM (list string) :=
  if bool_decide ((key, p) ∈ audited_collective_participants tb) then
    let produced := Z.of_nat (length (dget_default [] ready p)) in
    consumed ← read_wait_phase (key, p);
    mret (if produced =? consumed then []
          else let '(mode, _, _, id) := key in
               ["collective flag mode=" +:+ pretty mode +:+ " id=" +:+ pretty id +:+ " " +:+
                format_participant p +:+ " level=" +:+ pretty (produced - consumed)])
  else mret [].

Fixpoint st_concat {A} (f : A → syncM (list string)) (l : list A) : syncM (list string) :=
  match l with
  | [] => mret []
  | a :: l => x ← f a; y ← st_concat f l; mret (x ++ y)
  end.

Definition residual_collective : syncM (list string) :=
  s ← st_get;
  st_concat (λ entry : CollectiveKey * dict Participant (list credit),
      expected ← st_lift (collective_participants (core_ids tb) entry.1);
      st_concat (residual_collective_participant entry.1 entry.2) expected)
    (py_sorted (by_str str_collective_key) (collective_ready s)).

Definition residual_sync_all : syncM (list string) :=
  s ← st_get;
  st_concat (λ entry : SyncAllKey * dict Participant credit,
      expected ← st_lift (match dget (sync_all_expected tb) entry.1.1 with
                          | Some ps => Ok ps
                          | None => raise KeyError "sync_all_expected" end);
      let missing := filter (λ p, dmem entry.2 p = false) expected in
      mret (if nonempty_list missing then
              ["sync_all " +:+ phase_text entry.1 +:+ " missing " +:+
               join ", " (format_participant <$> missing)]
            else []))
    (py_sorted sync_key_leb (sync_all_arrivals s)).

(** [audit_flag_balance]; the result is the warning text of the [warn] policy. *)
Definition audit_flag_balance (policy : string) : syncM (option string) :=
  s ← st_get;
  collective ← residual_collective;
  sync ← residual_sync_all;
  let residual := residual_tokens s ++ collective ++ sync in
  if nonempty_list residual then
    let message := "FLAG ACCOUNTING at kernel end: " +:+ join "; " residual in
    if mem_str policy ["warn"] then mret (Some message)
    else if mem_str policy ["error"] then
      st_lift (raise_with SimulationDeadlockError "flag accounting" [message])
    else mret None
  else mret None.

(** ** Diagnostics *)

(** [_format_producer] *)
Definition format_producer (id : string) : string :=
  match task_by_id tb !! id with
  | None => id
  | Some t => let span := meta t "span" in
              if truthy span then id +:+ "@" +:+ str_of span else id
  end.

Definition participant_leb {V} (x y : Participant * V) : bool :=
  pair_leb Z.eqb Z.leb str_leb x.1 y.1.

Definition diagnostic_entries (s : sync_live) : list string :=
  omap (λ '(key, q),
      if nonempty_list q
      then Some (format_flag_key key +:+ " outstanding=" +:+ pretty (Z.of_nat (length q)) +:+
                 " producer=" +:+ join ", " (format_producer <$> (snd <$> q)))
      else None)
    (py_sorted (by_str str_flag_key) (tokens s)) ++
  omap (λ '((mode, _, _, id), ready),
      if nonempty_list ready
      then Some ("collective mode=" +:+ pretty mode +:+ " id=" +:+ pretty id +:+ " produced[" +:+
                 join ", " ((λ '(p, q), format_participant p +:+ "=" +:+
                                pretty (Z.of_nat (length q)))
                            <$> py_sorted participant_leb ready) +:+ "]")
      else None)
    (py_sorted (by_str str_collective_key) (collective_ready s)) ++
  omap (λ '(key, arrivals),
      if nonempty_list arrivals
      then Some ("sync_all " +:+ phase_text key +:+ " arrivals=" +:+
                 join ", " ((λ '(p, c), format_participant p +:+ "=" +:+ format_producer c.2)
                            <$> py_sorted participant_leb arrivals))
      else None)
    (py_sorted sync_key_leb (sync_all_arrivals s)).

(** [deadlock_diagnostics] *)
Definition deadlock_diagnostics (s : sync_live) : string :=
  match take 16 (diagnostic_entries s) with
  | [] => "no outstanding synchronization producers"
  | entries => join "; " entries
  end.
End model.

(** ** The protocol of the scheduler *)

(** [SynchronizationModel]: [reset] starts a program, [evaluate] is asked before a task starts
    and [on_scheduled] told when it is placed; the audit and the diagnostics are optional. *)
Class SynchronizationModel (St : Type) := {
  sm_reset : KernelProgram → result St;
  sm_evaluate : Task → completed_map → stM St exn SyncDecision;
  sm_on_scheduled : Task → ExecutionRecord → stM St exn unit;
  sm_audit : option (string → stM St exn (option string));
  sm_diagnostics : option (St → string);
}.

(** [NoOpSynchronizationModel] *)
#[export] Instance NoOpSynchronizationModel : SynchronizationModel unit := {|
  sm_reset := λ _, Ok tt;
  sm_evaluate := λ _ _, mret (MkDecision (Some 0) None "" []);
  sm_on_scheduled := λ _ _, mret tt;
  sm_audit := None;
  sm_diagnostics := None;
|}.

(** [FlagBarrierSynchronizationModel]: the tables are fixed by [reset], the operations change
    the live part only. *)
Record flag_barrier_state := MkFB { fb_tables : sync_tables; fb_live : sync_live }.

Definition on_live {A} (m : sync_tables → syncM A) : stM flag_barrier_state exn A := λ s,
  let '(live, r) := m (fb_tables s) (fb_live s) in (MkFB (fb_tables s) live, r).

Definition FlagBarrierSynchronizationModel (cfg : sync_cfg)
    : SynchronizationModel flag_barrier_state := {|
  sm_reset := λ program, tb ← reset program; Ok (MkFB tb sync_live0);
  sm_evaluate := λ t completed, on_live (λ tb, evaluate cfg tb t completed);
  sm_on_scheduled := λ t r, on_live (λ tb, on_scheduled cfg tb t r);
  sm_audit := Some (λ policy, on_live (λ tb, audit_flag_balance tb policy));
  sm_diagnostics := Some (λ s, deadlock_diagnostics (fb_tables s) (fb_live s));
|}.
