(* ===== verification/SyncLaws.v ===== *)
(** What the scheduler may assume of a synchronization model, and that both models of
    [sync.py] keep it: asking for a decision never changes a later decision, and a decision
    never allows a negative cycle. *)

From S2P Require Import Prelude PyDict PySort PyStr Errors Values Program Trace SyncOps SyncReset.
From S2P Require Import SyncModel.
Local Open Scope string_scope.
Local Open Scope Z_scope.
Local Open Scope list_scope.

Class SynchronizationLaws (St : Type) `{!SynchronizationModel St} : Prop := {
  sl_evaluate_pure : ∀ t u c (st : St),
    (sm_evaluate u c (sm_evaluate t c st).1).2 = (sm_evaluate u c st).2;
  sl_ready_nonneg : ∀ t c (st : St) d z,
    (sm_evaluate t c st).2 = Ok d → ready_cycle d = Some z → 0 <= z;
}.

(** ** Live states up to the entries a [defaultdict] read inserts *)

Record live_equiv (s s' : sync_live) : Prop := {
  le_tokens : tokens s = tokens s';
  le_ready : ∀ k, dget_default [] (collective_ready s) k = dget_default [] (collective_ready s') k;
  le_phase : ∀ k, dget_default 0 (collective_wait_phase s) k =
                  dget_default 0 (collective_wait_phase s') k;
  le_arrivals : ∀ k, dget_default [] (sync_all_arrivals s) k =
                     dget_default [] (sync_all_arrivals s') k;
}.

#[export] Instance sync_live_equiv : Equiv sync_live := live_equiv.
#[export] Instance live_equivalence : Equivalence (≡@{sync_live}).
Proof.
  split.
  - by intros s.
  - intros s s' [Ht Hr Hp Ha]. by split; intros; rewrite ?Ht, ?Hr, ?Hp, ?Ha.
  - intros s s' s'' [Ht Hr Hp Ha] [Ht' Hr' Hp' Ha'].
    by split; intros; rewrite ?Ht, ?Hr, ?Hp, ?Ha.
Qed.

Lemma dget_default_self {K V} `{EqDecision K} (def : V) (d : dict K V) k k' :
  dget_default def (dset d k (dget_default def d k)) k' = dget_default def d k'.
Proof.
  unfold dget_default. rewrite dget_dset. case_decide as H; [|done]. by subst.
Qed.

(** A computation that only reads: equivalent states give the same answer, and the state it
    leaves is equivalent to the one it was given. *)
Definition reader {A} (m : syncM A) : Prop :=
  ∀ s s', s ≡ s' → (m s).2 = (m s').2 ∧ (m s).1 ≡ s.

Lemma reader_ret {A} (a : A) : reader (mret a).
Proof. intros s s' _. split; reflexivity. Qed.
Lemma reader_lift {A} (r : result A) : reader (st_lift r).
Proof. intros s s' _. split; reflexivity. Qed.
Lemma reader_tokens {A} (f : dict FlagKey (list credit) → A) : reader (st_reads (λ s, f (tokens s))).
Proof. intros s s' [Ht _ _ _]. split; [|reflexivity]. cbn. by rewrite Ht. Qed.
Ltac live_fields :=
  unfold read_arrivals, read_ready, read_wait_phase, put_arrivals, put_ready, put_wait_phase;
  cbn [fst snd tokens collective_ready collective_wait_phase sync_all_arrivals].

Lemma reader_arrivals key : reader (read_arrivals key).
Proof.
  intros s s' [_ _ _ Ha]. split; [live_fields; by rewrite Ha|].
  live_fields. split; live_fields; intros; rewrite ?dget_default_self; done.
Qed.
Lemma reader_ready key : reader (read_ready key).
Proof.
  intros s s' [_ Hr _ _]. split; [live_fields; by rewrite Hr|].
  live_fields. split; live_fields; intros; rewrite ?dget_default_self; done.
Qed.
Lemma reader_wait_phase key : reader (read_wait_phase key).
Proof.
  intros s s' [_ _ Hp _]. split; [live_fields; by rewrite Hp|].
  live_fields. split; live_fields; intros; rewrite ?dget_default_self; done.
Qed.

Lemma reader_bind {A B} (m : syncM A) (f : A → syncM B) :
  reader m → (∀ a, reader (f a)) → reader (m ≫= f).
Proof.
  intros Hm Hf s s' Heq. destruct (Hm s s' Heq) as [Hv Hs].
  destruct (Hm s' s ltac:(by symmetry)) as [_ Hs'].
  unfold mbind, stM_bind. destruct (m s) as [s1 [a|e]], (m s') as [s1' [a'|e']];
    cbn in Hv, Hs, Hs'; simplify_eq.
  - assert (s1 ≡ s1') as H1 by (by rewrite Hs, Heq, Hs').
    destruct (Hf a' s1 s1' H1) as [Hv' Hs1]. split; [done|]. by rewrite Hs1.
  - done.
Qed.

Ltac solve_reader :=
  repeat first
    [ apply reader_ret | apply reader_lift | apply reader_arrivals | apply reader_ready
    | apply reader_wait_phase
    | apply (reader_tokens id) | apply (reader_tokens (λ d, queue d _))
    | apply reader_bind; [|intros ?]
    | match goal with |- reader (match ?x with _ => _ end) => destruct x end ].

Lemma evaluate_reader cfg tb t c : reader (evaluate cfg tb t c).
Proof.
  unfold evaluate, evaluate_release, evaluate_operation, evaluate_local_depth,
    evaluate_cross_depth, evaluate_wait_local, evaluate_wait_cross, evaluate_collective_wait.
  solve_reader.
Qed.

Lemma evaluate_nonneg cfg tb t c s d z :
  (evaluate cfg tb t c s).2 = Ok d → ready_cycle d = Some z → 0 <= z.
Proof.
  unfold evaluate, mbind, stM_bind. destruct (match nonempty_list _ with _ => _ end s) as [s' [a|e]];
    [|done]. cbn. unfold decision_init. destruct (ready_cycle a) as [n|] eqn:E.
  - destruct (n <? 0) eqn:Ez; [done|]. intros Hd Hz. injection Hd as <-. simplify_eq. lia.
  - intros Hd ?. injection Hd as <-. congruence.
Qed.

#[export] Instance noop_laws : SynchronizationLaws unit.
Proof. split; [done|]. cbn. intros ? ? ? d z ? ?. simplify_eq/=. lia. Qed.

Lemma on_live_fst {A} (m : sync_tables → syncM A) s :
  (on_live m s).1 = MkFB (fb_tables s) (m (fb_tables s) (fb_live s)).1.
Proof. unfold on_live. by destruct (m _ _). Qed.
Lemma on_live_snd {A} (m : sync_tables → syncM A) s :
  (on_live m s).2 = (m (fb_tables s) (fb_live s)).2.
Proof. unfold on_live. by destruct (m _ _). Qed.

Lemma flag_barrier_laws cfg :
  @SynchronizationLaws flag_barrier_state (FlagBarrierSynchronizationModel cfg).
Proof.
  split.
  - intros t u c st. cbn [sm_evaluate FlagBarrierSynchronizationModel].
    rewrite !on_live_snd, on_live_fst. cbn [fb_tables fb_live].
    apply evaluate_reader, (evaluate_reader cfg (fb_tables st) t c _ (fb_live st)). reflexivity.
  - intros t c st d z. cbn [sm_evaluate FlagBarrierSynchronizationModel].
    rewrite on_live_snd. apply evaluate_nonneg.
Qed.
#[export] Hint Resolve flag_barrier_laws : typeclass_instances.
