(* ===== verification/Scheduler.v ===== *)
(** The discrete-event scheduler ([scheduler.py], [DiscreteEventScheduler]).

    [run] repeats passes over the pending tasks in program order and places every task whose
    execution dependencies and FIFO predecessor are complete and whose synchronization
    decision is not blocked.  Python leaves the iteration order of a [set] open (it enters the
    traced metadata) and the wall clock is an input, so both are parameters.  The scheduler is
    written against [SynchronizationModel]. *)

From stdpp Require Import pretty.
From S2P Require Import Prelude PyDict PySort PyStr Errors Values Program Config Trace SyncOps.
From S2P Require Import SyncReset SyncModel.
Local Open Scope string_scope.
Local Open Scope Z_scope.
Local Open Scope list_scope.

(** ** Static tables *)

(** [_validate_dependencies] *)
Definition validate_dependencies (ts : list Task) : result unit :=
  ofold (λ _ t,
    let missing := py_sorted str_leb
      (fromkeys (filter (λ d, d ∉ task_id <$> ts) (dependencies t))) in
    if nonempty_list missing then
      raise_with UnknownDependencyError "unknown dependencies" (task_id t :: missing)
    else Ok tt) ts tt.

Definition metadata_names (t : Task) (key : string) : list string :=
  match dget (metadata t) key with
  | Some (VTuple l) | Some (VList l) => str_of <$> l
  | _ => []
  end.

(** [_execution_dependencies]: inferred memory edges are dropped unless the hardware enforces
    them. *)
Definition execution_dependencies (t : Task) : list string :=
  filter (λ d, d ∉ metadata_names t "memory_dependencies" ∨
               d ∈ metadata_names t "hardware_dependencies") (dependencies t).

(** [_fifo_predecessors] *)
Definition fifo_step (st : gmap ResourceKey string * gmap string string) (t : Task)
    : gmap ResourceKey string * gmap string string :=
  let '(previous, predecessors) := st in
  (<[resource_key t := task_id t]> previous,
   match previous !! resource_key t with
   | Some p => <[task_id t := p]> predecessors
   | None => predecessors
   end).
Definition fifo_predecessors (ts : list Task) : gmap string string :=
  (foldl fifo_step (∅, ∅) ts).2.

(** ** Deadlock reports *)

(** The nested [visit] of [_wait_cycle]; [visiting] is the current path. *)
Fixpoint wait_visit (edges : dict string (list string)) (fuel : nat) (visiting : list string)
    (visited : gset string) (id : string) : result (list string * gset string) :=
  match fuel with
  | O => raise RecursionError "visit"
  | S n =>
      if decide (id ∈ visiting) then
        Ok (drop (default O (fst <$> list_find (λ x, x = id) visiting)) visiting ++ [id], visited)
      else if decide (id ∈ visited) then Ok ([], visited)
      else
        '(cycle, visited') ←
          (fix go ds visited :=
             match ds with
             | [] => Ok ([], visited)
             | d :: ds =>
                 '(cycle, visited') ← wait_visit edges n (visiting ++ [id]) visited d;
                 if nonempty_list cycle then Ok (cycle, visited') else go ds visited'
             end) (dget_default [] edges id) visited;
        if nonempty_list cycle then Ok (cycle, visited') else Ok ([], {[id]} ∪ visited')
  end.

Definition wait_edges (ts : list Task) (pending : gset string) (completed : completed_map)
    : dict string (list string) :=
  dict_of_pairs ((λ t, (task_id t,
      filter (λ d, completed !! d = None)
        (execution_dependencies t ++ option_list (fifo_predecessors ts !! task_id t))))
    <$> filter (λ t, task_id t ∈ pending) ts).

(** [_wait_cycle] *)
Fixpoint first_cycle (edges : dict string (list string)) (fuel : nat) (visited : gset string)
    (ids : list string) : result (list string) :=
  match ids with
  | [] => Ok []
  | id :: ids =>
      '(cycle, visited') ← wait_visit edges fuel [] visited id;
      if nonempty_list cycle then Ok cycle else first_cycle edges fuel visited' ids
  end.
Definition sorted_ids (pending : gset string) : list string := py_sorted str_leb (elements pending).
Definition wait_cycle (ts : list Task) (pending : gset string) (completed : completed_map)
    : result (list string) :=
  first_cycle (wait_edges ts pending completed) (S (S (length ts))) ∅ (sorted_ids pending).

(** [_recent_history] *)
Definition recent_history (records : list ExecutionRecord) (limit : Z) : string :=
  match drop (length records - Z.to_nat limit) records with
  | [] => "none"
  | recent => join ", " ((λ r, r_task_id r +:+ "@" +:+ pretty (end_cycle r)) <$> recent)
  end.

(** [_format_blocked_task] *)
Definition region_text (key : string) (v : pyval) : list string :=
  match v with
  | VRegion r => [key +:+ "=" +:+ rg_buffer r +:+ ":" +:+ scope_value (rg_scope r)]
  | _ => []
  end.
Definition format_blocked_task (t : Task) (text : string) : string :=
  let span := if truthy (meta t "span") then ["span=" +:+ str_of (meta t "span")] else [] in
  let single key := region_text key (meta t key) in
  let many key := match meta t key with
                  | VTuple l | VList l => flat_map (region_text key) l
                  | _ => [] end in
  let regions := single "src" ++ single "dst" ++ many "src_regions" ++ many "dst_regions" in
  let context := span ++ (if nonempty_list regions
                          then ["regions=" +:+ join "," (fromkeys regions)] else []) in
  task_id t +:+ ": " +:+ text +:+
    (if nonempty_list context then " [" +:+ join "; " context +:+ "]" else "").

Section run.
Context {St : Type} `{!SynchronizationModel St}.
Context (config : SimulatorConfig) (set_order : gset string → list string) (clock : nat → Q).

(** ** Placing one task *)

Record sched := MkSched {
  pending : gset string;
  completed : completed_map;
  records : list ExecutionRecord;
  sync_state : St;
}.

(** The edges that constrain a task: execution dependencies and FIFO predecessor. *)
Definition required_ids (ts : list Task) (t : Task) : list string :=
  fromkeys (execution_dependencies t ++ option_list (fifo_predecessors ts !! task_id t)).

Definition names_value (l : list string) : pyval := VTuple (VStr <$> l).
Definition entry_if (b : bool) (key : string) (v : pyval) : list (string * pyval) :=
  if b then [(key, v)] else [].

Record timing := MkTiming {
  dependency_cycle : Z;
  resource_cycle : Z;
  synchronization_cycle : Z;
}.
Definition tm_ready (tm : timing) : Z := Z.max (dependency_cycle tm) (synchronization_cycle tm).
Definition tm_start (tm : timing) : Z := Z.max (tm_ready tm) (resource_cycle tm).

Definition timing_of (ts : list Task) (t : Task) (c : completed_map) (d : SyncDecision) : timing :=
  MkTiming (max0 (ends_of c (execution_dependencies t)))
    (max0 (ends_of c (option_list (fifo_predecessors ts !! task_id t))))
    (default 0 (ready_cycle d)).

(** The [schedule_predecessors] and [critical_predecessors] the trace keeps. *)
Definition trace_metadata (ts : list Task) (t : Task) (c : completed_map) (d : SyncDecision)
    (tm : timing) : dict string pyval :=
  let deps := set_order (list_to_set (execution_dependencies t)) in
  let fifo := option_list (fifo_predecessors ts !! task_id t) in
  let producers := producer_task_ids d in
  let start := tm_start tm in
  let schedule_predecessors :=
    entry_if (nonempty_list deps) "explicit" (names_value deps) ++
    entry_if (nonempty_list fifo) "fifo" (names_value fifo) ++
    entry_if (nonempty_list producers) "synchronization" (names_value producers) in
  let critical_predecessors :=
    if start =? 0 then [] else
    entry_if ((dependency_cycle tm =? start) && nonempty_list deps) "explicit"
      (names_value (filter (λ d, end_cycle <$> c !! d = Some (dependency_cycle tm)) deps)) ++
    entry_if ((resource_cycle tm =? start) && nonempty_list fifo) "fifo" (names_value fifo) ++
    entry_if ((synchronization_cycle tm =? start) && nonempty_list producers) "synchronization"
      (names_value producers) in
  entry_if (nonempty_list producers) "sync_producers" (names_value producers) ++
  entry_if (nonempty_list schedule_predecessors) "schedule_predecessors" (VDict schedule_predecessors) ++
  entry_if (nonempty_list critical_predecessors) "critical_predecessors" (VDict critical_predecessors) ++
  entry_if (tm_ready tm <? start) "queue_enter_cycle" (VInt (tm_ready tm)).

(** [decision.reason or "synchronization"] *)
Definition reason_text (d : SyncDecision) : string :=
  match reason d with
  | Some r => if nonempty r then r else "synchronization"
  | None => "synchronization"
  end.

(** The wait record of a task that synchronization delays. *)
Definition wait_record (t : Task) (d : SyncDecision) (tm : timing) : result (list ExecutionRecord) :=
  let idle := Z.max (dependency_cycle tm) (resource_cycle tm) in
  if idle <? synchronization_cycle tm then
    r ← record_init (MkRecord (task_id t +:+ "#wait") "wait" (core_id t) (lane t) (pipe t) idle
          (synchronization_cycle tm) "wait" (Some (reason_text d))
          [("blocked_task", VStr (task_id t)); ("detail", VStr (detail d))]);
    Ok [r]
  else Ok [].

(** A task whose requirements are met and whose decision allows it to run. *)
Definition place (ts : list Task) (t : Task) (d : SyncDecision) (st : St) (s : sched)
    : result sched :=
  let tm := timing_of ts t (completed s) d in
  waits ← wait_record t d tm;
  let finish := tm_start tm + duration_cycles t in
  _ ← (match max_cycles config with
       | Some limit => if limit <? finish
           then raise_with SimulationLimitError "max_cycles" [task_id t] else Ok tt
       | None => Ok tt
       end);
  r ← record_from_task t (tm_start tm) finish (trace_metadata ts t (completed s) d tm);
  let '(st', told) := sm_on_scheduled t r st in
  _ ← told;
  Ok (MkSched (pending s ∖ {[task_id t]}) (<[task_id t := r]> (completed s))
        (records s ++ waits ++ [r]) st').

(** ** One pass *)

Record pass := MkPass {
  ps_sched : sched;
  ps_progress : bool;
  ps_blocked : dict string string;
}.

Definition blocked_text (d : SyncDecision) : string :=
  "blocked by " +:+ reason_text d +:+
  (if nonempty (detail d) then ": " +:+ detail d else "").

Definition pass_step (ts : list Task) (p : pass) (t : Task) : result pass :=
  let s := ps_sched p in
  if decide (task_id t ∈ pending s) then
    let missing := missing_of (completed s) (required_ids ts t) in
    if nonempty_list missing then
      Ok (MkPass s (ps_progress p)
            (dset (ps_blocked p) (task_id t)
               ("waiting for " +:+ join ", " (py_sorted str_leb missing))))
    else
      let '(st, answer) := sm_evaluate t (completed s) (sync_state s) in
      d ← answer;
      if blocked d then
        Ok (MkPass (MkSched (pending s) (completed s) (records s) st) (ps_progress p)
              (dset (ps_blocked p) (task_id t) (blocked_text d)))
      else
        s' ← place ts t d st s;
        Ok (MkPass s' true (ps_blocked p))
  else Ok p.

Definition run_pass (ts : list Task) (s : sched) : result pass :=
  ofold (pass_step ts) ts (MkPass s false []).

(** ** The loop *)

(** [_check_wall_timeout] at the [n]-th pass *)
Definition check_wall_timeout (n : nat) (s : sched) : result unit :=
  if negb (Qle_bool (clock (S n) - clock 0)%Q (execution_timeout_s config)) then
    raise_with SimulationLimitError "execution_timeout_s" (sorted_ids (pending s))
  else Ok tt.

Definition deadlock_error (ts : list Task) (p : pass) : result sched :=
  let s := ps_sched p in
  let by_id := list_to_map (reverse ((λ t, (task_id t, t)) <$> ts)) : gmap string Task in
  let details := (λ id,
      match by_id !! id with
      | Some t => format_blocked_task t (dget_default "blocked" (ps_blocked p) id)
      | None => id
      end) <$> sorted_ids (pending s) in
  cycle ← wait_cycle ts (pending s) (completed s);
  let cycle_detail := if nonempty_list cycle
    then "wait-for cycle: " +:+ join " -> " cycle
    else "wait-for graph has no cycle; all remaining tasks are blocked and no future event can fire" in
  let state := match sm_diagnostics with Some hook => hook (sync_state s) | None => "unavailable" end in
  raise_with SimulationDeadlockError "global no-progress"
    [join "; " details; cycle_detail; state;
     recent_history (records s) (deadlock_history_limit config)].

(** [while pending:], by the number of passes; [None]: the loop is still running. *)
Fixpoint loop (fuel n : nat) (ts : list Task) (s : sched) : option (result sched) :=
  if decide (pending s = ∅) then Some (Ok s)
  else match fuel with
  | O => None
  | S fuel =>
      match check_wall_timeout n s ≫= (λ _, run_pass ts s) with
      | Raise e => Some (Raise e)
      | Ok p =>
          if negb (ps_progress p) && deadlock_detect config then Some (deadlock_error ts p)
          else loop fuel (S n) ts (ps_sched p)
      end
  end.

Definition record_leb (x y : ExecutionRecord) : bool :=
  pair_leb Z.eqb Z.leb (pair_leb Z.eqb Z.leb str_leb)
    (start_cycle x, (end_cycle x, r_task_id x)) (start_cycle y, (end_cycle y, r_task_id y)).

Definition initial (ts : list Task) (st : St) : sched :=
  MkSched (list_to_set (task_id <$> ts)) ∅ [] st.

(** [audit_flag_balance] after a completed run *)
Definition audit (s : sched) : result unit :=
  if mem_str (flag_balance_check config) ["off"] then Ok tt
  else match sm_audit with
  | None => Ok tt
  | Some hook => let '(_, verdict) := hook (flag_balance_check config) (sync_state s) in
                 _ ← verdict; Ok tt
  end.

(** The schedule computed by [run], in the order of its trace. *)
Definition schedule (fuel : nat) (program : KernelProgram)
    : option (result (list ExecutionRecord)) :=
  let ts := tasks program in
  let start :=
    _ ← ensure (mem_str (platform config) [kp_platform program]) SimulatorConfigError
      "scheduler config platform";
    _ ← validate_dependencies ts;
    sm_reset program in
  match start with
  | Raise e => Some (Raise e)
  | Ok st =>
      match loop fuel 0 ts (initial ts st) with
      | None => None
      | Some final => Some (s ← final; _ ← audit s; Ok (py_sorted record_leb (records s)))
      end
  end.
End run.
