(* ===== verification/Schedule.v ===== *)
(** The scheduler against its abstract specification.

    [sched_run] is the specification: a nondeterministic machine that may place any task whose
    requirements are complete and whose synchronization decision allows it.  The pass loop of
    [Scheduler] refines it; the guarantees of a schedule are proved by rule induction on
    [sched_run], for every synchronization model. *)

From S2P Require Import Prelude PyDict PySort PyStr Errors Values Program Config Trace SyncOps.
From S2P Require Import SyncReset SyncModel Scheduler.
Local Open Scope string_scope.
Local Open Scope Z_scope.
Local Open Scope list_scope.

(** ** Shared lemmas *)

Lemma missing_of_nil (c : completed_map) ids :
  missing_of c ids = [] ↔ ∀ id, id ∈ ids → is_Some (c !! id).
Proof.
  unfold missing_of. split.
  - intros H id Hid. destruct (c !! id) eqn:E; [eauto|].
    assert (id ∈ filter (λ i, c !! i = None) ids) by (by apply list_elem_of_filter).
    rewrite H in *. set_solver.
  - intros H. destruct (filter _ ids) as [|id l] eqn:E; [done|].
    assert (id ∈ filter (λ i, c !! i = None) ids) as [Hn Hid]%list_elem_of_filter
      by (rewrite E; by left).
    destruct (H id Hid). congruence.
Qed.

Lemma nonempty_list_false {A} (l : list A) : nonempty_list l = false ↔ l = [].
Proof. by destruct l. Qed.

Lemma max0_nonneg l : 0 <= max0 l.
Proof. unfold max0. induction l; cbn; lia. Qed.

Lemma max0_elem l z : z ∈ l → z <= max0 l.
Proof. unfold max0. induction 1; cbn; lia. Qed.

Lemma ends_of_bound (c : completed_map) ids id r :
  id ∈ ids → c !! id = Some r → end_cycle r <= max0 (ends_of c ids).
Proof.
  intros Hid Hr. apply max0_elem. unfold ends_of. apply list_elem_of_omap.
  exists id. by rewrite Hr.
Qed.

Lemma max0_app l k : max0 (l ++ k) = Z.max (max0 l) (max0 k).
Proof. unfold max0. induction l as [|z l IH]; cbn; [pose proof (max0_nonneg k); unfold max0 in *; lia|lia]. Qed.

(** The ends of completed tasks stay. *)
Lemma ends_of_mono (c c' : completed_map) ids :
  c ⊆ c' → (∀ id, id ∈ ids → is_Some (c !! id)) → ends_of c' ids = ends_of c ids.
Proof.
  intros Hc Hids. unfold ends_of. induction ids as [|id ids IH]; [done|]. cbn.
  destruct (Hids id ltac:(left)) as [r Hr]. rewrite (lookup_weaken _ _ _ _ Hr Hc), Hr. cbn.
  f_equal. apply IH. intros x Hx. apply Hids. by right.
Qed.

Lemma elem_of_required ts t id :
  id ∈ required_ids ts t ↔
  id ∈ execution_dependencies t ∨ fifo_predecessors ts !! task_id t = Some id.
Proof.
  unfold required_ids. rewrite elem_of_fromkeys, elem_of_app.
  destruct (fifo_predecessors ts !! task_id t); cbn; set_solver.
Qed.

(** ** FIFO order of a resource *)

Lemma fifo_fold_snoc pre t :
  foldl fifo_step (∅, ∅) (pre ++ [t]) = fifo_step (foldl fifo_step (∅, ∅) pre) t.
Proof. by rewrite foldl_app. Qed.

Lemma fifo_fold_last pre key :
  (foldl fifo_step (∅, ∅) pre).1 !! key =
  task_id <$> last (filter (λ t, resource_key t = key) pre).
Proof.
  induction pre as [|t pre IH] using rev_ind; [done|].
  rewrite fifo_fold_snoc, filter_app.
  destruct (foldl fifo_step (∅, ∅) pre) as [prev preds]. cbn [fst fifo_step] in *.
  destruct (decide (resource_key t = key)) as [<-|Hne].
  - rewrite lookup_insert_eq, filter_cons_True by done. by rewrite filter_nil, last_snoc.
  - rewrite lookup_insert_ne, filter_cons_False by done. by rewrite filter_nil, app_nil_r.
Qed.

Lemma fifo_fold_notin pre id :
  id ∉ task_id <$> pre → (foldl fifo_step (∅, ∅) pre).2 !! id = None.
Proof.
  induction pre as [|t pre IH] using rev_ind; [done|].
  rewrite fifo_fold_snoc, fmap_app, not_elem_of_app. intros [Hpre Ht]. specialize (IH Hpre).
  destruct (foldl fifo_step (∅, ∅) pre) as [prev preds]. cbn [snd fifo_step] in *.
  destruct (prev !! resource_key t); [|done].
  rewrite lookup_insert_ne; [done|]. intros <-. set_solver.
Qed.

(** The FIFO predecessor is the last earlier task of the same resource. *)
Lemma fifo_predecessors_spec pre t post :
  NoDup (task_id <$> pre ++ t :: post) →
  fifo_predecessors (pre ++ t :: post) !! task_id t =
  task_id <$> last (filter (λ a, resource_key a = resource_key t) pre).
Proof.
  unfold fifo_predecessors. induction post as [|u post IH] using rev_ind; intros Hnd.
  - rewrite fifo_fold_snoc. pose proof (fifo_fold_last pre (resource_key t)) as Hlast.
    pose proof (fifo_fold_notin pre (task_id t)) as Hno.
    destruct (foldl fifo_step (∅, ∅) pre) as [prev preds]. cbn [fst snd fifo_step] in *.
    rewrite <- Hlast.
    rewrite fmap_app, NoDup_app in Hnd. destruct Hnd as (_ & Hd & _).
    destruct (prev !! resource_key t); [by rewrite lookup_insert_eq|].
    apply Hno. intros Hin. apply (Hd _ Hin). set_solver.
  - rewrite app_comm_cons, app_assoc in Hnd |- *. rewrite fmap_app, NoDup_app in Hnd.
    destruct Hnd as (Hnd & Hd & _). specialize (IH Hnd).
    rewrite fifo_fold_snoc.
    destruct (foldl fifo_step (∅, ∅) (pre ++ t :: post)) as [prev preds]. cbn [snd fifo_step] in *.
    destruct (prev !! resource_key u); [|done].
    rewrite lookup_insert_ne; [done|]. intros Heq.
    apply (Hd (task_id t)); [|set_solver]. rewrite fmap_app. set_solver.
Qed.

Lemma last_filter_split {A} (P : A → Prop) `{∀ x, Decision (P x)} l a :
  a ∈ l → P a →
  ∃ k l1 l2, l = l1 ++ k :: l2 ∧ P k ∧ last (filter P l) = Some k ∧ (a = k ∨ a ∈ l1).
Proof.
  induction l as [|x l IH] using rev_ind; [set_solver|].
  intros Ha HP. destruct (decide (P x)) as [Hx|Hx].
  - exists x, l, []. split; [done|]. split; [done|]. split; [|set_solver].
    by rewrite filter_app, filter_cons_True, filter_nil, last_snoc.
  - destruct IH as (k & l1 & l2 & -> & Hk & Hlast & Hor); [|done|].
    { apply elem_of_app in Ha as [?|?%list_elem_of_singleton]; [done|]. by subst. }
    exists k, l1, (l2 ++ [x]). split; [by rewrite <- app_assoc|]. split; [done|].
    split; [|done].
    rewrite filter_app, (filter_cons_False _ x), filter_nil, app_nil_r by done. done.
Qed.

(** ** The specification *)

Abbreviation event := (Task * ExecutionRecord)%type.
Definition ev_id (e : event) : string := task_id e.1.

(** [r] is the record of task [t]. *)
Definition record_of (t : Task) (r : ExecutionRecord) : Prop :=
  r_task_id r = task_id t ∧ r_operation r = operation t ∧ r_core_id r = core_id t ∧
  r_lane r = lane t ∧ r_pipe r = pipe t ∧ category r = "operation" ∧
  0 <= start_cycle r <= end_cycle r ∧ end_cycle r = start_cycle r + duration_cycles t.

Section spec.
Context {St : Type} `{!SynchronizationModel St} (ts : list Task) (st0 : St).

(** A task can be considered once its requirements are complete. *)
Definition enabled (c : completed_map) (t : Task) : Prop :=
  t ∈ ts ∧ c !! task_id t = None ∧ ∀ id, id ∈ required_ids ts t → is_Some (c !! id).

(** The earliest start the completed requirements and the decision allow. *)
Definition earliest (c : completed_map) (t : Task) (d : SyncDecision) : Z :=
  tm_start (timing_of ts t c d).

Inductive sched_run : list event → completed_map → St → Prop :=
| run_start : sched_run [] ∅ st0
| run_blocked hist c st t d st' :
    sched_run hist c st → enabled c t → sm_evaluate t c st = (st', Ok d) →
    ready_cycle d = None → sched_run hist c st'
| run_place hist c st t d cycle st1 st' r :
    sched_run hist c st → enabled c t → sm_evaluate t c st = (st1, Ok d) →
    ready_cycle d = Some cycle → record_of t r → start_cycle r = earliest c t d →
    sm_on_scheduled t r st1 = (st', Ok tt) →
    sched_run (hist ++ [(t, r)]) (<[task_id t := r]> c) st'.

Lemma earliest_bounds c t d :
  0 <= earliest c t d ∧ default 0 (ready_cycle d) <= earliest c t d ∧
  ∀ id r, id ∈ required_ids ts t → c !! id = Some r → end_cycle r <= earliest c t d.
Proof.
  unfold earliest, tm_start, tm_ready, timing_of; cbn [dependency_cycle resource_cycle
    synchronization_cycle].
  pose proof (max0_nonneg (ends_of c (execution_dependencies t))).
  split; [lia|]. split; [lia|]. intros id r [Hd|Hf]%elem_of_required Hr.
  - pose proof (ends_of_bound c _ id r Hd Hr). lia.
  - rewrite Hf. pose proof (ends_of_bound c (option_list (Some id)) id r) as Hb.
    specialize (Hb ltac:(cbn; set_solver) Hr). lia.
Qed.

(** Requirements of a placed task, in a completion map that contains it. *)
Definition respects (c : completed_map) (e : event) : Prop :=
  ∀ id, id ∈ required_ids ts e.1 → ∃ r, c !! id = Some r ∧ end_cycle r <= start_cycle e.2.

Record run_facts (hist : list event) (c : completed_map) : Prop := {
  rf_completed : ∀ id r, c !! id = Some r ↔ ∃ t, (t, r) ∈ hist ∧ task_id t = id;
  rf_nodup : NoDup (ev_id <$> hist);
  rf_tasks : ∀ t r, (t, r) ∈ hist → t ∈ ts ∧ record_of t r;
  rf_respects : ∀ e, e ∈ hist → respects c e;
}.

Lemma respects_insert c e id r :
  c !! id = None → respects c e → respects (<[id := r]> c) e.
Proof.
  intros Hn He x Hx. destruct (He x Hx) as (r' & Hr' & Hle). exists r'.
  rewrite lookup_insert_ne; [done|congruence].
Qed.

Lemma sched_run_facts hist c st : sched_run hist c st → run_facts hist c.
Proof.
  induction 1 as [|hist c st t d st' _ IH _ _ _
    |hist c st t d cycle st1 st' r _ [Hc Hnd Ht Hr] (Hin & Hfresh & Hreq) He Hd Hrec Hstart Hon].
  - split; [|constructor|set_solver|set_solver]. intros. rewrite lookup_empty. set_solver.
  - done.
  - pose proof (earliest_bounds c t d) as (_ & _ & Hb). split.
    + intros id r'. setoid_rewrite elem_of_app. setoid_rewrite list_elem_of_singleton.
      destruct (decide (task_id t = id)) as [<-|Hne].
      * rewrite lookup_insert_eq. split.
        -- intros [= <-]. exists t. by split; [right|].
        -- intros (t' & [Hin'|[= -> ->]] & Hid); [|done].
           assert (c !! task_id t' = Some r') as Hs by (apply Hc; eauto). congruence.
      * rewrite lookup_insert_ne, Hc by done. naive_solver.
    + rewrite fmap_app. cbn. apply NoDup_app. split; [done|].
      split; [|apply NoDup_singleton].
      intros id ([t' r'] & Hid & Hin')%list_elem_of_fmap Hid'%list_elem_of_singleton.
      assert (c !! id = Some r') as Hs by (apply Hc; eauto).
      unfold ev_id in *; cbn in *. congruence.
    + intros t' r'. rewrite elem_of_app, list_elem_of_singleton.
      intros [Hin'|[= -> ->]]; [by apply Ht|done].
    + intros e. rewrite elem_of_app, list_elem_of_singleton. intros [He'| ->].
      * by apply respects_insert; [|apply Hr].
      * apply respects_insert; [done|]. intros id Hid. destruct (Hreq id Hid) as [r' Hr'].
        exists r'. split; [done|]. cbn. rewrite Hstart. eauto.
Qed.

(** A run stops at every placement: the decision it was made from, and the start it got. *)
Lemma sched_run_split hist c st h1 t r h2 :
  sched_run hist c st → hist = h1 ++ (t, r) :: h2 →
  ∃ c1 st1 d cycle st2, sched_run h1 c1 st1 ∧ enabled c1 t ∧ sm_evaluate t c1 st1 = (st2, Ok d) ∧
    ready_cycle d = Some cycle ∧ start_cycle r = earliest c1 t d ∧ c1 ⊆ c.
Proof.
  intros H. revert h1 t r h2. induction H as [|hist c st t d st' _ IH _ _ _
    |hist c st t d cycle st1 st' r Hrun IH Hen Hev Hd Hrec Hstart Hon]; intros h1 u ru h2 Heq.
  - by destruct h1.
  - by apply (IH h1 u ru h2).
  - destruct h2 as [|e h2 _] using rev_ind.
    + apply app_inj_tail in Heq as [<- Heq]. injection Heq as <- <-.
      exists c, st, d, cycle, st1. split_and!; try done. apply insert_subseteq, Hen.
    + rewrite app_comm_cons, app_assoc in Heq. apply app_inj_tail in Heq as [Heq _].
      destruct (IH h1 u ru h2 Heq) as (c1 & s1 & d1 & cy & s2 & ? & ? & ? & ? & ? & Hc).
      exists c1, s1, d1, cy, s2. split_and!; try done. etrans; [exact Hc|]. apply insert_subseteq, Hen.
Qed.

Lemma task_of_id a b : NoDup (task_id <$> ts) → a ∈ ts → b ∈ ts → task_id a = task_id b → a = b.
Proof.
  intros Hnd Ha Hb Heq. apply list_elem_of_lookup in Ha as [i Hi], Hb as [j Hj].
  assert (i = j) as ->; [|congruence].
  apply (NoDup_lookup _ i j (task_id a) Hnd); rewrite list_lookup_fmap, ?Hi, ?Hj; cbn; congruence.
Qed.

(** A required task was placed, and ended before the task that requires it starts. *)
Lemma required_placed hist c t r id u :
  NoDup (task_id <$> ts) → run_facts hist c → (t, r) ∈ hist → u ∈ ts → task_id u = id →
  id ∈ required_ids ts t → ∃ ru, (u, ru) ∈ hist ∧ end_cycle ru <= start_cycle r.
Proof.
  intros Hnd [Hc _ Ht Hresp] Hin Hu <- Hid.
  destruct (Hresp _ Hin _ Hid) as (ru & Hru & Hle). exists ru. split; [|done].
  apply Hc in Hru as (u' & Hin' & Heq). destruct (Ht _ _ Hin') as [Hu' _].
  by rewrite <- (task_of_id u' u Hnd Hu' Hu Heq).
Qed.

(** Tasks of one resource run in program order, one after the other. *)
Lemma resource_order hist c pre b post a ra rb :
  NoDup (task_id <$> ts) → run_facts hist c → ts = pre ++ b :: post → a ∈ pre →
  resource_key a = resource_key b → (a, ra) ∈ hist → (b, rb) ∈ hist →
  end_cycle ra <= start_cycle rb.
Proof.
  intros Hnd Hf. remember (length pre) as n eqn:Hn. revert pre b post rb Hn.
  induction n as [n IH] using lt_wf_ind; intros pre b post rb -> Hts Ha Hkey Hra Hrb.
  destruct (last_filter_split (λ x, resource_key x = resource_key b) pre a Ha Hkey)
    as (k & l1 & l2 & -> & Hk & Hlast & Hor).
  assert (k ∈ ts) as Hkts by (rewrite Hts; set_solver).
  assert (task_id k ∈ required_ids ts b) as Hreq.
  { apply elem_of_required. right. rewrite Hts in Hnd |- *.
    rewrite fifo_predecessors_spec by done. by rewrite Hlast. }
  destruct (required_placed hist c b rb _ k Hnd Hf Hrb Hkts eq_refl Hreq) as (rk & Hrk & Hle).
  destruct Hor as [->|Hl1].
  - assert (rk = ra) as ->; [|done]. destruct Hf as [Hc _ _ _].
    assert (c !! task_id k = Some rk) by (apply Hc; eauto).
    assert (c !! task_id k = Some ra) by (apply Hc; eauto). congruence.
  - destruct Hf as [Hc Hnd' Ht Hresp]. destruct (Ht _ _ Hrk) as [_ Hrec].
    destruct Hrec as (_ & _ & _ & _ & _ & _ & Hpos & _).
    assert (end_cycle ra <= start_cycle rk); [|lia].
    apply (IH (length l1) ltac:(rewrite length_app; cbn; lia) l1 k (l2 ++ b :: post));
      [done| |done|congruence|done|done].
    rewrite Hts, <- app_assoc. done.
Qed.
End spec.

(** ** The loop refines the specification *)

Definition operation_records (rs : list ExecutionRecord) : list ExecutionRecord :=
  filter (λ r, category r = "operation") rs.

Section refinement.
Context {St : Type} `{!SynchronizationModel St} (config : SimulatorConfig).
Context (set_order : gset string → list string) (clock : nat → Q) (ts : list Task) (st0 : St).
Implicit Types s : sched (St := St).

Record refines (hist : list event) s : Prop := {
  rl_run : sched_run ts st0 hist (completed s) (sync_state s);
  rl_pending : ∀ id, id ∈ pending s ↔ id ∈ task_id <$> ts ∧ completed s !! id = None;
  rl_records : operation_records (records s) = hist.*2;
  rl_limit : ∀ m, max_cycles config = Some m → ∀ r, r ∈ records s → end_cycle r <= m;
}.

Lemma initial_refines : refines [] (initial ts st0).
Proof.
  split; cbn; [constructor| |done|set_solver]. intros id.
  rewrite elem_of_list_to_set, lookup_empty. naive_solver.
Qed.

Lemma wait_record_category t d tm rs :
  wait_record t d tm = Ok rs →
  operation_records rs = [] ∧ ∀ r, r ∈ rs → end_cycle r <= tm_start tm.
Proof.
  unfold wait_record. destruct (_ <? _); intros H; inv_res; [|set_solver].
  match goal with H : record_init _ = _ |- _ => apply record_init_ok in H as [-> _] end.
  split; [done|]. intros r ->%list_elem_of_singleton. unfold tm_start, tm_ready. cbn. lia.
Qed.

Lemma place_ok t d st s s' :
  place config set_order ts t d st s = Ok s' →
  ∃ r, record_of t r ∧ start_cycle r = earliest ts (completed s) t d ∧
    sm_on_scheduled t r st = (sync_state s', Ok tt) ∧
    pending s' = pending s ∖ {[task_id t]} ∧ completed s' = <[task_id t := r]> (completed s) ∧
    operation_records (records s') = operation_records (records s) ++ [r] ∧
    (∀ m, max_cycles config = Some m →
       ∀ x, x ∈ records s' → x ∈ records s ∨ end_cycle x <= m).
Proof.
  unfold place. intros H. apply outcome_bind_ok in H as (waits & Hw & H).
  apply outcome_bind_ok in H as (u & Hlim & H).
  apply outcome_bind_ok in H as (r & Hr & H).
  apply record_from_task_ok in Hr as (? & ? & ? & ? & ? & ? & ? & ? & ? & ?).
  destruct (sm_on_scheduled t r st) as [st' told] eqn:Eon.
  apply outcome_bind_ok in H as ([] & -> & H). injection H as <-. cbn [pending completed records sync_state].
  exists r. repeat (split; [first [done|congruence|lia]|]).
  split; [repeat split; first [done|congruence|lia]|].
  split; [done|]. split; [done|]. split; [done|]. split; [done|].
  apply wait_record_category in Hw as [Hw Hwe]. unfold operation_records in *. split.
  - rewrite !filter_app, Hw. by rewrite filter_cons_True.
  - intros m Hm x Hx. rewrite Hm in Hlim. destruct (m <? _) eqn:El; [done|].
    rewrite !elem_of_app, list_elem_of_singleton in Hx. destruct Hx as [Hx|[Hx| ->]].
    + by left.
    + right. specialize (Hwe x Hx). lia.
    + right. lia.
Qed.

Lemma pass_step_refines p p' t hist :
  t ∈ ts → refines hist (ps_sched p) →
  pass_step config set_order ts p t = Ok p' →
  ∃ hist', refines hist' (ps_sched p') ∧
    ((pending (ps_sched p') = pending (ps_sched p) ∧ ps_progress p' = ps_progress p) ∨
     (pending (ps_sched p') = pending (ps_sched p) ∖ {[task_id t]} ∧ ps_progress p' = true ∧
      task_id t ∈ pending (ps_sched p))).
Proof.
  intros Ht [Hrun Hpend Hrec Hlim] H. unfold pass_step in H.
  case_decide as Hin; [|injection H as <-; exists hist; split; [done|by left]].
  destruct (nonempty_list _) eqn:Em; [injection H as <-; exists hist; split; [done|by left]|].
  apply nonempty_list_false in Em. pose proof (proj1 (missing_of_nil _ _) Em) as Hreq.
  assert (enabled ts (completed (ps_sched p)) t) as Hen.
  { split; [done|]. split; [by apply Hpend in Hin as [_ ?]|exact Hreq]. }
  destruct (sm_evaluate t _ _) as [st answer] eqn:Eev.
  apply outcome_bind_ok in H as (d & -> & H). unfold blocked in H.
  destruct (ready_cycle d) as [cycle|] eqn:Ed.
  - apply outcome_bind_ok in H as (s' & Hp & H). injection H as <-.
    apply place_ok in Hp as (r & Hr & Hstart & Hon & Hpe & Hco & Hre & Hl).
    exists (hist ++ [(t, r)]). cbn [ps_sched ps_progress]. split; [|by right].
    split.
    + rewrite Hco. by eapply run_place.
    + intros id. rewrite Hpe, Hco, elem_of_difference, elem_of_singleton, Hpend.
      destruct (decide (task_id t = id)) as [->|Hne];
        [rewrite lookup_insert_eq; naive_solver|rewrite lookup_insert_ne by done; naive_solver].
    + by rewrite Hre, fmap_app, Hrec.
    + intros m Hm x Hx. destruct (Hl m Hm x Hx) as [Hx'|?]; [by apply (Hlim m Hm)|done].
  - injection H as <-. exists hist. cbn [ps_sched ps_progress pending completed records]. 
    split; [|by left]. split; [by eapply run_blocked|done|done|done].
Qed.

Lemma pass_fold_refines l p p' hist :
  l ⊆ ts → refines hist (ps_sched p) →
  ofold (pass_step config set_order ts) l p = Ok p' →
  ∃ hist', refines hist' (ps_sched p') ∧ pending (ps_sched p') ⊆ pending (ps_sched p) ∧
    (ps_progress p' = ps_progress p ∨ pending (ps_sched p') ⊂ pending (ps_sched p)).
Proof.
  revert p hist; induction l as [|t l IH]; intros p hist Hl Hr H; cbn in H.
  - injection H as <-. exists hist. auto.
  - apply outcome_bind_ok in H as (p1 & H1 & H2).
    apply (pass_step_refines _ _ _ hist) in H1 as (h1 & Hr1 & Hcase); [|set_solver|done].
    destruct (IH p1 h1 ltac:(set_solver) Hr1 H2) as (h2 & Hr2 & Hsub & Hprog).
    exists h2. split; [done|].
    destruct Hcase as [[Hp Hg]|(Hp & Hg & Hin)].
    + rewrite Hp, Hg in *. done.
    + rewrite Hp in *. split; [set_solver|]. right. destruct Hprog; set_solver.
Qed.

(** A successful pass refines the specification and, when it made progress, shrinks the
    pending set. *)
Lemma run_pass_refines s p hist :
  refines hist s → run_pass config set_order ts s = Ok p →
  ∃ hist', refines hist' (ps_sched p) ∧
    (ps_progress p = true → pending (ps_sched p) ⊂ pending s).
Proof.
  intros Hr H. unfold run_pass in H.
  destruct (pass_fold_refines ts (MkPass s false []) p hist ltac:(done) Hr H) as (h & Hr' & _ & Hp).
  exists h. split; [done|]. cbn [ps_sched ps_progress] in Hp. intros Ht.
  destruct Hp as [Hp|Hp]; [congruence|done].
Qed.

Lemma deadlock_error_not_ok p s : deadlock_error config ts p ≠ Ok s.
Proof.
  unfold deadlock_error. intros (c & _ & H)%outcome_bind_ok. done.
Qed.

Lemma loop_refines fuel n s hist s' :
  refines hist s → loop config set_order clock fuel n ts s = Some (Ok s') →
  ∃ hist', refines hist' s' ∧ pending s' = ∅.
Proof.
  revert n s hist; induction fuel as [|fuel IH]; intros n s hist Hr H; cbn [loop] in H.
  - case_decide; [|done]. injection H as <-. eauto.
  - case_decide; [injection H as <-; eauto|].
    destruct (check_wall_timeout _ _ _ _ ≫= _) as [p|e] eqn:E; [|done].
    apply outcome_bind_ok in E as (_ & _ & Hp).
    destruct (run_pass_refines s p hist Hr Hp) as (h & Hr' & _).
    destruct (negb _ && _).
    + injection H as H. by apply deadlock_error_not_ok in H.
    + by apply (IH (S n) (ps_sched p) h).
Qed.

(** With deadlock detection the loop ends within one pass per pending task. *)
Lemma loop_terminates fuel n s hist :
  deadlock_detect config = true → refines hist s → (size (pending s) ≤ fuel)%nat →
  is_Some (loop config set_order clock fuel n ts s).
Proof.
  intros Hdd. revert n s hist; induction fuel as [|fuel IH]; intros n s hist Hr Hs; cbn [loop].
  - case_decide as Hp; [eauto|]. destruct Hp. apply leibniz_equiv, size_empty_iff. lia.
  - case_decide; [eauto|].
    destruct (check_wall_timeout _ _ _ _ ≫= _) as [p|e] eqn:E; [|eauto].
    apply outcome_bind_ok in E as (_ & _ & Hp).
    destruct (run_pass_refines s p hist Hr Hp) as (h & Hr' & Hprog).
    rewrite Hdd, andb_true_r. destruct (ps_progress p); cbn [negb]; [|eauto].
    apply (IH _ _ h); [done|]. specialize (Hprog eq_refl).
    apply subset_size in Hprog. lia.
Qed.
End refinement.

Section schedule.
Context {St : Type} `{!SynchronizationModel St} (config : SimulatorConfig).
Context (set_order : gset string → list string) (clock : nat → Q).
Implicit Types p : KernelProgram.

Lemma operation_records_perm rs1 rs2 :
  rs1 ≡ₚ rs2 → operation_records rs1 ≡ₚ operation_records rs2.
Proof. intros H. unfold operation_records. by rewrite H. Qed.

(** A finished run places every task exactly once. *)
Lemma finished_tasks (ts : list Task) (st0 : St) hist s :
  NoDup (task_id <$> ts) → refines config ts st0 hist s → pending s = ∅ → hist.*1 ≡ₚ ts.
Proof.
  intros Hnd [Hrun Hp _ _] He. apply sched_run_facts in Hrun as [Hc Hndh Ht _].
  assert (NoDup (hist.*1)) as Hnd1.
  { apply (NoDup_fmap_1 task_id). rewrite <- list_fmap_compose. exact Hndh. }
  apply NoDup_Permutation; [done|by apply (NoDup_fmap_1 task_id)|].
  intros t. rewrite list_elem_of_fmap. split.
  - intros ([t' r] & -> & Hin). by apply Ht in Hin as [? _].
  - intros Hin. destruct (completed s !! task_id t) as [r|] eqn:E.
    + apply Hc in E as (t' & Hin' & Heq). destruct (Ht _ _ Hin') as [Hin'' _].
      exists (t', r). split; [|done]. cbn. by eapply task_of_id.
    + assert (task_id t ∈ pending s) by (apply Hp; split; [apply list_elem_of_fmap; eauto|done]).
      set_solver.
Qed.

Lemma schedule_run fuel p rs :
  NoDup (task_id <$> tasks p) →
  schedule config set_order clock fuel p = Some (Ok rs) →
  ∃ st0 hist c st, sm_reset p = Ok st0 ∧ sched_run (tasks p) st0 hist c st ∧
    hist.*1 ≡ₚ tasks p ∧ operation_records rs ≡ₚ hist.*2 ∧
    (∀ m, max_cycles config = Some m → ∀ r, r ∈ rs → end_cycle r <= m).
Proof.
  intros Hnd H. unfold schedule in H. destruct (_ ≫= _) as [st0|e] eqn:E; [|done].
  apply outcome_bind_ok in E as (_ & _ & E). apply outcome_bind_ok in E as (_ & _ & E).
  destruct (loop _ _ _ _ _ _ _) as [[s|e]|] eqn:El; [|done|done].
  injection H as H. apply outcome_bind_ok in H as (_ & _ & H). injection H as <-.
  destruct (loop_refines config set_order clock (tasks p) st0 fuel 0 _ [] s
    (initial_refines _ _ _) El) as (hist & Hr & Hpend).
  exists st0, hist, (completed s), (sync_state s). split; [done|].
  split; [apply Hr|]. split; [by eapply finished_tasks|].
  rewrite <- (rl_records _ _ _ _ _ Hr).
  split; [apply operation_records_perm, py_sorted_perm|].
  intros m Hm r Hin%elem_of_py_sorted. by apply (rl_limit _ _ _ _ _ Hr m Hm).
Qed.
End schedule.
