(* ===== verification/Progress.v ===== *)
(** Deadlock detection and progress of the scheduler: a pass makes no progress exactly when no
    task can run, and without synchronization every program whose waits are acyclic is
    scheduled to the end. *)

From S2P Require Import Prelude PyDict PySort PyStr Errors Values Program Config Trace SyncOps.
From S2P Require Import SyncReset SyncModel SyncLaws Scheduler Schedule.
Local Open Scope string_scope.
Local Open Scope Z_scope.
Local Open Scope list_scope.

Section stuck.
Context {St : Type} `{!SynchronizationModel St, !SynchronizationLaws St}.
Context (config : SimulatorConfig) (set_order : gset string → list string) (ts : list Task).
Implicit Types s : sched (St := St).
Implicit Types p : pass (St := St).

(** Task [t] cannot run: a requirement is missing, or synchronization blocks it. *)
Definition cannot_run s (t : Task) : Prop :=
  (∃ id, id ∈ required_ids ts t ∧ completed s !! id = None) ∨
  (∃ d, (sm_evaluate t (completed s) (sync_state s)).2 = Ok d ∧ ready_cycle d = None).

Definition stuck s : Prop := ∀ t, t ∈ ts → task_id t ∈ pending s → cannot_run s t.

(** States that differ only by the decisions asked for. *)
Definition asked s s' : Prop :=
  pending s' = pending s ∧ completed s' = completed s ∧
  ∀ t, (sm_evaluate t (completed s) (sync_state s')).2 =
       (sm_evaluate t (completed s) (sync_state s)).2.

Lemma asked_refl s : asked s s.
Proof. by split. Qed.

Lemma asked_trans s1 s2 s3 : asked s1 s2 → asked s2 s3 → asked s1 s3.
Proof.
  intros (Hp & Hc & He) (Hp' & Hc' & He'). repeat split; [congruence|congruence|].
  intros t. rewrite <- He, <- Hc. apply He'.
Qed.

Lemma asked_cannot_run s s' t : asked s s' → cannot_run s' t ↔ cannot_run s t.
Proof. intros (_ & Hc & He). unfold cannot_run. by rewrite Hc, He. Qed.

Lemma missing_cases (c : completed_map) ids :
  (∃ id, id ∈ ids ∧ c !! id = None) ↔ nonempty_list (missing_of c ids) = true.
Proof.
  unfold missing_of. destruct (filter _ ids) as [|x l] eqn:E; cbn.
  - split; [|done]. intros (id & Hid & Hn).
    assert (id ∈ filter (λ i, c !! i = None) ids) by (by apply list_elem_of_filter).
    rewrite E in *. set_solver.
  - split; [done|]. intros _. exists x.
    assert (x ∈ filter (λ i, c !! i = None) ids) as ?%list_elem_of_filter by (rewrite E; by left).
    naive_solver.
Qed.

(** One step of a pass: the task is skipped or held back and cannot run, or it is placed and
    could run. *)
Lemma pass_step_cases p p' t :
  pass_step config set_order ts p t = Ok p' →
  (ps_progress p' = ps_progress p ∧ asked (ps_sched p) (ps_sched p') ∧
   (task_id t ∈ pending (ps_sched p) → cannot_run (ps_sched p) t)) ∨
  (ps_progress p' = true ∧ task_id t ∈ pending (ps_sched p) ∧ ¬ cannot_run (ps_sched p) t).
Proof.
  unfold pass_step. intros H.
  case_decide as Hin; [|injection H as <-; left; split; [done|]; split; [apply asked_refl|done]].
  destruct (nonempty_list _) eqn:Em.
  { apply missing_cases in Em. injection H as <-. left. split; [done|].
    split; [apply asked_refl|]. intros _. by left. }
  destruct (sm_evaluate t _ _) as [st answer] eqn:Ee.
  apply outcome_bind_ok in H as (d & -> & H). unfold blocked in H.
  destruct (ready_cycle d) as [z|] eqn:Ed.
  - apply outcome_bind_ok in H as (s' & _ & H). injection H as <-. right.
    split; [done|]. split; [done|]. intros [Hm|(d' & Hd' & Hn)].
    + apply missing_cases in Hm. congruence.
    + rewrite Ee in Hd'. cbn in Hd'. congruence.
  - injection H as <-. left. split; [done|]. split.
    + split; [done|]. split; [done|]. cbn [ps_sched sync_state]. intros u.
      pose proof (sl_evaluate_pure t u (completed (ps_sched p)) (sync_state (ps_sched p))) as Hp.
      by rewrite Ee in Hp.
    + intros _. right. exists d. by rewrite Ee.
Qed.

Lemma pass_progress_monotone l p p' :
  ofold (pass_step config set_order ts) l p = Ok p' → ps_progress p = true → ps_progress p' = true.
Proof.
  revert p; induction l as [|t l IH]; intros p H Hp; cbn in H; [by injection H as <-|].
  apply outcome_bind_ok in H as (p1 & H1 & H2). apply (IH p1 H2).
  apply pass_step_cases in H1 as [[-> _]|[-> _]]; done.
Qed.

Lemma pass_fold_exact l p p' :
  ofold (pass_step config set_order ts) l p = Ok p' → ps_progress p = false →
  ps_progress p' = false ↔
  ∀ t, t ∈ l → task_id t ∈ pending (ps_sched p) → cannot_run (ps_sched p) t.
Proof.
  revert p; induction l as [|t l IH]; intros p H Hp; cbn in H.
  { injection H as <-. split; [set_solver|done]. }
  apply outcome_bind_ok in H as (p1 & H1 & H2). setoid_rewrite elem_of_cons.
  apply pass_step_cases in H1 as [(Hg & Ha & Hno)|(Hg & Hin & Hyes)].
  - rewrite (IH p1 H2) by congruence. destruct Ha as (Hpe & Ha'). rewrite Hpe.
    setoid_rewrite (asked_cannot_run _ _ _ (conj Hpe Ha')).
    split; [intros Hall u [->|Hu]; auto|intros Hall u Hu; auto].
  - apply (pass_progress_monotone _ _ _ H2) in Hg. rewrite Hg.
    split; [done|]. intros Hall. destruct Hyes. auto.
Qed.

Lemma run_pass_exact s p :
  run_pass config set_order ts s = Ok p → ps_progress p = false ↔ stuck s.
Proof. intros H. unfold run_pass in H. by rewrite (pass_fold_exact _ _ _ H). Qed.
End stuck.

(** ** Progress without synchronization *)

Section noop.
Context (config : SimulatorConfig) (set_order : gset string → list string) (clock : nat → Q).
Context (ts : list Task).
Context (Hok : ∀ t, t ∈ ts → task_ok t) (Hmax : max_cycles config = None).
Implicit Types s : sched (St := unit).

(** [waits_for x y]: task [x] needs task [y], as an execution dependency or as its FIFO
    predecessor. *)
Definition waits_for (x y : string) : Prop :=
  ∃ t, t ∈ ts ∧ task_id t = x ∧ y ∈ required_ids ts t.

Lemma noop_place_total t st s :
  t ∈ ts → is_ok (place config set_order ts t (MkDecision (Some 0) None "" []) st s) = true.
Proof.
  intros Ht. destruct (Hok t Ht). unfold place.
  set (tm := timing_of _ _ _ _).
  assert (0 <= dependency_cycle tm) by apply max0_nonneg.
  assert (synchronization_cycle tm = 0) as Hs by done.
  unfold wait_record. rewrite Hs. replace (_ <? 0) with false by lia. ok_bind. rewrite Hmax. ok_bind.
  assert (0 <= tm_start tm) by (unfold tm_start, tm_ready; lia).
  unfold record_from_task, record_init. cbn [r_task_id r_operation r_core_id start_cycle end_cycle].
  rewrite to_id, to_op. unfold ensure. cbn [andb require]. ok_bind.
  replace (0 <=? core_id t) with true by lia. replace (0 <=? tm_start tm) with true by lia.
  cbn [andb require]. ok_bind.
  replace (_ <=? _ + _) with true by lia. cbn [require]. by ok_bind.
Qed.

Lemma noop_pass_total l p :
  l ⊆ ts → is_ok (ofold (pass_step config set_order ts) l p) = true.
Proof.
  revert p; induction l as [|t l IH]; intros p Hl; cbn [ofold]; [done|].
  assert (is_ok (pass_step config set_order ts p t) = true) as Hs.
  { unfold pass_step. case_decide; [|done]. destruct (nonempty_list _); [done|].
    cbn [sm_evaluate NoOpSynchronizationModel]. unfold mret, stM_ret. ok_bind.
    cbn [blocked ready_cycle].
    pose proof (noop_place_total t (sync_state (ps_sched p)) (ps_sched p) ltac:(set_solver)) as Hp.
    destruct (place _ _ _ _ _ _ _); [done|by cbn in Hp]. }
  destruct (pass_step _ _ _ p t); [|done]. ok_bind. apply IH. set_solver.
Qed.

Lemma required_known t id :
  NoDup (task_id <$> ts) → deps_known ts → t ∈ ts → id ∈ required_ids ts t →
  id ∈ task_id <$> ts.
Proof.
  intros Hnd Hk Ht [Hd|Hf]%elem_of_required.
  - apply list_elem_of_filter in Hd as [_ Hd]. by eapply Hk.
  - pose proof Ht as (pre & post & Hts)%list_elem_of_split. rewrite Hts in Hnd, Hf |- *.
    rewrite fifo_predecessors_spec in Hf by done.
    apply fmap_Some in Hf as (a & Ha%last_Some_elem_of & ->).
    apply list_elem_of_filter in Ha as [_ Ha]. rewrite fmap_app. set_solver.
Qed.

Lemma waits_sn x :
  NoDup (task_id <$> ts) → deps_known ts → (∀ y, ¬ tc waits_for y y) → sn waits_for x.
Proof.
  intros Hnd Hk Hac. apply tc_finite_sn; [done|]. exists (task_id <$> ts).
  intros y Hy. induction Hy as [x y (t & Ht & _ & Hid)|]; [by eapply required_known|done].
Qed.

Lemma noop_not_stuck s hist st0 :
  NoDup (task_id <$> ts) → deps_known ts → (∀ y, ¬ tc waits_for y y) →
  refines config ts st0 hist s → pending s ≠ ∅ → ¬ stuck ts s.
Proof.
  intros Hnd Hk Hac [_ Hp _ _] Hne Hst. apply set_choose_L in Hne as [x Hx].
  induction (waits_sn x Hnd Hk Hac) as [x _ IH].
  pose proof Hx as Hx'. apply Hp in Hx' as [(t & Heq & Ht)%list_elem_of_fmap Hc].
  assert (task_id t ∈ pending s) as Hpt by (by rewrite <- Heq).
  destruct (Hst t Ht Hpt) as [(id & Hid & Hn)|(d & Hd & Hr)].
  - apply (IH id); [by exists t|]. apply Hp. split; [by eapply required_known|done].
  - cbn in Hd. injection Hd as <-. done.
Qed.

Lemma noop_loop fuel n s hist st0 :
  NoDup (task_id <$> ts) → deps_known ts → (∀ y, ¬ tc waits_for y y) →
  (∀ k, (clock (S k) - clock 0 <= execution_timeout_s config)%Q) →
  refines config ts st0 hist s → (size (pending s) ≤ fuel)%nat →
  ∃ s', loop config set_order clock fuel n ts s = Some (Ok s').
Proof.
  intros Hnd Hk Hac Hcl. revert n s hist; induction fuel as [|fuel IH]; intros n s hist Hr Hs;
    cbn [loop]; (case_decide as Hp; [eauto|]).
  { destruct Hp. apply leibniz_equiv, size_empty_iff. lia. }
  unfold check_wall_timeout. rewrite (proj2 (Qle_bool_iff _ _) (Hcl n)). cbn [negb]. ok_bind.
  pose proof (noop_pass_total ts (MkPass s false []) ltac:(done)) as Hpass.
  fold (run_pass config set_order ts s) in Hpass.
  destruct (run_pass config set_order ts s) as [p|e] eqn:E; [|done].
  destruct (ps_progress p) eqn:Eg; cbn [negb andb].
  - destruct (run_pass_refines config set_order ts st0 s p hist Hr E) as (h & Hr' & Hprog).
    apply (IH (S n) (ps_sched p) h Hr'). specialize (Hprog Eg). apply subset_size in Hprog. lia.
  - destruct (noop_not_stuck s hist st0 Hnd Hk Hac Hr Hp).
    by apply (run_pass_exact config set_order ts s p E).
Qed.
End noop.

(** ** Properties of a schedule *)

(** What a schedule promises: one operation record per task, with the task's resource and
    duration; every execution dependency ends before its dependent starts; the tasks of one
    resource run in program order without overlapping. *)
Record valid_schedule (ts : list Task) (rs : list ExecutionRecord) (c : completed_map) : Prop := {
  vs_records : operation_records rs ≡ₚ (map_to_list c).*2;
  vs_tasks : ∀ id, is_Some (c !! id) ↔ id ∈ task_id <$> ts;
  vs_record : ∀ t r, t ∈ ts → c !! task_id t = Some r → record_of t r;
  vs_dependencies : ∀ t r d, t ∈ ts → c !! task_id t = Some r → d ∈ execution_dependencies t →
    ∃ rd, c !! d = Some rd ∧ end_cycle rd <= start_cycle r;
  vs_fifo : ∀ pre a mid b post ra rb, ts = pre ++ a :: mid ++ b :: post →
    resource_key a = resource_key b → c !! task_id a = Some ra → c !! task_id b = Some rb →
    end_cycle ra <= start_cycle rb;
}.

Lemma facts_valid ts rs hist c :
  NoDup (task_id <$> ts) → run_facts ts hist c → hist.*1 ≡ₚ ts → operation_records rs ≡ₚ hist.*2 →
  valid_schedule ts rs c.
Proof.
  intros Hnd Hf Hts Hrs. pose proof Hf as [Hc Hndh Ht Hresp].
  assert (∀ t r, t ∈ ts → c !! task_id t = Some r → (t, r) ∈ hist) as Hback.
  { intros t r Hin (u & Hu & Heq)%Hc. destruct (Ht _ _ Hu) as [Hu' _].
    by rewrite <- (task_of_id ts u t Hnd Hu' Hin Heq). }
  split.
  - rewrite Hrs. assert (map_to_list c ≡ₚ (λ e, (ev_id e, e.2)) <$> hist) as ->.
    { apply NoDup_Permutation; [apply NoDup_map_to_list| |].
      - apply (NoDup_fmap_1 fst). rewrite <- list_fmap_compose. exact Hndh.
      - intros [id r]. rewrite elem_of_map_to_list, Hc, list_elem_of_fmap. split.
        + intros (t & Hin & <-). by exists (t, r).
        + intros ([t r'] & Heq & Hin). simplify_eq/=. eauto. }
    rewrite <- list_fmap_compose. done.
  - intros id. rewrite <- Hts, <- list_fmap_compose. rewrite list_elem_of_fmap. split.
    + intros [r (t & Hin & <-)%Hc]. by exists (t, r).
    + intros ([t r] & -> & Hin). exists r. apply Hc. eauto.
  - intros t r Hin Hr. by apply Ht, Hback.
  - intros t r d Hin Hr Hd. apply (Hresp (t, r)); [by apply Hback|].
    apply elem_of_required. by left.
  - intros pre a mid b post ra rb Heq Hkey Ha Hb.
    eapply (resource_order ts hist c (pre ++ a :: mid) b post a); [done|done| |set_solver|done| |].
    + by rewrite Heq, <- app_assoc.
    + apply Hback; [rewrite Heq; set_solver|done].
    + apply Hback; [rewrite Heq; set_solver|done].
Qed.

Lemma initial_size {St} (ts : list Task) (st : St) :
  (size (pending (initial ts st)) ≤ length ts)%nat.
Proof.
  cbn [pending initial]. rewrite <- (length_fmap task_id ts).
  induction (task_id <$> ts) as [|x l IH]; cbn; [by rewrite size_empty|].
  rewrite size_union_alt, size_singleton.
  pose proof (subseteq_size (list_to_set l ∖ {[x]}) (list_to_set l : gset string)
    ltac:(set_solver)). lia.
Qed.

Lemma validate_dependencies_known ts : deps_known ts → validate_dependencies ts = Ok tt.
Proof.
  intros Hk. unfold validate_dependencies.
  match goal with |- ofold ?f ts tt = _ => assert (∀ l, l ⊆ ts → ofold f l tt = Ok tt) as Hv end;
    [|by apply Hv].
  induction l as [|t l IH]; intros Hl; cbn [ofold]; [done|]. cbv zeta.
  destruct (filter _ (dependencies t)) as [|d ds] eqn:E; [ok_bind; apply IH; set_solver|].
  assert (d ∈ filter (λ d, d ∉ task_id <$> ts) (dependencies t)) as Hd by (rewrite E; by left).
  apply list_elem_of_filter in Hd as [Hd Hin]. destruct Hd. by apply (Hk t); [set_solver|].
Qed.

Section claims.
Context {St : Type} `{!SynchronizationModel St}.
Context (config : SimulatorConfig) (set_order : gset string → list string) (clock : nat → Q).

(** A complete run of the abstract machine that explains a returned schedule. *)
Definition machine_run (p : KernelProgram) (rs : list ExecutionRecord) : Prop :=
  ∃ st0 hist c st, sm_reset p = Ok st0 ∧ sched_run (tasks p) st0 hist c st ∧
    hist.*1 ≡ₚ tasks p ∧ operation_records rs ≡ₚ hist.*2.

(** The passes a program needs at most. *)
Definition pass_budget (p : KernelProgram) : nat := length (tasks p).

(** C1. The pass loop of [DiscreteEventScheduler.run] refines the abstract scheduling machine:
    whatever the synchronization model, a successful run places every task of the program
    exactly once, in an order the machine allows, and the operation records of the result are
    those placements. *)
Theorem schedule_refines fuel p rs :
  program_wf p → schedule config set_order clock fuel p = Some (Ok rs) → machine_run p rs.
Proof.
  intros Hwf H. destruct (schedule_run config set_order clock fuel p rs (wf_unique _ Hwf) H)
    as (st0 & hist & c & st & ? & ? & ? & ? & _). by exists st0, hist, c, st.
Qed.

(** C2. Every schedule the scheduler returns is valid: one operation record per task with the
    task's resource and [end = start + duration]; execution dependencies end before their
    dependents start; the tasks of one [(core, lane, pipe)] run in program order without
    overlap; and no record, waits included, ends after [max_cycles]. *)
Theorem schedule_valid fuel p rs :
  program_wf p → schedule config set_order clock fuel p = Some (Ok rs) →
  (∃ c, valid_schedule (tasks p) rs c) ∧
  (∀ m, max_cycles config = Some m → ∀ r, r ∈ rs → end_cycle r <= m).
Proof.
  intros Hwf H. destruct (schedule_run config set_order clock fuel p rs (wf_unique _ Hwf) H)
    as (st0 & hist & c & st & _ & Hrun & Hts & Hrs & Hlim). split; [|done]. exists c.
  eapply facts_valid; [apply Hwf|by eapply sched_run_facts|done|done].
Qed.

Lemma schedule_total fuel p :
  deadlock_detect config = true → (pass_budget p ≤ fuel)%nat →
  is_Some (schedule config set_order clock fuel p).
Proof.
  unfold pass_budget. intros Hdd Hfuel. unfold schedule. destruct (_ ≫= _) as [st0|e]; [|eauto].
  destruct (loop_terminates config set_order clock (tasks p) st0 fuel 0 _ [] Hdd
    (initial_refines _ _ _)) as [r ->]; [|eauto].
  pose proof (initial_size (tasks p) st0). lia.
Qed.

(** C3. The scheduler terminates: with deadlock detection on, [run] ends — with a schedule or
    an exception — after at most one pass per task, whatever the synchronization model. *)
Theorem schedule_terminates fuel p :
  deadlock_detect config = true → (pass_budget p ≤ fuel)%nat →
  is_Some (schedule config set_order clock fuel p).
Proof. apply schedule_total. Qed.

(** C4. Deadlock detection is exact: for a model that keeps the laws of the protocol, a pass
    that returns has made no progress if and only if every pending task misses a requirement
    or is blocked by synchronization — so a deadlock is never reported while a task could run. *)
Theorem deadlock_detection_exact `{!SynchronizationLaws St} ts s p :
  run_pass config set_order ts s = Ok p → ps_progress p = false ↔ stuck ts s.
Proof. apply run_pass_exact. Qed.
End claims.

(** Without synchronization (the no-op model) the scheduler always succeeds on a
    well-formed program of valid tasks whose waits — execution dependencies and FIFO
    predecessors — are acyclic, within one pass per task, when neither limit is hit. *)
Theorem noop_schedule_complete config set_order clock p :
  program_wf p → platform config = kp_platform p → deadlock_detect config = true →
  max_cycles config = None → (∀ k, (clock (S k) - clock 0%nat <= execution_timeout_s config)%Q) →
  (∀ t, t ∈ tasks p → task_ok t) → (∀ x, ¬ tc (waits_for (tasks p)) x x) →
  ∃ rs, schedule config set_order clock (length (tasks p)) p = Some (Ok rs).
Proof.
  intros Hwf Hplat Hdd Hmax Hcl Hok Hac. unfold schedule. rewrite Hplat.
  unfold ensure. rewrite (proj2 (mem_str_true _ _)) by set_solver. cbn [require]. ok_bind.
  assert (validate_dependencies (tasks p) = Ok tt) as ->.
  { by apply validate_dependencies_known, Hwf. }
  ok_bind. cbn [sm_reset NoOpSynchronizationModel].
  destruct (noop_loop config set_order clock (tasks p) Hok Hmax (length (tasks p)) 0
    (initial (tasks p) ()) [] () (wf_unique _ Hwf) (wf_known _ Hwf) Hac Hcl
    (initial_refines _ _ _)) as [s ->]; [apply initial_size|].
  ok_bind. unfold audit. cbn [sm_audit NoOpSynchronizationModel].
  destruct (mem_str _ _); ok_bind; eauto.
Qed.

(** ** Concrete programs *)

(** Every requirement is an earlier task: a decidable condition for acyclic waits. *)
Fixpoint requires_earlier (all : list Task) (seen : list string) (l : list Task) : bool :=
  match l with
  | [] => true
  | t :: l => forallb (λ id, mem_str id seen) (required_ids all t) &&
              requires_earlier all (task_id t :: seen) l
  end.

Lemma sn_no_cycle {A} (R : relation A) x : sn R x → ¬ tc R x x.
Proof.
  induction 1 as [x _ IH]. intros Hc. inversion Hc as [? y Hxy|? y z Hxy Hyx]; subst.
  - by apply (IH x).
  - apply (IH y Hxy). eapply tc_r; eauto.
Qed.

Lemma requires_earlier_sn all seen l :
  NoDup (task_id <$> all) → l ⊆ all → requires_earlier all seen l = true →
  (∀ x, x ∈ seen → sn (waits_for all) x) →
  ∀ t, t ∈ l → sn (waits_for all) (task_id t).
Proof.
  intros Hnd. revert seen; induction l as [|u l IH]; intros seen Hl H Hseen t; [set_solver|].
  cbn in H. apply andb_true_iff in H as [Hu H].
  assert (sn (waits_for all) (task_id u)) as Hsn.
  { constructor. intros y (u' & Hu' & Heq & Hy).
    assert (u' = u) as -> by (eapply (task_of_id all); [done|done|set_solver|done]).
    apply Hseen, mem_str_true. rewrite forallb_forall in Hu. by apply Hu, list_elem_of_In. }
  intros [->|Ht]%elem_of_cons; [done|].
  apply (IH (task_id u :: seen)); [set_solver|done| |done].
  intros x [->|Hx]%elem_of_cons; [done|by apply Hseen].
Qed.

Lemma requires_earlier_acyclic ts :
  NoDup (task_id <$> ts) → requires_earlier ts [] ts = true → ∀ x, ¬ tc (waits_for ts) x x.
Proof.
  intros Hnd H x Hc.
  assert (∃ t, t ∈ ts ∧ task_id t = x) as (t & Ht & <-).
  { inversion Hc as [? y Hxy|? y z Hxy]; subst; destruct Hxy as (t & Ht & ? & _); eauto. }
  apply (sn_no_cycle (waits_for ts) (task_id t)); [|done].
  eapply requires_earlier_sn; [done|done|done|set_solver|done].
Qed.

Definition example_config : SimulatorConfig :=
  MkConfig "A2" "error" false "error" true 8 "error" false 1 15 (120 # 1) (Some 100) "A2".
Definition unlimited_config : SimulatorConfig :=
  MkConfig "A2" "error" false "error" true 8 "error" false 1 15 (120 # 1) None "A2".
Definition still_clock (_ : nat) : Q := 0.
Definition mk_task (id op : string) (l : Lane) (p : Pipe) (dur : Z) (deps : list string)
    (meta : dict string pyval) : Task := MkTask id op 0 l p dur deps None meta.
Definition mk_kernel (ts : list Task) : KernelProgram := MkKernel "k" "A2" [MkCore 0 ts] [] [].

Lemma mk_kernel_wf ts :
  kernel_program_init "k" "A2" [MkCore 0 ts] [] [] = Ok (mk_kernel ts) → program_wf (mk_kernel ts).
Proof. intros H. by apply (kernel_init_wf "k" "A2" [MkCore 0 ts] [] []). Qed.

(** Two loads, a matrix multiply that depends on both and a store. *)
Definition gemm_tasks : list Task :=
  [ mk_task "load_a" "copy_gm_to_l1" CUBE MTE2 5 [] [];
    mk_task "load_b" "copy_gm_to_l1" CUBE MTE2 7 [] [];
    mk_task "mma" "mma" CUBE MATRIX 4 ["load_a"; "load_b"] [];
    mk_task "store" "copy_l0c_to_gm" CUBE FIX 3 ["mma"] [] ].
Definition gemm_program : KernelProgram := mk_kernel gemm_tasks.

Lemma gemm_program_wf : program_wf gemm_program.
Proof. apply mk_kernel_wf. vm_compute. reflexivity. Qed.

(** The task identifiers, starts and ends of a schedule. *)
Definition intervals_of (rs : list ExecutionRecord) : list (string * Z * Z) :=
  (λ r, (r_task_id r, start_cycle r, end_cycle r)) <$> rs.

Definition gemm_schedule : list ExecutionRecord :=
  match schedule example_config elements still_clock 4 gemm_program with
  | Some (Ok rs) => rs
  | _ => []
  end.

Lemma gemm_schedule_ok :
  schedule example_config elements still_clock 4 gemm_program = Some (Ok gemm_schedule).
Proof. vm_compute. reflexivity. Qed.

Lemma schedule_refines_witness :
  intervals_of gemm_schedule =
    [("load_a", 0, 5); ("load_b", 5, 12); ("mma", 12, 16); ("store", 16, 19)] ∧
  machine_run gemm_program gemm_schedule.
Proof.
  split; [vm_compute; reflexivity|].
  exact (schedule_refines example_config elements still_clock 4 _ _ gemm_program_wf gemm_schedule_ok).
Defined.

Lemma schedule_valid_witness :
  (∃ c, valid_schedule (tasks gemm_program) gemm_schedule c) ∧
  (∀ m, max_cycles example_config = Some m → ∀ r, r ∈ gemm_schedule → end_cycle r <= m).
Proof.
  exact (schedule_valid example_config elements still_clock 4 _ _ gemm_program_wf gemm_schedule_ok).
Defined.

Lemma schedule_terminates_witness :
  is_Some (schedule example_config elements still_clock 4 gemm_program).
Proof. apply (schedule_terminates example_config elements still_clock 4 gemm_program); [done|vm_compute; lia]. Defined.

(** A wait for a dependency behind it in its own pipe: nothing can run. *)
Definition crossed_tasks : list Task :=
  [ mk_task "first" "copy" CUBE MTE2 1 ["second"] []; mk_task "second" "copy" CUBE MTE2 1 [] [] ].

Lemma deadlock_detection_exact_witness :
  match run_pass example_config elements crossed_tasks (initial crossed_tasks tt) with
  | Ok p => ps_progress p = false ↔ stuck crossed_tasks (initial crossed_tasks tt)
  | Raise _ => False
  end.
Proof.
  destruct (run_pass _ _ _ _) as [p|e] eqn:E; [|vm_compute in E; discriminate].
  exact (deadlock_detection_exact example_config elements crossed_tasks _ p E).
Defined.

Lemma noop_schedule_complete_witness :
  ∃ rs, schedule unlimited_config elements still_clock 4 gemm_program = Some (Ok rs).
Proof.
  apply (noop_schedule_complete unlimited_config elements still_clock gemm_program).
  - exact gemm_program_wf.
  - reflexivity.
  - reflexivity.
  - reflexivity.
  - intros k. vm_compute. discriminate.
  - intros t Ht. apply list_elem_of_In in Ht. cbn in Ht.
    destruct Ht as [<-|[<-|[<-|[<-|[]]]]]; split; try done; try (vm_compute; lia);
      try (apply (bool_decide_unpack _); vm_compute; exact I).
  - apply requires_earlier_acyclic; [apply gemm_program_wf|vm_compute; reflexivity].
Defined.
