(* ===== verification/SyncCredits.v ===== *)
(** Flag credits as an event-counter specification.

    The specification of a channel is its history: the [n]-th wait on a channel consumes the
    credit of the [n]-th set.  [on_scheduled] implements it with queues, [evaluate] lets a
    wait start only when its credit is visible. *)

From S2P Require Import Prelude PyDict PySort PyStr Errors Values Program Trace SyncOps SyncReset.
From S2P Require Import SyncModel SyncLaws Schedule.
Local Open Scope string_scope.
Local Open Scope Z_scope.
Local Open Scope list_scope.

Definition keys_or_nil {A} (r : result (list A)) : list A :=
  match r with Ok l => l | Raise _ => [] end.

(** What a task does to the flag channels. *)
Inductive effect :=
| Sets (keys : list FlagKey)
| Waits (keys : list FlagKey)
| NoEffect.

Definition effect_of (tb : sync_tables) (t : Task) : effect :=
  let op := op_name t in
  if mem_str op SET_LOCAL then Sets (keys_or_nil (k ← local_flag_key t; Ok [k]))
  else if mem_str op SET_CROSS then
    match cross_mode t with
    | Ok m => if (m =? 0) || (m =? 1) then NoEffect else Sets (keys_or_nil (cross_set_keys_mode2 t))
    | Raise _ => NoEffect
    end
  else if mem_str op WAIT_LOCAL then Waits (keys_or_nil (k ← local_flag_key t; Ok [k]))
  else if mem_str op WAIT_CROSS then
    match cross_wait_mode (cross_wait_modes tb) t with
    | Ok (Some m) =>
        if (m =? 0) || (m =? 1) then NoEffect else Waits (keys_or_nil (cross_wait_keys_mode2 t))
    | _ => NoEffect
    end
  else NoEffect.

Definition sets_key (tb : sync_tables) (key : FlagKey) (t : Task) : bool :=
  match effect_of tb t with Sets ks => bool_decide (key ∈ ks) | _ => false end.
Definition waits_key (tb : sync_tables) (key : FlagKey) (t : Task) : bool :=
  match effect_of tb t with Waits ks => bool_decide (key ∈ ks) | _ => false end.

(** The credits a history has produced on a channel, and how many it has consumed. *)
Definition produced (tb : sync_tables) (key : FlagKey) (hist : list event) : list credit :=
  omap (λ e, if sets_key tb key e.1 then Some (end_cycle e.2, task_id e.1) else None) hist.
Definition consumed (tb : sync_tables) (key : FlagKey) (hist : list event) : nat :=
  length (filter (λ e, waits_key tb key e.1 = true) hist).

Lemma produced_snoc tb key hist t r :
  produced tb key (hist ++ [(t, r)]) =
  produced tb key hist ++ (if sets_key tb key t then [(end_cycle r, task_id t)] else []).
Proof. unfold produced. rewrite omap_app. cbn. by destruct (sets_key tb key t). Qed.

Lemma consumed_snoc tb key hist t r :
  consumed tb key (hist ++ [(t, r)]) =
  (consumed tb key hist + (if waits_key tb key t then 1 else 0))%nat.
Proof.
  unfold consumed. rewrite filter_app, length_app. f_equal. rewrite filter_cons. cbn.
  by destruct (waits_key tb key t).
Qed.

(** ** What [on_scheduled] does to a channel *)

Lemma queue_put s key key' q :
  queue (tokens (put_tokens key q s)) key' = if decide (key = key') then q else queue (tokens s) key'.
Proof. unfold queue, dget_default. cbn. rewrite dget_dset. by case_decide. Qed.

Lemma push_cross_ok cfg t r key s s' :
  push_cross cfg t r key s = (s', Ok tt) →
  (flag_blocking cfg = false → Z.of_nat (length (queue (tokens s) key)) < MAX_CROSS_FLAG_CREDITS) ∧
  ∀ k, queue (tokens s') k =
       queue (tokens s) k ++ (if decide (key = k) then [(end_cycle r, task_id t)] else []).
Proof.
  unfold push_cross, mbind, stM_bind, st_reads, st_modify, st_lift. cbn [fst snd].
  destruct (negb _ && _) eqn:E; [done|]. intros H. injection H as <-.
  split.
  - intros Hb. rewrite Hb in E. cbn in E. lia.
  - intros k. rewrite !queue_put. case_decide; subst; [done|by rewrite app_nil_r].
Qed.

Lemma push_all_ok cfg t r keys s s' :
  NoDup keys → st_iter (push_cross cfg t r) keys s = (s', Ok tt) →
  (flag_blocking cfg = false → ∀ k, k ∈ keys →
     Z.of_nat (length (queue (tokens s) k)) < MAX_CROSS_FLAG_CREDITS) ∧
  ∀ k, queue (tokens s') k =
       queue (tokens s) k ++ (if bool_decide (k ∈ keys) then [(end_cycle r, task_id t)] else []).
Proof.
  revert s; induction keys as [|key keys IH]; intros s Hnd H; cbn [st_iter] in H.
  - unfold mret, stM_ret in H. injection H as <-. split; [set_solver|].
    intros k. rewrite bool_decide_false by set_solver. by rewrite app_nil_r.
  - apply NoDup_cons in Hnd as [Hni Hnd]. unfold mbind, stM_bind in H.
    destruct (push_cross cfg t r key s) as [s1 [[]|e]] eqn:E; [|done].
    apply push_cross_ok in E as [Hlim Hq]. destruct (IH s1 Hnd H) as [Hlim' Hq'].
    split.
    + intros Hb k [->|Hk]%elem_of_cons; [auto|]. specialize (Hlim' Hb k Hk).
      rewrite Hq in Hlim'. rewrite decide_False in Hlim' by (intros ->; done).
      by rewrite app_nil_r in Hlim'.
    + intros k. rewrite Hq', Hq. destruct (decide (key = k)) as [->|Hne].
      * rewrite (bool_decide_false (k ∈ keys)), bool_decide_true by set_solver. by rewrite app_nil_r.
      * rewrite app_nil_r. repeat case_bool_decide; set_solver.
Qed.

Lemma pop_credit_ok t key s s' :
  pop_credit t key s = (s', Ok tt) →
  queue (tokens s) key ≠ [] ∧
  ∀ k, queue (tokens s') k = if decide (key = k) then tail (queue (tokens s) k) else queue (tokens s) k.
Proof.
  unfold pop_credit, mbind, stM_bind, st_reads, st_modify, st_lift. cbn [fst snd].
  destruct (queue (tokens s) key) as [|c q] eqn:E; [done|]. intros H. injection H as <-.
  split; [done|]. intros k. rewrite queue_put. case_decide; subst; [by rewrite E|done].
Qed.

Lemma pop_all_ok t keys s s' :
  NoDup keys → st_iter (pop_credit t) keys s = (s', Ok tt) →
  (∀ k, k ∈ keys → queue (tokens s) k ≠ []) ∧
  ∀ k, queue (tokens s') k =
       if bool_decide (k ∈ keys) then tail (queue (tokens s) k) else queue (tokens s) k.
Proof.
  revert s; induction keys as [|key keys IH]; intros s Hnd H; cbn [st_iter] in H.
  - unfold mret, stM_ret in H. injection H as <-. split; [set_solver|].
    intros k. by rewrite bool_decide_false by set_solver.
  - apply NoDup_cons in Hnd as [Hni Hnd]. unfold mbind, stM_bind in H.
    destruct (pop_credit t key s) as [s1 [[]|e]] eqn:E; [|done].
    apply pop_credit_ok in E as [Hne Hq]. destruct (IH s1 Hnd H) as [Hne' Hq'].
    split.
    + intros k [->|Hk]%elem_of_cons; [done|]. specialize (Hne' k Hk). rewrite Hq in Hne'.
      by rewrite decide_False in Hne' by (intros ->; done).
    + intros k. rewrite Hq', Hq. destruct (decide (key = k)) as [->|Hd].
      * by rewrite (bool_decide_false (k ∈ keys)), bool_decide_true by set_solver.
      * repeat case_bool_decide; set_solver.
Qed.

Lemma cross_keys_nodup t a b ks : cross_keys t a b = Ok ks → NoDup ks.
Proof.
  unfold cross_keys. intros (id & _ & H)%outcome_bind_ok.
  destruct (mem_str _ _).
  - injection H as <-. cbn. repeat constructor; set_solver.
  - destruct (is_vector_lane _); [|done]. injection H as <-. apply NoDup_singleton.
Qed.

Lemma cross_keys_not_local t a b ks k :
  cross_keys t a b = Ok ks → k ∈ ks → is_local_key k = false.
Proof.
  unfold cross_keys. intros (id & _ & H)%outcome_bind_ok Hk.
  destruct (mem_str _ _).
  - injection H as <-. cbn in Hk. set_solver.
  - destruct (is_vector_lane _); [|done]. injection H as <-. set_solver.
Qed.

(** Computations that leave an observation of the live state alone. *)
Definition keeps {X A} (obs : sync_live → X) (m : syncM A) : Prop := ∀ s, obs (m s).1 = obs s.

Section keeps.
Context {X : Type} (obs : sync_live → X).

Lemma keeps_ret {A} (a : A) : keeps obs (mret a).
Proof. by intros s. Qed.
Lemma keeps_lift {A} (r : result A) : keeps obs (st_lift r).
Proof. by intros s. Qed.
Lemma keeps_bind {A B} (m : syncM A) (f : A → syncM B) :
  keeps obs m → (∀ a, keeps obs (f a)) → keeps obs (m ≫= f).
Proof.
  intros Hm Hf s. unfold mbind, stM_bind. specialize (Hm s).
  destruct (m s) as [s' [a|e]]; cbn in *; [by rewrite Hf|done].
Qed.
Lemma keeps_iter {A} (f : A → syncM unit) l : (∀ a, keeps obs (f a)) → keeps obs (st_iter f l).
Proof. intros Hf. induction l; cbn; [apply keeps_ret|]. by apply keeps_bind. Qed.
End keeps.

Ltac solve_keeps :=
  repeat first
    [ apply keeps_ret | apply keeps_lift | apply keeps_bind; [|intros ?]
    | apply keeps_iter; intros ? | by intros ?
    | match goal with |- keeps _ (match ?x with _ => _ end) => destruct x end ].

Lemma on_collective_set_keeps tb t m r :
  keeps tokens (on_collective_set tb t m r) ∧ keeps sync_all_arrivals (on_collective_set tb t m r).
Proof.
  split; unfold on_collective_set; solve_keeps;
    match goal with |- keeps _ (_ ?l) => induction l as [|p l IH]; cbn; solve_keeps; apply IH end.
Qed.

Lemma arrive_tokens t r key p : keeps tokens (arrive t r key p).
Proof. unfold arrive. solve_keeps. Qed.

Lemma stM_bind_ok {A B} (m : syncM A) (f : A → syncM B) s s' b :
  (m ≫= f) s = (s', Ok b) → ∃ s1 a, m s = (s1, Ok a) ∧ f a s1 = (s', Ok b).
Proof.
  unfold mbind, stM_bind. destruct (m s) as [s1 [a|e]]; [|done]. eauto.
Qed.
Lemma st_lift_ok {A} (r : result A) (s s1 : sync_live) a :
  st_lift r s = (s1, Ok a) → s1 = s ∧ r = Ok a.
Proof. unfold st_lift. intros H. by simplify_eq. Qed.

(** Decompose a successful run of stateful code. *)
Ltac inv_st :=
  repeat match goal with
  | H : (_ ≫= _) _ = (_, Ok _) |- _ => apply stM_bind_ok in H as (? & ? & ? & ?)
  | H : st_lift _ _ = (_, Ok _) |- _ => apply st_lift_ok in H as [? ?]; subst
  | H : mret _ _ = (_, Ok _) |- _ => unfold mret, stM_ret in H; simplify_eq
  | H : st_modify _ _ = (_, Ok _) |- _ => unfold st_modify in H; simplify_eq
  | H : st_reads _ _ = (_, Ok _) |- _ => unfold st_reads in H; simplify_eq
  | H : st_get _ = (_, Ok _) |- _ => unfold st_get in H; simplify_eq
  end.

(** The queue of a channel after a task: its credits, one consumed by a wait, one appended by a
    set. *)
Definition queue_after (tb : sync_tables) (t : Task) (r : ExecutionRecord) (k : FlagKey)
    (q : list credit) : list credit :=
  (if waits_key tb k t then tail q else q) ++
  (if sets_key tb k t then [(end_cycle r, task_id t)] else []).

Definition effect_ok (cfg : sync_cfg) (tb : sync_tables) (t : Task) (r : ExecutionRecord)
    (s s' : sync_live) : Prop :=
  ∀ k, queue (tokens s') k = queue_after tb t r k (queue (tokens s) k) ∧
       (waits_key tb k t = true → queue (tokens s) k ≠ []) ∧
       (is_local_key k = false → flag_blocking cfg = false → sets_key tb k t = true →
        Z.of_nat (length (queue (tokens s) k)) < MAX_CROSS_FLAG_CREDITS).

Lemma effect_none cfg tb t r s s' :
  effect_of tb t = NoEffect → tokens s' = tokens s → effect_ok cfg tb t r s s'.
Proof.
  intros He Ht k. unfold queue_after, waits_key, sets_key. rewrite He, Ht, app_nil_r. done.
Qed.

Lemma effect_sets cfg tb t r s s' ks :
  effect_of tb t = Sets ks →
  (∀ k, queue (tokens s') k =
        queue (tokens s) k ++ (if bool_decide (k ∈ ks) then [(end_cycle r, task_id t)] else [])) →
  (flag_blocking cfg = false → ∀ k, k ∈ ks → is_local_key k = false →
     Z.of_nat (length (queue (tokens s) k)) < MAX_CROSS_FLAG_CREDITS) →
  effect_ok cfg tb t r s s'.
Proof.
  intros He Hq Hlim k. unfold queue_after, waits_key, sets_key. rewrite He, Hq.
  split; [done|]. split; [done|]. intros ? ? ?%bool_decide_eq_true. auto.
Qed.

Lemma effect_waits cfg tb t r s s' ks :
  effect_of tb t = Waits ks →
  (∀ k, k ∈ ks → queue (tokens s) k ≠ []) →
  (∀ k, queue (tokens s') k =
        if bool_decide (k ∈ ks) then tail (queue (tokens s) k) else queue (tokens s) k) →
  effect_ok cfg tb t r s s'.
Proof.
  intros He Hne Hq k. unfold queue_after, waits_key, sets_key. rewrite He, Hq, app_nil_r.
  split; [done|]. split; [|done]. intros ?%bool_decide_eq_true. auto.
Qed.

Lemma on_scheduled_effect cfg tb t r s s' :
  on_scheduled cfg tb t r s = (s', Ok tt) → effect_ok cfg tb t r s s'.
Proof.
  unfold on_scheduled. intros H.
  destruct (mem_str (op_name t) SET_LOCAL) eqn:E1.
  { inv_st. match goal with H : local_flag_key t = Ok ?k |- _ => rename k into key; rename H into Hk end.
    apply (effect_sets _ _ _ _ _ _ [key]).
    - unfold effect_of. by rewrite E1, Hk.
    - intros k. rewrite queue_put. destruct (decide (key = k)) as [->|Hne].
      + by rewrite bool_decide_true by set_solver.
      + rewrite bool_decide_false by set_solver. by rewrite app_nil_r.
    - intros _ k ->%list_elem_of_singleton. unfold local_flag_key in Hk. inv_res. done. }
  destruct (mem_str (op_name t) SET_CROSS) eqn:E2.
  { inv_st. match goal with H : cross_mode t = Ok ?m |- _ => rename m into mode; rename H into Hm end.
    destruct ((mode =? 0) || (mode =? 1)) eqn:E0.
    - apply effect_none; [unfold effect_of; by rewrite E1, E2, Hm, E0|].
      match goal with H : on_collective_set _ _ _ _ _ = _ |- _ =>
        pose proof (proj1 (on_collective_set_keeps tb t mode r) s) as Ht; by rewrite H in Ht end.
    - inv_st. match goal with H : cross_set_keys_mode2 t = Ok ?ks |- _ => rename H into Hks end.
      pose proof (cross_keys_nodup _ _ _ _ Hks) as Hnd.
      match goal with H : st_iter _ _ _ = _ |- _ => apply push_all_ok in H as [Hlim Hq]; [|done] end.
      eapply effect_sets; [unfold effect_of; by rewrite E1, E2, Hm, E0, Hks|done|eauto]. }
  destruct (mem_str (op_name t) WAIT_LOCAL) eqn:E3.
  { inv_st. match goal with H : local_flag_key t = Ok ?k |- _ => rename k into key; rename H into Hk end.
    match goal with H : pop_credit _ _ _ = _ |- _ => apply pop_credit_ok in H as [Hne Hq] end.
    apply (effect_waits _ _ _ _ _ _ [key]).
    - unfold effect_of. by rewrite E1, E2, E3, Hk.
    - by intros k ->%list_elem_of_singleton.
    - intros k. rewrite Hq. case_decide; case_bool_decide; set_solver. }
  destruct (mem_str (op_name t) WAIT_CROSS) eqn:E4.
  { inv_st. match goal with H : cross_wait_mode _ t = Ok ?m |- _ =>
      destruct m as [mode|]; rename H into Hm end; [|done].
    destruct ((mode =? 0) || (mode =? 1)) eqn:E0.
    - apply effect_none; [unfold effect_of; by rewrite E1, E2, E3, E4, Hm, E0|].
      inv_st. unfold read_wait_phase in *. simplify_eq. done.
    - inv_st. match goal with H : cross_wait_keys_mode2 t = Ok ?ks |- _ => rename H into Hks end.
      pose proof (cross_keys_nodup _ _ _ _ Hks) as Hnd.
      match goal with H : st_iter _ _ _ = _ |- _ => apply pop_all_ok in H as [Hne Hq]; [|done] end.
      eapply effect_waits; [unfold effect_of; by rewrite E1, E2, E3, E4, Hm, E0, Hks|done|done]. }
  apply effect_none; [unfold effect_of; by rewrite E1, E2, E3, E4|].
  destruct (mem_str (op_name t) SYNC_ALL); inv_st; [|done].
  match goal with
  | H : st_iter (arrive t r ?key) ?l ?s1 = _, H1 : read_arrivals _ _ = _ |- _ =>
      pose proof (keeps_iter tokens (arrive t r key) l (arrive_tokens t r key) s1) as Ht;
      rewrite H in Ht; cbn in Ht; rewrite Ht; unfold read_arrivals in H1; by simplify_eq
  end.
Qed.

(** ** What [on_scheduled] does to the [sync_all] arrivals *)

Definition arrival (s : sync_live) (key : SyncAllKey) (p : Participant) : option credit :=
  dget (dget_default [] (sync_all_arrivals s) key) p.

(** Task [t] arrives for participant [p] in phase [key]. *)
Definition arrives (tb : sync_tables) (t : Task) (key : SyncAllKey) (p : Participant) : Prop :=
  mem_str (op_name t) SYNC_ALL = true ∧ dget (sync_all_task_phase tb) (task_id t) = Some key ∧
  p ∈ sync_all_task_participants t key.1.

Lemma arrival_put s key a key' p :
  arrival (put_arrivals key a s) key' p = if decide (key = key') then dget a p else arrival s key' p.
Proof.
  unfold arrival, dget_default. cbn. rewrite dget_dset. by case_decide.
Qed.

Lemma arrive_ok t r key p s s' :
  arrive t r key p s = (s', Ok tt) →
  ∀ key' p' cr, arrival s' key' p' = Some cr →
    arrival s key' p' = Some cr ∨ (key' = key ∧ p' = p ∧ cr = (end_cycle r, task_id t)).
Proof.
  unfold arrive. intros H key' p' cr. inv_st. unfold read_arrivals in *. simplify_eq.
  destruct (dmem _ p); [done|]. inv_st.
  rewrite !arrival_put. case_decide as Hk; [|by left]. subst.
  rewrite dget_dset. case_decide; [|by left]. intros. simplify_eq. by right.
Qed.

Lemma arrive_all_ok t r key ps s s' :
  st_iter (arrive t r key) ps s = (s', Ok tt) →
  ∀ key' p cr, arrival s' key' p = Some cr →
    arrival s key' p = Some cr ∨ (key' = key ∧ p ∈ ps ∧ cr = (end_cycle r, task_id t)).
Proof.
  revert s; induction ps as [|q ps IH]; intros s H key' p cr Ha; cbn [st_iter] in H.
  - unfold mret, stM_ret in H. simplify_eq. by left.
  - apply stM_bind_ok in H as (s1 & [] & H1 & H2).
    destruct (IH s1 H2 key' p cr Ha) as [Ha1|]; [|set_solver].
    destruct (arrive_ok _ _ _ _ _ _ H1 key' p cr Ha1) as [|]; set_solver.
Qed.

(** Only a [sync_all] changes the arrivals. *)
Lemma on_scheduled_arrivals_cases cfg tb t r s s' :
  on_scheduled cfg tb t r s = (s', Ok tt) →
  sync_all_arrivals s' = sync_all_arrivals s ∨
  ∃ key, mem_str (op_name t) SYNC_ALL = true ∧ dget (sync_all_task_phase tb) (task_id t) = Some key ∧
    st_iter (arrive t r key) (sync_all_task_participants t key.1)
      (put_arrivals key (dget_default [] (sync_all_arrivals s) key) s) = (s', Ok tt).
Proof.
  unfold on_scheduled. intros H.
  assert (∀ m : syncM unit, m s = (s', Ok tt) → keeps sync_all_arrivals m →
    sync_all_arrivals s' = sync_all_arrivals s) as Hkeep.
  { intros m Hm Hk. specialize (Hk s). by rewrite Hm in Hk. }
  destruct (mem_str (op_name t) SET_LOCAL); [left; apply (Hkeep _ H); solve_keeps|].
  destruct (mem_str (op_name t) SET_CROSS).
  { left. apply (Hkeep _ H). apply keeps_bind; [apply keeps_lift|intros m].
    destruct (_ || _); [apply on_collective_set_keeps|solve_keeps]. }
  destruct (mem_str (op_name t) WAIT_LOCAL); [left; apply (Hkeep _ H); solve_keeps|].
  destruct (mem_str (op_name t) WAIT_CROSS).
  { left. apply (Hkeep _ H). solve_keeps. }
  destruct (mem_str (op_name t) SYNC_ALL) eqn:E; [|left; apply (Hkeep _ H); solve_keeps].
  apply stM_bind_ok in H as (s1 & key0 & Hk & H). apply st_lift_ok in Hk as [-> Hk].
  destruct (dget (sync_all_task_phase tb) (task_id t)) as [key1|] eqn:Ek; [|done].
  injection Hk as <-. apply stM_bind_ok in H as (s1 & a & Hr & H).
  unfold read_arrivals in Hr. injection Hr as <- <-. right. by exists key1.
Qed.

Lemma on_scheduled_arrivals cfg tb t r s s' :
  on_scheduled cfg tb t r s = (s', Ok tt) →
  ∀ key p cr, arrival s' key p = Some cr →
    arrival s key p = Some cr ∨ (arrives tb t key p ∧ cr = (end_cycle r, task_id t)).
Proof.
  intros [Heq|(key1 & E & Ek & H)]%on_scheduled_arrivals_cases key p cr Ha.
  { left. unfold arrival in *. by rewrite <- Heq. }
  destruct (arrive_all_ok _ _ _ _ _ _ H key p cr Ha) as [Ha1|(-> & Hp & ->)]; [|by right].
  left. rewrite arrival_put in Ha1. case_decide; [by subst|done].
Qed.

(** Every participant arrives once in a phase. *)
Definition arrivals_unique (s : sync_live) : Prop :=
  ∀ key, NoDup (dkeys (dget_default [] (sync_all_arrivals s) key)).

Lemma unique_put s key a : arrivals_unique s → NoDup (dkeys a) → arrivals_unique (put_arrivals key a s).
Proof.
  intros Hs Ha key'. unfold dget_default. cbn. rewrite dget_dset. case_decide; [done|apply Hs].
Qed.

Lemma arrive_all_unique t r key ps s s' :
  st_iter (arrive t r key) ps s = (s', Ok tt) → arrivals_unique s → arrivals_unique s'.
Proof.
  revert s; induction ps as [|q ps IH]; intros s H Hs; cbn [st_iter] in H.
  - unfold mret, stM_ret in H. by simplify_eq.
  - apply stM_bind_ok in H as (s1 & [] & H1 & H2). apply (IH s1 H2).
    unfold arrive in H1. inv_st. unfold read_arrivals in *. simplify_eq.
    destruct (dmem _ q); [done|]. inv_st.
    apply unique_put; [apply unique_put; [done|apply Hs]|apply NoDup_dkeys_dset, Hs].
Qed.

Lemma on_scheduled_unique cfg tb t r s s' :
  on_scheduled cfg tb t r s = (s', Ok tt) → arrivals_unique s → arrivals_unique s'.
Proof.
  intros [Heq|(key & _ & _ & H)]%on_scheduled_arrivals_cases Hs.
  - intros key. rewrite Heq. apply Hs.
  - eapply arrive_all_unique; [exact H|]. apply unique_put; [done|apply Hs].
Qed.
