(* ===== verification/SyncRun.v ===== *)
(** The flag and barrier model inside a scheduling run: what an unblocked decision of
    [evaluate] guarantees, and what follows for every run of the scheduler. *)

From S2P Require Import Prelude PyDict PySort PyStr Errors Values Program Config Trace SyncOps.
From S2P Require Import SyncReset SyncModel SyncLaws Scheduler Schedule SyncCredits.
Local Open Scope string_scope.
Local Open Scope Z_scope.
Local Open Scope list_scope.

(** ** Unblocked decisions *)

(** All of [ids] completed by cycle [z]. *)
Definition ended_by (c : completed_map) (ids : list string) (z : Z) : Prop :=
  ∀ id, id ∈ ids → ∃ r, c !! id = Some r ∧ end_cycle r <= z.

Lemma ended_by_max (c : completed_map) ids z :
  nonempty_list (missing_of c ids) = false → max0 (ends_of c ids) <= z → ended_by c ids z.
Proof.
  intros Hm Hz id Hid. apply nonempty_list_false in Hm.
  destruct (proj1 (missing_of_nil c ids) Hm id Hid) as [r Hr]. exists r. split; [done|].
  pose proof (ends_of_bound c ids id r Hid Hr). lia.
Qed.

Lemma py_max_elem l m z : py_max l = Ok m → z ∈ l → z <= m.
Proof.
  destruct l as [|x l]; [done|]. cbn. intros Heq Hin. injection Heq as <-.
  assert (∀ l a, a <= foldl Z.max a l ∧ ∀ z, z ∈ l → z <= foldl Z.max a l) as Hm.
  { clear. induction l as [|y l IH]; intros a; cbn; [set_solver by lia|].
    destruct (IH (Z.max a y)) as [H1 H2]. split; [lia|].
    intros z [->|Hz]%elem_of_cons; [lia|by apply H2]. }
  destruct (Hm l x) as [H1 H2]. apply elem_of_cons in Hin as [->|Hin]; auto.
Qed.

(** The credit a wait would consume is visible by cycle [z]. *)
Definition credit_by (q : list credit) (z : Z) : Prop :=
  ∃ c rest, q = c :: rest ∧ c.1 <= z.

Lemma heads_by toks keys credits z :
  omap_list (head_credit toks) keys = Ok credits → py_max (fst <$> credits) = Ok z →
  ∀ k, k ∈ keys → credit_by (queue toks k) z.
Proof.
  intros H%omap_list_ok Hz k Hk. apply list_elem_of_lookup in Hk as [i Hi].
  destruct (Forall2_lookup_l _ _ _ _ _ H Hi) as (c & Hc & Hh).
  unfold head_credit in Hh. destruct (queue toks k) as [|c' rest] eqn:E; [done|].
  injection Hh as ->. exists c, rest. split; [done|].
  apply (py_max_elem _ _ _ Hz), list_elem_of_fmap. exists c. split; [done|].
  by apply list_elem_of_lookup_2 in Hc.
Qed.

Section decision.
Context (cfg : sync_cfg) (tb : sync_tables).

(** The guarantees of the part of [evaluate] that looks at the operation itself. *)
Record operation_ready (t : Task) (c : completed_map) (s : sync_live) (z : Z) : Prop := {
  or_credits : ∀ k, waits_key tb k t = true → credit_by (queue (tokens s) k) z;
  or_barrier : is_barrier t = true → mem_str (op_name t) WAIT_LOCAL = false →
    mem_str (op_name t) WAIT_CROSS = false → ended_by c (barrier_ids tb t) z;
  or_depth : flag_blocking cfg = true → ∀ k, sets_key tb k t = true →
    Z.of_nat (length (queue (tokens s) k)) <
      (if is_local_key k then local_flag_depth cfg else cross_flag_depth cfg);
}.

Lemma local_depth_ok t s s' :
  evaluate_local_depth cfg t s = (s', Ok None) →
  s' = s ∧ (flag_blocking cfg = true → mem_str (op_name t) SET_LOCAL = true →
            ∀ k, sets_key tb k t = true →
            Z.of_nat (length (queue (tokens s) k)) <
              (if is_local_key k then local_flag_depth cfg else cross_flag_depth cfg)).
Proof.
  unfold evaluate_local_depth. intros H.
  destruct (flag_blocking cfg); cbn [andb] in H; [|inv_st; by split].
  destruct (mem_str (op_name t) SET_LOCAL) eqn:E; [|inv_st; by split].
  inv_st. match goal with H : local_flag_key t = Ok ?k |- _ => rename k into key; rename H into Hk end.
  split; [destruct (_ <=? _); by simplify_eq|]. intros _ _ k Hs.
  unfold sets_key, effect_of in Hs. rewrite E, Hk in Hs. cbn [keys_or_nil] in Hs.
  apply bool_decide_eq_true, list_elem_of_singleton in Hs as ->.
  assert (is_local_key key = true) as -> by (unfold local_flag_key in Hk; by inv_res).
  destruct (_ <=? _) eqn:El; [done|]. lia.
Qed.

Lemma cross_depth_ok t s s' :
  evaluate_cross_depth cfg t s = (s', Ok None) →
  s' = s ∧ (flag_blocking cfg = true → mem_str (op_name t) SET_LOCAL = false →
            mem_str (op_name t) SET_CROSS = true → ∀ k, sets_key tb k t = true →
            Z.of_nat (length (queue (tokens s) k)) <
              (if is_local_key k then local_flag_depth cfg else cross_flag_depth cfg)).
Proof.
  unfold evaluate_cross_depth. intros H.
  destruct (flag_blocking cfg); cbn [andb] in H; [|inv_st; by split].
  destruct (mem_str (op_name t) SET_CROSS) eqn:E; [|inv_st; by split].
  inv_st. match goal with H : cross_mode t = Ok ?m |- _ => rename m into mode; rename H into Hm end.
  destruct ((mode =? 0) || (mode =? 1)) eqn:E0; inv_st.
  - split; [done|]. intros _ E1 _ k Hs. unfold sets_key, effect_of in Hs.
    by rewrite E1, E, Hm, E0 in Hs.
  - match goal with H : cross_set_keys_mode2 t = Ok ?ks |- _ => rename ks into keys; rename H into Hks end.
    destruct (filter _ keys) as [|x l] eqn:Ef; cbn [nonempty_list] in *; [|done].
    split; [done|]. intros _ E1 _ k Hs. unfold sets_key, effect_of in Hs.
    rewrite E1, E, Hm, E0, Hks in Hs. cbn [keys_or_nil] in Hs. apply bool_decide_eq_true in Hs.
    rewrite (cross_keys_not_local _ _ _ _ _ Hks Hs).
    apply Z.nle_gt. intros Hle. apply (not_elem_of_nil k). rewrite <- Ef.
    by apply list_elem_of_filter.
Qed.

Lemma wait_local_ready t s s' d z oc :
  mem_str (op_name t) SET_LOCAL = false → mem_str (op_name t) SET_CROSS = false →
  mem_str (op_name t) WAIT_LOCAL = true → evaluate_wait_local t oc s = (s', Ok d) →
  ready_cycle d = Some z →
  oc <= z ∧ ∀ k, waits_key tb k t = true → credit_by (queue (tokens s) k) z.
Proof.
  intros E1 E2 E3 H Hz. unfold evaluate_wait_local in H. inv_st.
  match goal with H : local_flag_key t = Ok ?k |- _ => rename k into key; rename H into Hk end.
  match goal with |- context [queue (tokens ?s)] => destruct (queue (tokens s) key) as [|[c p] q] eqn:Eq end;
    [done|].
  injection Hz as <-. split; [lia|]. intros k Hw.
  unfold waits_key, effect_of in Hw. rewrite E1, E2, E3, Hk in Hw. cbn [keys_or_nil] in Hw.
  apply bool_decide_eq_true, list_elem_of_singleton in Hw as ->. rewrite Eq.
  exists (c, p), q. split; [done|]. cbn. lia.
Qed.

Lemma wait_cross_ready t s s' d z oc :
  mem_str (op_name t) SET_LOCAL = false → mem_str (op_name t) SET_CROSS = false →
  mem_str (op_name t) WAIT_LOCAL = false → mem_str (op_name t) WAIT_CROSS = true →
  evaluate_wait_cross tb t oc s = (s', Ok d) → ready_cycle d = Some z →
  oc <= z ∧ ∀ k, waits_key tb k t = true → credit_by (queue (tokens s) k) z.
Proof.
  intros E1 E2 E3 E4 H Hz. unfold evaluate_wait_cross in H. inv_st.
  match goal with H : cross_wait_mode _ t = Ok ?m |- _ => destruct m as [mode|]; rename H into Hm end;
    [|by inv_st].
  destruct ((mode =? 0) || (mode =? 1)) eqn:E0.
  - split; [|intros k Hw; unfold waits_key, effect_of in Hw; by rewrite E1, E2, E3, E4, Hm, E0 in Hw].
    unfold evaluate_collective_wait in *. inv_st.
    destruct (nonempty_list _); inv_st; cbn [ready_cycle release block] in Hz; simplify_eq. lia.
  - inv_st. match goal with H : cross_wait_keys_mode2 t = Ok ?ks |- _ => rename H into Hks end.
    destruct (nonempty_list _); inv_st; cbn [ready_cycle release block] in Hz; simplify_eq. split; [lia|].
    intros k Hw. unfold waits_key, effect_of in Hw.
    rewrite E1, E2, E3, E4, Hm, E0, Hks in Hw. cbn [keys_or_nil] in Hw.
    apply bool_decide_eq_true in Hw.
    match goal with H : omap_list _ _ = Ok _, H' : py_max _ = Ok _ |- _ =>
      destruct (heads_by _ _ _ _ H H' k Hw) as (c & rest & Hq & Hle) end.
    exists c, rest. split; [done|lia].
Qed.

Lemma local_depth_blocked t s s' d :
  evaluate_local_depth cfg t s = (s', Ok (Some d)) → ready_cycle d = None.
Proof.
  unfold evaluate_local_depth. intros H. destruct (_ && _); inv_st; try done.
  destruct (_ <=? _); by simplify_eq.
Qed.

Lemma cross_depth_blocked t s s' d :
  evaluate_cross_depth cfg t s = (s', Ok (Some d)) → ready_cycle d = None.
Proof.
  unfold evaluate_cross_depth. intros H. destruct (_ && _); inv_st; try done.
  destruct (_ || _); inv_st; try done. destruct (nonempty_list _); by simplify_eq.
Qed.

(** Sets are neither waits nor barriers; waits are not barriers. *)
Lemma names_disjoint op :
  mem_str op SET_LOCAL || mem_str op SET_CROSS = true →
  mem_str op WAIT_LOCAL = false ∧ mem_str op WAIT_CROSS = false ∧
  mem_str op BARRIER_ALL || mem_str op PIPE_BARRIER || mem_str op SYNC_ALL = false.
Proof.
  rewrite orb_true_iff, !mem_str_true. unfold SET_LOCAL, SET_CROSS. rewrite !elem_of_cons.
  intros H. assert (op ∈ SET_LOCAL ++ SET_CROSS) as Hin by (cbn; set_solver). clear H.
  apply list_elem_of_In in Hin. cbn in Hin.
  repeat (destruct Hin as [<-|Hin]; [vm_compute; auto|]). done.
Qed.

Lemma evaluate_operation_ready t c s s' d z oc :
  evaluate_operation cfg tb t c oc s = (s', Ok d) → ready_cycle d = Some z →
  oc <= z ∧ operation_ready t c s z.
Proof.
  intros H Hz. unfold evaluate_operation in H. inv_st.
  match goal with H : evaluate_local_depth _ _ _ = (_, Ok ?x) |- _ =>
    rename H into Hl; destruct x as [d1|] end.
  { inv_st. apply local_depth_blocked in Hl. congruence. }
  apply local_depth_ok in Hl as [-> Hlocal]. inv_st.
  match goal with H : evaluate_cross_depth _ _ _ = (_, Ok ?x) |- _ =>
    rename H into Hx; destruct x as [d2|] end.
  { inv_st. apply cross_depth_blocked in Hx. congruence. }
  apply cross_depth_ok in Hx as [-> Hcross].
  destruct (mem_str (op_name t) SET_LOCAL || mem_str (op_name t) SET_CROSS) eqn:Eset.
  - destruct (names_disjoint _ Eset) as (E3 & E4 & E5). rewrite E3, E4 in *. unfold is_barrier in *.
    rewrite E5 in *. inv_st. injection Hz as <-. split; [lia|]. split.
    + intros k Hw. unfold waits_key, effect_of in Hw.
      destruct (mem_str _ SET_LOCAL); [done|]. cbn in Eset. rewrite Eset in Hw.
      destruct (cross_mode t) as [m|]; [|done]. by destruct ((m =? 0) || (m =? 1)).
    + unfold is_barrier. by rewrite E5.
    + intros Hb k Hs. destruct (mem_str _ SET_LOCAL); [by apply Hlocal|by apply Hcross].
  - apply orb_false_iff in Eset as [E1 E2].
    assert (∀ k, sets_key tb k t = true → False) as Hns.
    { intros k Hs. unfold sets_key, effect_of in Hs. rewrite E1, E2 in Hs.
      destruct (mem_str _ WAIT_LOCAL); [done|]. destruct (mem_str _ WAIT_CROSS); [|done].
      destruct (cross_wait_mode _ _) as [[m|]|]; [|done|done].
      by destruct ((m =? 0) || (m =? 1)). }
    destruct (mem_str (op_name t) WAIT_LOCAL) eqn:E3.
    { match goal with H : evaluate_wait_local _ _ _ = _ |- _ =>
        apply (wait_local_ready _ _ _ _ z) in H as [Hoc Hc]; try done end.
      split; [done|]. split; [done|congruence|]. intros _ k Hs. by destruct (Hns k). }
    destruct (mem_str (op_name t) WAIT_CROSS) eqn:E4.
    { match goal with H : evaluate_wait_cross _ _ _ _ = _ |- _ =>
        apply (wait_cross_ready _ _ _ _ z) in H as [Hoc Hc]; try done end.
      split; [done|]. split; [done|congruence|]. intros _ k Hs. by destruct (Hns k). }
    assert (∀ k, waits_key tb k t = true → False) as Hnw.
    { intros k Hw. unfold waits_key, effect_of in Hw. by rewrite E1, E2, E3, E4 in Hw. }
    destruct (is_barrier t) eqn:E5; inv_st.
    + unfold evaluate_barrier in Hz. destruct (nonempty_list _) eqn:Em; [done|].
      injection Hz as <-. split; [lia|]. split.
      * intros k Hw. by destruct (Hnw k).
      * intros _ _ _. apply ended_by_max; [done|lia].
      * intros _ k Hs. by destruct (Hns k).
    + injection Hz as <-. split; [lia|]. split.
      * intros k Hw. by destruct (Hnw k).
      * congruence.
      * intros _ k Hs. by destruct (Hns k).
Qed.
End decision.

Section run.
Context (cfg : sync_cfg) (tb : sync_tables) (ts : list Task).

(** Everything an unblocked decision guarantees. *)
Record decision_ready (t : Task) (c : completed_map) (s : sync_live) (z : Z) : Prop := {
  dr_ordering : ended_by c (ordering_ids tb t) z;
  dr_operation : sync_all_release_dependencies tb !! task_id t = None →
    operation_ready cfg tb t c s z;
  dr_release : ∀ key, sync_all_release_dependencies tb !! task_id t = Some key →
    ∃ ps, dget (sync_all_expected tb) key.1 = Some ps ∧
      ∀ p, p ∈ ps → ∃ cr, arrival s key p = Some cr ∧ cr.1 <= z;
}.

Lemma dget_value {K V} `{EqDecision K} (d : dict K V) k v : dget d k = Some v → v ∈ dvalues d.
Proof. intros H%dget_elem_of. apply list_elem_of_fmap. by exists (k, v). Qed.

Lemma evaluate_release_ready oc key s s' d z :
  evaluate_release tb oc key s = (s', Ok d) → ready_cycle d = Some z →
  oc <= z ∧ ∃ ps, dget (sync_all_expected tb) key.1 = Some ps ∧
    ∀ p, p ∈ ps → ∃ cr, arrival s key p = Some cr ∧ cr.1 <= z.
Proof.
  unfold evaluate_release. intros H Hz. apply stM_bind_ok in H as (s1 & ps & Hps & H).
  apply st_lift_ok in Hps as [-> Hps].
  destruct (dget (sync_all_expected tb) key.1) as [ps'|]; [|done]. injection Hps as ->.
  apply stM_bind_ok in H as (s1 & a & Ha & H). unfold read_arrivals in Ha. injection Ha as <- <-.
  destruct (filter _ ps) as [|x l] eqn:Ef; cbn [nonempty_list] in H; inv_st;
    cbn [ready_cycle release block] in Hz; simplify_eq.
  split; [lia|]. exists ps. split; [done|]. intros p Hp.
  destruct (arrival s key p) as [cr|] eqn:Ea.
  - exists cr. split; [done|]. apply dget_value in Ea.
    match goal with H : py_max _ = Ok _ |- _ =>
      pose proof (py_max_elem _ _ cr.1 H ltac:(apply list_elem_of_fmap; eauto)) end. lia.
  - exfalso. apply (not_elem_of_nil p). rewrite <- Ef. apply list_elem_of_filter.
    split; [|done]. by apply dmem_false.
Qed.

Lemma evaluate_ready t c s s' d z :
  evaluate cfg tb t c s = (s', Ok d) → ready_cycle d = Some z → decision_ready t c s z.
Proof.
  unfold evaluate. intros H Hz. apply stM_bind_ok in H as (s1 & d1 & H & Hd).
  apply st_lift_ok in Hd as [-> Hd]. assert (d1 = d) as ->.
  { unfold decision_init in Hd. destruct (ready_cycle d1); [destruct (_ <? _)|]; by simplify_eq. }
  destruct (nonempty_list _) eqn:Em; [inv_st; done|].
  destruct (sync_all_release_dependencies tb !! task_id t) as [key|] eqn:Er.
  - destruct (evaluate_release_ready _ _ _ _ _ _ H Hz) as [Hoc Hps]. split.
    + by apply ended_by_max.
    + congruence.
    + intros key' Hk. rewrite Er in Hk. injection Hk as <-. done.
  - destruct (evaluate_operation_ready _ _ _ _ _ _ _ _ _ H Hz) as [Hoc Hop]. split.
    + by apply ended_by_max.
    + done.
    + congruence.
Qed.

Lemma py_max_in l m : py_max l = Ok m → m ∈ l.
Proof.
  destruct l as [|x l]; [done|]. cbn. intros Heq. injection Heq as <-.
  revert x; induction l as [|y l IH]; intros x; cbn; [by left|].
  specialize (IH (Z.max x y)). apply elem_of_cons in IH as [->|IH]; [|set_solver].
  destruct (Z.max_spec x y) as [[_ ->]|[_ ->]]; set_solver.
Qed.

(** Behind a [sync_all] the decision is exactly the latest arrival, whatever the operation. *)
Lemma evaluate_released t c s s' d z key :
  evaluate cfg tb t c s = (s', Ok d) → ready_cycle d = Some z →
  sync_all_release_dependencies tb !! task_id t = Some key →
  missing_of c (ordering_ids tb t) = [] ∧
  ∃ p cr, (p, cr) ∈ dget_default [] (sync_all_arrivals s) key ∧ z = Z.max (max0 (ends_of c (ordering_ids tb t))) cr.1.
Proof.
  unfold evaluate. intros H Hz Hkey. apply stM_bind_ok in H as (s1 & d1 & H & Hd).
  apply st_lift_ok in Hd as [-> Hd]. assert (d1 = d) as ->.
  { unfold decision_init in Hd. destruct (ready_cycle d1); [destruct (_ <? _)|]; by simplify_eq. }
  destruct (nonempty_list _) eqn:Em; [inv_st; done|]. rewrite Hkey in H.
  split; [by apply nonempty_list_false|].
  unfold evaluate_release in H. apply stM_bind_ok in H as (s2 & ps & Hps & H).
  apply st_lift_ok in Hps as [-> _]. apply stM_bind_ok in H as (s2 & a & Ha & H).
  unfold read_arrivals in Ha. injection Ha as <- <-.
  destruct (nonempty_list (filter _ ps)); inv_st; cbn [ready_cycle release block] in Hz; simplify_eq.
  match goal with H : py_max _ = Ok _ |- _ => apply py_max_in in H;
    apply list_elem_of_fmap in H as (cr & -> & H); apply list_elem_of_fmap in H as ([p cr'] & -> & H) end.
  by exists p, cr'.
Qed.

Lemma ended_by_weaken c c' ids z z' :
  (∀ id r, c !! id = Some r → c' !! id = Some r) → z <= z' → ended_by c ids z → ended_by c' ids z'.
Proof.
  intros Hc Hz H id Hid. destruct (H id Hid) as (r & Hr & Hle). exists r. split; [auto|lia].
Qed.

(** What every placed task of a run satisfies; [h1] is the history before it. *)
Record event_ready (c : completed_map) (h1 : list event) (t : Task) (r : ExecutionRecord) : Prop := {
  er_ordering : ended_by c (ordering_ids tb t) (start_cycle r);
  er_credit : sync_all_release_dependencies tb !! task_id t = None →
    ∀ k, waits_key tb k t = true →
    ∃ cr, produced tb k h1 !! consumed tb k h1 = Some cr ∧ cr.1 <= start_cycle r;
  er_barrier : sync_all_release_dependencies tb !! task_id t = None →
    is_barrier t = true → mem_str (op_name t) WAIT_LOCAL = false →
    mem_str (op_name t) WAIT_CROSS = false → ended_by c (barrier_ids tb t) (start_cycle r);
  er_release : ∀ key, sync_all_release_dependencies tb !! task_id t = Some key →
    ∃ ps, dget (sync_all_expected tb) key.1 = Some ps ∧
      ∀ p, p ∈ ps → ∃ u ru, (u, ru) ∈ h1 ∧ arrives tb u key p ∧ end_cycle ru <= start_cycle r;
}.

Record sync_facts (hist : list event) (c : completed_map) (st : flag_barrier_state) : Prop := {
  sf_tables : fb_tables st = tb;
  sf_queue : ∀ k, queue (tokens (fb_live st)) k = drop (consumed tb k hist) (produced tb k hist);
  sf_balance : ∀ k, (consumed tb k hist ≤ length (produced tb k hist))%nat;
  sf_cross : flag_blocking cfg = false → ∀ k, is_local_key k = false →
    Z.of_nat (length (queue (tokens (fb_live st)) k)) <= MAX_CROSS_FLAG_CREDITS;
  sf_depth : flag_blocking cfg = true → sync_all_release_dependencies tb = ∅ →
    0 < local_flag_depth cfg → 0 < cross_flag_depth cfg → ∀ k,
    Z.of_nat (length (queue (tokens (fb_live st)) k)) <=
      (if is_local_key k then local_flag_depth cfg else cross_flag_depth cfg);
  sf_arrivals : ∀ key p cr, arrival (fb_live st) key p = Some cr →
    ∃ u ru, (u, ru) ∈ hist ∧ arrives tb u key p ∧ cr = (end_cycle ru, task_id u);
  sf_unique : arrivals_unique (fb_live st);
  sf_events : ∀ h1 t r h2, hist = h1 ++ (t, r) :: h2 → event_ready c h1 t r;
}.

Lemma arrival_equiv s s' key p : s ≡ s' → arrival s key p = arrival s' key p.
Proof. intros [_ _ _ Ha]. unfold arrival. by rewrite Ha. Qed.

Lemma sync_facts_equiv hist c st st' :
  fb_tables st' = fb_tables st → fb_live st' ≡ fb_live st →
  sync_facts hist c st → sync_facts hist c st'.
Proof.
  intros Ht Heq [Htb Hq Hb Hx Hd Ha Hu He]. pose proof Heq as [Htok _ _ Harr].
  split; [congruence|by rewrite Htok|done|by rewrite Htok|by rewrite Htok| | |done].
  - intros key p cr Har. apply Ha. by rewrite <- (arrival_equiv _ _ _ _ Heq).
  - intros key. rewrite Harr. apply Hu.
Qed.

Lemma decision_ready_equiv t c s s' z :
  s ≡ s' → decision_ready t c s z → decision_ready t c s' z.
Proof.
  intros Heq [Ho Hop Hr]. pose proof Heq as [Ht _ _ _]. split; [done| |].
  - intros Hn. destruct (Hop Hn) as [Hc Hb Hd]. by split; rewrite <- ?Ht.
  - intros key Hk. destruct (Hr key Hk) as (ps & Hps & Hall). exists ps. split; [done|].
    intros p Hp. rewrite <- (arrival_equiv _ _ _ _ Heq). auto.
Qed.

Lemma queue_after_spec k t r hist :
  (consumed tb k hist ≤ length (produced tb k hist))%nat →
  (waits_key tb k t = true → drop (consumed tb k hist) (produced tb k hist) ≠ []) →
  queue_after tb t r k (drop (consumed tb k hist) (produced tb k hist)) =
    drop (consumed tb k (hist ++ [(t, r)])) (produced tb k (hist ++ [(t, r)])) ∧
  (consumed tb k (hist ++ [(t, r)]) ≤ length (produced tb k (hist ++ [(t, r)])))%nat.
Proof.
  intros Hle Hne. unfold queue_after. rewrite produced_snoc, consumed_snoc.
  set (m := consumed tb k hist) in *. set (l := produced tb k hist) in *.
  assert ((m + (if waits_key tb k t then 1 else 0) ≤ length l)%nat) as Hm.
  { destruct (waits_key tb k t); [|lia]. specialize (Hne eq_refl).
    destruct (drop m l) as [|x q] eqn:E; [done|].
    assert (length (drop m l) ≠ 0%nat) by (rewrite E; done). rewrite length_drop in *. lia. }
  rewrite length_app. split; [|lia]. rewrite drop_app_le by done. f_equal.
  destruct (waits_key tb k t); [|by rewrite Nat.add_0_r].
  rewrite <- drop_drop. by destruct (drop m l).
Qed.

(** One placement, in terms of the live states before and after the update. *)
Lemma sync_facts_place hist c s s' t r z :
  sync_facts hist c (MkFB tb s) → c !! task_id t = None →
  decision_ready t c s z → z <= start_cycle r →
  effect_ok cfg tb t r s s' →
  (∀ key p cr, arrival s' key p = Some cr →
     arrival s key p = Some cr ∨ (arrives tb t key p ∧ cr = (end_cycle r, task_id t))) →
  arrivals_unique s' →
  sync_facts (hist ++ [(t, r)]) (<[task_id t := r]> c) (MkFB tb s').
Proof.
  intros [_ Hq Hb Hx Hd Ha _ He] Hfresh [Hord Hop Hrel] Hz Heff Harr Huniq. cbn [fb_live] in *.
  assert (∀ id x, c !! id = Some x → <[task_id t := r]> c !! id = Some x) as Hmono.
  { intros id x Hid. rewrite lookup_insert_ne; [done|congruence]. }
  assert (∀ k, queue (tokens s') k = drop (consumed tb k (hist ++ [(t, r)]))
      (produced tb k (hist ++ [(t, r)])) ∧
    (consumed tb k (hist ++ [(t, r)]) ≤ length (produced tb k (hist ++ [(t, r)])))%nat) as Hqs.
  { intros k. destruct (Heff k) as (-> & Hne & _). rewrite Hq in *. by apply queue_after_spec. }
  split; cbn [fb_tables fb_live].
  - done.
  - apply Hqs.
  - apply Hqs.
  - intros Hfb k Hk. destruct (Heff k) as (-> & _ & Hlim). specialize (Hx Hfb k Hk).
    unfold queue_after. rewrite length_app.
    assert (length (if waits_key tb k t then tail (queue (tokens s) k) else queue (tokens s) k)
      ≤ length (queue (tokens s) k))%nat by (destruct (waits_key _ _ _), (queue _ _); cbn; lia).
    destruct (sets_key tb k t); cbn [length]; [|lia]. specialize (Hlim Hk Hfb eq_refl). lia.
  - intros Hfb Hnorel Hl Hc k. destruct (Heff k) as (-> & _ & _). specialize (Hd Hfb Hnorel Hl Hc k).
    assert (sync_all_release_dependencies tb !! task_id t = None) as Hn by (by rewrite Hnorel).
    destruct (Hop Hn) as [_ _ Hdep]. unfold queue_after. rewrite length_app.
    assert (length (if waits_key tb k t then tail (queue (tokens s) k) else queue (tokens s) k)
      ≤ length (queue (tokens s) k))%nat by (destruct (waits_key _ _ _), (queue _ _); cbn; lia).
    destruct (sets_key tb k t) eqn:Es; cbn [length]; [|lia]. specialize (Hdep Hfb k Es). lia.
  - intros key p cr Har. destruct (Harr key p cr Har) as [Hold|[Hnew ->]].
    + destruct (Ha key p cr Hold) as (u & ru & Hin & ? & ?). exists u, ru. set_solver.
    + exists t, r. set_solver.
  - exact Huniq.
  - intros h1 u ru h2 Heq.
    destruct h2 as [|e h2 _] using rev_ind.
    + apply app_inj_tail in Heq as [<- Heq]. injection Heq as <- <-. split.
      * by eapply ended_by_weaken.
      * intros Hn k Hw. destruct (Hop Hn) as [Hcr _ _].
        destruct (Hcr k Hw) as (cr & rest & Hhd & Hle). exists cr. split; [|lia].
        rewrite Hq in Hhd. rewrite <- (Nat.add_0_r (consumed tb k hist)), <- lookup_drop, Hhd. done.
      * intros Hn Hbar H1 H2. destruct (Hop Hn) as [_ Hba _]. by eapply ended_by_weaken; [| |apply Hba].
      * intros key Hkey. destruct (Hrel key Hkey) as (ps & Hps & Hall). exists ps. split; [done|].
        intros p Hp. destruct (Hall p Hp) as (cr & Hcr & Hle).
        destruct (Ha key p cr Hcr) as (v & rv & Hin & Harv & ->). exists v, rv.
        split; [done|]. split; [done|]. cbn in Hle. lia.
    + rewrite app_comm_cons, app_assoc in Heq. apply app_inj_tail in Heq as [Heq _].
      destruct (He h1 u ru h2 Heq) as [E1 E2 E3 E4]. split; [|done| |done].
      * by eapply ended_by_weaken; [|reflexivity|].
      * intros. eapply ended_by_weaken; [done|reflexivity|auto].
Qed.

Lemma flag_barrier_facts hist c st :
  @sched_run _ (FlagBarrierSynchronizationModel cfg) ts (MkFB tb sync_live0) hist c st →
  sync_facts hist c st.
Proof.
  induction 1 as [|hist c st t d st' _ IH _ Hev Hd
    |hist c st t d cycle st1 st' r _ IH (_ & Hfresh & _) Hev Hd _ Hstart Hon].
  - split; try done.
    + intros _ _ Hl Hc k. cbn. destruct (is_local_key k); lia.
    + intros key. constructor.
    + intros h1 t r h2 Heq. destruct h1; done.
  - pose proof (evaluate_reader cfg (fb_tables st) t c (fb_live st) (fb_live st)
      ltac:(reflexivity)) as [_ Hequiv].
    apply (f_equal fst) in Hev. cbn [sm_evaluate FlagBarrierSynchronizationModel fst] in Hev.
    rewrite on_live_fst in Hev. subst st'. by eapply (sync_facts_equiv hist c st).
  - pose proof (evaluate_reader cfg (fb_tables st) t c (fb_live st) (fb_live st)
      ltac:(reflexivity)) as [_ Hequiv].
    cbn [sm_evaluate sm_on_scheduled FlagBarrierSynchronizationModel] in Hev, Hon.
    unfold on_live in Hev, Hon.
    destruct (evaluate cfg (fb_tables st) t c (fb_live st)) as [live1 ans] eqn:Ee.
    injection Hev as <- ->. cbn [fb_tables fb_live fst] in *.
    rewrite (sf_tables _ _ _ IH) in *.
    destruct (on_scheduled cfg tb t r live1) as [live2 ans2] eqn:Eo. injection Hon as <- ->.
    pose proof (earliest_bounds ts c t d) as (_ & Hz & _). rewrite Hd, <- Hstart in Hz. cbn in Hz.
    pose proof (evaluate_ready t c _ _ d cycle Ee Hd) as Hready.
    assert (sync_facts hist c (MkFB tb live1)) as IH1.
    { apply (sync_facts_equiv hist c st); [by rewrite (sf_tables _ _ _ IH)|done|done]. }
    eapply (sync_facts_place hist c live1 live2 t r cycle IH1 Hfresh); [|done| | |].
    + by eapply decision_ready_equiv; [symmetry|].
    + by eapply on_scheduled_effect.
    + by eapply on_scheduled_arrivals.
    + eapply on_scheduled_unique; [exact Eo|apply (sf_unique _ _ _ IH1)].
Qed.
End run.
