(* ===== verification/SyncFence.v ===== *)
(** Barriers as fences: the tail tables [reset] builds stand for all earlier tasks of a lane,
    and the last fence of a lane orders everything after it. *)

From S2P Require Import Prelude PyDict PySort PyStr Errors Values Program Config Trace SyncOps.
From S2P Require Import SyncReset SyncModel SyncLaws Scheduler Schedule Progress SyncCredits.
From S2P Require Import SyncRun.
Local Open Scope string_scope.
Local Open Scope Z_scope.
Local Open Scope list_scope.

(** ** The accumulator of [reset] *)

Definition some_if_nonempty (ids : list string) : option (list string) :=
  match ids with [] => None | _ => Some (fromkeys ids) end.

Record step_spec (acc : reset_acc) (t : Task) (acc' : reset_acc) : Prop := {
  ss_lane : resources_by_lane acc' = <[lane_key t := dset (default [] (resources_by_lane acc !! lane_key t))
              (pipe_value (pipe t)) t]> (resources_by_lane acc);
  ss_fence : last_fence acc' = (fences_after acc t).1;
  ss_barrier : acc_barrier acc' = partial_alter
    (λ old, match barrier_of acc t with Some ids => Some ids | None => old end) (task_id t) (acc_barrier acc);
  ss_ordering : acc_ordering acc' = partial_alter
    (λ old, match some_if_nonempty (ordering_of acc t) with Some ids => Some ids | None => old end)
    (task_id t) (acc_ordering acc);
  ss_release : acc_release acc' = partial_alter
    (λ old, match pending_sync_all acc !! participant t with Some k => Some k | None => old end)
    (task_id t) (acc_release acc);
  ss_pending :
    (mem_str (op_name t) SYNC_ALL = false ∧ pending_sync_all acc' = pending_sync_all acc ∧
     acc_task_phase acc' = acc_task_phase acc) ∨
    (mem_str (op_name t) SYNC_ALL = true ∧
     ∃ key, pending_sync_all acc' = <[participant t := key]> (pending_sync_all acc) ∧
       acc_task_phase acc' = dset (acc_task_phase acc) (task_id t) key);
}.

Lemma insert_or_keep {A} (o : option A) (m : gmap string A) k :
  match o with Some v => <[k := v]> m | None => m end =
  partial_alter (λ old, match o with Some v => Some v | None => old end) k m.
Proof.
  destruct o; [done|]. apply map_eq. intros i. destruct (decide (k = i)) as [->|].
  - by rewrite lookup_partial_alter_eq.
  - by rewrite lookup_partial_alter_ne.
Qed.

Lemma reset_step_spec acc t acc' : reset_step acc t = Ok acc' → step_spec acc t acc'.
Proof.
  unfold reset_step. intros (_ & _ & H)%outcome_bind_ok.
  apply outcome_bind_ok in H as ([[ph pend] tp] & Hs & H). injection H as <-. split; cbn.
  - done.
  - done.
  - by rewrite <- insert_or_keep.
  - rewrite <- insert_or_keep. by destruct (ordering_of acc t).
  - by rewrite <- insert_or_keep.
  - unfold sync_all_step in Hs. destruct (mem_str (op_name t) SYNC_ALL); [|left; by simplify_eq].
    apply outcome_bind_ok in Hs as (scope & _ & Hs).
    destruct (remove_dups _) as [|x [|]]; [done| |done]. right. simplify_eq. eauto.
Qed.

Definition reset_fold (l : list Task) (acc : reset_acc) : result reset_acc := ofold reset_step l acc.

Lemma reset_fold_snoc l t acc acc' :
  reset_fold (l ++ [t]) acc = Ok acc' →
  ∃ acc1, reset_fold l acc = Ok acc1 ∧ step_spec acc1 t acc'.
Proof.
  unfold reset_fold. rewrite ofold_app. intros (acc1 & H1 & H)%outcome_bind_ok.
  cbn [ofold] in H. apply outcome_bind_ok in H as (acc2 & H2 & H). injection H as <-.
  exists acc1. split; [done|by apply reset_step_spec].
Qed.

(** Entries of tasks that a suffix does not name are kept by it. *)
Lemma reset_fold_keeps l acc acc' id :
  reset_fold l acc = Ok acc' → id ∉ task_id <$> l →
  acc_barrier acc' !! id = acc_barrier acc !! id ∧
  acc_ordering acc' !! id = acc_ordering acc !! id ∧
  acc_release acc' !! id = acc_release acc !! id.
Proof.
  revert acc'; induction l as [|t l IH] using rev_ind; intros acc' H Hid.
  - unfold reset_fold in H. cbn in H. by injection H as <-.
  - apply reset_fold_snoc in H as (acc1 & H1 & Hs). rewrite fmap_app, not_elem_of_app in Hid.
    destruct Hid as [Hl Ht]. destruct (IH acc1 H1 Hl) as (<- & <- & <-).
    rewrite (ss_barrier _ _ _ Hs), (ss_ordering _ _ _ Hs), (ss_release _ _ _ Hs).
    rewrite !lookup_partial_alter_ne; [done| | |]; cbn in Ht; set_solver.
Qed.

(** The table entries of a task are what the loop saw when it reached the task. *)
Lemma reset_entries p tb pre t post :
  NoDup (task_id <$> tasks p) → reset p = Ok tb → tasks p = pre ++ t :: post →
  ∃ acc, reset_fold pre reset_acc0 = Ok acc ∧
    barrier_dependencies tb !! task_id t = barrier_of acc t ∧
    ordering_dependencies tb !! task_id t = some_if_nonempty (ordering_of acc t) ∧
    sync_all_release_dependencies tb !! task_id t = pending_sync_all acc !! participant t.
Proof.
  intros Hnd H Hts. unfold reset in H. rewrite Hts in *.
  apply outcome_bind_ok in H as (modes & _ & H). apply outcome_bind_ok in H as (aud & _ & H).
  apply outcome_bind_ok in H as (acc' & Hacc & H). apply outcome_bind_ok in H as (ex & _ & H).
  injection H as <-.
  cbn [barrier_dependencies ordering_dependencies sync_all_release_dependencies].
  rewrite cons_middle, app_assoc, ofold_app in Hacc.
  apply outcome_bind_ok in Hacc as (acc2 & H2 & H3).
  destruct (reset_fold_snoc _ _ _ _ H2) as (acc & Hacc & Hs). exists acc. split; [done|].
  rewrite fmap_app, NoDup_app in Hnd. destruct Hnd as (_ & Hd & Hnd).
  rewrite fmap_cons, NoDup_cons in Hnd. destruct Hnd as [Hni _].
  assert (task_id t ∉ task_id <$> pre) as Hni' by (intros Hin; apply (Hd _ Hin); set_solver).
  destruct (reset_fold_keeps _ _ _ _ H3 Hni) as (-> & -> & ->).
  destruct (reset_fold_keeps _ _ _ _ Hacc Hni') as (Hb & Ho & Hr). cbn in Hb, Ho, Hr.
  rewrite (ss_barrier _ _ _ Hs), (ss_ordering _ _ _ Hs), (ss_release _ _ _ Hs).
  rewrite !lookup_partial_alter_eq, Hb, Ho, Hr, !lookup_empty.
  split; [by destruct (barrier_of acc t)|]. split; [by destruct (some_if_nonempty _)|].
  by destruct (pending_sync_all acc !! participant t).
Qed.

(** ** Pipe tails *)

Lemma resource_key_split a b :
  resource_key a = resource_key b ↔ lane_key a = lane_key b ∧ pipe_value (pipe a) = pipe_value (pipe b).
Proof. unfold resource_key, lane_key. naive_solver congruence. Qed.

(** The lane table holds the last task of every pipe. *)
Lemma lane_tails pre acc b pn :
  reset_fold pre reset_acc0 = Ok acc →
  dget (default [] (resources_by_lane acc !! lane_key b)) pn =
  last (filter (λ a, lane_key a = lane_key b ∧ pipe_value (pipe a) = pn) pre).
Proof.
  revert acc; induction pre as [|t pre IH] using rev_ind; intros acc H.
  - unfold reset_fold in H. cbn in H. injection H as <-. cbn. by rewrite lookup_empty.
  - apply reset_fold_snoc in H as (acc1 & H1 & Hs). specialize (IH acc1 H1).
    rewrite (ss_lane _ _ _ Hs), filter_app.
    destruct (decide (lane_key t = lane_key b)) as [Hl|Hl].
    + rewrite Hl, lookup_insert_eq. cbn [from_option id]. rewrite dget_dset, IH.
      destruct (decide (pipe_value (pipe t) = pn)) as [Hp|Hp].
      * by rewrite filter_cons_True, filter_nil, last_snoc by done.
      * rewrite filter_cons_False, filter_nil, app_nil_r by naive_solver. done.
    + rewrite lookup_insert_ne, IH by done.
      rewrite filter_cons_False, filter_nil, app_nil_r by naive_solver. done.
Qed.

Lemma lane_tail_elem pre acc a b :
  reset_fold pre reset_acc0 = Ok acc → a ∈ pre → lane_key a = lane_key b →
  ∃ k l1 l2, pre = l1 ++ k :: l2 ∧ resource_key a = resource_key k ∧ (a = k ∨ a ∈ l1) ∧
    k ∈ dvalues (default [] (resources_by_lane acc !! lane_key b)).
Proof.
  intros H Ha Hl. pose proof (lane_tails pre acc b (pipe_value (pipe a)) H) as Ht.
  destruct (last_filter_split (λ x, lane_key x = lane_key b ∧ pipe_value (pipe x) = pipe_value (pipe a))
    pre a Ha ltac:(done)) as (k & l1 & l2 & Hpre & [Hk1 Hk2] & Hlast & Hor).
  exists k, l1, l2. split; [done|]. split; [apply resource_key_split; split; congruence|].
  split; [done|]. rewrite Hlast in Ht. by apply dget_value in Ht.
Qed.

(** ** Lane fences *)

(** The tasks after which nothing of the lane may start early. *)
Definition is_lane_fence (t : Task) : bool :=
  let op := op_name t in
  if mem_str op WAIT_CROSS || mem_str op BARRIER_ALL || mem_str op SYNC_ALL then true
  else if mem_str op WAIT_LOCAL then mem_str (pipe_name (meta t "dst_pipe")) ["s"]
  else if mem_str op PIPE_BARRIER then mem_str (target_pipe t) ["all"]
  else false.

Lemma fences_after_lane acc t :
  (fences_after acc t).1 =
  if is_lane_fence t then <[lane_key t := task_id t]> (last_fence acc) else last_fence acc.
Proof.
  unfold fences_after, is_lane_fence. destruct (_ || _); [done|].
  destruct (mem_str _ WAIT_LOCAL); [by destruct (mem_str _ ["s"])|].
  destruct (mem_str _ PIPE_BARRIER).
  - destruct (mem_str _ ["all"]); [done|]. by destruct (nonempty _).
  - destruct (is_set t); [|done]. by destruct (nonempty _).
Qed.

Lemma fence_last pre acc b :
  reset_fold pre reset_acc0 = Ok acc →
  last_fence acc !! lane_key b =
  task_id <$> last (filter (λ a, is_lane_fence a = true ∧ lane_key a = lane_key b) pre).
Proof.
  revert acc; induction pre as [|t pre IH] using rev_ind; intros acc H.
  - unfold reset_fold in H. cbn in H. injection H as <-. cbn. by rewrite lookup_empty.
  - apply reset_fold_snoc in H as (acc1 & H1 & Hs). specialize (IH acc1 H1).
    rewrite (ss_fence _ _ _ Hs), fences_after_lane, filter_app.
    destruct (is_lane_fence t) eqn:Ef, (decide (lane_key t = lane_key b)) as [Hl|Hl].
    1: by rewrite Hl, lookup_insert_eq, filter_cons_True, filter_nil, last_snoc.
    1: rewrite lookup_insert_ne by done.
    all: rewrite filter_cons_False by (intros [? ?]; congruence); by rewrite filter_nil, app_nil_r.
Qed.

(** No earlier [sync_all] of the lane: no release to wait for. *)
Lemma pending_none pre acc b :
  reset_fold pre reset_acc0 = Ok acc →
  (∀ a, a ∈ pre → lane_key a = lane_key b → mem_str (op_name a) SYNC_ALL = false) →
  pending_sync_all acc !! participant b = None.
Proof.
  revert acc; induction pre as [|t pre IH] using rev_ind; intros acc H Hno.
  - unfold reset_fold in H. cbn in H. injection H as <-. apply lookup_empty.
  - apply reset_fold_snoc in H as (acc1 & H1 & Hs).
    assert (pending_sync_all acc1 !! participant b = None) as IHn
      by (apply (IH acc1 H1); intros; apply Hno; set_solver).
    destruct (ss_pending _ _ _ Hs) as [(_ & -> & _)|(Hop & key & -> & _)]; [done|].
    rewrite lookup_insert_ne; [done|]. intros Heq.
    rewrite (Hno t) in Hop; [done|set_solver|done].
Qed.

(** ** Chains of last predecessors *)

Section chain.
Context (ts : list Task) (P : Task → Prop) `{∀ t, Decision (P t)} (start finish : Task → Z).

(** If every task starts after the last earlier task of its lane that satisfies [P], it starts
    after all of them. *)
Lemma last_chain :
  (∀ t, t ∈ ts → start t <= finish t) →
  (∀ pre b post k, ts = pre ++ b :: post →
     last (filter (λ a, P a ∧ lane_key a = lane_key b) pre) = Some k → finish k <= start b) →
  ∀ pre b post a, ts = pre ++ b :: post → a ∈ pre → P a → lane_key a = lane_key b →
  finish a <= start b.
Proof.
  intros Hspan Hlast pre. remember (length pre) as n eqn:Hn. revert pre Hn.
  induction n as [n IH] using lt_wf_ind; intros pre -> b post a Hts Ha HP Hkey.
  destruct (last_filter_split (λ x, P x ∧ lane_key x = lane_key b) pre a Ha (conj HP Hkey))
    as (k & l1 & l2 & -> & [_ Hk] & Hl & Hor).
  specialize (Hlast _ b post k Hts Hl). destruct Hor as [->|Hin]; [done|].
  assert (finish a <= start k); [|specialize (Hspan k ltac:(rewrite Hts; set_solver)); lia].
  apply (IH (length l1) ltac:(rewrite length_app; cbn; lia) l1 eq_refl k (l2 ++ b :: post));
    [|done|done|congruence].
  by rewrite Hts, <- app_assoc.
Qed.
End chain.

(** ** Phases of [sync_all] *)

(** After a [sync_all] of its lane, and until the next one, a task is released by its phase. *)
Lemma pending_last pre s0 mid acc b :
  reset_fold (pre ++ s0 :: mid) reset_acc0 = Ok acc →
  mem_str (op_name s0) SYNC_ALL = true → lane_key s0 = lane_key b →
  (∀ a, a ∈ mid → lane_key a = lane_key b → mem_str (op_name a) SYNC_ALL = false) →
  task_id s0 ∉ task_id <$> mid →
  ∃ key, pending_sync_all acc !! participant b = Some key ∧
    dget (acc_task_phase acc) (task_id s0) = Some key.
Proof.
  intros H Hop Hl. revert acc H. induction mid as [|t mid IH] using rev_ind; intros acc H Hno Hid.
  - apply reset_fold_snoc in H as (acc1 & _ & Hs).
    destruct (ss_pending _ _ _ Hs) as [[? _]|(_ & key & -> & ->)]; [congruence|].
    exists key. change (participant b) with (lane_key b). rewrite <- Hl, lookup_insert_eq.
    by rewrite dget_dset_eq.
  - rewrite app_comm_cons, app_assoc in H. apply reset_fold_snoc in H as (acc1 & H1 & Hs).
    rewrite fmap_app, not_elem_of_app in Hid. destruct Hid as [Hid Hidt].
    destruct (IH acc1 H1) as (key & Hp & Hph); [intros; apply Hno; set_solver|done|].
    exists key. destruct (ss_pending _ _ _ Hs) as [(_ & -> & ->)|(Hopt & key' & -> & ->)]; [done|].
    assert (lane_key t ≠ lane_key b) as Hne by (intros Heq; rewrite (Hno t) in Hopt; set_solver).
    rewrite lookup_insert_ne by done. rewrite dget_dset_ne; [done|]. cbn in Hidt. set_solver.
Qed.

Lemma phase_keeps l acc acc' id key :
  reset_fold l acc = Ok acc' → id ∉ task_id <$> l → dget (acc_task_phase acc) id = Some key →
  dget (acc_task_phase acc') id = Some key.
Proof.
  revert acc'; induction l as [|t l IH] using rev_ind; intros acc' H Hid Hk.
  - unfold reset_fold in H. cbn in H. by injection H as <-.
  - apply reset_fold_snoc in H as (acc1 & H1 & Hs). rewrite fmap_app, not_elem_of_app in Hid.
    destruct Hid as [Hl Ht]. specialize (IH acc1 H1 Hl Hk).
    destruct (ss_pending _ _ _ Hs) as [(_ & _ & ->)|(_ & key' & _ & ->)]; [done|].
    rewrite dget_dset_ne; [done|]. cbn in Ht. set_solver.
Qed.

Lemma expected_sound cores (phases : dict string SyncAllKey) ex scope ps :
  ofold (λ d entry, ps ← sync_all_participants cores entry.2.1; Ok (dset d entry.2.1 ps))
    phases [] = Ok ex →
  dget ex scope = Some ps → sync_all_participants cores scope = Ok ps.
Proof.
  intros H. revert scope ps.
  refine (ofold_invariant (λ _ (d : dict string (list Participant)), ∀ scope ps,
    dget d scope = Some ps → sync_all_participants cores scope = Ok ps) _ _ _ _ _ _ H); [done|].
  intros pre [id [sc ph]] d d' _ IH Hstep scope ps. cbn in Hstep.
  apply outcome_bind_ok in Hstep as (qs & Hqs & Hstep). injection Hstep as <-.
  rewrite dget_dset. case_decide as Heq; [|apply IH]. intros. by simplify_eq.
Qed.

Lemma reset_phases p tb :
  reset p = Ok tb →
  (∀ scope ps, dget (sync_all_expected tb) scope = Some ps →
     sync_all_participants (core_ids tb) scope = Ok ps) ∧
  ∃ acc, reset_fold (tasks p) reset_acc0 = Ok acc ∧ sync_all_task_phase tb = acc_task_phase acc.
Proof.
  unfold reset. intros H.
  apply outcome_bind_ok in H as (modes & _ & H). apply outcome_bind_ok in H as (aud & _ & H).
  apply outcome_bind_ok in H as (acc & Hacc & H). apply outcome_bind_ok in H as (ex & Hex & H).
  injection H as <-. cbn [sync_all_expected core_ids sync_all_task_phase]. split.
  - intros scope ps. by apply (expected_sound _ _ _ _ _ Hex).
  - by exists acc.
Qed.

Lemma sync_all_release_key p tb pre s0 mid t post :
  NoDup (task_id <$> tasks p) → reset p = Ok tb → tasks p = pre ++ s0 :: mid ++ t :: post →
  mem_str (op_name s0) SYNC_ALL = true → lane_key s0 = lane_key t →
  (∀ a, a ∈ mid → lane_key a = lane_key t → mem_str (op_name a) SYNC_ALL = false) →
  ∃ key, sync_all_release_dependencies tb !! task_id t = Some key ∧
    dget (sync_all_task_phase tb) (task_id s0) = Some key.
Proof.
  intros Hnd Hr Hts Hop Hl Hno.
  assert (task_id s0 ∉ task_id <$> mid ∧ task_id s0 ∉ task_id <$> t :: post) as [Hm Hp].
  { rewrite Hts in Hnd. rewrite fmap_app, NoDup_app, fmap_cons, NoDup_cons in Hnd.
    destruct Hnd as (_ & _ & Hn & _). rewrite fmap_app, not_elem_of_app in Hn. done. }
  destruct (reset_entries p tb (pre ++ s0 :: mid) t post Hnd Hr) as (acc & Hacc & _ & _ & ->).
  { by rewrite Hts, <- app_assoc. }
  destruct (pending_last pre s0 mid acc t Hacc Hop Hl Hno Hm) as (key & Hk & Hph).
  exists key. split; [done|]. destruct (reset_phases p tb Hr) as (_ & acc2 & H2 & ->).
  rewrite Hts in H2. unfold reset_fold in H2, Hacc.
  rewrite app_comm_cons, app_assoc, ofold_app, Hacc in H2. cbn [mbind outcome_bind] in H2.
  by apply (phase_keeps (t :: post) acc).
Qed.
