(* ===== verification/SyncValidator.v ===== *)
(** [validate_memory_synchronization] of [sync.py]: the static check that inferred memory
    dependencies between pipes are covered by fences.  The indexed interval queries it uses are
    proved equal to the scans they replaced. *)

From stdpp Require Import pretty.
From Stdlib Require Import Sorting.Sorted.
From S2P Require Import Prelude PyDict PySort PyStr Errors Values Program Trace Hazard SyncOps.
From S2P Require Import SyncReset SyncModel Scheduler.
Local Open Scope string_scope.
Local Open Scope Z_scope.
Local Open Scope list_scope.

(** ** Scans over a slice of tasks *)

(** [str(value).lower()] without its [pipe_] prefix *)
Definition lower_pipe (v : pyval) : string := drop_pipe_prefix (lower (str_of v)).

(** [_is_full_barrier], and [_has_full_barrier] over a slice *)
Definition is_full_barrier (t : Task) : bool :=
  if mem_str (op_name t) BARRIER_ALL then true
  else if mem_str (op_name t) PIPE_BARRIER then
    mem_str (lower_pipe (dget_default (VStr (pipe_value (pipe t))) (metadata t) "target_pipe")) ["all"]
  else false.
Definition has_full_barrier (ts : list Task) : bool := existsb is_full_barrier ts.

(** [_is_local_flag_event] *)
Definition is_local_flag_event (t : Task) : bool :=
  mem_str (op_name t) SET_LOCAL || mem_str (op_name t) WAIT_LOCAL.

Abbreviation signature := (string * string * pyval)%type.
Definition flag_signature (t : Task) : signature :=
  (lower_pipe (dget_default (VStr "") (metadata t) "src_pipe"),
   lower_pipe (dget_default (VStr "") (metadata t) "dst_pipe"), meta t "flag_id").

(** The body of [_has_local_flag_fence]: reachability of pipes from the producer, propagated in
    program order through matched set/wait pairs. *)
Fixpoint fence_scan (consumer : Task) (reachable : gset string) (pending : dict signature bool)
    (ts : list Task) : bool :=
  match ts with
  | [] => false
  | t :: ts =>
      if negb (core_id t =? core_id consumer) || negb (bool_decide (lane t = lane consumer)) then
        fence_scan consumer reachable pending ts
      else
        let '(src, dst, id) := flag_signature t in
        if mem_str (op_name t) SET_LOCAL then
          fence_scan consumer reachable (dset pending (src, dst, id) (bool_decide (src ∈ reachable))) ts
        else if mem_str (op_name t) WAIT_LOCAL then
          match dget pending (src, dst, id) with
          | Some source_was_reachable =>
              let reachable' := if source_was_reachable : bool then {[dst]} ∪ reachable else reachable in
              if bool_decide (pipe_value (pipe consumer) ∈ reachable') then true
              else fence_scan consumer reachable' (dpop pending (src, dst, id)) ts
          | None => fence_scan consumer reachable pending ts
          end
        else fence_scan consumer reachable pending ts
  end.

(** [_has_local_flag_fence] *)
Definition has_local_flag_fence (ts : list Task) (producer consumer : Task) : bool :=
  fence_scan consumer {[pipe_value (pipe producer)]} [] ts.

(** ** Indexed queries *)

Fixpoint enumerate {A} (n : nat) (l : list A) : list (nat * A) :=
  match l with [] => [] | x :: l => (n, x) :: enumerate (S n) l end.

(** The indexed events of a core: positions and tasks that satisfy a test. *)
Definition indexed (f : Task → bool) (ts : list Task) : list (nat * Task) :=
  filter (λ e, f e.2 = true) (enumerate 0 ts).

(** [_has_full_barrier_between] *)
Definition has_full_barrier_between (indices : list nat) (start stop : nat) : bool :=
  let position := bisect_left indices start in
  match indices !! position with
  | Some i => bool_decide (i < stop)%nat
  | None => false
  end.

(** [_has_local_flag_fence_between] *)
Definition has_local_flag_fence_between (events : list (nat * Task)) (event_indices : list nat)
    (start stop : nat) (producer consumer : Task) : bool :=
  let first := bisect_left event_indices start in
  let last := bisect_left event_indices stop in
  fence_scan consumer {[pipe_value (pipe producer)]} []
    (snd <$> take (last - first) (drop first events)).

(** [tasks[start:stop]] *)
Definition slice {A} (start stop : nat) (l : list A) : list A := take (stop - start) (drop start l).

(** ** The validator *)

Definition SHARED_KEYS : list string :=
  ["src_regions"; "src"; "lhs"; "rhs"; "mask"; "accumulator"; "scalar_src"; "offsets"; "bias";
   "dst"; "dst_regions"; "pad_dst"; "scratch"; "output_scratch"].

Definition region_names (v : pyval) : list string :=
  match v with VRegion r => [rg_buffer r] | _ => [] end.
Definition buffer_names (t : Task) : gset string :=
  list_to_set (flat_map (λ key,
    match meta t key with
    | VTuple l | VList l => flat_map region_names l
    | v => region_names v
    end) SHARED_KEYS).

(** [_shared_buffer_name] *)
Definition shared_buffer_name (producer consumer : Task) : option string :=
  head (py_sorted str_leb (elements (buffer_names producer ∩ buffer_names consumer))).

(** Iterating over a metadata value, as strings. *)
Definition iterate (v : option pyval) : result (list string) :=
  match v with
  | None => Ok []
  | Some (VTuple l) | Some (VList l) =>
      Ok (flat_map (λ x, match x with VStr s => [s] | _ => [] end) l)
  | Some (VStr s) => Ok ((λ c, String c "") <$> String.list_ascii_of_string s)
  | Some (VDict d) => Ok (dkeys d)
  | Some _ => raise TypeError "not iterable"
  end.

Record core_index := MkIndex {
  ci_tasks : list Task;
  ci_index_by_id : dict string nat;
  ci_task_by_id : dict string Task;
  ci_barriers : list nat;
  ci_events : list (nat * Task);
}.
Definition index_core (ts : list Task) : core_index :=
  MkIndex ts (dict_of_pairs ((λ e, (task_id e.2, e.1)) <$> enumerate 0 ts))
    (dict_of_pairs ((λ t, (task_id t, t)) <$> ts))
    (fst <$> indexed is_full_barrier ts) (indexed is_local_flag_event ts).

(** A validated unit-flag edge that covers the dependency. *)
Definition hardware_fence (ci : core_index) (producer : Task) (producer_index consumer_index : nat)
    (predecessor : string) : bool :=
  match dget (ci_task_by_id ci) predecessor, dget (ci_index_by_id ci) predecessor with
  | Some u, Some i =>
      bool_decide (pipe u = pipe producer) && bool_decide (lane u = lane producer) &&
      bool_decide (producer_index ≤ i < consumer_index)%nat
  | _, _ => false
  end.

(** Whether one inferred edge is covered; [true] also when it needs no fence. *)
Definition edge_covered (ci : core_index) (consumer_index : nat) (consumer : Task)
    (dependency : string) : result bool :=
  match dget (ci_task_by_id ci) dependency with
  | None => Ok true
  | Some producer =>
      if negb (bool_decide (lane producer = lane consumer)) || bool_decide (pipe producer = pipe consumer)
      then Ok true
      else match dget (ci_index_by_id ci) (task_id producer) with
      | None => raise KeyError "index_by_id"
      | Some producer_index =>
          if bool_decide (consumer_index ≤ producer_index)%nat then Ok true
          else
            hardware ← iterate (dget (metadata consumer) "unit_flag_dependencies");
            if existsb (hardware_fence ci producer producer_index consumer_index) hardware then Ok true
            else Ok (has_full_barrier_between (ci_barriers ci) (S producer_index) consumer_index ||
                     has_local_flag_fence_between (ci_events ci) (fst <$> ci_events ci)
                       (S producer_index) consumer_index producer consumer)
      end
  end.

Definition missing_fence (producer consumer : Task) : HazardDiagnostic :=
  let buffer := shared_buffer_name producer consumer in
  MkDiag "missing-pipe-synchronization"
    ("missing A2/A3 pipe synchronization for memory dependency " +:+ task_id producer +:+ " (" +:+
     operation producer +:+ "/" +:+ pipe_value (pipe producer) +:+ ") -> " +:+ task_id consumer +:+
     " (" +:+ operation consumer +:+ "/" +:+ pipe_value (pipe consumer) +:+ ") on core " +:+
     pretty (core_id consumer) +:+ " lane " +:+ lane_value (lane consumer) +:+
     (match buffer with Some name => " for buffer '" +:+ name +:+ "'" | None => "" end) +:+
     "; expected a matching set/wait flag pair or PIPE_ALL")
    buffer (Some (core_id consumer)) None None
    [("producer_task", VStr (task_id producer)); ("consumer_task", VStr (task_id consumer));
     ("producer_pipe", VStr (pipe_value (pipe producer)));
     ("consumer_pipe", VStr (pipe_value (pipe consumer)))].

Abbreviation reportM := (stM HazardReporter exn).

Definition check_edge (ci : core_index) (consumer_index : nat) (consumer : Task) (dependency : string)
    : reportM unit :=
  covered ← st_lift (edge_covered ci consumer_index consumer dependency);
  match covered : bool, dget (ci_task_by_id ci) dependency with
  | false, Some producer => report MemoryHazardError (missing_fence producer consumer)
  | _, _ => mret tt
  end.

Definition check_consumer (dependency_key : string) (ci : core_index) (e : nat * Task) : reportM unit :=
  match dget (metadata e.2) dependency_key with
  | Some (VTuple l) | Some (VList l) => st_iter (check_edge ci e.1 e.2) (str_of <$> l)
  | _ => mret tt
  end.

(** [validate_memory_synchronization] *)
Definition validate_memory_synchronization (program : KernelProgram) (hazard_check dependency_key : string)
    : result (list HazardDiagnostic) :=
  r ← reporter_init hazard_check;
  let '(r', answer) := st_iter (λ core,
      st_iter (check_consumer dependency_key (index_core (cp_tasks core)))
        (enumerate 0 (cp_tasks core))) (kp_cores program) r in
  _ ← answer;
  Ok (diagnostics r').

(** ** The indexed queries equal the scans *)

Section index.
Context {A : Type}.
Implicit Types (l : list A) (ev : list (nat * A)).

Definition ascending ev : Prop := StronglySorted (λ x y, x.1 < y.1)%nat ev.
Definition in_range (start stop : nat) (e : nat * A) : Prop := (start ≤ e.1 < stop)%nat.
#[export] Instance in_range_dec start stop e : Decision (in_range start stop e).
Proof. unfold in_range. apply _. Defined.

Lemma enumerate_bound n l e : e ∈ enumerate n l → (n ≤ e.1)%nat.
Proof.
  revert n; induction l as [|x l IH]; intros n; cbn; [set_solver|].
  intros [->|H%IH]%elem_of_cons; cbn; lia.
Qed.

Lemma enumerate_ascending n l : ascending (enumerate n l).
Proof.
  revert n; induction l as [|x l IH]; intros n; cbn; [constructor|].
  constructor; [apply IH|]. apply List.Forall_forall. intros e He%list_elem_of_In.
  apply enumerate_bound in He. cbn. lia.
Qed.

Lemma filter_ascending (P : nat * A → Prop) `{∀ e, Decision (P e)} ev :
  ascending ev → ascending (filter P ev).
Proof.
  induction 1 as [|e ev Hs IH Hf]; [constructor|]. rewrite filter_cons. case_decide; [|done].
  constructor; [done|]. rewrite Forall_forall in *. intros x [_ Hx]%list_elem_of_filter. auto.
Qed.

Lemma filter_ext_elem (P Q : nat * A → Prop) `{∀ e, Decision (P e), ∀ e, Decision (Q e)} ev :
  (∀ e, e ∈ ev → P e ↔ Q e) → filter P ev = filter Q ev.
Proof.
  induction ev as [|e ev IH]; intros HPQ; [done|]. rewrite !filter_cons.
  rewrite IH by set_solver. specialize (HPQ e). repeat case_decide; set_solver.
Qed.

Lemma ascending_head e ev x : ascending (e :: ev) → x ∈ ev → (e.1 < x.1)%nat.
Proof.
  intros H Hx. apply StronglySorted_inv in H as [_ Hf]. rewrite Forall_forall in Hf. auto.
Qed.

Lemma take_bisect ev stop :
  ascending ev → take (bisect_left (fst <$> ev) stop) ev = filter (λ e, (e.1 < stop)%nat) ev.
Proof.
  induction ev as [|e ev IH]; [done|]. intros Hs. rewrite fmap_cons. cbn [bisect_left].
  rewrite filter_cons. case_decide; cbn [take].
  - f_equal. apply IH. by apply StronglySorted_inv in Hs as [? _].
  - symmetry. apply filter_none. intros x Hx. pose proof (ascending_head e ev x Hs Hx). lia.
Qed.

(** The events between two bisected positions are those whose index lies in the interval. *)
Lemma bisect_between ev start stop :
  ascending ev →
  take (bisect_left (fst <$> ev) stop - bisect_left (fst <$> ev) start)
    (drop (bisect_left (fst <$> ev) start) ev) = filter (in_range start stop) ev.
Proof.
  induction ev as [|e ev IH]; [done|]. intros Hs.
  assert (ascending ev) as Hev by (by apply StronglySorted_inv in Hs as [? _]).
  destruct (decide (e.1 < start)%nat) as [Hlt|Hge].
  - rewrite fmap_cons. cbn [bisect_left]. rewrite (decide_True (P := (e.1 < start)%nat)) by done.
    rewrite filter_cons_False by (unfold in_range; lia). case_decide.
    + cbn [Nat.sub drop]. by apply IH.
    + cbn [Nat.sub take]. symmetry. apply filter_none. intros x Hx.
      pose proof (ascending_head e ev x Hs Hx). unfold in_range. lia.
  - assert (bisect_left (fst <$> e :: ev) start = 0%nat) as ->.
    { rewrite fmap_cons. cbn [bisect_left]. by rewrite decide_False. }
    rewrite Nat.sub_0_r, drop_0, take_bisect by done. apply filter_ext_elem.
    intros x [->|Hx]%elem_of_cons; unfold in_range; [lia|].
    pose proof (ascending_head e ev x Hs Hx). lia.
Qed.

Lemma between_exists ev start stop :
  ascending ev →
  has_full_barrier_between (fst <$> ev) start stop = true ↔ ∃ e, e ∈ ev ∧ in_range start stop e.
Proof.
  unfold has_full_barrier_between. induction ev as [|e ev IH]; intros Hs; cbn; [set_solver|].
  assert (ascending ev) as Hev by (by apply StronglySorted_inv in Hs as [? _]).
  case_decide as Hlt; cbn.
  - rewrite IH by done. setoid_rewrite elem_of_cons. split; [naive_solver|].
    intros (x & [->|Hx] & Hr); [unfold in_range in Hr; lia|eauto].
  - rewrite bool_decide_eq_true. split.
    + intros. exists e. split; [by left|]. unfold in_range. lia.
    + intros (x & [->|Hx]%elem_of_cons & Hr); unfold in_range in Hr; [lia|].
      pose proof (ascending_head e ev x Hs Hx). lia.
Qed.

Lemma enumerate_slice n start stop l (f : A → bool) :
  snd <$> filter (in_range start stop) (filter (λ e, f e.2 = true) (enumerate n l)) =
  filter (λ x, f x = true) (take (stop - n - (start - n)) (drop (start - n) l)).
Proof.
  revert n; induction l as [|x l IH]; intros n; cbn [enumerate]; [by rewrite drop_nil, take_nil|].
  assert (snd <$> filter (in_range start stop) (filter (λ e, f e.2 = true) ((n, x) :: enumerate (S n) l)) =
    (if decide (start ≤ n < stop)%nat then filter (λ y, f y = true) [x] else []) ++
    filter (λ y, f y = true) (take (stop - S n - (start - S n)) (drop (start - S n) l))) as ->.
  { rewrite <- IH, !filter_cons. cbn [snd]. rewrite filter_nil.
    destruct (decide (f x = true)); [rewrite filter_cons|]; repeat case_decide; cbn; done. }
  destruct (start - n)%nat as [|k] eqn:E.
  - replace (start - S n)%nat with 0%nat by lia. rewrite !drop_0, !Nat.sub_0_r.
    destruct (stop - n)%nat as [|m] eqn:Em.
    + rewrite decide_False by lia. by replace (stop - S n)%nat with 0%nat by lia.
    + rewrite decide_True by lia. replace (stop - S n)%nat with m by lia.
      cbn [take]. by rewrite <- filter_app.
  - rewrite decide_False by lia. replace (start - S n)%nat with k by lia.
    cbn [drop app]. by replace (stop - n - S k)%nat with (stop - S n - k)%nat by lia.
Qed.
End index.

Lemma indexed_slice f start stop ts :
  snd <$> filter (in_range start stop) (indexed f ts) = filter (λ t, f t = true) (slice start stop ts).
Proof. unfold indexed, slice. rewrite enumerate_slice. by rewrite !Nat.sub_0_r. Qed.

Lemma indexed_ascending f ts : ascending (indexed f ts).
Proof. apply filter_ascending, enumerate_ascending. Qed.

(** Tasks that are not local flag events do not move the scan. *)
Lemma fence_scan_events consumer reachable pending ts :
  fence_scan consumer reachable pending ts =
  fence_scan consumer reachable pending (filter (λ t, is_local_flag_event t = true) ts).
Proof.
  revert reachable pending; induction ts as [|t ts IH]; intros reachable pending; [done|].
  rewrite filter_cons. case_decide as He; cbn [fence_scan].
  - destruct (_ || _); [apply IH|]. destruct (flag_signature t) as [[src dst] id].
    destruct (mem_str _ SET_LOCAL); [apply IH|]. destruct (mem_str _ WAIT_LOCAL); [|apply IH].
    destruct (dget pending _) as [[]|]; [| |apply IH];
      (destruct (bool_decide _); [done|apply IH]).
  - unfold is_local_flag_event in He. apply not_true_is_false, orb_false_iff in He as [-> ->].
    destruct (flag_signature t) as [[src dst] id]. destruct (_ || _); apply IH.
Qed.

(** ** What an accepted program guarantees *)

(** The edges a core's metadata declares under a key. *)
Definition declared_edge (dependency_key : string) (ts : list Task) (i : nat) (consumer : Task)
    (dependency : string) : Prop :=
  ts !! i = Some consumer ∧
  ∃ l, (dget (metadata consumer) dependency_key = Some (VTuple l) ∨
        dget (metadata consumer) dependency_key = Some (VList l)) ∧ dependency ∈ str_of <$> l.

Lemma elem_of_enumerate {A} n (l : list A) i x :
  (i, x) ∈ enumerate n l ↔ (n ≤ i)%nat ∧ l !! (i - n)%nat = Some x.
Proof.
  revert n; induction l as [|y l IH]; intros n; cbn [enumerate].
  - rewrite lookup_nil. set_solver.
  - rewrite elem_of_cons, IH. split.
    + intros [?|[Hle Hl]]; [simplify_eq; rewrite Nat.sub_diag; split; [lia|done]|].
      split; [lia|]. by replace (i - n)%nat with (S (i - S n)) by lia.
    + intros [Hle Hl]. destruct (decide (i = n)) as [->|Hne].
      * rewrite Nat.sub_diag in Hl. left. by injection Hl as ->.
      * right. split; [lia|]. by replace (i - n)%nat with (S (i - S n)) in Hl by lia.
Qed.

Lemma st_iter_ok {St A} (f : A → stM St exn unit) (Q : A → Prop) (I : St → Prop) l s s' :
  (∀ a s s', I s → f a s = (s', Ok tt) → Q a ∧ I s') →
  I s → st_iter f l s = (s', Ok tt) → (∀ a, a ∈ l → Q a) ∧ I s'.
Proof.
  intros Hf. revert s; induction l as [|a l IH]; intros s HI H; cbn [st_iter] in H.
  - unfold mret, stM_ret in H. injection H as <-. split; [set_solver|done].
  - unfold mbind, stM_bind in H. destruct (f a s) as [s1 [[]|e]] eqn:E; [|done].
    destruct (Hf a s s1 HI E) as [HQ HI1]. destruct (IH s1 HI1 H) as [Hall HI'].
    split; [|done]. intros x [->|Hx]%elem_of_cons; auto.
Qed.

(** In [error] mode an edge is passed only when it is covered, and nothing is reported. *)
Definition error_clean (r : HazardReporter) : Prop := mode r = "error" ∧ diagnostics r = [].

Lemma check_edge_ok ci i consumer d r r' :
  error_clean r → check_edge ci i consumer d r = (r', Ok tt) →
  edge_covered ci i consumer d = Ok true ∧ error_clean r'.
Proof.
  intros [Hm Hd] H. unfold check_edge, mbind, stM_bind, st_lift in H.
  destruct (edge_covered ci i consumer d) as [[]|e] eqn:E; cbn in H.
  - unfold mret, stM_ret in H. by injection H as <-.
  - exfalso. destruct (dget (ci_task_by_id ci) d) as [u|] eqn:Eu.
    + unfold report in H. rewrite Hm in H. revert H. eval_mem_str. done.
    + unfold edge_covered in E. by rewrite Eu in E.
  - done.
Qed.

Lemma check_consumer_ok key ci e r r' :
  error_clean r → check_consumer key ci e r = (r', Ok tt) →
  (∀ l d, (dget (metadata e.2) key = Some (VTuple l) ∨ dget (metadata e.2) key = Some (VList l)) →
     d ∈ str_of <$> l → edge_covered ci e.1 e.2 d = Ok true) ∧ error_clean r'.
Proof.
  intros Hr H. unfold check_consumer in H.
  destruct (dget (metadata e.2) key) as [[]|];
    try (unfold mret, stM_ret in H; injection H as <-; split; [intros ? ? [?|?]; done|done]).
  all: apply (st_iter_ok _ (λ d, edge_covered ci e.1 e.2 d = Ok true) error_clean) in H
    as [Hall Hr']; [|intros; by eapply check_edge_ok|done]; (split; [|done]);
    intros l' d [Heq|Heq] Hd; simplify_eq; auto.
Qed.

(** The indexed interval queries of the validator equal the slice scans they replaced: a
    full barrier lies between two positions, or a local flag chain fences them, exactly when
    scanning the slice of tasks between them says so. *)
Theorem indexed_fences_equal_scans ts start stop producer consumer :
  has_full_barrier_between (fst <$> indexed is_full_barrier ts) start stop =
    has_full_barrier (slice start stop ts) ∧
  has_local_flag_fence_between (indexed is_local_flag_event ts)
    (fst <$> indexed is_local_flag_event ts) start stop producer consumer =
    has_local_flag_fence (slice start stop ts) producer consumer.
Proof.
  split.
  - apply eq_bool_prop_intro. rewrite !Is_true_true.
    rewrite between_exists by apply indexed_ascending. unfold has_full_barrier.
    pose proof (indexed_slice is_full_barrier start stop ts) as Hs.
    rewrite existsb_exists. split.
    + intros (e & He & Hr). exists e.2. rewrite <- list_elem_of_In.
      assert (e.2 ∈ filter (λ t, is_full_barrier t = true) (slice start stop ts)) as Hin.
      { rewrite <- Hs. apply list_elem_of_fmap. exists e. split; [done|]. by apply list_elem_of_filter. }
      apply list_elem_of_filter in Hin as [??]. done.
    + intros (t & Hin%list_elem_of_In & Ht).
      assert (t ∈ snd <$> filter (in_range start stop) (indexed is_full_barrier ts)) as Hin'
        by (rewrite Hs; by apply list_elem_of_filter).
      apply list_elem_of_fmap in Hin' as (e & -> & He%list_elem_of_filter). naive_solver.
  - unfold has_local_flag_fence_between, has_local_flag_fence.
    rewrite bisect_between by apply indexed_ascending. rewrite indexed_slice.
    by rewrite <- fence_scan_events.
Qed.

(** In [error] mode the validator returns only for programs in which every declared edge
    of every core is covered, and then it returns no diagnostics. *)
Theorem validated_edges_covered p key ds :
  validate_memory_synchronization p "error" key = Ok ds →
  ds = [] ∧ ∀ core i consumer d, core ∈ kp_cores p →
    declared_edge key (cp_tasks core) i consumer d →
    edge_covered (index_core (cp_tasks core)) i consumer d = Ok true.
Proof.
  unfold validate_memory_synchronization. intros H.
  assert (reporter_init "error" = Ok (MkReporter "error" [] [])) as Hi by (vm_compute; reflexivity).
  rewrite Hi in H. cbn [mbind outcome_bind] in H. clear Hi.
  destruct (st_iter _ (kp_cores p) _) as [r' answer] eqn:E.
  apply outcome_bind_ok in H as ([] & -> & H). injection H as <-.
  apply (st_iter_ok _ (λ core, ∀ e, e ∈ enumerate 0 (cp_tasks core) →
    ∀ l d, (dget (metadata e.2) key = Some (VTuple l) ∨ dget (metadata e.2) key = Some (VList l)) →
      d ∈ str_of <$> l → edge_covered (index_core (cp_tasks core)) e.1 e.2 d = Ok true) error_clean)
    in E as [Hall Hr]; [|intros core r r1 Hr HE|done].
  - split; [apply Hr|]. intros core i consumer d Hcore (Hi & l & Hl & Hd).
    apply (Hall core Hcore (i, consumer)) with (l := l); [|done|done].
    apply elem_of_enumerate. rewrite Nat.sub_0_r. split; [lia|done].
  - eapply st_iter_ok; [|done|exact HE]. intros e s1 s2 Hs Hc. by eapply check_consumer_ok.
Qed.

(** A load signals the matrix pipe, which consumes its result. *)
Definition fenced_tasks : list Task :=
  let flag := [("src_pipe", VStr "mte2"); ("dst_pipe", VStr "m"); ("flag_id", VInt 0)] in
  [ MkTask "load" "copy_gm_to_l1" 0 CUBE MTE2 10 [] None [];
    MkTask "set" "set_flag" 0 CUBE MTE2 1 [] None flag;
    MkTask "wait" "wait_flag" 0 CUBE MATRIX 1 [] None flag;
    MkTask "mma" "mma" 0 CUBE MATRIX 5 [] None [("memory_dependencies", VTuple [VStr "load"])] ].

Lemma validated_edges_covered_witness :
  validate_memory_synchronization (MkKernel "k" "A2" [MkCore 0 fenced_tasks] [] []) "error"
    "memory_dependencies" = Ok [] ∧
  edge_covered (index_core fenced_tasks) 3
    (MkTask "mma" "mma" 0 CUBE MATRIX 5 [] None [("memory_dependencies", VTuple [VStr "load"])])
    "load" = Ok true.
Proof.
  assert (validate_memory_synchronization (MkKernel "k" "A2" [MkCore 0 fenced_tasks] [] []) "error"
    "memory_dependencies" = Ok []) as H by (vm_compute; reflexivity).
  split; [exact H|].
  destruct (validated_edges_covered _ _ _ H) as [_ Hc]. apply (Hc (MkCore 0 fenced_tasks)).
  - apply list_elem_of_singleton. reflexivity.
  - split; [reflexivity|]. exists [VStr "load"]. split; [left; reflexivity|]. apply list_elem_of_singleton. reflexivity.
Defined.
