(* ===== verification/SyncClaims.v ===== *)
(** Guarantees of schedules under the flag and barrier model ([FlagBarrierSynchronizationModel]
    driven by [DiscreteEventScheduler]). *)

From S2P Require Import Prelude PyDict PySort PyStr Errors Values Program Config Trace SyncOps.
From S2P Require Import SyncReset SyncModel SyncLaws Scheduler Schedule Progress SyncCredits.
From S2P Require Import SyncRun SyncFence Hazard SyncValidator.
Local Open Scope string_scope.
Local Open Scope Z_scope.
Local Open Scope list_scope.

(** A run of the scheduler with the flag and barrier model. *)
Definition flag_schedule (sync : sync_cfg) (config : SimulatorConfig)
    (set_order : gset string → list string) (clock : nat → Q) (fuel : nat) (p : KernelProgram)
    : option (result (list ExecutionRecord)) :=
  @schedule _ (FlagBarrierSynchronizationModel sync) config set_order clock fuel p.

(** The reachable states of such a run. *)
Definition flag_run (sync : sync_cfg) (tb : sync_tables) (ts : list Task) (hist : list event)
    (c : completed_map) (live : sync_live) : Prop :=
  @sched_run _ (FlagBarrierSynchronizationModel sync) ts (MkFB tb sync_live0) hist c (MkFB tb live).

(** A draining barrier: [barrier_all], [pipe_barrier] of all pipes, or [sync_all]. *)
Definition drains (t : Task) : bool :=
  mem_str (op_name t) BARRIER_ALL || mem_str (op_name t) SYNC_ALL ||
  (mem_str (op_name t) PIPE_BARRIER && mem_str (target_pipe t) ["all"]).

Lemma drains_names t :
  drains t = true →
  is_barrier t = true ∧ mem_str (op_name t) WAIT_LOCAL = false ∧
  mem_str (op_name t) WAIT_CROSS = false ∧ is_lane_fence t = true.
Proof.
  unfold drains, is_barrier, is_lane_fence. intros H.
  assert (op_name t ∈ BARRIER_ALL ++ SYNC_ALL ++ PIPE_BARRIER) as Hin.
  { rewrite !elem_of_app, <- !mem_str_true.
    destruct (mem_str _ BARRIER_ALL), (mem_str _ SYNC_ALL), (mem_str _ PIPE_BARRIER); auto. }
  apply list_elem_of_In in Hin. cbn in Hin.
  repeat (destruct Hin as [Heq|Hin];
    [rewrite <- Heq in *; revert H; destruct (mem_str (target_pipe t) ["all"]); vm_compute; auto|]).
  done.
Qed.

Lemma drains_tails t :
  drains t = true →
  mem_str (op_name t) BARRIER_ALL = true ∨
  (mem_str (op_name t) BARRIER_ALL = false ∧ mem_str (op_name t) PIPE_BARRIER = true ∧
   mem_str (target_pipe t) ["all"] = true) ∨
  (mem_str (op_name t) BARRIER_ALL = false ∧ mem_str (op_name t) PIPE_BARRIER = false ∧
   mem_str (op_name t) SYNC_ALL = true).
Proof.
  unfold drains. intros H.
  destruct (mem_str (op_name t) BARRIER_ALL) eqn:Eb; [by left|]. right. cbn [orb] in H.
  destruct (mem_str (op_name t) SYNC_ALL) eqn:Es.
  - right. split; [done|]. split; [|done]. apply mem_str_true, list_elem_of_In in Es. cbn in Es.
    destruct Es as [<-|[<-|[]]]; vm_compute; done.
  - left. cbn [orb] in H. by apply andb_true_iff in H.
Qed.

Section facts.
Context (sync : sync_cfg) (config : SimulatorConfig).
Context (set_order : gset string → list string) (clock : nat → Q).

(** What a finished run provides. *)
Record finished (p : KernelProgram) (tb : sync_tables) (rs : list ExecutionRecord)
    (hist : list event) (c : completed_map) : Prop := {
  fi_facts : run_facts (tasks p) hist c;
  fi_tasks : hist.*1 ≡ₚ tasks p;
  fi_records : operation_records rs ≡ₚ hist.*2;
  fi_events : ∀ h1 t r h2, hist = h1 ++ (t, r) :: h2 → event_ready tb c h1 t r;
}.

Lemma flag_schedule_run fuel p rs :
  program_wf p → flag_schedule sync config set_order clock fuel p = Some (Ok rs) →
  ∃ tb hist c live, reset p = Ok tb ∧ flag_run sync tb (tasks p) hist c live ∧
    hist.*1 ≡ₚ tasks p ∧ operation_records rs ≡ₚ hist.*2.
Proof.
  intros Hwf H.
  destruct (schedule_run config set_order clock fuel p rs (wf_unique _ Hwf) H)
    as (st0 & hist & c & st & Hreset & Hrun & Hts & Hrs & _).
  cbn [sm_reset FlagBarrierSynchronizationModel] in Hreset.
  apply outcome_bind_ok in Hreset as (tb & Htb & Hst). injection Hst as <-.
  pose proof (sf_tables _ _ _ _ _ (flag_barrier_facts sync tb (tasks p) hist c st Hrun)) as Heq.
  destruct st as [tb' live]. cbn in Heq. subst tb'. by exists tb, hist, c, live.
Qed.

(** A returned schedule [rs] of [p], its run and its records: [hist] lists the tasks with their
    records in the order in which the scheduler placed them, [c] finds a record by its task. *)
Record scheduled (p : KernelProgram) (rs : list ExecutionRecord) (tb : sync_tables) (hist : list event)
    (c : completed_map) (live : sync_live) : Prop := {
  sd_reset : reset p = Ok tb;
  sd_run : flag_run sync tb (tasks p) hist c live;
  sd_valid : valid_schedule (tasks p) rs c;
  sd_tasks : hist.*1 ≡ₚ tasks p;
  sd_records : operation_records rs ≡ₚ hist.*2;
  sd_record_of : ∀ t r, (t, r) ∈ hist → record_of t r ∧ c !! task_id t = Some r;
}.

Lemma flag_schedule_scheduled fuel p rs :
  program_wf p → flag_schedule sync config set_order clock fuel p = Some (Ok rs) →
  ∃ tb hist c live, scheduled p rs tb hist c live.
Proof.
  intros Hwf H. destruct (flag_schedule_run fuel p rs Hwf H) as (tb & hist & c & live & Htb & Hrun & Hts & Hrs).
  exists tb, hist, c, live.
  pose proof (@sched_run_facts _ (FlagBarrierSynchronizationModel sync) _ _ _ _ _ Hrun) as Hf.
  split; try done.
  - eapply facts_valid; [apply Hwf|done..].
  - intros t r Hin. split; [by apply (rf_tasks _ _ _ Hf) in Hin as [_ ?]|].
    apply (rf_completed _ _ _ Hf). eauto.
Qed.

Lemma flag_schedule_finished fuel p rs :
  program_wf p → flag_schedule sync config set_order clock fuel p = Some (Ok rs) →
  ∃ tb hist c, reset p = Ok tb ∧ finished p tb rs hist c.
Proof.
  intros Hwf H. destruct (flag_schedule_run fuel p rs Hwf H) as (tb & hist & c & live & Htb & Hrun & ? & ?).
  exists tb, hist, c. split; [done|].
  split; [exact (@sched_run_facts _ (FlagBarrierSynchronizationModel sync) _ _ _ _ _ Hrun)|done|done|].
  apply (sf_events _ _ _ _ _ (flag_barrier_facts sync tb (tasks p) hist c _ Hrun)).
Qed.

Lemma finished_event p tb rs hist c t r :
  NoDup (task_id <$> tasks p) → finished p tb rs hist c → t ∈ tasks p → c !! task_id t = Some r →
  ∃ h1, event_ready tb c h1 t r ∧ h1 ⊆ hist ∧ record_of t r.
Proof.
  intros Hnd [[Hc _ Ht _] _ _ He] Hin Hr. apply Hc in Hr as (u & Hu & Heq).
  destruct (Ht _ _ Hu) as [Hu' Hrec].
  assert (u = t) as -> by (by eapply (task_of_id (tasks p))).
  apply list_elem_of_split in Hu as (h1 & h2 & ->). exists h1.
  split; [by apply (He h1 t r h2)|]. split; [set_solver|done].
Qed.

Lemma ordering_ids_fence p tb pre b post k :
  NoDup (task_id <$> tasks p) → reset p = Ok tb → tasks p = pre ++ b :: post →
  last (filter (λ a, is_lane_fence a = true ∧ lane_key a = lane_key b) pre) = Some k →
  task_id k ∈ ordering_ids tb b.
Proof.
  intros Hnd Hr Hts Hl. destruct (reset_entries p tb pre b post Hnd Hr Hts) as (acc & Hacc & _ & Ho & _).
  unfold ordering_ids. rewrite Ho. pose proof (fence_last pre acc b Hacc) as Hf. rewrite Hl in Hf.
  unfold ordering_of. rewrite Hf. cbn [option_list app some_if_nonempty from_option fmap option_fmap option_map].
  unfold id. apply elem_of_fromkeys. by left.
Qed.

Definition start_in (c : completed_map) (t : Task) : Z := from_option start_cycle 0 (c !! task_id t).
Definition finish_in (c : completed_map) (t : Task) : Z := from_option end_cycle 0 (c !! task_id t).

Lemma finished_lookup p tb rs hist c t :
  finished p tb rs hist c → t ∈ tasks p → ∃ r, c !! task_id t = Some r.
Proof.
  intros [[Hc _ _ _] Hts _ _] Hin. rewrite <- Hts in Hin.
  apply list_elem_of_fmap in Hin as ([u r] & -> & Hin). exists r. apply Hc. eauto.
Qed.

(** Every task of a lane starts after each earlier fence of the lane has ended. *)
Lemma fence_orders p tb rs hist c pre b post a ra rb :
  program_wf p → reset p = Ok tb → finished p tb rs hist c →
  tasks p = pre ++ b :: post → a ∈ pre → is_lane_fence a = true → lane_key a = lane_key b →
  c !! task_id a = Some ra → c !! task_id b = Some rb → end_cycle ra <= start_cycle rb.
Proof.
  intros Hwf Hr Hfin Hts Ha Hf Hl Hra Hrb. pose proof (wf_unique _ Hwf) as Hnd.
  cut (finish_in c a <= start_in c b); [unfold finish_in, start_in; by rewrite Hra, Hrb|].
  apply (last_chain (tasks p) (λ t, is_lane_fence t = true) (start_in c) (finish_in c))
    with (pre := pre) (post := post); [| |done|done|done|done].
  - intros t Ht. destruct (finished_lookup _ _ _ _ _ t Hfin Ht) as [r Hr'].
    destruct (finished_event _ _ _ _ _ t r Hnd Hfin Ht Hr') as (_ & _ & _ & Hrec).
    unfold start_in, finish_in. rewrite Hr'. cbn. by apply Hrec.
  - intros pre' b' post' k Hts' Hlast.
    assert (b' ∈ tasks p) as Hb' by (rewrite Hts'; set_solver).
    destruct (finished_lookup _ _ _ _ _ b' Hfin Hb') as [r Hr'].
    destruct (finished_event _ _ _ _ _ b' r Hnd Hfin Hb' Hr') as (h1 & He & _).
    destruct (er_ordering _ _ _ _ _ He (task_id k)) as (rk & Hrk & Hle);
      [by eapply ordering_ids_fence|].
    unfold start_in, finish_in. by rewrite Hrk, Hr'.
Qed.

(** A draining barrier off the control lane starts after every earlier task of its lane. *)
Lemma barrier_drains p tb rs hist c pre b post a ra rb :
  program_wf p → reset p = Ok tb → finished p tb rs hist c →
  tasks p = pre ++ b :: post → drains b = true → lane b ≠ CONTROL →
  (∀ x, x ∈ pre → lane_key x = lane_key b → mem_str (op_name x) SYNC_ALL = false) →
  a ∈ pre → lane_key a = lane_key b →
  c !! task_id a = Some ra → c !! task_id b = Some rb → end_cycle ra <= start_cycle rb.
Proof.
  intros Hwf Hr Hfin Hts Hd Hctl Hno Ha Hl Hra Hrb. pose proof (wf_unique _ Hwf) as Hnd.
  assert (b ∈ tasks p) as Hb by (rewrite Hts; set_solver).
  destruct (finished_event _ _ _ _ _ b rb Hnd Hfin Hb Hrb) as (h1 & He & _ & _).
  destruct (reset_entries p tb pre b post Hnd Hr Hts) as (acc & Hacc & Hba & _ & Hrel).
  rewrite (pending_none pre acc b Hacc Hno) in Hrel.
  destruct (drains_names b Hd) as (Hbar & Hw1 & Hw2 & _).
  pose proof (er_barrier _ _ _ _ _ He Hrel Hbar Hw1 Hw2) as Hended.
  destruct (lane_tail_elem pre acc a b Hacc Ha Hl) as (k & l1 & l2 & Hpre & Hkey & Hor & Hk).
  assert (task_id k ∈ barrier_ids tb b) as Hkin.
  { unfold barrier_ids. rewrite Hba. unfold barrier_of, full_barrier_tails.
    assert (mem_str (lane_value (lane b)) ["control"] = false) as -> by (by destruct (lane b)).
    destruct (drains_tails b Hd) as [->|[(-> & -> & ->)|(-> & -> & ->)]]; cbn [from_option];
      by apply list_elem_of_fmap_2. }
  destruct (Hended _ Hkin) as (rk & Hrk & Hle).
  destruct Hor as [->|Hin]; [by simplify_eq|].
  assert (end_cycle ra <= start_cycle rk).
  { destruct Hfin as [[Hc Hndh Ht Hresp] _ _ _].
    assert (∀ t r, t ∈ tasks p → c !! task_id t = Some r → (t, r) ∈ hist) as Hback.
    { intros t r Hin' (u & Hu & Heq)%Hc. destruct (Ht _ _ Hu) as [Hu' _].
      by rewrite <- (task_of_id _ u t Hnd Hu' Hin' Heq). }
    eapply (resource_order (tasks p) hist c l1 k (l2 ++ b :: post) a); try done.
    - rewrite Hts, Hpre, <- app_assoc. done.
    - apply Hback; [rewrite Hts, Hpre; set_solver|done].
    - apply Hback; [rewrite Hts, Hpre; set_solver|done]. }
  destruct (finished_event _ _ _ _ _ k rk Hnd Hfin ltac:(rewrite Hts, Hpre; set_solver) Hrk)
    as (_ & _ & _ & Hrec).
  destruct Hrec as (_ & _ & _ & _ & _ & _ & Hpos & _). lia.
Qed.
End facts.

Lemma produced_elem tb k hist i cr :
  produced tb k hist !! i = Some cr →
  ∃ u ru, (u, ru) ∈ hist ∧ sets_key tb k u = true ∧ cr = (end_cycle ru, task_id u).
Proof.
  intros H%list_elem_of_lookup_2. unfold produced in H.
  apply list_elem_of_omap in H as ([u ru] & Hin & Heq). cbn in Heq.
  destruct (sets_key tb k u) eqn:E; [|done]. simplify_eq. eauto.
Qed.


(** C10. A wait starts only after the set it is matched with.  A returned schedule comes from a
    run whose history lists every task with its own record, the one the schedule has for it, in
    the order of placement; in it, the [n]-th wait placed on a channel (by a task with no
    earlier [sync_all] on its lane) starts no earlier than the end of the [n]-th set of that
    channel, which was placed before it. *)
Theorem wait_starts_after_matching_set sync config set_order clock fuel p rs :
  program_wf p → flag_schedule sync config set_order clock fuel p = Some (Ok rs) →
  ∃ tb hist c live, scheduled sync p rs tb hist c live ∧
    ∀ h1 w rw h2 pre post k,
      hist = h1 ++ (w, rw) :: h2 → tasks p = pre ++ w :: post → waits_key tb k w = true →
      (∀ x, x ∈ pre → lane_key x = lane_key w → mem_str (op_name x) SYNC_ALL = false) →
      ∃ u ru, (u, ru) ∈ h1 ∧ sets_key tb k u = true ∧
        produced tb k h1 !! consumed tb k h1 = Some (end_cycle ru, task_id u) ∧
        end_cycle ru <= start_cycle rw.
Proof.
  intros Hwf H. destruct (flag_schedule_scheduled _ _ _ _ _ _ _ Hwf H) as (tb & hist & c & live & Hs).
  exists tb, hist, c, live. split; [exact Hs|].
  intros h1 w rw h2 pre post k Hh Hts Hw Hno.
  destruct (reset_entries p tb pre w post (wf_unique _ Hwf) (sd_reset _ _ _ _ _ _ _ Hs) Hts) as (acc & Hacc & _ & _ & Hrel).
  rewrite (pending_none pre acc w Hacc Hno) in Hrel.
  pose proof (sf_events _ _ _ _ _ (flag_barrier_facts sync tb (tasks p) hist c _ (sd_run _ _ _ _ _ _ _ Hs))) as He.
  destruct (er_credit _ _ _ _ _ (He h1 w rw h2 Hh) Hrel k Hw) as (cr & Hcr & Hle).
  destruct (produced_elem _ _ _ _ _ Hcr) as (u & ru & Hin & Hs' & ->). exists u, ru. done.
Qed.

(** C11. Barriers are fences, up to the first [sync_all] of their lane: in a returned schedule,
    a [barrier_all], [pipe_barrier(all)] or [sync_all] of a cube or vector lane, with no
    [sync_all] of that lane before it in the program, starts after every earlier task of its
    lane has ended, on all pipes, and every later task of the lane starts after it has ended. *)
Theorem full_barrier_fences sync config set_order clock fuel p rs :
  program_wf p → flag_schedule sync config set_order clock fuel p = Some (Ok rs) →
  ∃ c, valid_schedule (tasks p) rs c ∧
    ∀ pre b post rb, tasks p = pre ++ b :: post → drains b = true → lane b ≠ CONTROL →
      c !! task_id b = Some rb →
      (∀ x, x ∈ pre → lane_key x = lane_key b → mem_str (op_name x) SYNC_ALL = false) →
      (∀ a ra, a ∈ pre → lane_key a = lane_key b → c !! task_id a = Some ra →
         end_cycle ra <= start_cycle rb) ∧
      (∀ a ra, a ∈ post → lane_key a = lane_key b → c !! task_id a = Some ra →
         end_cycle rb <= start_cycle ra).
Proof.
  intros Hwf H. destruct (flag_schedule_finished _ _ _ _ _ _ _ Hwf H) as (tb & hist & c & Hr & Hfin).
  exists c. split; [eapply facts_valid; [apply Hwf|apply Hfin..]|].
  intros pre b post rb Hts Hd Hctl Hrb Hno. split.
  - intros a ra Ha Hl Hra. by eapply barrier_drains.
  - intros a ra (m1 & m2 & ->)%list_elem_of_split Hl Hra.
    eapply (fence_orders p tb rs hist c (pre ++ b :: m1) a m2 b); try done.
    + by rewrite Hts, <- app_assoc.
    + set_solver.
    + by apply drains_names.
Qed.

(** C12. [sync_all] is a rendezvous: a task that follows a [sync_all] of its lane (the last one
    before it) starts only after a [sync_all] of the same scope and phase has ended for every
    participant of that scope. *)
Theorem sync_all_rendezvous sync config set_order clock fuel p rs :
  program_wf p → flag_schedule sync config set_order clock fuel p = Some (Ok rs) →
  ∃ tb c, reset p = Ok tb ∧ valid_schedule (tasks p) rs c ∧
    ∀ pre s0 mid t post rt, tasks p = pre ++ s0 :: mid ++ t :: post →
      mem_str (op_name s0) SYNC_ALL = true → lane_key s0 = lane_key t →
      (∀ a, a ∈ mid → lane_key a = lane_key t → mem_str (op_name a) SYNC_ALL = false) →
      c !! task_id t = Some rt →
      ∃ key ps, dget (sync_all_task_phase tb) (task_id s0) = Some key ∧
        sync_all_participants (core_ids tb) key.1 = Ok ps ∧
        ∀ q, q ∈ ps → ∃ u ru, u ∈ tasks p ∧ arrives tb u key q ∧ c !! task_id u = Some ru ∧
          end_cycle ru <= start_cycle rt.
Proof.
  intros Hwf H. destruct (flag_schedule_finished _ _ _ _ _ _ _ Hwf H) as (tb & hist & c & Hr & Hfin).
  exists tb, c. split; [done|]. split; [eapply facts_valid; [apply Hwf|apply Hfin..]|].
  intros pre s0 mid t post rt Hts Hop Hl Hno Hrt. pose proof (wf_unique _ Hwf) as Hnd.
  destruct (sync_all_release_key p tb pre s0 mid t post Hnd Hr Hts Hop Hl Hno) as (key & Hrel & Hph).
  destruct (finished_event _ _ _ _ _ t rt Hnd Hfin ltac:(rewrite Hts; set_solver) Hrt)
    as (h1 & He & Hsub & _).
  destruct (er_release _ _ _ _ _ He key Hrel) as (ps & Hps & Hall).
  exists key, ps. split; [done|]. split; [by apply (reset_phases p tb Hr)|].
  intros q Hq. destruct (Hall q Hq) as (u & ru & Hin & Har & Hle). exists u, ru.
  assert ((u, ru) ∈ hist) as Hin' by set_solver.
  destruct Hfin as [[Hc _ Ht _] _ _ _]. split; [by apply Ht in Hin' as [? _]|].
  split; [done|]. split; [|done]. apply Hc. eauto.
Qed.

(** ** Concrete runs *)

Definition run_flags (p : KernelProgram) : list ExecutionRecord :=
  match flag_schedule default_sync_cfg unlimited_config elements still_clock 8 p with
  | Some (Ok rs) => operation_records rs
  | _ => []
  end.

Definition flag_meta (src dst : string) (id : Z) : dict string pyval :=
  [("src_pipe", VStr src); ("dst_pipe", VStr dst); ("flag_id", VInt id)].

(** A load signals the matrix pipe; a barrier drains the lane before the store. *)
Definition pipeline_program : KernelProgram := mk_kernel
  [ mk_task "load" "copy_gm_to_l1" CUBE MTE2 10 [] [];
    mk_task "set" "set_flag" CUBE MTE2 1 [] (flag_meta "mte2" "m" 0);
    mk_task "wait" "wait_flag" CUBE MATRIX 1 [] (flag_meta "mte2" "m" 0);
    mk_task "mma" "mma" CUBE MATRIX 5 [] [];
    mk_task "bar" "barrier_all" CUBE SCALAR 1 [] [];
    mk_task "store" "copy_l0c_to_gm" CUBE FIX 3 [] [] ].

Lemma pipeline_wf : program_wf pipeline_program.
Proof. apply mk_kernel_wf. vm_compute. reflexivity. Qed.

Definition pipeline_schedule : list ExecutionRecord :=
  match flag_schedule default_sync_cfg unlimited_config elements still_clock 8 pipeline_program with
  | Some (Ok rs) => rs
  | _ => []
  end.

Lemma pipeline_schedule_ok :
  flag_schedule default_sync_cfg unlimited_config elements still_clock 8 pipeline_program =
  Some (Ok pipeline_schedule).
Proof. vm_compute. reflexivity. Qed.

(** The wait, and the only set of its channel before it. *)
Lemma wait_starts_after_matching_set_witness :
  intervals_of (operation_records pipeline_schedule) =
    [("load", 0, 10); ("set", 10, 11); ("wait", 11, 12); ("mma", 12, 17); ("bar", 17, 18);
     ("store", 18, 21)] ∧
  ∃ tb hist c live, scheduled default_sync_cfg pipeline_program pipeline_schedule tb hist c live.
Proof.
  split; [vm_compute; reflexivity|].
  destruct (wait_starts_after_matching_set default_sync_cfg unlimited_config elements still_clock 8
    pipeline_program pipeline_schedule pipeline_wf pipeline_schedule_ok) as (tb & hist & c & live & H & _).
  exact (ex_intro _ tb (ex_intro _ hist (ex_intro _ c (ex_intro _ live H)))).
Defined.

Lemma full_barrier_fences_witness : ∃ c, valid_schedule (tasks pipeline_program) pipeline_schedule c.
Proof.
  destruct (full_barrier_fences default_sync_cfg unlimited_config elements still_clock 8
    pipeline_program pipeline_schedule pipeline_wf pipeline_schedule_ok) as (c & Hc & _).
  exact (ex_intro _ c Hc).
Defined.


Definition core_task (core : Z) (id op : string) (l : Lane) (p : Pipe) (dur : Z) : Task :=
  MkTask id op core l p dur [] None [].
Definition two_cores (c0 c1 : list Task) : KernelProgram :=
  MkKernel "k" "A2" [MkCore 0 c0; MkCore 1 c1] [] [].

Lemma two_cores_wf c0 c1 :
  kernel_program_init "k" "A2" [MkCore 0 c0; MkCore 1 c1] [] [] = Ok (two_cores c0 c1) →
  program_wf (two_cores c0 c1).
Proof. intros H. by apply (kernel_init_wf "k" "A2" [MkCore 0 c0; MkCore 1 c1] [] []). Qed.

(** Core 0 waits at its [sync_all] for the slower core 1. *)
Definition rendezvous_program : KernelProgram := two_cores
  [ core_task 0 "c0-load" "copy" CUBE MTE2 5; core_task 0 "c0-sync" "sync_all" CUBE SCALAR 1;
    core_task 0 "c0-next" "copy" CUBE MTE2 2 ]
  [ core_task 1 "c1-load" "copy" CUBE MTE2 40; core_task 1 "c1-sync" "sync_all" CUBE SCALAR 1;
    core_task 1 "c1-next" "copy" CUBE MTE2 2 ].

Lemma rendezvous_wf : program_wf rendezvous_program.
Proof. apply two_cores_wf. vm_compute. reflexivity. Qed.

Definition rendezvous_schedule : list ExecutionRecord :=
  match flag_schedule default_sync_cfg unlimited_config elements still_clock 8 rendezvous_program with
  | Some (Ok rs) => rs
  | _ => []
  end.

Lemma rendezvous_schedule_ok :
  flag_schedule default_sync_cfg unlimited_config elements still_clock 8 rendezvous_program =
  Some (Ok rendezvous_schedule).
Proof. vm_compute. reflexivity. Qed.

Lemma sync_all_rendezvous_witness :
  intervals_of (operation_records rendezvous_schedule) =
    [("c0-load", 0, 5); ("c1-load", 0, 40); ("c0-sync", 5, 6); ("c1-sync", 40, 41);
     ("c0-next", 41, 43); ("c1-next", 41, 43)] ∧
  ∃ tb c, reset rendezvous_program = Ok tb ∧
    valid_schedule (tasks rendezvous_program) rendezvous_schedule c.
Proof.
  split; [vm_compute; reflexivity|].
  destruct (sync_all_rendezvous default_sync_cfg unlimited_config elements still_clock 8
    rendezvous_program rendezvous_schedule rendezvous_wf rendezvous_schedule_ok)
    as (tb & c & H1 & H2 & _).
  exact (ex_intro _ tb (ex_intro _ c (conj H1 H2))).
Defined.

(** A barrier and a flag wait, and both behind a [sync_all]. *)
Definition draining_barrier : list Task :=
  [ mk_task "load" "copy_gm_to_l1" CUBE MTE2 100 [] [];
    mk_task "bar" "barrier_all" CUBE SCALAR 1 [] [];
    mk_task "mma" "mma" CUBE MATRIX 5 [] [] ].
Definition flag_wait : list Task :=
  [ mk_task "load" "copy_gm_to_l1" CUBE MTE2 100 [] [];
    mk_task "set" "set_flag" CUBE MTE2 1 [] (flag_meta "mte2" "m" 0);
    mk_task "wait" "wait_flag" CUBE MATRIX 1 [] (flag_meta "mte2" "m" 0);
    mk_task "mma" "mma" CUBE MATRIX 5 [] [] ].
Definition after_sync_all (ts : list Task) : KernelProgram := mk_kernel (mk_task "sync" "sync_all" CUBE SCALAR 1 [] [] :: ts).

(** [barrier_all] starts at cycle 1 although the lane's load ends at 101, and [wait_flag] starts
    at cycle 1 although the flag it waits for is set at 102; without the [sync_all] both wait. *)
Example sync_all_overrides_runs :
  intervals_of (run_flags (after_sync_all draining_barrier)) =
    [("sync", 0, 1); ("bar", 1, 2); ("load", 1, 101); ("mma", 2, 7)] ∧
  intervals_of (run_flags (mk_kernel draining_barrier)) = [("load", 0, 100); ("bar", 100, 101); ("mma", 101, 106)] ∧
  intervals_of (run_flags (after_sync_all flag_wait)) =
    [("sync", 0, 1); ("wait", 1, 2); ("load", 1, 101); ("mma", 2, 7); ("set", 101, 102)] ∧
  intervals_of (run_flags (mk_kernel flag_wait)) =
    [("load", 0, 100); ("set", 100, 101); ("wait", 101, 102); ("mma", 102, 107)].
Proof. vm_compute. repeat split. Qed.

(** The ends of what holds back a task behind a [sync_all], but for the arrivals: its execution
    dependencies, its FIFO predecessor, and the tasks that order it (the last barriers of its
    lane and of its pipe, and the tail of the source pipe of a set). *)
Definition released_ends (ts : list Task) (tb : sync_tables) (c : completed_map) (t : Task) : list Z :=
  ends_of c (execution_dependencies t ++ option_list (fifo_predecessors ts !! task_id t) ++ ordering_ids tb t).

(** The decision of [evaluate] alone fixes the start of a task behind a [sync_all]. *)
Lemma released_start sync tb ts hist c live key h1 t r h2 :
  flag_run sync tb ts hist c live → hist = h1 ++ (t, r) :: h2 →
  sync_all_release_dependencies tb !! task_id t = Some key →
  ∃ u ru q, (u, ru) ∈ h1 ∧ arrives tb u key q ∧
    start_cycle r = Z.max (max0 (released_ends ts tb c t)) (end_cycle ru).
Proof.
  intros Hrun Hh Hkey.
  destruct (@sched_run_split _ (FlagBarrierSynchronizationModel sync) ts _ hist c _ h1 t r h2 Hrun Hh)
    as (c1 & st1 & d & cycle & st2 & Hrun1 & (_ & _ & Hreq) & Hev & Hd & Hstart & Hc1).
  pose proof (flag_barrier_facts sync tb ts h1 c1 st1 Hrun1) as [Htb _ _ _ _ Ha Hu _].
  cbn [sm_evaluate FlagBarrierSynchronizationModel] in Hev. unfold on_live in Hev.
  destruct (evaluate sync (fb_tables st1) t c1 (fb_live st1)) as [live1 ans] eqn:Ee.
  injection Hev as _ ->. rewrite Htb in Ee.
  destruct (evaluate_released sync tb t c1 _ _ d cycle key Ee Hd Hkey) as (Hm & q & cr & Hcr & Hz).
  destruct (Ha key q cr) as (u & ru & Hin & Harr & ->).
  { unfold arrival. apply elem_of_dget; [apply Hu|exact Hcr]. }
  exists u, ru, q. split; [exact Hin|]. split; [exact Harr|].
  unfold released_ends. rewrite (ends_of_mono c1 c); [|exact Hc1|].
  - rewrite Hstart. unfold earliest, tm_start, tm_ready, timing_of.
    cbn [dependency_cycle resource_cycle synchronization_cycle]. rewrite Hd. cbn [default from_option].
    rewrite Hz. cbn [fst]. unfold ends_of. rewrite !omap_app, !max0_app. unfold id. lia.
  - intros id [Hid|[Hid|Hid]%elem_of_app]%elem_of_app.
    + apply Hreq, elem_of_required. by left.
    + apply Hreq, elem_of_required. right. destruct (fifo_predecessors ts !! task_id t); set_solver.
    + by apply (proj1 (missing_of_nil c1 _) Hm).
Qed.

(** C40. Behind a [sync_all] of its lane no barrier and no flag wait synchronizes: in a returned
    schedule a task that follows a [sync_all] of its lane (the last one before it) starts
    exactly when its dependencies, its FIFO predecessor, the barriers that order it and one
    arrival of the released phase have ended - whatever its operation is.  A [barrier_all]
    there drains no other pipe, and a [wait_flag] does not wait for the end of its set. *)
Theorem sync_all_disables_later_synchronization sync config set_order clock fuel p rs :
  program_wf p → flag_schedule sync config set_order clock fuel p = Some (Ok rs) →
  ∃ tb hist c live, scheduled sync p rs tb hist c live ∧
    ∀ pre s0 mid t post h1 rt h2, tasks p = pre ++ s0 :: mid ++ t :: post →
      mem_str (op_name s0) SYNC_ALL = true → lane_key s0 = lane_key t →
      (∀ a, a ∈ mid → lane_key a = lane_key t → mem_str (op_name a) SYNC_ALL = false) →
      hist = h1 ++ (t, rt) :: h2 →
      ∃ key u ru q, dget (sync_all_task_phase tb) (task_id s0) = Some key ∧
        (u, ru) ∈ h1 ∧ arrives tb u key q ∧
        start_cycle rt = Z.max (max0 (released_ends (tasks p) tb c t)) (end_cycle ru).
Proof.
  intros Hwf H. destruct (flag_schedule_scheduled _ _ _ _ _ _ _ Hwf H) as (tb & hist & c & live & Hs).
  exists tb, hist, c, live. split; [exact Hs|].
  intros pre s0 mid t post h1 rt h2 Hts Hop Hl Hno Hh.
  destruct (sync_all_release_key p tb pre s0 mid t post (wf_unique _ Hwf) (sd_reset _ _ _ _ _ _ _ Hs) Hts Hop Hl Hno)
    as (key & Hrel & Hph).
  destruct (released_start sync tb (tasks p) hist c live key h1 t rt h2 (sd_run _ _ _ _ _ _ _ Hs) Hh Hrel)
    as (u & ru & q & Hin & Harr & Hstart).
  by exists key, u, ru, q.
Qed.

Lemma after_sync_all_wf : program_wf (after_sync_all draining_barrier).
Proof. apply mk_kernel_wf. vm_compute. reflexivity. Qed.
Definition overridden_schedule : list ExecutionRecord :=
  match flag_schedule default_sync_cfg unlimited_config elements still_clock 8 (after_sync_all draining_barrier) with
  | Some (Ok rs) => rs
  | _ => []
  end.
Lemma overridden_schedule_ok :
  flag_schedule default_sync_cfg unlimited_config elements still_clock 8 (after_sync_all draining_barrier) =
  Some (Ok overridden_schedule).
Proof. vm_compute. reflexivity. Qed.

Lemma sync_all_disables_later_synchronization_witness :
  intervals_of (operation_records overridden_schedule) =
    [("sync", 0, 1); ("bar", 1, 2); ("load", 1, 101); ("mma", 2, 7)] ∧
  ∃ tb hist c live,
    scheduled default_sync_cfg (after_sync_all draining_barrier) overridden_schedule tb hist c live.
Proof.
  split; [vm_compute; reflexivity|].
  destruct (sync_all_disables_later_synchronization default_sync_cfg unlimited_config elements still_clock 8
    _ overridden_schedule after_sync_all_wf overridden_schedule_ok) as (tb & hist & c & live & H & _).
  exact (ex_intro _ tb (ex_intro _ hist (ex_intro _ c (ex_intro _ live H)))).
Defined.

(** Every core runs an unscoped [sync_all], lowered to its control lane. *)
Definition mix_sync_program : KernelProgram := two_cores
  [ core_task 0 "c0-load" "copy" CUBE MTE2 50; core_task 0 "c0-sync" "sync_all" CONTROL SCALAR 1;
    core_task 0 "c0-mma" "mma" CUBE MATRIX 5 ]
  [ core_task 1 "c1-load" "copy" CUBE MTE2 70; core_task 1 "c1-sync" "sync_all" CONTROL SCALAR 1;
    core_task 1 "c1-mma" "mma" CUBE MATRIX 5 ].

(** An unscoped [sync_all] on the control lane arrives for the cube and vector lanes of its
    core, but holds back none of them: the arrivals are recorded for all three lanes, while the
    cube tasks on either side of it are neither drained nor released by it. *)
Theorem mix_sync_all_does_not_gate_lanes :
  (∀ t, t ∈ tasks mix_sync_program → mem_str (op_name t) SYNC_ALL = true →
     sync_all_task_participants t "mix" =
       [(core_id t, "cube"); (core_id t, "vector0"); (core_id t, "vector1")]) ∧
  intervals_of (run_flags mix_sync_program) =
    [("c0-sync", 0, 1); ("c1-sync", 0, 1); ("c0-mma", 0, 5); ("c1-mma", 0, 5);
     ("c0-load", 0, 50); ("c1-load", 0, 70)].
Proof.
  split; [|vm_compute; reflexivity]. intros t Ht Hop. apply list_elem_of_In in Ht. cbn in Ht.
  repeat (destruct Ht as [<-|Ht]; [vm_compute in Hop |- *; done|]). done.
Qed.

(** A dependent pair of tasks, fenced only by a barrier of another lane, or by a flag with an
    older credit outstanding. *)
Definition memory_edge : dict string pyval := [("memory_dependencies", VTuple [VStr "load"])].
Definition foreign_barrier : KernelProgram := mk_kernel
  [ mk_task "load" "copy_gm_to_l1" CUBE MTE2 100 [] [];
    mk_task "bar" "barrier_all" VECTOR_0 SCALAR 1 [] [];
    mk_task "mma" "mma" CUBE MATRIX 5 ["load"] memory_edge ].
Definition stale_credit : KernelProgram := mk_kernel
  [ mk_task "set0" "set_flag" CUBE MTE2 1 [] (flag_meta "mte2" "m" 0);
    mk_task "load" "copy_gm_to_l1" CUBE MTE2 100 [] [];
    mk_task "set1" "set_flag" CUBE MTE2 1 [] (flag_meta "mte2" "m" 0);
    mk_task "wait0" "wait_flag" CUBE MATRIX 1 [] (flag_meta "mte2" "m" 0);
    mk_task "mma" "mma" CUBE MATRIX 5 ["load"] memory_edge;
    mk_task "wait1" "wait_flag" CUBE MATRIX 1 [] (flag_meta "mte2" "m" 0) ].

(** The static hazard check accepts memory edges that the schedule does not order.  A
    [barrier_all] of a vector lane counts as a fence for a cube-lane edge, although it drains
    only its own lane; and a set/wait pair counts even when the wait consumes an older credit
    of the same flag.  In both programs the check passes and the consumer [mma] starts before
    the producer [load] ends. *)
Theorem hazard_check_accepts_unordered_edges :
  validate_memory_synchronization foreign_barrier "error" "memory_dependencies" = Ok [] ∧
  intervals_of (run_flags foreign_barrier) = [("bar", 0, 1); ("mma", 0, 5); ("load", 0, 100)] ∧
  validate_memory_synchronization stale_credit "error" "memory_dependencies" = Ok [] ∧
  intervals_of (run_flags stale_credit) =
    [("set0", 0, 1); ("wait0", 1, 2); ("load", 1, 101); ("mma", 2, 7); ("set1", 101, 102);
     ("wait1", 102, 103)].
Proof. vm_compute. repeat split. Qed.
