(* ===== verification/Intervals.v ===== *)
(** Half-open integer intervals: the merge scan that [memory.py] ([_merged_range_size]) and
    [stats.py] ([_union_length]) share, and its meaning — the number of integers covered. *)

From Stdlib Require Import Sorting.Sorted.
From S2P Require Import Prelude PySort.
Local Open Scope Z_scope.
Local Open Scope list_scope.

Abbreviation interval := (Z * Z)%type.

(** Order of tuples [(start, end)]. *)
Definition interval_leb (x y : interval) : bool := pair_leb Z.eqb Z.leb Z.leb x y.

(** The loop over the ordered intervals; [(s, e)] is the interval being extended. *)
Fixpoint merge_scan (total s e : Z) (rest : list interval) : Z :=
  match rest with
  | [] => total + e - s
  | (s', e') :: rest =>
      if s' <=? e then merge_scan total s (Z.max e e') rest
      else merge_scan (total + (e - s)) s' e' rest
  end.

Definition union_size (l : list interval) : Z :=
  match py_sorted interval_leb l with
  | [] => 0
  | (s, e) :: rest => merge_scan 0 s e rest
  end.

(** ** Covered integers *)

Definition covers (i : interval) (z : Z) : Prop := i.1 <= z < i.2.
Definition covered (l : list interval) (z : Z) : Prop := Exists (λ i, covers i z) l.
#[export] Instance covers_dec i z : Decision (covers i z).
Proof. unfold covers. apply _. Defined.
#[export] Instance covered_dec l z : Decision (covered l z).
Proof. unfold covered. apply _. Defined.

(** How many integers of [[lo, hi)] satisfy [P]. *)
Definition count (P : Z → Prop) `{∀ z, Decision (P z)} (lo hi : Z) : Z :=
  Z.of_nat (length (filter P (seqZ lo (hi - lo)))).

Section count.
Context (P : Z → Prop) `{∀ z, Decision (P z)}.

Lemma count_ext (Q : Z → Prop) `{∀ z, Decision (Q z)} lo hi :
  (∀ z, lo <= z < hi → P z ↔ Q z) → count P lo hi = count Q lo hi.
Proof.
  intros HPQ. unfold count. do 2 f_equal.
  assert (∀ z, z ∈ seqZ lo (hi - lo) → P z ↔ Q z) as Hl.
  { intros z Hz%elem_of_seqZ. apply HPQ. lia. }
  revert Hl. generalize (seqZ lo (hi - lo)) as l. induction l as [|z l IH]; intros Hl; [done|].
  rewrite !filter_cons, IH by set_solver. specialize (Hl z ltac:(set_solver)).
  repeat case_decide; naive_solver.
Qed.

Lemma count_split lo mid hi : lo <= mid <= hi → count P lo hi = count P lo mid + count P mid hi.
Proof.
  intros Hm. unfold count.
  replace (hi - lo) with ((mid - lo) + (hi - mid)) by lia.
  rewrite seqZ_app by lia. rewrite filter_app, length_app.
  replace (lo + (mid - lo)) with mid by lia. lia.
Qed.

Lemma count_all lo hi : lo <= hi → (∀ z, lo <= z < hi → P z) → count P lo hi = hi - lo.
Proof.
  intros Hle HP. unfold count.
  assert (filter P (seqZ lo (hi - lo)) = seqZ lo (hi - lo)) as ->.
  { assert (∀ z, z ∈ seqZ lo (hi - lo) → P z) as Hl by (intros z ?%elem_of_seqZ; apply HP; lia).
    revert Hl. generalize (seqZ lo (hi - lo)) as l. induction l as [|z l IH]; intros Hl; [done|].
    rewrite filter_cons_True by set_solver. f_equal. apply IH. set_solver. }
  rewrite length_seqZ. lia.
Qed.

Lemma count_none lo hi : (∀ z, lo <= z < hi → ¬ P z) → count P lo hi = 0.
Proof.
  intros HP. unfold count. rewrite filter_none; [done|]. intros z ?%elem_of_seqZ. apply HP. lia.
Qed.
End count.

Lemma covered_cons i l z : covered (i :: l) z ↔ covers i z ∨ covered l z.
Proof. unfold covered. by rewrite Exists_cons. Qed.

(** Ordered intervals: starts ascend and every interval is well formed. *)
Definition ordered_from (s : Z) (l : list interval) : Prop :=
  StronglySorted (λ x y, x.1 <= y.1) l ∧ ∀ i, i ∈ l → s <= i.1 ∧ i.1 <= i.2.

Lemma ordered_from_tail s i l : ordered_from s (i :: l) → ordered_from i.1 l.
Proof.
  intros [Hs Hb]. apply StronglySorted_inv in Hs as [Hs Hf]. rewrite Forall_forall in Hf.
  split; [done|]. intros j Hj. split; [by apply Hf|]. apply (Hb j). set_solver.
Qed.

Lemma ordered_from_weaken s s' l : s' <= s → ordered_from s l → ordered_from s' l.
Proof. intros Hle [Hs Hb]. split; [done|]. intros i Hi. destruct (Hb i Hi). lia. Qed.

Lemma merge_scan_count l total s e hi :
  s <= e → ordered_from s l → e <= hi → (∀ i, i ∈ l → i.2 <= hi) →
  merge_scan total s e l = total + count (covered ((s, e) :: l)) s hi.
Proof.
  revert total s e; induction l as [|[s' e'] l IH]; intros total s e Hse Ho He Hhi; cbn [merge_scan].
  - rewrite (count_split _ s e hi) by lia. rewrite count_all, count_none; [lia| |lia|].
    + intros z Hz [Hc|Hc]%covered_cons; [unfold covers in Hc; cbn in Hc; lia|].
      by inversion Hc.
    + intros z Hz. apply covered_cons. left. unfold covers. cbn. lia.
  - pose proof Ho as [_ Hb]. destruct (Hb (s', e') ltac:(set_solver)) as [Hs' He']. cbn in Hs', He'.
    pose proof (Hhi (s', e') ltac:(set_solver)) as Hhi'. cbn in Hhi'.
    apply ordered_from_tail in Ho. cbn in Ho. destruct (Z.leb_spec s' e) as [Hle|Hgt].
    + rewrite IH; [|lia|by eapply ordered_from_weaken|lia|intros; apply Hhi; set_solver].
      f_equal. apply count_ext. intros z Hz. rewrite !covered_cons. unfold covers. cbn.
      intuition lia.
    + rewrite IH; [|lia|done|lia|intros; apply Hhi; set_solver].
      rewrite (count_split _ s e hi), (count_split _ e s' hi) by lia.
      rewrite (count_all _ s e), (count_none _ e s'); [| |lia|].
      * rewrite (count_ext (covered ((s, e) :: (s', e') :: l)) (covered ((s', e') :: l))); [lia|].
        intros z Hz. rewrite (covered_cons (s, e)). unfold covers. cbn. intuition lia.
      * intros z Hz [Hc|Hc]%covered_cons; [unfold covers in Hc; cbn in Hc; lia|].
        apply covered_cons in Hc as [Hc|Hc]; [unfold covers in Hc; cbn in Hc; lia|].
        unfold covered in Hc. rewrite Exists_exists in Hc. destruct Hc as (i & Hi & Hc).
        destruct Ho as [_ Hb']. destruct (Hb' i Hi). unfold covers in Hc. lia.
      * intros z Hz. apply covered_cons. left. unfold covers. cbn. lia.
Qed.

Lemma interval_leb_spec x y :
  interval_leb x y = true ↔ x.1 < y.1 ∨ (x.1 = y.1 ∧ x.2 <= y.2).
Proof. unfold interval_leb, pair_leb. destruct (Z.eqb_spec x.1 y.1); lia. Qed.

Lemma interval_leb_total x y : interval_leb x y = true ∨ interval_leb y x = true.
Proof. rewrite !interval_leb_spec. lia. Qed.
Lemma interval_leb_trans x y z :
  interval_leb x y = true → interval_leb y z = true → interval_leb x z = true.
Proof. rewrite !interval_leb_spec. lia. Qed.

Lemma sorted_intervals_ordered l s :
  (∀ i, i ∈ l → s <= i.1 ∧ i.1 <= i.2) → ordered_from s (py_sorted interval_leb l).
Proof.
  intros Hb. split; [|intros i ?%elem_of_py_sorted; auto].
  pose proof (py_sorted_sorted interval_leb interval_leb_total interval_leb_trans l) as Hs.
  induction Hs as [|x l' Hs IH Hf]; constructor; [done|].
  rewrite Forall_forall in *. intros y Hy%Hf. apply interval_leb_spec in Hy. lia.
Qed.

Lemma covered_perm l l' z : l ≡ₚ l' → covered l z ↔ covered l' z.
Proof. intros H. unfold covered. by rewrite H. Qed.

(** The merge scan measures the union: it counts the integers some interval covers, whatever
    the order, nesting and overlap of the intervals. *)
Lemma union_size_count l lo hi :
  (∀ i, i ∈ l → lo <= i.1 ∧ i.1 <= i.2 ∧ i.2 <= hi) → lo <= hi →
  union_size l = count (covered l) lo hi.
Proof.
  intros Hb Hle. unfold union_size.
  pose proof (sorted_intervals_ordered l lo ltac:(intros i Hi; destruct (Hb i Hi); lia)) as Ho.
  pose proof (py_sorted_perm interval_leb l) as Hp.
  rewrite (count_ext _ (covered (py_sorted interval_leb l))) by (intros; by apply covered_perm).
  destruct (py_sorted interval_leb l) as [|[s e] rest].
  - rewrite count_none; [done|]. intros z _ Hc. by inversion Hc.
  - assert (∀ i, i ∈ (s, e) :: rest → lo <= i.1 ∧ i.1 <= i.2 ∧ i.2 <= hi) as Hb'.
    { intros i Hi. apply Hb. by rewrite <- Hp. }
    destruct (Hb' (s, e) ltac:(set_solver)) as (H1 & H2 & H3). cbn in H1, H2, H3.
    rewrite (merge_scan_count rest 0 s e hi); [|lia| |lia|].
    + rewrite (count_split _ lo s hi) by lia. rewrite (count_none _ lo s); [lia|].
      intros z Hz. unfold covered. rewrite Exists_exists. intros (i & Hi & Hc).
      unfold covers in Hc. destruct Ho as [Hs _]. apply StronglySorted_inv in Hs as [_ Hf].
      rewrite Forall_forall in Hf. apply elem_of_cons in Hi as [->|Hi]; [cbn in Hc; lia|].
      specialize (Hf i Hi). cbn in Hf. lia.
    + by apply ordered_from_tail in Ho.
    + intros i Hi. apply Hb'. set_solver.
Qed.

Lemma union_size_nonneg l : (∀ i, i ∈ l → i.1 <= i.2) → 0 <= union_size l.
Proof.
  intros Hb. set (lo := foldr Z.min 0 (fst <$> l)). set (hi := foldr Z.max 0 (snd <$> l)).
  assert (∀ i, i ∈ l → lo <= i.1 ∧ i.1 <= i.2 ∧ i.2 <= hi) as Hl.
  { intros i Hi. split; [|split; [by apply Hb|]].
    - subst lo. clear -Hi. induction Hi; cbn; lia.
    - subst hi. clear -Hi. induction Hi; cbn; lia. }
  assert (lo <= 0 <= hi).
  { subst lo hi. clear. induction l; cbn; lia. }
  rewrite (union_size_count l lo hi Hl) by lia. unfold count. lia.
Qed.
