(* ===== verification/MemoryView.v ===== *)
(** Typed, strided views of the byte memory ([memory.py]): element sizes, strides and the
    physical ranges a view touches.  The theorems show that the ranges are exact: they cover
    the bytes of the view's elements and no others. *)

From stdpp Require Import pretty.
From Stdlib Require Import Sorting.Sorted.
From S2P Require Import Prelude PyDict PySort PyStr Errors Values Program Intervals.
Local Open Scope string_scope.
Local Open Scope Z_scope.
Local Open Scope list_scope.

(** ** Element types *)

Definition digit_of (c : Ascii.ascii) : option Z :=
  let n := Z.of_nat (Ascii.nat_of_ascii c) in
  if (48 <=? n) && (n <=? 57) then Some (n - 48) else None.

(** The longest run of digits, as a number with the rest of the string; [None] if empty. *)
Fixpoint parse_digits (acc : option Z) (s : string) : option (Z * string) :=
  match s with
  | String c s' =>
      match digit_of c with
      | Some d => parse_digits (Some (default 0 acc * 10 + d)) s'
      | None => match acc with Some n => Some (n, s) | None => None end
      end
  | EmptyString => match acc with Some n => Some (n, "") | None => None end
  end.

Definition strip_prefix (p s : string) : option string :=
  if startswith p s then Some (drop_chars (String.length p) s) else None.

(** [_DTYPE_PATTERN.fullmatch]: the bit width and the optional lane count. *)
Definition match_dtype (s : string) : option (Z * option Z) :=
  body ← list_find (λ o : option string, is_Some o)
           ((λ p, strip_prefix p s) <$> ["uint"; "int"; "float"; "bfloat"]) ≫= snd;
  '(bits, rest) ← parse_digits None body;
  match rest with
  | EmptyString => Some (bits, None)
  | _ =>
      tail ← strip_prefix "x" rest;
      '(lanes, rest') ← parse_digits None tail;
      match rest' with EmptyString => Some (bits, Some lanes) | _ => None end
  end.

(** [dtype_size_bytes] *)
Definition dtype_size_bytes (dtype : string) : result Z :=
  let normalized := normalize dtype in
  if mem_str normalized ["bool"] then Ok 1
  else match match_dtype normalized with
  | None => raise_with ProgramValidationError "unsupported simulator dtype" [dtype]
  | Some (bits, lanes) =>
      if (bits <=? 0) || negb (bits mod 8 =? 0) then
        raise_with ProgramValidationError "dtype width" [dtype]
      else Ok (bits / 8 * default 1 lanes)
  end.

(** [contiguous_strides_bytes]: the loop over the reversed shape. *)
Definition stride_step (st : list Z * Z) (extent : Z) : list Z * Z :=
  (st.1 ++ [st.2], st.2 * extent).
Definition contiguous_strides_bytes (shape : list Z) (itemsize : Z) : list Z :=
  reverse (foldl stride_step ([], itemsize) (reverse shape)).1.

(** ** Address ranges *)

(** [AddressRange.__post_init__] *)
Definition range_init (s e : Z) : result interval :=
  if (s <? 0) || (e <? s) then raise MemoryBoundsError "invalid address range" else Ok (s, e).
Definition range_size (r : interval) : Z := r.2 - r.1.
Definition overlaps (x y : interval) : bool := (x.1 <? y.2) && (y.1 <? x.2).

(** [_merged_range_size] *)
Definition merged_range_size (ranges : list interval) : Z := union_size ranges.

(** ** Views *)

Record MemoryView := MkView {
  mv_address : Z;
  mv_byte_offset : Z;
  mv_shape : list Z;
  mv_dtype : string;
  mv_strides_bytes : list Z;
}.

Definition itemsize (v : MemoryView) : result Z := dtype_size_bytes (mv_dtype v).
Definition view_start (v : MemoryView) : Z := mv_address v + mv_byte_offset v.
Definition dims (v : MemoryView) : list (Z * Z) := zip (mv_shape v) (mv_strides_bytes v).
Definition is_empty_view (v : MemoryView) : bool := existsb (λ e, e =? 0) (mv_shape v).

Definition span_of (ds : list (Z * Z)) : Z := foldr (λ d acc, (d.1 - 1) * d.2 + acc) 0 ds.

(** [byte_range] *)
Definition byte_range (v : MemoryView) : result interval :=
  if is_empty_view v then range_init (view_start v) (view_start v)
  else it ← itemsize v; range_init (view_start v) (view_start v + span_of (dims v) + it).

(** [nbytes] *)
Definition nbytes (v : MemoryView) : result Z :=
  it ← itemsize v; Ok (foldl Z.mul 1 (mv_shape v) * it).

(** The sum of [index * stride] for every tuple of the product of the index ranges, in order. *)
Fixpoint offsets (ds : list (Z * Z)) : list Z :=
  match ds with
  | [] => [0]
  | (e, s) :: ds => flat_map (λ i, (λ o, i * s + o) <$> offsets ds) (seqZ 0 e)
  end.

(** Appending a range, extending the last one when they touch. *)
Definition append_range (rs : list interval) (cur : interval) : result (list interval) :=
  match last rs with
  | Some r => if r.2 =? cur.1 then
                merged ← range_init r.1 cur.2; Ok (take (length rs - 1) rs ++ [merged])
              else Ok (rs ++ [cur])
  | None => Ok (rs ++ [cur])
  end.

Definition append_at (start len : Z) (rs : list interval) (o : Z) : result (list interval) :=
  cur ← range_init (start + o) (start + o + len); append_range rs cur.

(** [address_ranges]: the ranges in element order *)
Definition address_ranges (v : MemoryView) : result (list interval) :=
  if is_empty_view v then Ok []
  else
    it ← itemsize v;
    if bool_decide (mv_strides_bytes v = contiguous_strides_bytes (mv_shape v) it) then
      r ← byte_range v; Ok [r]
    else match last (dims v) with
    | Some (extent, stride) =>
        if stride =? it then
          ofold (append_at (view_start v) (extent * it)) (offsets (take (length (dims v) - 1) (dims v))) []
        else ofold (append_at (view_start v) it) (offsets (dims v)) []
    | None => ofold (append_at (view_start v) it) (offsets (dims v)) []
    end.

(** The density test of [physical_address_ranges] over the dimensions ordered by stride. *)
Fixpoint dense_scan (expected : Z) (ds : list (Z * Z)) : bool :=
  match ds with
  | [] => true
  | (e, s) :: ds =>
      if e <=? 1 then dense_scan expected ds
      else if negb (s =? expected) then false
      else dense_scan (expected * e) ds
  end.

Definition stride_leb (x y : Z * Z) : bool := x.2 <=? y.2.

Definition merge_range (rs : list interval) (cur : interval) : result (list interval) :=
  match last rs with
  | Some r => if cur.1 <=? r.2 then
                merged ← range_init r.1 (Z.max r.2 cur.2); Ok (take (length rs - 1) rs ++ [merged])
              else Ok (rs ++ [cur])
  | None => Ok (rs ++ [cur])
  end.

(** [physical_address_ranges]: the union of the touched bytes *)
Definition physical_address_ranges (v : MemoryView) : result (list interval) :=
  if is_empty_view v then Ok []
  else
    it ← itemsize v;
    if dense_scan it (py_sorted stride_leb (dims v)) then r ← byte_range v; Ok [r]
    else rs ← address_ranges v; ofold merge_range (py_sorted interval_leb rs) [].

Example dtype_sizes :
  (dtype_size_bytes <$> [" Float16"; "uint8"; "bfloat16x4"; "bool"; "int32x"; "int12"]) =
  [Ok 2; Ok 1; Ok 8; Ok 1;
   raise_with ProgramValidationError "unsupported simulator dtype" ["int32x"];
   raise_with ProgramValidationError "dtype width" ["int12"]].
Proof. vm_compute. reflexivity. Qed.

(** ** Which offsets a view touches *)

Inductive reach : list (Z * Z) → Z → Prop :=
| reach_nil : reach [] 0
| reach_cons e s ds i o : 0 <= i < e → reach ds o → reach ((e, s) :: ds) (i * s + o).

Lemma reach_cons_inv e s ds o :
  reach ((e, s) :: ds) o ↔ ∃ i o', 0 <= i < e ∧ reach ds o' ∧ o = i * s + o'.
Proof.
  split.
  - intros H. inversion H; subst. eauto.
  - intros (i & o' & Hi & Hr & ->). by constructor.
Qed.

Lemma elem_of_offsets ds o : o ∈ offsets ds ↔ reach ds o.
Proof.
  revert o; induction ds as [|[e s] ds IH]; intros o; cbn [offsets].
  - rewrite list_elem_of_singleton. split; [intros ->; constructor|by inversion 1].
  - rewrite reach_cons_inv, list_elem_of_In, in_flat_map. split.
    + intros (i & Hi & Ho). apply list_elem_of_In, elem_of_seqZ in Hi.
      apply list_elem_of_In, list_elem_of_fmap in Ho as (o' & -> & Ho'%IH).
      exists i, o'. split; [lia|done].
    + intros (i & o' & Hi & Ho'%IH & ->). exists i.
      split; [apply list_elem_of_In, elem_of_seqZ; lia|].
      apply list_elem_of_In, list_elem_of_fmap. eauto.
Qed.

(** The order of the dimensions does not matter. *)
Lemma reach_perm ds ds' o : ds ≡ₚ ds' → reach ds o → reach ds' o.
Proof.
  intros Hp. revert o; induction Hp as [|[e s] ds ds' _ IH|[e s] [e' s'] ds|ds1 ds2 ds3 _ IH1 _ IH2];
    intros o Ho; [done| | |by auto].
  - apply reach_cons_inv in Ho as (i & o' & Hi & Ho' & ->). constructor; auto.
  - apply reach_cons_inv in Ho as (i & o' & Hi & Ho' & ->).
    apply reach_cons_inv in Ho' as (i' & o'' & Hi' & Ho'' & ->).
    replace (i * s' + (i' * s + o'')) with (i' * s + (i * s' + o'')) by lia.
    apply reach_cons; [done|]. by apply reach_cons.
Qed.

(** The bytes of the elements of a view. *)
Definition element_byte (ds : list (Z * Z)) (it o : Z) : Prop :=
  ∃ x, reach ds x ∧ x <= o < x + it.

(** Dimensions whose strides build on each other, smallest first, fill their span. *)
Lemma dense_fills it ds :
  0 < it → (∀ d, d ∈ ds → 0 < d.1) → dense_scan it ds = true →
  0 <= span_of ds ∧ ∀ o, element_byte ds it o ↔ 0 <= o < span_of ds + it.
Proof.
  revert it; induction ds as [|[e s] ds IH]; intros it Hit Hpos H; cbn [dense_scan] in H.
  { split; [done|]. intros o. split.
    - intros (x & Hx & Ho). inversion Hx; subst. cbn. lia.
    - intros Ho. exists 0. split; [constructor|cbn in Ho; lia]. }
  pose proof (Hpos (e, s) ltac:(set_solver)) as He. cbn in He.
  change (span_of ((e, s) :: ds)) with ((e - 1) * s + span_of ds).
  destruct (Z.leb_spec e 1) as [He1|He1].
  - assert (e = 1) as -> by lia. destruct (IH it Hit ltac:(set_solver) H) as [Hsp Hiff].
    split; [lia|]. intros o. replace ((1 - 1) * s) with 0 by lia.
    rewrite Z.add_0_l, <- Hiff. unfold element_byte. setoid_rewrite reach_cons_inv. split.
    + intros (x & (i & o' & Hi & Ho' & ->) & Ho). exists o'. split; [done|].
      assert (i = 0) by lia. lia.
    + intros (x & Hx & Ho). exists x. split; [|done]. exists 0, x. split; [lia|]. split; [done|lia].
  - destruct (Z.eqb_spec s it) as [->|]; [|done]. cbn [negb] in H.
    destruct (IH (it * e) ltac:(nia) ltac:(set_solver) H) as [Hsp Hiff].
    split; [nia|]. intros o.
    replace ((e - 1) * it + span_of ds + it) with (span_of ds + it * e) by lia.
    rewrite <- Hiff. unfold element_byte. setoid_rewrite reach_cons_inv. split.
    + intros (x & (i & o' & Hi & Ho' & ->) & Ho). exists o'. split; [done|nia].
    + intros (x & Hx & Ho). set (i := (o - x) / it).
      assert (0 <= i < e) as Hi.
      { subst i. split; [apply Z.div_pos; lia|apply Z.div_lt_upper_bound; lia]. }
      assert (i * it <= o - x < i * it + it) as Hio.
      { pose proof (Z.div_mod (o - x) it ltac:(lia)). pose proof (Z.mod_pos_bound (o - x) it Hit).
        subst i. lia. }
      exists (i * it + x). split; [|lia]. by exists i, x.
Qed.

(** ** Contiguous strides *)

Definition extents_product (ds : list (Z * Z)) : Z := foldr (λ d acc, d.1 * acc) 1 ds.

Lemma dense_span it ds :
  (∀ d, d ∈ ds → 0 < d.1) → dense_scan it ds = true → span_of ds + it = it * extents_product ds.
Proof.
  revert it; induction ds as [|[e s] ds IH]; intros it Hpos H; cbn [dense_scan] in H; [cbn; lia|].
  pose proof (Hpos (e, s) ltac:(set_solver)) as He. cbn in He.
  change (span_of ((e, s) :: ds)) with ((e - 1) * s + span_of ds).
  change (extents_product ((e, s) :: ds)) with (e * extents_product ds).
  destruct (Z.leb_spec e 1).
  - assert (e = 1) as -> by lia. pose proof (IH it ltac:(set_solver) H). lia.
  - destruct (Z.eqb_spec s it) as [->|]; [|done].
    pose proof (IH (it * e) ltac:(set_solver) H). lia.
Qed.

Lemma span_of_perm ds ds' : ds ≡ₚ ds' → span_of ds = span_of ds'.
Proof. unfold span_of. induction 1; cbn; lia. Qed.
Lemma extents_product_perm ds ds' : ds ≡ₚ ds' → extents_product ds = extents_product ds'.
Proof. unfold extents_product. induction 1; cbn; lia. Qed.

Fixpoint strides_from (st : Z) (l : list Z) : list Z :=
  match l with [] => [] | e :: l => st :: strides_from (st * e) l end.

Lemma stride_fold l acc st : (foldl stride_step (acc, st) l).1 = acc ++ strides_from st l.
Proof.
  revert acc st; induction l as [|e l IH]; intros acc st; cbn [foldl strides_from].
  - by rewrite app_nil_r.
  - unfold stride_step at 2. cbn [fst snd]. by rewrite IH, <- app_assoc.
Qed.

Lemma length_strides_from st l : length (strides_from st l) = length l.
Proof. revert st; induction l; intros; cbn; auto. Qed.

Lemma zip_reverse {A B} (l : list A) (k : list B) :
  length l = length k → zip (reverse l) (reverse k) = reverse (zip l k).
Proof.
  revert k; induction l as [|a l IH]; intros [|b k] H; [done|done|done|].
  cbn in H. rewrite !reverse_cons. cbn [zip zip_with]. rewrite reverse_cons, <- IH by lia.
  rewrite zip_with_app by (rewrite !length_reverse; lia). done.
Qed.

Lemma strides_from_dense it l :
  (∀ e, e ∈ l → 0 < e) → dense_scan it (zip l (strides_from it l)) = true.
Proof.
  revert it; induction l as [|e l IH]; intros it Hpos; cbn [strides_from zip zip_with dense_scan]; [done|].
  specialize (Hpos e ltac:(set_solver)) as He. destruct (Z.leb_spec e 1).
  - assert (e = 1) as -> by lia. rewrite Z.mul_1_r. apply IH. set_solver.
  - rewrite Z.eqb_refl. cbn [negb]. apply IH. set_solver.
Qed.

(** Contiguous strides, read from the last dimension, are dense. *)
Lemma contiguous_dense it shape :
  (∀ e, e ∈ shape → 0 < e) →
  dense_scan it (reverse (zip shape (contiguous_strides_bytes shape it))) = true.
Proof.
  intros Hpos. unfold contiguous_strides_bytes. rewrite stride_fold. cbn [app].
  rewrite <- zip_reverse by (rewrite length_reverse, length_strides_from, length_reverse; done).
  rewrite reverse_involutive. apply strides_from_dense. intros e He. apply Hpos.
  by rewrite elem_of_reverse in He.
Qed.

(** ** Merging loops *)

Definition range_ok (r : interval) : Prop := 0 <= r.1 <= r.2.
Definition total_size (rs : list interval) : Z := foldr (λ r acc, range_size r + acc) 0 rs.

Lemma total_size_app l k : total_size (l ++ k) = total_size l + total_size k.
Proof. unfold total_size. induction l; cbn; lia. Qed.

Lemma range_init_ok s e : 0 <= s <= e → range_init s e = Ok (s, e).
Proof. intros H. unfold range_init. destruct (Z.ltb_spec s 0), (Z.ltb_spec e s); (done || lia). Qed.

Lemma covered_app l k z : covered (l ++ k) z ↔ covered l z ∨ covered k z.
Proof. unfold covered. by rewrite Exists_app. Qed.
Lemma covered_one i z : covered [i] z ↔ covers i z.
Proof. rewrite covered_cons. split; [intros [|H]; [done|by inversion H]|by left]. Qed.

Lemma last_split {A} (l : list A) x :
  last l = Some x → l = take (length l - 1) l ++ [x].
Proof.
  intros H. apply last_Some in H as [l' ->].
  rewrite length_app, take_app_le by (cbn; lia). cbn [length].
  replace (length l' + 1 - 1)%nat with (length l') by lia. by rewrite firstn_all.
Qed.

Lemma append_range_ok rs cur :
  (∀ r, r ∈ rs → range_ok r) → range_ok cur →
  ∃ rs', append_range rs cur = Ok rs' ∧ (∀ r, r ∈ rs' → range_ok r) ∧
    (∀ z, covered rs' z ↔ covered rs z ∨ covers cur z) ∧
    total_size rs' = total_size rs + range_size cur.
Proof.
  intros Hok Hcur. unfold append_range.
  assert (∃ rs', Ok (rs ++ [cur]) = Ok (E := exn) rs' ∧ (∀ r, r ∈ rs' → range_ok r) ∧
    (∀ z, covered rs' z ↔ covered rs z ∨ covers cur z) ∧
    total_size rs' = total_size rs + range_size cur) as Hplain.
  { exists (rs ++ [cur]). split; [done|]. split; [set_solver|].
    split; [intros z; by rewrite covered_app, covered_one|]. rewrite total_size_app. cbn. lia. }
  destruct (last rs) as [r|] eqn:El; [|done]. apply last_split in El.
  destruct (Z.eqb_spec r.2 cur.1) as [Heq|]; [|done].
  set (init := take (length rs - 1) rs) in *. clearbody init. clear Hplain. subst rs.
  assert (range_ok r) as Hr by (apply Hok; set_solver). unfold range_ok in *.
  rewrite range_init_ok by lia. ok_bind. eexists. split; [done|]. split; [|split].
  - intros x [Hx|Hx%list_elem_of_singleton]%elem_of_app; [|subst x; cbn; lia].
    apply Hok. set_solver.
  - intros z. rewrite !covered_app, !covered_one. unfold covers. cbn. intuition lia.
  - rewrite !total_size_app. cbn. unfold range_size. cbn. lia.
Qed.

Lemma append_fold_ok start len os :
  0 <= start → 0 <= len → (∀ o, o ∈ os → 0 <= o) →
  ∃ rs, ofold (append_at start len) os [] = Ok rs ∧ (∀ r, r ∈ rs → range_ok r) ∧
    (∀ z, covered rs z ↔ ∃ o, o ∈ os ∧ start + o <= z < start + o + len) ∧
    total_size rs = len * Z.of_nat (length os).
Proof.
  intros Hs Hl Hos. induction os as [|o os IH] using rev_ind.
  - exists []. split; [done|]. split; [set_solver|]. split; [|cbn; lia].
    intros z. split; [by inversion 1|set_solver].
  - destruct IH as (rs & Hrs & Hok & Hcov & Hsz); [set_solver|].
    specialize (Hos o ltac:(set_solver)).
    destruct (append_range_ok rs (start + o, start + o + len) Hok) as (rs' & Ha & Hok' & Hcov' & Hsz').
    { unfold range_ok. cbn. lia. }
    exists rs'. rewrite ofold_app, Hrs. cbn [mbind outcome_bind ofold]. unfold append_at at 1.
    rewrite range_init_ok by lia. ok_bind. rewrite Ha. split; [done|]. split; [done|]. split.
    + intros z. rewrite Hcov', Hcov. unfold covers. cbn. setoid_rewrite elem_of_app.
      setoid_rewrite list_elem_of_singleton. naive_solver.
    + rewrite Hsz', Hsz, length_app. unfold range_size. cbn [fst snd length]. lia.
Qed.

(** Ascending ranges with a gap between neighbours. *)
Definition separated (rs : list interval) : Prop := StronglySorted (λ x y, x.2 < y.1) rs.

Lemma separated_snoc rs r :
  separated rs → (∀ x, x ∈ rs → x.2 < r.1) → separated (rs ++ [r]).
Proof.
  unfold separated. intros Hs Hr. induction Hs as [|x l Hs IH Hf]; cbn; [repeat constructor|].
  constructor; [apply IH; set_solver|]. rewrite Forall_app. split; [done|].
  constructor; [apply Hr; set_solver|done].
Qed.

Lemma separated_init rs r : separated (rs ++ [r]) → separated rs ∧ ∀ x, x ∈ rs → x.2 < r.1.
Proof.
  unfold separated. induction rs as [|y rs IH]; intros H; [split; [constructor|set_solver]|].
  apply StronglySorted_inv in H as [H Hf]. destruct (IH H) as [Hs Hx].
  rewrite Forall_app in Hf. destruct Hf as [Hf Hr]. split; [by constructor|].
  intros x [->|Hin]%elem_of_cons; [by inversion Hr|auto].
Qed.

Lemma merge_range_ok ps cur :
  (∀ r, r ∈ ps → range_ok r ∧ r.1 <= cur.1) → range_ok cur → separated ps →
  ∃ ps', merge_range ps cur = Ok ps' ∧ (∀ r, r ∈ ps' → range_ok r ∧ r.1 <= cur.1) ∧ separated ps' ∧
    ∀ z, covered ps' z ↔ covered ps z ∨ covers cur z.
Proof.
  intros Hok Hcur Hsep. unfold merge_range. destruct (last ps) as [r|] eqn:El.
  - apply last_split in El. set (init := take (length ps - 1) ps) in *. clearbody init. subst ps.
    destruct (Hok r ltac:(set_solver)) as [Hr Hle]. unfold range_ok in *.
    destruct (Z.leb_spec cur.1 r.2) as [Ho|Ho].
    + rewrite range_init_ok by lia. ok_bind. eexists. split; [done|].
      apply separated_init in Hsep as [Hs Hx]. split; [|split].
      * intros x [Hin|Hin%list_elem_of_singleton]%elem_of_app; [apply Hok; set_solver|].
        subst x. cbn. lia.
      * by apply separated_snoc.
      * intros z. rewrite !covered_app, !covered_one. unfold covers. cbn. intuition lia.
    + eexists. split; [done|]. split; [|split].
      * intros x [Hin|Hin%list_elem_of_singleton]%elem_of_app; [by apply Hok|]. subst x. lia.
      * apply separated_snoc; [done|]. apply separated_init in Hsep as [_ Hx].
        intros x [Hin|Hin%list_elem_of_singleton]%elem_of_app; [specialize (Hx x Hin)|subst x]; lia.
      * intros z. by rewrite (covered_app _ [cur]), covered_one.
  - apply last_None in El as ->. exists [cur]. split; [done|]. unfold range_ok in *.
    split; [intros x ->%list_elem_of_singleton; lia|]. split; [repeat constructor|].
    intros z. rewrite covered_one. split; [by right|]. intros [H|]; [by inversion H|done].
Qed.

Lemma merge_fold_ok rs :
  StronglySorted (λ a b, interval_leb a b = true) rs → (∀ r, r ∈ rs → range_ok r) →
  ∃ ps, ofold merge_range rs [] = Ok ps ∧ (∀ r, r ∈ ps → range_ok r) ∧ separated ps ∧
    ∀ z, covered ps z ↔ covered rs z.
Proof.
  intros Hs Hok.
  assert (∃ ps, ofold merge_range rs [] = Ok ps ∧
    (∀ r, r ∈ ps → range_ok r ∧ ∃ x, x ∈ rs ∧ r.1 <= x.1) ∧ separated ps ∧
    ∀ z, covered ps z ↔ covered rs z) as (ps & H1 & H2 & H3 & H4).
  { induction rs as [|cur rs IH] using rev_ind.
    - exists []. split; [done|]. split; [set_solver|]. split; [constructor|done].
    - assert (StronglySorted (λ a b, interval_leb a b = true) rs ∧
        ∀ x, x ∈ rs → x.1 <= cur.1) as [Hs' Hlast].
      { clear -Hs. induction rs as [|y rs IH]; [split; [constructor|set_solver]|].
        apply StronglySorted_inv in Hs as [Hs Hf]. destruct (IH Hs) as [Hs1 Hx].
        rewrite Forall_app in Hf. destruct Hf as [Hf Hc]. split; [by constructor|].
        intros x [->|Hin]%elem_of_cons; [|auto]. inversion Hc as [|? ? Hle].
        apply interval_leb_spec in Hle. lia. }
      destruct IH as (ps & Hps & Hps2 & Hsep & Hcov); [done|intros; apply Hok; set_solver|].
      destruct (merge_range_ok ps cur) as (ps' & Hm & Hp' & Hsep' & Hcov'); [|apply Hok; set_solver|done|].
      { intros r Hr. destruct (Hps2 r Hr) as (? & x & Hx & Hle). split; [done|].
        specialize (Hlast x Hx). lia. }
      exists ps'. rewrite ofold_app, Hps. cbn [mbind outcome_bind ofold]. rewrite Hm.
      split; [done|]. split; [|split; [done|]].
      + intros r Hr. destruct (Hp' r Hr). split; [done|]. exists cur. set_solver.
      + intros z. by rewrite Hcov', Hcov, covered_app, covered_one. }
  exists ps. split; [done|]. split; [|done]. intros r Hr. by apply H2.
Qed.

(** ** Exactness *)

Record view_wf (v : MemoryView) (it : Z) : Prop := {
  vw_itemsize : itemsize v = Ok it;
  vw_positive : 0 < it;
  vw_start : 0 <= view_start v;
  vw_shape : ∀ e, e ∈ mv_shape v → 0 <= e;
  vw_strides : ∀ s, s ∈ mv_strides_bytes v → 0 <= s;
  vw_rank : length (mv_strides_bytes v) = length (mv_shape v);
}.

(** Byte [z] belongs to an element of the view. *)
Definition viewed (v : MemoryView) (it z : Z) : Prop := element_byte (dims v) it (z - view_start v).

Lemma reach_nonneg ds o :
  (∀ d, d ∈ ds → 0 <= d.2) → reach ds o → 0 <= o.
Proof.
  intros Hs H. induction H as [|e s ds i o Hi H IH]; [lia|].
  specialize (Hs (e, s) ltac:(set_solver)) as Hss. cbn in Hss.
  assert (0 <= o) by (apply IH; set_solver). nia.
Qed.

Lemma dims_elem v it d : view_wf v it → d ∈ dims v → 0 <= d.1 ∧ 0 <= d.2.
Proof.
  intros Hwf Hd. destruct d as [e s]. unfold dims in Hd. apply elem_of_zip_l in Hd as He.
  apply elem_of_zip_r in Hd as Hs. split; [exact (vw_shape _ _ Hwf e He)|exact (vw_strides _ _ Hwf s Hs)].
Qed.

Lemma empty_view_unreachable v it z : view_wf v it → is_empty_view v = true → ¬ viewed v it z.
Proof.
  intros Hwf H (x & Hx & _). unfold is_empty_view in H. apply existsb_exists in H as (e & He & He0).
  assert (e = 0) as -> by lia. clear He0. apply list_elem_of_In in He. pose proof (vw_rank _ _ Hwf) as Hr.
  unfold dims in Hx. revert Hx Hr. generalize (mv_strides_bytes v) as st. revert He x.
  generalize (mv_shape v) as sh. induction sh as [|e sh IH]; intros He x [|s st] Hx Hr; [set_solver..|done|].
  cbn [zip zip_with] in Hx. apply reach_cons_inv in Hx as (i & o & Hi & Ho & _).
  apply elem_of_cons in He as [<-|He]; [lia|]. eapply IH; [done|done|cbn in Hr; lia].
Qed.

Lemma nonempty_positive v it d :
  view_wf v it → is_empty_view v = false → d ∈ dims v → 0 < d.1.
Proof.
  intros Hwf Hne Hd. destruct (dims_elem v it d Hwf Hd) as [H0 _].
  destruct d as [e s]. unfold dims in Hd. apply elem_of_zip_l in Hd. cbn in *.
  assert (e ≠ 0); [|lia]. intros ->. unfold is_empty_view in Hne.
  assert (existsb (λ e, e =? 0) (mv_shape v) = true) as Hx; [|congruence].
  apply existsb_exists. exists 0. by rewrite <- list_elem_of_In.
Qed.

Lemma span_of_nonneg ds : (∀ d, d ∈ ds → 0 < d.1 ∧ 0 <= d.2) → 0 <= span_of ds.
Proof.
  unfold span_of. induction ds as [|[e s] ds IH]; intros H; cbn; [lia|].
  destruct (H (e, s) ltac:(set_solver)) as [He Hs]. cbn in He, Hs.
  specialize (IH ltac:(set_solver)). nia.
Qed.

Lemma byte_range_ok v it :
  view_wf v it → is_empty_view v = false →
  byte_range v = Ok (view_start v, view_start v + span_of (dims v) + it) ∧ 0 <= span_of (dims v).
Proof.
  intros Hwf Hne.
  assert (0 <= span_of (dims v)) as Hsp.
  { apply span_of_nonneg. intros d Hd. split; [by eapply nonempty_positive|by eapply dims_elem]. }
  split; [|done]. unfold byte_range. rewrite Hne, (vw_itemsize _ _ Hwf). ok_bind.
  pose proof (vw_start _ _ Hwf). pose proof (vw_positive _ _ Hwf). apply range_init_ok. lia.
Qed.

(** A view whose dimensions, in some order, are dense is its bounding range. *)
Lemma dense_view v it ds :
  view_wf v it → is_empty_view v = false → ds ≡ₚ dims v → dense_scan it ds = true →
  let r := (view_start v, view_start v + span_of (dims v) + it) in
  (∀ z, covered [r] z ↔ viewed v it z) ∧ total_size [r] = it * extents_product (dims v).
Proof.
  intros Hwf Hne Hp Hd r.
  assert (∀ d, d ∈ ds → 0 < d.1) as Hpos.
  { intros d Hin. eapply nonempty_positive; [done..|by rewrite <- Hp]. }
  destruct (dense_fills it ds (vw_positive _ _ Hwf) Hpos Hd) as [_ Hiff].
  pose proof (dense_span it ds Hpos Hd) as Hspan.
  rewrite (span_of_perm _ _ Hp), (extents_product_perm _ _ Hp) in Hspan. split.
  - intros z. rewrite covered_one. unfold covers, viewed, r. cbn [fst snd].
    assert (element_byte (dims v) it (z - view_start v) ↔ element_byte ds it (z - view_start v)) as ->.
    { unfold element_byte. split; intros (x & Hx & ?); exists x; (split; [|done]);
        eapply reach_perm; [|done| |done]; by rewrite ?Hp. }
    rewrite Hiff, (span_of_perm _ _ Hp). lia.
  - unfold total_size, range_size, r. cbn [foldr fst snd]. lia.
Qed.

Lemma length_offsets ds : (∀ d, d ∈ ds → 0 <= d.1) → Z.of_nat (length (offsets ds)) = extents_product ds.
Proof.
  induction ds as [|[e s] ds IH]; intros H; [done|]. cbn [offsets].
  change (extents_product ((e, s) :: ds)) with (e * extents_product ds).
  specialize (H (e, s) ltac:(set_solver)) as He. cbn in He. rewrite <- IH by set_solver.
  assert (∀ l, Z.of_nat (length (flat_map (λ i, (λ o, i * s + o) <$> offsets ds) l)) =
    Z.of_nat (length l) * Z.of_nat (length (offsets ds))) as Hfm.
  { induction l as [|i l IHl]; [done|]. cbn [flat_map]. rewrite length_app, length_fmap. cbn [length]. lia. }
  rewrite Hfm, length_seqZ. lia.
Qed.

Lemma element_fold_exact v it :
  view_wf v it →
  ∃ rs, ofold (append_at (view_start v) it) (offsets (dims v)) [] = Ok rs ∧
    (∀ r, r ∈ rs → range_ok r) ∧ (∀ z, covered rs z ↔ viewed v it z) ∧
    total_size rs = it * extents_product (dims v).
Proof.
  intros Hwf. pose proof (vw_start _ _ Hwf). pose proof (vw_positive _ _ Hwf).
  destruct (append_fold_ok (view_start v) it (offsets (dims v))) as (rs & Hrs & Hok & Hcov & Hsz);
    [lia|lia| |].
  { intros o Ho%elem_of_offsets. eapply reach_nonneg; [|done]. intros d Hd. by eapply dims_elem. }
  exists rs. split; [done|]. split; [done|]. split.
  - intros z. rewrite Hcov. unfold viewed, element_byte. setoid_rewrite elem_of_offsets.
    split; intros (x & Hx & ?); exists x; (split; [done|lia]).
  - rewrite Hsz, length_offsets; [lia|]. intros d Hd. by eapply dims_elem.
Qed.

Lemma row_fold_exact v it extent :
  view_wf v it → last (dims v) = Some (extent, it) →
  ∃ rs, ofold (append_at (view_start v) (extent * it))
      (offsets (take (length (dims v) - 1) (dims v))) [] = Ok rs ∧
    (∀ r, r ∈ rs → range_ok r) ∧ (∀ z, covered rs z ↔ viewed v it z) ∧
    total_size rs = it * extents_product (dims v).
Proof.
  intros Hwf Hl. apply last_split in Hl. pose proof (vw_start _ _ Hwf). pose proof (vw_positive _ _ Hwf).
  set (outer := take (length (dims v) - 1) (dims v)) in *. clearbody outer.
  assert (∀ d, d ∈ outer ++ [(extent, it)] → 0 <= d.1 ∧ 0 <= d.2) as Hd.
  { intros d Hd. rewrite <- Hl in Hd. by eapply dims_elem. }
  destruct (Hd (extent, it) ltac:(set_solver)) as [Hext _]. cbn in Hext.
  destruct (append_fold_ok (view_start v) (extent * it) (offsets outer)) as (rs & Hrs & Hok & Hcov & Hsz);
    [lia|nia| |].
  { intros o Ho%elem_of_offsets. eapply reach_nonneg; [|done]. intros d Hin. apply Hd. set_solver. }
  exists rs. split; [done|]. split; [done|].
  assert (dims v ≡ₚ (extent, it) :: outer) as Hp by (rewrite Hl; by rewrite Permutation_app_comm).
  split.
  - intros z. rewrite Hcov. unfold viewed, element_byte. setoid_rewrite elem_of_offsets. split.
    + intros (x & Hx & Hz). set (i := (z - view_start v - x) / it).
      pose proof (Z.div_mod (z - view_start v - x) it ltac:(lia)).
      pose proof (Z.mod_pos_bound (z - view_start v - x) it ltac:(lia)).
      assert (0 <= i < extent) by (subst i; split; [apply Z.div_pos; lia|apply Z.div_lt_upper_bound; lia]).
      exists (i * it + x). split; [|subst i; lia].
      eapply reach_perm; [symmetry; exact Hp|]. by constructor.
    + intros (x & Hx & Hz). eapply reach_perm in Hx; [|exact Hp].
      apply reach_cons_inv in Hx as (i & o & Hi & Ho & ->). exists o. split; [done|nia].
  - rewrite Hsz, length_offsets by (intros d Hin; apply Hd; set_solver).
    rewrite (extents_product_perm _ _ Hp).
    change (extents_product ((extent, it) :: outer)) with (extent * extents_product outer). lia.
Qed.

Lemma address_ranges_exact v it :
  view_wf v it →
  ∃ rs, address_ranges v = Ok rs ∧ (∀ r, r ∈ rs → range_ok r) ∧
    (∀ z, covered rs z ↔ viewed v it z) ∧
    (is_empty_view v = false → total_size rs = it * extents_product (dims v)).
Proof.
  intros Hwf. unfold address_ranges. destruct (is_empty_view v) eqn:Ee.
  { exists []. split; [done|]. split; [set_solver|]. split; [|done]. intros z.
    split; [by inversion 1|]. intros Hv. by eapply empty_view_unreachable in Hv. }
  rewrite (vw_itemsize _ _ Hwf). ok_bind. case_bool_decide as Hc.
  - destruct (byte_range_ok v it Hwf Ee) as [-> Hsp]. ok_bind.
    destruct (dense_view v it (reverse (dims v)) Hwf Ee (reverse_Permutation _)) as [Hcov Hsz].
    { unfold dims. rewrite Hc. apply contiguous_dense. intros e He.
      pose proof (vw_shape _ _ Hwf e He). unfold is_empty_view in Ee.
      assert (e ≠ 0); [|lia]. intros ->. apply not_true_iff_false in Ee. apply Ee, existsb_exists.
      exists 0. by rewrite <- list_elem_of_In. }
    eexists. split; [done|]. split; [|done]. intros r ->%list_elem_of_singleton.
    pose proof (vw_start _ _ Hwf). pose proof (vw_positive _ _ Hwf). unfold range_ok. cbn. lia.
  - destruct (last (dims v)) as [[extent stride]|] eqn:El.
    + destruct (Z.eqb_spec stride it) as [->|].
      * destruct (row_fold_exact v it extent Hwf El) as (rs & ? & ? & ? & ?). eauto.
      * destruct (element_fold_exact v it Hwf) as (rs & ? & ? & ? & ?). eauto.
    + destruct (element_fold_exact v it Hwf) as (rs & ? & ? & ? & ?). eauto.
Qed.

Lemma stride_leb_total x y : stride_leb x y = true ∨ stride_leb y x = true.
Proof. unfold stride_leb. lia. Qed.

Lemma physical_ranges_exact v it :
  view_wf v it →
  ∃ ps, physical_address_ranges v = Ok ps ∧ (∀ r, r ∈ ps → range_ok r) ∧ separated ps ∧
    ∀ z, covered ps z ↔ viewed v it z.
Proof.
  intros Hwf. unfold physical_address_ranges. destruct (is_empty_view v) eqn:Ee.
  { exists []. split; [done|]. split; [set_solver|]. split; [constructor|]. intros z.
    split; [by inversion 1|]. intros Hv. by eapply empty_view_unreachable in Hv. }
  rewrite (vw_itemsize _ _ Hwf). ok_bind.
  destruct (dense_scan it (py_sorted stride_leb (dims v))) eqn:Ed.
  - destruct (byte_range_ok v it Hwf Ee) as [-> Hsp]. ok_bind.
    destruct (dense_view v it _ Hwf Ee (py_sorted_perm _ _) Ed) as [Hcov _].
    eexists. split; [done|]. split; [|split; [repeat constructor|done]].
    intros r ->%list_elem_of_singleton. pose proof (vw_start _ _ Hwf).
    pose proof (vw_positive _ _ Hwf). unfold range_ok. cbn. lia.
  - destruct (address_ranges_exact v it Hwf) as (rs & -> & Hok & Hcov & _). ok_bind.
    destruct (merge_fold_ok (py_sorted interval_leb rs)) as (ps & Hps & Hok' & Hsep & Hcov').
    + apply py_sorted_sorted; [apply interval_leb_total|apply interval_leb_trans].
    + intros r ?%elem_of_py_sorted. auto.
    + exists ps. split; [done|]. split; [done|]. split; [done|]. intros z.
      rewrite Hcov', <- Hcov. apply covered_perm, py_sorted_perm.
Qed.

(** ** Properties *)

Lemma foldl_mul l a : foldl Z.mul a l = a * foldr Z.mul 1 l.
Proof. revert a; induction l as [|x l IH]; intros a; cbn; [lia|]. rewrite IH. lia. Qed.

Lemma extents_product_zip sh st :
  length st = length sh → extents_product (zip sh st) = foldr Z.mul 1 sh.
Proof.
  unfold extents_product. revert st; induction sh as [|e sh IH]; intros [|s st] H; [done..|].
  cbn in *. rewrite IH by lia. done.
Qed.

Lemma empty_product v : is_empty_view v = true → foldr Z.mul 1 (mv_shape v) = 0.
Proof.
  unfold is_empty_view. induction (mv_shape v) as [|e sh IH]; cbn; [done|].
  intros [He|H]%orb_true_iff; [lia|]. rewrite IH by done. lia.
Qed.

(** C20. A view's ranges are exact: for a well-formed view, [address_ranges] and
    [physical_address_ranges] return and cover precisely the bytes of the view's elements, on
    all of their branches (contiguous, dense rows, scattered elements, dense in another order);
    the ranges in element order hold [nbytes] bytes, and the physical ranges are ascending,
    disjoint and merged. *)
Theorem view_ranges_exact v it :
  view_wf v it →
  ∃ rs ps n, address_ranges v = Ok rs ∧ physical_address_ranges v = Ok ps ∧ nbytes v = Ok n ∧
    total_size rs = n ∧ separated ps ∧
    ∀ z, (covered rs z ↔ viewed v it z) ∧ (covered ps z ↔ viewed v it z).
Proof.
  intros Hwf. destruct (address_ranges_exact v it Hwf) as (rs & Hrs & _ & Hcov & Hsz).
  destruct (physical_ranges_exact v it Hwf) as (ps & Hps & _ & Hsep & Hcov').
  exists rs, ps, (foldl Z.mul 1 (mv_shape v) * it). split; [done|]. split; [done|].
  split; [unfold nbytes; by rewrite (vw_itemsize _ _ Hwf)|].
  split; [|by split; [|intros z; split]]. rewrite foldl_mul, Z.mul_1_l.
  destruct (is_empty_view v) eqn:Ee.
  - rewrite (empty_product v Ee). unfold address_ranges in Hrs. rewrite Ee in Hrs.
    injection Hrs as <-. done.
  - rewrite Hsz by done. unfold dims. rewrite extents_product_zip by apply Hwf. lia.
Qed.

(** A 3 x 2 block of halves in rows of 16 bytes, at byte 100 of an allocation at 64. *)
Definition example_view : MemoryView := MkView 64 100 [3; 2] "float16" [16; 2].

Lemma view_ranges_exact_witness :
  address_ranges example_view = Ok [(164, 168); (180, 184); (196, 200)] ∧
  ∃ rs ps n, address_ranges example_view = Ok rs ∧ physical_address_ranges example_view = Ok ps ∧
    nbytes example_view = Ok n ∧ total_size rs = n ∧ separated ps ∧
    ∀ z, (covered rs z ↔ viewed example_view 2 z) ∧ (covered ps z ↔ viewed example_view 2 z).
Proof.
  split; [vm_compute; reflexivity|]. apply (view_ranges_exact example_view 2).
  constructor.
  - vm_compute. reflexivity.
  - lia.
  - vm_compute. discriminate.
  - intros e He. apply list_elem_of_In in He. cbn in He. destruct He as [<-|[<-|[]]]; lia.
  - intros e He. apply list_elem_of_In in He. cbn in He. destruct He as [<-|[<-|[]]]; lia.
  - reflexivity.
Defined.
