(* ===== verification/Memory.v ===== *)
(** The byte-addressed memory runtime ([memory.py]): address spaces with poison tracking,
    allocations, reads and writes through views, aliases, and the usage queries.

    An [_AddressSpace] object is shared by the allocations of one [(scope, owner)]; it is
    found in the runtime under that key.  An allocation object is identified by the key it was
    allocated under, which it keeps when another name is rebound to it. *)

From stdpp Require Import pretty.
From S2P Require Import Prelude PyDict PySort PyStr Errors Values Program Trace Hazard Intervals.
From S2P Require Import MemoryView.
Local Open Scope string_scope.
Local Open Scope Z_scope.
Local Open Scope list_scope.

(** ** State *)

Definition A2_A3_LOCAL_CAPACITIES : dict MemoryScope Z :=
  [(L1, 524032); (L0A, 65536); (L0B, 65536); (L0C, 131072); (UB, 192 * 1024); (BT, 1024)].

Definition is_shared (s : MemoryScope) : bool :=
  match s with GM | WORKSPACE => true | _ => false end.

(** [_AddressSpace] *)
Record AddressSpace := MkSpace { as_data : list Z; as_initialized : list bool }.
Definition new_space : AddressSpace := MkSpace [] [].
Definition ensure_size (size_bytes : Z) (a : AddressSpace) : AddressSpace :=
  let missing := size_bytes - Z.of_nat (length (as_data a)) in
  if 0 <? missing then
    MkSpace (as_data a ++ replicate (Z.to_nat missing) 255)
            (as_initialized a ++ replicate (Z.to_nat missing) false)
  else a.

Abbreviation Owner := (option Z).
Abbreviation SpaceKey := (MemoryScope * Owner)%type.
Abbreviation AllocKey := (MemoryScope * Owner * string)%type.

Record MemoryAllocation := MkAlloc {
  al_spec : BufferSpec;
  al_size_bytes : Z;
  al_address : Z;
  al_core_id : Owner;
}.
Definition al_space (a : MemoryAllocation) : SpaceKey := (bs_scope (al_spec a), al_core_id a).
Definition al_id (a : MemoryAllocation) : AllocKey := (al_space a, bs_name (al_spec a)).
Definition al_end (a : MemoryAllocation) : Z := al_address a + al_size_bytes a.
(** [address_range] *)
Definition al_range (a : MemoryAllocation) : result interval := range_init (al_address a) (al_end a).

Record MemoryRuntime := MkRuntime {
  rt_core_ids : list Z;
  rt_vector1_owner_offset : Z;
  rt_local_owner_ids : list Z;
  rt_reporter : HazardReporter;
  rt_capacities : dict MemoryScope Z;
  rt_allocations : dict AllocKey MemoryAllocation;
  rt_next_address : dict SpaceKey Z;
  rt_spaces : dict SpaceKey AddressSpace;
}.

Abbreviation memM := (stM MemoryRuntime exn).

Definition set_reporter (r : HazardReporter) (s : MemoryRuntime) : MemoryRuntime :=
  MkRuntime (rt_core_ids s) (rt_vector1_owner_offset s) (rt_local_owner_ids s) r (rt_capacities s)
    (rt_allocations s) (rt_next_address s) (rt_spaces s).
Definition set_space (k : SpaceKey) (a : AddressSpace) (s : MemoryRuntime) : MemoryRuntime :=
  MkRuntime (rt_core_ids s) (rt_vector1_owner_offset s) (rt_local_owner_ids s) (rt_reporter s)
    (rt_capacities s) (rt_allocations s) (rt_next_address s) (dset (rt_spaces s) k a).
Definition set_allocation (k : AllocKey) (a : MemoryAllocation) (s : MemoryRuntime) : MemoryRuntime :=
  MkRuntime (rt_core_ids s) (rt_vector1_owner_offset s) (rt_local_owner_ids s) (rt_reporter s)
    (rt_capacities s) (dset (rt_allocations s) k a) (rt_next_address s) (rt_spaces s).
Definition set_next (k : SpaceKey) (n : Z) (s : MemoryRuntime) : MemoryRuntime :=
  MkRuntime (rt_core_ids s) (rt_vector1_owner_offset s) (rt_local_owner_ids s) (rt_reporter s)
    (rt_capacities s) (rt_allocations s) (dset (rt_next_address s) k n) (rt_spaces s).

Definition get_space (s : MemoryRuntime) (k : SpaceKey) : AddressSpace :=
  dget_default new_space (rt_spaces s) k.

(** Reports of the runtime's shared reporter. *)
Definition rt_report (error_type : exn_class) (d : HazardDiagnostic) : memM unit := λ s,
  let '(r, answer) := report error_type d (rt_reporter s) in (set_reporter r s, answer).

(** [MemoryRuntime.__init__] *)
Definition runtime_init (core_ids : list Z) (hazard_check : string)
    (local_capacities : option (dict MemoryScope Z)) : result MemoryRuntime :=
  let ids := py_sorted Z_leb (fromkeys core_ids) in
  _ ← ensure (negb (existsb (λ c, c <? 0) ids)) ProgramValidationError "negative core IDs";
  let offset := match last ids with Some m => m + 1 | None => 1 end in
  reporter ← reporter_init hazard_check;
  let capacities := match local_capacities with
                    | Some (c :: cs) => c :: cs
                    | _ => A2_A3_LOCAL_CAPACITIES end in
  Ok (MkRuntime ids offset (ids ++ ((λ c, offset + c) <$> ids)) reporter capacities [] [] []).

(** ** Sizes and owners *)

(** [_concrete_shape] *)
Definition concrete_shape (shape : list pyval) : result (list Z) :=
  extents ← omap_list (λ v, match as_integral v with
                            | Some z => Ok z
                            | None => raise ProgramValidationError "shape must be concrete" end) shape;
  _ ← ensure (negb (existsb (λ e, e <? 0) extents)) ProgramValidationError "negative extent";
  Ok extents.

(** [_resolve_extent] *)
Definition resolve_extent (b : bindings) (v : pyval) : result Z :=
  match v with
  | VAffine _ | VSym _ _ => evaluate_runtime_int v b
  | VInt z => Ok z
  | _ => raise ProgramValidationError "extent is not executable"
  end.

(** [_buffer_size_bytes] *)
Definition buffer_size_bytes (spec : BufferSpec) : result Z :=
  match bs_size_bytes spec with
  | Some n => Ok n
  | None => size ← dtype_size_bytes (bs_dtype spec);
            shape ← concrete_shape (bs_shape spec);
            Ok (foldl Z.mul size shape)
  end.

Definition spec_meta (spec : BufferSpec) (key : string) : pyval :=
  dget_default VNone (bs_metadata spec) key.
(** [_overlap_is_declared_reuse] *)
Definition overlap_is_declared_reuse (left right : BufferSpec) : bool :=
  if truthy (spec_meta left "planned_address") && truthy (spec_meta right "planned_address")
  then true
  else if bool_decide (spec_meta left "alias_of" = VStr (bs_name right)) ||
          bool_decide (spec_meta right "alias_of" = VStr (bs_name left)) then true
  else match bs_lifetime left, bs_lifetime right with
  | Some (ls, le), Some (rs, re) => (le <=? rs) || (re <=? ls)
  | _, _ => false
  end.

(** [_normalize_owner] *)
Definition normalize_owner (s : MemoryRuntime) (scope : MemoryScope) (core_id : Owner) : result Owner :=
  if is_shared scope then Ok None
  else match core_id with
  | None => raise ProgramValidationError "core_id is required"
  | Some c =>
      _ ← ensure (0 <=? c) ProgramValidationError "negative core_id";
      _ ← ensure (bool_decide (c ∈ rt_local_owner_ids s)) ProgramValidationError "unknown core_id";
      Ok (Some c)
  end.

(** [vector1_owner] *)
Definition vector1_owner (s : MemoryRuntime) (c : Z) : result Z :=
  _ ← ensure (bool_decide (c ∈ rt_core_ids s)) ProgramValidationError "unknown core_id";
  Ok (rt_vector1_owner_offset s + c).

(** ** Allocating *)

Definition owner_text (o : Owner) : string := match o with Some z => pretty z | None => "None" end.

Definition overlap_diagnostic (spec : BufferSpec) (existing : MemoryAllocation) (owner : Owner)
    (r : interval) : HazardDiagnostic :=
  MkDiag "overlapping-allocation"
    ("allocation '" +:+ bs_name spec +:+ "' overlaps '" +:+ bs_name (al_spec existing) +:+ "' in " +:+
     scope_value (bs_scope spec) +:+ " on core " +:+ owner_text owner)
    (Some (bs_name spec)) owner (Some r.1) (Some r.2) [].

(** One existing allocation against the new one. *)
Definition check_overlap (spec : BufferSpec) (owner : Owner) (r : interval)
    (entry : AllocKey * MemoryAllocation) : memM unit :=
  let '((scope, existing_owner, _), existing) := entry in
  if bool_decide (scope = bs_scope spec) && bool_decide (existing_owner = owner) then
    er ← st_lift (al_range existing);
    if overlaps r er && negb (overlap_is_declared_reuse spec (al_spec existing)) then
      rt_report MemoryHazardError (overlap_diagnostic spec existing owner r)
    else mret tt
  else mret tt.

(** [allocate] *)
Definition allocate (spec : BufferSpec) (core_id : Owner) (address : option Z) : memM MemoryAllocation :=
  s ← st_get;
  owner ← st_lift (normalize_owner s (bs_scope spec) core_id);
  let space := (bs_scope spec, owner) in
  let key := (space, bs_name spec) in
  _ ← st_lift (ensure (negb (dmem (rt_allocations s) key)) ProgramValidationError "duplicate allocation");
  size_bytes ← st_lift (buffer_size_bytes spec);
  _ ← st_lift (match address, bs_address spec with
               | Some a, Some b => ensure (a =? b) ProgramValidationError "address disagrees"
               | _, _ => Ok tt end);
  let explicit_address := match address with Some a => Some a | None => bs_address spec end in
  let base := default (dget_default 0 (rt_next_address s) space) explicit_address in
  r ← st_lift (range_init base (base + size_bytes));
  _ ← st_lift (match dget (rt_capacities s) (bs_scope spec) with
               | Some capacity => ensure (r.2 <=? capacity) MemoryCapacityError "capacity exceeded"
               | None => Ok tt end);
  _ ← st_iter (check_overlap spec owner r) (rt_allocations s);
  s1 ← st_get;
  let a := MkAlloc spec size_bytes base owner in
  _ ← st_put (set_space space (ensure_size (base + size_bytes) (get_space s1 space)) s1);
  s2 ← st_get;
  _ ← st_put (set_allocation key a s2);
  s3 ← st_get;
  _ ← st_put (set_next space (Z.max (dget_default 0 (rt_next_address s3) space) r.2) s3);
  mret a.

(** [get] *)
Definition get (s : MemoryRuntime) (name : string) (scope : MemoryScope) (core_id : Owner)
    : result MemoryAllocation :=
  owner ← normalize_owner s scope core_id;
  match dget (rt_allocations s) (scope, owner, name) with
  | Some a => Ok a
  | None => raise_with MemoryAccessError "unknown simulator allocation" [name]
  end.

(** [alias] *)
Definition alias (name target : string) (scope : MemoryScope) (core_id : Owner) : memM unit :=
  s ← st_get;
  owner ← st_lift (normalize_owner s scope core_id);
  match dget (rt_allocations s) (scope, owner, name), dget (rt_allocations s) (scope, owner, target) with
  | Some destination, Some source =>
      _ ← st_lift (ensure (al_size_bytes destination <=? al_size_bytes source) MemoryBoundsError "alias size");
      st_put (set_allocation (scope, owner, name) source s)
  | _, _ => st_lift (raise_with MemoryAccessError "cannot alias" [name; target])
  end.

(** [from_program]: shared buffers once, local buffers once per owner. *)
Definition instantiate (b : bindings) (spec : BufferSpec) : memM unit :=
  shape ← st_lift (omap_list (resolve_extent b) (bs_shape spec));
  resolved ← st_lift (buffer_spec_init (bs_name spec) (scope_value (bs_scope spec)) (VInt <$> shape)
      (bs_dtype spec) (bs_size_bytes spec) (bs_address spec)
      ((λ '(x, y), [VInt x; VInt y]) <$> bs_lifetime spec) (bs_metadata spec));
  if is_shared (bs_scope spec) then _ ← allocate resolved None None; mret tt
  else s ← st_get;
       st_iter (λ c, _ ← allocate resolved (Some c) None; mret tt) (rt_local_owner_ids s).
Definition from_program (program : KernelProgram) (hazard_check : string) (b : bindings)
    : result MemoryRuntime :=
  s ← runtime_init (cp_core_id <$> kp_cores program) hazard_check None;
  let '(s', answer) := st_iter (instantiate b) (kp_buffers program) s in
  _ ← answer; Ok s'.

(** ** Views and accesses *)

(** [MemoryAllocation.view] *)
Definition alloc_view (a : MemoryAllocation) (byte_offset : Z) (shape : option (list pyval))
    (dtype : option string) (strides : option (list Z)) : result MemoryView :=
  let view_dtype := match dtype with
                    | Some d => if nonempty d then d else bs_dtype (al_spec a)
                    | None => bs_dtype (al_spec a) end in
  view_shape ← concrete_shape (default (bs_shape (al_spec a)) shape);
  st ← match strides with
       | Some l => Ok l
       | None => it ← dtype_size_bytes view_dtype; Ok (contiguous_strides_bytes view_shape it)
       end;
  _ ← ensure (length st =? length view_shape)%nat MemoryBoundsError "view rank";
  _ ← ensure ((0 <=? byte_offset) && forallb (λ x, 0 <=? x) st) MemoryBoundsError "negative view";
  let v := MkView (al_address a) byte_offset view_shape view_dtype st in
  r ← byte_range v;
  _ ← ensure (r.2 <=? al_end a) MemoryBoundsError "view out of bounds";
  Ok v.

Inductive target := TView (v : MemoryView) | TRange (r : interval).

Definition in_allocation (a : MemoryAllocation) (r : interval) : result interval :=
  if (r.1 <? al_address a) || (al_end a <? r.2) then raise MemoryBoundsError "access escapes buffer"
  else Ok r.

(** [_resolve_ranges] and [_resolve_physical_ranges] *)
Definition resolve_ranges (a : MemoryAllocation) (t : target) : result (list interval) :=
  rs ← match t with TView v => address_ranges v | TRange r => Ok [r] end;
  omap_list (in_allocation a) rs.
Definition resolve_physical_ranges (a : MemoryAllocation) (t : target) : result (list interval) :=
  rs ← match t with TView v => physical_address_ranges v | TRange r => Ok [r] end;
  omap_list (in_allocation a) rs.

(** Python slices of a byte string, read and assigned. *)
Definition get_slice {A} (l : list A) (r : interval) : list A :=
  take (Z.to_nat r.2 - Z.to_nat r.1) (drop (Z.to_nat r.1) l).
Definition set_slice {A} (l : list A) (r : interval) (new : list A) : list A :=
  take (Z.to_nat r.1) l ++ new ++ drop (Z.to_nat r.2) l.

(** The positions of the uninitialized bytes of a range. *)
Definition poisoned (initialized : list bool) (r : interval) : list Z :=
  filter (λ z, initialized !! Z.to_nat z = Some false) (seqZ r.1 (r.2 - r.1)).

(** [_check_initialized_ranges] *)
Definition check_initialized_ranges (a : MemoryAllocation) (rs : list interval) : memM bool :=
  s ← st_get;
  let initialized := as_initialized (get_space s (al_space a)) in
  let missing := flat_map (λ r, match poisoned initialized r with
                                | [] => []
                                | z :: zs => [(z, default z (last (z :: zs)) + 1)] end) rs in
  match missing with
  | [] => mret true
  | (first, _) :: _ =>
      let finish := match last missing with Some m => m.2 | None => first end in
      _ ← rt_report UninitializedMemoryError
        (MkDiag "read-before-write"
           ("read-before-write in buffer '" +:+ bs_name (al_spec a) +:+ "', bytes [" +:+ pretty first
            +:+ ", " +:+ pretty finish +:+ ")")
           (Some (bs_name (al_spec a))) (al_core_id a) (Some first) (Some finish) []);
      mret false
  end.

(** [read] *)
Definition read (a : MemoryAllocation) (t : target) : memM (list Z) :=
  rs ← st_lift (resolve_ranges a t);
  _ ← check_initialized_ranges a rs;
  s ← st_get;
  mret (flat_map (get_slice (as_data (get_space s (al_space a)))) rs).

(** [check_initialized] *)
Definition check_initialized (a : MemoryAllocation) (t : target) : memM bool :=
  rs ← st_lift (resolve_physical_ranges a t);
  check_initialized_ranges a rs.

(** [initialized] *)
Definition initialized (s : MemoryRuntime) (a : MemoryAllocation) (t : option target) : result bool :=
  rs ← match t with
       | None => r ← al_range a; Ok [r]
       | Some t => resolve_physical_ranges a t
       end;
  Ok (forallb (λ r, forallb id (get_slice (as_initialized (get_space s (al_space a))) r)) rs).

(** [mark_initialized] *)
Definition mark_initialized (a : MemoryAllocation) (t : target) (flag : bool) : memM unit :=
  rs ← st_lift (resolve_physical_ranges a t);
  s ← st_get;
  let space := get_space s (al_space a) in
  st_put (set_space (al_space a)
    (MkSpace (as_data space)
       (foldl (λ init r, set_slice init r (replicate (Z.to_nat (range_size r)) flag))
          (as_initialized space) rs)) s).

(** The loop of [write]: each range takes its share of the payload. *)
Fixpoint write_ranges (space : AddressSpace) (rs : list interval) (payload : list Z) : AddressSpace :=
  match rs with
  | [] => space
  | r :: rs =>
      let n := Z.to_nat (range_size r) in
      write_ranges
        (MkSpace (set_slice (as_data space) r (take n payload))
                 (set_slice (as_initialized space) r (replicate n true)))
        rs (drop n payload)
  end.

(** [write] *)
Definition write (a : MemoryAllocation) (t : target) (payload : list Z) : memM unit :=
  rs ← st_lift (resolve_ranges a t);
  _ ← st_lift (ensure (Z.of_nat (length payload) =? total_size rs) MemoryBoundsError "write size");
  s ← st_get;
  st_put (set_space (al_space a) (write_ranges (get_space s (al_space a)) rs payload) s).

(** ** Usage *)

(** [local_memory_high_watermark_bytes] *)
Definition local_memory_high_watermark_bytes (s : MemoryRuntime) : dict string Z :=
  foldl (λ usage '((scope, owner), space),
    if is_shared scope || bool_decide (owner = None) then usage
    else dset usage (scope_value scope)
           (Z.max (dget_default 0 usage (scope_value scope)) (Z.of_nat (length (as_data space)))))
    [] (rt_spaces s).

(** [_buffer_regions] *)
Fixpoint buffer_regions (v : pyval) : list BufferRegion :=
  match v with
  | VRegion r => [r]
  | VDict kvs => (fix go kvs := match kvs with [] => [] | (_, x) :: kvs => buffer_regions x ++ go kvs end) kvs
  | VTuple l | VList l => (fix go l := match l with [] => [] | x :: l => buffer_regions x ++ go l end) l
  | _ => []
  end.

Abbreviation lifetimes := (dict AllocKey (MemoryAllocation * Z * Z)).

(** The use interval of every local allocation that the operation records name. *)
Definition note_region (s : MemoryRuntime) (owner : Z) (rec : ExecutionRecord) (acc : lifetimes)
    (region : BufferRegion) : result lifetimes :=
  if is_shared (rg_scope region) then Ok acc
  else
    a ← get s (rg_buffer region) (rg_scope region) (Some owner);
    Ok (dset acc (al_id a)
          (match dget acc (al_id a) with
           | None => (a, start_cycle rec, end_cycle rec)
           | Some (_, first, finish) => (a, Z.min first (start_cycle rec), Z.max finish (end_cycle rec))
           end)).
Definition note_record (s : MemoryRuntime) (acc : lifetimes) (rec : ExecutionRecord) : result lifetimes :=
  if mem_str (category rec) ["operation"] then
    owner ← match r_lane rec with
            | VECTOR_1 => vector1_owner s (r_core_id rec)
            | _ => Ok (r_core_id rec) end;
    ofold (note_region s owner rec) (buffer_regions (VDict (r_metadata rec))) acc
  else Ok acc.

(** Occupied bytes per scope of a set of live allocations: the largest over the owners. *)
Definition occupancy (active : dict AllocKey MemoryAllocation) : result (dict string Z) :=
  ranges ← ofold (λ acc a,
      r ← al_range a;
      Ok (dset acc (al_space a) (dget_default [] acc (al_space a) ++ [r]))) (dvalues active)
    ([] : dict SpaceKey (list interval));
  Ok (foldl (λ by_scope '((scope, _), rs),
      dset by_scope (scope_value scope)
        (Z.max (dget_default 0 by_scope (scope_value scope)) (merged_range_size rs))) [] ranges).

Definition transitions_of (l : lifetimes) : dict Z (list (bool * MemoryAllocation)) :=
  foldl (λ acc '(_, (a, first, finish)),
    let acc1 := dset acc first (dget_default [] acc first ++ [(true, a)]) in
    dset acc1 finish (dget_default [] acc1 finish ++ [(false, a)])) [] l.

(** One cycle of the timeline: allocations leave before others enter. *)
Definition live_step (transitions : dict Z (list (bool * MemoryAllocation)))
    (st : dict AllocKey MemoryAllocation * list (Z * dict string Z)) (cycle : Z)
    : result (dict AllocKey MemoryAllocation * list (Z * dict string Z)) :=
  let events := dget_default [] transitions cycle in
  let after_exit := foldl (λ act '(entering, a), if entering : bool then act else dpop act (al_id a)) st.1 events in
  let active := foldl (λ act '(entering, a), if entering : bool then dset act (al_id a) a else act) after_exit events in
  by_scope ← occupancy active;
  Ok (active, st.2 ++ [(cycle, by_scope)]).

(** [local_memory_live_bytes] *)
Definition local_memory_live_bytes (s : MemoryRuntime) (recs : list ExecutionRecord)
    : result (list (Z * dict string Z)) :=
  l ← ofold (note_record s) recs [];
  let transitions := transitions_of l in
  final ← ofold (live_step transitions) (py_sorted Z_leb (dkeys transitions)) ([], []);
  Ok final.2.
