(* ===== verification/MemoryProofs.v ===== *)
(** Correctness of the memory runtime: writes are read back and touch nothing else,
    allocation keeps the runtime well formed, the two vector banks of a core never share
    an owner, and what poison bookkeeping changes and answers. *)

From Stdlib Require Import Sorting.Sorted.
From S2P Require Import Prelude PyDict PySort PyStr Errors Values Program Trace Hazard Intervals MemoryView Memory.
Local Open Scope string_scope.
Local Open Scope Z_scope.
Local Open Scope list_scope.

(** ** Slices *)

Definition within {A} (l : list A) (r : interval) : Prop := 0 <= r.1 <= r.2 ∧ r.2 <= Z.of_nat (length l).

Section slices.
Context {A : Type}.
Implicit Types (l new : list A) (r : interval).

Lemma length_set_slice l r new :
  within l r → Z.of_nat (length new) = range_size r → length (set_slice l r new) = length l.
Proof.
  intros [Hr Hl] Hn. unfold set_slice, range_size in *.
  rewrite !length_app, length_take, length_drop. lia.
Qed.

Lemma lookup_set_slice l r new z :
  within l r → Z.of_nat (length new) = range_size r → 0 <= z →
  set_slice l r new !! Z.to_nat z =
  if decide (covers r z) then new !! Z.to_nat (z - r.1) else l !! Z.to_nat z.
Proof.
  intros [Hr Hl] Hn Hz. unfold set_slice, range_size in *. case_decide as Hc; unfold covers in Hc.
  - rewrite lookup_app_r by (rewrite length_take; lia). rewrite length_take.
    rewrite lookup_app_l by lia. f_equal. lia.
  - destruct (decide (z < r.1)).
    + rewrite lookup_app_l by (rewrite length_take; lia). apply lookup_take_lt. lia.
    + rewrite lookup_app_r by (rewrite length_take; lia). rewrite length_take.
      rewrite lookup_app_r by lia. rewrite lookup_drop. f_equal. lia.
Qed.

Lemma get_slice_ext l l' r :
  within l r → within l' r → (∀ z, covers r z → l !! Z.to_nat z = l' !! Z.to_nat z) →
  get_slice l r = get_slice l' r.
Proof.
  intros [Hr Hl] [_ Hl'] H. unfold get_slice. apply list_eq. intros i.
  destruct (decide (i < Z.to_nat r.2 - Z.to_nat r.1)%nat).
  - rewrite !lookup_take_lt, !lookup_drop by lia.
    specialize (H (r.1 + Z.of_nat i) ltac:(unfold covers; lia)).
    by replace (Z.to_nat (r.1 + Z.of_nat i)) with (Z.to_nat r.1 + i)%nat in H by lia.
  - rewrite !lookup_ge_None_2; [done| |]; rewrite length_take; lia.
Qed.

Lemma get_set_slice l r new :
  within l r → Z.of_nat (length new) = range_size r → get_slice (set_slice l r new) r = new.
Proof.
  intros [Hr Hl] Hn. unfold get_slice, set_slice, range_size in *.
  rewrite drop_app_length' by (rewrite length_take; lia).
  by rewrite take_app_length' by lia.
Qed.
End slices.

Lemma total_size_within {A} (l : list A) rs : (∀ r, r ∈ rs → within l r) → 0 <= total_size rs.
Proof.
  unfold total_size. induction rs as [|x rs IH]; intros Hx; cbn; [lia|].
  destruct (Hx x ltac:(by left)) as [Hr _].
  assert (0 <= foldr (λ r acc, range_size r + acc) 0 rs) by (apply IH; intros; apply Hx; by right).
  assert (0 <= range_size x) by (unfold range_size; lia). lia.
Qed.

(** ** Writing ranges *)

(** Ranges that do not overlap each other. *)
Definition disjoint_ranges (rs : list interval) : Prop :=
  ForallOrdPairs (λ x y, overlaps x y = false) rs.

Lemma overlaps_covers x y z : overlaps x y = false → covers x z → ¬ covers y z.
Proof. unfold overlaps, covers. intros H. lia. Qed.

Definition space_within (a : AddressSpace) (rs : list interval) : Prop :=
  length (as_initialized a) = length (as_data a) ∧ ∀ r, r ∈ rs → within (as_data a) r.

Lemma write_ranges_outside rs sp payload :
  space_within sp rs → Z.of_nat (length payload) = total_size rs →
  let sp' := write_ranges sp rs payload in
  length (as_data sp') = length (as_data sp) ∧
  length (as_initialized sp') = length (as_initialized sp) ∧
  (∀ z, 0 <= z → ¬ covered rs z →
     as_data sp' !! Z.to_nat z = as_data sp !! Z.to_nat z ∧
     as_initialized sp' !! Z.to_nat z = as_initialized sp !! Z.to_nat z) ∧
  (∀ z, covered rs z → as_initialized sp' !! Z.to_nat z = Some true).
Proof.
  revert sp payload; induction rs as [|r rs IH]; intros sp payload [Hlen Hw] Hp; cbn [write_ranges].
  { split; [done|]. split; [done|]. split; [done|]. intros z Hz. by inversion Hz. }
  assert (within (as_data sp) r) as Hr by (apply Hw; set_solver).
  assert (within (as_initialized sp) r) as Hr' by (unfold within in *; by rewrite Hlen).
  change (total_size (r :: rs)) with (range_size r + total_size rs) in Hp.
  assert (0 <= range_size r) as Hs by (unfold within, range_size in *; lia).
  assert (0 <= total_size rs) as Hts.
  { apply (total_size_within (as_data sp)). intros x Hx. apply Hw. by right. }
  set (n := Z.to_nat (range_size r)).
  assert (Z.of_nat (length (take n payload)) = range_size r) as Hn by (rewrite length_take; lia).
  assert (Z.of_nat (length (replicate n true)) = range_size r) as Hn' by (rewrite length_replicate; lia).
  set (sp1 := MkSpace _ _).
  assert (length (as_data sp1) = length (as_data sp)) as Hd1 by (by apply length_set_slice).
  assert (length (as_initialized sp1) = length (as_initialized sp)) as Hi1 by (by apply length_set_slice).
  destruct (IH sp1 (drop n payload)) as (H1 & H2 & H3 & H4).
  { split; [congruence|]. intros x Hx. pose proof (Hw x ltac:(set_solver)). unfold within in *. by rewrite Hd1. }
  { rewrite length_drop. lia. }
  split; [congruence|]. split; [congruence|]. split.
  - intros z Hz Hc. rewrite covered_cons in Hc. destruct (H3 z Hz ltac:(tauto)) as [-> ->]. cbn.
    rewrite !lookup_set_slice by done. rewrite !decide_False by tauto. done.
  - intros z Hc. destruct (decide (covered rs z)) as [Hin|Hout]; [by apply H4|].
    apply covered_cons in Hc as [Hc|]; [|done].
    assert (0 <= z) as Hz by (unfold within, covers in *; lia).
    destruct (H3 z Hz Hout) as [_ ->]. cbn. rewrite lookup_set_slice by done.
    rewrite decide_True by done. apply lookup_replicate_2. unfold covers, range_size in *. lia.
Qed.

Lemma write_ranges_read rs sp payload :
  space_within sp rs → disjoint_ranges rs → Z.of_nat (length payload) = total_size rs →
  flat_map (get_slice (as_data (write_ranges sp rs payload))) rs = payload.
Proof.
  revert sp payload; induction rs as [|r rs IH]; intros sp payload Hsw Hdis Hp.
  { destruct payload; [done|]. cbn in Hp. lia. }
  pose proof Hsw as [Hlen Hw]. inversion Hdis as [|? ? Hr Hrs]; subst. cbn [flat_map write_ranges].
  assert (within (as_data sp) r) as Hwr by (apply Hw; set_solver).
  change (total_size (r :: rs)) with (range_size r + total_size rs) in Hp.
  assert (0 <= range_size r) as Hs by (unfold within, range_size in *; lia).
  assert (0 <= total_size rs) as Hts.
  { apply (total_size_within (as_data sp)). intros x Hx. apply Hw. by right. }
  set (n := Z.to_nat (range_size r)).
  assert (Z.of_nat (length (take n payload)) = range_size r) as Hn by (rewrite length_take; lia).
  assert (Z.of_nat (length (replicate n true)) = range_size r) as Hn' by (rewrite length_replicate; lia).
  set (sp1 := MkSpace _ _).
  assert (length (as_data sp1) = length (as_data sp)) as Hd1 by (by apply length_set_slice).
  assert (length (as_initialized sp1) = length (as_initialized sp)) as Hi1.
  { apply length_set_slice; [|done]. unfold within in *. by rewrite Hlen. }
  assert (space_within sp1 rs) as Hsw1.
  { split; [congruence|]. intros x Hx. pose proof (Hw x ltac:(set_solver)). unfold within in *. by rewrite Hd1. }
  assert (Z.of_nat (length (drop n payload)) = total_size rs) as Hp1 by (rewrite length_drop; lia).
  rewrite (IH sp1 (drop n payload) Hsw1 Hrs Hp1).
  destruct (write_ranges_outside rs sp1 (drop n payload) Hsw1 Hp1) as (Hl & _ & Hout & _).
  rewrite <- (take_drop n payload) at 3. f_equal.
  transitivity (get_slice (set_slice (as_data sp) r (take n payload)) r); [|by apply get_set_slice].
  apply get_slice_ext.
  - unfold within in *. rewrite Hl, Hd1. done.
  - unfold within in *. rewrite length_set_slice by done. done.
  - intros z Hz. destruct (Hout z) as [-> _]; [unfold within, covers in *; lia| |done].
    unfold covered. rewrite Exists_exists. intros (x & Hx & Hcx).
    rewrite Forall_forall in Hr. by eapply overlaps_covers; [apply Hr| |].
Qed.

(** ** Reading back a write *)

Lemma range_init_inv s e r : range_init s e = Ok r → r = (s, e) ∧ range_ok r.
Proof.
  unfold range_init. destruct (Z.ltb_spec s 0), (Z.ltb_spec e s); cbn; intros H1; try done.
  injection H1 as <-. split; [done|]. unfold range_ok. cbn. lia.
Qed.

Lemma append_fold_range_ok start len os rs rs' :
  ofold (append_at start len) os rs = Ok rs' → (∀ r, r ∈ rs → range_ok r) → ∀ r, r ∈ rs' → range_ok r.
Proof.
  revert rs; induction os as [|o os IH]; intros rs H Hok; cbn [ofold] in H; [by injection H as <-|].
  apply outcome_bind_ok in H as (rs1 & H1 & H2). apply (IH rs1 H2).
  unfold append_at in H1. apply outcome_bind_ok in H1 as (cur & Hcur & H1).
  apply range_init_inv in Hcur as [_ Hcur].
  unfold append_range in H1. destruct (last rs) as [r0|]; [destruct (_ =? _)|].
  - apply outcome_bind_ok in H1 as (m & Hm & H1). apply range_init_inv in Hm as [_ Hm].
    injection H1 as <-. intros x [Hx|Hx%list_elem_of_singleton]%elem_of_app; [|by subst].
    apply Hok. exact (subseteq_take (length rs - 1) rs x Hx).
  - injection H1 as <-. set_solver.
  - injection H1 as <-. set_solver.
Qed.

Lemma address_ranges_range_ok v rs : address_ranges v = Ok rs → ∀ r, r ∈ rs → range_ok r.
Proof.
  unfold address_ranges. destruct (is_empty_view v) eqn:Ee; [intros H; injection H as <-; set_solver|].
  intros (it & _ & H)%outcome_bind_ok. destruct (bool_decide _).
  - apply outcome_bind_ok in H as (r & Hr & H). injection H as <-.
    intros x ->%list_elem_of_singleton. unfold byte_range in Hr. rewrite Ee in Hr.
    apply outcome_bind_ok in Hr as (it' & _ & Hr). by apply range_init_inv in Hr as [_ ?].
  - destruct (last (dims v)) as [[e s]|]; [destruct (s =? it)|];
      (eapply append_fold_range_ok; [exact H|set_solver]).
Qed.

(** Views and the ranges that code builds with [AddressRange] are valid targets. *)
Definition target_ok (t : target) : Prop := match t with TView _ => True | TRange r => range_ok r end.

Lemma resolve_ranges_within a t rs :
  target_ok t → resolve_ranges a t = Ok rs →
  ∀ r, r ∈ rs → range_ok r ∧ al_address a <= r.1 ∧ r.2 <= al_end a.
Proof.
  intros Ht (rs0 & H0 & H)%outcome_bind_ok.
  assert (∀ r, r ∈ rs0 → range_ok r) as Hok0.
  { destruct t as [v|r]; [by apply (address_ranges_range_ok v)|]. injection H0 as <-.
    intros x ->%list_elem_of_singleton. done. }
  apply omap_list_ok in H. intros r Hr. apply list_elem_of_lookup in Hr as [i Hi].
  destruct (Forall2_lookup_r _ _ _ _ _ H Hi) as (r0 & Hr0 & Heq).
  unfold in_allocation in Heq. destruct (_ || _) eqn:E; [done|]. injection Heq as ->.
  apply orb_false_iff in E as [E1 E2]. split; [|lia].
  apply Hok0. by apply list_elem_of_lookup_2 in Hr0.
Qed.

(** The backing of an allocation reaches to its end. *)
Record backed (s : MemoryRuntime) (a : MemoryAllocation) : Prop := {
  bk_address : 0 <= al_address a <= al_end a;
  bk_data : al_end a <= Z.of_nat (length (as_data (get_space s (al_space a))));
  bk_initialized : length (as_initialized (get_space s (al_space a))) =
                   length (as_data (get_space s (al_space a)));
}.

Lemma backed_within s a t rs :
  backed s a → target_ok t → resolve_ranges a t = Ok rs → space_within (get_space s (al_space a)) rs.
Proof.
  intros [Ha Hd Hi] Ht Hrs. split; [done|]. intros r Hr.
  destruct (resolve_ranges_within a t rs Ht Hrs r Hr) as (Hok & H1 & H2).
  unfold within, range_ok in *. lia.
Qed.

Lemma get_set_space s k sp k' :
  get_space (set_space k sp s) k' = if decide (k = k') then sp else get_space s k'.
Proof. unfold get_space, dget_default. cbn. rewrite dget_dset. by case_decide. Qed.

Lemma write_ok a t payload s s' rs :
  resolve_ranges a t = Ok rs → write a t payload s = (s', Ok tt) →
  Z.of_nat (length payload) = total_size rs ∧
  s' = set_space (al_space a) (write_ranges (get_space s (al_space a)) rs payload) s.
Proof.
  intros Hrs. unfold write, mbind, stM_bind, st_lift, st_get, st_put. rewrite Hrs.
  unfold ensure, require. destruct (Z.eqb_spec (Z.of_nat (length payload)) (total_size rs)); [|done].
  intros H. by injection H as <-.
Qed.

Lemma not_poisoned init r :
  (∀ z, covers r z → init !! Z.to_nat z = Some true) → poisoned init r = [].
Proof.
  intros H. unfold poisoned. apply filter_none. intros z Hz%elem_of_seqZ.
  rewrite H by (unfold covers; lia). done.
Qed.

Lemma read_initialized a t s rs :
  resolve_ranges a t = Ok rs →
  (∀ z, covered rs z → as_initialized (get_space s (al_space a)) !! Z.to_nat z = Some true) →
  read a t s = (s, Ok (flat_map (get_slice (as_data (get_space s (al_space a)))) rs)).
Proof.
  intros Hrs Hinit. unfold read, mbind, stM_bind, st_lift, st_get. rewrite Hrs.
  unfold check_initialized_ranges, mbind, stM_bind, st_get.
  assert (∀ l, (∀ r, r ∈ l → r ∈ rs) → flat_map (λ r,
    match poisoned (as_initialized (get_space s (al_space a))) r with
    | [] => []
    | z :: zs => [(z, default z (last (z :: zs)) + 1)] end) l = []) as Hmiss.
  { induction l as [|r l IH]; intros Hl; [done|]. cbn [flat_map].
    rewrite (not_poisoned _ r); [cbn [app]; apply IH; set_solver|].
    intros z Hz. apply Hinit. unfold covered. apply Exists_exists. exists r. set_solver. }
  rewrite Hmiss by done. done.
Qed.

Lemma write_read_back a t payload s s' rs :
  backed s a → target_ok t → resolve_ranges a t = Ok rs → disjoint_ranges rs →
  write a t payload s = (s', Ok tt) →
  read a t s' = (s', Ok payload) ∧
  (∀ k z, 0 <= z → k ≠ al_space a ∨ ¬ covered rs z →
     as_data (get_space s' k) !! Z.to_nat z = as_data (get_space s k) !! Z.to_nat z).
Proof.
  intros Hb Ht Hrs Hdis Hw. destruct (write_ok a t payload s s' rs Hrs Hw) as [Hp ->].
  pose proof (backed_within s a t rs Hb Ht Hrs) as Hsw.
  destruct (write_ranges_outside rs _ payload Hsw Hp) as (_ & _ & Hout & Hinit). split.
  - rewrite (read_initialized a t _ rs Hrs).
    + rewrite get_set_space, decide_True by done. by rewrite write_ranges_read.
    + intros z Hz. rewrite get_set_space, decide_True by done. by apply Hinit.
  - intros k z Hz Hk. rewrite get_set_space. case_decide as Heq; [|done]. subst k.
    destruct Hk as [|Hk]; [done|]. by apply Hout.
Qed.

(** C21. A write is read back and touches nothing else: writing a payload to a target whose
    ranges do not overlap each other, then reading the target, returns the payload without a
    hazard report; every other byte of the space, and every other space, is unchanged. *)
Theorem write_then_read a t payload s s' rs :
  backed s a → target_ok t → resolve_ranges a t = Ok rs → disjoint_ranges rs →
  write a t payload s = (s', Ok tt) →
  read a t s' = (s', Ok payload) ∧
  (∀ k z, 0 <= z → k ≠ al_space a ∨ ¬ covered rs z →
     as_data (get_space s' k) !! Z.to_nat z = as_data (get_space s k) !! Z.to_nat z).
Proof. apply write_read_back. Qed.

(** ** The runtime invariant *)

Definition separate (x y : MemoryAllocation) : Prop :=
  overlaps (al_address x, al_end x) (al_address y, al_end y) = false ∨
  overlap_is_declared_reuse (al_spec x) (al_spec y) = true.

Record runtime_wf (s : MemoryRuntime) : Prop := {
  rw_backed : ∀ k a, (k, a) ∈ rt_allocations s → backed s a;
  rw_key : ∀ k a, (k, a) ∈ rt_allocations s → k.1 = al_space a;
  rw_capacity : ∀ k a cap, (k, a) ∈ rt_allocations s →
    dget (rt_capacities s) (bs_scope (al_spec a)) = Some cap → al_end a <= cap;
  rw_next : ∀ k a, (k, a) ∈ rt_allocations s → al_end a <= dget_default 0 (rt_next_address s) (al_space a);
  rw_spaces : ∀ k, length (as_initialized (get_space s k)) = length (as_data (get_space s k));
  rw_separate : mode (rt_reporter s) = "error" → ∀ k1 a1 k2 a2,
    (k1, a1) ∈ rt_allocations s → (k2, a2) ∈ rt_allocations s → al_id a1 ≠ al_id a2 →
    al_space a1 = al_space a2 → separate a1 a2;
}.

Lemma reuse_sym x y : overlap_is_declared_reuse x y = overlap_is_declared_reuse y x.
Proof.
  unfold overlap_is_declared_reuse. rewrite (andb_comm (truthy (spec_meta x _))).
  destruct (_ && _); [done|]. rewrite orb_comm. destruct (_ || _); [done|].
  destruct (bs_lifetime x) as [[? ?]|], (bs_lifetime y) as [[? ?]|]; try done. apply orb_comm.
Qed.

Lemma separate_sym x y : separate x y → separate y x.
Proof.
  unfold separate, overlaps. rewrite (reuse_sym (al_spec y)), andb_comm. cbn. tauto.
Qed.

Lemma ensure_size_spec n sp :
  length (as_initialized sp) = length (as_data sp) →
  length (as_initialized (ensure_size n sp)) = length (as_data (ensure_size n sp)) ∧
  n <= Z.of_nat (length (as_data (ensure_size n sp))) ∧
  Z.of_nat (length (as_data sp)) <= Z.of_nat (length (as_data (ensure_size n sp))).
Proof.
  intros Heq. unfold ensure_size. destruct (Z.ltb_spec 0 (n - Z.of_nat (length (as_data sp)))); [|lia].
  cbn. rewrite !length_app, !length_replicate. lia.
Qed.

(** Only the reporter can change while overlaps are checked, and it keeps its mode. *)
Definition only_reporter (s s' : MemoryRuntime) : Prop :=
  ∃ r, s' = set_reporter r s ∧ mode r = mode (rt_reporter s).

Lemma only_reporter_refl s : only_reporter s s.
Proof. exists (rt_reporter s). by destruct s. Qed.

Lemma only_reporter_trans s1 s2 s3 : only_reporter s1 s2 → only_reporter s2 s3 → only_reporter s1 s3.
Proof. intros (r & -> & Hr) (r' & -> & Hr'). exists r'. split; [done|]. by rewrite Hr'. Qed.

Lemma report_mode et d r : mode (report et d r).1 = mode r.
Proof. unfold report. destruct (mem_str _ _); [done|]. by destruct (mem_str _ _). Qed.

Lemma rt_report_only et d s : only_reporter s (rt_report et d s).1.
Proof.
  unfold rt_report. pose proof (report_mode et d (rt_reporter s)) as Hm.
  destruct (report et d (rt_reporter s)) as [r ans]. by exists r.
Qed.

Lemma check_overlap_only spec owner r e s : only_reporter s (check_overlap spec owner r e s).1.
Proof.
  destruct e as [[[scope o] nm] ex]. unfold check_overlap.
  destruct (_ && _); [|apply only_reporter_refl]. unfold mbind, stM_bind, st_lift.
  destruct (al_range ex); [|apply only_reporter_refl].
  destruct (_ && _); [apply rt_report_only|apply only_reporter_refl].
Qed.

Lemma check_overlaps_only spec owner r l s :
  only_reporter s (st_iter (check_overlap spec owner r) l s).1.
Proof.
  revert s; induction l as [|e l IH]; intros s; [apply only_reporter_refl|].
  cbn [st_iter]. unfold mbind, stM_bind.
  pose proof (check_overlap_only spec owner r e s) as H1.
  destruct (check_overlap spec owner r e s) as [s1 [[]|err]]; [|done].
  eapply only_reporter_trans; [exact H1|apply IH].
Qed.

(** In [error] mode the check passes only an allocation that is separate from every existing
    one of its space. *)
Lemma check_overlap_error spec owner r e s s' :
  mode (rt_reporter s) = "error" → check_overlap spec owner r e s = (s', Ok tt) →
  e.1.1 = (bs_scope spec, owner) →
  overlaps r (al_address e.2, al_end e.2) = false ∨
  overlap_is_declared_reuse spec (al_spec e.2) = true.
Proof.
  intros Hm H Hk. destruct e as [[[scope o] nm] ex]. cbn in Hk. injection Hk as -> ->.
  unfold check_overlap in H. rewrite !bool_decide_true in H by done. cbn [andb] in H.
  unfold mbind, stM_bind, st_lift in H. destruct (al_range ex) as [er|err] eqn:Er; [|done].
  apply range_init_inv in Er as [-> _]. cbn [snd] in *.
  destruct (overlaps r _); [|by left]. destruct (overlap_is_declared_reuse _ _); [by right|].
  exfalso. cbn [andb negb] in H. unfold rt_report, report in H. rewrite Hm in H. revert H.
  eval_mem_str. done.
Qed.

Lemma check_overlaps_error spec owner r l s s' :
  mode (rt_reporter s) = "error" → st_iter (check_overlap spec owner r) l s = (s', Ok tt) →
  ∀ e, e ∈ l → e.1.1 = (bs_scope spec, owner) →
  overlaps r (al_address e.2, al_end e.2) = false ∨
  overlap_is_declared_reuse spec (al_spec e.2) = true.
Proof.
  revert s; induction l as [|x l IH]; intros s Hm H e He Hk; [set_solver|].
  cbn [st_iter] in H. unfold mbind, stM_bind in H.
  pose proof (check_overlap_only spec owner r x s) as (rep & Hs1 & Hrep).
  destruct (check_overlap spec owner r x s) as [s1 [[]|err]] eqn:E; [|done]. cbn in Hs1. subst s1.
  apply elem_of_cons in He as [->|He]; [by eapply check_overlap_error|].
  eapply (IH _ _ H); [done|done]. Unshelve. cbn. congruence.
Qed.

Definition install (a : MemoryAllocation) (s : MemoryRuntime) : MemoryRuntime :=
  let s1 := set_space (al_space a) (ensure_size (al_end a) (get_space s (al_space a))) s in
  let s2 := set_allocation (al_id a) a s1 in
  set_next (al_space a) (Z.max (dget_default 0 (rt_next_address s) (al_space a)) (al_end a)) s2.

(** A successful allocation in terms of the state it started from. *)
Record allocated (spec : BufferSpec) (core : Owner) (addr : option Z) (s : MemoryRuntime)
    (a : MemoryAllocation) (s' : MemoryRuntime) : Prop := {
  ac_spec : al_spec a = spec;
  ac_owner : normalize_owner s (bs_scope spec) core = Ok (al_core_id a);
  ac_fresh : dget (rt_allocations s) (al_id a) = None;
  ac_range : 0 <= al_address a <= al_end a;
  ac_base : addr = None → bs_address spec = None →
    al_address a = dget_default 0 (rt_next_address s) (al_space a);
  ac_capacity : ∀ cap, dget (rt_capacities s) (bs_scope spec) = Some cap → al_end a <= cap;
  ac_separate : mode (rt_reporter s) = "error" → ∀ k x, (k, x) ∈ rt_allocations s →
    k.1 = al_space a → separate a x;
  ac_state : ∃ s1, only_reporter s s1 ∧ s' = install a s1;
}.

Lemma allocate_cases spec core addr s s' ans :
  allocate spec core addr s = (s', ans) →
  match ans with
  | Ok a => allocated spec core addr s a s'
  | Raise _ => only_reporter s s'
  end.
Proof.
  unfold allocate, mbind, stM_bind, st_get, st_lift, st_put, mret, stM_ret.
  destruct (normalize_owner s (bs_scope spec) core) as [owner|e] eqn:Eo;
    [|intros H; injection H as <- <-; apply only_reporter_refl].
  unfold ensure at 1, require. destruct (negb _) eqn:Em;
    [|intros H; injection H as <- <-; apply only_reporter_refl].
  destruct (buffer_size_bytes spec) as [size|e] eqn:Es;
    [|intros H; injection H as <- <-; apply only_reporter_refl].
  destruct (match addr with Some _ => _ | None => _ end) as [[]|e] eqn:Ea;
    [|intros H; injection H as <- <-; apply only_reporter_refl].
  set (base := default _ _). destruct (range_init base (base + size)) as [r|e] eqn:Er;
    [|intros H; injection H as <- <-; apply only_reporter_refl].
  match goal with |- context [match dget (rt_capacities s) (bs_scope spec) with
    | Some capacity => @?f capacity | None => ?o end] =>
    destruct (match dget (rt_capacities s) (bs_scope spec) with
    | Some capacity => f capacity | None => o end) as [[]|e] eqn:Ec end;
    [|intros H; injection H as <- <-; apply only_reporter_refl].
  pose proof (check_overlaps_only spec owner r (rt_allocations s) s) as Honly.
  destruct (st_iter _ _ s) as [s1 [[]|e]] eqn:Ei; [|intros H; injection H as <- <-; exact Honly].
  apply range_init_inv in Er as [-> Hr]. unfold range_ok in Hr. cbn [fst snd] in *.
  intros H. injection H as <- <-. set (a := MkAlloc spec size base owner).
  change (base + size) with (al_end a) in *. split.
  - done.
  - done.
  - apply negb_true_iff, dmem_false in Em. exact Em.
  - cbn in Hr. done.
  - intros -> Hsp. cbn [al_address a]. subst base. by rewrite Hsp.
  - intros cap Hcap. rewrite Hcap in Ec. apply ensure_ok in Ec. lia.
  - intros Hm k x Hin Hk. cbn [al_space] in *.
    exact (check_overlaps_error spec owner _ _ s s1 Hm Ei (k, x) Hin Hk).
  - exists s1. split; [done|]. destruct Honly as (rep & -> & _). done.
Qed.

Lemma elem_of_dset_inv {K V} `{EqDecision K} (d : dict K V) k v k' v' :
  (k', v') ∈ dset d k v → v' = v ∧ k' = k ∨ (k', v') ∈ d.
Proof.
  induction d as [|[k2 v2] d IH]; cbn [dset]; [set_solver|].
  case_decide; subst; rewrite !elem_of_cons.
  - intros [?|?]; [simplify_eq; auto|auto].
  - intros [?|Hin%IH]; [simplify_eq; auto|tauto].
Qed.

Lemma runtime_wf_reporter s s' : only_reporter s s' → runtime_wf s → runtime_wf s'.
Proof.
  intros (r & -> & Hm) [H1 H2 H3 H4 H5 H6].
  split; [|exact H2|exact H3|exact H4|exact H5|cbn; rewrite Hm; exact H6].
  intros k a Hin. destruct (H1 k a Hin) as [? ? ?]. by split.
Qed.

Lemma install_space a s k :
  length (as_initialized (get_space s (al_space a))) = length (as_data (get_space s (al_space a))) →
  length (as_initialized (get_space s k)) = length (as_data (get_space s k)) →
  length (as_initialized (get_space (install a s) k)) = length (as_data (get_space (install a s) k)) ∧
  Z.of_nat (length (as_data (get_space s k))) <= Z.of_nat (length (as_data (get_space (install a s) k))) ∧
  (k = al_space a → al_end a <= Z.of_nat (length (as_data (get_space (install a s) k)))).
Proof.
  intros Ha Hk. unfold install.
  change (get_space (set_next _ _ (set_allocation _ _ ?x)) k) with (get_space x k).
  rewrite get_set_space. destruct (decide (al_space a = k)) as [Heq|Hne].
  - rewrite <- Heq. destruct (ensure_size_spec (al_end a) _ Ha) as (? & ? & ?). done.
  - split; [done|]. split; [lia|]. congruence.
Qed.

(** Installing a separate allocation keeps the runtime well formed. *)
Lemma install_wf a s :
  runtime_wf s → 0 <= al_address a <= al_end a →
  (∀ cap, dget (rt_capacities s) (bs_scope (al_spec a)) = Some cap → al_end a <= cap) →
  (mode (rt_reporter s) = "error" → ∀ k x, (k, x) ∈ rt_allocations s → k.1 = al_space a → separate a x) →
  runtime_wf (install a s).
Proof.
  intros [H1 H2 H3 H4 H5 H6] Hr Hcap Hsep.
  assert (∀ k x, (k, x) ∈ rt_allocations (install a s) → x = a ∧ k = al_id a ∨ (k, x) ∈ rt_allocations s)
    as Hcases by (intros k x Hin; exact (elem_of_dset_inv _ _ _ _ _ Hin)).
  assert (∀ k, dget_default 0 (rt_next_address s) k <= dget_default 0 (rt_next_address (install a s)) k)
    as Hnext.
  { intros k. unfold install, dget_default. cbn. rewrite dget_dset. case_decide; [subst; cbn; lia|lia]. }
  split.
  - intros k x [[-> _]|Hin]%Hcases.
    + destruct (install_space a s (al_space a) (H5 _) (H5 _)) as (? & ? & ?). split; auto.
    + destruct (H1 k x Hin) as [? ? ?].
      destruct (install_space a s (al_space x) (H5 _) (H5 _)) as (? & ? & ?). split; [done|lia|done].
  - intros k x [[-> ->]|Hin]%Hcases; [done|by apply H2].
  - intros k x cap [[-> _]|Hin]%Hcases; [apply Hcap|by apply (H3 k)].
  - intros k x [[-> _]|Hin]%Hcases.
    + unfold install, dget_default. cbn. rewrite dget_dset_eq. cbn. lia.
    + specialize (H4 k x Hin). specialize (Hnext (al_space x)). lia.
  - intros k. by apply (install_space a s k (H5 _) (H5 _)).
  - intros Hm k1 a1 k2 a2 [[-> _]|Hin1]%Hcases [[-> _]|Hin2]%Hcases Hid Hsp; [done| | |].
    + apply (Hsep Hm k2 a2 Hin2). rewrite (H2 _ _ Hin2). congruence.
    + apply separate_sym, (Hsep Hm k1 a1 Hin1). by rewrite (H2 _ _ Hin1).
    + by apply (H6 Hm k1 a1 k2 a2).
Qed.

Lemma allocated_wf spec core addr s a s' :
  runtime_wf s → allocated spec core addr s a s' → runtime_wf s'.
Proof.
  intros Hwf [Hs Ho Hf Hr Hb Hc Hsep (s1 & Honly & ->)].
  pose proof (runtime_wf_reporter s s1 Honly Hwf) as Hwf1. destruct Honly as (rep & -> & Hm).
  apply install_wf; [done|done|rewrite Hs; exact Hc|cbn; rewrite Hm; exact Hsep].
Qed.

Lemma get_allocated spec core addr s a s' :
  allocated spec core addr s a s' → get s' (bs_name spec) (bs_scope spec) core = Ok a.
Proof.
  intros [Hs Ho Hf Hr Hb Hc Hsep (s1 & (rep & -> & _) & ->)]. unfold get.
  change (normalize_owner (install _ _)) with (normalize_owner s). rewrite Ho. ok_bind.
  unfold install. cbn [rt_allocations set_next set_allocation].
  unfold al_id, al_space. rewrite Hs, dget_dset_eq. done.
Qed.

(** C22. Allocation keeps the runtime well formed — every allocation backed by its space, within
    its scope's capacity and below the next free address, and in [error] mode separate from the
    others of its space or a declared reuse.  A successful allocation is found by [get], and
    one without a planned address overlaps nothing; a failed one leaves the allocations alone. *)
Theorem allocate_preserves spec core addr s s' ans :
  runtime_wf s → allocate spec core addr s = (s', ans) →
  runtime_wf s' ∧
  match ans with
  | Ok a => get s' (bs_name spec) (bs_scope spec) core = Ok a ∧
      (addr = None → bs_address spec = None → ∀ k x, (k, x) ∈ rt_allocations s →
         al_space x = al_space a → overlaps (al_address a, al_end a) (al_address x, al_end x) = false)
  | Raise _ => rt_allocations s' = rt_allocations s
  end.
Proof.
  intros Hwf H. apply allocate_cases in H. destruct ans as [a|e].
  - split; [by eapply allocated_wf|]. split; [by eapply get_allocated|].
    intros Hn1 Hn2 k x Hin Hsp. pose proof (ac_base _ _ _ _ _ _ H Hn1 Hn2) as Hbase.
    pose proof (rw_next _ Hwf k x Hin) as Hnext. rewrite Hsp, <- Hbase in Hnext.
    unfold overlaps. cbn. lia.
  - split; [by eapply runtime_wf_reporter|]. by destruct H as (r & -> & _).
Qed.

Lemma runtime_init_wf ids hz caps s :
  runtime_init ids hz caps = Ok s → runtime_wf s ∧ rt_allocations s = [].
Proof.
  unfold runtime_init. intros (_ & _ & H)%outcome_bind_ok.
  apply outcome_bind_ok in H as (rep & _ & H). injection H as <-. split; [|done].
  split; cbn; try (intros; set_solver).
Qed.

(** ** Instantiating a program *)

Lemma allocate_step spec core addr s s' a :
  runtime_wf s → allocate spec core addr s = (s', Ok a) →
  runtime_wf s' ∧ rt_local_owner_ids s' = rt_local_owner_ids s ∧
  (∀ k, is_Some (dget (rt_allocations s) k) → is_Some (dget (rt_allocations s') k)) ∧
  dget (rt_allocations s') (al_id a) = Some a ∧ al_spec a = spec ∧
  normalize_owner s (bs_scope spec) core = Ok (al_core_id a).
Proof.
  intros Hwf H%allocate_cases. split; [by eapply allocated_wf|].
  destruct H as [Hs Ho Hf Hr Hb Hc Hsep (s1 & (rep & -> & _) & ->)].
  split; [done|]. unfold install. cbn [rt_allocations set_next set_allocation].
  split; [|split; [apply dget_dset_eq|done]].
  intros k Hk. rewrite dget_dset. case_decide; [eauto|done].
Qed.

(** The allocations a buffer needs are present. *)
Definition present (s : MemoryRuntime) (spec : BufferSpec) : Prop :=
  if is_shared (bs_scope spec) then is_Some (dget (rt_allocations s) (bs_scope spec, None, bs_name spec))
  else ∀ c, c ∈ rt_local_owner_ids s →
       is_Some (dget (rt_allocations s) (bs_scope spec, Some c, bs_name spec)).

(** [s'] extends [s]. *)
Definition extends (s s' : MemoryRuntime) : Prop :=
  runtime_wf s' ∧ rt_local_owner_ids s' = rt_local_owner_ids s ∧
  ∀ k, is_Some (dget (rt_allocations s) k) → is_Some (dget (rt_allocations s') k).

Lemma present_extends s s' spec : extends s s' → present s spec → present s' spec.
Proof.
  intros (_ & Ho & Hk). unfold present. destruct (is_shared _); [by apply Hk|].
  rewrite Ho. intros H c Hc. by apply Hk, H.
Qed.

Lemma extends_refl s : runtime_wf s → extends s s.
Proof. intros H. split; [done|]. by split. Qed.

Lemma extends_trans s1 s2 s3 : extends s1 s2 → extends s2 s3 → extends s1 s3.
Proof. intros (_ & H1 & H2) (H3 & H4 & H5). split; [done|]. split; [congruence|]. auto. Qed.

Lemma allocate_local spec l s s' :
  is_shared (bs_scope spec) = false → runtime_wf s → 
  st_iter (λ c, _ ← allocate spec (Some c) None; mret tt) l s = (s', Ok tt) →
  extends s s' ∧ ∀ c, c ∈ l → is_Some (dget (rt_allocations s') (bs_scope spec, Some c, bs_name spec)).
Proof.
  intros Hsh. revert s; induction l as [|c l IH]; intros s Hwf H; cbn [st_iter] in H.
  - unfold mret, stM_ret in H. injection H as <-. split; [by apply extends_refl|set_solver].
  - unfold mbind at 1, stM_bind at 1 in H.
    destruct ((_ ← allocate spec (Some c) None; mret tt) s) as [s1 [[]|e]] eqn:E; [|done].
    unfold mbind, stM_bind in E. destruct (allocate spec (Some c) None s) as [s2 [a|e]] eqn:Ea; [|done].
    unfold mret, stM_ret in E. injection E as ->.
    destruct (allocate_step spec (Some c) None s s1 a Hwf Ea) as (Hwf1 & Ho & Hk & Hget & Hsp & Hown).
    destruct (IH s1 Hwf1 H) as [Hext Hall]. split; [eapply extends_trans; [|exact Hext]; done|].
    intros d [->|Hd]%elem_of_cons; [|by apply Hall].
    apply Hext. assert (al_id a = (bs_scope spec, Some c, bs_name spec)) as <-; [|by rewrite Hget].
    unfold al_id, al_space. rewrite Hsp. unfold normalize_owner in Hown. rewrite Hsh in Hown.
    apply outcome_bind_ok in Hown as (_ & _ & Hown). apply outcome_bind_ok in Hown as (_ & _ & Hown).
    injection Hown as <-. done.
Qed.

Lemma instantiate_ok b spec s s' :
  runtime_wf s → instantiate b spec s = (s', Ok tt) → extends s s' ∧ present s' spec.
Proof.
  intros Hwf H. unfold instantiate in H. unfold mbind at 1, stM_bind at 1, st_lift at 1 in H.
  destruct (omap_list _ (bs_shape spec)) as [shape|e]; [|done].
  unfold mbind at 1, stM_bind at 1, st_lift at 1 in H.
  destruct (buffer_spec_init _ _ _ _ _ _ _ _) as [rspec|e] eqn:Er; [|done].
  assert (bs_scope rspec = bs_scope spec ∧ bs_name rspec = bs_name spec) as [Hsc Hnm].
  { unfold buffer_spec_init in Er. rewrite parse_scope_value in Er. inv_res. done. }
  destruct (is_shared (bs_scope spec)) eqn:Esh.
  - unfold mbind, stM_bind in H. destruct (allocate rspec None None s) as [s1 [a|e]] eqn:Ea; [|done].
    unfold mret, stM_ret in H. injection H as <-.
    destruct (allocate_step _ _ _ _ _ _ Hwf Ea) as (? & ? & ? & Hget & Hsp & Hown).
    split; [done|]. unfold present. rewrite Esh.
    unfold normalize_owner in Hown. rewrite Hsc, Esh in Hown. injection Hown as Hown.
    assert (al_id a = (bs_scope spec, None, bs_name spec)) as <-; [|by rewrite Hget].
    unfold al_id, al_space. by rewrite Hsp, Hsc, Hnm, <- Hown.
  - unfold mbind at 1, stM_bind at 1, st_get in H.
    apply allocate_local in H as [Hext Hall]; [|by rewrite Hsc|done]. split; [done|].
    unfold present. rewrite Esh. destruct Hext as (_ & -> & _). rewrite Hsc, Hnm in Hall. done.
Qed.

Lemma instantiate_all b specs s s' :
  runtime_wf s → st_iter (instantiate b) specs s = (s', Ok tt) →
  extends s s' ∧ ∀ spec, spec ∈ specs → present s' spec.
Proof.
  revert s; induction specs as [|sp specs IH]; intros s Hwf H; cbn [st_iter] in H.
  - unfold mret, stM_ret in H. injection H as <-. split; [by apply extends_refl|set_solver].
  - unfold mbind, stM_bind in H. destruct (instantiate b sp s) as [s1 [[]|e]] eqn:E; [|done].
    apply instantiate_ok in E as [Hext Hp]; [|done]. pose proof Hext as (Hwf1 & _).
    destruct (IH s1 Hwf1 H) as [Hext' Hall]. split; [by eapply extends_trans|].
    intros x [->|Hx]%elem_of_cons; [by eapply present_extends|auto].
Qed.

Lemma from_program_ok p hz b s :
  from_program p hz b = Ok s → runtime_wf s ∧ ∀ spec, spec ∈ kp_buffers p → present s spec.
Proof.
  unfold from_program. intros (s0 & H0 & H)%outcome_bind_ok.
  destruct (st_iter _ _ s0) as [s1 ans] eqn:E. apply outcome_bind_ok in H as ([] & -> & H).
  injection H as <-. apply runtime_init_wf in H0 as [Hwf _].
  destruct (instantiate_all b _ s0 s1 Hwf E) as [(Hwf1 & _) Hall]. done.
Qed.

(** C23. Instantiating a program gives a well-formed runtime in which every buffer exists: a
    shared buffer once, a local buffer for every core and every second vector bank. *)
Theorem from_program_complete p hz b s :
  from_program p hz b = Ok s →
  runtime_wf s ∧ ∀ spec, spec ∈ kp_buffers p → present s spec.
Proof. apply from_program_ok. Qed.

(** ** Aliases and owners *)

Lemma alias_spec name tgt scope core s s' :
  runtime_wf s → alias name tgt scope core s = (s', Ok tt) →
  runtime_wf s' ∧ get s' name scope core = get s tgt scope core ∧
  (∀ k, k.2 ≠ name → dget (rt_allocations s') k = dget (rt_allocations s) k) ∧
  ∃ old new, get s name scope core = Ok old ∧ get s' name scope core = Ok new ∧
    al_size_bytes old <= al_size_bytes new.
Proof.
  intros Hwf H. unfold alias, mbind, stM_bind, st_get, st_lift, st_put in H.
  destruct (normalize_owner s scope core) as [owner|e] eqn:Eo; [|done].
  destruct (dget (rt_allocations s) (scope, owner, name)) as [dst|] eqn:Ed; [|done].
  destruct (dget (rt_allocations s) (scope, owner, tgt)) as [src|] eqn:Es; [|done].
  unfold ensure, require in H. destruct (Z.leb_spec (al_size_bytes dst) (al_size_bytes src)); [|done].
  injection H as <-. pose proof (dget_elem_of _ _ _ Es) as Hin.
  assert (get (set_allocation (scope, owner, name) src s) name scope core = Ok src) as Hget.
  { unfold get. change (normalize_owner (set_allocation _ _ _)) with (normalize_owner s). rewrite Eo.
    ok_bind. cbn [rt_allocations set_allocation]. by rewrite dget_dset_eq. }
  split; [|split; [|split]].
  - assert (∀ k x, (k, x) ∈ rt_allocations (set_allocation (scope, owner, name) src s) →
      ∃ k0, (k0, x) ∈ rt_allocations s ∧ k0.1 = k.1) as Hc.
    { intros k x Hx. apply elem_of_dset_inv in Hx as [[-> ->]|Hx]; eauto. }
    destruct Hwf as [H1 H2 H3 H4 H5 H6]. split.
    + intros k x (k0 & Hx & _)%Hc. destruct (H1 k0 x Hx). by split.
    + intros k x (k0 & Hx & <-)%Hc. by apply H2.
    + intros k x cap (k0 & Hx & _)%Hc. by apply (H3 k0).
    + intros k x (k0 & Hx & _)%Hc. by apply (H4 k0).
    + exact H5.
    + intros Hm k1 a1 k2 a2 (k1' & Hx1 & _)%Hc (k2' & Hx2 & _)%Hc. by apply (H6 Hm k1' a1 k2' a2).
  - rewrite Hget. unfold get. rewrite Eo. ok_bind. by rewrite Es.
  - intros k Hk. cbn [rt_allocations set_allocation]. rewrite dget_dset_ne; [done|].
    intros <-. by apply Hk.
  - exists dst, src. split; [unfold get; rewrite Eo; ok_bind; by rewrite Ed|done].
Qed.

(** [alias] rebinds a name to an existing allocation of at least its size in the same
    address space: afterwards both names resolve to that allocation, every other name is
    unaffected, and the runtime stays well formed. *)
Theorem alias_rebinds name tgt scope core s s' :
  runtime_wf s → alias name tgt scope core s = (s', Ok tt) →
  runtime_wf s' ∧ get s' name scope core = get s tgt scope core ∧
  (∀ k, k.2 ≠ name → dget (rt_allocations s') k = dget (rt_allocations s) k) ∧
  ∃ old new, get s name scope core = Ok old ∧ get s' name scope core = Ok new ∧
    al_size_bytes old <= al_size_bytes new.
Proof. apply alias_spec. Qed.

Lemma sorted_last_max l m x :
  StronglySorted (λ a b, Z_leb a b = true) l → last l = Some m → x ∈ l → x <= m.
Proof.
  intros Hs Hl Hx. apply last_Some in Hl as [l' ->].
  apply elem_of_app in Hx as [Hx|Hx%list_elem_of_singleton]; [|subst; lia].
  induction l' as [|y l' IH]; [set_solver|]. cbn in Hs. apply StronglySorted_inv in Hs as [Hs Hf].
  apply elem_of_cons in Hx as [->|Hx]; [|auto]. rewrite Forall_forall in Hf.
  specialize (Hf m ltac:(set_solver)). unfold Z_leb in Hf. lia.
Qed.

(** An owner that belongs to the second bank of one core only. *)
Definition private_owner (s : MemoryRuntime) (c o : Z) : Prop :=
  (o ∈ rt_local_owner_ids s) ∧ (o ∉ rt_core_ids s) ∧ (∀ c', vector1_owner s c' = Ok o → c' = c).

(** The second vector bank of a core has an owner of its own: it is a valid local owner, it
    is no core of the runtime, and no two cores share it. *)
Theorem vector1_owner_fresh ids hz caps s c o :
  runtime_init ids hz caps = Ok s → vector1_owner s c = Ok o →
  private_owner s c o.
Proof.
  unfold runtime_init, private_owner. intros (u & Hneg & H)%outcome_bind_ok Ho.
  apply outcome_bind_ok in H as (rep & _ & H). injection H as <-.
  apply ensure_ok, negb_true_iff in Hneg.
  set (sorted := py_sorted Z_leb (fromkeys ids)) in *. unfold vector1_owner in *.
  cbn [rt_core_ids rt_vector1_owner_offset rt_local_owner_ids] in *.
  apply outcome_bind_ok in Ho as (v & Hc & Ho). apply ensure_ok, bool_decide_eq_true in Hc.
  injection Ho as <-.
  assert (0 <= c) as Hc0.
  { apply Z.nlt_ge. intros Hlt. apply not_true_iff_false in Hneg. apply Hneg, existsb_exists.
    exists c. rewrite <- list_elem_of_In. split; [done|lia]. }
  assert (∀ x, x ∈ sorted → x < match last sorted with Some m => m + 1 | None => 1 end) as Hmax.
  { intros x Hx. destruct (last sorted) as [m|] eqn:El.
    - assert (x <= m); [|lia]. eapply sorted_last_max; [|exact El|exact Hx].
      apply py_sorted_sorted; unfold Z_leb; intros; lia.
    - apply last_None in El. rewrite El in Hx. set_solver. }
  split; [|split].
  - rewrite elem_of_app. right. apply list_elem_of_fmap. by exists c.
  - intros Hin. specialize (Hmax _ Hin). lia.
  - intros c' (v' & _ & Heq)%outcome_bind_ok. injection Heq as Heq. lia.
Qed.

(** ** A concrete runtime *)

Definition tile_spec (name : string) (scope : MemoryScope) : BufferSpec :=
  MkBufferSpec name scope [VInt 3; VInt 4] "float16" None None None [].
Definition memory_program : KernelProgram :=
  MkKernel "k" "A2" [MkCore 0 []; MkCore 3 []] [tile_spec "A" GM; tile_spec "x" UB; tile_spec "y" UB] [].
Definition memory_runtime : MemoryRuntime :=
  match from_program memory_program "error" [] with Ok s => s | Raise _ => MkRuntime [] 0 [] (MkReporter "" [] []) [] [] [] [] end.

Lemma memory_runtime_ok : from_program memory_program "error" [] = Ok memory_runtime.
Proof. vm_compute. reflexivity. Qed.

Definition x_alloc : MemoryAllocation := MkAlloc (tile_spec "x" UB) 24 0 (Some 3).
Definition x_column : target := TView (MkView 0 2 [3] "float16" [8]).

Lemma write_then_read_witness :
  let s' := (write x_alloc x_column [1; 2; 3; 4; 5; 6] memory_runtime).1 in
  read x_alloc x_column s' = (s', Ok [1; 2; 3; 4; 5; 6]).
Proof.
  apply (write_then_read x_alloc x_column [1; 2; 3; 4; 5; 6] memory_runtime _ [(2, 4); (10, 12); (18, 20)]).
  - destruct (from_program_ok _ _ _ _ memory_runtime_ok) as [Hwf _].
    apply (rw_backed _ Hwf (UB, Some 3, "x")). apply dget_elem_of. vm_compute. reflexivity.
  - exact I.
  - vm_compute. reflexivity.
  - repeat constructor.
  - vm_compute. reflexivity.
Defined.

Lemma allocate_preserves_witness :
  let run := allocate (tile_spec "z" UB) (Some 0) None memory_runtime in
  runtime_wf run.1 ∧
  match run.2 with
  | Ok a => al_address a = 48 ∧ get run.1 "z" UB (Some 0) = Ok a
  | Raise _ => False
  end.
Proof.
  destruct (from_program_ok _ _ _ _ memory_runtime_ok) as [Hwf _].
  destruct (allocate (tile_spec "z" UB) (Some 0) None memory_runtime) as [s' ans] eqn:E.
  destruct (allocate_preserves _ _ _ _ _ _ Hwf E) as [Hwf' Hans]. cbn [fst snd]. split; [exact Hwf'|].
  assert (ans = Ok (MkAlloc (tile_spec "z" UB) 24 48 (Some 0))) as ->
    by (apply (f_equal snd) in E; vm_compute in E; by rewrite <- E).
  split; [reflexivity|apply Hans].
Defined.

Lemma from_program_complete_witness :
  runtime_wf memory_runtime ∧ present memory_runtime (tile_spec "x" UB).
Proof.
  destruct (from_program_complete _ _ _ _ memory_runtime_ok) as [Hwf Hp]. split; [exact Hwf|].
  apply Hp. cbn. set_solver.
Defined.

Lemma alias_rebinds_witness :
  let s' := (alias "x" "y" UB (Some 3) memory_runtime).1 in
  runtime_wf s' ∧ get s' "x" UB (Some 3) = get memory_runtime "y" UB (Some 3).
Proof.
  destruct (from_program_ok _ _ _ _ memory_runtime_ok) as [Hwf _].
  assert (alias "x" "y" UB (Some 3) memory_runtime = ((alias "x" "y" UB (Some 3) memory_runtime).1, Ok tt))
    as E by (vm_compute; reflexivity).
  destruct (alias_rebinds "x" "y" UB (Some 3) memory_runtime _ Hwf E) as (H1 & H2 & _).
  exact (conj H1 H2).
Defined.

Lemma vector1_owner_fresh_witness :
  match runtime_init [0; 3] "error" None with
  | Ok s => vector1_owner s 3 = Ok 7 ∧ 7 ∈ rt_local_owner_ids s ∧ 7 ∉ rt_core_ids s
  | Raise _ => False
  end.
Proof.
  destruct (runtime_init [0; 3] "error" None) as [s|e] eqn:E; [|vm_compute in E; discriminate].
  assert (vector1_owner s 3 = Ok 7) as Ho by (vm_compute in E; injection E as <-; vm_compute; reflexivity).
  destruct (vector1_owner_fresh [0; 3] "error" None s 3 7 E Ho) as (H1 & H2 & _).
  exact (conj Ho (conj H1 H2)).
Defined.

(** ** The physical ranges of a view *)

Lemma merge_fold_range_ok l rs rs' :
  ofold merge_range l rs = Ok rs' → (∀ r, r ∈ l → range_ok r) → (∀ r, r ∈ rs → range_ok r) →
  ∀ r, r ∈ rs' → range_ok r.
Proof.
  revert rs; induction l as [|x l IH]; intros rs H Hl Hok; cbn [ofold] in H; [by injection H as <-|].
  apply outcome_bind_ok in H as (rs1 & H1 & H2). apply (IH rs1 H2); [set_solver|].
  unfold merge_range in H1. destruct (last rs) as [r0|]; [destruct (_ <=? _)|].
  - apply outcome_bind_ok in H1 as (m & Hm & H1). apply range_init_inv in Hm as [_ Hm].
    injection H1 as <-. intros y [Hy|Hy%list_elem_of_singleton]%elem_of_app; [|by subst].
    apply Hok. exact (subseteq_take (length rs - 1) rs y Hy).
  - injection H1 as <-. set_solver.
  - injection H1 as <-. set_solver.
Qed.

Lemma physical_ranges_range_ok v rs : physical_address_ranges v = Ok rs → ∀ r, r ∈ rs → range_ok r.
Proof.
  unfold physical_address_ranges. destruct (is_empty_view v) eqn:Ee; [intros H; injection H as <-; set_solver|].
  intros (it & _ & H)%outcome_bind_ok. destruct (dense_scan _ _).
  - apply outcome_bind_ok in H as (r & Hr & H). injection H as <-.
    intros x ->%list_elem_of_singleton. unfold byte_range in Hr. rewrite Ee in Hr.
    apply outcome_bind_ok in Hr as (it' & _ & Hr). by apply range_init_inv in Hr as [_ ?].
  - apply outcome_bind_ok in H as (rs0 & Hrs & H).
    eapply merge_fold_range_ok; [exact H| |set_solver].
    intros r ?%elem_of_py_sorted. by eapply address_ranges_range_ok.
Qed.

Lemma resolve_physical_within a tg rs :
  target_ok tg → resolve_physical_ranges a tg = Ok rs →
  ∀ r, r ∈ rs → range_ok r ∧ al_address a <= r.1 ∧ r.2 <= al_end a.
Proof.
  intros Ht (rs0 & H0 & H)%outcome_bind_ok.
  assert (∀ r, r ∈ rs0 → range_ok r) as Hok0.
  { destruct tg as [v|r]; [by apply (physical_ranges_range_ok v)|]. injection H0 as <-.
    intros x ->%list_elem_of_singleton. done. }
  apply omap_list_ok in H. intros r Hr. apply list_elem_of_lookup in Hr as [i Hi].
  destruct (Forall2_lookup_r _ _ _ _ _ H Hi) as (r0 & Hr0 & Heq).
  unfold in_allocation in Heq. destruct (_ || _) eqn:E; [done|]. injection Heq as ->.
  apply orb_false_iff in E as [E1 E2]. split; [|lia].
  apply Hok0. by apply list_elem_of_lookup_2 in Hr0.
Qed.

(** ** Marking *)

(** The poison flags after marking some ranges. *)
Definition marked (flag : bool) (init : list bool) (rs : list interval) : list bool :=
  foldl (λ init r, set_slice init r (replicate (Z.to_nat (range_size r)) flag)) init rs.

Lemma marked_spec flag rs init :
  (∀ r, r ∈ rs → within init r) →
  length (marked flag init rs) = length init ∧
  ∀ z, 0 <= z → marked flag init rs !! Z.to_nat z =
    if decide (covered rs z) then Some flag else init !! Z.to_nat z.
Proof.
  revert init; induction rs as [|r rs IH]; intros init Hw; cbn [marked foldl].
  { split; [done|]. intros z Hz. rewrite decide_False; [done|by inversion 1]. }
  pose proof (Hw r ltac:(by left)) as Hr.
  assert (Z.of_nat (length (replicate (Z.to_nat (range_size r)) flag)) = range_size r) as Hn.
  { rewrite length_replicate. unfold within, range_size in *. lia. }
  set (init1 := set_slice init r _).
  assert (length init1 = length init) as Hl by (by apply length_set_slice).
  destruct (IH init1) as [Hlen Hz].
  { intros x Hx. pose proof (Hw x ltac:(by right)). unfold within in *. by rewrite Hl. }
  fold (marked flag init1 rs). split; [congruence|]. intros z H0. rewrite (Hz z H0).
  destruct (decide (covered rs z)) as [Hc|Hc].
  - rewrite decide_True; [done|]. apply covered_cons. by right.
  - unfold init1. rewrite lookup_set_slice by done. case_decide as Hcr.
    + rewrite decide_True by (apply covered_cons; by left).
      apply lookup_replicate_2. unfold covers, range_size in *. lia.
    + rewrite decide_False; [done|]. rewrite covered_cons. tauto.
Qed.

Lemma mark_initialized_ok a tg flag s :
  match resolve_physical_ranges a tg with
  | Ok rs => mark_initialized a tg flag s =
      (set_space (al_space a) (MkSpace (as_data (get_space s (al_space a)))
         (marked flag (as_initialized (get_space s (al_space a))) rs)) s, Ok tt)
  | Raise e => mark_initialized a tg flag s = (s, Raise e)
  end.
Proof.
  unfold mark_initialized, mbind, stM_bind, st_lift, st_get, st_put.
  by destruct (resolve_physical_ranges a tg).
Qed.

Lemma physical_within_space s a tg rs :
  backed s a → target_ok tg → resolve_physical_ranges a tg = Ok rs →
  ∀ r, r ∈ rs → within (as_initialized (get_space s (al_space a))) r.
Proof.
  intros [Ha Hd Hi] Ht Hrs r Hr.
  destruct (resolve_physical_within a tg rs Ht Hrs r Hr) as (Hok & H1 & H2).
  unfold within, range_ok in *. lia.
Qed.

(** ** Checking *)

(** Every byte of the ranges is initialized. *)
Definition known_bytes (s : MemoryRuntime) (a : MemoryAllocation) (rs : list interval) : Prop :=
  ∀ z, covered rs z → as_initialized (get_space s (al_space a)) !! Z.to_nat z = Some true.

Lemma poisoned_nil init r :
  0 <= r.1 → r.2 <= Z.of_nat (length init) →
  poisoned init r = [] ↔ ∀ z, covers r z → init !! Z.to_nat z = Some true.
Proof.
  intros H0 Hlen. split; [|apply not_poisoned]. intros H z Hz.
  destruct (lookup_lt_is_Some_2 init (Z.to_nat z)) as [[] Hb]; [unfold covers in Hz; lia|done|].
  assert (z ∈ poisoned init r) as Hin; [|rewrite H in Hin; set_solver].
  unfold poisoned. apply list_elem_of_filter. split; [done|].
  apply elem_of_seqZ. unfold covers in Hz. lia.
Qed.

(** A check that returns tells whether the bytes are initialized, and changes only the reports. *)
Lemma check_ranges_answer a rs s s' known :
  (∀ r, r ∈ rs → within (as_initialized (get_space s (al_space a))) r) →
  check_initialized_ranges a rs s = (s', Ok known) →
  only_reporter s s' ∧ (known = true ↔ known_bytes s a rs).
Proof.
  intros Hw. unfold check_initialized_ranges, mbind, stM_bind, st_get. cbn [fst snd].
  set (init := as_initialized (get_space s (al_space a))) in *.
  set (missing := flat_map _ rs).
  assert (missing = [] ↔ known_bytes s a rs) as Hm.
  { unfold known_bytes, missing. fold init. clear missing.
    induction rs as [|r rs IH]; cbn [flat_map]; [split; [intros _ z Hz; by inversion Hz|done]|].
    pose proof (Hw r ltac:(by left)) as Hr. specialize (IH ltac:(intros x Hx; apply Hw; by right)).
    pose proof (poisoned_nil init r ltac:(unfold within in Hr; lia) ltac:(unfold within in Hr; lia)) as Hp.
    setoid_rewrite covered_cons. destruct (poisoned init r) as [|z zs].
    - cbn [app]. rewrite IH. destruct Hp as [Hp _]. specialize (Hp eq_refl). naive_solver.
    - split; [done|]. intros H. assert (z :: zs = []) by (apply Hp; auto). done. }
  destruct missing as [|[first last'] l].
  - intros H. injection H as <- <-. split; [apply only_reporter_refl|]. split; [|done]. intros _. by apply Hm.
  - match goal with |- context [rt_report ?e ?d s] =>
      pose proof (rt_report_only e d s) as Ho; destruct (rt_report e d s) as [s1 [u|e1]] end;
      [|done]. unfold mret, stM_ret. intros H. injection H as <- <-. split; [done|].
    split; [done|]. intros Hk. apply Hm in Hk. done.
Qed.
