(* ===== verification/Stats.v ===== *)
(** Schedule statistics ([stats.py]) and the whole scheduler entry point, [run], which returns
    a schedule with its statistics.  The theorems say what the numbers of a summary mean: busy
    cycles count the cycles some record of the resource covers, completion cycles and the
    makespan are attained maxima, and counters are sums over the records. *)

From stdpp Require Import pretty.
From S2P Require Import Prelude PyDict PySort PyStr Errors PyFloat Values Program Trace Config.
From S2P Require Import Hazard Intervals MemoryView SyncModel Scheduler.
Local Open Scope string_scope.
Local Open Scope Z_scope.
Local Open Scope list_scope.

(** [_union_length] *)
Definition union_length (intervals : list interval) : Z := union_size intervals.

(** [_runtime_int]: a symbolic value that the bindings do not resolve is no integer. *)
Definition runtime_int (value : pyval) (b : bindings) : result (option Z) :=
  match value with
  | VAffine _ | VSym _ _ =>
      match evaluate_runtime_int value b with
      | Ok z => Ok (Some z)
      | Raise e => if is_subclass (exn_cls e) ProgramValidationError then Ok None else Raise e
      end
  | VInt z => Ok (Some z)
  | _ => Ok None
  end.

(** [_region_nbytes] *)
Fixpoint region_elements (shape : list pyval) (b : bindings) (elements : Z) : result (option Z) :=
  match shape with
  | [] => Ok (Some elements)
  | extent :: shape =>
      resolved ← runtime_int extent b;
      match resolved with
      | None => Ok None
      | Some n => region_elements shape b (elements * n)
      end
  end.
Definition region_nbytes (region : BufferRegion) (b : bindings) : result (option Z) :=
  elements ← region_elements (rg_shape region) b 1;
  match elements with
  | None => Ok None
  | Some n => size ← dtype_size_bytes (rg_dtype region); Ok (Some (n * size))
  end.

(** [_memory_path] *)
Definition memory_path (metadata : dict string pyval) : option string :=
  match dget metadata "src", dget metadata "dst" with
  | Some (VRegion source), Some (VRegion destination) =>
      Some (scope_value (rg_scope source) +:+ "->" +:+ scope_value (rg_scope destination))
  | _, _ => None
  end.

(** [_transfer_bytes]: an explicit size, or the size of the destination region. *)
Definition transfer_bytes (metadata : dict string pyval) (b : bindings) : result (option Z) :=
  let explicit := dget_default (dget_default VNone metadata "bytes") metadata "transfer_bytes" in
  resolved ← runtime_int explicit b;
  match resolved with
  | Some n => Ok (Some n)
  | None =>
      match dget metadata "dst" with
      | Some (VRegion destination) => region_nbytes destination b
      | _ => Ok None
      end
  end.

Record SimulationStats := MkStats {
  makespan_cycles : Z;
  task_count : Z;
  busy_cycles_by_resource : dict string Z;
  utilization_by_resource : dict string Z;
  wait_cycles_by_reason : dict string Z;
  completion_cycle_by_core : dict Z Z;
  operation_counts : dict string Z;
  memory_bytes_by_path : dict string Z;
  hazard_counts : dict string Z;
  peak_local_memory_bytes_by_scope : dict string Z;
  load_imbalance_cycles : Z;
}.

(** The dictionaries the loop over the records fills. *)
Record tallies := MkTallies {
  tl_intervals : dict string (list interval);
  tl_waits : dict string Z;
  tl_completion : dict Z Z;
  tl_operations : dict string Z;
  tl_bytes : dict string Z;
}.

(** [f"core-{record.core_id}/{record.resource}"] *)
Definition resource_label (r : ExecutionRecord) : string :=
  "core-" +:+ pretty (r_core_id r) +:+ "/" +:+ record_resource r.

(** The loop body for the traffic of one record. *)
Definition record_traffic (b : bindings) (bytes : dict string Z) (r : ExecutionRecord)
    : result (dict string Z) :=
  let path := if startswith "copy_" (r_operation r) then memory_path (r_metadata r) else None in
  match path with
  | None => Ok bytes
  | Some path =>
      transferred ← transfer_bytes (r_metadata r) b;
      match transferred with
      | None => Ok bytes
      | Some n => Ok (dadd bytes path n)
      end
  end.

(** The loop body. *)
Definition tally (b : bindings) (t : tallies) (r : ExecutionRecord) : result tallies :=
  let k := resource_label r in
  let intervals := dset (tl_intervals t) k
    (dget_default [] (tl_intervals t) k ++ [(start_cycle r, end_cycle r)]) in
  let completion := dset (tl_completion t) (r_core_id r)
    (Z.max (dget_default 0 (tl_completion t) (r_core_id r)) (end_cycle r)) in
  let operations := dadd (tl_operations t) (r_operation r) 1 in
  bytes ← record_traffic b (tl_bytes t) r;
  let waits := match stall_reason r with
               | None => tl_waits t
               | Some reason => dadd (tl_waits t) reason (record_duration r)
               end in
  Ok (MkTallies intervals waits completion operations bytes).

Definition count_hazards (ds : list HazardDiagnostic) : dict string Z :=
  foldl (λ counts d, dadd counts (hd_kind d) 1) [] ds.

(** [max] and [min] of a non-empty sequence *)
Definition max_of (x : Z) (l : list Z) : Z := foldl Z.max x l.
Definition min_of (x : Z) (l : list Z) : Z := foldl Z.min x l.

(** [SimulationStats.from_records] *)
Definition from_records (records : list ExecutionRecord) (b : bindings)
    (hazard_diagnostics : list HazardDiagnostic) (watermark : dict string Z)
    : result SimulationStats :=
  match records with
  | [] => Ok (MkStats 0 0 [] [] [] [] [] [] (count_hazards hazard_diagnostics) watermark 0)
  | first :: rest =>
      let makespan := max_of (end_cycle first) (end_cycle <$> rest) in
      t ← ofold (tally b) records (MkTallies [] [] [] [] []);
      let busy := (λ '(resource, values), (resource, union_length values)) <$> tl_intervals t in
      let utilization :=
        (λ '(resource, cycles), (resource, if makespan =? 0 then 0 else true_div cycles makespan))
          <$> busy in
      Ok (MkStats makespan (Z.of_nat (length records)) busy utilization (tl_waits t)
            (tl_completion t) (tl_operations t) (tl_bytes t) (count_hazards hazard_diagnostics)
            watermark
            (match dvalues (tl_completion t) with
             | [] => 0
             | c :: cs => max_of c cs - min_of c cs
             end))
  end.

Definition int_values (d : dict string Z) : pyval := VDict ((λ '(k, v), (k, VInt v)) <$> d).

(** [to_dict] *)
Definition to_dict (s : SimulationStats) : dict string pyval :=
  [("makespan_cycles", VInt (makespan_cycles s));
   ("task_count", VInt (task_count s));
   ("busy_cycles_by_resource", int_values (busy_cycles_by_resource s));
   ("utilization_by_resource",
     VDict ((λ '(k, v), (k, VFloat v)) <$> utilization_by_resource s));
   ("wait_cycles_by_reason", int_values (wait_cycles_by_reason s));
   ("completion_cycle_by_core",
     VDict (dict_of_pairs ((λ '(c, cycle), (pretty c, VInt cycle)) <$> completion_cycle_by_core s)));
   ("operation_counts", int_values (operation_counts s));
   ("memory_bytes_by_path", int_values (memory_bytes_by_path s));
   ("hazard_counts", int_values (hazard_counts s));
   ("peak_local_memory_bytes_by_scope", int_values (peak_local_memory_bytes_by_scope s));
   ("load_imbalance_cycles", VInt (load_imbalance_cycles s))].

(** ** The scheduler's entry point *)

Section run.
Context {St : Type} `{!SynchronizationModel St}.
Context (set_order : gset string → list string) (clock : nat → Q).

(** [DiscreteEventScheduler.run]: the ordered records and their statistics, under the given
    configuration or the default one of the program's platform.  [None] is an exhausted step
    budget of the model. *)
Definition run (config : option SimulatorConfig) (fuel : nat) (program : KernelProgram) (b : bindings)
    : option (result (list ExecutionRecord * SimulationStats)) :=
  match match config with
        | Some c => Ok c
        | None => config_init (default_config_args (kp_platform program))
        end with
  | Raise e => Some (Raise e)
  | Ok c =>
      match schedule c set_order clock fuel program with
      | None => None
      | Some scheduled =>
          Some (records ← scheduled; stats ← from_records records b [] []; Ok (records, stats))
      end
  end.
End run.

(** ** What the loop accumulates *)

Lemma max_of_spec x l : max_of x l ∈ x :: l ∧ ∀ y, y ∈ x :: l → y <= max_of x l.
Proof.
  unfold max_of. revert x; induction l as [|z l IH]; intros x; cbn; [split; [left|intros y; set_solver by lia]|].
  destruct (IH (Z.max x z)) as [Hin Hub]. split.
  - apply elem_of_cons in Hin as [Hin|Hin]; [|by right; right].
    rewrite Hin. destruct (Z.max_spec x z) as [[_ ->]|[_ ->]]; [right; left|left].
  - intros y [->|[->|Hy]%elem_of_cons]%elem_of_cons;
      [| |by apply Hub; right]; (etransitivity; [|apply Hub; left]); lia.
Qed.

Lemma min_of_spec x l : min_of x l ∈ x :: l ∧ ∀ y, y ∈ x :: l → min_of x l <= y.
Proof.
  unfold min_of. revert x; induction l as [|z l IH]; intros x; cbn; [split; [left|intros y; set_solver by lia]|].
  destruct (IH (Z.min x z)) as [Hin Hlb]. split.
  - apply elem_of_cons in Hin as [Hin|Hin]; [|by right; right].
    rewrite Hin. destruct (Z.min_spec x z) as [[_ ->]|[_ ->]]; [left|right; left].
  - intros y [->|[->|Hy]%elem_of_cons]%elem_of_cons;
      [| |by apply Hlb; right]; (etransitivity; [apply Hlb; left|]); lia.
Qed.

(** The greatest element, if there is one. *)
Definition max_opt (l : list Z) : option Z :=
  match l with [] => None | x :: l => Some (max_of x l) end.

Lemma max_opt_snoc l x :
  0 <= x → Forall (λ y, 0 <= y) l → max_opt (l ++ [x]) = Some (Z.max (default 0 (max_opt l)) x).
Proof.
  destruct l as [|y l]; cbn; [intros; f_equal; lia|]. intros _ _.
  unfold max_of. by rewrite foldl_app.
Qed.

Definition records_on (k : string) (rs : list ExecutionRecord) : list ExecutionRecord :=
  filter (λ r, resource_label r = k) rs.
Definition core_ends (c : Z) (rs : list ExecutionRecord) : list Z :=
  end_cycle <$> filter (λ r, r_core_id r = c) rs.
Definition waited (reason : string) (rs : list ExecutionRecord) : Z :=
  foldr (λ r acc, (if decide (stall_reason r = Some reason) then record_duration r else 0) + acc) 0 rs.
Definition occurrences (op : string) (rs : list ExecutionRecord) : Z :=
  Z.of_nat (length (filter (λ r, r_operation r = op) rs)).

(** The bytes a record adds to a path. *)
Definition record_bytes (b : bindings) (path : string) (r : ExecutionRecord) : Z :=
  if startswith "copy_" (r_operation r) && bool_decide (memory_path (r_metadata r) = Some path) then
    match transfer_bytes (r_metadata r) b with Ok (Some n) => n | _ => 0 end
  else 0.
Definition traffic (b : bindings) (path : string) (rs : list ExecutionRecord) : Z :=
  foldr (λ r acc, record_bytes b path r + acc) 0 rs.

Record tallied (b : bindings) (rs : list ExecutionRecord) (t : tallies) : Prop := {
  td_intervals k : dget (tl_intervals t) k = some_nonempty (cycles_of <$> records_on k rs);
  td_completion c : dget (tl_completion t) c = max_opt (core_ends c rs);
  td_operations op : dget_default 0 (tl_operations t) op = occurrences op rs;
  td_waits reason : dget_default 0 (tl_waits t) reason = waited reason rs;
  td_bytes path : dget_default 0 (tl_bytes t) path = traffic b path rs;
}.

Lemma waited_app reason l1 l2 : waited reason (l1 ++ l2) = waited reason l1 + waited reason l2.
Proof. unfold waited. induction l1 as [|r l1 IH]; cbn; [done|]. rewrite IH. lia. Qed.

Lemma traffic_app b path l1 l2 : traffic b path (l1 ++ l2) = traffic b path l1 + traffic b path l2.
Proof. unfold traffic. induction l1 as [|r l1 IH]; cbn; [done|]. rewrite IH. lia. Qed.

Lemma record_traffic_bytes b d r d' path :
  record_traffic b d r = Ok d' → dget_default 0 d' path = dget_default 0 d path + record_bytes b path r.
Proof.
  unfold record_traffic, record_bytes. destruct (startswith "copy_" (r_operation r)); cbn [andb].
  2: { intros H. injection H as <-. lia. }
  destruct (memory_path (r_metadata r)) as [p|].
  2: { intros H. injection H as <-. rewrite bool_decide_false by done. lia. }
  intros (tr & -> & H)%outcome_bind_ok.
  destruct tr as [n|]; injection H as <-; [rewrite dget_dadd|]; repeat case_decide; case_bool_decide;
    simplify_eq; lia.
Qed.

Lemma tally_tallied b rs r t t' :
  record_cycles_ok r → Forall record_cycles_ok rs → tallied b rs t → tally b t r = Ok t' →
  tallied b (rs ++ [r]) t'.
Proof.
  intros [Hr0 Hr] Hrs [Hi Hc Ho Hw Hb] H. unfold tally in H. apply outcome_bind_ok in H as (bytes & Hbytes & H).
  injection H as <-. split; cbn [tl_intervals tl_completion tl_operations tl_waits tl_bytes].
  - intros k. unfold records_on. rewrite filter_snoc_if, dget_dset. case_decide; [|apply Hi]. subst k.
    unfold dget_default. rewrite Hi, default_some_nonempty, fmap_app. cbn [fmap list_fmap].
    by rewrite some_nonempty_snoc.
  - intros c. unfold core_ends. rewrite filter_snoc_if, dget_dset. case_decide; [|apply Hc]. subst c.
    unfold dget_default. rewrite Hc, fmap_app. cbn [fmap list_fmap]. rewrite max_opt_snoc; [done|lia|].
    apply Forall_fmap. rewrite Forall_forall in *.
    intros x [_ Hx%Hrs]%list_elem_of_filter. destruct Hx. cbn. lia.
  - intros op. unfold occurrences. rewrite dget_dadd, Ho, filter_snoc_if. unfold occurrences.
    case_decide; rewrite ?length_app; cbn; lia.
  - intros reason. rewrite waited_app. cbn.
    destruct (stall_reason r) as [reason'|]; [rewrite dget_dadd|]; rewrite Hw;
      repeat case_decide; simplify_eq; lia.
  - intros path. rewrite traffic_app, (record_traffic_bytes _ _ _ _ path Hbytes), Hb. cbn. lia.
Qed.

Lemma tally_all b rs t :
  Forall record_cycles_ok rs → ofold (tally b) rs (MkTallies [] [] [] [] []) = Ok t → tallied b rs t.
Proof.
  intros Hrs. apply (ofold_invariant (tallied b)); [by split|].
  intros pre r c c' [suf ->] Hp Hs. apply Forall_app in Hrs as [Hpre [Hr _]%Forall_cons].
  by eapply tally_tallied.
Qed.

Lemma from_records_tallied rs b ds wm st :
  Forall record_cycles_ok rs → from_records rs b ds wm = Ok st →
  (∀ k, dget (busy_cycles_by_resource st) k =
        union_length <$> some_nonempty (cycles_of <$> records_on k rs)) ∧
  (∀ c, dget (completion_cycle_by_core st) c = max_opt (core_ends c rs)) ∧
  (∀ op, dget_default 0 (operation_counts st) op = occurrences op rs) ∧
  (∀ reason, dget_default 0 (wait_cycles_by_reason st) reason = waited reason rs) ∧
  (∀ path, dget_default 0 (memory_bytes_by_path st) path = traffic b path rs) ∧
  makespan_cycles st = default 0 (max_opt (end_cycle <$> rs)) ∧
  load_imbalance_cycles st = match dvalues (completion_cycle_by_core st) with
                             | [] => 0 | c :: cs => max_of c cs - min_of c cs end.
Proof.
  intros Hrs H. destruct rs as [|r rest]; [injection H as <-; by repeat split|].
  cbn [from_records] in H. apply outcome_bind_ok in H as (t & Ht & H). injection H as <-.
  apply tally_all in Ht as [Hi Hc Ho Hw Hb]; [|done].
  repeat split; cbn; try done. intros k. rewrite dget_fmap_values. by rewrite Hi.
Qed.

Lemma makespan_bounds rs r :
  r ∈ rs → end_cycle r <= default 0 (max_opt (end_cycle <$> rs)).
Proof.
  intros Hr. apply (list_elem_of_fmap_2 end_cycle) in Hr.
  destruct rs as [|r0 rest]; [set_solver|]. cbn. by apply max_of_spec.
Qed.

Lemma count_le P `{∀ z, Decision (P z)} lo hi : lo <= hi → 0 <= count P lo hi <= hi - lo.
Proof.
  intros Hle. unfold count. pose proof (length_filter P (seqZ lo (hi - lo))) as Hl.
  rewrite length_seqZ in Hl. lia.
Qed.

(** A cycle at which some record occupies the resource. *)
Definition occupied (k : string) (rs : list ExecutionRecord) (z : Z) : Prop :=
  covered (cycles_of <$> records_on k rs) z.
#[export] Instance occupied_dec k rs z : Decision (occupied k rs z).
Proof. unfold occupied. apply _. Defined.

Lemma occupied_iff k rs z :
  occupied k rs z ↔ ∃ r, r ∈ rs ∧ resource_label r = k ∧ start_cycle r <= z < end_cycle r.
Proof.
  unfold occupied, covered, records_on. rewrite Exists_exists. split.
  - intros (i & (r & -> & [Hk Hr]%list_elem_of_filter)%list_elem_of_fmap & Hc). by exists r.
  - intros (r & Hr & Hk & Hc). exists (cycles_of r). split; [|done].
    apply list_elem_of_fmap_2, list_elem_of_filter. done.
Qed.

(** Busy cycles are exact: the summary has an entry for a resource exactly when some record
    ran on it, and the entry is the number of cycles of the makespan during which at least one
    of its records is active — overlapping, nested and adjacent intervals counted once — so it
    lies between zero and the makespan. *)
Theorem busy_cycles_exact rs b ds wm st k :
  Forall record_cycles_ok rs → from_records rs b ds wm = Ok st →
  match dget (busy_cycles_by_resource st) k with
  | None => ∀ r, r ∈ rs → resource_label r ≠ k
  | Some n => (∃ r, r ∈ rs ∧ resource_label r = k) ∧
              n = count (occupied k rs) 0 (makespan_cycles st) ∧ 0 <= n <= makespan_cycles st
  end.
Proof.
  intros Hrs H. destruct (from_records_tallied _ _ _ _ _ Hrs H) as (Hb & _ & _ & _ & _ & Hm & _).
  rewrite Hb, Hm. set (m := default 0 (max_opt (end_cycle <$> rs))).
  assert (∀ r, r ∈ records_on k rs ↔ r ∈ rs ∧ resource_label r = k) as Hon.
  { intros r. unfold records_on. rewrite list_elem_of_filter. tauto. }
  destruct (records_on k rs) as [|r0 on] eqn:E; cbn [fmap list_fmap some_nonempty option_fmap option_map].
  { intros r Hr Hk. assert (r ∈ @nil ExecutionRecord) as Hin by (by apply Hon). set_solver. }
  assert (r0 ∈ rs ∧ resource_label r0 = k) as [Hr0 Hk0] by (apply Hon; left).
  assert (0 <= m) as Hm0.
  { rewrite Forall_forall in Hrs. destruct (Hrs r0 Hr0). pose proof (makespan_bounds rs r0 Hr0).
    subst m. lia. }
  assert (union_length (cycles_of <$> records_on k rs) = count (occupied k rs) 0 m) as Hu.
  { apply union_size_count; [|done]. intros i (r & -> & Hr%list_elem_of_filter)%list_elem_of_fmap.
    destruct Hr as [_ Hr]. rewrite Forall_forall in Hrs. destruct (Hrs r Hr).
    pose proof (makespan_bounds rs r Hr). cbn. subst m. lia. }
  rewrite E in Hu. cbn [fmap list_fmap] in Hu. split; [eauto|]. split; [exact Hu|].
  pose proof (count_le (occupied k rs) 0 m Hm0) as Hle. rewrite Z.sub_0_r, <- Hu in Hle. exact Hle.
Qed.

(** Completion cycles, makespan and load imbalance: a core's completion cycle is the last
    end of its records, the makespan is the last end of all records, and the imbalance is the
    largest difference between the completion cycles of two cores, attained by some pair. *)
Theorem completion_exact rs b ds wm st :
  Forall record_cycles_ok rs → from_records rs b ds wm = Ok st → rs ≠ [] →
  (∀ c, dget (completion_cycle_by_core st) c = max_opt (core_ends c rs)) ∧
  (∀ r, r ∈ rs → end_cycle r <= makespan_cycles st) ∧
  (∃ r, r ∈ rs ∧ end_cycle r = makespan_cycles st) ∧
  (∀ c1 c2, c1 ∈ dvalues (completion_cycle_by_core st) → c2 ∈ dvalues (completion_cycle_by_core st) →
    c1 - c2 <= load_imbalance_cycles st) ∧
  (∃ c1 c2, c1 ∈ dvalues (completion_cycle_by_core st) ∧ c2 ∈ dvalues (completion_cycle_by_core st) ∧
    load_imbalance_cycles st = c1 - c2).
Proof.
  intros Hrs H Hne. destruct (from_records_tallied _ _ _ _ _ Hrs H) as (_ & Hc & _ & _ & _ & Hm & Hl).
  rewrite Hm, Hl. split; [done|]. split; [intros; by apply makespan_bounds|].
  destruct rs as [|r0 rest]; [done|]. split.
  { destruct (max_of_spec (end_cycle r0) (end_cycle <$> rest)) as [Hin _].
    apply (list_elem_of_fmap end_cycle (r0 :: rest)) in Hin as (r & Heq & Hr). by exists r. }
  assert (dvalues (completion_cycle_by_core st) ≠ []) as Hv.
  { specialize (Hc (r_core_id r0)). unfold core_ends in Hc. rewrite filter_cons_True in Hc by done.
    intros Hnil. destruct (completion_cycle_by_core st); [|done]. done. }
  destruct (dvalues (completion_cycle_by_core st)) as [|c cs]; [done|].
  destruct (max_of_spec c cs) as [Hmax Hub], (min_of_spec c cs) as [Hmin Hlb].
  split; [|by eauto 6]. intros c1 c2 H1%Hub H2%Hlb. lia.
Qed.

(** Counters are sums over the records: an operation's count is the number of its records,
    the wait cycles of a reason are the total duration of the records that stalled for it, and the
    bytes of a memory path are those of the copy records between its two scopes whose size the
    bindings resolve. *)
Theorem counters_exact rs b ds wm st :
  Forall record_cycles_ok rs → from_records rs b ds wm = Ok st →
  (∀ op, dget_default 0 (operation_counts st) op = occurrences op rs) ∧
  (∀ reason, dget_default 0 (wait_cycles_by_reason st) reason = waited reason rs) ∧
  (∀ path, dget_default 0 (memory_bytes_by_path st) path = traffic b path rs).
Proof.
  intros Hrs H. by destruct (from_records_tallied _ _ _ _ _ Hrs H) as (_ & _ & Ho & Hw & Hb & _).
Qed.

(** A copy record whose transfer size cannot be computed at all. *)
Definition fails_with (b : bindings) (e : exn) (r : ExecutionRecord) : Prop :=
  startswith "copy_" (r_operation r) = true ∧ is_Some (memory_path (r_metadata r)) ∧
  transfer_bytes (r_metadata r) b = Raise e.

Lemma tally_raise b t r e : tally b t r = Raise e ↔ fails_with b e r.
Proof.
  unfold tally, fails_with, record_traffic. rewrite outcome_bind_raise.
  destruct (startswith "copy_" (r_operation r)); [|naive_solver].
  destruct (memory_path (r_metadata r)) as [p|]; [|naive_solver eauto using is_Some_None].
  rewrite outcome_bind_raise. split.
  - intros [[H|([n|] & _ & H)]|(a & _ & H)]; [by eauto|done..].
  - intros (_ & _ & H). by left; left.
Qed.

Lemma ofold_tally_raise b rs t e :
  ofold (tally b) rs t = Raise e ↔
  ∃ pre r suf, rs = pre ++ r :: suf ∧ fails_with b e r ∧ Forall (λ r', ∀ e', ¬ fails_with b e' r') pre.
Proof.
  revert t; induction rs as [|r rs IH]; intros t; cbn [ofold].
  { split; [done|]. intros (pre & r & suf & H & _). by destruct pre. }
  rewrite outcome_bind_raise. split.
  - intros [H%tally_raise|(t' & Hok & (pre & r' & suf & -> & Hf & Hp)%IH)].
    + by exists [], r, rs.
    + exists (r :: pre), r', suf. split; [done|]. split; [done|]. constructor; [|done].
      intros e' He'. apply (tally_raise b t) in He'. congruence.
  - intros (pre & r' & suf & Heq & Hf & Hp). destruct pre as [|r0 pre]; injection Heq as -> ->.
    + left. by apply tally_raise.
    + apply Forall_cons in Hp as [H0 Hp]. right.
      destruct (tally b t r0) as [t'|e'] eqn:E; [|by apply tally_raise, H0 in E].
      exists t'. split; [done|]. apply IH. by exists pre, r', suf.
Qed.

(** Statistics fail only on a transfer that has no size: [from_records] raises exactly when a
    copy between two regions has a size that cannot be computed (not merely unresolved), and it
    raises the error of the first such record; in every other case a summary is returned. *)
Theorem from_records_error_exact rs b ds wm e :
  from_records rs b ds wm = Raise e ↔
  ∃ pre r suf, rs = pre ++ r :: suf ∧ fails_with b e r ∧ Forall (λ r', ∀ e', ¬ fails_with b e' r') pre.
Proof.
  rewrite <- (ofold_tally_raise b rs (MkTallies [] [] [] [] [])).
  destruct rs as [|r rest]; [by cbn|]. cbn [from_records]. rewrite outcome_bind_raise. naive_solver.
Qed.

(** ** A concrete summary *)

Definition mk_record (id op : string) (core s e : Z) (stall : option string) : ExecutionRecord :=
  MkRecord id op core CUBE MTE2 s e (match stall with Some _ => "stall" | None => "operation" end) stall
    [("src", VRegion (Region "A" GM [VInt 4; VInt 8] "float16" (VInt 0) None None));
     ("dst", VRegion (Region "B" L1 [VInt 4; VInt 8] "float16" (VInt 0) None None))].
Definition example_records : list ExecutionRecord :=
  [mk_record "a" "copy_gm_l1" 0 0 10 None; mk_record "b" "copy_gm_l1" 0 5 12 None;
   mk_record "w" "wait_flag" 0 12 20 (Some "flag"); mk_record "c" "copy_gm_l1" 1 3 7 None].
Definition example_stats : SimulationStats :=
  match from_records example_records [] [] [] with
  | Ok st => st
  | Raise _ => MkStats 0 0 [] [] [] [] [] [] [] [] 0
  end.

Lemma example_stats_ok : from_records example_records [] [] [] = Ok example_stats.
Proof. vm_compute. reflexivity. Qed.

Lemma example_records_ok : Forall record_cycles_ok example_records.
Proof. repeat constructor; cbn; lia. Qed.

Lemma busy_cycles_exact_witness :
  dget (busy_cycles_by_resource example_stats) "core-0/cube/mte2" = Some 20 ∧
  20 = count (occupied "core-0/cube/mte2" example_records) 0 (makespan_cycles example_stats).
Proof.
  pose proof (busy_cycles_exact _ _ _ _ _ "core-0/cube/mte2" example_records_ok example_stats_ok) as H.
  assert (dget (busy_cycles_by_resource example_stats) "core-0/cube/mte2" = Some 20) as E
    by (vm_compute; reflexivity).
  rewrite E in H. split; [exact E|apply H].
Defined.

Lemma completion_exact_witness :
  dget (completion_cycle_by_core example_stats) 1 = Some 7 ∧
  (∃ c1 c2, c1 ∈ dvalues (completion_cycle_by_core example_stats) ∧
    c2 ∈ dvalues (completion_cycle_by_core example_stats) ∧
    load_imbalance_cycles example_stats = c1 - c2) ∧
  load_imbalance_cycles example_stats = 13.
Proof.
  destruct (completion_exact _ _ _ _ _ example_records_ok example_stats_ok) as (Hc & _ & _ & _ & Hl);
    [discriminate|].
  split; [rewrite Hc; vm_compute; reflexivity|]. split; [exact Hl|vm_compute; reflexivity].
Defined.

Lemma counters_exact_witness :
  dget_default 0 (operation_counts example_stats) "copy_gm_l1" = 3 ∧
  dget_default 0 (wait_cycles_by_reason example_stats) "flag" = 8 ∧
  dget_default 0 (memory_bytes_by_path example_stats) "gm->l1" = 192.
Proof.
  destruct (counters_exact _ _ _ _ _ example_records_ok example_stats_ok) as (Ho & Hw & Hb).
  rewrite Ho, Hw, Hb. vm_compute. auto.
Defined.
