(* ===== verification/Run.v ===== *)
(** A whole run of the scheduler ([DiscreteEventScheduler.run]): the schedule together with its
    statistics.  The makespan a run reports is consistent with the program: no task ends after
    it, and it is at least the work of every pipe and the length of every dependency chain. *)

From S2P Require Import Prelude PyDict PySort PyStr Errors Values Program Trace Config SyncOps.
From S2P Require Import SyncReset SyncModel Scheduler Schedule Progress Intervals Stats.
Local Open Scope string_scope.
Local Open Scope Z_scope.
Local Open Scope list_scope.

Lemma from_records_makespan rs b ds wm st :
  from_records rs b ds wm = Ok st → makespan_cycles st = default 0 (max_opt (end_cycle <$> rs)).
Proof.
  destruct rs as [|r rest]; cbn [from_records]; [intros H; by injection H as <-|].
  intros (t & _ & H)%outcome_bind_ok. by injection H as <-.
Qed.

(** The cycles of work a resource has to do. *)
Definition work_on (key : ResourceKey) (ts : list Task) : Z :=
  foldr (λ t acc, (if decide (resource_key t = key) then duration_cycles t else 0) + acc) 0 ts.

Lemma work_on_app key l1 l2 : work_on key (l1 ++ l2) = work_on key l1 + work_on key l2.
Proof. unfold work_on. induction l1 as [|t l1 IH]; cbn; [done|]. rewrite IH. lia. Qed.

(** The total duration of a chain of execution dependencies that ends in a task. *)
Inductive dep_chain (ts : list Task) : Task → Z → Prop :=
| chain_one t : t ∈ ts → dep_chain ts t (duration_cycles t)
| chain_step t u n : dep_chain ts t n → u ∈ ts → task_id t ∈ execution_dependencies u →
    dep_chain ts u (n + duration_cycles u).

Section bounds.
Context (ts : list Task) (rs : list ExecutionRecord) (c : completed_map).
Context (valid : valid_schedule ts rs c).

Lemma valid_record t : t ∈ ts → ∃ r, c !! task_id t = Some r ∧ record_of t r ∧ r ∈ rs.
Proof.
  intros Ht. destruct (proj2 (vs_tasks _ _ _ valid (task_id t))) as [r Hr].
  { by apply list_elem_of_fmap_2. }
  exists r. split; [done|]. split; [by eapply vs_record|].
  assert (r ∈ operation_records rs) as Hin.
  { rewrite (vs_records _ _ _ valid). apply list_elem_of_fmap. exists (task_id t, r).
    split; [done|]. by apply elem_of_map_to_list. }
  unfold operation_records in Hin. by apply list_elem_of_filter in Hin as [_ ?].
Qed.

Lemma work_ends key pre suf :
  ts = pre ++ suf → work_on key pre <= 0 ∨
  ∃ a ra, a ∈ pre ∧ resource_key a = key ∧ c !! task_id a = Some ra ∧ work_on key pre <= end_cycle ra.
Proof.
  revert suf; induction pre as [|t pre IH] using rev_ind; intros suf Heq; [by left|].
  rewrite <- app_assoc in Heq. cbn in Heq. specialize (IH _ Heq). rewrite work_on_app. cbn.
  destruct (valid_record t) as (r & Hr & Hrec & _); [rewrite Heq; set_solver|].
  destruct Hrec as (_ & _ & _ & _ & _ & _ & Hs & He). case_decide as Hk.
  - right. exists t, r. split; [set_solver|]. split; [done|]. split; [done|].
    destruct IH as [IH|(a & ra & Ha & Hka & Hra & IH)]; [lia|].
    apply list_elem_of_split in Ha as (l1 & l2 & ->).
    assert (end_cycle ra <= start_cycle r); [|lia].
    eapply (vs_fifo _ _ _ valid l1 a l2 t suf); [|congruence|done|done].
    rewrite Heq, <- app_assoc. done.
  - destruct IH as [IH|(a & ra & Ha & Hka & Hra & IH)]; [left; lia|].
    right. exists a, ra. split; [set_solver|]. split; [done|]. split; [done|]. lia.
Qed.

Lemma chain_ends t n : dep_chain ts t n → ∃ r, c !! task_id t = Some r ∧ n <= end_cycle r.
Proof.
  induction 1 as [t Ht|t u n Hc (r & Hr & Hn) Hu Hd].
  - destruct (valid_record t Ht) as (r & Hr & (_ & _ & _ & _ & _ & _ & ? & ?) & _). exists r.
    split; [done|]. lia.
  - destruct (valid_record u Hu) as (ru & Hru & (_ & _ & _ & _ & _ & _ & ? & He) & _). exists ru.
    split; [done|]. destruct (vs_dependencies _ _ _ valid u ru _ Hu Hru Hd) as (rd & Hrd & Hle).
    simplify_eq. lia.
Qed.

Lemma completed_in_records id r : c !! id = Some r → r ∈ rs.
Proof.
  intros Hr. assert (r ∈ operation_records rs) as Hin.
  { rewrite (vs_records _ _ _ valid). apply list_elem_of_fmap. exists (id, r).
    split; [done|]. by apply elem_of_map_to_list. }
  unfold operation_records in Hin. by apply list_elem_of_filter in Hin as [_ ?].
Qed.
End bounds.

Section claims.
Context {St : Type} `{!SynchronizationModel St}.
Context (config : SimulatorConfig) (set_order : gset string → list string) (clock : nat → Q).

(** The makespan a run reports fits the program: every task of the program has its
    record and ends by the makespan; the makespan is at least the total work of any one pipe and
    at least the length of any chain of execution dependencies; it never exceeds [max_cycles]. *)
Theorem run_makespan fuel p b rs st :
  program_wf p → run set_order clock (Some config) fuel p b = Some (Ok (rs, st)) →
  (∀ t, t ∈ tasks p → ∃ r, r ∈ rs ∧ record_of t r ∧ end_cycle r <= makespan_cycles st) ∧
  (∀ t, t ∈ tasks p → work_on (resource_key t) (tasks p) <= makespan_cycles st) ∧
  (∀ t n, dep_chain (tasks p) t n → n <= makespan_cycles st) ∧
  (∀ m, max_cycles config = Some m → makespan_cycles st <= Z.max 0 m).
Proof.
  intros Hwf H. unfold run in H.
  destruct (schedule config set_order clock fuel p) as [[rs'|]|] eqn:Es; [|done|done].
  cbn [mbind outcome_bind] in H. injection H as H.
  apply outcome_bind_ok in H as (st' & Hst & H). injection H as -> ->.
  destruct (schedule_run config set_order clock fuel p rs (wf_unique _ Hwf) Es)
    as (st0 & hist & c & st1 & _ & Hrun & Hts & Hrs & Hlim).
  assert (valid_schedule (tasks p) rs c) as Hv.
  { eapply facts_valid; [apply Hwf|by eapply sched_run_facts|done|done]. }
  rewrite (from_records_makespan _ _ _ _ _ Hst).
  assert (∀ id r, c !! id = Some r → end_cycle r <= default 0 (max_opt (end_cycle <$> rs))) as Hend.
  { intros id r Hr. apply makespan_bounds. by eapply completed_in_records. }
  split; [|split; [|split]].
  - intros t Ht. destruct (valid_record _ _ _ Hv t Ht) as (r & Hr & Hrec & Hin). eauto.
  - intros t Ht. destruct (work_ends _ _ _ Hv (resource_key t) (tasks p) []) as [Hw|(a & ra & _ & _ & Hra & Hw)].
    + by rewrite app_nil_r.
    + destruct (valid_record _ _ _ Hv t Ht) as (r & Hr & (_ & _ & _ & _ & _ & _ & ? & _) & _).
      specialize (Hend _ _ Hr). lia.
    + etransitivity; [exact Hw|by eapply Hend].
  - intros t n (r & Hr & Hn)%(chain_ends _ _ _ Hv). etransitivity; [exact Hn|by eapply Hend].
  - intros m Hm. destruct rs as [|r rest]; cbn; [lia|].
    destruct (max_of_spec (end_cycle r) (end_cycle <$> rest)) as [Hin _].
    apply (list_elem_of_fmap end_cycle (r :: rest)) in Hin as (r' & -> & Hr').
    specialize (Hlim m Hm r' Hr'). lia.
Qed.
End claims.

(** ** A concrete run *)

Lemma run_makespan_witness :
  match run elements still_clock (Some example_config) 4 gemm_program [] with
  | Some (Ok (rs, st)) =>
      makespan_cycles st = 19 ∧ ∀ t, t ∈ tasks gemm_program →
        work_on (resource_key t) (tasks gemm_program) <= makespan_cycles st
  | _ => False
  end.
Proof.
  destruct (run elements still_clock (Some example_config) 4 gemm_program []) as [[[rs st]|e]|] eqn:E;
    [|vm_compute in E; discriminate E|vm_compute in E; discriminate E].
  destruct (run_makespan example_config elements still_clock 4 gemm_program [] rs st gemm_program_wf E)
    as (_ & Hw & _). split; [|exact Hw].
  vm_compute in E. injection E as <- <-. reflexivity.
Defined.
