(* ===== verification/TraceExport.v ===== *)
(** The Chrome trace exporter ([trace.py], [ChromeTraceExporter]): JSON-safe metadata, duration
    events, dependency flows and the two counter tracks.  The theorems say what the counters
    show: at every cycle, the number of cores with an operation running, and the number of tasks
    queued on a resource. *)

From stdpp Require Import pretty.
From Stdlib Require Import Sorting.Sorted.
From S2P Require Import Prelude PyDict PySort PyStr Errors Values Program Trace Intervals.
From S2P Require Import MemoryView.
Local Open Scope string_scope.
Local Open Scope Z_scope.
Local Open Scope list_scope.

Definition TRACE_SCHEMA_VERSION : string := "1.0".

Definition opt_value {A} (f : A → pyval) (o : option A) : pyval :=
  match o with Some a => f a | None => VNone end.

(** [_json_safe]: enumerations are their value, dataclasses become dictionaries of their fields,
    sequences become lists; any other object is its string. *)
Fixpoint json_safe (v : pyval) : pyval :=
  match v with
  | VNone | VBool _ | VInt _ | VFloat _ | VStr _ => v
  | VAffine a =>
      VDict [("terms", VList ((λ '(name, c), VList [VStr name; VInt c]) <$> aff_terms a));
             ("constant", VInt (aff_constant a))]
  | VSym operation arguments =>
      VDict [("operation", VStr operation); ("arguments", VList (map json_safe arguments))]
  | VRegion r =>
      match r with
      | Region buffer scope shape dtype byte_offset strides_bytes core_id =>
          VDict [("buffer", VStr buffer); ("scope", VStr (scope_value scope));
                 ("shape", VList (map json_safe shape)); ("dtype", VStr dtype);
                 ("byte_offset", json_safe byte_offset);
                 ("strides_bytes",
                   match strides_bytes with
                   | Some strides => VList (map json_safe strides)
                   | None => VNone
                   end);
                 ("core_id", opt_value VInt core_id)]
      end
  | VDict kvs => VDict (map (λ '(k, x), (k, json_safe x)) kvs)
  | VTuple l | VList l => VList (map json_safe l)
  | VOther repr => VStr repr
  end.

Record ChromeTraceExporter := MkExporter {
  ex_platform : string;
  ex_calibration : string;
  ex_timing_limitations : list string;
}.

Abbreviation event := (dict string pyval).

Definition core_pid (c : Z) : pyval := VStr ("core-" +:+ pretty c).

(** A counter sample. *)
Definition counter_event (name : string) (cycle : Z) (pid tid : pyval) (args : dict string pyval) : event :=
  [("name", VStr name); ("cat", VStr "counter"); ("ph", VStr "C"); ("ts", VInt cycle);
   ("pid", pid); ("tid", tid); ("args", VDict args)].

(** ** Active cores *)

Definition is_operation (r : ExecutionRecord) : bool := mem_str (category r) ["operation"].

(** [intervals_by_core] *)
Definition group_step (d : dict Z (list interval)) (r : ExecutionRecord) : dict Z (list interval) :=
  if negb (is_operation r) || (record_duration r =? 0) then d
  else dset d (r_core_id r) (dget_default [] d (r_core_id r) ++ [cycles_of r]).
Definition intervals_by_core (rs : list ExecutionRecord) : dict Z (list interval) :=
  foldl group_step [] rs.

(** The merge loop. *)
Definition merge_step (merged : list interval) (cur : interval) : list interval :=
  match last merged with
  | Some m => if cur.1 <=? m.2 then take (length merged - 1) merged ++ [(m.1, Z.max m.2 cur.2)]
              else merged ++ [cur]
  | None => merged ++ [cur]
  end.
Definition merge_intervals (intervals : list interval) : list interval :=
  foldl merge_step [] (py_sorted interval_leb intervals).

(** One interval on a counter: up at its start, down at its end. *)
Definition transition {K} `{EqDecision K} (key : Z → K) (d : dict K Z) (i : interval) : dict K Z :=
  dadd (dadd d (key i.1) 1) (key i.2) (-1).

Definition active_transitions (rs : list ExecutionRecord) : dict Z Z :=
  foldl (λ d intervals, foldl (transition id) d (merge_intervals intervals)) []
    (dvalues (intervals_by_core rs)).

(** [active += delta] along the ordered transitions *)
Fixpoint running (active : Z) (items : list (Z * Z)) : list (Z * Z) :=
  match items with
  | [] => []
  | (cycle, delta) :: items => (cycle, active + delta) :: running (active + delta) items
  end.

Definition active_core_counter (rs : list ExecutionRecord) : list (Z * Z) :=
  running 0 (py_sorted interval_leb (active_transitions rs)).

(** [_active_core_events] *)
Definition active_core_events (rs : list ExecutionRecord) : list event :=
  (λ '(cycle, active),
     counter_event "active_cores" cycle (VStr "simulator") (VStr "counters")
       [("active_cores", VInt active)]) <$> active_core_counter rs.

(** ** Queue depth *)

Abbreviation track := (Z * string)%type.

(** The interval a task spent ready behind older work of its resource. *)
Definition queued (r : ExecutionRecord) : option interval :=
  if is_operation r then
    match dget (r_metadata r) "queue_enter_cycle" ≫= as_integral with
    | Some queued_at => if start_cycle r <=? queued_at then None else Some (queued_at, start_cycle r)
    | None => None
    end
  else None.
Definition record_track (r : ExecutionRecord) : track := (r_core_id r, record_resource r).

Definition queue_step (d : dict (track * Z) Z) (r : ExecutionRecord) : dict (track * Z) Z :=
  match queued r with
  | None => d
  | Some i => transition (λ cycle, (record_track r, cycle)) d i
  end.

(** The order of [((core_id, resource, cycle), delta)] tuples. *)
Definition track_eqb (x y : track) : bool := bool_decide (x = y).
Definition track_leb : track → track → bool := pair_leb Z.eqb Z.leb str_leb.
Definition queue_key_leb : track * Z → track * Z → bool := pair_leb track_eqb track_leb Z.leb.
Definition queue_item_leb : (track * Z) * Z → (track * Z) * Z → bool :=
  pair_leb (λ x y, bool_decide (x = y)) queue_key_leb Z.leb.

Fixpoint depth_scan (depths : dict track Z) (items : list ((track * Z) * Z))
    : list (track * (Z * Z)) :=
  match items with
  | [] => []
  | ((key, cycle), delta) :: items =>
      let depths' := dadd depths key delta in
      (key, (cycle, dget_default 0 depths' key)) :: depth_scan depths' items
  end.

Definition queue_depth_counter (rs : list ExecutionRecord) : list (track * (Z * Z)) :=
  depth_scan [] (py_sorted queue_item_leb (foldl queue_step [] rs)).

(** [_queue_depth_events] *)
Definition queue_depth_events (rs : list ExecutionRecord) : list event :=
  (λ '((core, resource), (cycle, depth)),
     counter_event "queue_depth" cycle (core_pid core) (VStr resource)
       [("queue_depth", VInt depth)]) <$> queue_depth_counter rs.

(** ** The document *)

(** Iterating over a metadata value, each item as a string. *)
Definition iter_ids (v : option pyval) : result (list string) :=
  match v with
  | None => Ok []
  | Some (VTuple l) | Some (VList l) => Ok (str_of <$> l)
  | Some (VStr s) => Ok ((λ c, String c "") <$> String.list_ascii_of_string s)
  | Some (VDict d) => Ok (dkeys d)
  | Some _ => raise TypeError "not iterable"
  end.

Definition header_events (ex : ChromeTraceExporter) : list event :=
  [[("name", VStr "process_name"); ("ph", VStr "M"); ("pid", VStr "simulator"); ("tid", VInt 0);
    ("args", VDict [("name", VStr ("TileLang Ascend " +:+ ex_platform ex +:+ " simulator"))])];
   [("name", VStr "simulator_metadata"); ("ph", VStr "M"); ("pid", VStr "simulator"); ("tid", VInt 0);
    ("args", VDict [("schema_version", VStr TRACE_SCHEMA_VERSION); ("platform", VStr (ex_platform ex));
                    ("timestamp_unit", VStr "simulator_cycle"); ("calibration", VStr (ex_calibration ex));
                    ("timing_limitations", VList (VStr <$> ex_timing_limitations ex))])]].

Definition thread_events (rs : list ExecutionRecord) : list event :=
  (λ '(core, resource),
     [("name", VStr "thread_name"); ("ph", VStr "M"); ("pid", core_pid core); ("tid", VStr resource);
      ("args", VDict [("name", VStr resource)])])
    <$> py_sorted track_leb (fromkeys (record_track <$> rs)).

Definition memory_events (timeline : list (Z * dict string Z)) : list event :=
  (λ '(cycle, usage),
     counter_event "live_local_memory_bytes" cycle (VStr "simulator") (VStr "counters")
       ((λ '(k, v), (k, VInt v)) <$> usage)) <$> timeline.

(** The duration event of a record; its own keys override those of the metadata. *)
Definition record_args (r : ExecutionRecord) : dict string pyval :=
  let args := match json_safe (VDict (r_metadata r)) with VDict d => d | _ => [] end in
  let args := dset args "task_id" (VStr (r_task_id r)) in
  let args := dset args "cycle_begin" (VInt (start_cycle r)) in
  let args := dset args "cycle_end" (VInt (end_cycle r)) in
  match stall_reason r with
  | Some reason => dset args "stall_reason" (VStr reason)
  | None => args
  end.
Definition record_event (r : ExecutionRecord) : event :=
  [("name", VStr (r_operation r)); ("cat", VStr (category r)); ("ph", VStr "X");
   ("ts", VInt (start_cycle r)); ("dur", VInt (record_duration r)); ("pid", core_pid (r_core_id r));
   ("tid", VStr (record_resource r)); ("args", VDict (record_args r))].

Definition records_by_id (rs : list ExecutionRecord) : dict string ExecutionRecord :=
  dict_of_pairs ((λ r, (r_task_id r, r)) <$> filter (λ r, is_operation r = true) rs).

(** The start and finish events of one dependency. *)
Definition flow_events (flow_name : string) (producer consumer : ExecutionRecord) : list event :=
  let flow_id := flow_name +:+ ":" +:+ r_task_id producer +:+ ":" +:+ r_task_id consumer in
  let args := VDict [("from", VStr (r_task_id producer)); ("to", VStr (r_task_id consumer))] in
  [[("name", VStr flow_name); ("cat", VStr "dependency"); ("ph", VStr "s"); ("id", VStr flow_id);
    ("ts", VInt (end_cycle producer)); ("pid", core_pid (r_core_id producer));
    ("tid", VStr (record_resource producer)); ("args", args)];
   [("name", VStr flow_name); ("cat", VStr "dependency"); ("ph", VStr "f"); ("bp", VStr "e");
    ("id", VStr flow_id); ("ts", VInt (start_cycle consumer)); ("pid", core_pid (r_core_id consumer));
    ("tid", VStr (record_resource consumer)); ("args", args)]].

Definition flows_of (by_id : dict string ExecutionRecord) (consumer : ExecutionRecord)
    (flow_name key : string) : result (list event) :=
  ids ← iter_ids (dget (r_metadata consumer) key);
  Ok (flat_map (λ id, match dget by_id id with
                      | Some producer => flow_events flow_name producer consumer
                      | None => []
                      end) ids).
Definition consumer_flows (by_id : dict string ExecutionRecord) (consumer : ExecutionRecord)
    : result (list event) :=
  memory ← flows_of by_id consumer "memory_dependency" "memory_dependencies";
  flags ← flows_of by_id consumer "flag_dependency" "sync_producers";
  Ok (memory ++ flags).

(** [to_dict] *)
Definition trace_to_dict (ex : ChromeTraceExporter) (rs : list ExecutionRecord)
    (timeline : list (Z * dict string Z)) : result (dict string pyval) :=
  let by_id := records_by_id rs in
  flows ← omap_list (consumer_flows by_id) (dvalues by_id);
  Ok [("schemaVersion", VStr TRACE_SCHEMA_VERSION);
      ("traceEvents",
        VList (VDict <$> (header_events ex ++ thread_events rs ++ active_core_events rs ++
                          queue_depth_events rs ++ memory_events timeline ++
                          (record_event <$> rs) ++ concat flows)));
      ("displayTimeUnit", VStr "ns")].

(** ** What a counter shows *)

(** The value of a counter at a cycle: its last sample at or before it, zero before the first. *)
Definition counter_at (samples : list (Z * Z)) (z : Z) : Z :=
  foldl (λ value '(cycle, v), if cycle <=? z then v else value) 0 samples.

(** The total of the entries whose key satisfies [P]. *)
Definition total_where {K} (P : K → bool) (d : dict K Z) : Z :=
  foldr (λ '(k, v) acc, (if P k then v else 0) + acc) 0 d.

Lemma total_where_perm {K} (P : K → bool) (d d' : dict K Z) :
  d ≡ₚ d' → total_where P d = total_where P d'.
Proof. unfold total_where. induction 1 as [|[] ? ? ? IH|[] []|]; cbn; lia. Qed.

Lemma total_where_dadd {K} `{EqDecision K} (P : K → bool) (d : dict K Z) k n :
  total_where P (dadd d k n) = total_where P d + (if P k then n else 0).
Proof.
  unfold total_where, dadd, dget_default. induction d as [|[k' v] d IH]; cbn; [destruct (P k); lia|].
  case_decide; subst; cbn; [destruct (P k'); lia|]. rewrite IH. lia.
Qed.

Lemma counter_at_running a items z :
  StronglySorted (λ x y, x.1 <= y.1) items →
  foldl (λ value '(cycle, v), if cycle <=? z then v else value) a (running a items) =
  a + total_where (λ k, k <=? z) items.
Proof.
  unfold total_where. intros Hs. revert a; induction Hs as [|[c d] items Hs IH Hf]; intros a; cbn; [lia|].
  destruct (Z.leb_spec c z) as [Hle|Hgt]; [rewrite IH; lia|].
  assert (∀ a', foldl (λ value '(cycle, v), if cycle <=? z then v else value) a (running a' items) = a ∧
    foldr (λ '(k, v) acc, (if k <=? z then v else 0) + acc) 0 items = 0) as Hrest.
  { clear IH Hs. induction Hf as [|[c' d'] items Hc Hf IH]; intros a'; cbn in *; [done|].
    destruct (Z.leb_spec c' z); [lia|]. destruct (IH (a' + d')) as [-> ->]. done. }
  destruct (Hrest (a + d)) as [-> ->]. lia.
Qed.

Lemma total_where_transition {K} `{EqDecision K} (P : K → bool) (key : Z → K) (d : dict K Z) i :
  total_where P (transition key d i) =
  total_where P d + (if P (key i.1) then 1 else 0) - (if P (key i.2) then 1 else 0).
Proof. unfold transition. rewrite !total_where_dadd. destruct (P (key i.1)), (P (key i.2)); lia. Qed.

(** How many of the intervals cover a cycle. *)
Definition covering (l : list interval) (z : Z) : Z := Z.of_nat (length (filter (λ i, covers i z) l)).

Lemma covering_cons i l z :
  covering (i :: l) z = (if decide (covers i z) then 1 else 0) + covering l z.
Proof. unfold covering. rewrite filter_cons. case_decide; cbn [length]; lia. Qed.

Lemma transitions_covering l d z :
  (∀ i, i ∈ l → i.1 <= i.2) →
  total_where (λ k, k <=? z) (foldl (transition id) d l) =
  total_where (λ k, k <=? z) d + covering l z.
Proof.
  revert d; induction l as [|i l IH]; intros d Hl; cbn [foldl]; [unfold covering; cbn; lia|].
  rewrite IH, total_where_transition, covering_cons by set_solver.
  specialize (Hl i ltac:(set_solver)). unfold covers, id. case_decide; repeat case_match; lia.
Qed.

Lemma sorted_items_ascending (l : list (Z * Z)) :
  StronglySorted (λ x y, x.1 <= y.1) (py_sorted interval_leb l).
Proof.
  pose proof (py_sorted_sorted interval_leb interval_leb_total interval_leb_trans l) as Hs.
  induction Hs as [|x l' Hs IH Hf]; constructor; [done|].
  rewrite Forall_forall in *. intros y Hy%Hf. apply interval_leb_spec in Hy. lia.
Qed.

(** ** Merged intervals *)

Lemma merge_range_step ps cur ps' : merge_range ps cur = Ok ps' → merge_step ps cur = ps'.
Proof.
  unfold merge_range, merge_step. destruct (last ps) as [m|]; [|intros H; by injection H].
  destruct (cur.1 <=? m.2); [|intros H; by injection H].
  intros (r & Hr & H)%outcome_bind_ok. injection H as <-. unfold range_init in Hr.
  destruct (_ || _); [done|]. by injection Hr as <-.
Qed.

Lemma merge_fold_step l ps ps' : ofold merge_range l ps = Ok ps' → foldl merge_step ps l = ps'.
Proof.
  revert ps; induction l as [|cur l IH]; intros ps H; cbn in *; [by injection H|].
  apply outcome_bind_ok in H as (p & Hp & H). rewrite (merge_range_step _ _ _ Hp). by apply IH.
Qed.

Lemma separated_covering l z :
  separated l → (∀ i, i ∈ l → i.1 <= i.2) → covering l z = if decide (covered l z) then 1 else 0.
Proof.
  intros Hs. induction Hs as [|i l Hs IH Hf]; intros Hl.
  { unfold covering. cbn. by rewrite decide_False by (intros H; inversion H). }
  rewrite covering_cons, IH by set_solver.
  rewrite (decide_ext _ _ _ _ (covered_cons i l z)).
  destruct (decide (covers i z)) as [Hc|Hc], (decide (covered l z)) as [Hl'|Hl'].
  - exfalso. unfold covered in Hl'. rewrite Exists_exists in Hl'. destruct Hl' as (j & Hj & Hcj).
    rewrite Forall_forall in Hf. specialize (Hf j Hj). unfold covers in *. lia.
  - by rewrite decide_True by auto.
  - by rewrite decide_True by auto.
  - by rewrite decide_False by tauto.
Qed.

Lemma merge_intervals_covering l z :
  (∀ i, i ∈ l → 0 <= i.1 <= i.2) →
  covering (merge_intervals l) z = (if decide (covered l z) then 1 else 0) ∧
  ∀ i, i ∈ merge_intervals l → i.1 <= i.2.
Proof.
  intros Hl. destruct (merge_fold_ok (py_sorted interval_leb l)) as (ps & Hps & Hok & Hsep & Hcov).
  { apply py_sorted_sorted; [exact interval_leb_total|exact interval_leb_trans]. }
  { intros r Hr%elem_of_py_sorted. by apply Hl. }
  apply merge_fold_step in Hps. unfold merge_intervals. rewrite Hps.
  assert (∀ i, i ∈ ps → i.1 <= i.2) as Hps' by (intros i [_ ?]%Hok; done).
  split; [|done]. rewrite separated_covering by done.
  assert (covered ps z ↔ covered l z) as Hiff by (rewrite Hcov; apply covered_perm, py_sorted_perm).
  by rewrite (decide_ext _ _ _ _ Hiff).
Qed.

(** ** Active cores *)

Definition counted (c : Z) (r : ExecutionRecord) : Prop :=
  is_operation r = true ∧ record_duration r ≠ 0 ∧ r_core_id r = c.
#[export] Instance counted_dec c r : Decision (counted c r).
Proof. unfold counted. apply _. Defined.

Lemma intervals_by_core_spec rs :
  NoDup (dkeys (intervals_by_core rs)) ∧
  ∀ c, dget (intervals_by_core rs) c = some_nonempty (cycles_of <$> filter (counted c) rs).
Proof.
  unfold intervals_by_core. induction rs as [|r rs [Hnd IH]] using rev_ind; [split; [constructor|done]|].
  rewrite foldl_snoc. unfold group_step at 1 3. destruct (_ || _) eqn:E.
  - split; [done|]. intros c. rewrite filter_snoc_if, decide_False; [done|].
    intros (H1 & H2 & _). rewrite H1 in E. cbn in E. lia.
  - split; [by apply NoDup_dkeys_dset|]. apply orb_false_iff in E as [E1%negb_false_iff E2].
    intros c. rewrite filter_snoc_if, dget_dset. case_decide as Hc.
    + subst c. rewrite decide_True by (split; [done|split; [lia|done]]).
      unfold dget_default. rewrite IH, default_some_nonempty, fmap_app. cbn [fmap list_fmap].
      by rewrite some_nonempty_snoc.
    + rewrite decide_False; [done|]. by intros (_ & _ & ?).
Qed.

Lemma group_covered rs c l z :
  dget (intervals_by_core rs) c = Some l →
  covered l z ↔ ∃ r, r ∈ rs ∧ is_operation r = true ∧ r_core_id r = c ∧ covers (cycles_of r) z.
Proof.
  destruct (intervals_by_core_spec rs) as [_ ->]. intros Hl.
  assert (l = cycles_of <$> filter (counted c) rs) as -> by (by destruct (_ <$> _); simplify_eq/=).
  unfold covered. rewrite Exists_exists. split.
  - intros (i & (r & -> & [Hc Hr]%list_elem_of_filter)%list_elem_of_fmap & Hi).
    exists r. by destruct Hc as (? & _ & ?).
  - intros (r & Hr & Hop & Hc & Hcov). exists (cycles_of r). split; [|done].
    apply list_elem_of_fmap_2, list_elem_of_filter. split; [|done]. split; [done|]. split; [|done].
    unfold record_duration, covers, cycles_of in *. cbn in *. lia.
Qed.

Lemma active_transitions_total rs z :
  Forall record_cycles_ok rs →
  total_where (λ k, k <=? z) (active_transitions rs) =
  Z.of_nat (length (filter (λ g, covered g.2 z) (intervals_by_core rs))).
Proof.
  intros Hrs.
  assert (∀ g i, g ∈ intervals_by_core rs → i ∈ g.2 → 0 <= i.1 <= i.2) as Hg.
  { intros [c l] i Hin Hi. destruct (intervals_by_core_spec rs) as [Hnd Hspec].
    apply (elem_of_dget _ _ _ Hnd) in Hin. rewrite Hspec in Hin.
    assert (l = cycles_of <$> filter (counted c) rs) as -> by (by destruct (_ <$> _); simplify_eq/=).
    apply list_elem_of_fmap in Hi as (r & -> & [_ Hr]%list_elem_of_filter).
    rewrite Forall_forall in Hrs. apply (Hrs r Hr). }
  unfold active_transitions, dvalues. revert Hg. generalize (intervals_by_core rs) as groups. intros groups Hg.
  cut (∀ d, total_where (λ k, k <=? z)
    (foldl (λ d intervals, foldl (transition id) d (merge_intervals intervals)) d (map snd groups)) =
    total_where (λ k, k <=? z) d + Z.of_nat (length (filter (λ g, covered g.2 z) groups))).
  { intros H. rewrite H. cbn. lia. }
  induction groups as [|[c l] groups IH]; intros d; cbn [map foldl snd]; [cbn; lia|].
  rewrite IH by (intros; eapply Hg; [by right|done]).
  destruct (merge_intervals_covering l z) as [Hc Hm].
  { intros i Hi. apply (Hg (c, l)); [by left|done]. }
  rewrite (transitions_covering (merge_intervals l) d z Hm), Hc. rewrite filter_cons. cbn [snd].
  case_decide; cbn [length]; lia.
Qed.

(** The cores that run some operation at a cycle. *)
Definition running_cores (rs : list ExecutionRecord) (z : Z) : gset Z :=
  list_to_set (r_core_id <$> filter (λ r, is_operation r = true ∧ covers (cycles_of r) z) rs).

Lemma running_cores_groups rs z :
  running_cores rs z = list_to_set (fst <$> filter (λ g, covered g.2 z) (intervals_by_core rs)).
Proof.
  destruct (intervals_by_core_spec rs) as [Hnd Hspec].
  apply set_eq. intros c. unfold running_cores. rewrite !elem_of_list_to_set, !list_elem_of_fmap. split.
  - intros (r & -> & [[Hop Hcov] Hr]%list_elem_of_filter).
    destruct (dget (intervals_by_core rs) (r_core_id r)) as [l|] eqn:E.
    + exists (r_core_id r, l). split; [done|]. apply list_elem_of_filter.
      split; [|by apply dget_elem_of]. apply (group_covered rs _ _ z E). by exists r.
    + exfalso. rewrite Hspec in E.
      assert (r ∈ filter (counted (r_core_id r)) rs) as Hin.
      { apply list_elem_of_filter. split; [|done]. split; [done|]. split; [|done].
        unfold record_duration, covers, cycles_of in *. cbn in *. lia. }
      destruct (filter _ rs); [set_solver|done].
  - intros ([c' l] & -> & [Hcov Hin]%list_elem_of_filter). cbn in *.
    apply (elem_of_dget _ _ _ Hnd) in Hin.
    apply (group_covered rs _ _ z Hin) in Hcov as (r & Hr & Hop & Hc & Hcov).
    exists r. split; [done|]. by apply list_elem_of_filter.
Qed.

Lemma NoDup_fmap_filter {A B} (f : A → B) (P : A → Prop) `{∀ x, Decision (P x)} l :
  NoDup (f <$> l) → NoDup (f <$> filter P l).
Proof.
  induction l as [|x l IH]; [done|]. rewrite fmap_cons, filter_cons. intros [Hni Hnd]%NoDup_cons.
  case_decide; [|auto]. rewrite fmap_cons. constructor; [|auto].
  intros (y & Hy & [_ Hin]%list_elem_of_filter)%list_elem_of_fmap. apply Hni.
  rewrite Hy. by apply list_elem_of_fmap_2.
Qed.

(** The active-core counter is exact: at every cycle its value is the number of cores that
    have an operation running then, however the operations of a core overlap. *)
Theorem active_cores_exact rs z :
  Forall record_cycles_ok rs →
  counter_at (active_core_counter rs) z = Z.of_nat (size (running_cores rs z)).
Proof.
  intros Hrs. unfold counter_at, active_core_counter.
  rewrite counter_at_running by apply sorted_items_ascending.
  rewrite (total_where_perm _ _ _ (py_sorted_perm interval_leb _)), active_transitions_total by done.
  rewrite running_cores_groups, size_list_to_set; [by rewrite length_fmap|].
  apply NoDup_fmap_filter, intervals_by_core_spec.
Qed.

(** ** Queue depth *)

#[export] Instance track_leb_order : LebOrder track_leb.
Proof. apply pair_leb_order; [apply _..|]. intros x y. apply Z.eqb_spec. Qed.
#[export] Instance queue_key_leb_order : LebOrder queue_key_leb.
Proof. apply pair_leb_order; [apply _..|]. intros x y. apply bool_decide_reflect. Qed.
#[export] Instance queue_item_leb_order : LebOrder queue_item_leb.
Proof. apply pair_leb_order; [apply _..|]. intros x y. apply bool_decide_reflect. Qed.

Definition on_track (k : track) {A} (samples : list (track * A)) : list A :=
  snd <$> filter (λ s, s.1 = k) samples.

(** The transitions of one track. *)
Definition track_items (k : track) (items : list ((track * Z) * Z)) : list (Z * Z) :=
  (λ i, (i.1.2, i.2)) <$> filter (λ i, i.1.1 = k) items.

Lemma depth_scan_track k depths items :
  on_track k (depth_scan depths items) = running (dget_default 0 depths k) (track_items k items).
Proof.
  revert depths; induction items as [|[[k' c] d] items IH]; intros depths; [done|].
  cbn [depth_scan]. unfold on_track, track_items in *. rewrite !filter_cons. cbn [fst].
  destruct (decide (k' = k)) as [->|Hne].
  - cbn. rewrite IH, dget_dadd, decide_True by done. done.
  - rewrite IH, dget_dadd, decide_False by done. by rewrite Z.add_0_r.
Qed.

Lemma track_items_ascending k items :
  StronglySorted (λ a b, queue_item_leb a b = true) items →
  StronglySorted (λ x y, x.1 <= y.1) (track_items k items).
Proof.
  unfold track_items. induction 1 as [|[[k' c] d] items Hs IH Hf]; [constructor|].
  rewrite filter_cons. cbn [fst]. case_decide as Hk; [|done]. subst k'. cbn. constructor; [done|].
  rewrite Forall_forall in Hf. apply Forall_forall. intros x (i & -> & [Hi Hin]%list_elem_of_filter)%list_elem_of_fmap.
  specialize (Hf i Hin). destruct i as [[k' c'] d']. cbn in *. subst k'.
  unfold queue_item_leb, pair_leb, queue_key_leb, pair_leb, track_eqb in Hf. cbn in Hf.
  case_bool_decide as E; [simplify_eq; lia|]. rewrite bool_decide_true in Hf by done. lia.
Qed.

Lemma total_where_track k items z :
  total_where (λ c, c <=? z) (track_items k items) =
  total_where (λ key, bool_decide (key.1 = k) && (key.2 <=? z)) items.
Proof.
  unfold track_items, total_where. induction items as [|[[k' c] d] items IH]; [done|].
  rewrite filter_cons. cbn. case_decide; [rewrite bool_decide_true by done|rewrite bool_decide_false by done];
    cbn; rewrite IH; lia.
Qed.

(** The tasks waiting behind older work of a resource at a cycle. *)
Definition waits_at (k : track) (z : Z) (r : ExecutionRecord) : Prop :=
  record_track r = k ∧ match queued r with Some i => covers i z | None => False end.
#[export] Instance waits_at_dec k z r : Decision (waits_at k z r).
Proof. unfold waits_at. destruct (queued r); apply _. Defined.

Lemma queued_ordered r i : queued r = Some i → i.1 < i.2.
Proof.
  unfold queued. destruct (is_operation r); [|done]. destruct (_ ≫= _) as [q|]; [|done].
  destruct (Z.leb_spec (start_cycle r) q); [done|]. intros Hq. injection Hq as <-. done.
Qed.

Lemma queue_transitions_total k z rs d :
  total_where (λ key, bool_decide (key.1 = k) && (key.2 <=? z)) (foldl queue_step d rs) =
  total_where (λ key, bool_decide (key.1 = k) && (key.2 <=? z)) d +
  Z.of_nat (length (filter (waits_at k z) rs)).
Proof.
  revert d; induction rs as [|r rs IH]; intros d; cbn [foldl]; [cbn; lia|].
  rewrite IH, filter_cons. unfold queue_step. destruct (queued r) as [i|] eqn:E.
  - assert (waits_at k z r ↔ record_track r = k ∧ covers i z) as Hw by (unfold waits_at; by rewrite E).
    rewrite total_where_transition. cbn [fst snd]. apply queued_ordered in E. unfold covers in Hw.
    destruct (decide (waits_at k z r)) as [H|H]; rewrite Hw in H; cbn [length];
      case_bool_decide; cbn [andb]; repeat case_match; naive_solver lia.
  - rewrite decide_False; [lia|]. unfold waits_at. rewrite E. tauto.
Qed.

(** The queue-depth counter is exact: at every cycle, the value on the track of a core's
    resource is the number of its tasks that were ready by then and had not started. *)
Theorem queue_depth_exact rs k z :
  counter_at (on_track k (queue_depth_counter rs)) z = Z.of_nat (length (filter (waits_at k z) rs)).
Proof.
  unfold queue_depth_counter. rewrite depth_scan_track. unfold counter_at.
  change (dget_default 0 [] k) with 0.
  rewrite counter_at_running by apply track_items_ascending, py_sorted_ordered, _.
  rewrite total_where_track, (total_where_perm _ _ _ (py_sorted_perm queue_item_leb _)).
  rewrite queue_transitions_total. cbn. lia.
Qed.

(** ** A concrete trace *)

Definition trace_record (id : string) (core : Z) (p : Pipe) (s e : Z) : ExecutionRecord :=
  MkRecord id "copy" core CUBE p s e "operation" None [("queue_enter_cycle", VInt 2)].
Definition example_trace : list ExecutionRecord :=
  [trace_record "a" 0 MTE2 0 10; trace_record "b" 0 MTE1 4 12; trace_record "c" 1 MTE2 8 9].

Example example_queue_depth :
  queue_depth_counter example_trace =
  [((0, "cube/mte1"), (2, 1)); ((0, "cube/mte1"), (4, 0));
   ((1, "cube/mte2"), (2, 1)); ((1, "cube/mte2"), (8, 0))].
Proof. vm_compute. reflexivity. Qed.

Lemma active_cores_exact_witness :
  counter_at (active_core_counter example_trace) 8 = Z.of_nat (size (running_cores example_trace 8)) ∧
  active_core_counter example_trace = [(0, 1); (8, 2); (9, 1); (12, 0)].
Proof.
  split; [|vm_compute; reflexivity].
  apply (active_cores_exact example_trace 8). repeat constructor; cbn; lia.
Defined.
