(* ===== verification/Timing.v ===== *)
(** The analytic cost models: the PyPTO model ([pypto_timing.py]) with its coefficient tables and
    float arithmetic, and the profiles that select an estimator ([profile.py]).  The theorems
    show that every estimate a profile returns is a legal task duration, what the integer
    formulas compute, and when the model has no estimate. *)

From stdpp Require Import pretty.
From S2P Require Import Prelude PyDict PySort PyStr Errors PyFloat Values Program.
Local Open Scope string_scope.
Local Open Scope Z_scope.
Local Open Scope list_scope.

(** ** Tables *)

(** A decimal literal. *)
Definition dec (n d : Z) : float := float_div_int n d.

Definition OP_LATENCY_ROWS : list (string * float * float) :=
  [("COPY_IN", (dec 2613 1000), (dec 240884 100000000));
   ("L1_COPY_IN", (dec 2613 1000), (dec 240884 100000000));
   ("UB_COPY_IN", (dec 2613 1000), (dec 240884 100000000));
   ("COPY_OUT", (dec 32883 10000), (dec 195 100000));
   ("L0C_COPY_OUT", (dec 32883 10000), (dec 195 100000));
   ("UB_COPY_OUT", (dec 32883 10000), (dec 195 100000));
   ("ADD", (dec 240457 100000), (dec 188 10000)); ("SUB", (dec 164044 100000), (dec 2152 100000));
   ("MUL", (dec 163706 100000), (dec 1419 100000));
   ("DIV", (dec 382854 100000), (dec 2462 100000)); ("ADDS", (dec 76264 100000), (dec 221 10000));
   ("SUBS", (dec 76264 100000), (dec 221 10000)); ("RANGE", (dec 76264 100000), (dec 221 10000));
   ("MULS", (dec 9527 10000), (dec 15 1000)); ("DIVS", (dec 9527 10000), (dec 15 1000));
   ("SQRT", (dec 367358 100000), (dec 2197 100000));
   ("EXP", (dec 349358 100000), (dec 2597 100000)); ("NEG", (dec 9527 10000), (dec 15 1000));
   ("LN", (dec 349358 100000), (dec 2597 100000));
   ("WHERE_TT", (dec 240457 100000), (dec 188 10000));
   ("WHERE_TS", (dec 240457 100000), (dec 188 10000));
   ("WHERE_ST", (dec 240457 100000), (dec 188 10000));
   ("WHERE_SS", (dec 240457 100000), (dec 188 10000));
   ("RECIPROCAL", (dec 98673 100000), (dec 989 100000));
   ("ROWSUMLINE", (dec 1458731 100000), (dec 7288 100000));
   ("ROWMAX_SINGLE", (dec 1558731 100000), (dec 888 100000));
   ("ROWMIN_SINGLE", (dec 1558731 100000), (dec 888 100000));
   ("EXPAND", (dec 58 100), (dec 14 1000)); ("CAST", (dec 91250 100000), (dec 15687 1000000));
   ("TRANSPOSE_MOVEOUT", (dec 25893 100000000), (dec 3350 100000));
   ("L1_TO_L0B", (dec 205893 100000), (dec 12 1000));
   ("L1_TO_L0A", (dec 112719 100000), (dec 15 1000));
   ("L1_TO_L0Bt", (dec 1868830 1000000), (dec 15 1000));
   ("A_MUL_B", (dec 391153 100000), (dec 107 10000));
   ("A_MUL_Bt", (dec 391153 100000), (dec 110 10000));
   ("A_MULACC_B", (dec 390376 100000), (dec 103 10000));
   ("A_MULACC_Bt", (dec 390376 100000), (dec 105 10000));
   ("PAIRMAX", (dec 1928672 100000), (dec 0 10)); ("PAIRSUM", (dec 1958115 100000), (dec 0 10));
   ("MAXIMUM", (dec 3087260 10000), (dec 0 10))].
Definition OP_LATENCY : dict string (float * float) :=
  (λ '(op, a, b), (op, (a, b))) <$> OP_LATENCY_ROWS.

Definition INHERENT_LATENCY : dict string (dict string Z) :=
  [("UB_ADD", [("float32", 6); ("int32", 4); ("int16", 4)]);
   ("UB_SUB", [("float16", 6); ("float32", 6); ("int32", 4); ("int16", 4)]);
   ("UB_MUL", [("float16", 7); ("float32", 7); ("int32", 5); ("int16", 5)]);
   ("UB_DIV", [("float16", 13); ("float32", 13)]); ("UB_EXP", [("float16", 12); ("float32", 12)]);
   ("UB_SQRT", [("float16", 13); ("float32", 13)]); ("UB_RSQRT", [("float16", 5); ("float32", 5)]);
   ("UB_ADDS", [("float16", 6); ("float32", 6); ("int32", 4); ("int16", 4)]);
   ("UB_MULS", [("float16", 7); ("float32", 7); ("int32", 5); ("int16", 5)]);
   ("UB_PAIRSUM", [("float16", 6); ("float32", 6); ("int32", 4); ("int16", 4)]);
   ("UB_PAIRMAX", [("float16", 4); ("float32", 4); ("int32", 4); ("int16", 4)]);
   ("UB_ROWEXPSUM", [("float16", 23); ("float32", 20)]);
   ("UB_ROWEXPMAX", [("float16", 23); ("float32", 20)]);
   ("UB_MAXIMUM", [("float16", 4); ("float32", 4); ("int32", 4); ("int16", 4)]);
   ("UB_COMPACT", [("float16", 0); ("float32", 0); ("int32", 0); ("int16", 0)]);
   ("UB_EXPAND", [("float16", 0); ("float32", 0); ("int32", 0); ("int16", 0)]);
   ("UB_MOV", [("float16", 0); ("float32", 0); ("int32", 0); ("int16", 0)]);
   ("UB_RECIPROCAL", [("float16", 5); ("float32", 5)]);
   ("UB_ROWSUM", [("float16", 23); ("float32", 20)]);
   ("UB_ROWMAX", [("float16", 9); ("float32", 8)]);
   ("L0C_COPY_OUT", [("float16", 200); ("float32", 200); ("int32", 0); ("int16", 0)]);
   ("UB_COPY_IN", [("float16", 50); ("float32", 50); ("int32", 0); ("int16", 0)]);
   ("L1_COPY_IN", [("float16", 200); ("float32", 200); ("int32", 0); ("int16", 0)]);
   ("L1_TO_L0A", [("float16", 0); ("float32", 0); ("int32", 0); ("int16", 0)]);
   ("L1_TO_L0At", [("float16", 0); ("float32", 0); ("int32", 0); ("int16", 0)]);
   ("L1_TO_L0B", [("float16", 0); ("float32", 0); ("int32", 0); ("int16", 0)]);
   ("L1_TO_L0Bt", [("float16", 0); ("float32", 0); ("int32", 0); ("int16", 0)]);
   ("CUBE_A_MUL_B", [("float16", 0); ("float32", 0); ("int32", 7); ("int16", 7)]);
   ("CUBE_A_MUL_Bt", [("float16", 0); ("float32", 0); ("int32", 7); ("int16", 7)]);
   ("CUBE_A_MULACC_B", [("float16", 0); ("float32", 0); ("int32", 7); ("int16", 7)]);
   ("CUBE_A_MULACC_Bt", [("float16", 0); ("float32", 0); ("int32", 7); ("int16", 7)])].

Definition PYPTO_DTYPE_BYTES : dict string Z :=
  [("float16", 2); ("float32", 4); ("bfloat16", 2); ("int8", 1); ("uint8", 1); ("int16", 2);
   ("uint16", 2); ("int32", 4); ("uint32", 4); ("int64", 8); ("uint64", 8); ("float64", 8);
   ("bool", 1)].
Definition DTYPE_ALIASES : dict string string :=
  [("half", "float16"); ("float", "float32"); ("double", "float64")].
(** [_OP_NAMES] *)
Definition OP_NAMES : dict string string :=
  dict_of_pairs ((λ op, (lower op, op)) <$> dkeys OP_LATENCY ++ dkeys INHERENT_LATENCY).

(** [_DTYPE_BYTES] of [profile.py] *)
Definition PROFILE_DTYPE_BYTES : dict string Z :=
  [("float16", 2); ("half", 2); ("bfloat16", 2); ("float32", 4); ("float", 4); ("int8", 1);
   ("uint8", 1); ("int16", 2); ("uint16", 2); ("int32", 4); ("uint32", 4)].

(** ** The PyPTO model *)

(** Whether a value can be looked up in a dictionary. *)
Fixpoint hashable (v : pyval) : bool :=
  match v with
  | VList _ | VDict _ => false
  | VTuple l => forallb hashable l
  | _ => true
  end.

(** [d.get(key)] for a dictionary with string keys *)
Definition lookup_value {V} (d : dict string V) (key : pyval) : result (option V) :=
  if hashable key then Ok (match key with VStr s => dget d s | _ => None end)
  else raise TypeError "unhashable type".

(** [isinstance(d, int)] for every dimension, booleans included *)
Definition int_dims (shape : list pyval) : option (list Z) := mapM as_integral shape.

(** A shape as the model sees it: rank at least two, 256 for a dimension that is not positive. *)
Definition normalize_shape (shape : list pyval) : option (list Z) :=
  match shape with
  | [] => None
  | _ =>
      dims ← int_dims shape;
      let dims := (λ d, if 0 <? d then d else 256) <$> dims in
      Some (match dims with [d] => [1; d] | _ => dims end)
  end.

Definition prod_of (l : list Z) : Z := foldr Z.mul 1 l.
Definition tile_size (dims : list Z) : Z := prod_of (drop (length dims - 2) dims).
Definition tile_count (dims : list Z) : Z := prod_of (take (length dims - 2) dims).
Definition min_value (l : list Z) : Z :=
  match l with [] => 0 | x :: l => foldl Z.min x l end.

(** The vector instructions outside the latency table: a fixed latency and one issue slot pair
    per 256 bytes, with C++ division. *)
Definition inherent_cycles (latency total_bytes : Z) : Z :=
  let numerator := total_bytes - 256 in
  let repeats := Z.abs numerator / 256 * (if 0 <=? numerator then 1 else -1) + 1 in
  latency + repeats * 2 - 1.

(** The linear latency of the table, in single precision where the original is. *)
Definition linear_cycles (a b : float) (size ratio shape_count : Z) : result Z :=
  a32 ← round32 a;
  fsize ← float_of_int size;
  t1 ← round32 (float_mul a32 fsize);
  byte_term ← round32 (float_mul t1 (dec ratio 1));
  b32 ← round32 b;
  cycles ← int_of_float
    (float_mul (float_add (float_mul byte_term (dec 1 1000000)) b32) (dec 2000 1));
  Ok (shape_count * (cycles + 1)).

Definition parallel_ratio (dtype op : string) : Z :=
  if (mem_str dtype ["int32"] && mem_str op ["MULS"; "MUL"])
     || (mem_str dtype ["float32"] && mem_str op ["DIV"; "EXP"; "LN"; "SQRT"])
  then 1 else 2.

(** [estimate_cycles]; opcodes are metadata values. *)
Definition pypto_estimate_cycles (op : pyval) (shapes : list (list pyval)) (dtype : option string)
    (original_opcode : pyval) : result (option Z) :=
  match dtype, shapes with
  | None, _ | _, [] => Ok None
  | Some dtype, _ =>
      let dtype := dget_default dtype DTYPE_ALIASES dtype in
      match dget PYPTO_DTYPE_BYTES dtype, mapM normalize_shape shapes with
      | Some itemsize, Some normalized =>
          let size := itemsize * min_value (tile_size <$> normalized) in
          let shape_count := min_value (tile_count <$> normalized) in
          coefficients ← lookup_value OP_LATENCY op;
          match coefficients with
          | None =>
              table ← lookup_value INHERENT_LATENCY op;
              let latency := dget_default 10 (default [] table) dtype in
              Ok (Some (inherent_cycles latency (size * shape_count)))
          | Some (a, b) =>
              latency ← linear_cycles a b size
                (parallel_ratio dtype (match op with VStr s => s | _ => "" end)) shape_count;
              let opcode := if truthy original_opcode then original_opcode else op in
              Ok (Some (latency + (if bool_decide (opcode = VStr "COPY_IN") then 1400
                                   else if bool_decide (opcode = VStr "COPY_OUT") then 300 else 0)))
          end
      | _, _ => Ok None
      end
  end.

Definition less_than : Ascii.ascii := Ascii.ascii_of_nat 60.

(** The last component of a lowered operation name, in lower case. *)
Definition short_name (operation : string) : string :=
  lower (after_last "." (after_last "::" (before_first less_than operation))).

Definition region_at (metadata : dict string pyval) (key : string) : option BufferRegion :=
  match dget metadata key with Some (VRegion r) => Some r | _ => None end.

(** The operand shapes, with the element type of the first operand that has one. *)
Definition operands (metadata : dict string pyval) : list BufferRegion :=
  filter (λ r, rg_shape r ≠ []) (omap (region_at metadata) ["src"; "lhs"; "rhs"; "accumulator"; "dst"]).

Definition PYPTO_ALIASES : dict string string :=
  [("reduce_sum", "ROWSUMLINE"); ("reduce_max", "ROWMAX_SINGLE"); ("reduce_min", "ROWMIN_SINGLE");
   ("broadcast", "EXPAND")].

(** ["copy" in short] *)
Definition mentions_copy (short : pyval) : result bool :=
  match short with
  | VStr s => Ok (contains "copy" s)
  | VTuple l | VList l => Ok (bool_decide (VStr "copy" ∈ l))
  | VDict d => Ok (dmem d "copy")
  | _ => raise TypeError "argument is not iterable"
  end.

(** The opcode and its original for a copy between two scopes. *)
Definition copy_opcodes (op : pyval) (src_scope dst_scope : option MemoryScope) (transpose : bool)
    : pyval * pyval :=
  match src_scope, dst_scope with
  | Some (GM | WORKSPACE), Some UB => (VStr "UB_COPY_IN", VStr "COPY_IN")
  | Some (GM | WORKSPACE), Some L1 => (VStr "L1_COPY_IN", VStr "COPY_IN")
  | Some L0C, Some (GM | WORKSPACE) => (VStr "L0C_COPY_OUT", VStr "COPY_OUT")
  | _, Some (GM | WORKSPACE) => (VStr "UB_COPY_OUT", VStr "COPY_OUT")
  | Some L1, Some L0A =>
      let op := VStr (if transpose then "L1_TO_L0At" else "L1_TO_L0A") in (op, op)
  | Some L1, Some L0B =>
      let op := VStr (if transpose then "L1_TO_L0Bt" else "L1_TO_L0B") in (op, op)
  | _, _ => (op, op)
  end.

(** [estimate_task] of [pypto_timing.py] *)
Definition pypto_estimate_task (operation : string) (metadata : dict string pyval)
    : result (option Z) :=
  let short := short_name operation in
  let op := dget_default (upper short) OP_NAMES short in
  let shapes := rg_shape <$> operands metadata in
  let dtype := lower ∘ rg_dtype <$> head (operands metadata) in
  let mma := dget_default (dget_default VNone metadata "gemm") metadata "mma" in
  let '(op, shapes) :=
    match mma with
    | VDict details =>
        if mem_str short ["mma"; "gemm_v0"] then
          let dim key := dget_default VNone details key in
          let m := dim "rows" in let n := dim "cols" in let k := dim "inner" in
          let shapes := if forallb (λ d, bool_decide (is_Some (as_integral d))) [m; n; k]
                        then [[m; k]; [k; n]; [m; n]] else shapes in
          let op := if truthy (dget_default (VBool true) details "init") then "A_MUL_B" else "A_MULACC_B" in
          (if truthy (dget_default (VBool false) details "transpose_b") then op +:+ "t" else op, shapes)
        else (op, shapes)
    | _ => (op, shapes)
    end in
  let short := if mem_str short ["reduce"] then dget_default (VStr short) metadata "reduce_kind"
               else VStr short in
  alias ← lookup_value PYPTO_ALIASES short;
  let op := VStr (default op alias) in
  is_copy ← mentions_copy short;
  let '(op, original_opcode) :=
    if is_copy : bool then
      copy_opcodes op (rg_scope <$> region_at metadata "src") (rg_scope <$> region_at metadata "dst")
        (truthy (dget_default (VBool false) metadata "transpose"))
    else (op, op) in
  let '(op, original_opcode) :=
    match dget metadata "pypto_opcode" with
    | Some code => (code, code)
    | None => (op, original_opcode)
    end in
  pypto_estimate_cycles op shapes dtype original_opcode.

(** ** Profiles *)

Record TimingProfile := MkProfile {
  tp_platform : string;
  operation_cycles : dict string Z;
  fallback_cycles : Z;
  tp_calibration : string;
  estimator : string;
}.

Definition ESTIMATORS : list string := ["fixed"; "pto-fallback"; "pypto-fast"; "measured-linear"].

(** [TimingProfile.__post_init__]; the measured estimator needs a class that overrides
    [estimate_task]. *)
Definition profile_init (overrides : bool) (p : TimingProfile) : result TimingProfile :=
  _ ← get_device_profile (tp_platform p);
  _ ← ensure (0 <? fallback_cycles p) SimulatorConfigError "fallback_cycles";
  _ ← ensure (forallb (λ '(name, cycles), nonempty name && (0 <? cycles)) (operation_cycles p))
    SimulatorConfigError "operation cycles";
  normalized ← normalize_platform (tp_platform p);
  _ ← ensure (mem_str (estimator p) ESTIMATORS) SimulatorConfigError "timing estimator";
  _ ← ensure (negb (mem_str (estimator p) ["measured-linear"] && negb overrides)) SimulatorConfigError
    "measured-linear requires a measured calibration profile";
  Ok (MkProfile normalized (operation_cycles p) (fallback_cycles p) (tp_calibration p) (estimator p)).

Abbreviation timing_profile_init := (profile_init false).

(** [estimate_cycles] *)
Definition estimate_cycles (p : TimingProfile) (operation : string) : Z :=
  dget_default (fallback_cycles p) (operation_cycles p) operation.

Definition FLAG_OPERATIONS : list string :=
  ["set_flag"; "wait_flag"; "auto_set_flag"; "auto_wait_flag"; "set_cross_flag"; "wait_cross_flag";
   "auto_set_cross_flag"; "auto_wait_cross_flag"; "pipe_barrier"; "barrier_all"].

(** [_timing_elements] *)
Definition dtype_itemsize (metadata : dict string pyval) (key : string) : option Z :=
  r ← region_at metadata key; dget PROFILE_DTYPE_BYTES (lower (rg_dtype r)).
Definition shape_elements (metadata : dict string pyval) (key : string) : option Z :=
  r ← region_at metadata key;
  dims ← mapM as_integral (rg_shape r);
  if forallb (λ d, 0 <=? d) dims then Some (prod_of dims) else None.
Definition first_some {A} (l : list (option A)) : option A := head (omap id l).
Definition timing_elements (metadata : dict string pyval) : option Z :=
  let from_bytes :=
    bytes ← dget metadata "transfer_bytes" ≫= as_integral;
    if 0 <=? bytes then
      itemsize ← first_some [dtype_itemsize metadata "src"; dtype_itemsize metadata "dst"];
      Some (bytes / itemsize)
    else None in
  match from_bytes with
  | Some n => Some n
  | None => first_some [shape_elements metadata "dst"; shape_elements metadata "src"]
  end.

(** [_ceil_div] and [_pto_mma_cycles] *)
Definition ceil_div_by (value divisor : Z) : Z := (value + divisor - 1) / divisor.
Definition mma_repeats (rows inner cols k_tile : Z) : Z :=
  ceil_div_by rows 16 * ceil_div_by inner k_tile * ceil_div_by cols 16.
Definition pto_mma_cycles (metadata : dict string pyval) : option Z :=
  match dget metadata "mma" with
  | Some (VDict details) =>
      rows ← dget details "rows" ≫= as_integral;
      inner ← dget details "inner" ≫= as_integral;
      cols ← dget details "cols" ≫= as_integral;
      if (0 <? rows) && (0 <? inner) && (0 <? cols) then
        lhs ← region_at metadata "lhs";
        let dtype := lower (rg_dtype lhs) in
        if mem_str dtype ["float32"; "float"] then Some (6 + 2 * mma_repeats rows inner cols (32 / 4))
        else if mem_str dtype ["float16"; "half"] then Some (6 + 1 * mma_repeats rows inner cols (32 / 2))
        else None
      else None
  | _ => None
  end.

(** The [pto-fallback] formulas *)
Definition pto_fallback (fallback : Z) (operation pipe : string) (metadata : dict string pyval) : Z :=
  let pipe := normalize pipe in
  if mem_str (normalize operation) FLAG_OPERATIONS then 1
  else match (if mem_str pipe ["m"] then pto_mma_cycles metadata else None) with
  | Some cycles => cycles
  | None =>
      match timing_elements metadata with
      | None => fallback
      | Some elements =>
          if mem_str pipe ["m"] then 4 + elements / 16
          else if mem_str pipe ["mte2"; "mte3"; "fix"] then 3 + elements * 2 / 64
          else if mem_str pipe ["mte1"] then 1 + elements / 64
          else if mem_str pipe ["s"] then 1
          else 2 + elements / 32
      end
  end.

(** [estimate_task] of [TimingProfile] *)
Definition estimate_task (p : TimingProfile) (operation pipe : string) (metadata : dict string pyval)
    : result Z :=
  match dget (operation_cycles p) operation with
  | Some configured => Ok configured
  | None =>
      if mem_str (estimator p) ["pypto-fast"] then
        if mem_str operation (FLAG_OPERATIONS ++ ["sync_all"]) then Ok 1
        else
          cycles ← pypto_estimate_task operation metadata;
          Ok (match cycles with None => fallback_cycles p | Some c => Z.max 1 c end)
      else if negb (mem_str (estimator p) ["pto-fallback"]) then Ok (fallback_cycles p)
      else Ok (pto_fallback (fallback_cycles p) operation pipe metadata)
  end.

(** [pto_fallback_timing_profile], and [default_timing_profile] of the uncalibrated platform *)
Definition pto_fallback_timing_profile (platform : string) : result TimingProfile :=
  p ← normalize_platform platform;
  timing_profile_init (MkProfile p [] 1 "pto-perf-sim-derived-fallback" "pto-fallback").
Definition pypto_timing_profile (platform : string) : result TimingProfile :=
  p ← normalize_platform platform;
  timing_profile_init (MkProfile p [] 1 "pypto-fast-derived-uncalibrated-49587f3" "pypto-fast").

Example pypto_copy :
  pypto_estimate_task "tl.copy_gm_to_l1<half>"
    [("src", VRegion (Region "A" GM [VInt 128; VInt 64] "float16" (VInt 0) None None));
     ("dst", VRegion (Region "B" L1 [VInt 128; VInt 64] "float16" (VInt 0) None None))]
  = Ok (Some 1577).
Proof. vm_compute. reflexivity. Qed.

(** ** Estimates are durations *)

Lemma ceil_div_by_spec v d n : 0 < d → ceil_div_by v d <= n ↔ v <= n * d.
Proof.
  intros Hd. unfold ceil_div_by. split; intros H.
  - pose proof (Z.mod_pos_bound (v + d - 1) d Hd). pose proof (Z.div_mod (v + d - 1) d). nia.
  - apply Z.lt_succ_r, Z.div_lt_upper_bound; nia.
Qed.

Lemma ceil_div_by_pos v d : 0 < v → 0 < d → 0 < ceil_div_by v d.
Proof.
  intros Hv Hd. apply Z.nle_gt. intros H. apply ceil_div_by_spec in H; [|done]. lia.
Qed.

Lemma ceil_div_by_mono v v' d : 0 < d → v <= v' → ceil_div_by v d <= ceil_div_by v' d.
Proof. intros Hd Hv. unfold ceil_div_by. apply Z.div_le_mono; lia. Qed.

Lemma mma_repeats_pos rows inner cols k :
  0 < rows → 0 < inner → 0 < cols → 0 < k → 0 < mma_repeats rows inner cols k.
Proof.
  intros. unfold mma_repeats. pose proof (ceil_div_by_pos rows 16). pose proof (ceil_div_by_pos inner k).
  pose proof (ceil_div_by_pos cols 16). nia.
Qed.

Lemma mma_repeats_mono rows rows' inner inner' cols cols' k :
  0 < rows → 0 < inner → 0 < cols → 0 < k → rows <= rows' → inner <= inner' → cols <= cols' →
  mma_repeats rows inner cols k <= mma_repeats rows' inner' cols' k.
Proof.
  intros. unfold mma_repeats. pose proof (ceil_div_by_pos rows 16). pose proof (ceil_div_by_pos inner k).
  pose proof (ceil_div_by_pos cols 16). pose proof (ceil_div_by_mono rows rows' 16).
  pose proof (ceil_div_by_mono inner inner' k). pose proof (ceil_div_by_mono cols cols' 16).
  apply Z.mul_le_mono_nonneg; [nia| |lia|lia]. apply Z.mul_le_mono_nonneg; lia.
Qed.

(** The shape of a matrix multiplication's metadata. *)
Record mma_task (metadata : dict string pyval) (rows inner cols : Z) (dtype : string) : Prop := {
  mt_details : ∃ details, dget metadata "mma" = Some (VDict details) ∧
    dget details "rows" ≫= as_integral = Some rows ∧ dget details "inner" ≫= as_integral = Some inner ∧
    dget details "cols" ≫= as_integral = Some cols;
  mt_dims : 0 < rows ∧ 0 < inner ∧ 0 < cols;
  mt_lhs : lower ∘ rg_dtype <$> region_at metadata "lhs" = Some dtype;
}.

Lemma pto_mma_cycles_task metadata rows inner cols dtype :
  mma_task metadata rows inner cols dtype →
  pto_mma_cycles metadata =
    if mem_str dtype ["float32"; "float"] then Some (6 + 2 * mma_repeats rows inner cols 8)
    else if mem_str dtype ["float16"; "half"] then Some (6 + 1 * mma_repeats rows inner cols 16)
    else None.
Proof.
  intros [(details & Hd & Hr & Hi & Hc) (H1 & H2 & H3) Hl]. unfold pto_mma_cycles.
  rewrite Hd, Hr, Hi, Hc. cbn [mbind option_bind].
  rewrite (proj2 (Z.ltb_lt 0 rows)), (proj2 (Z.ltb_lt 0 inner)), (proj2 (Z.ltb_lt 0 cols)) by done.
  cbn [andb]. destruct (region_at metadata "lhs") as [lhs|]; [|done]. cbn in *.
  injection Hl as ->. done.
Qed.

Lemma pto_mma_cycles_inv metadata c :
  pto_mma_cycles metadata = Some c → ∃ rows inner cols dtype, mma_task metadata rows inner cols dtype.
Proof.
  unfold pto_mma_cycles. destruct (dget metadata "mma") as [[]|] eqn:Hd; try done.
  intros (rows & Hr & H)%bind_Some. apply bind_Some in H as (inner & Hi & H).
  apply bind_Some in H as (cols & Hc & H). destruct (_ && _) eqn:E; [|done].
  apply bind_Some in H as (lhs & Hl & _). exists rows, inner, cols, (lower (rg_dtype lhs)).
  split; [eauto 10|lia|by rewrite Hl].
Qed.

Lemma pto_mma_cycles_pos metadata c : pto_mma_cycles metadata = Some c → 0 < c.
Proof.
  intros H. destruct (pto_mma_cycles_inv _ _ H) as (rows & inner & cols & dtype & Ht).
  rewrite (pto_mma_cycles_task _ _ _ _ _ Ht) in H. destruct Ht as [_ (H1 & H2 & H3) _].
  pose proof (mma_repeats_pos rows inner cols 8 H1 H2 H3). pose proof (mma_repeats_pos rows inner cols 16 H1 H2 H3).
  repeat case_match; simplify_eq; lia.
Qed.

Lemma first_some_elem {A} (l : list (option A)) a : first_some l = Some a → Some a ∈ l.
Proof.
  unfold first_some. induction l as [|[b|] l IH]; cbn; [done| |].
  - intros H. injection H as ->. left.
  - intros H. right. auto.
Qed.

Lemma prod_of_nonneg l : Forall (λ d, 0 <= d) l → 0 <= prod_of l.
Proof. induction 1; cbn; [lia|]. unfold prod_of in *. nia. Qed.

Lemma itemsize_pos metadata key n : dtype_itemsize metadata key = Some n → 0 < n.
Proof.
  unfold dtype_itemsize. intros (r & _ & H)%bind_Some. apply dget_elem_of in H.
  revert H. generalize (lower (rg_dtype r)). intros d H.
  assert (Forall (λ e, 0 < e.2) PROFILE_DTYPE_BYTES) as Hf by (repeat constructor).
  rewrite Forall_forall in Hf. exact (Hf _ H).
Qed.

Lemma shape_elements_nonneg metadata key n : shape_elements metadata key = Some n → 0 <= n.
Proof.
  unfold shape_elements. intros (r & _ & H)%bind_Some. apply bind_Some in H as (dims & _ & H).
  destruct (forallb _ dims) eqn:E; [|done]. injection H as <-. apply prod_of_nonneg.
  apply Forall_forall. intros d Hd%list_elem_of_In. rewrite forallb_forall in E.
  specialize (E d Hd). lia.
Qed.

Lemma timing_elements_nonneg metadata n : timing_elements metadata = Some n → 0 <= n.
Proof.
  unfold timing_elements. destruct (_ ≫= _) as [m|] eqn:E.
  - intros H. injection H as ->. apply bind_Some in E as (bytes & _ & E).
    destruct (Z.leb_spec 0 bytes); [|done]. apply bind_Some in E as (size & Hs & E).
    injection E as <-. apply first_some_elem in Hs. apply Z.div_pos; [done|].
    apply elem_of_cons in Hs as [Hs|Hs%list_elem_of_singleton]; symmetry in Hs; by eapply itemsize_pos.
  - intros H%first_some_elem.
    apply elem_of_cons in H as [H|H%list_elem_of_singleton]; symmetry in H; by eapply shape_elements_nonneg.
Qed.

Lemma pto_fallback_pos fallback operation pipe metadata :
  0 < fallback → 0 < pto_fallback fallback operation pipe metadata.
Proof.
  intros Hf. unfold pto_fallback. destruct (mem_str _ FLAG_OPERATIONS); [done|].
  destruct (if mem_str (normalize pipe) ["m"] then _ else _) as [c|] eqn:E.
  { destruct (mem_str _ _); [by eapply pto_mma_cycles_pos|done]. }
  destruct (timing_elements metadata) as [n|] eqn:En; [|done]. apply timing_elements_nonneg in En.
  pose proof (Z.div_pos n 16 En). pose proof (Z.div_pos (n * 2) 64). pose proof (Z.div_pos n 64 En).
  pose proof (Z.div_pos n 32 En). repeat case_match; lia.
Qed.

(** Every estimate is a legal duration: a profile that passed validation never estimates a
    task below one cycle, whatever the estimator, the operation and its metadata — which is what
    the constructor of a task requires of its duration. *)
Theorem estimate_is_duration overrides p0 p operation pipe metadata n :
  profile_init overrides p0 = Ok p → estimate_task p operation pipe metadata = Ok n → 0 < n.
Proof.
  unfold profile_init. intros Hp He. apply outcome_bind_ok in Hp as (dp & _ & Hp). inv_res.
  unfold estimate_task in He. cbn [operation_cycles estimator fallback_cycles] in He.
  destruct (dget (operation_cycles p0) operation) as [c|] eqn:Ec.
  { injection He as <-. apply dget_elem_of in Ec.
    match goal with H : forallb _ _ = true |- _ => rewrite forallb_forall in H;
      apply list_elem_of_In in Ec; specialize (H _ Ec); cbn in H; apply andb_true_iff in H as [_ H] end.
    lia. }
  repeat (case_match; inv_res); try lia. apply pto_fallback_pos. lia.
Qed.

(** The matrix cost is monotone and counts tiles: it is six cycles plus the repeat cost of the
    element type for every 16 x 16 output tile and 32-byte slice of the inner dimension, where a
    dimension needs at most [n] tiles exactly when [n] tiles cover it; a larger multiplication of
    the same type never costs less. *)
Theorem pto_mma_cycles_monotone metadata metadata' rows inner cols rows' inner' cols' dtype c :
  mma_task metadata rows inner cols dtype → mma_task metadata' rows' inner' cols' dtype →
  rows <= rows' → inner <= inner' → cols <= cols' → pto_mma_cycles metadata = Some c →
  (∃ repeat k, (repeat, k) ∈ [(2, 8); (1, 16)] ∧ c = 6 + repeat * mma_repeats rows inner cols k) ∧
  (∀ v d n, 0 < d → (ceil_div_by v d <= n ↔ v <= n * d)) ∧
  ∃ c', pto_mma_cycles metadata' = Some c' ∧ c <= c'.
Proof.
  intros Ht Ht' H1 H2 H3 Hc. rewrite (pto_mma_cycles_task _ _ _ _ _ Ht) in Hc.
  rewrite (pto_mma_cycles_task _ _ _ _ _ Ht'). destruct Ht as [_ (P1 & P2 & P3) _].
  pose proof (mma_repeats_mono rows rows' inner inner' cols cols' 8).
  pose proof (mma_repeats_mono rows rows' inner inner' cols cols' 16).
  split; [|split; [intros; by apply ceil_div_by_spec|]].
  - destruct (mem_str dtype ["float32"; "float"]); [|destruct (mem_str dtype _); [|done]]; injection Hc as <-.
    + exists 2, 8. split; [left|done].
    + exists 1, 16. split; [right; left|done].
  - destruct (mem_str dtype ["float32"; "float"]); [|destruct (mem_str dtype _); [|done]]; injection Hc as <-;
      eexists; (split; [done|]); lia.
Qed.

(** ** The PyPTO model *)

Definition known_dtype (dtype : option string) : Prop :=
  ∃ d, dtype = Some d ∧ is_Some (dget PYPTO_DTYPE_BYTES (dget_default d DTYPE_ALIASES d)).
Definition concrete_shape_of (shape : list pyval) : Prop :=
  shape ≠ [] ∧ Forall (is_Some ∘ as_integral) shape.

Lemma normalize_shape_some shape : is_Some (normalize_shape shape) ↔ concrete_shape_of shape.
Proof.
  unfold concrete_shape_of, normalize_shape, int_dims. destruct shape as [|d shape]; [split; [by intros []|by intros [[] _]]|].
  rewrite <- mapM_is_Some. destruct (mapM as_integral (d :: shape)); cbn.
  - split; intros _; [split; [done|eauto]|eauto].
  - split; [by intros []|]. intros [_ []]. done.
Qed.

Lemma lookup_str {V} (d : dict string V) s : lookup_value d (VStr s) = Ok (dget d s).
Proof. done. Qed.

(** The PyPTO model has no estimate exactly when its operand metadata is unavailable: there is
    no operand, the element type is unknown, or some operand's shape is empty or symbolic. *)
Theorem pypto_none_exact op shapes dtype original_opcode :
  (∃ c, pypto_estimate_cycles (VStr op) shapes dtype original_opcode = Ok (Some c)) ∨
  (∃ e, pypto_estimate_cycles (VStr op) shapes dtype original_opcode = Raise e) ↔
  shapes ≠ [] ∧ known_dtype dtype ∧ Forall concrete_shape_of shapes.
Proof.
  unfold pypto_estimate_cycles, known_dtype. destruct dtype as [d|]; [|naive_solver].
  destruct shapes as [|sh shapes]; [naive_solver|]. set (all := sh :: shapes).
  assert (is_Some (mapM normalize_shape all) ↔ Forall concrete_shape_of all) as Hm.
  { rewrite mapM_is_Some, !Forall_forall. unfold compose. by setoid_rewrite normalize_shape_some. }
  destruct (dget PYPTO_DTYPE_BYTES _) as [size|] eqn:Ed.
  2: { split; [by intros [[? ?]|[? ?]]|]. intros (_ & (d' & Heq & [? Hs]) & _). by simplify_eq. }
  destruct (mapM normalize_shape all) as [nrm|].
  2: { split; [by intros [[? ?]|[? ?]]|]. intros (_ & _ & Hall%Hm). by destruct Hall. }
  rewrite !lookup_str. ok_bind. split; [intros _; split; [done|]; split; [eauto|by apply Hm]|]. intros _.
  destruct (dget OP_LATENCY op) as [[a b]|]; ok_bind; [|eauto].
  destruct (linear_cycles _ _ _ _ _); ok_bind; eauto.
Qed.

Lemma inherent_repeats bytes : 0 < bytes →
  Z.abs (bytes - 256) / 256 * (if 0 <=? bytes - 256 then 1 else -1) + 1 = Z.max 1 (bytes / 256).
Proof.
  intros Hb. destruct (Z.leb_spec 0 (bytes - 256)).
  - rewrite Z.abs_eq by done. replace (bytes - 256) with (bytes + (-1) * 256) by lia.
    rewrite Z.div_add by done. assert (1 <= bytes / 256) by (apply Z.div_le_lower_bound; lia). lia.
  - rewrite Z.div_small by lia. rewrite (Z.div_small bytes) by lia. lia.
Qed.

Lemma inherent_cycles_max latency bytes :
  0 < bytes → inherent_cycles latency bytes = latency + 2 * Z.max 1 (bytes / 256) - 1.
Proof. intros Hb. unfold inherent_cycles. rewrite inherent_repeats by done. lia. Qed.

Lemma tile_pos shape dims : normalize_shape shape = Some dims → Forall (λ d, 0 < d) dims.
Proof.
  unfold normalize_shape. destruct shape as [|v shape]; [done|]. intros (raw & _ & H)%bind_Some.
  injection H as <-. assert (Forall (λ d, 0 < d) ((λ d, if 0 <? d then d else 256) <$> raw)) as Hf.
  { apply Forall_fmap, Forall_true. intros d. cbn. destruct (Z.ltb_spec 0 d); lia. }
  destruct (_ <$> raw) as [|d [|]]; [done| |done]. by constructor.
Qed.

Lemma prod_of_pos l : Forall (λ d, 0 < d) l → 0 < prod_of l.
Proof. induction 1; cbn; [lia|]. unfold prod_of in *. nia. Qed.

Lemma min_value_elem x l : min_value (x :: l) ∈ x :: l.
Proof.
  cbn [min_value]. revert x; induction l as [|y l IH]; intros x; [left|]. cbn [foldl].
  destruct (elem_of_cons l (foldl Z.min (Z.min x y) l) (Z.min x y)) as [H _].
  destruct (H (IH _)) as [->|Hin]; [|by right; right].
  destruct (Z.min_spec x y) as [[_ ->]|[_ ->]]; [left|right; left].
Qed.

Lemma min_value_pos l : l ≠ [] → Forall (λ d, 0 < d) l → 0 < min_value l.
Proof.
  destruct l as [|x l]; [done|]. intros _ Hf. rewrite Forall_forall in Hf.
  apply Hf, min_value_elem.
Qed.

(** The bytes the vector formula charges for: the smallest operand tile, times its count. *)
Definition vector_bytes (itemsize : Z) (normalized : list (list Z)) : Z :=
  itemsize * min_value (tile_size <$> normalized) * min_value (tile_count <$> normalized).

Lemma vector_bytes_pos d itemsize shapes normalized :
  dget PYPTO_DTYPE_BYTES d = Some itemsize → shapes ≠ [] → mapM normalize_shape shapes = Some normalized →
  0 < vector_bytes itemsize normalized.
Proof.
  intros Hd Hne Hm. apply dget_elem_of in Hd.
  assert (0 < itemsize) as Hi.
  { assert (Forall (λ e, 0 < e.2) PYPTO_DTYPE_BYTES) as Hf by (repeat constructor).
    rewrite Forall_forall in Hf. exact (Hf _ Hd). }
  assert (normalized ≠ []) as Hnn by (intros ->; apply mapM_Some_1, Forall2_length in Hm; by destruct shapes).
  assert (Forall (Forall (λ x, 0 < x)) normalized) as Hpos.
  { apply mapM_Some_1 in Hm. clear -Hm. induction Hm as [|sh dims ? ? H _ IH]; constructor; [|done].
    by eapply tile_pos. }
  assert (∀ f : list Z → list Z, (∀ l, Forall (λ x, 0 < x) l → Forall (λ x, 0 < x) (f l)) →
    0 < min_value ((λ l, prod_of (f l)) <$> normalized)) as Hmin.
  { intros f Hf. apply min_value_pos; [by destruct normalized|]. apply Forall_fmap.
    eapply Forall_impl; [exact Hpos|]. intros l Hl. apply prod_of_pos, Hf, Hl. }
  assert (0 < min_value (tile_size <$> normalized)) as Ht.
  { apply (Hmin (λ l, drop (length l - 2) l)). intros; by apply Forall_drop. }
  assert (0 < min_value (tile_count <$> normalized)) as Hc.
  { apply (Hmin (λ l, take (length l - 2) l)). intros; by apply Forall_take. }
  unfold vector_bytes. nia.
Qed.

(** The vector formula outside the latency table: for an opcode without linear coefficients
    the estimate is its inherent latency plus two cycles per full 256 bytes of the smallest
    operand, less one; the C++ truncation of the original never goes below one repeat. *)
Theorem pypto_inherent_exact op shapes d original_opcode c :
  dget OP_LATENCY op = None →
  pypto_estimate_cycles (VStr op) shapes (Some d) original_opcode = Ok (Some c) →
  let dtype := dget_default d DTYPE_ALIASES d in
  let latency := dget_default 10 (dget_default [] INHERENT_LATENCY op) dtype in
  ∃ itemsize normalized, dget PYPTO_DTYPE_BYTES dtype = Some itemsize ∧
    mapM normalize_shape shapes = Some normalized ∧
    c = latency + 2 * Z.max 1 (vector_bytes itemsize normalized / 256) - 1 ∧ latency + 1 <= c.
Proof.
  intros Hop H dtype latency. unfold pypto_estimate_cycles in H.
  destruct shapes as [|sh shapes]; [done|]. fold dtype in H.
  destruct (dget PYPTO_DTYPE_BYTES dtype) as [size|] eqn:Ed; [|done].
  destruct (mapM normalize_shape (sh :: shapes)) as [nrm|] eqn:Em; [|done].
  rewrite !lookup_str in H. cbn [mbind outcome_bind] in H. rewrite Hop in H.
  pose proof (vector_bytes_pos _ _ _ _ Ed (ltac:(done) : sh :: shapes ≠ []) Em) as Hb.
  assert (c = inherent_cycles latency (vector_bytes size nrm)) as -> by (by injection H as <-).
  exists size, nrm. rewrite inherent_cycles_max by done. split; [done|]. split; [done|]. lia.
Qed.

(** ** Concrete estimates *)

Definition mma_metadata (m k n : Z) : dict string pyval :=
  [("mma", VDict [("rows", VInt m); ("inner", VInt k); ("cols", VInt n)]);
   ("lhs", VRegion (Region "A" L0A [VInt m; VInt k] "float16" (VInt 0) None None))].

Lemma mma_metadata_task m k n :
  0 < m → 0 < k → 0 < n → mma_task (mma_metadata m k n) m k n "float16".
Proof. intros. split; [|done|reflexivity]. eexists. repeat split; reflexivity. Qed.

Lemma estimate_is_duration_witness :
  match pto_fallback_timing_profile " a2" with
  | Ok p => ∃ n, estimate_task p "mma" "M" (mma_metadata 32 64 16) = Ok n ∧ 0 < n ∧ n = 14
  | Raise _ => False
  end.
Proof.
  destruct (pto_fallback_timing_profile " a2") as [p|e] eqn:E; [|vm_compute in E; discriminate].
  pose proof E as E'. vm_compute in E'. injection E' as <-. eexists. split; [vm_compute; reflexivity|].
  split; [|reflexivity].
  eapply (estimate_is_duration false (MkProfile "A2" [] 1 "c" "pto-fallback") _ "mma" "M" (mma_metadata 32 64 16));
    vm_compute; reflexivity.
Defined.

Lemma pto_mma_cycles_monotone_witness :
  ∃ c', pto_mma_cycles (mma_metadata 40 64 17) = Some c' ∧ 14 <= c'.
Proof.
  destruct (pto_mma_cycles_monotone (mma_metadata 32 64 16) (mma_metadata 40 64 17) 32 64 16 40 64 17
    "float16" 14) as (_ & _ & H); [apply mma_metadata_task; lia..|lia|lia|lia|vm_compute; reflexivity|exact H].
Defined.

Lemma pypto_inherent_exact_witness :
  let shapes := [[VInt 8; VInt 64]; [VInt 512]] in
  dget OP_LATENCY "UB_ADD" = None ∧
  pypto_estimate_cycles (VStr "UB_ADD") shapes (Some "float") VNone = Ok (Some 21) ∧
  ∃ itemsize normalized, mapM normalize_shape shapes = Some normalized ∧
    21 = 6 + 2 * Z.max 1 (vector_bytes itemsize normalized / 256) - 1.
Proof.
  set (shapes := [[VInt 8; VInt 64]; [VInt 512]]). cbn zeta.
  assert (dget OP_LATENCY "UB_ADD" = None) as Hop by (vm_compute; reflexivity).
  assert (pypto_estimate_cycles (VStr "UB_ADD") shapes (Some "float") VNone = Ok (Some 21)) as He
    by (vm_compute; reflexivity).
  destruct (pypto_inherent_exact _ _ _ _ _ Hop He) as (i & nrm & _ & Hn & Hc & _).
  split; [exact Hop|]. split; [exact He|]. exists i, nrm. split; [exact Hn|exact Hc].
Defined.

(** The PyPTO model does not see the transposition of a copy: the bridge records it inside the
    [copy] entry of the metadata, and no estimate depends on that entry, so a transposed load is
    always charged the coefficients of the plain one. *)
Theorem pypto_ignores_copy_details operation metadata details :
  pypto_estimate_task operation (dset metadata "copy" details) = pypto_estimate_task operation metadata.
Proof.
  assert (∀ k, k ≠ "copy" → dget (dset metadata "copy" details) k = dget metadata k) as Hk
    by (intros k Hne; by apply dget_dset_ne).
  assert (∀ k, k ≠ "copy" → region_at (dset metadata "copy" details) k = region_at metadata k) as Hr
    by (intros k Hne; unfold region_at; by rewrite Hk).
  unfold pypto_estimate_task, operands, dget_default. cbn [omap list_omap].
  rewrite !Hr, !Hk by done. reflexivity.
Qed.
