(* ===== verification/Report.v ===== *)
(** Performance reports ([report.py]): the schedule-derived analyses of [PerformanceReport] — the
    critical chain, copy/compute overlap, inactive intervals and resource pressure.  The theorems
    show that the chain search ends with a time-ordered chain of operations, and that the overlap
    counts exactly the cycles at which copies and computation run together. *)

From stdpp Require Import pretty.
From Stdlib Require Import Sorting.Sorted.
From S2P Require Import Prelude PyDict PySort PyStr Errors Values Program Trace Intervals.
From S2P Require Import MemoryView Stats TraceExport.
Local Open Scope string_scope.
Local Open Scope Z_scope.
Local Open Scope list_scope.

(** ** The critical chain *)

(** The order of [(end_cycle, kind, task_id)] tuples, and Python's [max], which keeps the first of
    several greatest elements. *)
Definition candidate : Type := (Z * (string * string)) * ExecutionRecord.
Definition candidate_leb (x y : candidate) : bool :=
  pair_leb Z.eqb Z.leb (pair_leb String.eqb str_leb str_leb) x.1 y.1.
Definition max_by {A} (leb : A → A → bool) (x : A) (l : list A) : A :=
  foldl (λ best y, if leb y best then best else y) x l.

(** The order of [(end_cycle, start_cycle, task_id)] that selects the terminal operation. *)
Definition terminal_leb (x y : ExecutionRecord) : bool :=
  pair_leb Z.eqb Z.leb (pair_leb Z.eqb Z.leb str_leb)
    (end_cycle x, (start_cycle x, r_task_id x)) (end_cycle y, (start_cycle y, r_task_id y)).

(** The candidates among the recorded critical predecessors of an operation. *)
Definition kind_candidates (operations : dict string ExecutionRecord) (visited : gset string)
    (current : ExecutionRecord) (entry : string * pyval) : list candidate :=
  let ids := match entry.2 with VTuple l | VList l => str_of <$> l | _ => [] end in
  omap (λ id,
    match dget operations id with
    | Some p =>
        if bool_decide (r_task_id p ∉ visited) && (end_cycle p <=? start_cycle current)
        then Some ((end_cycle p, (entry.1, r_task_id p)), p) else None
    | None => None
    end) ids.
Definition candidates (operations : dict string ExecutionRecord) (visited : gset string)
    (current : ExecutionRecord) : list candidate :=
  match dget (r_metadata current) "critical_predecessors" with
  | Some (VDict kinds) => flat_map (kind_candidates operations visited current) kinds
  | _ => []
  end.

(** The backward walk; [chain] holds the steps found so far, earliest first, each with its
    relationship to its successor.  [None] is an exhausted step budget of the model. *)
Fixpoint walk (fuel : nat) (operations : dict string ExecutionRecord) (visited : gset string)
    (current : ExecutionRecord) (chain : list (ExecutionRecord * option string))
    : option (list (ExecutionRecord * option string)) :=
  match fuel with
  | O => None
  | S fuel =>
      match candidates operations visited current with
      | [] => Some chain
      | first :: rest =>
          let '((_, (kind, _)), p) := max_by candidate_leb first rest in
          walk fuel operations ({[r_task_id p]} ∪ visited) p ((p, Some kind) :: chain)
      end
  end.

(** The chain of a schedule: [None] inside when there is no operation. *)
Definition critical_chain (records : list ExecutionRecord)
    : option (option (list (ExecutionRecord * option string))) :=
  let operations := records_by_id records in
  match dvalues operations with
  | [] => Some None
  | first :: rest =>
      let current := max_by terminal_leb first rest in
      Some <$> walk (S (length operations)) operations {[r_task_id current]} current [(current, None)]
  end.

Definition step_document (step : ExecutionRecord * option string) : pyval :=
  let '(r, relationship) := step in
  VDict [("task_id", VStr (r_task_id r)); ("operation", VStr (r_operation r));
         ("resource", VStr (resource_label r)); ("start_cycle", VInt (start_cycle r));
         ("end_cycle", VInt (end_cycle r)); ("duration_cycles", VInt (record_duration r));
         ("to_successor", opt_value VStr relationship)].

Definition operation_cycles_of (chain : list (ExecutionRecord * option string)) : Z :=
  foldr (λ s acc, record_duration s.1 + acc) 0 chain.
Definition span_cycles (chain : list (ExecutionRecord * option string)) : Z :=
  match head chain, last chain with
  | Some first, Some terminal => end_cycle terminal.1 - start_cycle first.1
  | _, _ => 0
  end.

(** [_critical_chain] *)
Definition critical_path (records : list ExecutionRecord) : option (dict string pyval) :=
  chain ← critical_chain records;
  Some (match chain with
        | None => [("status", VStr "unavailable"); ("reason", VStr "schedule contains no operation records")]
        | Some chain =>
            [("status", VStr "schedule-derived");
             ("scope", VStr "explicit execution dependencies, same-resource FIFO order, and matched synchronization producers only; not a hardware timing proof");
             ("terminal_task_id", VStr (default "" (r_task_id ∘ fst <$> last chain)));
             ("span_cycles", VInt (span_cycles chain));
             ("operation_cycles", VInt (operation_cycles_of chain));
             ("steps", VList (step_document <$> chain))]
        end).

(** ** Copies and computation *)

(** [_is_copy] *)
Definition is_copy (r : ExecutionRecord) : bool :=
  let op := lower (r_operation r) in
  startswith "copy" op || contains "datacopy" op || contains "data_copy" op.
Definition is_compute (r : ExecutionRecord) : bool :=
  negb (is_copy r) && mem_str (pipe_value (r_pipe r)) ["m"; "v"; "fix"].

(** The intervals of the non-empty operations of one kind, by core. *)
Definition by_core_step (kind : ExecutionRecord → bool) (d : dict Z (list interval)) (r : ExecutionRecord)
    : dict Z (list interval) :=
  if is_operation r && negb (record_duration r =? 0) && kind r
  then dset d (r_core_id r) (dget_default [] d (r_core_id r) ++ [cycles_of r]) else d.
Definition by_core (kind : ExecutionRecord → bool) (rs : list ExecutionRecord) : dict Z (list interval) :=
  foldl (by_core_step kind) [] rs.

(** [_intersection_length]: the two-pointer sweep over merged intervals *)
Fixpoint intersection_length (left : list interval) : list interval → Z :=
  fix sweep (right : list interval) : Z :=
    match left, right with
    | (s1, e1) :: left', (s2, e2) :: right' =>
        Z.max 0 (Z.min e1 e2 - Z.max s1 s2) +
        (if e1 <=? e2 then intersection_length left' right else sweep right')
    | _, _ => 0
    end.

(** [_copy_compute_overlap] *)
Definition overlap_by_core (rs : list ExecutionRecord) : dict Z Z :=
  let copies := by_core is_copy rs in
  let compute := by_core is_compute rs in
  omap (λ c,
    let overlap := intersection_length (merge_intervals (dget_default [] copies c))
                     (merge_intervals (dget_default [] compute c)) in
    if overlap =? 0 then None else Some (c, overlap))
    (py_sorted Z_leb (filter (λ c, c ∈ dkeys compute) (dkeys copies))).
Definition copy_compute_overlap (rs : list ExecutionRecord) : dict string pyval :=
  let overlaps := overlap_by_core rs in
  [("scope", VStr "per-core union of copy and compute intervals; not a bandwidth estimate");
   ("total_per_core_cycles", VInt (foldr Z.add 0 (dvalues overlaps)));
   ("by_core", VList ((λ '(c, n), VDict [("core_id", VInt c); ("cycles", VInt n)]) <$> take 5 overlaps))].

(** ** Inactive intervals and resource pressure *)

(** The gaps before, between and after merged intervals. *)
Fixpoint gaps (cursor makespan : Z) (merged : list interval) : list interval :=
  match merged with
  | [] => if cursor <? makespan then [(cursor, makespan)] else []
  | (s, e) :: merged =>
      (if cursor <? s then [(cursor, s)] else []) ++ gaps (Z.max cursor e) makespan merged
  end.
Definition inactive_leb (x y : Z * interval) : bool :=
  let key i := (- (i.2.2 - i.2.1), (i.1, i.2.1)) in
  pair_leb Z.eqb Z.leb (pair_leb Z.eqb Z.leb Z.leb) (key x) (key y).

(** [_top_inactive_intervals]: core and interval *)
Definition top_inactive_intervals (st : SimulationStats) (rs : list ExecutionRecord) : list (Z * interval) :=
  take 5 (py_sorted inactive_leb
    (flat_map (λ '(c, raw), pair c <$> gaps 0 (makespan_cycles st) (merge_intervals raw))
       (intervals_by_core rs))).

(** [_resource_pressure]: operations and FIFO-queued cycles per resource *)
Definition pressure_step (d : dict string (Z * Z)) (r : ExecutionRecord) : dict string (Z * Z) :=
  if is_operation r then
    let '(count, waited) := dget_default (0, 0) d (resource_label r) in
    dset d (resource_label r)
      (count + 1, waited + match queued r with Some i => i.2 - i.1 | None => 0 end)
  else d.
Definition resource_pressure (rs : list ExecutionRecord) : dict string (Z * Z) := foldl pressure_step [] rs.

(** ** Overlap counts cycles *)

Lemma count_disjoint (P Q R : Z → Prop) `{∀ z, Decision (P z)} `{∀ z, Decision (Q z)}
  `{∀ z, Decision (R z)} lo hi :
  (∀ z, R z ↔ P z ∨ Q z) → (∀ z, P z → Q z → False) → count R lo hi = count P lo hi + count Q lo hi.
Proof.
  intros HR HD. unfold count. induction (seqZ lo (hi - lo)) as [|z l IH]; [done|].
  rewrite !filter_cons. specialize (HR z). specialize (HD z).
  repeat case_decide; cbn [length]; naive_solver lia.
Qed.

Lemma count_window s e lo hi : lo <= s → e <= hi → count (covers (s, e)) lo hi = Z.max 0 (e - s).
Proof.
  intros Hs He. destruct (Z.le_gt_cases s e) as [Hse|Hse].
  - rewrite (count_split _ lo s hi), (count_split _ s e hi) by lia.
    rewrite (count_none _ lo s), (count_all _ s e), (count_none _ e hi); [lia| | | |];
      intros; unfold covers; cbn; lia.
  - rewrite count_none; [lia|]. intros z _. unfold covers. cbn. lia.
Qed.

Definition both (l r : list interval) (z : Z) : Prop := covered l z ∧ covered r z.
#[export] Instance both_dec l r z : Decision (both l r z).
Proof. unfold both. apply _. Defined.

Lemma separated_tail_after i l z : separated (i :: l) → (∀ j, j ∈ l → j.1 <= j.2) → covered l z → i.2 < z.
Proof.
  intros [_ Hf]%StronglySorted_inv _ Hc. unfold covered in Hc. rewrite Exists_exists in Hc.
  destruct Hc as (j & Hj & Hz). rewrite Forall_forall in Hf. specialize (Hf j Hj). unfold covers in Hz. lia.
Qed.

(** One step of the sweep: the earlier-ending head meets only the other head. *)
Lemma both_head (s1 e1 s2 e2 : Z) r z :
  e1 <= e2 → separated ((s2, e2) :: r) → (∀ j, j ∈ r → j.1 <= j.2) →
  covers (s1, e1) z → covered ((s2, e2) :: r) z ↔ covers (s2, e2) z.
Proof.
  intros He Hs Hr Hz. rewrite covered_cons. split; [|by left]. intros [H|H]; [done|].
  pose proof (separated_tail_after _ _ _ Hs Hr H) as Ha. unfold covers in *. cbn in *. lia.
Qed.

Lemma both_sym l r lo hi : count (both l r) lo hi = count (both r l) lo hi.
Proof. apply count_ext. intros z _. unfold both. tauto. Qed.

Lemma both_step s1 e1 s2 e2 l r lo hi :
  e1 <= e2 → separated ((s1, e1) :: l) → separated ((s2, e2) :: r) →
  (∀ j, j ∈ (s1, e1) :: l → lo <= j.1 <= j.2 ∧ j.2 <= hi) →
  (∀ j, j ∈ (s2, e2) :: r → lo <= j.1 <= j.2 ∧ j.2 <= hi) →
  count (both ((s1, e1) :: l) ((s2, e2) :: r)) lo hi =
  Z.max 0 (Z.min e1 e2 - Z.max s1 s2) + count (both l ((s2, e2) :: r)) lo hi.
Proof.
  intros He Hs1 Hs2 Hb1 Hb2.
  assert (∀ j, j ∈ r → j.1 <= j.2) as Hr by (intros j Hj; destruct (Hb2 j); [by right|lia]).
  assert (∀ j, j ∈ l → j.1 <= j.2) as Hl by (intros j Hj; destruct (Hb1 j); [by right|lia]).
  destruct (Hb1 (s1, e1)) as [? ?]; [by left|]. destruct (Hb2 (s2, e2)) as [? ?]; [by left|]. cbn in *.
  rewrite <- (count_window (Z.max s1 s2) (Z.min e1 e2) lo hi) by lia.
  apply count_disjoint.
  - intros z. unfold both. rewrite (covered_cons (s1, e1)). split.
    + intros [[Hz|Hz] Hc]; [left|by right]. apply (both_head s1 e1 s2 e2 r z) in Hc; try done.
      unfold covers in *. cbn in *. lia.
    + intros [Hz|[Hz Hc]]; [|tauto]. unfold covers in Hz. cbn in Hz.
      split; [left; unfold covers; cbn; lia|]. apply covered_cons. left. unfold covers. cbn. lia.
  - intros z Hz [Hc _]. pose proof (separated_tail_after _ _ _ Hs1 Hl Hc) as Ha.
    unfold covers in Hz. cbn in *. lia.
Qed.

Lemma intersection_length_count l r lo hi :
  separated l → separated r →
  (∀ j, j ∈ l → lo <= j.1 <= j.2 ∧ j.2 <= hi) → (∀ j, j ∈ r → lo <= j.1 <= j.2 ∧ j.2 <= hi) →
  intersection_length l r = count (both l r) lo hi.
Proof.
  revert r; induction l as [|[s1 e1] l IHl]; intros r Hl Hr Hbl Hbr.
  { destruct r; cbn; rewrite count_none; try done; intros z _ [Hc _]; inversion Hc. }
  induction r as [|[s2 e2] r IHr].
  { cbn. rewrite count_none; [done|]. intros z _ [_ Hc]. inversion Hc. }
  cbn [intersection_length]. destruct (Z.leb_spec e1 e2).
  - rewrite both_step by done. f_equal. apply StronglySorted_inv in Hl as [Hl _].
    apply IHl; [done|done| |done]. intros; apply Hbl; by right.
  - rewrite both_sym, both_step by (done || lia). rewrite (Z.min_comm e2), (Z.max_comm s2). f_equal.
    rewrite both_sym. apply StronglySorted_inv in Hr as [Hr _].
    apply IHr; [done|]. intros; apply Hbr; by right.
Qed.

Lemma merge_fold_bound hi l ps :
  (∀ i, i ∈ l → i.2 <= hi) → (∀ i, i ∈ ps → i.2 <= hi) → ∀ j, j ∈ foldl merge_step ps l → j.2 <= hi.
Proof.
  revert ps; induction l as [|cur l IH]; intros ps Hl Hps; cbn [foldl]; [done|].
  apply IH; [set_solver|]. intros i. unfold merge_step.
  pose proof (Hl cur ltac:(set_solver)) as Hc. destruct (last ps) as [m|] eqn:El; [|set_solver].
  destruct (_ <=? _); [|set_solver]. apply last_split in El.
  intros [Hi|Hi%list_elem_of_singleton]%elem_of_app; [apply Hps; rewrite El; set_solver|].
  subst i. cbn. assert (m.2 <= hi) by (apply Hps; rewrite El; set_solver). lia.
Qed.

Lemma merge_intervals_ok l hi :
  (∀ i, i ∈ l → 0 <= i.1 <= i.2 ∧ i.2 <= hi) →
  separated (merge_intervals l) ∧ (∀ j, j ∈ merge_intervals l → 0 <= j.1 <= j.2 ∧ j.2 <= hi) ∧
  ∀ z, covered (merge_intervals l) z ↔ covered l z.
Proof.
  intros Hl. destruct (merge_fold_ok (py_sorted interval_leb l)) as (ps & Hps & Hok & Hsep & Hcov).
  { apply py_sorted_sorted; [exact interval_leb_total|exact interval_leb_trans]. }
  { intros r Hr%elem_of_py_sorted. by apply Hl. }
  apply merge_fold_step in Hps. unfold merge_intervals. split; [by rewrite Hps|]. split.
  - intros j Hj. split; [rewrite Hps in Hj; by apply Hok|]. revert Hj. apply merge_fold_bound; [|set_solver].
    intros i Hi%elem_of_py_sorted. by apply Hl.
  - intros z. rewrite Hps, Hcov. apply covered_perm, py_sorted_perm.
Qed.

(** The records that [by_core] groups under a core. *)
Definition grouped (kind : ExecutionRecord → bool) (c : Z) (r : ExecutionRecord) : Prop :=
  is_operation r = true ∧ kind r = true ∧ record_duration r ≠ 0 ∧ r_core_id r = c.
#[export] Instance grouped_dec kind c r : Decision (grouped kind c r).
Proof. unfold grouped. apply _. Defined.

Lemma by_core_spec kind rs :
  NoDup (dkeys (by_core kind rs)) ∧
  ∀ c, dget (by_core kind rs) c = some_nonempty (cycles_of <$> filter (grouped kind c) rs).
Proof.
  unfold by_core. induction rs as [|r rs [Hnd IH]] using rev_ind; [split; [constructor|done]|].
  rewrite foldl_snoc. unfold by_core_step at 1 3. destruct (_ && _) eqn:E.
  - apply andb_true_iff in E as [E E3]. apply andb_true_iff in E as [E1 E2%negb_true_iff].
    split; [by apply NoDup_dkeys_dset|]. intros c. rewrite filter_snoc_if, dget_dset. case_decide as Hc.
    + subst c. rewrite decide_True by (split; [done|split; [done|split; [lia|done]]]).
      unfold dget_default. rewrite IH, default_some_nonempty, fmap_app. cbn [fmap list_fmap].
      by rewrite some_nonempty_snoc.
    + rewrite decide_False; [done|]. by intros (_ & _ & _ & ?).
  - split; [done|]. intros c. rewrite filter_snoc_if, decide_False; [done|].
    intros (H1 & H2 & H3 & _). rewrite H1, H2 in E. cbn in E. lia.
Qed.

Lemma by_core_group kind rs c :
  dget_default [] (by_core kind rs) c = cycles_of <$> filter (grouped kind c) rs ∧
  (c ∉ dkeys (by_core kind rs) → dget_default [] (by_core kind rs) c = []).
Proof.
  destruct (by_core_spec kind rs) as [_ Hs]. unfold dget_default. split; [by rewrite Hs, default_some_nonempty|].
  intros Hc%dget_None_not_key. by rewrite Hc.
Qed.

(** A cycle at which some operation of a kind runs on a core. *)
Definition runs (kind : ExecutionRecord → bool) (c : Z) (rs : list ExecutionRecord) (z : Z) : Prop :=
  Exists (λ r, is_operation r = true ∧ kind r = true ∧ r_core_id r = c ∧ covers (cycles_of r) z) rs.
#[export] Instance runs_dec kind c rs z : Decision (runs kind c rs z).
Proof. unfold runs. apply _. Defined.

Lemma group_runs kind rs c z : covered (cycles_of <$> filter (grouped kind c) rs) z ↔ runs kind c rs z.
Proof.
  unfold covered, runs. rewrite !Exists_exists. split.
  - intros (i & (r & -> & [(H1 & H2 & _ & H4) Hr]%list_elem_of_filter)%list_elem_of_fmap & Hi). by exists r.
  - intros (r & Hr & H1 & H2 & H3 & Hz). exists (cycles_of r). split; [|done].
    apply list_elem_of_fmap_2, list_elem_of_filter. split; [|done]. split; [done|]. split; [done|].
    split; [|done]. unfold record_duration, covers, cycles_of in *. cbn in *. lia.
Qed.

Lemma dget_omap_nonzero (g : Z → Z) l c :
  dget_default 0 (omap (λ c, if g c =? 0 then None else Some (c, g c)) l) c =
  if decide (c ∈ l) then g c else 0.
Proof.
  unfold dget_default. induction l as [|x l IH]; cbn; [done|].
  destruct (decide (c ∈ x :: l)) as [Hin|Hin]; rewrite elem_of_cons in Hin;
    destruct (Z.eqb_spec (g x) 0) as [E|E]; cbn; rewrite ?IH; repeat case_decide; naive_solver.
Qed.

(** The copy/compute overlap is exact: for every core the report's overlap is the number of
    cycles at which a copy and a compute operation of that core are both running, and a core
    without an entry has no such cycle. *)
Theorem overlap_exact rs c hi :
  Forall record_cycles_ok rs → (∀ r, r ∈ rs → end_cycle r <= hi) →
  dget_default 0 (overlap_by_core rs) c =
  count (λ z, runs is_copy c rs z ∧ runs is_compute c rs z) 0 hi.
Proof.
  intros Hrs Hhi. unfold overlap_by_core.
  rewrite (dget_omap_nonzero (λ c, intersection_length
    (merge_intervals (dget_default [] (by_core is_copy rs) c))
    (merge_intervals (dget_default [] (by_core is_compute rs) c)))).
  assert (∀ kind, (∀ i, i ∈ cycles_of <$> filter (grouped kind c) rs → 0 <= i.1 <= i.2 ∧ i.2 <= hi)) as Hb.
  { intros kind i (r & -> & [_ Hr]%list_elem_of_filter)%list_elem_of_fmap.
    rewrite Forall_forall in Hrs. split; [by apply (Hrs r)|by apply Hhi]. }
  destruct (by_core_group is_copy rs c) as [H1 N1], (by_core_group is_compute rs c) as [H2 N2].
  destruct (merge_intervals_ok _ hi (Hb is_copy)) as (S1 & B1 & C1).
  destruct (merge_intervals_ok _ hi (Hb is_compute)) as (S2 & B2 & C2).
  case_decide as Hin.
  - rewrite H1, H2, (intersection_length_count _ _ 0 hi) by done. apply count_ext. intros z _.
    unfold both. by rewrite C1, C2, !group_runs.
  - rewrite count_none; [done|]. intros z _ [Hr1 Hr2].
    rewrite elem_of_py_sorted, list_elem_of_filter in Hin. rewrite <- group_runs, <- H1 in Hr1.
    rewrite <- group_runs, <- H2 in Hr2.
    destruct (decide (c ∈ dkeys (by_core is_compute rs))) as [Hd|Hd]; [|rewrite N2 in Hr2 by done; inversion Hr2].
    destruct (decide (c ∈ dkeys (by_core is_copy rs))) as [Hd'|Hd']; [tauto|].
    rewrite N1 in Hr1 by done. inversion Hr1.
Qed.

(** ** The chain search *)

Lemma max_by_elem {A} (leb : A → A → bool) x l : max_by leb x l ∈ x :: l.
Proof.
  unfold max_by. revert x; induction l as [|y l IH]; intros x; [left|]. cbn [foldl].
  destruct (leb y x).
  - specialize (IH x). apply elem_of_cons in IH as [->|H]; [left|by right; right].
  - right. apply IH.
Qed.

Lemma max_by_ub {A} (leb : A → A → bool) x l y :
  (∀ a b, leb a b = true ∨ leb b a = true) →
  (∀ a b c, leb a b = true → leb b c = true → leb a c = true) →
  y ∈ x :: l → leb y (max_by leb x l) = true.
Proof.
  intros Htot Htr. unfold max_by. revert x y; induction l as [|z l IH]; intros x y Hy; cbn [foldl].
  { apply list_elem_of_singleton in Hy as ->. by destruct (Htot x x). }
  destruct (leb z x) eqn:E.
  - apply elem_of_cons in Hy as [->|[->|Hy]%elem_of_cons]; [apply IH; left| |apply IH; by right].
    eapply Htr; [exact E|]. apply IH. left.
  - apply elem_of_cons in Hy as [->|Hy]; [|by apply IH]. eapply Htr; [|apply IH; left].
    by destruct (Htot x z); [|congruence].
Qed.

Lemma elem_of_dupdate {K V} `{EqDecision K} (l d : dict K V) k v :
  (k, v) ∈ dupdate d l → (k, v) ∈ d ∨ (k, v) ∈ l.
Proof.
  revert d; induction l as [|[k' v'] l IH]; intros d; cbn; [by left|]. intros [H|H]%IH; [|by right; right].
  assert ((k, v) ∈ d ∨ (k, v) = (k', v')) as [?|Heq]; [|by left|rewrite Heq; right; left].
  clear IH. induction d as [|[k2 v2] d IHd]; cbn in H; [apply list_elem_of_singleton in H; by right|].
  case_decide; subst; apply elem_of_cons in H as [H|H]; simplify_eq; try (by right); try (by left; right);
    try (by left; left). destruct (IHd H) as [?|?]; [by left; right|by right].
Qed.

Lemma records_by_id_spec rs k r :
  dget (records_by_id rs) k = Some r → r_task_id r = k ∧ r ∈ rs ∧ is_operation r = true.
Proof.
  intros H%dget_elem_of. unfold records_by_id, dict_of_pairs in H.
  apply elem_of_dupdate in H as [H|H]; [set_solver|].
  apply list_elem_of_fmap in H as (r' & Heq & [Hop Hr]%list_elem_of_filter). by simplify_eq.
Qed.

Lemma records_by_id_nodup rs : NoDup (dkeys (records_by_id rs)).
Proof. unfold records_by_id, dict_of_pairs. apply NoDup_dkeys_dupdate. constructor. Qed.

Lemma dupdate_known {K V} `{EqDecision K} (l d : dict K V) k :
  k ∈ dkeys d ∨ k ∈ dkeys l → is_Some (dget (dupdate d l) k).
Proof.
  revert d; induction l as [|[k' v'] l IH]; intros d H; cbn.
  { apply dkeys_elem_of. destruct H as [H|H]; [done|set_solver]. }
  apply IH. rewrite dkeys_dset. cbn in H. destruct (dmem d k') eqn:E.
  - apply dmem_true, dkeys_elem_of in E. set_solver.
  - set_solver.
Qed.

Lemma records_by_id_known rs r :
  r ∈ rs → is_operation r = true → is_Some (dget (records_by_id rs) (r_task_id r)).
Proof.
  intros Hr Hop. unfold records_by_id, dict_of_pairs. apply dupdate_known. right.
  unfold dkeys. apply list_elem_of_fmap. exists (r_task_id r, r). split; [done|].
  apply list_elem_of_fmap. exists r. split; [done|]. by apply list_elem_of_filter.
Qed.

Lemma candidates_spec rs visited current x :
  x ∈ candidates (records_by_id rs) visited current →
  dget (records_by_id rs) (r_task_id x.2) = Some x.2 ∧ (r_task_id x.2 ∉ visited) ∧
  end_cycle x.2 <= start_cycle current.
Proof.
  unfold candidates. destruct (dget (r_metadata current) _) as [[]|]; try set_solver.
  intros (e & _ & Hx)%list_elem_of_In%in_flat_map. apply list_elem_of_In in Hx.
  unfold kind_candidates in Hx. apply list_elem_of_omap in Hx as (id & _ & Hx).
  destruct (dget (records_by_id rs) id) as [p|] eqn:E; [|done]. destruct (_ && _) eqn:Ec; [|done].
  injection Hx as <-. cbn. destruct (records_by_id_spec rs id p E) as [Hid _].
  apply andb_true_iff in Ec as [Ev%bool_decide_eq_true Et]. rewrite Hid in *. split; [done|].
  split; [done|lia].
Qed.

Abbreviation step := (ExecutionRecord * option string)%type.

(** What every chain the walk builds satisfies. *)
Record chain_ok (rs : list ExecutionRecord) (chain : list step) : Prop := {
  ck_members s : s ∈ chain → dget (records_by_id rs) (r_task_id s.1) = Some s.1;
  ck_nodup : NoDup ((λ s, r_task_id s.1) <$> chain);
  ck_ordered : Sorted (λ x y, end_cycle x.1 <= start_cycle y.1) chain;
}.

Lemma walk_spec rs fuel visited current rel chain :
  (∀ id, id ∈ (λ s : step, r_task_id s.1) <$> (current, rel) :: chain → id ∈ visited) →
  (size (list_to_set (dkeys (records_by_id rs)) ∖ visited : gset string) < fuel)%nat →
  chain_ok rs ((current, rel) :: chain) →
  ∃ chain', walk fuel (records_by_id rs) visited current ((current, rel) :: chain) = Some chain' ∧
    chain_ok rs chain' ∧ last chain' = last ((current, rel) :: chain).
Proof.
  revert visited current rel chain; induction fuel as [|fuel IH]; intros visited current rel chain Hv Hf Hck; [lia|].
  cbn [walk]. destruct (candidates _ visited current) as [|x l] eqn:Ec; [eauto|].
  pose proof (max_by_elem candidate_leb x l) as Hm. rewrite <- Ec in Hm.
  destruct (max_by candidate_leb x l) as [[e [kind id]] p]. cbn zeta.
  apply candidates_spec in Hm as (Hp & Hnv & Hle). cbn in Hp, Hnv, Hle.
  edestruct (IH ({[r_task_id p]} ∪ visited) p (Some kind) ((current, rel) :: chain)) as (chain' & Hw & Hck' & Hl).
  - intros k [->|Hk]%elem_of_cons; [set_solver|]. apply Hv in Hk. set_solver.
  - assert (r_task_id p ∈ (list_to_set (dkeys (records_by_id rs)) : gset string)).
    { apply elem_of_list_to_set, dkeys_elem_of. eauto. }
    pose proof (subset_size (list_to_set (dkeys (records_by_id rs)) ∖ ({[r_task_id p]} ∪ visited))
      (list_to_set (dkeys (records_by_id rs)) ∖ visited : gset string) ltac:(set_solver)). lia.
  - destruct Hck as [H1 H2 H3]. split.
    + intros s [->|Hs]%elem_of_cons; [done|by apply H1].
    + rewrite fmap_cons. constructor; [|done]. intros Hin. apply Hnv, Hv, Hin.
    + constructor; [done|]. constructor. done.
  - exists chain'. split; [exact Hw|]. split; [done|]. by rewrite Hl.
Qed.

Lemma ordered_span (chain : list step) s :
  Sorted (λ x y : step, end_cycle x.1 <= start_cycle y.1) (s :: chain) →
  operation_cycles_of (s :: chain) <= span_cycles (s :: chain).
Proof.
  revert s; induction chain as [|t chain IH]; intros s Hs.
  { cbn. unfold record_duration. lia. }
  apply Sorted_inv in Hs as [Hs Hh]. apply HdRel_inv in Hh. specialize (IH t Hs).
  unfold span_cycles in *. cbn [head] in *. rewrite last_cons_cons.
  destruct (last (t :: chain)) as [u|] eqn:E; [|by apply last_None in E].
  cbn [operation_cycles_of foldr] in *. unfold record_duration in *. lia.
Qed.

#[export] Instance str_leb_order_3 : LebOrder (pair_leb Z.eqb Z.leb (pair_leb Z.eqb Z.leb str_leb)).
Proof.
  apply pair_leb_order; [apply _| |intros x y; apply Z.eqb_spec].
  apply pair_leb_order; [apply _|apply _|intros x y; apply Z.eqb_spec].
Qed.

Lemma terminal_ub x l y : y ∈ x :: l → end_cycle y <= end_cycle (max_by terminal_leb x l).
Proof.
  intros Hy. apply (max_by_ub terminal_leb) in Hy.
  - revert Hy. unfold terminal_leb, pair_leb. cbn. case_match eqn:E; lia.
  - intros a b. unfold terminal_leb. apply leb_total.
  - intros a b c. unfold terminal_leb. apply leb_trans.
Qed.

(** The critical chain is sound: the backward walk always ends; the chain consists of distinct
    operations of the schedule, each ending by the time its successor starts, and it ends in an
    operation that no other operation outlasts, so the cycles its operations take never exceed
    the span it reports. *)
Theorem critical_chain_sound rs :
  match critical_chain rs with
  | None => False
  | Some None => ∀ r, r ∈ rs → is_operation r = false
  | Some (Some chain) =>
      chain_ok rs chain ∧ operation_cycles_of chain <= span_cycles chain ∧
      ∃ t, last chain = Some (t, None) ∧ ∀ r, r ∈ dvalues (records_by_id rs) → end_cycle r <= end_cycle t
  end.
Proof.
  unfold critical_chain. destruct (dvalues (records_by_id rs)) as [|first rest] eqn:Ev.
  { intros r Hr. destruct (is_operation r) eqn:Eo; [|done]. exfalso.
    assert (records_by_id rs = []) as Hnil by (by destruct (records_by_id rs)).
    assert (is_Some (dget (records_by_id rs) (r_task_id r))) as [x Hx]; [|by rewrite Hnil in Hx].
    apply records_by_id_known; done. }
  set (t := max_by terminal_leb first rest).
  assert (dget (records_by_id rs) (r_task_id t) = Some t) as Ht.
  { pose proof (max_by_elem terminal_leb first rest) as Hin. rewrite <- Ev in Hin.
    apply list_elem_of_fmap in Hin as ([k r] & Heq & Hin). cbn in Heq. fold t in Heq. subst r.
    apply (elem_of_dget _ _ _ (records_by_id_nodup rs)) in Hin.
    by destruct (records_by_id_spec rs k t Hin) as [-> _]. }
  destruct (walk_spec rs (S (length (records_by_id rs))) {[r_task_id t]} t None []) as (chain & Hw & Hck & Hl).
  - intros id. cbn. set_solver.
  - apply Nat.lt_succ_r. etransitivity; [apply subseteq_size, subseteq_difference_l, reflexivity|].
    rewrite size_list_to_set by apply records_by_id_nodup. unfold dkeys. by rewrite length_map.
  - split; [|apply NoDup_singleton|repeat constructor]. intros s ->%list_elem_of_singleton. done.
  - rewrite Hw. cbn. split; [done|]. split.
    + destruct chain as [|s chain]; [by apply (f_equal is_Some) in Hl|]. apply ordered_span, Hck.
    + exists t. split; [done|]. intros r Hr. apply terminal_ub. done.
Qed.

(** ** A concrete report *)

Definition op_record (id op : string) (p : Pipe) (s e : Z) (preds : list (string * pyval)) : ExecutionRecord :=
  MkRecord id op 0 CUBE p s e "operation" None [("critical_predecessors", VDict preds)].
Definition report_records : list ExecutionRecord :=
  [op_record "load0" "copy_gm_to_l1" MTE2 0 10 [];
   op_record "mma0" "mma" MATRIX 10 18 [("explicit", VTuple [VStr "load0"])];
   op_record "load1" "copy_gm_to_l1" MTE2 10 16 [("fifo", VTuple [VStr "load0"])];
   op_record "mma1" "mma" MATRIX 18 26 [("fifo", VTuple [VStr "mma0"])]].

Example report_chain :
  match critical_chain report_records with
  | Some (Some chain) => map (λ s, (r_task_id s.1, s.2)) chain
  | _ => []
  end = [("load0", Some "explicit"); ("mma0", Some "fifo"); ("mma1", None)].
Proof. vm_compute. reflexivity. Qed.

Lemma overlap_exact_witness :
  dget_default 0 (overlap_by_core report_records) 0 =
    count (λ z, runs is_copy 0 report_records z ∧ runs is_compute 0 report_records z) 0 26 ∧
  overlap_by_core report_records = [(0, 6)].
Proof.
  split; [|vm_compute; reflexivity].
  apply (overlap_exact report_records 0 26); [repeat constructor; cbn; lia|].
  assert (Forall (λ r, end_cycle r <= 26) report_records) as Hf by (repeat constructor; cbn; lia).
  rewrite Forall_forall in Hf. exact Hf.
Defined.
