(* ===== verification/ExecOrder.v ===== *)
(** The order in which the executor applies the tasks of a program to memory
    ([FunctionalSimulator._functional_execution_order] of [executor.py]): Kahn's algorithm with a
    heap ordered by the schedule.  The theorem shows that it implements the abstract greedy
    machine [greedy_run], visits every task once and can only fail on a cyclic graph. *)

From S2P Require Import Prelude PyDict PySort PyStr Errors Values Program Trace Config SyncOps.
From S2P Require Import SyncReset SyncModel Scheduler Schedule Progress Run.
Local Open Scope string_scope.
Local Open Scope Z_scope.
Local Open Scope list_scope.

(** [d[k]] *)
Definition dindex {K V} `{EqDecision K} (d : dict K V) (k : K) (label : string) : result V :=
  match dget d k with Some v => Ok v | None => raise KeyError label end.

(** ** The heap *)

(** [heapq] on [(rank, task_id)] pairs.  A heap is the multiset of its entries; [heappop] takes
    the smallest. *)
Abbreviation entry := (Z * string)%type.
Definition entry_leb : entry → entry → bool := pair_leb Z.eqb Z.leb str_leb.

Definition heappush (h : list entry) (e : entry) : list entry := e :: h.

Definition smaller (x y : entry) : entry := if entry_leb x y then x else y.

Fixpoint remove_first (x : entry) (l : list entry) : list entry :=
  match l with
  | [] => []
  | y :: l => if decide (x = y) then l else y :: remove_first x l
  end.

Definition heappop (h : list entry) : option (entry * list entry) :=
  match h with
  | [] => None
  | x :: l => let m := foldl smaller x l in Some (m, remove_first m h)
  end.

(** ** The algorithm *)

(** [schedule_rank]: the position of the last record of every task that is not a wait. *)
Definition schedule_rank (records : list ExecutionRecord) : dict string Z :=
  foldl (λ d '(index, record),
      if mem_str (category record) ["wait"] then d else dset d (r_task_id record) index) []
    (imap (λ i r, (Z.of_nat i, r)) records).

(** [dependents] *)
Definition add_dependent (id : string) (d : dict string (list string)) (dependency : string)
    : result (dict string (list string)) :=
  l ← dindex d dependency "dependents"; Ok (dset d dependency (l ++ [id])).
Definition dependents_of (ts : list Task) : result (dict string (list string)) :=
  ofold (λ d t, ofold (add_dependent (task_id t)) (dependencies t) d) ts
    (dict_of_pairs ((λ t, (task_id t, [])) <$> ts)).

(** One dependent of a finished task: [remaining[dependent] -= 1] and, at zero, [heappush]. *)
Definition release (rank : dict string Z) (st : dict string Z * list entry) (dependent : string)
    : result (dict string Z * list entry) :=
  let '(remaining, ready) := st in
  count ← dindex remaining dependent "remaining";
  let remaining := dset remaining dependent (count - 1) in
  if count - 1 =? 0 then
    r ← dindex rank dependent "schedule_rank"; Ok (remaining, heappush ready (r, dependent))
  else Ok (remaining, ready).

(** [while ready: ...]; every iteration emits a task. *)
Fixpoint order_loop (fuel : nat) (by_id : dict string Task) (dependents : dict string (list string))
    (rank remaining : dict string Z) (ready : list entry) (ordered : list Task)
    : result (dict string Z * list Task) :=
  match heappop ready with
  | None => Ok (remaining, ordered)
  | Some ((_, id), rest) =>
      match fuel with
      | O => raise RecursionError "order_loop"
      | S fuel =>
          t ← dindex by_id id "task_by_id";
          ds ← dindex dependents id "dependents";
          '(remaining, ready) ← ofold (release rank) ds (remaining, rest);
          order_loop fuel by_id dependents rank remaining ready (ordered ++ [t])
      end
  end.

(** [_functional_execution_order] *)
Definition functional_execution_order (program : KernelProgram) (records : list ExecutionRecord)
    : result (list Task) :=
  let ts := tasks program in
  let rank := schedule_rank records in
  let by_id := dict_of_pairs ((λ t, (task_id t, t)) <$> ts) in
  let remaining := dict_of_pairs ((λ t, (task_id t, Z.of_nat (length (dependencies t)))) <$> ts) in
  dependents ← dependents_of ts;
  ready ← omap_list (λ '(id, _), r ← dindex rank id "schedule_rank"; Ok (r, id))
            (filter (λ e, e.2 = 0) remaining);
  '(remaining, ordered) ← order_loop (length ts) by_id dependents rank remaining
                            (py_sorted entry_leb ready) [];
  if (length ordered =? length ts)%nat then Ok ordered
  else raise_with ProgramValidationError "functional interpreter cannot topologically order"
         (filter (λ e, e.2 ≠ 0) remaining).*1.

(** ** The specification *)

Section spec.
Context (ts : list Task) (rank : string → Z).

(** Every dependency of [t] has been executed. *)
Definition executable (done : list Task) (t : Task) : Prop :=
  t ∈ ts ∧ (t ∉ done) ∧ ∀ d, d ∈ dependencies t → d ∈ task_id <$> done.

(** The greedy machine: always execute the executable task the schedule ranks first. *)
Inductive greedy_run : list Task → Prop :=
| greedy_start : greedy_run []
| greedy_step done t :
    greedy_run done → executable done t →
    (∀ u, executable done u → rank (task_id t) <= rank (task_id u)) →
    greedy_run (done ++ [t]).

Lemma greedy_subset done : greedy_run done → done ⊆ ts.
Proof. induction 1 as [|done t _ IH [Ht _] _]; set_solver. Qed.

Lemma greedy_nodup done : greedy_run done → NoDup done.
Proof.
  induction 1 as [|done t _ IH (_ & Hn & _) _]; [constructor|].
  apply NoDup_app. split; [done|]. split; [set_solver|]. apply NoDup_singleton.
Qed.

(** Dependencies come first. *)
Lemma greedy_dependencies done pre t suf :
  greedy_run done → done = pre ++ t :: suf →
  ∀ d, d ∈ dependencies t → d ∈ task_id <$> pre.
Proof.
  intros H. revert pre t suf; induction H as [|done u _ IH (_ & _ & Hd) _];
    intros pre t suf Heq; [by destruct pre|].
  destruct suf as [|v suf] using rev_ind.
  - by apply app_inj_tail in Heq as [-> ->].
  - rewrite app_comm_cons, app_assoc in Heq. apply app_inj_tail in Heq as [-> _]. by eapply IH.
Qed.

Lemma greedy_done_deps done t :
  greedy_run done → t ∈ done → ∀ d, d ∈ dependencies t → d ∈ task_id <$> done.
Proof.
  intros H (pre & suf & ->)%list_elem_of_split d Hd.
  pose proof (greedy_dependencies _ pre t suf H eq_refl d Hd). rewrite fmap_app. set_solver.
Qed.

(** The machine is deterministic when ranks tell tasks apart. *)
Lemma greedy_deterministic d1 d2 :
  (∀ t u, t ∈ ts → u ∈ ts → rank (task_id t) = rank (task_id u) → t = u) →
  greedy_run d1 → greedy_run d2 → length d1 = length d2 → d1 = d2.
Proof.
  intros Hinj H1. revert d2; induction H1 as [|d1 t H1 IH Ht Hmin]; intros d2 H2 Hlen.
  - by destruct d2.
  - rewrite length_app, Nat.add_1_r in Hlen.
    destruct H2 as [|d2 u H2 Hu Hmin']; [done|].
    rewrite length_app, Nat.add_1_r in Hlen. injection Hlen as Hlen.
    rewrite <- (IH d2 H2 Hlen) in *. f_equal. f_equal.
    apply Hinj; [apply Ht|apply Hu|]. apply Z.le_antisymm; [by apply Hmin|by apply Hmin'].
Qed.
End spec.

(** ** The heap takes a minimum *)

#[local] Instance entry_leb_order : LebOrder entry_leb.
Proof. apply pair_leb_order; [apply _|apply _|]. intros x y. apply Z.eqb_spec. Qed.

Lemma smaller_spec x y :
  (smaller x y = x ∨ smaller x y = y) ∧
  entry_leb (smaller x y) x = true ∧ entry_leb (smaller x y) y = true.
Proof.
  assert (∀ e, entry_leb e e = true) as Hrefl by (intros e; by destruct (leb_total e e)).
  unfold smaller. destruct (entry_leb x y) eqn:E; [auto|].
  destruct (leb_total x y) as [Ht|Ht]; [congruence|auto].
Qed.

Lemma heap_min_spec l x :
  foldl smaller x l ∈ x :: l ∧ ∀ y, y ∈ x :: l → entry_leb (foldl smaller x l) y = true.
Proof.
  revert x; induction l as [|z l IH]; intros x; cbn.
  - split; [by left|]. intros y ->%list_elem_of_singleton. by destruct (leb_total x x).
  - destruct (IH (smaller x z)) as [Hin Hle], (smaller_spec x z) as (Hs & Hx & Hz). split.
    + destruct Hs as [->| ->]; set_solver.
    + pose proof (Hle _ ltac:(by left)) as Hm.
      intros y [->|[->|Hy]%elem_of_cons]%elem_of_cons.
      * by eapply leb_trans.
      * by eapply leb_trans.
      * apply Hle. by right.
Qed.

Lemma remove_first_perm x l : x ∈ l → l ≡ₚ x :: remove_first x l.
Proof.
  induction l as [|y l IH]; [set_solver|]. cbn. case_decide as E; [by subst|].
  intros [?|Hin]%elem_of_cons; [done|]. rewrite (IH Hin) at 1. apply Permutation_swap.
Qed.

Lemma heappop_spec h :
  match heappop h with
  | None => h = []
  | Some (m, rest) => h ≡ₚ m :: rest ∧ ∀ e, e ∈ h → m.1 <= e.1
  end.
Proof.
  destruct h as [|x l]; cbn [heappop]; [done|]. destruct (heap_min_spec l x) as [Hin Hle].
  cbv zeta. split; [by apply remove_first_perm|]. intros e He. specialize (Hle e He).
  unfold entry_leb, pair_leb in Hle. destruct (Z.eqb_spec (foldl smaller x l).1 e.1); lia.
Qed.

(** ** Ranks *)

Lemma schedule_rank_snoc rs r :
  schedule_rank (rs ++ [r]) =
  if mem_str (category r) ["wait"] then schedule_rank rs
  else dset (schedule_rank rs) (r_task_id r) (Z.of_nat (length rs)).
Proof.
  unfold schedule_rank. rewrite imap_app, foldl_app. cbn. by rewrite Nat.add_0_r.
Qed.

Lemma schedule_rank_sound rs id n :
  dget (schedule_rank rs) id = Some n → 0 <= n ∧ ∃ r, rs !! Z.to_nat n = Some r ∧ r_task_id r = id.
Proof.
  induction rs as [|r rs IH] using rev_ind; [done|]. rewrite schedule_rank_snoc.
  assert (dget (schedule_rank rs) id = Some n →
    0 <= n ∧ ∃ r', (rs ++ [r]) !! Z.to_nat n = Some r' ∧ r_task_id r' = id) as Hold.
  { intros (Hn & r' & Hr' & ?)%IH. split; [done|]. exists r'. split; [by apply lookup_app_l_Some|done]. }
  destruct (mem_str _ _); [done|]. rewrite dget_dset. case_decide as E; [|done].
  intros [= <-]. split; [lia|]. exists r. split; [|done].
  rewrite Nat2Z.id, lookup_app_r, Nat.sub_diag; done || lia.
Qed.

Lemma schedule_rank_total rs r :
  r ∈ rs → category r = "operation" → is_Some (dget (schedule_rank rs) (r_task_id r)).
Proof.
  intros Hr Hc. induction rs as [|r' rs IH] using rev_ind; [set_solver|].
  rewrite schedule_rank_snoc. apply elem_of_app in Hr as [Hr| ->%list_elem_of_singleton].
  - destruct (mem_str _ _); [by apply IH|]. rewrite dget_dset. case_decide; eauto.
  - rewrite Hc. change (mem_str "operation" ["wait"]) with false. cbv iota. rewrite dget_dset_eq. eauto.
Qed.

(** The rank of a task, as the specification uses it. *)
Definition rank_in (records : list ExecutionRecord) (id : string) : Z :=
  dget_default 0 (schedule_rank records) id.

(** Every task has been placed. *)
Definition all_ranked (ts : list Task) (records : list ExecutionRecord) : Prop :=
  ∀ t, t ∈ ts → is_Some (dget (schedule_rank records) (task_id t)).

Lemma rank_in_dget ts rs t :
  all_ranked ts rs → t ∈ ts → dget (schedule_rank rs) (task_id t) = Some (rank_in rs (task_id t)).
Proof. intros H Ht. destruct (H t Ht) as [n Hn]. unfold rank_in, dget_default. by rewrite Hn. Qed.

Lemma rank_injective ts rs t u :
  NoDup (task_id <$> ts) → all_ranked ts rs → t ∈ ts → u ∈ ts →
  rank_in rs (task_id t) = rank_in rs (task_id u) → t = u.
Proof.
  intros Hnd Hall Ht Hu Heq.
  destruct (schedule_rank_sound _ _ _ (rank_in_dget ts rs t Hall Ht)) as (_ & r & Hr & Hid).
  destruct (schedule_rank_sound _ _ _ (rank_in_dget ts rs u Hall Hu)) as (_ & r' & Hr' & Hid').
  rewrite Heq in Hr. simplify_eq. eapply (task_of_id ts); [done|done|done|congruence].
Qed.

(** ** The dependents table *)

(** How often an identifier occurs in a list. *)
Definition occurs (x : string) (l : list string) : nat := length (filter (λ y, y = x) l).

Lemma occurs_app x l1 l2 : occurs x (l1 ++ l2) = (occurs x l1 + occurs x l2)%nat.
Proof. unfold occurs. by rewrite filter_app, length_app. Qed.

Lemma occurs_cons x y l : occurs x (y :: l) = ((if decide (y = x) then 1 else 0) + occurs x l)%nat.
Proof. unfold occurs. rewrite filter_cons. by case_decide. Qed.

Lemma occurs_pos x l : x ∈ l ↔ (0 < occurs x l)%nat.
Proof.
  induction l as [|y l IH]; [split; [set_solver|cbn; lia]|].
  rewrite occurs_cons, elem_of_cons, IH. case_decide as E; [subst; split; [lia|by left]|].
  split; [intros [->|H]; [done|lia]|intros H; right; lia].
Qed.

Lemma add_dependents_spec id ds d :
  (∀ x, x ∈ ds → is_Some (dget d x)) →
  ∃ d', ofold (add_dependent id) ds d = Ok d' ∧
    ∀ x, dget d' x = (λ l, l ++ replicate (occurs x ds) id) <$> dget d x.
Proof.
  revert d; induction ds as [|y ds IH]; intros d Hd; cbn [ofold].
  - exists d. split; [done|]. intros x. destruct (dget d x); cbn; [by rewrite app_nil_r|done].
  - destruct (Hd y ltac:(by left)) as [l Hl].
    assert (add_dependent id d y = Ok (dset d y (l ++ [id]))) as ->.
    { unfold add_dependent, dindex. by rewrite Hl. }
    ok_bind.
    destruct (IH (dset d y (l ++ [id]))) as (d' & -> & Hd').
    { intros x Hx. rewrite dget_dset. case_decide; [eauto|]. apply Hd. by right. }
    exists d'. split; [done|]. intros x. rewrite Hd', dget_dset, occurs_cons.
    case_decide as E; cbn; [|done]. subst. rewrite Hl. cbn. by rewrite <- app_assoc.
Qed.

(** The dependents of [x] in program order, with the multiplicity the tasks name it with. *)
Definition dependents_in (ts : list Task) (x : string) : list string :=
  flat_map (λ t, replicate (occurs x (dependencies t)) (task_id t)) ts.

Lemma dependents_fold_spec ts d :
  (∀ t x, t ∈ ts → x ∈ dependencies t → is_Some (dget d x)) →
  ∃ d', ofold (λ d t, ofold (add_dependent (task_id t)) (dependencies t) d) ts d = Ok d' ∧
    ∀ x, dget d' x = (λ l, l ++ dependents_in ts x) <$> dget d x.
Proof.
  revert d; induction ts as [|t ts IH]; intros d Hd; cbn [ofold].
  - exists d. split; [done|]. intros x. destruct (dget d x); cbn; [by rewrite app_nil_r|done].
  - destruct (add_dependents_spec (task_id t) (dependencies t) d) as (d1 & -> & H1).
    { intros x Hx. by apply (Hd t); [left|]. }
    ok_bind. destruct (IH d1) as (d2 & -> & H2).
    { intros u x Hu Hx. rewrite H1. apply fmap_is_Some. by apply (Hd u); [right|]. }
    exists d2. split; [done|]. intros x. rewrite H2, H1.
    destruct (dget d x); cbn; [by rewrite <- app_assoc|done].
Qed.

Lemma dget_by_task {V} (f : Task → V) ts t :
  NoDup (task_id <$> ts) → t ∈ ts →
  dget (dict_of_pairs ((λ t, (task_id t, f t)) <$> ts)) (task_id t) = Some (f t).
Proof.
  intros Hnd Ht.
  assert (((λ t, (task_id t, f t)) <$> ts).*1 = task_id <$> ts) as Hk.
  { rewrite <- list_fmap_compose. by apply list_fmap_ext. }
  rewrite dget_dict_of_pairs by (change (NoDup (((λ t, (task_id t, f t)) <$> ts).*1)); by rewrite Hk).
  apply elem_of_dget.
  - unfold dkeys. change (NoDup (((λ t, (task_id t, f t)) <$> ts).*1)). by rewrite Hk.
  - apply list_elem_of_fmap. eauto.
Qed.

Lemma dependents_of_spec ts :
  NoDup (task_id <$> ts) → deps_known ts →
  ∃ d, dependents_of ts = Ok d ∧ ∀ t, t ∈ ts → dget d (task_id t) = Some (dependents_in ts (task_id t)).
Proof.
  intros Hnd Hk. destruct (dependents_fold_spec ts (dict_of_pairs ((λ t, (task_id t, [])) <$> ts)))
    as (d & Hd & Hx).
  { intros t x Ht Hx. specialize (Hk t x Ht Hx). apply list_elem_of_fmap in Hk as (u & -> & Hu).
    rewrite (dget_by_task (λ _, []) ts u Hnd Hu). eauto. }
  exists d. split; [done|]. intros t Ht. rewrite Hx.
  by rewrite (dget_by_task (λ _, []) ts t Hnd Ht).
Qed.

Lemma occurs_dependents ts t x :
  NoDup (task_id <$> ts) → t ∈ ts →
  occurs (task_id t) (dependents_in ts x) = occurs x (dependencies t).
Proof.
  assert (∀ n y z, occurs y (replicate n z) = if decide (z = y) then n else 0%nat) as Hrep.
  { induction n as [|n IH]; intros y z; cbn [replicate]; [by destruct (decide (z = y))|].
    rewrite occurs_cons, IH. by case_decide. }
  induction ts as [|u ts IH]; intros Hnd Ht; [set_solver|].
  change (dependents_in (u :: ts) x) with
    (replicate (occurs x (dependencies u)) (task_id u) ++ dependents_in ts x).
  rewrite occurs_app, Hrep. apply NoDup_cons in Hnd as [Hn Hnd].
  apply elem_of_cons in Ht as [->|Ht].
  - rewrite decide_True by done.
    assert (occurs (task_id u) (dependents_in ts x) = 0%nat) as ->; [|lia].
    destruct (decide (0 < occurs (task_id u) (dependents_in ts x))%nat) as [Hp|]; [|lia].
    apply occurs_pos in Hp. unfold dependents_in in Hp. apply list_elem_of_In, in_flat_map in Hp as (v & Hv & Hin).
    apply list_elem_of_In in Hin, Hv. apply elem_of_replicate in Hin as [Heq _].
    destruct Hn. rewrite Heq. by apply list_elem_of_fmap_2.
  - rewrite decide_False; [by rewrite IH|]. intros Heq. apply Hn. rewrite Heq. by apply list_elem_of_fmap_2.
Qed.

(** ** The loop follows the greedy machine *)

Lemma release_fold (rank : dict string Z) (rk : string → Z) ds remaining ready :
  (∀ x, x ∈ ds → dget rank x = Some (rk x)) →
  (∀ x, x ∈ ds → ∃ c, dget remaining x = Some c ∧ Z.of_nat (occurs x ds) <= c) →
  (∀ x, x ∈ ds → (rk x, x) ∉ ready) → NoDup ready →
  ∃ remaining' ready', ofold (release rank) ds (remaining, ready) = Ok (remaining', ready') ∧
    (∀ x, dget remaining' x = (λ c, c - Z.of_nat (occurs x ds)) <$> dget remaining x) ∧
    NoDup ready' ∧
    (∀ e, e ∈ ready' ↔ e ∈ ready ∨
       ∃ x, x ∈ ds ∧ e = (rk x, x) ∧ dget remaining x = Some (Z.of_nat (occurs x ds))).
Proof.
  revert remaining ready; induction ds as [|y ds IH]; intros remaining ready Hrk Hc Hnew Hnd.
  { exists remaining, ready. split; [done|]. split; [|set_solver].
    intros x. destruct (dget remaining x); cbn; [f_equal; lia|done]. }
  destruct (Hc y ltac:(by left)) as (c & Hy & Hle). rewrite occurs_cons, decide_True in Hle by done.
  cbn [ofold].
  assert (release rank (remaining, ready) y =
    if c - 1 =? 0 then Ok (dset remaining y (c - 1), (rk y, y) :: ready)
    else Ok (dset remaining y (c - 1), ready)) as ->.
  { unfold release, dindex. rewrite Hy. ok_bind. rewrite (Hrk y) by (by left). by destruct (c - 1 =? 0). }
  assert (∀ x, dget (dset remaining y (c - 1)) x =
    (λ c, c - Z.of_nat (if decide (y = x) then 1%nat else 0%nat)) <$> dget remaining x) as Hrem.
  { intros x. rewrite dget_dset. case_decide as E; [subst; rewrite Hy; done|].
    destruct (dget remaining x); cbn; [f_equal; lia|done]. }
  assert (∀ x, x ∈ ds → ∃ c', dget (dset remaining y (c - 1)) x = Some c' ∧ Z.of_nat (occurs x ds) <= c') as Hc'.
  { intros x Hx. destruct (Hc x ltac:(by right)) as (c' & Hx' & Hle').
    rewrite Hrem, Hx'. rewrite occurs_cons in Hle'. eexists. split; [done|]. lia. }
  assert (∀ x, dget (dset remaining y (c - 1)) x = Some (Z.of_nat (occurs x ds)) ↔
     dget remaining x = Some (Z.of_nat (occurs x (y :: ds)))) as Heqv.
  { intros x. rewrite Hrem, occurs_cons. destruct (dget remaining x) as [c'|]; cbn; [|done].
    split; intros [= ?]; f_equal; lia. }
  assert (∀ rem' : dict string Z,
    (∀ x, dget rem' x = (λ c, c - Z.of_nat (occurs x ds)) <$> dget (dset remaining y (c - 1)) x) →
    ∀ x, dget rem' x = (λ c, c - Z.of_nat (occurs x (y :: ds))) <$> dget remaining x) as Hfin.
  { intros rem' H x. rewrite H, Hrem, occurs_cons. destruct (dget remaining x); cbn; [f_equal; lia|done]. }
  destruct (Z.eqb_spec (c - 1) 0) as [E|E].
  - assert (y ∉ ds) as Hyds. { rewrite occurs_pos. lia. }
    ok_bind. destruct (IH (dset remaining y (c - 1)) ((rk y, y) :: ready)) as (rem' & ready' & -> & H1 & H2 & H3).
    + intros x Hx. apply Hrk. by right.
    + done.
    + intros x Hx. rewrite elem_of_cons. intros [[= _ ->]|Hin]; [done|]. apply (Hnew x); [by right|done].
    + constructor; [apply Hnew; by left|done].
    + exists rem', ready'. split; [done|]. split; [by apply Hfin|]. split; [done|]. intros e. rewrite H3, elem_of_cons.
      setoid_rewrite Heqv. split.
      * intros [[->|?]|(x & ? & ? & ?)]; [right; exists y|by left|right; exists x; set_solver].
        split; [by left|]. split; [done|]. rewrite Hy, occurs_cons, decide_True by done. f_equal. lia.
      * intros [?|(x & [->|?]%elem_of_cons & -> & ?)]; [auto|auto|right; eauto].
  - ok_bind. destruct (IH (dset remaining y (c - 1)) ready) as (rem' & ready' & -> & H1 & H2 & H3).
    + intros x Hx. apply Hrk. by right.
    + done.
    + intros x Hx. apply Hnew. by right.
    + done.
    + exists rem', ready'. split; [done|]. split; [by apply Hfin|]. split; [done|]. intros e. rewrite H3.
      setoid_rewrite Heqv. split; [set_solver|].
      intros [?|(x & [->|?]%elem_of_cons & -> & Hx)]; [auto| |right; eauto].
      right. exists y. split; [|done]. rewrite occurs_pos. rewrite Hy, occurs_cons, decide_True in Hx by done.
      injection Hx. lia.
Qed.

Section loop.
Context (ts : list Task) (rs : list ExecutionRecord) (by_id : dict string Task).
Context (dependents : dict string (list string)).
Context (Hnd : NoDup (task_id <$> ts)) (Hknown : deps_known ts) (Hranked : all_ranked ts rs).
Context (Hby : ∀ t, t ∈ ts → dget by_id (task_id t) = Some t).
Context (Hdep : ∀ t, t ∈ ts → dget dependents (task_id t) = Some (dependents_in ts (task_id t))).

Definition missing (done : list Task) (t : Task) : nat :=
  length (filter (λ d, d ∉ task_id <$> done) (dependencies t)).

Lemma missing_zero done t : missing done t = 0%nat ↔ ∀ d, d ∈ dependencies t → d ∈ task_id <$> done.
Proof.
  unfold missing. split.
  - intros H%length_zero_iff_nil d Hd. destruct (decide (d ∈ task_id <$> done)) as [|Hn]; [done|].
    assert (d ∈ filter (λ d, d ∉ task_id <$> done) (dependencies t)) as Hin
      by (by apply list_elem_of_filter). rewrite H in Hin. set_solver.
  - intros H. rewrite filter_none; [done|]. intros d Hd Hn. by apply Hn, H.
Qed.

Lemma missing_snoc done t u :
  task_id t ∉ task_id <$> done →
  missing done u = (missing (done ++ [t]) u + occurs (task_id t) (dependencies u))%nat.
Proof.
  intros Hn. unfold missing, occurs. induction (dependencies u) as [|d ds IH]; [done|].
  rewrite !filter_cons. rewrite fmap_app. cbn [fmap list_fmap].
  destruct (decide (d = task_id t)) as [->|Hne].
  - rewrite (decide_True (P := task_id t ∉ _)) by done. rewrite decide_False by set_solver.
    cbn [length]. rewrite fmap_app in IH. cbn [fmap list_fmap] in IH. lia.
  - rewrite fmap_app in IH. cbn [fmap list_fmap] in IH.
    destruct (decide (d ∈ task_id <$> done)).
    + rewrite !decide_False by set_solver. done.
    + rewrite !decide_True by set_solver. cbn [length]. lia.
Qed.

(** What the loop's variables mean after the tasks of [done]. *)
Record loop_inv (done : list Task) (remaining : dict string Z) (ready : list entry) : Prop := {
  li_greedy : greedy_run ts (rank_in rs) done;
  li_remaining : ∀ t, t ∈ ts → dget remaining (task_id t) = Some (Z.of_nat (missing done t));
  li_nodup : NoDup ready;
  li_ready : ∀ e, e ∈ ready ↔ ∃ t, executable ts done t ∧ e = (rank_in rs (task_id t), task_id t);
}.

Lemma same_id t u : t ∈ ts → u ∈ ts → task_id t = task_id u → t = u.
Proof. intros Ht Hu Heq. by eapply (task_of_id ts). Qed.

Lemma id_in_done done t : done ⊆ ts → t ∈ ts → task_id t ∈ task_id <$> done ↔ t ∈ done.
Proof.
  intros Hs Ht. split; [|apply list_elem_of_fmap_2].
  intros (u & Heq & Hu)%list_elem_of_fmap. by rewrite (same_id t u Ht (Hs _ Hu) Heq).
Qed.

Lemma elem_of_dependents x id : id ∈ dependents_in ts x ↔ ∃ u, u ∈ ts ∧ id = task_id u ∧ x ∈ dependencies u.
Proof.
  unfold dependents_in. rewrite list_elem_of_In, in_flat_map. split.
  - intros (u & Hu%list_elem_of_In & Hin%list_elem_of_In). exists u. split; [done|].
    apply elem_of_replicate in Hin as [-> Hne]. split; [done|]. apply occurs_pos. lia.
  - intros (u & Hu & -> & Hx). exists u. rewrite <- !list_elem_of_In. split; [done|].
    apply elem_of_replicate. split; [done|]. apply occurs_pos in Hx. lia.
Qed.

(** One iteration. *)
Lemma loop_step done remaining ready t rest :
  loop_inv done remaining ready → ready ≡ₚ (rank_in rs (task_id t), task_id t) :: rest →
  t ∈ ts → (∀ e, e ∈ ready → rank_in rs (task_id t) <= e.1) →
  ∃ remaining' ready',
    ofold (release (schedule_rank rs)) (dependents_in ts (task_id t)) (remaining, rest) = Ok (remaining', ready') ∧
    loop_inv (done ++ [t]) remaining' ready'.
Proof.
  intros [Hg Hrem Hndr Hready] Hperm Ht Hmin.
  pose proof (greedy_subset _ _ _ Hg) as Hsub.
  assert (executable ts done t) as Hex.
  { destruct (proj1 (Hready (rank_in rs (task_id t), task_id t))) as (u & Hu & Heq).
    { rewrite Hperm. by left. }
    injection Heq as _ Heq. by rewrite (same_id t u Ht (proj1 Hu) Heq). }
  assert (task_id t ∉ task_id <$> done) as Hnew by (rewrite (id_in_done done t Hsub Ht); apply Hex).
  assert (NoDup ((rank_in rs (task_id t), task_id t) :: rest)) as Hnd2 by (by rewrite <- Hperm).
  apply NoDup_cons in Hnd2 as [Hrest Hnd2].
  assert (∀ u, u ∈ ts → task_id t ∈ dependencies u → (0 < missing done u)%nat) as Hpos.
  { intros u Hu Hd. rewrite (missing_snoc done t u Hnew). apply occurs_pos in Hd. lia. }
  destruct (release_fold (schedule_rank rs) (rank_in rs) (dependents_in ts (task_id t)) remaining rest)
    as (rem' & ready' & Hf & H1 & H2 & H3).
  - intros x (u & Hu & -> & _)%elem_of_dependents. by eapply rank_in_dget.
  - intros x (u & Hu & -> & _)%elem_of_dependents. eexists. split; [by apply Hrem|].
    rewrite occurs_dependents by done. rewrite (missing_snoc done t u Hnew). lia.
  - intros x (u & Hu & -> & Hd)%elem_of_dependents Hin.
    assert ((rank_in rs (task_id u), task_id u) ∈ ready) as Hr by (rewrite Hperm; by right).
    apply Hready in Hr as (v & (Hv & _ & Hvd) & Heq). injection Heq as _ Heq.
    rewrite <- (same_id u v Hu Hv Heq) in Hvd. apply missing_zero in Hvd.
    specialize (Hpos u Hu Hd). lia.
  - done.
  - exists rem', ready'. split; [done|]. split.
    + apply greedy_step; [done|done|]. intros u Hu. apply (Hmin (rank_in rs (task_id u), task_id u)).
      apply Hready. eauto.
    + intros u Hu. rewrite H1, (Hrem u Hu). cbn. f_equal.
      rewrite occurs_dependents by done. rewrite (missing_snoc done t u Hnew). lia.
    + done.
    + intros e. rewrite H3. split.
      * intros [Hin|(x & (u & Hu & -> & Hd)%elem_of_dependents & -> & Hx)].
        -- assert (e ∈ ready) as Hr by (rewrite Hperm; by right).
           apply Hready in Hr as (v & (Hv & Hvd & Hvx) & ->). exists v. split; [|done].
           split; [done|]. split; [|rewrite fmap_app; set_solver].
           intros [?|Heq%list_elem_of_singleton]%elem_of_app; [done|]. by subst.
        -- exists u. split; [|done]. split; [done|].
           rewrite (Hrem u Hu), occurs_dependents in Hx by done.
           pose proof (missing_snoc done t u Hnew) as Hm. injection Hx as Hx%Nat2Z.inj.
           assert (missing (done ++ [t]) u = 0%nat) as Hz by lia.
           split; [|by apply missing_zero].
           intros [Hin|Heq%list_elem_of_singleton]%elem_of_app.
           ++ apply Hnew. by apply (greedy_done_deps _ _ _ u Hg Hin).
           ++ subst. apply Hnew. by apply Hex.
      * intros (u & (Hu & Hun & Hud) & ->).
        destruct (decide (missing done u = 0%nat)) as [Hz|Hz].
        -- left. assert ((rank_in rs (task_id u), task_id u) ∈ ready) as Hr.
           { apply Hready. exists u. split; [|done]. split; [done|]. split; [set_solver|]. by apply missing_zero. }
           rewrite Hperm in Hr. apply elem_of_cons in Hr as [Heq|?]; [|done].
           injection Heq as _ Heq. rewrite (same_id u t Hu Ht Heq) in Hun. set_solver.
        -- right. apply missing_zero in Hud. pose proof (missing_snoc done t u Hnew).
           exists (task_id u). split; [|split; [done|]].
           ++ apply elem_of_dependents. exists u. split; [done|]. split; [done|]. apply occurs_pos. lia.
           ++ rewrite (Hrem u Hu), occurs_dependents by done. f_equal. lia.
Qed.

(** The whole loop: it empties the heap, and then nothing is executable. *)
Lemma order_loop_spec fuel done remaining ready :
  loop_inv done remaining ready → (length ts - length done ≤ fuel)%nat →
  ∃ remaining' done', order_loop fuel by_id dependents (schedule_rank rs) remaining ready done = Ok (remaining', done') ∧
    loop_inv done' remaining' [].
Proof.
  revert done remaining ready; induction fuel as [|fuel IH]; intros done remaining ready Hinv Hfuel;
    pose proof (heappop_spec ready) as Hpop; cbn [order_loop];
    (destruct (heappop ready) as [[[r id] rest]|]; [|subst; eauto]);
    destruct Hpop as [Hperm Hmin]; pose proof Hinv as [Hg _ _ Hready];
    (destruct (proj1 (Hready (r, id))) as (t & Hex & Heq); [rewrite Hperm; by left|]); injection Heq as -> ->.
  - assert (length done < length ts)%nat; [|lia].
    assert (submseteq (t :: done) ts) as Hsub; [|apply submseteq_length in Hsub; cbn in Hsub; lia].
    apply NoDup_submseteq.
    + constructor; [apply Hex|by eapply greedy_nodup].
    + intros u [->|Hu]%elem_of_cons; [apply Hex|by apply (greedy_subset _ _ _ Hg)].
  - assert (t ∈ ts) as Ht by apply Hex. unfold dindex. rewrite (Hby t Ht), (Hdep t Ht). ok_bind.
    destruct (loop_step done remaining ready t rest Hinv Hperm Ht Hmin) as (rem' & ready' & -> & Hinv').
    ok_bind. apply IH; [done|]. rewrite length_app. cbn. lia.
Qed.

(** On an acyclic graph an execution that cannot go on has executed everything. *)
Lemma finished_all done :
  (∀ x, ¬ tc (task_edge ts) x x) → done ⊆ ts → (∀ t, ¬ executable ts done t) → ts ⊆ done.
Proof.
  intros Hac Hsub Hfin t Ht.
  assert (sn (task_edge ts) (task_id t)) as Hsn.
  { apply tc_finite_sn; [done|]. exists (task_id <$> ts). intros y Hy.
    induction Hy as [x y (u & Hu & _ & Hd)|]; [by eapply Hknown|done]. }
  remember (task_id t) as x eqn:Hx. revert t Ht Hx. induction Hsn as [x _ IH]. intros t Ht ->.
  destruct (decide (task_id t ∈ task_id <$> done)) as [Hin|Hn]; [by apply id_in_done|].
  rewrite (id_in_done done t Hsub Ht) in Hn. destruct (Hfin t). split; [done|]. split; [done|].
  intros d Hd. pose proof (Hknown t d Ht Hd) as Hdk. apply list_elem_of_fmap in Hdk as (u & -> & Hu).
  apply list_elem_of_fmap_2. apply (IH (task_id u)); [by exists t|done|done].
Qed.
End loop.

Lemma dkeys_by_task {V} (f : Task → V) ts :
  NoDup (task_id <$> ts) →
  ∀ k v, (k, v) ∈ dict_of_pairs ((λ t, (task_id t, f t)) <$> ts) ↔ ∃ t, t ∈ ts ∧ k = task_id t ∧ v = f t.
Proof.
  intros Hnd k v.
  assert (((λ t, (task_id t, f t)) <$> ts).*1 = task_id <$> ts) as Hk.
  { rewrite <- list_fmap_compose. by apply list_fmap_ext. }
  assert (NoDup (dkeys (dict_of_pairs ((λ t, (task_id t, f t)) <$> ts)))) as Hkeys.
  { unfold dict_of_pairs. apply NoDup_dkeys_dupdate. constructor. }
  split.
  - intros Hin%elem_of_dget; [|done]. rewrite dget_dict_of_pairs in Hin
      by (change (NoDup (((λ t, (task_id t, f t)) <$> ts).*1)); by rewrite Hk).
    apply dget_elem_of, list_elem_of_fmap in Hin as (t & [= -> ->] & ?). eauto.
  - intros (t & Ht & -> & ->). by apply dget_elem_of, dget_by_task.
Qed.

Lemma initial_inv ts rs :
  NoDup (task_id <$> ts) → all_ranked ts rs →
  let remaining := dict_of_pairs ((λ t, (task_id t, Z.of_nat (length (dependencies t)))) <$> ts) in
  ∃ ready, omap_list (λ '(id, _), r ← dindex (schedule_rank rs) id "schedule_rank"; Ok (r, id))
      (filter (λ e, e.2 = 0) remaining) = Ok ready ∧
    loop_inv ts rs [] remaining (py_sorted entry_leb ready).
Proof.
  intros Hnd Hall remaining.
  pose proof (dkeys_by_task (λ t, Z.of_nat (length (dependencies t))) ts Hnd) as Hkeys.
  fold remaining in Hkeys.
  set (start := filter (λ e, e.2 = 0) remaining).
  assert (∀ id n, (id, n) ∈ start → ∃ t, t ∈ ts ∧ id = task_id t ∧ dependencies t = []) as Hstart.
  { intros id n [Hn (t & Ht & -> & ->)%Hkeys]%list_elem_of_filter. exists t. split; [done|]. split; [done|].
    apply length_zero_iff_nil. cbn in Hn. lia. }
  exists ((λ e, (rank_in rs e.1, e.1)) <$> start). split.
  - apply omap_list_ok, Forall2_fmap_r, Forall_Forall2_diag, Forall_forall. intros [id n] Hin.
    destruct (Hstart id n Hin) as (t & Ht & -> & _). unfold dindex. by rewrite (rank_in_dget ts rs t Hall Ht).
  - split.
    + constructor.
    + intros t Ht. unfold remaining. rewrite (dget_by_task _ ts t Hnd Ht). do 3 f_equal.
      unfold missing. cbn. clear. induction (dependencies t) as [|d l IH]; [done|].
      rewrite filter_cons, decide_True by set_solver. cbn. by rewrite IH.
    + rewrite py_sorted_perm. apply (NoDup_fmap_1 snd). rewrite <- list_fmap_compose.
      change (NoDup ((λ e : string * Z, e.1) <$> start)). apply (sublist_NoDup _ remaining.*1).
      * unfold remaining, dict_of_pairs. apply NoDup_dkeys_dupdate. constructor.
      * apply fmap_sublist, sublist_filter.
    + intros e. rewrite elem_of_py_sorted, list_elem_of_fmap. split.
      * intros ([id n] & -> & Hin). destruct (Hstart id n Hin) as (t & Ht & -> & Hd). exists t.
        split; [|done]. split; [done|]. split; [set_solver|]. rewrite Hd. set_solver.
      * intros (t & (Ht & _ & Hd) & ->). exists (task_id t, 0). split; [done|].
        apply list_elem_of_filter. split; [done|]. apply Hkeys. exists t. split; [done|]. split; [done|].
        destruct (dependencies t) as [|d l]; [done|]. specialize (Hd d ltac:(by left)). set_solver.
Qed.

(** ** What the whole function returns *)

Lemma functional_order_result p rs :
  NoDup (task_id <$> tasks p) → deps_known (tasks p) → all_ranked (tasks p) rs →
  match functional_execution_order p rs with
  | Ok order => greedy_run (tasks p) (rank_in rs) order ∧ order ≡ₚ tasks p
  | Raise e => exn_cls e = ProgramValidationError ∧ ∃ x, tc (task_edge (tasks p)) x x
  end.
Proof.
  intros Hnd Hk Hall. unfold functional_execution_order.
  destruct (dependents_of_spec _ Hnd Hk) as (dependents & -> & Hdep). ok_bind.
  destruct (initial_inv _ rs Hnd Hall) as (ready & Hready & Hinv). cbv zeta in Hready, Hinv.
  rewrite Hready. ok_bind.
  set (by_id := dict_of_pairs ((λ t, (task_id t, t)) <$> tasks p)).
  destruct (order_loop_spec (tasks p) rs by_id dependents Hnd Hk Hall (λ t, dget_by_task id (tasks p) t Hnd) Hdep
    (length (tasks p)) [] _ _ Hinv) as (remaining & order & -> & [Hg _ _ Hfin]); [cbn; lia|].
  ok_bind. pose proof (greedy_subset _ _ _ Hg) as Hsub. pose proof (greedy_nodup _ _ _ Hg) as Hndo.
  assert (NoDup (tasks p)) as Hndt by (by apply (NoDup_fmap_1 task_id)).
  destruct (Nat.eqb_spec (length order) (length (tasks p))) as [Hlen|Hlen].
  - split; [done|]. apply submseteq_length_Permutation; [by apply NoDup_submseteq|lia].
  - split; [done|]. pose proof (acyclic_result _ Hnd Hk) as Hac.
    destruct (validate_acyclic (tasks p)); [|apply Hac]. exfalso. apply Hlen.
    apply Permutation_length, NoDup_Permutation; [done|done|]. intros t. split; [apply Hsub|].
    apply (finished_all (tasks p) Hnd Hk); [done|done|]. intros u Hu.
    assert ((rank_in rs (task_id u), task_id u) ∈ @nil entry) by (apply Hfin; eauto). set_solver.
Qed.

Lemma scheduled_ranked ts rs c : valid_schedule ts rs c → all_ranked ts rs.
Proof.
  intros Hv t Ht. destruct (valid_record ts rs c Hv t Ht) as (r & _ & Hr & Hin).
  destruct Hr as (<- & _ & _ & _ & _ & Hc & _). by apply schedule_rank_total.
Qed.

(** A schedule of a well-formed program always has an execution order. *)
Lemma scheduled_order p rs c :
  program_wf p → valid_schedule (tasks p) rs c →
  ∃ order, functional_execution_order p rs = Ok order ∧
    greedy_run (tasks p) (rank_in rs) order ∧ order ≡ₚ tasks p.
Proof.
  intros Hwf Hv. pose proof (functional_order_result p rs (wf_unique _ Hwf) (wf_known _ Hwf)
    (scheduled_ranked _ _ _ Hv)) as H.
  destruct (functional_execution_order p rs) as [order|e]; [eauto|].
  destruct H as (_ & x & Hx). by destruct (wf_acyclic _ Hwf x).
Qed.

(** ** Properties *)

Section claims.
Context {St : Type} `{!SynchronizationModel St}.
Context (config : SimulatorConfig) (set_order : gset string → list string) (clock : nat → Q).

Lemma schedule_yields_valid fuel p rs :
  program_wf p → schedule config set_order clock fuel p = Some (Ok rs) → ∃ c, valid_schedule (tasks p) rs c.
Proof.
  intros Hwf H. destruct (schedule_run config set_order clock fuel p rs (wf_unique _ Hwf) H)
    as (st0 & hist & c & st & _ & Hrun & Hts & Hrs & _). exists c.
  eapply facts_valid; [apply Hwf|by eapply sched_run_facts|done|done].
Qed.

(** C8. The execution order of a scheduled program is well defined: whenever the scheduler
    returns records for a well-formed program, [_functional_execution_order] returns (no error,
    no exhausted loop) an order that contains every task exactly once, puts every dependency
    before its dependents, and is the only run of the greedy machine, which always executes the
    executable task that the schedule placed first. *)
Theorem execution_order_exact fuel p rs :
  program_wf p → schedule config set_order clock fuel p = Some (Ok rs) →
  ∃ order, functional_execution_order p rs = Ok order ∧ order ≡ₚ tasks p ∧
    (∀ pre t suf, order = pre ++ t :: suf → ∀ d, d ∈ dependencies t → d ∈ task_id <$> pre) ∧
    (∀ other, greedy_run (tasks p) (rank_in rs) other ∧ length other = length (tasks p) ↔ other = order).
Proof.
  intros Hwf H. destruct (schedule_yields_valid fuel p rs Hwf H) as [c Hv].
  destruct (scheduled_order p rs c Hwf Hv) as (order & Ho & Hg & Hp). exists order.
  split; [done|]. split; [done|]. split; [intros pre t suf; by eapply greedy_dependencies|].
  intros other. split; [intros [Hg' Hlen]|intros ->; split; [done|by rewrite Hp]].
  eapply greedy_deterministic; [|done|done|by rewrite Hp]. intros t u Ht Hu.
  eapply rank_injective; [apply Hwf|by eapply scheduled_ranked|done|done].
Qed.
End claims.

Lemma execution_order_exact_witness :
  match functional_execution_order gemm_program gemm_schedule with
  | Ok order => task_id <$> order = ["load_a"; "load_b"; "mma"; "store"]
  | Raise _ => False
  end ∧
  ∃ order, functional_execution_order gemm_program gemm_schedule = Ok order ∧ order ≡ₚ tasks gemm_program.
Proof.
  split; [vm_compute; reflexivity|].
  destruct (execution_order_exact example_config elements still_clock 4 _ _ gemm_program_wf gemm_schedule_ok)
    as (order & Ho & Hp & _). exists order. exact (conj Ho Hp).
Defined.
