(* ===== verification/PyNum.v ===== *)
(** Python numbers: the arithmetic and comparisons of [bool], [int] and [float] operands that
    the executor and the calibration code apply to them. *)

From Stdlib Require Import Floats.SpecFloat.
From S2P Require Import Prelude PyDict PySort PyStr Errors Values PyFloat.
Local Open Scope string_scope.
Local Open Scope Z_scope.
Local Open Scope list_scope.

Inductive pynum :=
| NBool (b : bool)
| NInt (z : Z)
| NFloat (f : float).

(** The double with a given bit pattern. *)
Definition float_of_bits (bits : Z) : float :=
  let sign := Z.testbit bits 63 in
  let e := Z.land (Z.shiftr bits 52) 2047 in
  let m := Z.land bits (2 ^ 52 - 1) in
  if e =? 2047 then (if m =? 0 then S754_infinity sign else S754_nan)
  else if e =? 0 then
    match m with Zpos p => S754_finite sign p (-1074) | _ => S754_zero sign end
  else match m + 2 ^ 52 with Zpos p => S754_finite sign p (e - 1075) | _ => S754_zero sign end.

(** [isinstance(v, (bool, int, float))] *)
Definition as_number (v : pyval) : option pynum :=
  match v with
  | VBool b => Some (NBool b)
  | VInt z => Some (NInt z)
  | VFloat bits => Some (NFloat (float_of_bits bits))
  | _ => None
  end.
Definition number_value (n : pynum) : pyval :=
  match n with NBool b => VBool b | NInt z => VInt z | NFloat f => VFloat (float_bits f) end.

Definition as_exact (n : pynum) : option Z :=
  match n with NBool b => Some (Z.b2z b) | NInt z => Some z | NFloat _ => None end.
(** [float(n)] *)
Definition to_float (n : pynum) : result float :=
  match n with NBool b => float_of_int (Z.b2z b) | NInt z => float_of_int z | NFloat f => Ok f end.

(** ** Comparison *)

Definition opposite (c : comparison) : comparison :=
  match c with Lt => Gt | Gt => Lt | Eq => Eq end.

(** An integer against a double, exactly. *)
Definition compare_int_float (z : Z) (f : float) : option comparison :=
  match f with
  | S754_nan => None
  | S754_infinity sign => Some (if sign then Gt else Lt)
  | S754_zero _ => Some (z ?= 0)
  | S754_finite sign m e =>
      let v := if sign then Zneg m else Zpos m in
      Some (if 0 <=? e then z ?= v * 2 ^ e else z * 2 ^ (- e) ?= v)
  end.

(** [None] when an operand is NaN. *)
Definition py_compare (x y : pynum) : option comparison :=
  match as_exact x, as_exact y with
  | Some a, Some b => Some (a ?= b)
  | Some a, None => match y with NFloat f => compare_int_float a f | _ => None end
  | None, Some b => match x with NFloat f => opposite <$> compare_int_float b f | _ => None end
  | None, None => match x, y with NFloat f, NFloat g => SFcompare f g | _, _ => None end
  end.

Definition py_eq (x y : pynum) : bool := match py_compare x y with Some Eq => true | _ => false end.
Definition py_lt (x y : pynum) : bool := match py_compare x y with Some Lt => true | _ => false end.
Definition py_le (x y : pynum) : bool :=
  match py_compare x y with Some Lt | Some Eq => true | _ => false end.
(** [min(x, y)] and [max(x, y)] *)
Definition py_min (x y : pynum) : pynum := if py_lt y x then y else x.
Definition py_max (x y : pynum) : pynum := if py_lt x y then y else x.

(** [bool(n)] *)
Definition number_truth (n : pynum) : bool :=
  match n with
  | NBool b => b
  | NInt z => negb (z =? 0)
  | NFloat (S754_zero _) => false
  | NFloat _ => true
  end.
(** [int(n)] *)
Definition number_int (n : pynum) : result Z :=
  match n with NBool b => Ok (Z.b2z b) | NInt z => Ok z | NFloat f => int_of_float f end.

(** ** Arithmetic *)

Definition lift2 (on_int : Z → Z → result pynum) (on_float : float → float → result pynum)
    (x y : pynum) : result pynum :=
  match as_exact x, as_exact y with
  | Some a, Some b => on_int a b
  | _, _ => f ← to_float x; g ← to_float y; on_float f g
  end.

Definition py_add : pynum → pynum → result pynum :=
  lift2 (λ a b, Ok (NInt (a + b))) (λ f g, Ok (NFloat (float_add f g))).
Definition py_sub : pynum → pynum → result pynum :=
  lift2 (λ a b, Ok (NInt (a - b))) (λ f g, Ok (NFloat (SFsub 53 1024 f g))).
Definition py_mul : pynum → pynum → result pynum :=
  lift2 (λ a b, Ok (NInt (a * b))) (λ f g, Ok (NFloat (float_mul f g))).

Definition is_zero (f : float) : bool := match f with S754_zero _ => true | _ => false end.
Definition is_finite (f : float) : bool :=
  match f with S754_zero _ | S754_finite _ _ _ => true | _ => false end.
Definition sign_of (f : float) : bool :=
  match f with S754_zero s | S754_infinity s | S754_finite s _ _ => s | S754_nan => false end.
Definition is_negative_float (f : float) : bool :=
  match SFcompare f (S754_zero false) with Some Lt => true | _ => false end.

Definition zero_division {A} : result A := raise ZeroDivisionError "division by zero".

(** [x / y] *)
Definition float_div (f g : float) : result float :=
  if is_zero g then zero_division else Ok (SFdiv 53 1024 f g).
Definition py_div : pynum → pynum → result pynum :=
  lift2 (λ a b,
      if b =? 0 then zero_division
      else match float_div_int a b with
           | S754_infinity _ => raise OverflowError "integer division result too large for a float"
           | f => Ok (NFloat f)
           end)
    (λ f g, q ← float_div f g; Ok (NFloat q)).

(** C's [fmod] on a divisor that is not zero: exact. *)
Definition float_fmod (x y : float) : float :=
  match x, y with
  | S754_nan, _ | _, S754_nan | S754_infinity _, _ | _, S754_zero _ => S754_nan
  | S754_zero _, _ | _, S754_infinity _ => x
  | S754_finite sx mx ex, S754_finite _ my ey =>
      let e := Z.min ex ey in
      let r := (Zpos mx * 2 ^ (ex - e)) mod (Zpos my * 2 ^ (ey - e)) in
      if r =? 0 then S754_zero sx
      else binary_normalize 53 1024 (if sx then - r else r) e sx
  end.

Definition float_floor (x : float) : float :=
  match x with
  | S754_finite sign m e =>
      if 0 <=? e then x
      else binary_normalize 53 1024 ((if sign then Zneg m else Zpos m) / 2 ^ (- e)) 0 false
  | _ => x
  end.

Definition float_one : float := float_div_int 1 1.
Definition float_half : float := float_div_int 1 2.

(** Floor division and modulo of floats, as CPython computes them together. *)
Definition float_divmod (x y : float) : result (float * float) :=
  if is_zero y then zero_division
  else
    let m := float_fmod x y in
    let d := SFdiv 53 1024 (SFsub 53 1024 x m) y in
    let '(d, m) :=
      if is_zero m then (d, S754_zero (sign_of y))
      else if xorb (is_negative_float y) (is_negative_float m) then
        (SFsub 53 1024 d float_one, float_add m y)
      else (d, m) in
    let q :=
      if is_zero d then S754_zero (sign_of (SFdiv 53 1024 x y))
      else
        let fl := float_floor d in
        match SFcompare (SFsub 53 1024 d fl) float_half with
        | Some Gt => float_add fl float_one
        | _ => fl
        end in
    Ok (q, m).

Definition py_floordiv : pynum → pynum → result pynum :=
  lift2 (λ a b, if b =? 0 then zero_division else Ok (NInt (a / b)))
    (λ f g, '(q, _) ← float_divmod f g; Ok (NFloat q)).
Definition py_mod : pynum → pynum → result pynum :=
  lift2 (λ a b, if b =? 0 then zero_division else Ok (NInt (a mod b)))
    (λ f g, '(_, m) ← float_divmod f g; Ok (NFloat m)).

(** [math.ceil] *)
Definition float_ceil (x : float) : result Z :=
  match x with
  | S754_zero _ => Ok 0
  | S754_finite sign m e =>
      let v := if sign then Zneg m else Zpos m in
      Ok (if 0 <=? e then v * 2 ^ e else - ((- v) / 2 ^ (- e)))
  | S754_infinity _ => raise OverflowError "cannot convert float infinity to integer"
  | S754_nan => raise ValueError "cannot convert float NaN to integer"
  end.

Example divmod_examples :
  ((λ '(q, m), (float_bits q, float_bits m)) <$> float_divmod (float_div_int 7 2) (float_div_int (-2) 1))
    = Ok (float_bits (float_div_int (-2) 1), float_bits (float_div_int (-1) 2)) ∧
  ((λ '(q, m), (float_bits q, float_bits m)) <$> float_divmod (float_div_int 1 1) (float_div_int 1 10))
    = Ok (float_bits (float_div_int 9 1), float_bits (float_of_bits 0x3fb9999999999996)).
Proof. split; vm_compute; reflexivity. Qed.
Example float_bits_roundtrip :
  float_bits <$> (float_of_bits <$> [0x3fb999999999999a; 1; 0xfff0000000000000; 0x8000000000000000]) =
  [0x3fb999999999999a; 1; 0xfff0000000000000; 0x8000000000000000].
Proof. vm_compute. reflexivity. Qed.
Example ceil_examples :
  float_ceil (float_div_int 7 2) = Ok 4 ∧ float_ceil (float_div_int (-7) 2) = Ok (-3) ∧
  py_lt (NInt (2 ^ 53 + 1)) (NFloat (float_div_int (2 ^ 53) 1)) = false ∧
  py_lt (NFloat (float_div_int (2 ^ 53) 1)) (NInt (2 ^ 53 + 1)) = true.
Proof. repeat split; vm_compute; reflexivity. Qed.

(** ** The order of floats *)

(** Floats that are not NaN compare as their ranks: sign, then exponent, then mantissa. *)
Definition rank (f : float) : Z * (Z * Z) :=
  match f with
  | S754_infinity true => (-2, (0, 0))
  | S754_finite true m e => (-1, (- e, Zneg m))
  | S754_zero _ | S754_nan => (0, (0, 0))
  | S754_finite false m e => (1, (e, Zpos m))
  | S754_infinity false => (2, (0, 0))
  end.
Definition rank_eqb (x y : Z * (Z * Z)) : bool := bool_decide (x = y).
Definition rank_leb : Z * (Z * Z) → Z * (Z * Z) → bool := pair_leb Z.eqb Z.leb (pair_leb Z.eqb Z.leb Z.leb).
#[export] Instance rank_leb_order : LebOrder rank_leb.
Proof. apply pair_leb_order; [apply _|apply pair_leb_order; [apply _..|apply Z.eqb_spec]|apply Z.eqb_spec]. Qed.

Ltac split_compare :=
  repeat match goal with
  | |- context [Z.eqb ?a ?b] => destruct (Z.eqb_spec a b)
  | |- context [Z.leb ?a ?b] => destruct (Z.leb_spec a b)
  | |- context [Z.compare ?a ?b] => destruct (Z.compare_spec a b)
  end; try done; try lia.
Lemma float_rank x y : x ≠ S754_nan → y ≠ S754_nan →
  SFeqb x y = rank_eqb (rank x) (rank y) ∧ SFleb x y = rank_leb (rank x) (rank y).
Proof.
  intros Hx Hy. unfold SFeqb, SFleb, rank_eqb, rank_leb, pair_leb.
  assert (∀ a b : Z * (Z * Z), bool_decide (a = b) = (a.1 =? b.1) && ((a.2.1 =? b.2.1) && (a.2.2 =? b.2.2))) as ->.
  { intros [a1 [a2 a3]] [b1 [b2 b3]]. cbn. case_bool_decide as E; [injection E as -> -> ->; by rewrite !Z.eqb_refl|].
    symmetry. apply not_true_is_false. intros (?%Z.eqb_eq & (?%Z.eqb_eq & ?%Z.eqb_eq)%andb_true_iff)%andb_true_iff. congruence. }
  destruct x as [[]|[]| |[] m e], y as [[]|[]| |[] m' e']; try done; cbn [SFcompare rank fst snd];
    change (Pos.compare_cont Eq m m') with (Z.pos m ?= Z.pos m'); split; split_compare.
Qed.
