(* ===== verification/Numpy.v ===== *)
(** The interface to NumPy, which the executor computes element values with.

    An array is its element type, its shape and its elements in C order.  Reading a shape, an
    element, or the elements under another shape is defined here, on that representation;
    everything that computes is a parameter: the class [Numpy] gives the element types, the
    conversions to and from bytes and Python numbers, and the functions by name. *)

From S2P Require Import Prelude PyDict PyStr Errors Values Layout.
Local Open Scope string_scope.
Local Open Scope Z_scope.
Local Open Scope list_scope.

Record typed_array (D E : Type) := Arr { ar_dtype : D; ar_nd : ndarray E }.
Arguments Arr {D E}.
Arguments ar_dtype {D E}.
Arguments ar_nd {D E}.

(** What the code passes to NumPy: arrays, Python values, element types, sequences of arrays. *)
Inductive np_arg_of (D E : Type) :=
| AArr (a : typed_array D E)
| APy (v : pyval)
| ADtype (d : D)
| AArrs (l : list (typed_array D E)).
Arguments AArr {D E}.
Arguments APy {D E}.
Arguments ADtype {D E}.
Arguments AArrs {D E}.

Class Numpy := {
  dtype : Type;
  #[global] dtype_eq_dec :: EqDecision dtype;
  elt : Type;
  np_dtype : string → option dtype;        (* [np.dtype(name)], or a [TypeError] *)
  ml_bfloat16 : option dtype;              (* [ml_dtypes.bfloat16], if the package is there *)
  dtype_itemsize : dtype → Z;              (* [dtype.itemsize] *)
  is_integer : dtype → bool;               (* [np.issubdtype(dtype, np.integer)] *)
  np_zero : dtype → elt;                   (* the element of [np.zeros] *)
  np_frombuffer : dtype → list Z → result (list elt);
  np_tobytes : typed_array dtype elt → list Z;
  np_item : dtype → elt → pyval;           (* [element.item()] *)
  np_asarray : np_arg_of dtype elt → option dtype → result (typed_array dtype elt);
  np_call : string → list (np_arg_of dtype elt) → result (typed_array dtype elt);
}.

Abbreviation array := (typed_array dtype elt).
Abbreviation np_arg := (np_arg_of dtype elt).

Section arrays.
Context {NP : Numpy}.

Definition ar_shape (a : array) : list Z := nd_shape (ar_nd a).
Definition ar_data (a : array) : list elt := nd_data (ar_nd a).
(** [a.size], [a.ndim] *)
Definition ar_size (a : array) : Z := prod_list (ar_shape a).
Definition ar_ndim (a : array) : Z := Z.of_nat (length (ar_shape a)).
(** [a.shape[i]] *)
Definition shape_at (a : array) (i : nat) : result Z :=
  match ar_shape a !! i with Some n => Ok n | None => raise IndexError "shape" end.

Definition mk_array (d : dtype) (shape : list Z) (data : list elt) : array := Arr d (NdArray shape data).

(** [a.reshape(shape)] and [a.reshape(-1)] *)
Definition reshape (a : array) (shape : list Z) : result array :=
  if prod_list shape =? ar_size a then Ok (mk_array (ar_dtype a) shape (ar_data a))
  else raise ValueError "cannot reshape array".
Definition flatten (a : array) : array := mk_array (ar_dtype a) [ar_size a] (ar_data a).

(** [np.zeros(shape, dtype)] *)
Definition np_zeros (shape : list Z) (d : dtype) : result array :=
  if existsb (λ e, e <? 0) shape then raise ValueError "negative dimensions are not allowed"
  else Ok (mk_array d shape (replicate (Z.to_nat (prod_list shape)) (np_zero d))).

(** The element with the given offset in C order, as a NumPy scalar. *)
Definition element (a : array) (i : Z) : result elt := get_index (ar_data a) i.
Definition scalar_at (a : array) (i : Z) : result array :=
  x ← element a i; Ok (mk_array (ar_dtype a) [] [x]).

(** [a.astype(dtype)] *)
Definition astype (a : array) (d : dtype) : result array := np_call "astype" [AArr a; ADtype d].

(** Elements as Python integers: [int(x)] *)
Definition int_of_value (v : pyval) : result Z :=
  match v with
  | VInt z => Ok z
  | VBool b => Ok (Z.b2z b)
  | _ => raise TypeError "int"
  end.
Definition ints_of (a : array) : result (list Z) :=
  omap_list (λ x, int_of_value (np_item (ar_dtype a) x)) (ar_data a).

(** [np.any(a)] on a boolean array. *)
Definition any_true (a : array) : bool :=
  existsb (λ x, bool_decide (np_item (ar_dtype a) x = VBool true)) (ar_data a).

Definition ar_wf (a : array) : Prop := nd_wf (ar_nd a).
End arrays.
