(* ===== verification/ExecEnv.v ===== *)
(** How the executor ([executor.py]) reaches memory: the simulator object, the resolution of a
    buffer region to a view, and typed reads and writes through it. *)

From S2P Require Import Prelude PyDict PySort PyStr Errors Values Layout Program Trace Config Hazard.
From S2P Require Import Intervals MemoryView Memory PyFloat PyNum Numpy.
Local Open Scope string_scope.
Local Open Scope Z_scope.
Local Open Scope list_scope.

(** ** Metadata *)

(** [task.metadata.get(key)] and [key in task.metadata] *)
Definition task_meta (t : Task) (key : string) : pyval := dget_default VNone (metadata t) key.
Definition has_meta (t : Task) (key : string) : bool := dmem (metadata t) key.

(** A mapping stored in the metadata; [details.get(key)] and [details[key]]. *)
Abbreviation mapping := (dict string pyval).
Definition mget (d : mapping) (key : string) : pyval := dget_default VNone d key.
Definition mindex (d : mapping) (key : string) : result pyval :=
  match dget d key with Some v => Ok v | None => raise_with KeyError "metadata" [key] end.

(** [task.metadata.get(key, {})], used as a mapping. *)
Definition mapping_of (v : pyval) : result mapping :=
  match v with VDict d => Ok d | _ => raise TypeError "mapping" end.
Definition meta_mapping (t : Task) (key : string) : result mapping :=
  match dget (metadata t) key with None => Ok [] | Some v => mapping_of v end.
(** [isinstance(task.metadata.get(key), Mapping)], or the error the handler raises *)
Definition required_mapping (t : Task) (key : string) : result mapping :=
  match task_meta t key with
  | VDict d => Ok d
  | _ => raise_with ProgramValidationError "requires metadata" [task_id t; key]
  end.

(** [tuple(v)] and a list or tuple that is there *)
Definition as_sequence (v : pyval) : option (list pyval) :=
  match v with VTuple l | VList l => Some l | _ => None end.
Definition sequence_of (v : pyval) : result (list pyval) :=
  match as_sequence v with Some l => Ok l | None => raise TypeError "tuple" end.
(** Python integers used as extents, indices and strings used as names. *)
Definition int_of (v : pyval) : result Z :=
  match as_integral v with Some z => Ok z | None => raise TypeError "integer" end.
Definition ints_in (v : pyval) : result (list Z) := l ← sequence_of v; omap_list int_of l.
Definition str_of_value (v : pyval) : result string :=
  match v with VStr s => Ok s | _ => raise TypeError "string" end.

(** [value is True] *)
Definition is_true (v : pyval) : bool := match v with VBool true => true | _ => false end.

#[global] Instance BufferRegion_eq_dec : EqDecision BufferRegion.
Proof. solve_decision. Defined.

Definition as_region (v : pyval) : option BufferRegion :=
  match v with VRegion r => Some r | _ => None end.

(** [_operand] *)
Definition operand (t : Task) (name : string) : result BufferRegion :=
  match as_region (task_meta t name) with
  | Some r => Ok r
  | None => raise_with ProgramValidationError "requires BufferRegion metadata" [task_id t; name]
  end.

(** One key of [_metadata_regions] *)
Definition regions_under (t : Task) (name : string) : list BufferRegion :=
  if (mem_str name ["src"] && bool_decide (is_Some (as_sequence (task_meta t "src_regions")))) ||
     (mem_str name ["dst"] && bool_decide (is_Some (as_sequence (task_meta t "dst_regions"))))
  then []
  else match task_meta t name with
  | VRegion r => [r]
  | VTuple l | VList l => omap as_region l
  | _ => []
  end.
(** [_metadata_regions] *)
Definition metadata_regions (t : Task) (names : list string) : list BufferRegion :=
  flat_map (regions_under t) names.

(** ** The simulator *)

(** The attributes of [FunctionalSimulator] that its operations read; the memory runtime is the
    state of the operations, and [sim_lane] is [_active_lane]. *)
Record Simulator := MkSim {
  sim_program : KernelProgram;
  sim_config : SimulatorConfig;
  sim_bindings : bindings;
  sim_lane : option Lane;
}.
Definition on_lane (l : option Lane) (sim : Simulator) : Simulator :=
  MkSim (sim_program sim) (sim_config sim) (sim_bindings sim) l.

(** [_resolve_int] *)
Definition resolve_int (b : bindings) (value : pyval) : result Z :=
  match value with
  | VAffine _ | VSym _ _ => evaluate_runtime_int value b
  | VInt z => Ok z
  | _ => raise ProgramValidationError "simulator integer value is not executable"
  end.
(** [_resolve_number] *)
Definition resolve_number (b : bindings) (value : pyval) : result pyval :=
  match value with
  | VAffine _ | VSym _ _ => z ← evaluate_runtime_int value b; Ok (VInt z)
  | VInt _ | VFloat _ => Ok value
  | _ => raise ProgramValidationError "simulator numeric value is not executable"
  end.
Definition resolve_ints (b : bindings) (values : list pyval) : result (list Z) :=
  omap_list (resolve_int b) values.
(** [_resolve_int(details[key], self.bindings)] and [_resolve_int(metadata.get(key), ...)] *)
Definition resolve_key (b : bindings) (d : mapping) (key : string) : result Z :=
  v ← mindex d key; resolve_int b v.
Definition resolve_meta (b : bindings) (t : Task) (key : string) : result Z :=
  resolve_int b (task_meta t key).

(** The owner of the memory a region names. *)
Definition region_owner (sim : Simulator) (s : MemoryRuntime) (region : BufferRegion) (core : Z)
    : result Owner :=
  if is_shared (rg_scope region) then Ok None
  else if bool_decide (sim_lane sim = Some VECTOR_1) then o ← vector1_owner s core; Ok (Some o)
  else Ok (Some (default core (rg_core_id region))).

(** [_resolve] *)
Definition resolve_in (sim : Simulator) (s : MemoryRuntime) (region : BufferRegion) (core : Z)
    : result (MemoryAllocation * MemoryView) :=
  owner ← region_owner sim s region core;
  allocation ← get s (rg_buffer region) (rg_scope region) owner;
  shape ← resolve_ints (sim_bindings sim) (rg_shape region);
  byte_offset ← resolve_int (sim_bindings sim) (rg_byte_offset region);
  strides ← match rg_strides_bytes region with
            | None => Ok None
            | Some l => st ← resolve_ints (sim_bindings sim) l; Ok (Some st)
            end;
  v ← alloc_view allocation byte_offset (Some (VInt <$> shape)) (Some (rg_dtype region)) strides;
  Ok (allocation, v).

Definition resolve (sim : Simulator) (region : BufferRegion) (core : Z)
    : memM (MemoryAllocation * MemoryView) :=
  λ s, (s, resolve_in sim s region core).

Section access.
Context {NP : Numpy}.

(** [_numpy_dtype] *)
Definition numpy_dtype (name : string) : result dtype :=
  let normalized := normalize name in
  if contains "x" normalized then raise_with UnsupportedSimOpError "vector-packed dtype" [name]
  else if mem_str normalized ["bfloat16"] then
    match ml_bfloat16 with
    | Some d => Ok d
    | None => raise UnsupportedSimOpError "bfloat16 simulation requires the ml_dtypes package"
    end
  else match np_dtype normalized with
  | Some d => Ok d
  | None => raise_with UnsupportedSimOpError "NumPy cannot represent simulator dtype" [name]
  end.

(** [np.float64] and the other types the code names *)
Definition builtin_dtype (name : string) : result dtype :=
  match np_dtype name with Some d => Ok d | None => raise AttributeError "numpy" end.

(** [write]: the value is converted to the region's type and must have the region's shape. *)
Definition write_region (sim : Simulator) (region : BufferRegion) (values : np_arg) (core : Z)
    : memM unit :=
  av ← resolve sim region core;
  d ← st_lift (numpy_dtype (rg_dtype region));
  a ← st_lift (np_asarray values (Some d));
  _ ← st_lift (ensure (bool_decide (ar_shape a = mv_shape av.2)) ProgramValidationError "input shape");
  Memory.write av.1 (TView av.2) (np_tobytes a).

(** The array a view's bytes represent: [np.frombuffer(payload, dtype).reshape(view.shape)] *)
Definition array_of_bytes (name : string) (shape : list Z) (payload : list Z) : result array :=
  d ← numpy_dtype name;
  data ← np_frombuffer d payload;
  reshape (mk_array d [Z.of_nat (length data)] data) shape.

(** [read] *)
Definition read_region (sim : Simulator) (region : BufferRegion) (core : Z) : memM array :=
  _ ← st_lift (ensure (negb (sync_only (sim_config sim))) UnsupportedSimOpError "numeric results are unavailable");
  av ← resolve sim region core;
  payload ← Memory.read av.1 (TView av.2);
  st_lift (array_of_bytes (rg_dtype region) (mv_shape av.2) payload).
End access.

(** A region with other offsets or extents: [replace(region, shape=..., byte_offset=...)], which
    validates again. *)
Definition region_with (region : BufferRegion) (shape : list pyval) (byte_offset : pyval)
    : result BufferRegion :=
  buffer_region_init (rg_buffer region) (scope_value (rg_scope region)) shape (rg_dtype region)
    byte_offset (rg_strides_bytes region) (rg_core_id region).
