(* ===== verification/ExecOps.v ===== *)
(** The element-wise operations of the executor ([executor.py]): copies and pads, binary and
    unary vector operations, casts, fills, sequences, comparison masks, selects and clamps.

    A handler reads its operand regions, calls NumPy and writes its destination region; it is a
    [memM] program over the memory runtime.  [self.read(region, task_core_id=task.core_id)] is
    [rd], [self.write] is [wr]. *)

From S2P Require Import Prelude PyDict PySort PyStr Errors Values Layout Program Trace Config Hazard.
From S2P Require Import Intervals MemoryView Memory PyFloat PyNum Numpy ExecEnv.
Local Open Scope string_scope.
Local Open Scope Z_scope.
Local Open Scope list_scope.

(** ** Dispatch tables: an operation name and the NumPy function it means *)

Definition BINARY_OPERATIONS : dict string string :=
  [("add", "add"); ("sub", "subtract"); ("mul", "multiply"); ("div", "divide"); ("max", "maximum");
   ("min", "minimum"); ("pow", "power"); ("sub_experiment", "subtract")].
Definition SCALAR_OPERATIONS : dict string string :=
  [("adds", "add"); ("subs", "subtract"); ("muls", "multiply"); ("divs", "divide");
   ("maxs", "maximum"); ("mins", "minimum"); ("leaky_relu", "leaky_relu");
   ("mins_experiment", "minimum")].
Definition UNARY_OPERATIONS : dict string string :=
  [("abs", "abs"); ("abs_experiment", "abs"); ("exp", "exp"); ("exp_experiment", "exp");
   ("ln", "log"); ("reciprocal", "reciprocal"); ("relu", "relu"); ("rsqrt", "rsqrt");
   ("sqrt", "sqrt"); ("sigmoid", "sigmoid"); ("silu", "silu"); ("sin", "sin"); ("cos", "cos");
   ("round", "round")].
Definition REDUCE_OPERATIONS : dict string string :=
  [("reduce_max", "max"); ("reduce_min", "min"); ("reduce_sum", "sum")].
Definition COMPARE_OPERATIONS : dict string string :=
  [("EQ", "equal"); ("NE", "not_equal"); ("GT", "greater"); ("GE", "greater_equal");
   ("LT", "less"); ("LE", "less_equal")].
Definition BITWISE_BINARY_OPERATIONS : dict string string :=
  [("bitwise_and", "bitwise_and"); ("bitwise_or", "bitwise_or"); ("bitwise_xor", "bitwise_xor")].
Definition ROW_EXPAND_OPERATIONS : dict string string :=
  [("row_expand_mul_experiment", "multiply"); ("row_expand_sub_experiment", "subtract");
   ("row_expand_div_experiment", "divide")].

Definition is_number (v : pyval) : bool := bool_decide (is_Some (as_number v)).
Definition half_value : pyval := VFloat (float_bits float_half).

Section ops.
Context {NP : Numpy} (sim : Simulator).
Let b := sim_bindings sim.

(** [self.read] and [self.write] on behalf of a task, and on a named operand of it. *)
Definition rd (t : Task) (region : BufferRegion) : memM array := read_region sim region (core_id t).
Definition wr (t : Task) (region : BufferRegion) (values : np_arg) : memM unit :=
  write_region sim region values (core_id t).
Definition op (t : Task) (name : string) : memM BufferRegion := st_lift (operand t name).

(** A slice as an index of NumPy, with absent bounds as [None]. *)
Definition slice (start stop : option Z) : pyval :=
  VTuple [from_option VInt VNone start; from_option VInt VNone stop].
Definition getitem (a : array) (index : list pyval) : result array :=
  np_call "getitem" [AArr a; APy (VTuple index)].
Definition setitem (a : array) (index : list pyval) (values : array) : result array :=
  np_call "setitem" [AArr a; APy (VTuple index); AArr values].

(** ** Binary and unary operations *)

(** The functions of [_BINARY_OPERATIONS] and [_SCALAR_OPERATIONS]. *)
Definition binary_function (name : string) (value other : np_arg) : result array :=
  if mem_str name ["leaky_relu"] then
    positive ← np_call "greater_equal" [value; APy (VInt 0)];
    scaled ← np_call "multiply" [value; other];
    np_call "where" [AArr positive; value; AArr scaled]
  else np_call name [value; other].

(** The functions of [_UNARY_OPERATIONS]. *)
Definition round_half_away (value : array) : result array :=
  magnitude ← np_call "abs" [AArr value];
  shifted ← np_call "add" [AArr magnitude; APy half_value];
  floored ← np_call "floor" [AArr shifted];
  np_call "copysign" [AArr floored; AArr value].
Definition sigmoid (value : array) : result array :=
  negated ← np_call "negative" [AArr value];
  softplus ← np_call "logaddexp" [APy (VInt 0); AArr negated];
  exponent ← np_call "negative" [AArr softplus];
  np_call "exp" [AArr exponent].
Definition unary_function (name : string) (value : array) : result array :=
  if mem_str name ["reciprocal"] then np_call "divide" [APy (VInt 1); AArr value]
  else if mem_str name ["relu"] then np_call "maximum" [AArr value; APy (VInt 0)]
  else if mem_str name ["rsqrt"] then
    root ← np_call "sqrt" [AArr value]; np_call "divide" [APy (VInt 1); AArr root]
  else if mem_str name ["sigmoid"] then sigmoid value
  else if mem_str name ["silu"] then
    gate ← sigmoid value; np_call "multiply" [AArr value; AArr gate]
  else if mem_str name ["round"] then round_half_away value
  else np_call name [AArr value].

(** The first element of a region, as a NumPy scalar. *)
Definition first_element (a : array) : result array := scalar_at (flatten a) 0.

(** The second operand of a vector operation: a region, the first element of a region, or a
    scalar of the metadata; [lookup] lets a string name a runtime binding. *)
Definition right_operand (t : Task) (scalar_src lookup : bool) (label : string) : memM np_arg :=
  match as_region (task_meta t "rhs") with
  | Some rhs => a ← rd t rhs; mret (AArr a)
  | None =>
      match (if scalar_src then as_region (task_meta t "scalar_src") else None) with
      | Some source => a ← rd t source; x ← st_lift (first_element a); mret (AArr x)
      | None =>
          if has_meta t "scalar" then
            let v := task_meta t "scalar" in
            mret (APy (match v with
                       | VStr name => if lookup then default v (dget b name) else v
                       | _ => v end))
          else st_raise (Exn ProgramValidationError label [task_id t])
      end
  end.

(** [_binary] *)
Definition binary (t : Task) (operation : string) : memM unit :=
  left ← op t "lhs";
  destination ← op t "dst";
  left_values ← rd t left;
  right_values ← right_operand t true true "requires a BufferRegion 'rhs' or scalar";
  name ← st_lift (match dget BINARY_OPERATIONS operation with
                  | Some f => Ok f
                  | None => match dget SCALAR_OPERATIONS operation with
                            | Some f => Ok f | None => raise KeyError "operation" end
                  end);
  result ← st_lift (binary_function name (AArr left_values) right_values);
  wr t destination (AArr result).

(** [_unary] *)
Definition unary (t : Task) (operation : string) : memM unit :=
  source ← op t "src";
  destination ← op t "dst";
  values ← rd t source;
  name ← st_lift (match dget UNARY_OPERATIONS operation with
                  | Some f => Ok f | None => raise KeyError "operation" end);
  result ← st_lift (unary_function name values);
  wr t destination (AArr result).

(** [_axpy] *)
Definition axpy (t : Task) : memM unit :=
  source ← op t "lhs";
  destination ← op t "dst";
  accumulator ← op t "accumulator";
  let scalar := task_meta t "scalar" in
  _ ← st_lift (ensure (is_number scalar) UnsupportedSimOpError "functional axpy requires a literal scalar");
  source_values ← rd t source;
  accumulator_values ← rd t accumulator;
  scaled ← st_lift (np_call "multiply" [APy scalar; AArr source_values]);
  result ← st_lift (np_call "add" [AArr scaled; AArr accumulator_values]);
  wr t destination (AArr result).

(** [_mul_add_dst] *)
Definition mul_add_dst (t : Task) : memM unit :=
  left ← op t "lhs";
  right ← op t "rhs";
  destination ← op t "dst";
  accumulator ← op t "accumulator";
  x ← rd t left;
  y ← rd t right;
  product ← st_lift (np_call "multiply" [AArr x; AArr y]);
  z ← rd t accumulator;
  result ← st_lift (np_call "add" [AArr product; AArr z]);
  wr t destination (AArr result).

(** [_bitwise_binary] *)
Definition bitwise_binary (t : Task) (operation : string) : memM unit :=
  destination ← op t "dst";
  left ← op t "lhs";
  right ← op t "rhs";
  name ← st_lift (match dget BITWISE_BINARY_OPERATIONS operation with
                  | Some f => Ok f | None => raise KeyError "operation" end);
  x ← rd t left;
  y ← rd t right;
  result ← st_lift (np_call name [AArr x; AArr y]);
  wr t destination (AArr result).

(** [_bitwise_not] *)
Definition bitwise_not (t : Task) : memM unit :=
  destination ← op t "dst";
  source ← op t "src";
  values ← rd t source;
  result ← st_lift (np_call "bitwise_not" [AArr values]);
  wr t destination (AArr result).

(** [_bitwise_shift] *)
Definition bitwise_shift (t : Task) (operation : string) : memM unit :=
  destination ← op t "dst";
  source ← op t "src";
  values ← rd t source;
  shift ← st_lift (resolve_meta b t "shift");
  let bits := dtype_itemsize (ar_dtype values) * 8 in
  _ ← st_lift (ensure (negb ((shift <? 0) || (bits <? shift))) ProgramValidationError "bitwise shift");
  shifted ← st_lift (np_call (if mem_str operation ["bitwise_lshift"] then "left_shift" else "right_shift")
                       [AArr values; APy (VInt shift)]);
  result ← st_lift (astype shifted (ar_dtype values));
  wr t destination (AArr result).

(** ** Casts, fills and sequences *)

(** The rounding of [_cast] *)
Definition cast_values (round_mode : pyval) (to_integer : bool) (values : array) : result array :=
  match round_mode with
  | VStr mode =>
      if mem_str mode ["CAST_NONE"] then Ok values
      else if mem_str mode ["CAST_RINT"] then
        if to_integer then np_call "rint" [AArr values] else Ok values
      else if mem_str mode ["CAST_FLOOR"] then np_call "floor" [AArr values]
      else if mem_str mode ["CAST_CEIL"] then np_call "ceil" [AArr values]
      else if mem_str mode ["CAST_ROUND"] then round_half_away values
      else if mem_str mode ["CAST_TRUNC"] then np_call "trunc" [AArr values]
      else raise UnsupportedSimOpError "functional cast does not support round mode"
  | _ => raise UnsupportedSimOpError "functional cast does not support round mode"
  end.

(** [_cast] *)
Definition cast (t : Task) : memM unit :=
  source ← op t "src";
  destination ← op t "dst";
  values ← rd t source;
  d ← st_lift (numpy_dtype (rg_dtype destination));
  result ← st_lift (cast_values (task_meta t "round_mode") (is_integer d) values);
  wr t destination (AArr result).

(** [np.full(shape, value, dtype)] for a region *)
Definition full_of (region : BufferRegion) (value : pyval) : result array :=
  shape ← resolve_ints b (rg_shape region);
  d ← numpy_dtype (rg_dtype region);
  np_call "full" [APy (VTuple (VInt <$> shape)); APy value; ADtype d].

(** [_fill] *)
Definition fill (t : Task) : memM unit :=
  destination ← op t "dst";
  let scalar := task_meta t "scalar" in
  _ ← st_lift (ensure (is_number scalar) UnsupportedSimOpError "functional fill requires a literal scalar");
  result ← st_lift (full_of destination scalar);
  wr t destination (AArr result).

(** [_sequence] *)
Definition sequence (t : Task) : memM unit :=
  destination ← op t "dst";
  count ← st_lift (resolve_meta b t "count");
  first ← st_lift (resolve_number b (task_meta t "first_value"));
  difference ← st_lift (resolve_number b (task_meta t "difference"));
  int64 ← st_lift (builtin_dtype "int64");
  indices ← st_lift (np_call "arange" [APy (VInt count); ADtype int64]);
  steps ← st_lift (np_call "multiply" [APy difference; AArr indices]);
  values ← st_lift (np_call "add" [APy first; AArr steps]);
  d ← st_lift (numpy_dtype (rg_dtype destination));
  result ← st_lift (np_asarray (AArr values) (Some d));
  wr t destination (AArr result).

(** [_clamp] *)
Definition clamp (t : Task) (operation : string) : memM unit :=
  source ← op t "src";
  destination ← op t "dst";
  values ← rd t source;
  result ← st_lift
    (if mem_str operation ["clamp"] then
       match as_number (task_meta t "min_value"), as_number (task_meta t "max_value") with
       | Some minimum, Some maximum =>
           _ ← ensure (negb (py_lt maximum minimum)) ProgramValidationError "clamp minimum exceeds maximum";
           np_call "clip" [AArr values; APy (task_meta t "min_value"); APy (task_meta t "max_value")]
       | _, _ => raise UnsupportedSimOpError "functional clamp requires literal bounds"
       end
     else
       let scalar := task_meta t "scalar" in
       _ ← ensure (is_number scalar) UnsupportedSimOpError "requires a literal bound";
       np_call (if mem_str operation ["clamp_max"] then "minimum" else "maximum") [AArr values; APy scalar]);
  wr t destination (AArr result).

(** [_broadcast]; only [np.broadcast_to]'s [ValueError] is translated. *)
Definition broadcast (t : Task) : memM unit :=
  source ← op t "src";
  destination ← op t "dst";
  values ← rd t source;
  shape ← st_lift (resolve_ints b (rg_shape destination));
  result ← st_lift
    (match np_call "broadcast_to" [AArr values; APy (VTuple (VInt <$> shape))] with
     | Ok a => Ok a
     | Raise e => if is_subclass (exn_cls e) ValueError
                  then raise ProgramValidationError "cannot broadcast" else Raise e
     end);
  wr t destination (AArr result).

(** [_transpose] *)
Definition transpose (t : Task) : memM unit :=
  destination ← op t "dst";
  source ← op t "src";
  values ← rd t source;
  result ← st_lift (np_call "transpose" [AArr values]);
  wr t destination (AArr result).

(** [_reinterpretcast] *)
Definition reinterpretcast (t : Task) : memM unit :=
  destination ← op t "dst";
  source ← op t "src";
  if truthy (task_meta t "materialize_view") then
    values ← rd t source;
    d ← st_lift (numpy_dtype (rg_dtype destination));
    viewed ← st_lift (np_call "view" [AArr values; ADtype d]);
    shape ← st_lift (omap_list int_of (rg_shape destination));
    result ← st_lift (reshape viewed shape);
    wr t destination (AArr result)
  else alias (rg_buffer destination) (rg_buffer source) (rg_scope destination) (Some (core_id t)).

(** ** Masks *)

(** [_COMPARE_OPERATIONS.get(mode)] *)
Definition compare_function (mode : pyval) (label : string) : result string :=
  match mode with
  | VStr s => match dget COMPARE_OPERATIONS s with
              | Some f => Ok f | None => raise UnsupportedSimOpError label end
  | _ => raise UnsupportedSimOpError label
  end.

(** [np.packbits(..., bitorder="little")] and [np.unpackbits], along an axis or flattened *)
Definition packbits (a : array) (axis : pyval) : result array := np_call "packbits" [AArr a; APy axis].
Definition unpackbits (a : array) (axis : pyval) : result array :=
  uint8 ← builtin_dtype "uint8";
  bytes ← np_asarray (AArr a) (Some uint8);
  np_call "unpackbits" [AArr (match axis with VNone => flatten bytes | _ => bytes end); APy axis].

(** [_compare] *)
Definition compare (t : Task) : memM unit :=
  left ← op t "lhs";
  destination ← op t "dst";
  left_values ← rd t left;
  right_values ← right_operand t true false "compare requires rhs or scalar metadata";
  name ← st_lift (compare_function (task_meta t "compare_mode") "unsupported compare mode");
  predicate ← st_lift (np_call name [AArr left_values; right_values]);
  packed ← st_lift (packbits (flatten predicate) VNone);
  shape ← st_lift (resolve_ints b (rg_shape destination));
  let required := prod_list shape in
  _ ← st_lift (ensure (ar_size packed <=? required) ProgramValidationError "packed compare result");
  d ← st_lift (numpy_dtype (rg_dtype destination));
  zeros ← st_lift (np_zeros [required] d);
  filled ← st_lift (setitem zeros [slice None (Some (ar_size packed))] packed);
  result ← st_lift (reshape filled shape);
  wr t destination (AArr result).

(** [_select] *)
Definition select (t : Task) : memM unit :=
  mask ← op t "mask";
  left ← op t "lhs";
  destination ← op t "dst";
  mask_values ← rd t mask;
  left_values ← rd t left;
  unpacked ← st_lift (unpackbits mask_values VNone);
  _ ← st_lift (ensure (ar_size left_values <=? ar_size unpacked) ProgramValidationError "select mask");
  bits ← st_lift (getitem unpacked [slice None (Some (ar_size left_values))]);
  shaped ← st_lift (reshape bits (ar_shape left_values));
  boolean ← st_lift (builtin_dtype "bool");
  predicate ← st_lift (astype shaped boolean);
  right_values ← right_operand t true false "select requires rhs, scalar_src, or scalar metadata";
  result ← st_lift (np_call "where" [AArr predicate; AArr left_values; right_values]);
  wr t destination (AArr result).

(** [_tail_compare] *)
Definition tail_compare (t : Task) : memM unit :=
  left ← op t "lhs";
  destination ← op t "dst";
  left_values ← rd t left;
  right_values ← right_operand t false false "tail compare requires rhs or scalar metadata";
  name ← st_lift (compare_function (task_meta t "compare_mode") "unsupported tail compare mode");
  predicate ← st_lift (np_call name [AArr left_values; right_values]);
  _ ← st_lift (ensure (ar_ndim predicate =? 2) ProgramValidationError "tail compare requires a 2D valid rectangle");
  packed ← st_lift (packbits predicate (VInt 1));
  wr t destination (AArr packed).

(** [_tail_select] *)
Definition tail_select (t : Task) : memM unit :=
  mask ← op t "mask";
  left ← op t "lhs";
  destination ← op t "dst";
  mask_values ← rd t mask;
  left_values ← rd t left;
  _ ← st_lift (ensure ((ar_ndim mask_values =? 2) && (ar_ndim left_values =? 2))
                 ProgramValidationError "tail select requires 2D mask and source valid rectangles");
  unpacked ← st_lift (unpackbits mask_values (VInt 1));
  bits ← st_lift (shape_at unpacked 1);
  cols ← st_lift (shape_at left_values 1);
  _ ← st_lift (ensure (cols <=? bits) ProgramValidationError "tail select mask row");
  valid ← st_lift (getitem unpacked [slice None None; slice None (Some cols)]);
  boolean ← st_lift (builtin_dtype "bool");
  predicate ← st_lift (astype valid boolean);
  right_values ← right_operand t false false "tail select requires rhs or scalar metadata";
  result ← st_lift (np_call "where" [AArr predicate; AArr left_values; right_values]);
  wr t destination (AArr result).
End ops.
