(* ===== verification/ExecKernels.v ===== *)
(** The structured operations of the executor ([executor.py]): copies between matrix layouts,
    matrix multiplication, im2col, and the broadcasts of blocks and rows. *)

From S2P Require Import Prelude PyDict PySort PyStr Errors Values Layout Program Trace Config Hazard.
From S2P Require Import Intervals MemoryView Memory PyFloat PyNum Numpy ExecEnv ExecOps.
Local Open Scope string_scope.
Local Open Scope Z_scope.
Local Open Scope list_scope.

Section kernels.
Context {NP : Numpy} (sim : Simulator).
Let b := sim_bindings sim.
Let rd := rd sim.
Let wr := wr sim.

(** ** Matrices in physical layout *)

(** [unpack_matrix(values, layout, shape)] and [pack_matrix(values, layout)] on arrays *)
Definition unpack (values : array) (layout : string) (shape : list Z) : result array :=
  nd ← unpack_matrix (dtype_itemsize (ar_dtype values)) (ar_data values) layout shape;
  Ok (Arr (ar_dtype values) nd).
Definition pack (values : array) (layout : string) : result array :=
  let d := ar_dtype values in
  data ← pack_matrix (np_zero d) (dtype_itemsize d) (ar_nd values) layout;
  Ok (mk_array d [Z.of_nat (length data)] data).

Definition T (a : array) : result array := np_call "transpose" [AArr a].

(** The value converted to another type on assignment. *)
Definition converted (a : array) (d : dtype) : result array := np_asarray (AArr a) (Some d).
Definition converted_scalar (a : array) (d : dtype) : result elt :=
  c ← converted a d; element c 0.

(** A pair or quadruple stored in the metadata. *)
Definition pair_in (d : mapping) (key : string) : result (Z * Z) :=
  v ← mindex d key; l ← ints_in v;
  match l with [x; y] => Ok (x, y) | _ => raise ValueError "unpack" end.
Definition index_at (l : list Z) (i : nat) : result Z :=
  match l !! i with Some z => Ok z | None => raise IndexError "tuple index" end.

(** ** [_copy] *)

(** The regions of a sequence of operands. *)
Definition regions_of (l : list pyval) : result (list BufferRegion) :=
  omap_list (λ v, match as_region v with Some r => Ok r | None => raise AttributeError "region" end) l.

(** The layout transformation between on-chip matrices. *)
Definition layout_transformed (details : mapping) (segmented : bool) (destination : BufferRegion)
    (values : array) : result array :=
  source_shape ← (v ← mindex details "source_shape"; ints_in v);
  destination_shape ← (v ← mindex details "destination_shape"; ints_in v);
  tile ← (if is_true (mget details "source_window_direct") || segmented then Ok values
          else
            layout ← (v ← mindex details "source_layout"; str_of_value v);
            logical ← unpack values layout source_shape;
            '(row, col) ← match dget details "source_origin" with
                          | None => Ok (0, 0)
                          | Some _ => pair_in details "source_origin"
                          end;
            window ← match dget details "source_window_shape" with
                     | None => Ok destination_shape
                     | Some v => ints_in v
                     end;
            rows ← index_at window 0;
            cols ← index_at window 1;
            getitem logical [slice (Some row) (Some (row + rows)); slice (Some col) (Some (col + cols))]);
  tile ← (if is_true (mget details "transpose_after_slice") then T tile else Ok tile);
  tile ← (if is_true (mget details "relu") then np_call "maximum" [AArr tile; APy (VInt 0)] else Ok tile);
  layout ← (v ← mindex details "destination_layout"; str_of_value v);
  packed ← pack tile layout;
  if (1 <? length (rg_shape destination))%nat then reshape packed destination_shape else Ok packed.

(** The conversion of a copy within the unified buffer. *)
Definition ub_converted (details : mapping) (destination : BufferRegion) (values : array) : result array :=
  d ← numpy_dtype (rg_dtype destination);
  rounded ← (if bool_decide (mget details "cast_mode" = VStr "CAST_RINT") && is_integer d then
               float64 ← builtin_dtype "float64";
               wide ← astype values float64;
               r ← np_call "rint" [AArr wide];
               astype r (ar_dtype values)
             else Ok values);
  converted rounded d.

(** A logical matrix of zeros with the copied values in its upper left corner. *)
Definition padded (region : BufferRegion) (shape : list Z) (values : array) : result array :=
  d ← numpy_dtype (rg_dtype region);
  zeros ← np_zeros shape d;
  rows ← shape_at values 0;
  cols ← shape_at values 1;
  setitem zeros [slice None (Some rows); slice None (Some cols)] values.

(** Consecutive parts of a one-dimensional array, one per destination. *)
Definition write_part (t : Task) (flattened : array) (offset : Z) (region : BufferRegion) : memM Z :=
  n ← st_lift (np_call "prod" [APy (VTuple (rg_shape region))]);
  count ← st_lift (l ← ints_of n; match l with [c] => Ok c | _ => raise TypeError "int" end);
  part ← st_lift (getitem flattened [slice (Some offset) (Some (offset + count))]);
  _ ← wr t region (AArr part);
  mret (offset + count).
Fixpoint write_parts (t : Task) (flattened : array) (offset : Z) (regions : list BufferRegion) : memM Z :=
  match regions with
  | [] => mret offset
  | region :: regions =>
      offset ← write_part t flattened offset region;
      write_parts t flattened offset regions
  end.

(** [for region, chunk in zip(destinations, chunks)] over the rows of an array. *)
Fixpoint write_chunks (t : Task) (d : dtype) (width : Z) (data : list elt) (regions : list BufferRegion)
    : memM unit :=
  match regions with
  | [] => mret tt
  | region :: regions =>
      let n := Z.to_nat width in
      _ ← wr t region (AArr (mk_array d [width] (take n data)));
      write_chunks t d width (drop n data) regions
  end.

(** The zN branch; it answers the array still to be written, if any. *)
Definition copy_zN (t : Task) (details : mapping) (destinations : list BufferRegion)
    (destination : BufferRegion) (values : array) : memM (option array) :=
  rows ← st_lift (resolve_key b details "physical_rows");
  cols ← st_lift (resolve_key b details "physical_cols");
  if is_true (mget details "rebased_zN") then
    let flattened := flatten values in
    offset ← write_parts t flattened 0 destinations;
    _ ← st_lift (ensure (offset =? ar_size flattened) ProgramValidationError "rebased zN copy");
    mret None
  else match mget details "written_rows" with
  | VNone =>
      logical ← st_lift (padded destination [rows; cols] values);
      packed ← st_lift (pack logical "zN");
      mret (Some packed)
  | written =>
      written_rows ← st_lift (resolve_int b written);
      logical ← st_lift (padded destination [written_rows; cols] values);
      packed ← st_lift (pack logical "zN");
      let n := Z.of_nat (length destinations) in
      _ ← st_lift (ensure (negb (n =? 0)) ZeroDivisionError "integer division");
      let width := ar_size packed / n in
      chunks ← st_lift (reshape packed [n; width]);
      _ ← write_chunks t (ar_dtype chunks) width (ar_data chunks) destinations;
      mret None
  end.

(** The padding written before the copy. *)
Definition write_padding (t : Task) (details : mapping) : memM unit :=
  match as_region (task_meta t "pad_dst") with
  | None => mret tt
  | Some pad =>
      let v := mget details "pad_value" in
      _ ← st_lift (ensure (is_number v) UnsupportedSimOpError "non-literal pad value");
      full ← st_lift (full_of sim pad v);
      wr t pad (AArr full)
  end.

(** The copied values: one region, or segments joined along an axis. *)
Definition copy_source (t : Task) (details : mapping) (source : BufferRegion) : memM array :=
  match as_sequence (task_meta t "src_regions") with
  | Some l =>
      regions ← st_lift (regions_of l);
      fragments ← st_map (rd t) regions;
      axis ← st_lift (mindex details "source_region_axis");
      st_lift (np_call "concatenate" [AArrs fragments; APy axis])
  | None => rd t source
  end.

(** [_copy] *)
Definition copy (t : Task) : memM unit :=
  source ← op t "src";
  details ← st_lift (meta_mapping t "copy");
  destinations ← match as_sequence (task_meta t "dst_regions") with
                 | Some l => st_lift (regions_of l)
                 | None => r ← op t "dst"; mret [r]
                 end;
  destination ← st_lift (match destinations with
                         | r :: _ => Ok r | [] => raise IndexError "list index out of range" end);
  _ ← write_padding t details;
  values ← copy_source t details source;
  let segmented := bool_decide (is_Some (as_sequence (task_meta t "src_regions"))) in
  let layout := mget details "layout" in
  answer ← (if is_true (mget details "layout_transform") then
              a ← st_lift (layout_transformed details segmented destination values); mret (Some a)
            else if bool_decide (layout = VStr "ub_to_ub") then
              a ← st_lift (ub_converted details destination values); mret (Some a)
            else if bool_decide (layout = VStr "zN") then
              copy_zN t details destinations destination values
            else mret (Some values));
  match answer with
  | Some a => wr t destination (AArr a)
  | None => mret tt
  end.

(** ** Matrix multiplication *)

(** The product in the destination's type. *)
Definition product (a c : array) (d : dtype) : result array :=
  x ← astype a d; y ← astype c d; np_call "matmul" [AArr x; AArr y].
(** The result in the layout of the accumulator. *)
Definition packed_result (a : array) (d : dtype) : result array :=
  x ← astype a d; pack x "l0c".

(** [_mma] *)
Definition mma (t : Task) : memM unit :=
  left_region ← op t "lhs";
  right_region ← op t "rhs";
  destination ← op t "dst";
  details ← st_lift (meta_mapping t "mma");
  cols ← st_lift (resolve_key b details "n_actual");
  rows ← st_lift (v ← mindex details "rows"; int_of v);
  inner ← st_lift (v ← mindex details "inner"; int_of v);
  x ← rd t left_region;
  a ← st_lift (unpack x "l0a" [rows; inner]);
  y ← rd t right_region;
  c ← st_lift (unpack y "l0b" [inner; cols]);
  d ← st_lift (numpy_dtype (rg_dtype destination));
  multiplied ← st_lift (product a c d);
  result ← match as_region (task_meta t "bias") with
           | Some bias =>
               z ← rd t bias;
               row ← st_lift (reshape z [1; cols]);
               st_lift (np_call "add" [AArr multiplied; AArr row])
           | None =>
               init ← st_lift (mindex details "init");
               if truthy init then mret multiplied
               else
                 accumulator ← op t "accumulator";
                 z ← rd t accumulator;
                 previous ← st_lift (unpack z "l0c" [rows; cols]);
                 st_lift (np_call "add" [AArr previous; AArr multiplied])
           end;
  packed ← st_lift (packed_result result d);
  wr t destination (AArr packed).

(** [_gemm_v0] *)
Definition gemm_v0 (t : Task) : memM unit :=
  left_region ← op t "lhs";
  right_region ← op t "rhs";
  destination ← op t "dst";
  details ← st_lift (meta_mapping t "gemm");
  x ← rd t left_region;
  a ← st_lift (v ← mindex details "shape_a"; shape ← ints_in v; unpack x "zn" shape);
  y ← rd t right_region;
  c ← st_lift (v ← mindex details "shape_b"; shape ← ints_in v; unpack y "zn" shape);
  a ← st_lift (v ← mindex details "transpose_a"; if truthy v then T a else Ok a);
  c ← st_lift (v ← mindex details "transpose_b"; if truthy v then T c else Ok c);
  d ← st_lift (numpy_dtype (rg_dtype destination));
  multiplied ← st_lift (product a c d);
  init ← st_lift (mindex details "init");
  result ← (if truthy init then mret multiplied
            else
              accumulator ← op t "accumulator";
              z ← rd t accumulator;
              rows ← st_lift (v ← mindex details "rows"; int_of v);
              cols ← st_lift (v ← mindex details "cols"; int_of v);
              previous ← st_lift (unpack z "l0c" [rows; cols]);
              st_lift (np_call "add" [AArr previous; AArr multiplied]));
  packed ← st_lift (packed_result result d);
  wr t destination (AArr packed).

(** ** [_im2col] *)

Record im2col_params := MkIm2col {
  im_hi : Z; im_wi : Z; im_kw : Z; im_stride_h : Z; im_stride_w : Z;
  im_dilation_h : Z; im_dilation_w : Z; im_pad_left : Z; im_pad_top : Z;
  im_output_w : Z; im_channels : Z;
}.

(** [divmod(x, y)] on integers *)
Definition int_divmod (x y : Z) : result (Z * Z) :=
  if y =? 0 then zero_division else Ok (x / y, x mod y).

(** The element of the feature map that lands in column [k] of a row of the tile, [None] in the
    padding. *)
Definition im2col_source (p : im2col_params) (output_row output_col k : Z) : result (option (Z * Z)) :=
  '(filter_point, channel) ← int_divmod k (im_channels p);
  '(filter_row, filter_col) ← int_divmod filter_point (im_kw p);
  let image_row := output_row * im_stride_h p - im_pad_top p + filter_row * im_dilation_h p in
  let image_col := output_col * im_stride_w p - im_pad_left p + filter_col * im_dilation_w p in
  if (0 <=? image_row) && (image_row <? im_hi p) && ((0 <=? image_col) && (image_col <? im_wi p)) then
    Ok (Some (image_row * im_wi p + image_col, channel))
  else Ok None.

(** [tile[m, k] = feature[row, channel]] *)
Definition im2col_cell (p : im2col_params) (d : dtype) (feature : array) (width m output_row output_col : Z)
    (tile : list elt) (k : Z) : result (list elt) :=
  source ← im2col_source p output_row output_col k;
  match source with
  | None => Ok tile
  | Some (row, channel) =>
      rows ← shape_at feature 0;
      cols ← shape_at feature 1;
      _ ← ensure ((row <? rows) && (channel <? cols)) IndexError "feature";
      x ← scalar_at feature (row * cols + channel);
      v ← converted_scalar x d;
      set_index tile (m * width + k) v
  end.

Definition im2col_row (p : im2col_params) (d : dtype) (feature : array) (width : Z) (tile : list elt) (m : Z)
    : result (list elt) :=
  '(output_row, output_col) ← int_divmod m (im_output_w p);
  ofold (im2col_cell p d feature width m output_row output_col) (py_range width) tile.

(** [_im2col] *)
Definition im2col (t : Task) : memM unit :=
  source ← op t "src";
  destination ← op t "dst";
  details ← st_lift (required_mapping t "im2col");
  '(hi, wi) ← st_lift (pair_in details "image_shape");
  '(_, kw) ← st_lift (pair_in details "kernel");
  '(stride_h, stride_w) ← st_lift (pair_in details "stride");
  '(dilation_h, dilation_w) ← st_lift (pair_in details "dilation");
  padding ← st_lift (v ← mindex details "padding"; ints_in v);
  '(pad_left, pad_top) ← st_lift (match padding with
                                  | [l; _; top; _] => Ok (l, top) | _ => raise ValueError "unpack" end);
  '(_, output_w) ← st_lift (pair_in details "output_shape");
  channels ← st_lift (v ← mindex details "channels"; int_of v);
  valid_m ← st_lift (v ← mindex details "valid_m"; int_of v);
  valid_k ← st_lift (v ← mindex details "valid_k"; int_of v);
  values ← rd t source;
  feature ← st_lift (unpack values "zn" [hi * wi; channels]);
  d ← st_lift (numpy_dtype (rg_dtype destination));
  tile ← st_lift (np_zeros [valid_m; valid_k] d);
  let p := MkIm2col hi wi kw stride_h stride_w dilation_h dilation_w pad_left pad_top output_w channels in
  data ← st_lift (ofold (im2col_row p d feature valid_k) (py_range valid_m) (ar_data tile));
  packed ← st_lift (pack (mk_array d [valid_m; valid_k] data) "l0a");
  wr t destination (AArr packed).

(** ** Broadcasting blocks and rows *)

(** One 32-byte block of [_brcb]. *)
Definition brcb_block (t : Task) (destination : BufferRegion) (d : dtype) (values : array)
    (blk_stride rep_stride base : Z) (rb : Z * Z) : memM unit :=
  let '(r, k) := rb in
  let block_elements := 32 / dtype_itemsize d in
  scalar ← st_lift (scalar_at values (r * 8 + k));
  let offset := base + (r * rep_stride + k * blk_stride) * (block_elements * dtype_itemsize d) in
  region ← st_lift (region_with destination [VInt block_elements] (VInt offset));
  block ← st_lift (np_call "full" [APy (VInt block_elements); AArr scalar; ADtype d]);
  wr t region (AArr block).

(** [_brcb] *)
Definition brcb (t : Task) : memM unit :=
  destination ← op t "dst";
  source ← op t "src";
  details ← st_lift (required_mapping t "brcb");
  repeat_count ← st_lift (resolve_key b details "repeat");
  blk_stride ← st_lift (resolve_key b details "blk_stride");
  rep_stride ← st_lift (resolve_key b details "rep_stride");
  _ ← st_lift (ensure (negb ((repeat_count <? 0) || (blk_stride <? 0) || (rep_stride <? 0)))
                 ProgramValidationError "brcb repeat and strides must not be negative");
  if repeat_count =? 0 then mret tt
  else
    a ← rd t source;
    let values := flatten a in
    _ ← st_lift (ensure (repeat_count * 8 <=? ar_size values) ProgramValidationError "brcb source");
    d ← st_lift (numpy_dtype (rg_dtype destination));
    base ← st_lift (int_of (rg_byte_offset destination));
    st_iter (brcb_block t destination d values blk_stride rep_stride base) (coords repeat_count 8).

(** [_row_expand_binop] *)
Definition row_expand_binop (t : Task) : memM unit :=
  destination ← op t "dst";
  source ← op t "src";
  scalar_source ← op t "scalar_src";
  details ← st_lift (required_mapping t "row_expand");
  rows ← st_lift (resolve_key b details "rows");
  row_elements ← st_lift (resolve_key b details "row_elements");
  let elements_per_block := row_elements / 8 in
  a ← rd t scalar_source;
  let scalars := flatten a in
  scalars ← match as_region (task_meta t "scratch") with
            | Some scratch =>
                _ ← st_lift (ensure (ar_size scalars =? rows) ProgramValidationError "row-expand scalar source");
                d ← st_lift (numpy_dtype (rg_dtype scratch));
                repeated ← st_lift (np_call "repeat" [AArr scalars; APy (VInt elements_per_block)]);
                expanded ← st_lift (astype repeated d);
                _ ← wr t scratch (AArr expanded);
                mret scalars
            | None =>
                _ ← st_lift (ensure (ar_size scalars =? rows * elements_per_block)
                               ProgramValidationError "row-expand scalar source");
                st_lift (np_call "getitem" [AArr scalars; APy (VTuple [VTuple [VNone; VNone; VInt elements_per_block]])])
            end;
  x ← rd t source;
  values ← st_lift (reshape x [rows; row_elements]);
  name ← st_lift (match dget ROW_EXPAND_OPERATIONS (operation t) with
                  | Some f => Ok f | None => raise KeyError "operation" end);
  typed ← st_lift (astype scalars (ar_dtype values));
  column ← st_lift (reshape typed [ar_size typed; 1]);
  result ← st_lift (np_call name [AArr values; AArr column]);
  wr t destination (AArr result).
End kernels.
