(* ===== verification/ExecGather.v ===== *)
(** Gathers, sorting, atomic additions and reductions of the executor ([executor.py]). *)

From S2P Require Import Prelude PyDict PySort PyStr Errors Values Layout Program Trace Config Hazard.
From S2P Require Import Intervals MemoryView Memory PyFloat PyNum Numpy ExecEnv ExecOps ExecKernels.
Local Open Scope string_scope.
Local Open Scope Z_scope.
Local Open Scope list_scope.

Section gather.
Context {NP : Numpy} (sim : Simulator).
Let b := sim_bindings sim.
Let rd := rd sim.
Let wr := wr sim.

(** ** Indexing *)

(** An index of an array of [n] elements, negative ones counting from the end. *)
Definition wrap_index (n i : Z) : Z := if i <? 0 then i + n else i.
(** [values[indices]] for a one-dimensional array *)
Definition take_elements (a : array) (indices : list Z) : result array :=
  data ← omap_list (λ i, element a (wrap_index (ar_size a) i)) indices;
  Ok (mk_array (ar_dtype a) [Z.of_nat (length indices)] data).

(** [result[start::2] = values], where one value is broadcast. *)
Definition set_every_second (start : nat) (data values : list elt) : result (list elt) :=
  let positions := length (filter (λ i, (i mod 2 = start)%nat) (seq 0 (length data))) in
  values ← (if (length values =? positions)%nat then Ok values
            else match values with
                 | [v] => Ok (replicate positions v)
                 | _ => raise ValueError "could not broadcast input array"
                 end);
  Ok (foldl (λ acc '(i, v), <[(2 * i + start)%nat := v]> acc) data (imap pair values)).

(** The first value that a check rejects. *)
Definition first_bad (bad : Z → bool) (l : list Z) : option Z := head (filter (λ i, bad i = true) l).
Definition reject (bad : Z → bool) (l : list Z) (label : string) : result unit :=
  match first_bad bad l with
  | None => Ok tt
  | Some _ => raise ProgramValidationError label
  end.

(** ** Gathers *)

(** [_gather]: byte addresses relative to a base, which must name whole elements of the source. *)
Definition gather_indices (source_values offset_values : array) (base : Z) : result (list Z) :=
  int64 ← builtin_dtype "int64";
  wide ← astype offset_values int64;
  addresses ← np_call "add" [AArr wide; APy (VInt base)];
  byte_addresses ← ints_of addresses;
  let itemsize := dtype_itemsize (ar_dtype source_values) in
  _ ← reject (λ a, negb (a mod itemsize =? 0)) byte_addresses "gather byte address must align";
  let indices := (λ a, a / itemsize) <$> byte_addresses in
  _ ← reject (λ i, (i <? 0) || (ar_size source_values <=? i)) indices "gather source index out of range";
  Ok indices.

Definition gather (t : Task) : memM unit :=
  destination ← op t "dst";
  source ← op t "src";
  offsets ← op t "offsets";
  x ← rd t source;
  y ← rd t offsets;
  base ← st_lift (resolve_meta b t "base");
  _ ← st_lift (ensure (0 <=? base) ProgramValidationError "gather base byte address must not be negative");
  let source_values := flatten x in
  indices ← st_lift (gather_indices source_values (flatten y) base);
  result ← st_lift (take_elements source_values indices);
  wr t destination (AArr result).

(** One block of [_gatherb]. *)
Definition gatherb_block (source_values : array) (block_elements byte_offset : Z) : result (list elt) :=
  _ ← ensure (negb ((byte_offset <? 0) || negb (byte_offset mod 32 =? 0))) ProgramValidationError
        "gatherb byte offset must be non-negative and 32-byte aligned";
  let source_index := byte_offset / dtype_itemsize (ar_dtype source_values) in
  _ ← ensure (source_index + block_elements <=? ar_size source_values) ProgramValidationError
        "gatherb source block out of range";
  Ok (take (Z.to_nat block_elements) (drop (Z.to_nat source_index) (ar_data source_values))).

(** [_gatherb] *)
Definition gatherb (t : Task) : memM unit :=
  destination ← op t "dst";
  source ← op t "src";
  offsets ← op t "offsets";
  repeat_count ← st_lift (resolve_meta b t "repeat");
  dst_block_stride ← st_lift (resolve_meta b t "dst_block_stride");
  dst_repeat_stride ← st_lift (resolve_meta b t "dst_repeat_stride");
  _ ← st_lift (ensure (0 <=? Z.min repeat_count (Z.min dst_block_stride dst_repeat_stride))
                 ProgramValidationError "gatherb repeat/strides must not be negative");
  _ ← st_lift (ensure (repeat_count <=? 255) ProgramValidationError "gatherb repeat must not exceed 255");
  x ← rd t source;
  let source_values := flatten x in
  offset_values ← rd t offsets;
  block_elements ← st_lift (resolve_meta b t "elements_per_block");
  _ ← st_lift (ensure (0 <=? block_elements) ValueError "negative dimensions are not allowed");
  byte_offsets ← st_lift (ints_of offset_values);
  blocks ← st_lift (omap_list (gatherb_block source_values block_elements) byte_offsets);
  wr t destination (AArr (mk_array (ar_dtype source_values) (ar_shape offset_values ++ [block_elements])
                            (concat blocks))).

(** The residues of the fixed masks. *)
Definition gather_patterns : dict string (list Z) :=
  [("P0101", [0; 2]); ("P1010", [1; 3]); ("P0001", [0]); ("P0010", [1]); ("P0100", [2]);
   ("P1000", [3]); ("P1111", [0; 1; 2; 3])].

(** [_gather_mask] *)
Definition gather_mask (t : Task) : memM unit :=
  destination ← op t "dst";
  source ← op t "src";
  x ← rd t source;
  let source_values := flatten x in
  let mode := task_meta t "mode" in
  indices ← (if bool_decide (mode = VStr "fixed") then
               residues ← st_lift (match task_meta t "pattern" with
                                   | VStr p => match dget gather_patterns p with
                                               | Some l => Ok l | None => raise KeyError "pattern" end
                                   | _ => raise KeyError "pattern" end);
               mret (filter (λ i, i mod 4 ∈ residues) (py_range (ar_size source_values)))
             else if bool_decide (mode = VStr "custom") then
               offsets ← op t "offsets";
               y ← rd t offsets;
               int64 ← st_lift (builtin_dtype "int64");
               wide ← st_lift (astype (flatten y) int64);
               indices ← st_lift (ints_of wide);
               _ ← st_lift (reject (λ i, ar_size source_values <=? i) indices
                              "gather_mask source index out of range");
               mret indices
             else st_raise (Exn UnsupportedSimOpError "unsupported gather_mask mode" []));
  shape ← st_lift (omap_list int_of (rg_shape destination));
  zeros ← st_lift (np_zeros shape (ar_dtype source_values));
  let n := Z.of_nat (length indices) in
  _ ← st_lift (ensure (n <=? ar_size zeros) ProgramValidationError
                 "gather_mask destination cannot hold all selected elements");
  selected ← st_lift (take_elements source_values indices);
  wr t destination (AArr (mk_array (ar_dtype source_values) shape
                            (ar_data selected ++ drop (length indices) (ar_data zeros)))).

(** ** Sorting *)

(** [np.argsort(-values.astype(np.float64), kind="stable")] *)
Definition descending_order (values : array) : result array :=
  float64 ← builtin_dtype "float64";
  wide ← astype values float64;
  negated ← np_call "negative" [AArr wide];
  np_call "argsort" [AArr negated; APy (VStr "stable")].

(** [result[0::2] = values[order]; result[1::2] = order] on an array of [n] elements *)
Definition value_index_pairs (values order : array) (n : Z) (d : dtype) : result array :=
  empty ← np_zeros [n] d;
  indices ← ints_of order;
  sorted_values ← take_elements values indices;
  v ← converted sorted_values d;
  data ← set_every_second 0 (ar_data empty) (ar_data v);
  i ← converted order d;
  data ← set_every_second 1 data (ar_data i);
  Ok (mk_array d [n] data).

(** [_topk] *)
Definition topk (t : Task) : memM unit :=
  source ← op t "src";
  destination ← op t "dst";
  details ← st_lift (required_mapping t "topk");
  k ← st_lift (resolve_key b details "k");
  x ← rd t source;
  let values := flatten x in
  order ← st_lift (descending_order values);
  leading ← st_lift (getitem order [slice None (Some k)]);
  d ← st_lift (numpy_dtype (rg_dtype destination));
  result ← st_lift (value_index_pairs values leading (2 * k) d);
  wr t destination (AArr result).

(** [_sort] *)
Definition sort (t : Task) : memM unit :=
  source ← op t "src";
  destination ← op t "dst";
  x ← rd t source;
  let values := flatten x in
  order ← st_lift (descending_order values);
  d ← st_lift (numpy_dtype (rg_dtype destination));
  result ← st_lift (value_index_pairs values order (ar_size values * 2) d);
  wr t destination (AArr result).

(** Row [i] of a two-dimensional array of width [w]. *)
Definition row_of (a : array) (w i : Z) : array :=
  mk_array (ar_dtype a) [w] (take (Z.to_nat w) (drop (Z.to_nat (i * w)) (ar_data a))).

(** One output record of [_sort32]: the value, then the encoded index. *)
Definition sort32_record (d : dtype) (multiplier : Z) (is_float32 : bool) (values encoded : list elt) (i : nat)
    : result (list elt) :=
  let record := replicate (Z.to_nat multiplier) (np_zero d) in
  v ← get_index values (Z.of_nat i);
  record ← set_index record 0 v;
  if is_float32 then
    e ← get_index encoded (Z.of_nat i); set_index record 1 e
  else
    _ ← ensure (4 <=? multiplier) ValueError "could not broadcast input array";
    e ← get_index encoded (2 * Z.of_nat i);
    record ← set_index record 2 e;
    f ← get_index encoded (2 * Z.of_nat i + 1);
    set_index record 3 f.

(** One group of 32 values. *)
Definition sort32_repeat (destination : BufferRegion) (d : dtype) (multiplier : Z) (values indices : array)
    (repeat_index : Z) : result (list elt) :=
  let group := row_of values 32 repeat_index in
  order ← descending_order group;
  positions ← ints_of order;
  sorted_values ← take_elements group positions;
  v ← converted sorted_values d;
  sorted_indices ← take_elements (row_of indices 32 repeat_index) positions;
  let is_float32 := mem_str (rg_dtype destination) ["float32"] in
  target ← builtin_dtype (if is_float32 then "float32" else "float16");
  viewed ← np_call "view" [AArr sorted_indices; ADtype target];
  encoded ← converted viewed d;
  records ← omap_list (sort32_record d multiplier is_float32 (ar_data v) (ar_data encoded)) (seq 0 32);
  Ok (concat records).

(** [_sort32] *)
Definition sort32 (t : Task) : memM unit :=
  source ← op t "src";
  offsets ← op t "offsets";
  destination ← op t "dst";
  repeat_times ← st_lift (resolve_meta b t "repeat_times");
  _ ← st_lift (ensure ((1 <=? repeat_times) && (repeat_times <=? 255)) ProgramValidationError "sort32 repeatTimes");
  x ← rd t source;
  values ← st_lift (reshape x [repeat_times; 32]);
  y ← rd t offsets;
  indices ← st_lift (reshape y [repeat_times; 32]);
  multiplier ← st_lift (resolve_meta b t "output_multiplier");
  d ← st_lift (numpy_dtype (rg_dtype destination));
  _ ← st_lift (ensure (0 <=? multiplier) ValueError "negative dimensions are not allowed");
  groups ← st_lift (omap_list (sort32_repeat destination d multiplier values indices) (py_range repeat_times));
  let data := concat groups in
  wr t destination (AArr (mk_array d [Z.of_nat (length data)] data)).

Definition INIT_SORT_BUF_VALUE_INT32 : Z := -8388608.

(** [_init_sort_buf] *)
Definition init_sort_buf (t : Task) : memM unit :=
  destination ← op t "dst";
  details ← st_lift (required_mapping t "init_sort_buf");
  covered ← st_lift (resolve_key b details "covered_elements");
  _ ← st_lift (ensure (0 <=? covered) ProgramValidationError "init_sort_buf covered element count");
  if covered =? 0 then mret tt
  else
    region ← st_lift (region_with destination [VInt covered] (rg_byte_offset destination));
    int32 ← st_lift (builtin_dtype "int32");
    let pattern := (λ i, VInt (if i mod 2 =? 0 then INIT_SORT_BUF_VALUE_INT32 else -1)) <$> py_range covered in
    lanes ← st_lift (np_asarray (APy (VList pattern)) (Some int32));
    float32 ← st_lift (builtin_dtype "float32");
    viewed ← st_lift (np_call "view" [AArr lanes; ADtype float32]);
    wr t region (AArr viewed).

(** One source of [_merge_sort]: its keys and payloads, checked to be descending. *)
Definition merge_source (record_width : Z) (x : array) : result (array * array) :=
  let n := ar_size x / record_width in
  _ ← ensure (0 <? record_width) ValueError "cannot reshape array";
  records ← reshape x [n; record_width];
  keys ← getitem records [slice None None; VInt 0];
  nans ← np_call "isnan" [AArr keys];
  _ ← ensure (negb (any_true nans)) ProgramValidationError "merge_sort NaN ordering";
  left_keys ← getitem records [slice None (Some (-1)); VInt 0];
  right_keys ← getitem records [slice (Some 1) None; VInt 0];
  ascents ← np_call "less" [AArr left_keys; AArr right_keys];
  _ ← ensure (negb (any_true ascents)) ProgramValidationError "merge_sort source is not descending";
  payloads ← getitem records [slice None None; slice (Some 1) None];
  Ok (keys, payloads).

(** One row of the merged records. *)
Definition merged_row (values payloads : array) (width i : Z) : result (list elt) :=
  v ← element values i;
  Ok (v :: take (Z.to_nat width) (drop (Z.to_nat (i * width)) (ar_data payloads))).

(** [_merge_sort] *)
Definition merge_sort (t : Task) : memM unit :=
  destination ← op t "dst";
  details ← st_lift (required_mapping t "merge_sort");
  record_width ← st_lift (resolve_key b details "record_width");
  sources ← st_lift (match as_sequence (task_meta t "src_regions") with
                     | Some l => if forallb (λ v, bool_decide (is_Some (as_region v))) l then Ok (omap as_region l)
                                 else raise ProgramValidationError "merge_sort requires source regions"
                     | None => raise ProgramValidationError "merge_sort requires source regions"
                     end);
  parts ← st_map (λ r, x ← rd t r; st_lift (merge_source record_width x)) sources;
  values ← st_lift (np_call "concatenate" [AArrs parts.*1; APy (VInt 0)]);
  payloads ← st_lift (np_call "concatenate" [AArrs parts.*2; APy (VInt 0)]);
  order ← st_lift (descending_order values);
  indices ← st_lift (ints_of order);
  d ← st_lift (numpy_dtype (rg_dtype destination));
  v ← st_lift (converted values d);
  p ← st_lift (converted payloads d);
  rows ← st_lift (omap_list (merged_row v p (record_width - 1)) indices);
  let data := concat rows in
  wr t destination (AArr (mk_array d [Z.of_nat (length data)] data)).

(** ** Atomic additions *)

(** [_atomic_add] *)
Definition atomic_add (t : Task) : memM unit :=
  source ← op t "src";
  destination ← op t "dst";
  x ← rd t source;
  y ← rd t destination;
  result ← st_lift (np_call "add" [AArr y; AArr x]);
  wr t destination (AArr result).

(** [_atomic_add_l0c] *)
Definition atomic_add_l0c (t : Task) : memM unit :=
  source ← op t "src";
  destination ← op t "dst";
  details ← st_lift (required_mapping t "atomic");
  x ← rd t source;
  logical ← st_lift (v ← mindex details "source_shape"; shape ← ints_in v; unpack x "l0c" shape);
  rows ← st_lift (resolve_key b details "rows");
  cols ← st_lift (resolve_key b details "cols");
  tile ← st_lift (getitem logical [slice None (Some rows); slice None (Some cols)]);
  d ← st_lift (numpy_dtype (rg_dtype destination));
  tile ← st_lift (astype tile d);
  previous ← rd t destination;
  result ← st_lift (np_call "add" [AArr previous; AArr tile]);
  wr t destination (AArr result).

(** ** Reductions *)

(** [_reduce_sum_experiment] *)
Definition reduce_sum_experiment (t : Task) : memM unit :=
  destination ← op t "dst";
  source ← op t "src";
  count ← st_lift (resolve_meta b t "count");
  _ ← st_lift (ensure (0 <=? count) ProgramValidationError "reducesum_experiment count must not be negative");
  x ← rd t source;
  total ← st_lift (np_call "sum" [AArr (flatten x); APy VNone; ADtype (ar_dtype x)]);
  d ← st_lift (numpy_dtype (rg_dtype destination));
  row ← st_lift (reshape total [1]);
  result ← st_lift (converted row d);
  wr t destination (AArr result).

(** [_sum_experiment] *)
Definition sum_experiment (t : Task) : memM unit :=
  destination ← op t "dst";
  source ← op t "src";
  details ← st_lift (required_mapping t "sum_experiment");
  outer ← st_lift (resolve_key b details "outer");
  inner ← st_lift (resolve_key b details "inner");
  valid ← st_lift (resolve_key b details "valid");
  _ ← st_lift (ensure (0 <=? Z.min outer (Z.min inner valid)) ProgramValidationError
                 "sum_experiment extents must not be negative");
  _ ← st_lift (ensure (valid <=? inner) ProgramValidationError
                 "sum_experiment valid width must not exceed inner width");
  sd ← st_lift (numpy_dtype (rg_dtype source));
  _ ← st_lift (ensure ((inner * dtype_itemsize sd) mod 32 =? 0) ProgramValidationError
                 "sum_experiment inner rows must be 32-byte aligned");
  x ← rd t source;
  values ← st_lift (getitem x [slice None None; slice None (Some valid)]);
  total ← st_lift (np_call "sum" [AArr values; APy (VInt 1); ADtype (ar_dtype x)]);
  d ← st_lift (numpy_dtype (rg_dtype destination));
  result ← st_lift (converted total d);
  wr t destination (AArr result).

(** [float16] values are reduced in [float32]. *)
Definition widened (a : array) : result array :=
  float16 ← builtin_dtype "float16";
  if decide (ar_dtype a = float16) then
    float32 ← builtin_dtype "float32"; astype a float32
  else Ok a.

(** The reduction a block reduction is named after. *)
Definition reduce_function (kind : pyval) (label : string) : result string :=
  match kind with
  | VStr s => match dget REDUCE_OPERATIONS s with Some f => Ok f | None => raise UnsupportedSimOpError label end
  | _ => raise UnsupportedSimOpError label
  end.

(** One block of [_block_reduce]. *)
Definition block_reduce_step (kind : pyval) (mask elements_per_block : Z) (values result : array) (block_index : Z)
    : Errors.result array :=
  let active := Z.min elements_per_block (mask - block_index * elements_per_block) in
  if active <=? 0 then Ok result
  else
    block ← getitem values [slice None None; VInt block_index; slice None (Some active)];
    compute ← widened block;
    name ← reduce_function kind "functional block reduction does not support kind";
    reduced ← np_call name [AArr compute; APy (VInt 1)];
    setitem result [slice None None; VInt block_index] reduced.

(** [_block_reduce] *)
Definition block_reduce (t : Task) : memM unit :=
  source ← op t "src";
  destination ← op t "dst";
  values ← rd t source;
  previous ← rd t destination;
  mask ← st_lift (resolve_meta b t "mask");
  elements_per_block ← st_lift (resolve_meta b t "elements_per_block");
  blocks ← st_lift (shape_at values 1);
  result ← st_lift (ofold (block_reduce_step (task_meta t "reduce_kind") mask elements_per_block values)
                      (py_range blocks) previous);
  wr t destination (AArr result).

(** The active lanes of one repeat: the mask is used up block by block. *)
Definition active_piece (values : array) (repeat_index elements_per_block : Z) (st : list array * Z)
    (block_index : Z) : result (list array * Z) :=
  let '(pieces, remaining) := st in
  let active := Z.min elements_per_block remaining in
  piece ← getitem values [VInt repeat_index; VInt block_index; slice None (Some active)];
  Ok (pieces ++ [piece], remaining - active).

(** One repeat of [_whole_reduce]. *)
Definition whole_reduce_step (kind order : pyval) (mask elements_per_block : Z) (values result : array)
    (repeat_index : Z) : Errors.result array :=
  blocks ← shape_at values 1;
  '(pieces, _) ← ofold (active_piece values repeat_index elements_per_block) (py_range blocks) ([], mask);
  lanes ← np_call "concatenate" [AArrs pieces; APy (VInt 0)];
  compute ← widened lanes;
  name ← reduce_function kind "functional whole reduction does not support kind";
  if mem_str name ["sum"] then
    total ← np_call "sum" [AArr compute; APy VNone];
    setitem result [VInt repeat_index; VInt 0] total
  else
    position ← np_call (if mem_str name ["max"] then "argmax" else "argmin") [AArr compute];
    index ← (l ← ints_of position; match l with [i] => Ok i | _ => raise TypeError "int" end);
    best ← scalar_at compute (wrap_index (ar_size compute) index);
    result ← setitem result [VInt repeat_index; VInt 0] best;
    if bool_decide (order = VStr "ORDER_VALUE_INDEX") then
      index_dtype ← builtin_dtype (if dtype_itemsize (ar_dtype result) =? 2 then "uint16" else "uint32");
      encoded ← np_asarray (APy (VList [VInt index])) (Some index_dtype);
      viewed ← np_call "view" [AArr encoded; ADtype (ar_dtype result)];
      x ← scalar_at viewed 0;
      setitem result [VInt repeat_index; VInt 1] x
    else Ok result.

(** [_whole_reduce] *)
Definition whole_reduce (t : Task) : memM unit :=
  source ← op t "src";
  destination ← op t "dst";
  values ← rd t source;
  previous ← rd t destination;
  mask ← st_lift (resolve_meta b t "mask");
  if mask =? 0 then wr t destination (AArr previous)
  else
    elements_per_block ← st_lift (resolve_meta b t "elements_per_block");
    repeats ← st_lift (shape_at values 0);
    result ← st_lift (ofold (whole_reduce_step (task_meta t "reduce_kind") (task_meta t "reduce_order") mask
                               elements_per_block values) (py_range repeats) previous);
    wr t destination (AArr result).

(** [axis == 0] *)
Definition is_zero_value (v : pyval) : bool :=
  match as_number v with Some n => py_eq n (NInt 0) | None => false end.

(** [_reduce] *)
Definition reduce (t : Task) (operation : string) : memM unit :=
  source ← op t "src";
  destination ← op t "dst";
  values ← rd t source;
  rows ← st_lift (shape_at values 0);
  cols ← st_lift (if rows =? 0 then Ok 0 else shape_at values 1);
  if (rows =? 0) || (cols =? 0) then mret tt
  else
    let axis := if is_zero_value (default (VInt 0) (dget (metadata t) "reduce_axis")) then 0 else 1 in
    name ← st_lift (match dget REDUCE_OPERATIONS operation with
                    | Some f => Ok f | None => raise KeyError "operation" end);
    result ← st_lift (np_call name [AArr values; APy (VInt axis)]);
    result ← (if truthy (default (VBool true) (dget (metadata t) "clear")) then mret result
              else
                accumulator ← op t "accumulator";
                previous ← rd t accumulator;
                st_lift (np_call (if mem_str name ["sum"] then "add"
                                  else if mem_str name ["max"] then "maximum" else "minimum")
                           [AArr previous; AArr result]));
    wr t destination (AArr result).
End gather.
