(* ===== verification/Executor.v ===== *)
(** [FunctionalSimulator] of [executor.py]: the evaluation of scalar TIR expressions, the dispatch
    of tasks, the synchronization-only mode, the contracts checked before a run, the resolution
    of data-dependent branches, and [run] itself.

    TIR expressions are objects of TVM; [tir] lists the attributes the executor reads of them,
    and [node_of] tells which expression an opaque metadata value is. *)

From stdpp Require Import pretty.
From S2P Require Import Prelude PyDict PySort PyStr Errors Values Layout Program Trace Config Hazard.
From S2P Require Import SyncOps SyncReset SyncModel Scheduler Intervals MemoryView Memory Stats.
From S2P Require Import PyFloat PyNum Numpy ExecOrder ExecEnv ExecOps ExecKernels ExecGather.
Local Open Scope string_scope.
Local Open Scope Z_scope.
Local Open Scope list_scope.

(** ** Scalar expressions *)

Inductive tir :=
| TLit (n : pynum)                              (* an object whose [value] is a number *)
| TVar (name : string)
| TLoad (buffer data dtype : string) (shape strides : list tir) (elem_offset : tir) (indices : list tir)
| TCast (dtype : string) (value : tir)
| TBin (name : string) (x y : tir)
| TNot (x : tir)
| TOther (repr : string).

(** The table [binary] of [_evaluate_tir_scalar]. *)
Definition tir_binary (name : string) : option (pynum → pynum → result pynum) :=
  if mem_str name ["EQ"] then Some (λ x y, Ok (NBool (py_eq x y)))
  else if mem_str name ["NE"] then Some (λ x y, Ok (NBool (negb (py_eq x y))))
  else if mem_str name ["LT"] then Some (λ x y, Ok (NBool (py_lt x y)))
  else if mem_str name ["LE"] then Some (λ x y, Ok (NBool (py_le x y)))
  else if mem_str name ["GT"] then Some (λ x y, Ok (NBool (py_lt y x)))
  else if mem_str name ["GE"] then Some (λ x y, Ok (NBool (py_le y x)))
  else if mem_str name ["Add"] then Some py_add
  else if mem_str name ["Sub"] then Some py_sub
  else if mem_str name ["Mul"] then Some py_mul
  else if mem_str name ["Div"] then Some py_div
  else if mem_str name ["FloorDiv"] then Some py_floordiv
  else if mem_str name ["FloorMod"] then Some py_mod
  else if mem_str name ["Min"] then Some (λ x y, Ok (py_min x y))
  else if mem_str name ["Max"] then Some (λ x y, Ok (py_max x y))
  else if mem_str name ["And"] then Some (λ x y, Ok (NBool (number_truth x && number_truth y)))
  else if mem_str name ["Or"] then Some (λ x y, Ok (NBool (number_truth x || number_truth y)))
  else None.

(** A Python number, or the error of using something else as one. *)
Definition number_of (v : pyval) : result pynum :=
  match as_number v with Some n => Ok n | None => raise TypeError "number" end.

Section executor.
Context {NP : Numpy} (node_of : pyval → tir).

(** [view.allocation.read] of one element, for a synchronization-only run. *)
Definition read_local_scalar (sim : Simulator) (region : BufferRegion) (name : string) (core : Z)
    : memM pynum :=
  av ← resolve sim region core;
  known ← check_initialized av.1 (TView av.2);
  _ ← st_lift (require known (Exn UninitializedMemoryError "scalar expression reads poison local buffer" [name]));
  payload ← Memory.read av.1 (TView av.2);
  st_lift (d ← numpy_dtype (rg_dtype region);
           data ← np_frombuffer d payload;
           x ← get_index data 0;
           number_of (np_item d x)).

(** [self.read(region)...reshape(-1)[0].item()] *)
Definition read_scalar (sim : Simulator) (region : BufferRegion) (core : Z) : memM pynum :=
  a ← read_region sim region core;
  st_lift (x ← element a 0; number_of (np_item (ar_dtype a) x)).

(** The region one element of a buffer occupies. *)
Definition load_region (spec : BufferSpec) (dt : string) (itemsize offset : Z) (indices strides : list Z)
    : result BufferRegion :=
  buffer_region_init (bs_name spec) (scope_value (bs_scope spec)) (const (VInt 1) <$> indices) dt
    (VInt (offset * itemsize + foldr Z.add 0 (zip_with Z.mul indices strides))) None None.

Definition index_ok (indices shape : list Z) : bool :=
  (length indices =? length shape)%nat &&
  forallb (λ '(i, n), (0 <=? i) && (i <? n)) (zip indices shape).

(** [_evaluate_tir_scalar] *)
Fixpoint evaluate_tir_scalar (sim : Simulator) (core : Z) (e : tir) {struct e} : memM pynum :=
  match e with
  | TLit n => mret n
  | TLoad buffer data dt shape strides elem_offset indices =>
      ix ← st_map (λ i, n ← evaluate_tir_scalar sim core i; st_lift (number_int n)) indices;
      spec ← st_lift (match find (λ s, mem_str (bs_name s) [buffer; data]) (kp_buffers (sim_program sim)) with
                      | Some spec => Ok spec
                      | None => raise_with UnsupportedSimOpError "dynamic if references unknown buffer" [buffer]
                      end);
      ns ← st_map (λ n, n ← evaluate_tir_scalar sim core n; st_lift (number_int n)) shape;
      _ ← st_lift (ensure (index_ok ix ns) ProgramValidationError "scalar buffer index is outside its logical extent");
      it ← st_lift (dtype_size_bytes dt);
      st ← match strides with
           | [] => mret (contiguous_strides_bytes ns it)
           | _ => l ← st_map (λ n, n ← evaluate_tir_scalar sim core n; st_lift (number_int n)) strides;
                  mret ((λ z, z * it) <$> l)
           end;
      offset ← (n ← evaluate_tir_scalar sim core elem_offset; st_lift (number_int n));
      region ← st_lift (load_region spec dt it offset ix st);
      if sync_only (sim_config sim) then
        if bool_decide (bs_scope spec = LOCAL) then read_local_scalar sim region (bs_name spec) core
        else st_raise (Exn UnsupportedSimOpError "sync-only scalar expression cannot read tensor numeric values" [])
      else read_scalar sim region core
  | TCast dt value =>
      n ← evaluate_tir_scalar sim core value;
      st_lift (d ← numpy_dtype dt;
               a ← np_asarray (APy (number_value n)) (Some d);
               x ← element a 0;
               number_of (np_item (ar_dtype a) x))
  | TVar name =>
      match dget (sim_bindings sim) name with
      | Some v => st_lift (number_of v)
      | None => st_raise (Exn UnsupportedSimOpError "unbound scalar variable" [name])
      end
  | TBin name x y =>
      match tir_binary name with
      | Some f =>
          m ← evaluate_tir_scalar sim core x;
          n ← evaluate_tir_scalar sim core y;
          st_lift (f m n)
      | None => st_raise (Exn UnsupportedSimOpError "unsupported dynamic if scalar expression" [])
      end
  | TNot x => n ← evaluate_tir_scalar sim core x; mret (NBool (negb (number_truth n)))
  | TOther _ => st_raise (Exn UnsupportedSimOpError "unsupported dynamic if scalar expression" [])
  end.

(** ** Dispatch *)

Definition SYNCHRONIZATION_OPERATIONS : list string :=
  ["set_flag"; "wait_flag"; "auto_set_flag"; "auto_wait_flag"; "set_cross_flag"; "wait_cross_flag";
   "auto_set_cross_flag"; "auto_wait_cross_flag"; "barrier_all"; "pipe_barrier"; "auto_barrier"].

Definition SYNC_ONLY_EXPLICIT_OPERATIONS : list string :=
  ["axpy"; "mul_add_dst"; "mma"; "mma_bias"; "gemm_v0"; "im2col"; "bitwise_not"; "bitwise_lshift";
   "bitwise_rshift"; "cast"; "fill"; "reducesum_experiment"; "sum_experiment"; "brcb_experiment";
   "row_expand_mul_experiment"; "row_expand_sub_experiment"; "row_expand_div_experiment";
   "arith_progression"; "createvecindex"; "gather"; "gatherb"; "gather_mask"; "transpose";
   "reinterpretcast"; "topk"; "sort32"; "sort"; "init_sort_buf"; "merge_sort"; "atomic_add_ub_to_gm";
   "atomic_add_l0c_to_gm"; "clamp"; "clamp_max"; "clamp_min"; "broadcast"; "tail_broadcast";
   "compare"; "compare_scalar"; "tail_compare"; "tail_compare_scalar"; "select"; "tail_select";
   "reduce"; "block_reduce_max"; "block_reduce_min"; "block_reduce_sum"; "wholereducemax";
   "wholereducemin"; "wholereducesum"].

Definition READ_REGION_KEYS : list string :=
  ["src_regions"; "src"; "lhs"; "rhs"; "mask"; "accumulator"; "scalar_src"; "offsets"; "bias"].
Definition WRITE_REGION_KEYS : list string :=
  ["dst_regions"; "dst"; "pad_dst"; "scratch"; "output_scratch"].

(** The handler [_execute] calls for an operation, if there is one. *)
Definition handler (sim : Simulator) (t : Task) (operation : string) : option (memM unit) :=
  if contains "copy" operation || contains "datacopy" operation || contains "data_copy" operation then
    Some (copy sim t)
  else if dmem BINARY_OPERATIONS operation then Some (binary sim t operation)
  else if dmem BITWISE_BINARY_OPERATIONS operation then Some (bitwise_binary sim t operation)
  else if dmem SCALAR_OPERATIONS operation then Some (binary sim t operation)
  else if mem_str operation ["axpy"] then Some (axpy sim t)
  else if mem_str operation ["mul_add_dst"] then Some (mul_add_dst sim t)
  else if mem_str operation ["mma"; "mma_bias"] then Some (mma sim t)
  else if mem_str operation ["gemm_v0"] then Some (gemm_v0 sim t)
  else if mem_str operation ["im2col"] then Some (im2col sim t)
  else if dmem UNARY_OPERATIONS operation then Some (unary sim t operation)
  else if mem_str operation ["bitwise_not"] then Some (bitwise_not sim t)
  else if mem_str operation ["bitwise_lshift"; "bitwise_rshift"] then Some (bitwise_shift sim t operation)
  else if mem_str operation ["cast"] then Some (cast sim t)
  else if mem_str operation ["fill"] then Some (fill sim t)
  else if mem_str operation ["reducesum_experiment"] then Some (reduce_sum_experiment sim t)
  else if mem_str operation ["sum_experiment"] then Some (sum_experiment sim t)
  else if mem_str operation ["brcb_experiment"] then Some (brcb sim t)
  else if mem_str operation ["row_expand_mul_experiment"; "row_expand_sub_experiment";
                             "row_expand_div_experiment"] then Some (row_expand_binop sim t)
  else if mem_str operation ["arith_progression"; "createvecindex"] then Some (sequence sim t)
  else if mem_str operation ["gather"] then Some (gather sim t)
  else if mem_str operation ["gatherb"] then Some (gatherb sim t)
  else if mem_str operation ["gather_mask"] then Some (gather_mask sim t)
  else if mem_str operation ["transpose"] then Some (transpose sim t)
  else if mem_str operation ["reinterpretcast"] then Some (reinterpretcast sim t)
  else if mem_str operation ["topk"] then Some (topk sim t)
  else if mem_str operation ["sort32"] then Some (sort32 sim t)
  else if mem_str operation ["sort"] then Some (sort sim t)
  else if mem_str operation ["init_sort_buf"] then Some (init_sort_buf sim t)
  else if mem_str operation ["merge_sort"] then Some (merge_sort sim t)
  else if mem_str operation ["atomic_add_ub_to_gm"] then Some (atomic_add sim t)
  else if mem_str operation ["atomic_add_l0c_to_gm"] then Some (atomic_add_l0c sim t)
  else if mem_str operation ["clamp"; "clamp_max"; "clamp_min"] then Some (clamp sim t operation)
  else if mem_str operation ["broadcast"; "tail_broadcast"] then Some (broadcast sim t)
  else if mem_str operation ["compare"; "compare_scalar"] then Some (compare sim t)
  else if mem_str operation ["tail_compare"; "tail_compare_scalar"] then Some (tail_compare sim t)
  else if mem_str operation ["select"] then Some (select sim t)
  else if mem_str operation ["tail_select"] then Some (tail_select sim t)
  else if mem_str operation ["reduce"] then
    Some (match task_meta t "reduce_kind" with
          | VStr kind => if dmem REDUCE_OPERATIONS kind then reduce sim t kind
                         else st_raise (Exn UnsupportedSimOpError "unsupported reduce kind" [kind])
          | _ => st_raise (Exn UnsupportedSimOpError "unsupported reduce kind" [])
          end)
  else if mem_str operation ["block_reduce_max"; "block_reduce_min"; "block_reduce_sum"] then
    Some (block_reduce sim t)
  else if mem_str operation ["wholereducemax"; "wholereducemin"; "wholereducesum"] then
    Some (whole_reduce sim t)
  else if dmem REDUCE_OPERATIONS operation then Some (reduce sim t operation)
  else if mem_str operation SYNCHRONIZATION_OPERATIONS then Some (mret tt)
  else None.

(** The operations [_execute_sync_only] supports besides synchronization. *)
Definition sync_only_supported (operation : string) : bool :=
  contains "copy" operation || contains "datacopy" operation || contains "data_copy" operation ||
  dmem BINARY_OPERATIONS operation || dmem BITWISE_BINARY_OPERATIONS operation ||
  dmem SCALAR_OPERATIONS operation || dmem UNARY_OPERATIONS operation ||
  dmem REDUCE_OPERATIONS operation || mem_str operation SYNC_ONLY_EXPLICIT_OPERATIONS.

(** [sources_initialized]: every read region is checked, and all must be initialized. *)
Fixpoint check_sources (sim : Simulator) (core : Z) (regions : list BufferRegion) (initialized : bool)
    : memM bool :=
  match regions with
  | [] => mret initialized
  | region :: regions =>
      av ← resolve sim region core;
      known ← check_initialized av.1 (TView av.2);
      check_sources sim core regions (initialized && known)
  end.

(** One written region; the flag tells whether it is the padding. *)
Definition mark_written (sim : Simulator) (core : Z) (initialized : bool) (w : bool * BufferRegion)
    : memM unit :=
  av ← resolve sim w.2 core;
  mark_initialized av.1 (TView av.2) (if w.1 then true else initialized).

(** The written regions in order; those under [pad_dst] are the padding.  (The code compares the
    padding by identity: an object occurs under one key.) *)
Definition written_regions (t : Task) : list (bool * BufferRegion) :=
  let pad := bool_decide (is_Some (as_region (task_meta t "pad_dst"))) in
  flat_map (λ key, (λ r, (mem_str key ["pad_dst"] && pad, r)) <$> regions_under t key) WRITE_REGION_KEYS.

(** An atomic addition also reads what it writes. *)
Definition atomic_reads (reads : list BufferRegion) (writes : list (bool * BufferRegion)) : list BufferRegion :=
  foldl (λ acc w, if bool_decide (w.2 ∈ acc) || w.1 then acc else acc ++ [w.2]) reads writes.

(** [_execute_sync_only] *)
Definition execute_sync_only (sim : Simulator) (t : Task) (operation : string) : memM unit :=
  if mem_str operation SYNCHRONIZATION_OPERATIONS then mret tt
  else if negb (sync_only_supported operation) then
    st_raise (Exn UnsupportedSimOpError "sync-only execution is not implemented" [Program.operation t; task_id t])
  else if mem_str operation ["reinterpretcast"] then reinterpretcast sim t
  else
    let writes := written_regions t in
    let reads := metadata_regions t READ_REGION_KEYS in
    let reads := if startswith "atomic_add" operation then atomic_reads reads writes else reads in
    initialized ← check_sources sim (core_id t) reads true;
    st_iter (mark_written sim (core_id t) initialized) writes.

(** [_execute] *)
Definition execute (sim : Simulator) (t : Task) : memM unit :=
  if is_true (task_meta t "trace_only") then mret tt
  else
    let operation := lower (operation t) in
    if mem_str operation ["buffer_store"] then
      if negb (has_meta t "store_value") then
        st_raise (Exn UnsupportedSimOpError "buffer_store requires an executable scalar value" [])
      else
        value ← evaluate_tir_scalar sim (core_id t) (node_of (task_meta t "store_value"));
        destination ← op t "dst";
        a ← st_lift (np_asarray (APy (VList [number_value value])) None);
        wr sim t destination (AArr a)
    else if sync_only (sim_config sim) then execute_sync_only sim t operation
    else match handler sim t operation with
    | Some h => h
    | None => st_raise (Exn UnsupportedSimOpError "functional execution is not implemented"
                          [Program.operation t; task_id t])
    end.
End executor.
