(* ===== verification/FunctionalSim.v ===== *)
(** [FunctionalSimulator] of [executor.py], as a whole: the contracts its constructor checks, the
    program that data-dependent branches leave ([_program_for_dynamic_control]), and [run], which
    schedules that program and applies its tasks to memory. *)

From S2P Require Import Prelude PyDict PySort PyStr Errors Values Layout Program Trace Config Hazard.
From S2P Require Import SyncOps SyncReset SyncModel Scheduler Intervals MemoryView Memory Stats.
From S2P Require Import PyFloat PyNum Numpy ExecOrder ExecEnv ExecOps ExecKernels ExecGather Executor.
Local Open Scope string_scope.
Local Open Scope Z_scope.
Local Open Scope list_scope.

(** ** [_validate_runtime_contracts] *)

(** [isinstance(task.metadata.get(key), Mapping)] *)
Definition meta_details (t : Task) (key : string) : option mapping :=
  match task_meta t key with VDict d => Some d | _ => None end.

Definition mma_contract (b : bindings) (d : mapping) : result unit :=
  actual_cols ← resolve_key b d "n_actual";
  template_cols ← resolve_key b d "cols";
  _ ← ensure (negb ((actual_cols <=? 0) || (template_cols <? actual_cols))) ProgramValidationError "mma n_actual";
  ensure (actual_cols mod 16 =? 0) ProgramValidationError "mma n_actual must be a multiple of 16".
Definition topk_contract (b : bindings) (d : mapping) : result unit :=
  actual_num ← resolve_key b d "actual_num";
  k ← resolve_key b d "k";
  max_actual_num ← resolve_key b d "max_actual_num";
  ensure (negb ((actual_num <? k) || (max_actual_num <? actual_num))) ProgramValidationError "topk actual_num".
Definition sort_contract (b : bindings) (d : mapping) : result unit :=
  actual_num ← resolve_key b d "actual_num";
  repeat_times ← resolve_key b d "repeat_times";
  capacity ← resolve_key b d "source_capacity";
  _ ← ensure (negb ((actual_num <=? 0) || (capacity <? actual_num))) ProgramValidationError "sort actual_num";
  ensure (repeat_times =? (actual_num + 31) / 32) ProgramValidationError "sort repeatTimes".
Definition contract_of (check : bindings → mapping → result unit) (b : bindings) (t : Task) (key : string)
    : result unit :=
  match meta_details t key with Some d => check b d | None => Ok tt end.
Definition task_contract (b : bindings) (t : Task) : result unit :=
  _ ← contract_of mma_contract b t "mma";
  _ ← contract_of topk_contract b t "topk";
  contract_of sort_contract b t "sort".

Definition validate_runtime_contracts (program : KernelProgram) (b : bindings) : result unit :=
  ofold (λ _ t, task_contract b t) (tasks program) tt.

(** [FunctionalSimulator.__init__]: the simulator and its memory. *)
Definition functional_init (program : KernelProgram) (config : option SimulatorConfig) (b : bindings)
    : result (Simulator * MemoryRuntime) :=
  config ← match config with
           | Some c => Ok c
           | None => config_init (default_config_args (kp_platform program))
           end;
  _ ← ensure (mem_str (platform config) [kp_platform program]) ProgramValidationError
        "functional simulator config platform does not match the program";
  _ ← validate_runtime_contracts program b;
  memory ← from_program program (hazard_check config) b;
  Ok (MkSim program config b None, memory).

(** ** Data-dependent branches *)

(** [(predicate_id, condition, expected)] *)
Record predicate := MkPredicate { pr_id : Z; pr_condition : pyval; pr_expected : bool }.

Definition predicate_of (v : pyval) : result predicate :=
  l ← sequence_of v;
  match l with
  | [id; condition; VBool expected] => i ← int_of id; Ok (MkPredicate i condition expected)
  | _ => raise ValueError "unpack"
  end.
(** [task.metadata.get("dynamic_predicates", ())] *)
Definition predicates_of (t : Task) : result (list predicate) :=
  match dget (metadata t) "dynamic_predicates" with
  | None => Ok []
  | Some v => l ← sequence_of v; omap_list predicate_of l
  end.
Definition is_dynamic (t : Task) : bool := truthy (task_meta t "dynamic_predicates").

(** The fixed choice of a synchronization-only run. *)
Definition chosen_task (choose_then : bool) (t : Task) : result bool :=
  ps ← predicates_of t; Ok (forallb (λ p, Bool.eqb (pr_expected p) choose_then) ps).
Definition chosen_active (dynamic_if : string) (ts : list Task) : result (list string) :=
  if mem_str dynamic_if ["error"] then
    raise UnsupportedSimOpError "data-dependent if condition has no numeric value when sync_only=True"
  else
    ofold (λ acc t, keep ← chosen_task (mem_str dynamic_if ["then"]) t;
                    Ok (if keep : bool then acc ++ [task_id t] else acc)) ts [].

Section probe.
Context {NP : Numpy} (node_of : pyval → tir).

(** The predicates of one task: each is decided once; the first that fails drops the task. *)
Fixpoint decide_predicates (sim : Simulator) (core : Z) (ps : list predicate) (decisions : dict Z bool)
    : memM (bool * dict Z bool) :=
  match ps with
  | [] => mret (true, decisions)
  | p :: ps =>
      decisions ← match dget decisions (pr_id p) with
                  | Some _ => mret decisions
                  | None => n ← evaluate_tir_scalar sim core (node_of (pr_condition p));
                            mret (dset decisions (pr_id p) (number_truth n))
                  end;
      if Bool.eqb (dget_default false decisions (pr_id p)) (pr_expected p)
      then decide_predicates sim core ps decisions
      else mret (false, decisions)
  end.

(** The probe executes the selected tasks in program order. *)
Fixpoint probe_tasks (sim : Simulator) (ts : list Task) (decisions : dict Z bool) (active : list string)
    : memM (list string) :=
  match ts with
  | [] => mret active
  | t :: ts =>
      let on := on_lane (Some (lane t)) sim in
      ps ← st_lift (predicates_of t);
      '(selected, decisions) ← decide_predicates on (core_id t) ps decisions;
      if selected : bool then
        _ ← execute node_of on t;
        probe_tasks sim ts decisions (active ++ [task_id t])
      else probe_tasks sim ts decisions active
  end.

(** The memory of the probe: that of a new simulator with the contents of this one. *)
Definition copy_space (source : MemoryRuntime) (target : MemoryRuntime) (key : SpaceKey) : result MemoryRuntime :=
  if dmem (rt_spaces target) key then Ok (set_space key (get_space source key) target)
  else raise KeyError "address space".
Definition probe_memory (sim : Simulator) (s : MemoryRuntime) : result MemoryRuntime :=
  '(_, probe) ← functional_init (sim_program sim) (Some (sim_config sim)) (sim_bindings sim);
  ofold (copy_space s) (dkeys (rt_spaces s)) probe.

(** The tasks that run. *)
Definition active_tasks (sim : Simulator) (s : MemoryRuntime) : result (list string) :=
  if sync_only (sim_config sim) then chosen_active (dynamic_if (sim_config sim)) (tasks (sim_program sim))
  else
    probe ← probe_memory sim s;
    (probe_tasks sim (tasks (sim_program sim)) [] [] probe).2.
End probe.

(** A task that a branch not taken removes. *)
Definition dropped (active : list string) (t : Task) : bool := is_dynamic t && negb (mem_str (task_id t) active).

Section dependencies.
Context (by_id : dict string Task) (active : list string).

(** The loop of [active_dependency_ids]: a dropped dependency is replaced by its own. *)
Fixpoint expand (fuel : nat) (pending : list string) (resolved : gset string) : result (gset string) :=
  match pending with
  | [] => Ok resolved
  | d :: pending =>
      match fuel with
      | O => raise RecursionError "active_dependency_ids"
      | S fuel =>
          candidate ← dindex by_id d "task_by_id";
          if dropped active candidate then expand fuel (rev (dependencies candidate) ++ pending) resolved
          else expand fuel pending ({[d]} ∪ resolved)
      end
  end.

(** The number of iterations the loop takes for one dependency. *)
Fixpoint expansion_cost (depth : nat) (d : string) : nat :=
  match depth with
  | O => 1
  | S depth =>
      match dget by_id d with
      | Some candidate =>
          if dropped active candidate then S (sum_list_with (expansion_cost depth) (dependencies candidate)) else 1
      | None => 1
      end
  end.

(** [active_dependency_ids]; the list is a stack whose top is the last element. *)
Definition active_dependency_ids (ds : list string) : result (list string) :=
  let fuel := sum_list_with (expansion_cost (S (length by_id))) ds in
  resolved ← expand fuel (rev ds) ∅;
  Ok (py_sorted str_leb (elements resolved)).
End dependencies.

(** [replace(task, dependencies=..., metadata=...)] *)
Definition rewire_task (by_id : dict string Task) (active : list string) (t : Task) : result Task :=
  metadata' ← match as_sequence (task_meta t "memory_dependencies") with
              | None => Ok (metadata t)
              | Some l =>
                  names ← omap_list str_of_value l;
                  ids ← active_dependency_ids by_id active names;
                  Ok (dset (metadata t) "memory_dependencies" (VTuple (VStr <$> ids)))
              end;
  ds ← active_dependency_ids by_id active (dependencies t);
  task_init (task_id t) (operation t) (core_id t) (lane_value (lane t)) (pipe_value (pipe t))
    (duration_cycles t) ds (stage t) metadata'.

Definition kept_tasks (active : list string) (ts : list Task) : list Task :=
  filter (λ t, dropped active t = false) ts.

Definition rewire_core (by_id : dict string Task) (active : list string) (core : CoreProgram) : result CoreProgram :=
  ts ← omap_list (rewire_task by_id active) (kept_tasks active (cp_tasks core));
  core_program_init (cp_core_id core) ts.

(** The program without the branches not taken. *)
Definition resolved_program (program : KernelProgram) (active : list string) : result KernelProgram :=
  let by_id := dict_of_pairs ((λ t, (task_id t, t)) <$> tasks program) in
  cores ← omap_list (rewire_core by_id active) (kp_cores program);
  kernel_program_init (kp_name program) (kp_platform program) cores (kp_buffers program) (kp_metadata program).

Section run.
Context {NP : Numpy} (node_of : pyval → tir).

(** [_program_for_dynamic_control]; [cached] is [_resolved_dynamic_program]. *)
Definition program_for_dynamic_control (sim : Simulator) (cached : option KernelProgram) (s : MemoryRuntime)
    : result KernelProgram :=
  match cached with
  | Some program => Ok program
  | None =>
      if existsb is_dynamic (tasks (sim_program sim)) then
        active ← active_tasks node_of sim s;
        resolved_program (sim_program sim) active
      else Ok (sim_program sim)
  end.

(** The tasks in order, each on its own lane. *)
Definition execute_all (sim : Simulator) (order : list Task) : memM unit :=
  st_iter (λ t, execute node_of (on_lane (Some (lane t)) sim) t) order.

Record FunctionalExecutionResult := MkExecution {
  fx_records : list ExecutionRecord;
  fx_stats : SimulationStats;
  fx_memory : MemoryRuntime;
  fx_numeric_results_available : bool;
}.

Definition sync_cfg_of (c : SimulatorConfig) : sync_cfg :=
  MkSyncCfg (cfg_flag_blocking c) (cfg_local_flag_depth c) (cfg_cross_flag_depth c).

(** The scheduler with the flag/barrier model the simulator configures. *)
Definition scheduler_run (set_order : gset string → list string) (clock : nat → Q) (sim : Simulator)
    (fuel : nat) (program : KernelProgram) : option (result (list ExecutionRecord * SimulationStats)) :=
  @Stats.run _ (FlagBarrierSynchronizationModel (sync_cfg_of (sim_config sim))) set_order clock
    (Some (sim_config sim)) fuel program (sim_bindings sim).

(** [run]: [None] is an exhausted step budget of the scheduler. *)
Definition run_functional (set_order : gset string → list string) (clock : nat → Q) (fuel : nat)
    (sim : Simulator) (cached : option KernelProgram) (s : MemoryRuntime)
    : option (result FunctionalExecutionResult) :=
  match program_for_dynamic_control sim cached s with
  | Raise e => Some (Raise e)
  | Ok program =>
      match scheduler_run set_order clock sim fuel program with
      | None => None
      | Some scheduled =>
          Some ('(records, _) ← scheduled;
                order ← functional_execution_order program records;
                let '(s', answer) := execute_all sim order s in
                _ ← answer;
                stats ← from_records records (sim_bindings sim) (diagnostics (rt_reporter s'))
                          (local_memory_high_watermark_bytes s');
                Ok (MkExecution records stats s' (negb (sync_only (sim_config sim)))))
      end
  end.
End run.
