(* ===== verification/ExecFrame.v ===== *)
(** What a task of the executor may change: a program logic for its handlers, and the frame.  A
    handler reads regions its task names, writes regions its task names as written, and otherwise
    computes; so any property of memory programs that is closed under sequencing and holds of
    these accesses holds of every handler.  Executing a task keeps the memory runtime well formed
    and changes bytes only inside the allocations of the buffers the task names as written, also
    when it fails half-way. *)

From S2P Require Import Prelude PyDict PySort PyStr Errors PyFloat Layout Values Program Trace.
From S2P Require Import Config Hazard Intervals MemoryView Memory MemoryProofs PyNum Numpy ExecEnv.
From S2P Require Import ExecOps ExecKernels ExecGather Executor.
Local Open Scope string_scope.
Local Open Scope Z_scope.
Local Open Scope list_scope.

(** ** The regions a task names *)

(** Two regions of the same buffer of the same owner. *)
Definition same_place (x y : BufferRegion) : Prop :=
  rg_buffer x = rg_buffer y ∧ rg_scope x = rg_scope y ∧ rg_core_id x = rg_core_id y.

(** The region lies in a buffer of [W]. *)
Definition in_frame (W : list BufferRegion) (region : BufferRegion) : Prop := ∃ w, w ∈ W ∧ same_place region w.

(** Every region the task names under a key. *)
Definition regions_named (t : Task) (key : string) : list BufferRegion :=
  match task_meta t key with
  | VRegion r => [r]
  | VTuple l | VList l => omap as_region l
  | _ => []
  end.
Definition writable (t : Task) : list BufferRegion := flat_map (regions_named t) WRITE_REGION_KEYS.
Definition readable (t : Task) : list BufferRegion := flat_map (regions_named t) (READ_REGION_KEYS ++ WRITE_REGION_KEYS).

Lemma named_key keys t key r :
  key ∈ keys → r ∈ regions_named t key → in_frame (flat_map (regions_named t) keys) r.
Proof.
  intros Hk Hr. exists r. split; [|done]. apply list_elem_of_In, in_flat_map. exists key.
  by rewrite <- !list_elem_of_In.
Qed.
Lemma named_operand keys t key r :
  key ∈ keys → task_meta t key = VRegion r → in_frame (flat_map (regions_named t) keys) r.
Proof. intros Hk Hr. apply (named_key keys t key); [done|]. unfold regions_named. rewrite Hr. by left. Qed.

Lemma writable_key t key r :
  key ∈ WRITE_REGION_KEYS → r ∈ regions_named t key → in_frame (writable t) r.
Proof. apply named_key. Qed.
Lemma writable_operand t key r :
  key ∈ WRITE_REGION_KEYS → task_meta t key = VRegion r → in_frame (writable t) r.
Proof. apply named_operand. Qed.
Lemma readable_operand t key r :
  key ∈ READ_REGION_KEYS ++ WRITE_REGION_KEYS → task_meta t key = VRegion r → in_frame (readable t) r.
Proof. apply named_operand. Qed.

Lemma in_frame_same_place W r r' : in_frame W r → same_place r' r → in_frame W r'.
Proof.
  intros (w & Hw & H1 & H2 & H3) (H4 & H5 & H6). exists w. split; [done|]. split_and!; congruence.
Qed.

Lemma region_with_place r shape off r' : region_with r shape off = Ok r' → same_place r' r.
Proof.
  unfold region_with, buffer_region_init. intros H. inv_res. rewrite parse_scope_value in *. by simplify_eq.
Qed.

Lemma as_region_inv v r : as_region v = Some r → v = VRegion r.
Proof. destruct v; try done. intros [= ->]. done. Qed.

(** ** The logic *)

Class TaskLogic {NP : Numpy} (sim : Simulator) (t : Task) (ok : ∀ A : Type, memM A → Prop) : Prop := {
  tl_ret : ∀ A (a : A), ok A (mret a);
  tl_lift : ∀ A (r : result A), ok A (st_lift r);
  (** sequencing; [Q] is what every successful execution of [m] guarantees of its answer *)
  tl_bind_post : ∀ A B (m : memM A) (f : A → memM B) (Q : A → Prop),
    ok A m → (∀ s s' a, m s = (s', Ok a) → Q a) → (∀ a, Q a → ok B (f a)) → ok B (m ≫= f);
  tl_rd : ∀ region, in_frame (readable t) region → ok array (rd sim t region);
  tl_wr : ∀ region values, in_frame (writable t) region → ok unit (wr sim t region values);
}.

(** ** Derived rules *)

Create HintDb logic.
Create HintDb handlers.

Section handlers.
Context {NP : Numpy} (sim : Simulator) (t : Task) (ok : ∀ A : Type, memM A → Prop) {TL : TaskLogic sim t ok}.

Lemma ok_ret {A} (a : A) : ok A (mret a).
Proof. apply tl_ret. Qed.
Lemma ok_lift {A} (r : result A) : ok A (st_lift r).
Proof. apply tl_lift. Qed.
Lemma ok_raise {A} e : ok A (st_raise e).
Proof. exact (tl_lift A (Raise e)). Qed.
Lemma ok_bind {A B} (m : memM A) (f : A → memM B) : ok A m → (∀ a, ok B (f a)) → ok B (m ≫= f).
Proof. intros Hm Hf. apply (tl_bind_post A B m f (λ _, True)); auto. Qed.
Lemma ok_bind_lift {A B} (r : result A) (f : A → memM B) :
  (∀ a, r = Ok a → ok B (f a)) → ok B (st_lift r ≫= f).
Proof.
  intros Hf. apply (tl_bind_post A B _ _ (λ a, r = Ok a)); [apply tl_lift| |done].
  unfold st_lift. intros s s' a H. by injection H.
Qed.
Lemma ok_bind_op {B} name (f : BufferRegion → memM B) :
  (∀ r, task_meta t name = VRegion r → ok B (f r)) → ok B (op t name ≫= f).
Proof.
  intros Hf. apply ok_bind_lift. intros r Hr. apply Hf. unfold operand in Hr.
  destruct (as_region _) eqn:E; [|done]. injection Hr as ->. by apply as_region_inv.
Qed.
Lemma ok_iter {A} (f : A → memM unit) l : (∀ a, a ∈ l → ok unit (f a)) → ok unit (st_iter f l).
Proof.
  induction l as [|a l IH]; intros Hf; cbn [st_iter]; [apply ok_ret|].
  apply ok_bind; [apply Hf; by left|]. intros _. apply IH. intros x Hx. apply Hf. by right.
Qed.
Lemma ok_map {A B} (f : A → memM B) l : (∀ a, a ∈ l → ok B (f a)) → ok (list B) (st_map f l).
Proof.
  induction l as [|a l IH]; intros Hf; cbn [st_map]; [apply ok_ret|].
  apply ok_bind; [apply Hf; by left|]. intros b. apply ok_bind; [|intros; apply ok_ret].
  apply IH. intros x Hx. apply Hf. by right.
Qed.
#[local] Hint Extern 1 (in_frame (writable _) _) =>
  eapply writable_operand;
    [|first [eassumption | eapply as_region_inv; eassumption]]; apply mem_str_true; reflexivity : logic.
#[local] Hint Extern 1 (in_frame (readable _) _) =>
  eapply readable_operand;
    [|first [eassumption | eapply as_region_inv; eassumption]]; apply mem_str_true; reflexivity : logic.

(** Walk through a handler: name its operands, bind, and split every case. *)
Ltac walk :=
  repeat first
    [ progress intros
    | simple apply (tl_rd (sim := sim) (t := t)); solve [eauto 3 with logic]
    | simple apply (tl_wr (sim := sim) (t := t)); solve [eauto 3 with logic]
    | simple apply ok_bind_op
    | simple apply ok_bind_lift
    | simple apply ok_bind
    | simple apply ok_ret
    | simple apply ok_lift
    | simple apply ok_raise
    | solve [eauto 3 with logic]
    | case_match ].

#[local] Hint Unfold binary bitwise_binary axpy mul_add_dst unary bitwise_not bitwise_shift cast fill sequence
  clamp broadcast transpose compare select tail_compare tail_select right_operand mma gemm_v0 im2col
  row_expand_binop gather gatherb gather_mask topk sort sort32 atomic_add atomic_add_l0c
  reduce_sum_experiment sum_experiment block_reduce whole_reduce reduce : handlers.

(** ** The handlers *)

Lemma regions_of_in l rs r : regions_of l = Ok rs → r ∈ rs → r ∈ omap as_region l.
Proof.
  intros H%omap_list_ok Hr. apply list_elem_of_lookup in Hr as [i Hi].
  destruct (Forall2_lookup_r _ _ _ _ _ H Hi) as (v & Hv & Heq).
  apply list_elem_of_omap. exists v. split; [by eapply list_elem_of_lookup_2|].
  destruct (as_region v); by simplify_eq.
Qed.

Lemma sequence_named key l : as_sequence (task_meta t key) = Some l → regions_named t key = omap as_region l.
Proof. unfold regions_named, as_sequence. by destruct (task_meta t key); intros; simplify_eq. Qed.

Definition all_writable (rs : list BufferRegion) : Prop := ∀ r, r ∈ rs → in_frame (writable t) r.

(** The destinations of a copy are written regions, its sources read ones. *)
Lemma destinations_writable l rs :
  as_sequence (task_meta t "dst_regions") = Some l → regions_of l = Ok rs → all_writable rs.
Proof.
  intros Hl Hrs r Hr. apply (writable_key t "dst_regions"); [by apply mem_str_true|].
  rewrite (sequence_named _ l Hl). by eapply regions_of_in.
Qed.
Lemma sources_readable l r :
  as_sequence (task_meta t "src_regions") = Some l → r ∈ omap as_region l → in_frame (readable t) r.
Proof.
  intros Hl Hr. apply (named_key _ t "src_regions"); [by apply mem_str_true|].
  by rewrite (sequence_named _ l Hl).
Qed.

Lemma write_parts_ok flattened offset rs : all_writable rs → ok Z (write_parts sim t flattened offset rs).
Proof.
  revert offset; induction rs as [|r rs IH]; intros offset Hrs; cbn [write_parts]; [walk|].
  apply ok_bind; [|intros o; apply IH; intros x Hx; apply Hrs; by right].
  assert (in_frame (writable t) r) by (apply Hrs; by left). unfold write_part. walk.
Qed.

Lemma write_chunks_ok d w data rs : all_writable rs → ok unit (write_chunks sim t d w data rs).
Proof.
  revert data; induction rs as [|r rs IH]; intros data Hrs; cbn [write_chunks]; [walk|].
  assert (in_frame (writable t) r) by (apply Hrs; by left).
  apply ok_bind; [walk|]. intros _. apply IH. intros x Hx. apply Hrs. by right.
Qed.

Lemma copy_zN_ok details rs r values : all_writable rs → ok _ (copy_zN sim t details rs r values).
Proof.
  intros Hrs. unfold copy_zN. pose proof write_parts_ok. pose proof write_chunks_ok. walk.
Qed.

Lemma copy_source_ok details source :
  in_frame (readable t) source → ok array (copy_source sim t details source).
Proof.
  intros Hs. unfold copy_source. destruct (as_sequence _) as [l|] eqn:El; [|walk].
  apply ok_bind_lift. intros rs Hrs. apply ok_bind; [|walk]. apply ok_map. intros r Hr.
  apply tl_rd. eapply sources_readable; [exact El|]. by eapply regions_of_in.
Qed.

Lemma write_padding_ok details : ok unit (write_padding sim t details).
Proof. unfold write_padding. walk. Qed.

Lemma copy_ok : ok unit (copy sim t).
Proof.
  unfold copy. apply ok_bind_op. intros source Hsource. apply ok_bind_lift. intros details _.
  apply (tl_bind_post _ _ _ _ all_writable).
  - walk.
  - intros s s' rs H. destruct (as_sequence (task_meta t "dst_regions")) as [l|] eqn:El.
    + unfold st_lift in H. injection H as _ H. by apply (destinations_writable l).
    + unfold op, operand in H. destruct (as_region (task_meta t "dst")) as [r|] eqn:Er; [|done].
      injection H as _ <-. intros x ->%list_elem_of_singleton.
      apply (writable_operand t "dst"); [by apply mem_str_true|by apply as_region_inv].
  - intros rs Hrs. apply ok_bind_lift. intros r Hr.
    assert (in_frame (writable t) r) by (destruct rs; [done|injection Hr as ->; apply Hrs; by left]).
    pose proof (copy_zN_ok details rs r). pose proof (write_padding_ok details).
    assert (ok array (copy_source sim t details source)).
    { apply copy_source_ok. apply (readable_operand t "src"); [by apply mem_str_true|done]. }
    walk.
Qed.

Lemma moved_writable destination shape off r :
  task_meta t "dst" = VRegion destination → region_with destination shape off = Ok r → in_frame (writable t) r.
Proof.
  intros Hd Hr. apply (in_frame_same_place _ destination); [|by eapply region_with_place].
  apply (writable_operand t "dst"); [by apply mem_str_true|done].
Qed.

#[local] Hint Extern 2 (in_frame (writable _) _) => eapply moved_writable; eassumption : logic.

Lemma brcb_block_ok destination d values blk rep base rb :
  task_meta t "dst" = VRegion destination → ok unit (brcb_block sim t destination d values blk rep base rb).
Proof. unfold brcb_block. intros Hd. destruct rb as [r k]. walk. Qed.

Lemma brcb_ok : ok unit (brcb sim t).
Proof. unfold brcb. pose proof brcb_block_ok. walk. apply ok_iter. auto. Qed.

Lemma init_sort_buf_ok : ok unit (init_sort_buf sim t).
Proof. unfold init_sort_buf. walk. Qed.

Lemma merge_sort_ok : ok unit (merge_sort sim t).
Proof.
  unfold merge_sort. apply ok_bind_op. intros destination Hd. do 2 (apply ok_bind_lift; intros ? _).
  apply ok_bind_lift. intros sources Hs. apply ok_bind; [|walk]. apply ok_map. intros r Hr.
  assert (in_frame (readable t) r); [|walk].
  destruct (as_sequence (task_meta t "src_regions")) as [l|] eqn:El; [|done].
  destruct (forallb _ l); [|done]. injection Hs as <-. by eapply sources_readable.
Qed.

(** ** Dispatch *)

Lemma handler_ok operation h :
  mem_str operation ["reinterpretcast"] = false → handler sim t operation = Some h → ok unit h.
Proof.
  intros Hre. unfold handler. rewrite Hre.
  pose proof copy_ok. pose proof brcb_ok. pose proof init_sort_buf_ok. pose proof merge_sort_ok.
  repeat match goal with
  | |- (if ?b then _ else _) = Some _ → _ =>
      destruct b; [intros [= <-]; clear Hre; first [assumption | autounfold with handlers; walk]|]
  end. done.
Qed.
End handlers.

(** ** Programs that keep a relation on states *)

Section steps.
Context (R : MemoryRuntime → MemoryRuntime → Prop).
Context (R_refl : ∀ s, R s s).
Context (R_trans : ∀ s1 s2 s3, R s1 s2 → R s2 s3 → R s1 s3).
Context (R_wf : ∀ s1 s2, R s1 s2 → runtime_wf s1 → runtime_wf s2).

(** Every execution of [m] from a well-formed state, successful or not, keeps [R]. *)
Definition keeps {A} (m : memM A) : Prop := ∀ s, runtime_wf s → R s (m s).1.

Lemma steps_ret {A} (a : A) : keeps (mret a).
Proof. intros s _. apply R_refl. Qed.
Lemma steps_lift {A} (r : result A) : keeps (st_lift r).
Proof. intros s _. apply R_refl. Qed.
Lemma steps_raise {A} e : keeps (A := A) (st_raise e).
Proof. intros s _. apply R_refl. Qed.

Lemma steps_bind_post {A B} (m : memM A) (f : A → memM B) (Q : A → Prop) :
  keeps m → (∀ s s' a, m s = (s', Ok a) → Q a) → (∀ a, Q a → keeps (f a)) → keeps (m ≫= f).
Proof.
  intros Hm HQ Hf s Hwf. unfold mbind, stM_bind. specialize (Hm s Hwf).
  destruct (m s) as [s' [a|e]] eqn:E; cbn in Hm; [|done].
  eapply R_trans; [exact Hm|]. apply Hf; [by eapply HQ|by eapply R_wf].
Qed.
Lemma steps_bind {A B} (m : memM A) (f : A → memM B) :
  keeps m → (∀ a, keeps (f a)) → keeps (m ≫= f).
Proof. intros Hm Hf. apply (steps_bind_post m f (λ _, True)); auto. Qed.
Lemma steps_bind_lift {A B} (r : result A) (f : A → memM B) :
  (∀ a, r = Ok a → keeps (f a)) → keeps (st_lift r ≫= f).
Proof.
  intros Hf. apply (steps_bind_post _ _ (λ a, r = Ok a)); [apply steps_lift| |done].
  unfold st_lift. intros s s' a H. by injection H.
Qed.

Lemma steps_iter {A} (f : A → memM unit) l : (∀ a, a ∈ l → keeps (f a)) → keeps (st_iter f l).
Proof.
  induction l as [|a l IH]; intros Hf; cbn [st_iter]; [apply steps_ret|].
  apply steps_bind; [apply Hf; by left|]. intros _. apply IH. intros x Hx. apply Hf. by right.
Qed.
Lemma steps_map {A B} (f : A → memM B) l : (∀ a, a ∈ l → keeps (f a)) → keeps (st_map f l).
Proof.
  induction l as [|a l IH]; intros Hf; cbn [st_map]; [apply steps_ret|].
  apply steps_bind; [apply Hf; by left|]. intros b. apply steps_bind; [|intros; apply steps_ret].
  apply IH. intros x Hx. apply Hf. by right.
Qed.
End steps.

(** ** The frame *)

(** Everything but the bytes, their poison and the reports stays. *)
Record stable (s s' : MemoryRuntime) : Prop := {
  sb_cores : rt_core_ids s' = rt_core_ids s;
  sb_offset : rt_vector1_owner_offset s' = rt_vector1_owner_offset s;
  sb_owners : rt_local_owner_ids s' = rt_local_owner_ids s;
  sb_capacities : rt_capacities s' = rt_capacities s;
  sb_allocations : rt_allocations s' = rt_allocations s;
  sb_next : rt_next_address s' = rt_next_address s;
  sb_mode : mode (rt_reporter s') = mode (rt_reporter s);
  sb_data : ∀ k, length (as_data (get_space s' k)) = length (as_data (get_space s k));
  sb_poison : ∀ k, length (as_initialized (get_space s' k)) = length (as_initialized (get_space s k));
}.

Lemma stable_refl s : stable s s.
Proof. by split. Qed.
Lemma stable_trans s1 s2 s3 : stable s1 s2 → stable s2 s3 → stable s1 s3.
Proof. intros [] []. split; congruence. Qed.

Lemma stable_wf s s' : stable s s' → runtime_wf s → runtime_wf s'.
Proof.
  intros [? ? ? Hc Ha Hn Hm Hd Hi] [H1 H2 H3 H4 H5 H6].
  split; rewrite ?Ha, ?Hc, ?Hn, ?Hm; try done.
  - intros k a Hin. destruct (H1 k a Hin). split; [done|by rewrite Hd|by rewrite Hd, Hi].
  - intros k. by rewrite Hd, Hi.
Qed.

Lemma stable_reporter s r : mode r = mode (rt_reporter s) → stable s (set_reporter r s).
Proof. intros Hm. by split. Qed.

Lemma get_stable s s' name scope owner : stable s s' → get s' name scope owner = get s name scope owner.
Proof. intros H. unfold get, normalize_owner. by rewrite (sb_owners _ _ H), (sb_allocations _ _ H). Qed.

(** The allocation a region names. *)
Definition allocation_of (sim : Simulator) (s : MemoryRuntime) (region : BufferRegion) (core : Z)
    : result MemoryAllocation :=
  owner ← region_owner sim s region core; get s (rg_buffer region) (rg_scope region) owner.

Lemma allocation_stable sim s s' region core :
  stable s s' → allocation_of sim s' region core = allocation_of sim s region core.
Proof.
  intros H. unfold allocation_of, region_owner, vector1_owner.
  rewrite (sb_cores _ _ H), (sb_offset _ _ H).
  destruct (is_shared _); [ok_bind; by apply get_stable|].
  case_bool_decide; [|ok_bind; by apply get_stable].
  destruct (ensure _ _ _); ok_bind; [by apply get_stable|done].
Qed.

Lemma allocation_same_place sim s x y core :
  same_place x y → allocation_of sim s x core = allocation_of sim s y core.
Proof. intros (H1 & H2 & H3). unfold allocation_of, region_owner. by rewrite H1, H2, H3. Qed.

Lemma resolve_in_allocation sim s region core a v :
  resolve_in sim s region core = Ok (a, v) → allocation_of sim s region core = Ok a.
Proof.
  unfold resolve_in, allocation_of. intros (owner & -> & H)%outcome_bind_ok.
  apply outcome_bind_ok in H as (a' & Ha & H). ok_bind. rewrite Ha. inv_ok. congruence.
Qed.

Lemma resolve_in_stable sim s s' region core :
  stable s s' → resolve_in sim s' region core = resolve_in sim s region core.
Proof.
  intros H. unfold resolve_in, region_owner, vector1_owner.
  rewrite (sb_cores _ _ H), (sb_offset _ _ H).
  match goal with |- (?m ≫= _) = _ => destruct m as [owner|e] end; ok_bind; [|done].
  by rewrite (get_stable s s').
Qed.

Section frame.
Context {NP : Numpy} (sim : Simulator) (core : Z).

(** Bytes outside the allocations of the regions [W] keep their value and their poison. *)
Record untouched (W : list BufferRegion) (s s' : MemoryRuntime) : Prop := {
  ut_stable : stable s s';
  ut_bytes : ∀ k z, 0 <= z →
    (∀ region a, region ∈ W → allocation_of sim s region core = Ok a → al_space a = k →
       ¬ (al_address a <= z < al_end a)) →
    as_data (get_space s' k) !! Z.to_nat z = as_data (get_space s k) !! Z.to_nat z ∧
    as_initialized (get_space s' k) !! Z.to_nat z = as_initialized (get_space s k) !! Z.to_nat z;
}.

Context (W : list BufferRegion).

Lemma untouched_refl s : untouched W s s.
Proof. split; [apply stable_refl|done]. Qed.

Lemma untouched_trans s1 s2 s3 : untouched W s1 s2 → untouched W s2 s3 → untouched W s1 s3.
Proof.
  intros [H1 B1] [H2 B2]. split; [by eapply stable_trans|]. intros k z Hz Hout.
  destruct (B1 k z Hz Hout) as [<- <-]. apply (B2 k z Hz). intros region a Hr Ha.
  rewrite (allocation_stable sim s1) in Ha by done. by eapply Hout.
Qed.

Lemma untouched_wf s1 s2 : untouched W s1 s2 → runtime_wf s1 → runtime_wf s2.
Proof. intros [H _]. by apply stable_wf. Qed.

Lemma untouched_reporter s r : mode r = mode (rt_reporter s) → untouched W s (set_reporter r s).
Proof. intros H. split; [by apply stable_reporter|done]. Qed.

Definition confined {A} (m : memM A) : Prop := keeps (untouched W) m.

Lemma confined_ret {A} (a : A) : confined (mret a).
Proof. apply steps_ret, untouched_refl. Qed.
Lemma confined_lift {A} (r : result A) : confined (st_lift r).
Proof. apply steps_lift, untouched_refl. Qed.
Lemma confined_raise {A} e : confined (A := A) (st_raise e).
Proof. apply steps_raise, untouched_refl. Qed.
Lemma confined_bind_post {A B} (m : memM A) (f : A → memM B) (Q : A → Prop) :
  confined m → (∀ s s' a, m s = (s', Ok a) → Q a) → (∀ a, Q a → confined (f a)) → confined (m ≫= f).
Proof. apply steps_bind_post; [apply untouched_trans|apply untouched_wf]. Qed.
Lemma confined_bind {A B} (m : memM A) (f : A → memM B) :
  confined m → (∀ a, confined (f a)) → confined (m ≫= f).
Proof. apply steps_bind; [apply untouched_trans|apply untouched_wf]. Qed.
Lemma confined_bind_lift {A B} (r : result A) (f : A → memM B) :
  (∀ a, r = Ok a → confined (f a)) → confined (st_lift r ≫= f).
Proof. apply steps_bind_lift; [apply untouched_refl|apply untouched_trans|apply untouched_wf]. Qed.
Lemma confined_bind_op {B} t name (f : BufferRegion → memM B) :
  (∀ r, task_meta t name = VRegion r → confined (f r)) → confined (op t name ≫= f).
Proof.
  intros Hf. apply confined_bind_lift. intros r Hr. apply Hf. unfold operand, as_region in Hr.
  destruct (task_meta t name); try done. by injection Hr as ->.
Qed.
Lemma confined_iter {A} (f : A → memM unit) l : (∀ a, a ∈ l → confined (f a)) → confined (st_iter f l).
Proof. apply steps_iter; [apply untouched_refl|apply untouched_trans|apply untouched_wf]. Qed.
Lemma confined_map {A B} (f : A → memM B) l : (∀ a, a ∈ l → confined (f a)) → confined (st_map f l).
Proof. apply steps_map; [apply untouched_refl|apply untouched_trans|apply untouched_wf]. Qed.

(** ** The memory operations *)

Lemma confined_report et d : confined (rt_report et d).
Proof.
  intros s _. destruct (rt_report_only et d s) as (r & Hr & Hm). rewrite Hr.
  by apply untouched_reporter.
Qed.

Lemma confined_check_ranges a rs : confined (check_initialized_ranges a rs).
Proof.
  intros s Hwf. unfold check_initialized_ranges, mbind, stM_bind, st_get.
  destruct (flat_map _ rs) as [|[x y] l]; [apply untouched_refl|].
  match goal with |- context [rt_report ?e ?d s] => pose proof (confined_report e d s Hwf) as H;
    destruct (rt_report e d s) as [s' [u|]] end; exact H.
Qed.

Lemma confined_memory_read a tg : confined (Memory.read a tg).
Proof.
  apply confined_bind_lift. intros rs _. apply confined_bind; [apply confined_check_ranges|]. intros _ s _.
  apply untouched_refl.
Qed.

Lemma confined_check a tg : confined (check_initialized a tg).
Proof. apply confined_bind_lift. intros rs _. apply confined_check_ranges. Qed.

Lemma confined_resolve region : confined (resolve sim region core).
Proof. intros s _. apply untouched_refl. Qed.

Lemma confined_read_region region : confined (read_region sim region core).
Proof.
  apply confined_bind_lift. intros _ _. apply confined_bind; [apply confined_resolve|]. intros [a v].
  apply confined_bind; [apply confined_memory_read|]. intros payload. apply confined_lift.
Qed.

Lemma backed_allocation s region a :
  runtime_wf s → allocation_of sim s region core = Ok a → backed s a.
Proof.
  intros Hwf (owner & _ & H)%outcome_bind_ok. unfold get in H.
  apply outcome_bind_ok in H as (o & _ & H).
  destruct (dget _ _) as [a'|] eqn:E; [|done]. injection H as <-.
  eapply rw_backed; [done|by apply dget_elem_of].
Qed.

(** Changing the bytes of some ranges of an allocation. *)
Lemma untouched_set_space s region a sp rs :
  in_frame W region → runtime_wf s → allocation_of sim s region core = Ok a →
  (∀ r, r ∈ rs → al_address a <= r.1 ∧ r.2 <= al_end a) →
  length (as_data sp) = length (as_data (get_space s (al_space a))) →
  length (as_initialized sp) = length (as_initialized (get_space s (al_space a))) →
  (∀ z, 0 <= z → ¬ covered rs z →
     as_data sp !! Z.to_nat z = as_data (get_space s (al_space a)) !! Z.to_nat z ∧
     as_initialized sp !! Z.to_nat z = as_initialized (get_space s (al_space a)) !! Z.to_nat z) →
  untouched W s (set_space (al_space a) sp s).
Proof.
  intros (w & Hw & Hplace) Hwf Ha Hrs Hd Hi Hout. split.
  - split; try done; intros k; rewrite get_set_space; by case_decide; subst.
  - intros k z Hz Hnot. rewrite get_set_space. case_decide as Hk; [|done]. subst k.
    apply (Hout z Hz). intros (r & Hr & Hc)%Exists_exists. destruct (Hrs r Hr) as [? ?].
    apply (Hnot w a Hw); [|done|unfold covers in Hc; lia].
    by rewrite <- (allocation_same_place sim s region w).
Qed.

Lemma confined_write_region region values :
  in_frame W region → confined (write_region sim region values core).
Proof.
  intros Hin s Hwf. unfold write_region, resolve, mbind, stM_bind, st_lift.
  destruct (resolve_in sim s region core) as [[a v]|e] eqn:Er; [|apply untouched_refl].
  destruct (numpy_dtype _) as [d|]; [|apply untouched_refl].
  destruct (np_asarray values (Some d)) as [arr|]; [|apply untouched_refl].
  destruct (ensure _ _ _); [|apply untouched_refl].
  pose proof (resolve_in_allocation sim s region core a v Er) as Ha. cbn [fst snd].
  destruct (Memory.write a (TView v) (np_tobytes arr) s) as [s' ans] eqn:Ew.
  pose proof Ew as Ew'. unfold Memory.write, mbind, stM_bind, st_lift in Ew.
  destruct (resolve_ranges a (TView v)) as [rs|] eqn:Ers; [|injection Ew as <- _; apply untouched_refl].
  destruct (ensure _ _ _) eqn:El; [|injection Ew as <- _; apply untouched_refl].
  assert (ans = Ok tt) as -> by (unfold st_get, st_put in Ew; by injection Ew).
  destruct (write_ok a (TView v) _ s s' rs Ers Ew') as [Hlen ->].
  pose proof (backed_within s a (TView v) rs (backed_allocation s region a Hwf Ha) I Ers) as Hsw.
  destruct (write_ranges_outside rs _ _ Hsw Hlen) as (H1 & H2 & H3 & _). cbn [fst].
  apply (untouched_set_space s region a _ rs); try done.
  intros r Hr. by destruct (resolve_ranges_within a (TView v) rs I Ers r Hr).
Qed.

Lemma confined_mark region flag :
  in_frame W region →
  confined (av ← resolve sim region core; mark_initialized av.1 (TView av.2) flag).
Proof.
  intros Hin s Hwf. unfold resolve, mbind, stM_bind.
  destruct (resolve_in sim s region core) as [[a v]|e] eqn:Er; [|apply untouched_refl].
  pose proof (resolve_in_allocation sim s region core a v Er) as Ha. cbn [fst snd].
  pose proof (mark_initialized_ok a (TView v) flag s) as Hm.
  destruct (resolve_physical_ranges a (TView v)) as [rs|e] eqn:Ers; rewrite Hm; [|apply untouched_refl].
  pose proof (backed_allocation s region a Hwf Ha) as Hb.
  destruct (marked_spec flag rs _ (physical_within_space s a (TView v) rs Hb I Ers)) as [Hl Hz].
  cbn [fst]. apply (untouched_set_space s region a _ rs); try done.
  - intros r Hr. by destruct (resolve_physical_within a (TView v) rs I Ers r Hr).
  - intros z H0 Hc. split; [done|]. cbn. rewrite (Hz z H0). by rewrite decide_False.
Qed.

Lemma confined_rd t region : core_id t = core → confined (rd sim t region).
Proof. unfold rd. intros ->. apply confined_read_region. Qed.
Lemma confined_wr t region values : core_id t = core → in_frame W region → confined (wr sim t region values).
Proof. unfold wr. intros ->. apply confined_write_region. Qed.
End frame.

(** ** The handlers *)

(** Staying inside the written buffers is a property the logic of handlers applies to. *)
#[export] Instance confined_logic {NP : Numpy} sim t :
  TaskLogic sim t (λ A m, confined sim (core_id t) (writable t) m).
Proof.
  split.
  - intros A a. apply confined_ret.
  - intros A r. apply confined_lift.
  - intros A B m f Q. apply confined_bind_post.
  - intros region _. by apply confined_rd.
  - intros region values Hin. by apply confined_wr.
Qed.

Create HintDb frame.
#[local] Hint Resolve confined_ret confined_lift confined_raise : frame.

(** Walk through a program: bind, and split every case. *)
Ltac confine :=
  repeat first
    [ progress intros
    | simple apply confined_bind_lift
    | simple apply confined_bind
    | solve [eauto 3 with frame]
    | case_match ].

(** ** Scalar expressions change nothing *)

Section scalars.
Context {NP : Numpy} (node_of : pyval → tir) (sim : Simulator) (core : Z) (W : list BufferRegion).

(** Induction through the lists of an element load. *)
Definition tir_nested_ind (P : tir → Prop)
    (Hlit : ∀ n, P (TLit n)) (Hvar : ∀ x, P (TVar x)) (Hother : ∀ x, P (TOther x))
    (Hload : ∀ buffer data dt shape strides off ix,
       Forall P shape → Forall P strides → P off → Forall P ix → P (TLoad buffer data dt shape strides off ix))
    (Hcast : ∀ dt e, P e → P (TCast dt e))
    (Hbin : ∀ name x y, P x → P y → P (TBin name x y))
    (Hnot : ∀ x, P x → P (TNot x)) : ∀ e, P e :=
  fix go e :=
    let all := fix all l : Forall P l :=
      match l with
      | [] => Forall_nil_2 P
      | a :: l => Forall_cons_2 P a l (go a) (all l)
      end in
    match e with
    | TLit n => Hlit n
    | TVar x => Hvar x
    | TOther x => Hother x
    | TLoad buffer data dt shape strides off ix =>
        Hload buffer data dt shape strides off ix (all shape) (all strides) (go off) (all ix)
    | TCast dt e => Hcast dt e (go e)
    | TBin name x y => Hbin name x y (go x) (go y)
    | TNot x => Hnot x (go x)
    end.

Lemma read_scalar_confined region : confined sim core W (read_scalar sim region core).
Proof. unfold read_scalar. apply confined_bind; [apply confined_read_region|]. intros a. apply confined_lift. Qed.

Lemma read_local_scalar_confined region name : confined sim core W (read_local_scalar sim region name core).
Proof.
  unfold read_local_scalar. apply confined_bind; [apply confined_resolve|]. intros [a v].
  apply confined_bind; [apply confined_check|]. intros known. apply confined_bind_lift. intros _ _.
  apply confined_bind; [apply confined_memory_read|]. intros p. apply confined_lift.
Qed.

Lemma int_map_confined l :
  Forall (λ e, confined sim core W (evaluate_tir_scalar sim core e)) l →
  confined sim core W (st_map (λ i, n ← evaluate_tir_scalar sim core i; st_lift (number_int n)) l).
Proof.
  intros Hl. apply confined_map. intros e He. apply confined_bind; [by eapply Forall_forall in Hl|].
  intros n. apply confined_lift.
Qed.

#[local] Hint Resolve int_map_confined read_scalar_confined read_local_scalar_confined : frame.

Lemma evaluate_tir_scalar_confined e : confined sim core W (evaluate_tir_scalar sim core e).
Proof.
  induction e using tir_nested_ind; cbn [evaluate_tir_scalar]; confine.
Qed.
End scalars.

(** ** Executing a task *)

Section execute.
Context {NP : Numpy} (node_of : pyval → tir) (sim : Simulator) (t : Task).
Let ok {A} (m : memM A) : Prop := confined sim (core_id t) (writable t) m.

Lemma check_sources_confined regions b : ok (check_sources sim (core_id t) regions b).
Proof.
  unfold ok. revert b; induction regions as [|r rs IH]; intros b; cbn [check_sources]; [confine|].
  apply confined_bind; [apply confined_resolve|]. intros [a v]. apply confined_bind; [apply confined_check|]. auto.
Qed.

Lemma written_writable w : w ∈ written_regions t → in_frame (writable t) w.2.
Proof.
  unfold written_regions. intros Hw. apply list_elem_of_In, in_flat_map in Hw as (key & Hk & Hw).
  apply list_elem_of_In in Hk, Hw. apply list_elem_of_fmap in Hw as (r & -> & Hr). cbn.
  apply (writable_key t key); [done|]. unfold regions_under in Hr. unfold regions_named.
  destruct (_ || _); [set_solver|]. by destruct (task_meta t key).
Qed.

(** A task that does not rebind a name is confined to the buffers it names as written. *)
Lemma execute_sync_only_confined operation :
  mem_str operation ["reinterpretcast"] = false → ok (execute_sync_only sim t operation).
Proof.
  unfold ok. intros Hre. unfold execute_sync_only. rewrite Hre.
  destruct (mem_str operation SYNCHRONIZATION_OPERATIONS); [confine|].
  destruct (negb _); [confine|]. apply confined_bind; [apply check_sources_confined|].
  intros b. apply confined_iter. intros w Hw. unfold mark_written. by apply confined_mark, written_writable.
Qed.

Lemma execute_confined :
  mem_str (lower (operation t)) ["reinterpretcast"] = false → ok (execute node_of sim t).
Proof.
  intros Hre. unfold ok, execute. pose proof (evaluate_tir_scalar_confined sim (core_id t) (writable t)).
  pose proof execute_sync_only_confined. unfold ok in *.
  destruct (is_true _); [confine|]. cbv zeta. destruct (mem_str _ ["buffer_store"]).
  { destruct (negb _); [confine|]. apply confined_bind; [auto|]. intros v.
    apply (confined_bind_op sim (core_id t)). intros d Hd. apply confined_bind_lift. intros a _.
    apply confined_wr; [done|]. apply (writable_operand t "dst"); [by apply mem_str_true|done]. }
  destruct (sync_only _); [auto|]. destruct (handler sim t _) as [h|] eqn:Eh; [|confine].
  exact (handler_ok sim t (λ A m, confined sim (core_id t) (writable t) m) _ h Hre Eh).
Qed.
End execute.
