(* ===== verification/NumpyInt.v ===== *)
(** What the theorems on the executor use of NumPy, and a NumPy of fixed-width integers that has
    these properties: the instance the concrete examples run with.

    [IntNumpy] has the integer types and [bool] only; elements are integers, arithmetic wraps
    around, bytes are little-endian two's complement.  Functions the examples do not need raise. *)

From S2P Require Import Prelude PyDict PyStr Errors Values Layout PyNum Numpy.
Local Open Scope string_scope.
Local Open Scope Z_scope.
Local Open Scope list_scope.

(** ** Documented behaviour of NumPy *)

(** Arrays among the arguments have as many elements as their shape says. *)
Definition arg_wf {NP : Numpy} (v : np_arg) : Prop :=
  match v with AArr a => ar_wf a | _ => True end.

Class NumpyLaws {NP : Numpy} : Prop := {
  (** [np.asarray(v, dtype)] has that type and is a well-formed array *)
  asarray_type v d a : arg_wf v → np_asarray v (Some d) = Ok a → ar_dtype a = d ∧ ar_wf a;
  (** [np.frombuffer] inverts [a.tobytes()] *)
  bytes_roundtrip v d a : np_asarray v (Some d) = Ok a → np_frombuffer d (np_tobytes a) = Ok (ar_data a);
  (** converting an array keeps its shape *)
  asarray_shape a d a' : np_asarray (AArr a) (Some d) = Ok a' → ar_shape a' = ar_shape a;
}.

(** ** Little-endian integers *)

Fixpoint encode_le (n : nat) (z : Z) : list Z :=
  match n with O => [] | S n => z mod 256 :: encode_le n (z / 256) end.
Definition decode_le (bytes : list Z) : Z := foldr (λ b acc, b + 256 * acc) 0 bytes.

Lemma length_encode_le n z : length (encode_le n z) = n.
Proof. revert z; induction n as [|n IH]; intros z; cbn; [done|]. by rewrite IH. Qed.

Lemma decode_encode_le n z : decode_le (encode_le n z) = z mod 2 ^ (8 * Z.of_nat n).
Proof.
  revert z; induction n as [|n IH]; intros z; cbn [encode_le]; [by rewrite Z.mod_1_r|].
  cbn [decode_le foldr]. fold (decode_le (encode_le n (z / 256))). rewrite IH.
  replace (2 ^ (8 * Z.of_nat (S n))) with (256 * 2 ^ (8 * Z.of_nat n)).
  - rewrite Z.rem_mul_r by lia. lia.
  - rewrite Nat2Z.inj_succ, Z.mul_succ_r, Z.add_comm, Z.pow_add_r by lia. reflexivity.
Qed.

(** ** The element types *)

(** An integer type of [2 ^ log_width] bytes. *)
Inductive int_dtype := DBool | DInt (signed : bool) (log_width : nat).
#[global] Instance int_dtype_eq_dec : EqDecision int_dtype.
Proof. solve_decision. Defined.

Definition int_width (d : int_dtype) : nat := match d with DBool => 1 | DInt _ k => 2 ^ k end.
Definition int_bits (d : int_dtype) : Z := 8 * Z.of_nat (int_width d).

(** The value of a bit pattern, and wrap-around. *)
Definition to_signed (bits z : Z) : Z := if 2 ^ (bits - 1) <=? z then z - 2 ^ bits else z.
Definition wrap (d : int_dtype) (z : Z) : Z :=
  match d with
  | DBool => if z =? 0 then 0 else 1
  | DInt true _ => to_signed (int_bits d) (z mod 2 ^ int_bits d)
  | DInt false _ => z mod 2 ^ int_bits d
  end.

Definition int_dtypes : dict string int_dtype :=
  [("bool", DBool); ("int8", DInt true 0); ("int16", DInt true 1); ("int32", DInt true 2);
   ("int64", DInt true 3); ("uint8", DInt false 0); ("uint16", DInt false 1);
   ("uint32", DInt false 2); ("uint64", DInt false 3)].

Definition int_array : Type := typed_array int_dtype Z.
Definition int_arg : Type := np_arg_of int_dtype Z.
Definition make_array (d : int_dtype) (shape data : list Z) : int_array := Arr d (NdArray shape data).

Definition int_tobytes (a : int_array) : list Z :=
  flat_map (encode_le (int_width (ar_dtype a))) (nd_data (ar_nd a)).

(** Groups of [n] bytes. *)
Fixpoint chunks (fuel n : nat) (l : list Z) : list (list Z) :=
  match fuel, l with
  | S fuel, _ :: _ => take n l :: chunks fuel n (drop n l)
  | _, _ => []
  end.
Definition int_frombuffer (d : int_dtype) (bytes : list Z) : result (list Z) :=
  if (length bytes mod int_width d =? 0)%nat then
    Ok ((λ c, wrap d (decode_le c)) <$> chunks (length bytes) (int_width d) bytes)
  else raise ValueError "buffer size must be a multiple of element size".

(** ** Conversions and functions *)

Definition int_scalar (v : pyval) : result Z :=
  match v with VInt z => Ok z | VBool b => Ok (Z.b2z b) | _ => raise TypeError "not an integer" end.
Definition checked (d : int_dtype) (z : Z) : result Z :=
  if wrap d z =? z then Ok z else raise OverflowError "Python integer out of bounds".

Definition int_asarray (v : int_arg) (d : option int_dtype) : result int_array :=
  match v, d with
  | AArr a, Some d => Ok (make_array d (nd_shape (ar_nd a)) (wrap d <$> nd_data (ar_nd a)))
  | AArr a, None => Ok a
  | APy (VList l), d | APy (VTuple l), d =>
      zs ← omap_list int_scalar l;
      let d := default (DInt true 3) d in
      data ← omap_list (checked d) zs;
      Ok (make_array d [Z.of_nat (length data)] data)
  | APy v, d =>
      z ← int_scalar v;
      let d := default (DInt true 3) d in
      x ← checked d z; Ok (make_array d [] [x])
  | _, _ => raise TypeError "asarray"
  end.

(** An operand of an element-wise function: an array, or a Python integer. *)
Definition operand_of (v : int_arg) : result (option int_dtype * list Z * list Z) :=
  match v with
  | AArr a => Ok (Some (ar_dtype a), nd_shape (ar_nd a), nd_data (ar_nd a))
  | APy v => z ← int_scalar v; Ok (None, [], [z])
  | _ => raise TypeError "operand"
  end.

(** An element-wise function of two operands of one shape, or with a scalar operand. *)
Definition elementwise (to : option int_dtype) (f : Z → Z → Z) (x y : int_arg) : result int_array :=
  '(dx, sx, lx) ← operand_of x;
  '(dy, sy, ly) ← operand_of y;
  d ← (match dx, dy with
       | Some dx, Some dy => if decide (dx = dy) then Ok dx else raise NotImplementedError "promotion"
       | Some d, None | None, Some d => Ok d
       | None, None => Ok (DInt true 3)
       end);
  let d := default d to in
  match lx, ly with
  | [a], _ => if decide (sx = []) then Ok (make_array d sy ((λ b, wrap d (f a b)) <$> ly))
              else if decide (sx = sy) then Ok (make_array d sx (zip_with (λ a b, wrap d (f a b)) lx ly))
              else raise ValueError "broadcast"
  | _, [b] => if decide (sy = []) then Ok (make_array d sx ((λ a, wrap d (f a b)) <$> lx))
              else if decide (sx = sy) then Ok (make_array d sx (zip_with (λ a b, wrap d (f a b)) lx ly))
              else raise ValueError "broadcast"
  | _, _ => if decide (sx = sy) then Ok (make_array d sx (zip_with (λ a b, wrap d (f a b)) lx ly))
            else raise ValueError "broadcast"
  end.

Definition binary_functions : list (string * option int_dtype * (Z → Z → Z)) :=
  [("add", None, Z.add); ("subtract", None, Z.sub); ("multiply", None, Z.mul); ("maximum", None, Z.max);
   ("minimum", None, Z.min); ("bitwise_and", None, Z.land); ("bitwise_or", None, Z.lor);
   ("bitwise_xor", None, Z.lxor); ("equal", Some DBool, λ a b, Z.b2z (a =? b));
   ("less", Some DBool, λ a b, Z.b2z (a <? b)); ("greater", Some DBool, λ a b, Z.b2z (b <? a));
   ("greater_equal", Some DBool, λ a b, Z.b2z (b <=? a))].

(** Bits of bytes, least significant first, and back. *)
Fixpoint pack_le (fuel : nat) (bits : list Z) : list Z :=
  match fuel, bits with
  | S fuel, _ :: _ => foldr (λ b acc, b + 2 * acc) 0 (take 8 bits) :: pack_le fuel (drop 8 bits)
  | _, _ => []
  end.
Definition unpack_le (bytes : list Z) : list Z :=
  flat_map (λ b, (λ i, Z.b2z (Z.testbit b i)) <$> seqZ 0 8) bytes.

Definition transpose2 (rows cols : Z) (l : list Z) : list Z :=
  flat_map (λ j, (λ i, default 0 (l !! Z.to_nat (i * cols + j))) <$> seqZ 0 rows) (seqZ 0 cols).
Definition dot (l m : list Z) : Z := foldr Z.add 0 (zip_with Z.mul l m).
Definition matmul2 (m k n : Z) (x y : list Z) : list Z :=
  flat_map (λ i, (λ j, dot ((λ p, default 0 (x !! Z.to_nat (i * k + p))) <$> seqZ 0 k)
                           ((λ p, default 0 (y !! Z.to_nat (p * n + j))) <$> seqZ 0 k)) <$> seqZ 0 n) (seqZ 0 m).

Definition int_shape (v : pyval) : result (list Z) :=
  match v with
  | VInt n => Ok [n]
  | VTuple l | VList l => omap_list int_scalar l
  | _ => raise TypeError "shape"
  end.

Definition int_call (name : string) (args : list int_arg) : result int_array :=
  match args with
  | [AArr a; ADtype d] =>
      if mem_str name ["astype"] then Ok (make_array d (nd_shape (ar_nd a)) (wrap d <$> nd_data (ar_nd a)))
      else raise NotImplementedError "NumPy function"
  | [APy shape; v; ADtype d] =>
      if mem_str name ["full"] then
        s ← int_shape shape; '(_, _, l) ← operand_of v;
        match l with
        | [x] => Ok (make_array d s (replicate (Z.to_nat (prod_list s)) (wrap d x)))
        | _ => raise NotImplementedError "full"
        end
      else raise NotImplementedError "NumPy function"
  | [AArr a] =>
      match nd_shape (ar_nd a) with
      | [rows; cols] =>
          if mem_str name ["transpose"] then
            Ok (make_array (ar_dtype a) [cols; rows] (transpose2 rows cols (nd_data (ar_nd a))))
          else raise NotImplementedError "NumPy function"
      | _ => raise NotImplementedError "NumPy function"
      end
  | [AArr c; x; y] =>
      if mem_str name ["where"] then
        '(dx, _, lx) ← operand_of x; '(_, _, ly) ← operand_of y;
        let d := default (DInt true 3) dx in
        Ok (make_array d (nd_shape (ar_nd c))
              (imap (λ i b, if b =? 0 then default 0 (match ly with [v] => Some v | _ => ly !! i end)
                            else default 0 (lx !! i)) (nd_data (ar_nd c))))
      else raise NotImplementedError "NumPy function"
  | [x; y] =>
      match list_find (λ e, e.1.1 = name) binary_functions with
      | Some (_, (_, to, f)) => elementwise to f x y
      | None =>
          match x, y with
          | AArr a, APy VNone =>
              let l := nd_data (ar_nd a) in
              if mem_str name ["packbits"] then
                let p := pack_le (length l) l in Ok (make_array (DInt false 0) [Z.of_nat (length p)] p)
              else if mem_str name ["unpackbits"] then
                let u := unpack_le l in Ok (make_array (DInt false 0) [Z.of_nat (length u)] u)
              else raise NotImplementedError "NumPy function"
          | AArr a, AArr c =>
              match nd_shape (ar_nd a), nd_shape (ar_nd c) with
              | [m; k], [k'; n] =>
                  if mem_str name ["matmul"] && (k =? k') then
                    Ok (make_array (ar_dtype a) [m; n]
                          (wrap (ar_dtype a) <$> matmul2 m k n (nd_data (ar_nd a)) (nd_data (ar_nd c))))
                  else raise NotImplementedError "NumPy function"
              | _, _ => raise NotImplementedError "NumPy function"
              end
          | _, _ => raise NotImplementedError "NumPy function"
          end
      end
  | _ => raise NotImplementedError "NumPy function"
  end.

#[export] Instance IntNumpy : Numpy := {|
  dtype := int_dtype;
  elt := Z;
  np_dtype := dget int_dtypes;
  ml_bfloat16 := None;
  dtype_itemsize := λ d, Z.of_nat (int_width d);
  is_integer := λ d, match d with DBool => false | _ => true end;
  np_zero := λ _, 0;
  np_frombuffer := int_frombuffer;
  np_tobytes := int_tobytes;
  np_item := λ d z, match d with DBool => VBool (negb (z =? 0)) | _ => VInt z end;
  np_asarray := int_asarray;
  np_call := int_call;
|}.

(** ** [IntNumpy] has the documented behaviour *)

Lemma chunks_app n (c l : list Z) fuel :
  (0 < n)%nat → length c = n → chunks (S fuel) n (c ++ l) = c :: chunks fuel n l.
Proof.
  intros Hn Hc. destruct c as [|z c]; cbn in Hc; [lia|]. cbn [chunks app].
  by rewrite (take_app_length' (z :: c) l) by done; rewrite (drop_app_length' (z :: c) l) by done.
Qed.

Lemma chunks_encode n l fuel :
  (0 < n)%nat → (length l <= fuel)%nat → chunks fuel n (flat_map (encode_le n) l) = encode_le n <$> l.
Proof.
  intros Hn. revert fuel; induction l as [|z l IH]; intros fuel Hf; [by destruct fuel|].
  destruct fuel as [|fuel]; cbn in Hf; [lia|]. cbn [flat_map fmap list_fmap].
  rewrite chunks_app by (try apply length_encode_le; lia). by rewrite IH by lia.
Qed.

Lemma int_width_pos d : (0 < int_width d)%nat.
Proof. destruct d as [|s k]; cbn [int_width]; [lia|]. pose proof (Nat.pow_nonzero 2 k ltac:(lia)). lia. Qed.

Lemma wrap_mod d z : wrap d z = z → wrap d (z mod 2 ^ int_bits d) = z.
Proof.
  destruct d as [|[] k]; cbn [wrap]; rewrite ?Zmod_mod; try done.
  intros H. assert (z = 0 ∨ z = 1) as [-> | ->] by (revert H; destruct (z =? 0); lia); done.
Qed.

Lemma wrap_idem d z : wrap d (wrap d z) = wrap d z.
Proof.
  destruct d as [|[] k]; cbn [wrap].
  - by destruct (z =? 0).
  - unfold to_signed. set (bits := int_bits _). set (m := 2 ^ bits).
    assert (0 < m) by (apply Z.pow_pos_nonneg; [lia|unfold bits, int_bits; lia]).
    destruct (_ <=? z mod m) eqn:E; [|by rewrite Zmod_mod, E].
    rewrite <- (Z_mod_plus_full (z mod m - m) 1 m). replace (z mod m - m + 1 * m) with (z mod m) by lia.
    by rewrite Zmod_mod, E.
  - by rewrite Zmod_mod.
Qed.

Lemma int_bytes_roundtrip d l :
  (∀ z, z ∈ l → wrap d z = z) → int_frombuffer d (flat_map (encode_le (int_width d)) l) = Ok l.
Proof.
  intros Hl. pose proof (int_width_pos d) as Hw. unfold int_frombuffer.
  assert (length (flat_map (encode_le (int_width d)) l) = length l * int_width d)%nat as Hlen.
  { clear Hl; induction l as [|z l IH]; cbn [flat_map length]; [done|].
    rewrite length_app, length_encode_le, IH. lia. }
  rewrite Hlen, Nat.Div0.mod_mul. cbn [Nat.eqb].
  rewrite chunks_encode by (try done; nia). f_equal. rewrite <- list_fmap_compose.
  clear Hlen. induction l as [|z l IH]; cbn; [done|]. f_equal; [|apply IH; set_solver].
  rewrite decode_encode_le. fold (int_bits d). apply wrap_mod, Hl. by left.
Qed.

Lemma checked_ok d z x : checked d z = Ok x → wrap d x = x.
Proof. unfold checked. case_match eqn:E; [|done]. intros [= <-]. by apply Z.eqb_eq in E. Qed.

Lemma int_asarray_spec v d a :
  int_asarray v (Some d) = Ok a →
  ar_dtype a = d ∧ (∀ z, z ∈ nd_data (ar_nd a) → wrap d z = z) ∧
  (match v with
   | AArr a0 => nd_shape (ar_nd a) = nd_shape (ar_nd a0) ∧ (nd_wf (ar_nd a0) → nd_wf (ar_nd a))
   | _ => nd_wf (ar_nd a)
   end).
Proof.
  unfold int_asarray. destruct v as [a0|p| |]; try done.
  - intros [= <-]. cbn. split_and!; [done| |done|unfold nd_wf; cbn; by rewrite length_fmap].
    intros z (y & -> & _)%list_elem_of_fmap. apply wrap_idem.
  - assert (∀ l, (zs ← omap_list int_scalar l; data ← omap_list (checked d) zs;
                  Ok (make_array d [Z.of_nat (length data)] data)) = Ok a →
       ar_dtype a = d ∧ (∀ z, z ∈ nd_data (ar_nd a) → wrap d z = z) ∧
       nd_wf (ar_nd a)) as Hlist.
    { intros l (zs & _ & (data & Hd & H)%outcome_bind_ok)%outcome_bind_ok. injection H as <-. cbn.
      split_and!; [done| |split; cbn; [by repeat constructor; lia|lia]]. intros z Hz. apply omap_list_ok in Hd.
      apply list_elem_of_lookup in Hz as [i Hi].
      destruct (Forall2_lookup_r _ _ _ _ _ Hd Hi) as (y & _ & Hy). by eapply checked_ok. }
    assert (∀ v, (z ← int_scalar v; x ← checked d z; Ok (make_array d [] [x])) = Ok a →
       ar_dtype a = d ∧ (∀ z, z ∈ nd_data (ar_nd a) → wrap d z = z) ∧
       nd_wf (ar_nd a)) as Hone.
    { intros w (z & _ & (x & Hx & H)%outcome_bind_ok)%outcome_bind_ok. injection H as <-. cbn.
      split_and!; [done| |by split]. intros y ->%list_elem_of_singleton. by eapply checked_ok. }
    intros H. destruct p; try (exact (Hone _ H)); exact (Hlist _ H).
Qed.

#[export] Instance IntNumpyLaws : NumpyLaws.
Proof.
  split.
  - intros v d a Hv H. destruct (int_asarray_spec v d a H) as (Hd & _ & Hs). split; [done|].
    destruct v as [a0| | |]; try exact Hs.
    by apply (proj2 Hs).
  - intros v d a H. destruct (int_asarray_spec v d a H) as (Hd & Hz & _).
    cbn [np_frombuffer np_tobytes IntNumpy]. unfold int_tobytes. rewrite Hd. by apply int_bytes_roundtrip.
  - intros a d a' H. by destruct (int_asarray_spec (AArr a) d a' H) as (_ & _ & ? & _).
Qed.
