(* ===== verification/ExecClaims.v ===== *)
(** What executing tasks guarantees: the frame of a task, the exact poison a synchronization-only
    run leaves, which operations are executable, and the typed round trip of a region. *)

From S2P Require Import Prelude PyDict PySort PyStr Errors Values Layout Program Trace Config Hazard.
From S2P Require Import SyncOps Intervals MemoryView Memory MemoryProofs PyFloat PyNum Numpy.
From S2P Require Import ExecEnv ExecOps ExecKernels ExecGather Executor ExecFrame NumpyInt.
Local Open Scope string_scope.
Local Open Scope Z_scope.
Local Open Scope list_scope.

(** ** Reinterpreted names *)

Section reinterpret.
Context {NP : Numpy} (sim : Simulator) (t : Task).

(** Only the table of allocations differs. *)
Definition rebound (s s' : MemoryRuntime) : Prop :=
  (∀ k, get_space s' k = get_space s k) ∧ (runtime_wf s → runtime_wf s').

Lemma alias_rebound name tgt scope core s s' ans :
  alias name tgt scope core s = (s', ans) → runtime_wf s → rebound s s'.
Proof.
  intros H Hwf. destruct ans as [[]|e].
  - destruct (alias_spec name tgt scope core s s' Hwf H) as (Hwf' & _). split; [|done].
    unfold alias, mbind, stM_bind, st_get, st_lift, st_put in H. intros k.
    repeat case_match; try done. by injection H as <-.
  - unfold alias, mbind, stM_bind, st_get, st_lift, st_put in H.
    repeat case_match; try done; by injection H as <- _.
Qed.

Lemma reinterpretcast_cases s s' ans :
  runtime_wf s → reinterpretcast sim t s = (s', ans) →
  rebound s s' ∨ untouched sim (core_id t) (writable t) s s'.
Proof.
  intros Hwf H. unfold reinterpretcast in H.
  destruct (truthy (task_meta t "materialize_view")).
  - right. replace s' with (s', ans).1 by done. rewrite <- H.
    apply (confined_bind_op sim (core_id t)); [intros d Hd|done].
    apply (confined_bind_op sim (core_id t)); intros r Hr.
    apply confined_bind; [by apply confined_rd|]. intros a.
    repeat (apply confined_bind_lift; intros ? _).
    apply confined_wr; [done|]. apply (writable_operand t "dst"); [by apply mem_str_true|done].
  - left. unfold mbind, stM_bind, op, st_lift in H.
    destruct (operand t "dst") as [d|]; [|injection H as <- _; by split].
    destruct (operand t "src") as [r|]; [|injection H as <- _; by split].
    by eapply alias_rebound.
Qed.
End reinterpret.

Section execute.
Context {NP : Numpy} (node_of : pyval → tir) (sim : Simulator) (t : Task).

Lemma execute_reinterpretcast :
  mem_str (lower (operation t)) ["reinterpretcast"] = true →
  execute node_of sim t = if is_true (task_meta t "trace_only") then mret tt else reinterpretcast sim t.
Proof.
  intros Hop%mem_str_true%list_elem_of_singleton. unfold execute. destruct (is_true _); [done|].
  cbv zeta. rewrite Hop. change (mem_str "reinterpretcast" ["buffer_store"]) with false. cbn match.
  by destruct (sync_only (sim_config sim)).
Qed.

Lemma execute_effect s s' ans :
  runtime_wf s → execute node_of sim t s = (s', ans) →
  runtime_wf s' ∧
  (mem_str (lower (operation t)) ["reinterpretcast"] = false → stable s s') ∧
  (∀ k z, 0 <= z →
     (∀ region a, region ∈ writable t → allocation_of sim s region (core_id t) = Ok a → al_space a = k →
        ¬ (al_address a <= z < al_end a)) →
     as_data (get_space s' k) !! Z.to_nat z = as_data (get_space s k) !! Z.to_nat z ∧
     as_initialized (get_space s' k) !! Z.to_nat z = as_initialized (get_space s k) !! Z.to_nat z).
Proof.
  intros Hwf H. destruct (mem_str _ ["reinterpretcast"]) eqn:Hre.
  - rewrite execute_reinterpretcast in H by done. destruct (is_true _); [by injection H as <- _|].
    destruct (reinterpretcast_cases sim t s s' ans Hwf H) as [[Hs Hw]|Hu].
    + split; [by apply Hw|]. split; [done|]. intros k z _ _. by rewrite Hs.
    + split; [by eapply untouched_wf|]. split; [done|]. by apply ut_bytes.
  - pose proof (execute_confined node_of sim t Hre s Hwf) as Hu. rewrite H in Hu. cbn [fst] in Hu.
    split; [by eapply untouched_wf|]. split; [intros _; by apply (ut_stable _ _ _ _ _ Hu)|]. by apply ut_bytes.
Qed.

(** C24. A task changes nothing but what it names: executing any task from a well-formed memory,
    whether it succeeds or fails half-way, leaves a well-formed memory in which every byte, and
    its poison, outside the allocations of the regions the task names as written is unchanged;
    and unless the task reinterprets a name, all allocations stay as they are. *)
Theorem execute_frame s s' ans :
  runtime_wf s → execute node_of sim t s = (s', ans) →
  runtime_wf s' ∧
  (mem_str (lower (operation t)) ["reinterpretcast"] = false → stable s s') ∧
  (∀ k z, 0 <= z →
     (∀ region a, region ∈ writable t → allocation_of sim s region (core_id t) = Ok a → al_space a = k →
        ¬ (al_address a <= z < al_end a)) →
     as_data (get_space s' k) !! Z.to_nat z = as_data (get_space s k) !! Z.to_nat z ∧
     as_initialized (get_space s' k) !! Z.to_nat z = as_initialized (get_space s k) !! Z.to_nat z).
Proof. apply execute_effect. Qed.
End execute.

(** ** Synchronization-only execution *)

Section poison.
Context (sim : Simulator) (core : Z).

(** The bytes a region occupies: its address space and physical ranges. *)
Definition region_bytes (s : MemoryRuntime) (region : BufferRegion) : result (SpaceKey * list interval) :=
  av ← resolve_in sim s region core;
  rs ← resolve_physical_ranges av.1 (TView av.2);
  Ok (al_space av.1, rs).
Definition occupies (s : MemoryRuntime) (region : BufferRegion) (k : SpaceKey) (z : Z) : bool :=
  match region_bytes s region with
  | Ok (k', rs) => bool_decide (k' = k) && bool_decide (covered rs z)
  | Raise _ => false
  end.

(** Every byte of the regions is initialized. *)
Definition all_known (s : MemoryRuntime) (regions : list BufferRegion) : Prop :=
  ∀ region k z, region ∈ regions → occupies s region k z = true →
    as_initialized (get_space s k) !! Z.to_nat z = Some true.

(** The poison a sequence of writes leaves: the last one that occupies a byte decides. *)
Definition flag_after (s : MemoryRuntime) (initialized : bool) (writes : list (bool * BufferRegion))
    (k : SpaceKey) (z : Z) (old : option bool) : option bool :=
  foldl (λ flag w, if occupies s w.2 k z then Some (if w.1 : bool then true else initialized) else flag) old writes.

Lemma region_bytes_stable s s' region : stable s s' → region_bytes s' region = region_bytes s region.
Proof. intros H. unfold region_bytes. by rewrite (resolve_in_stable sim s). Qed.
Lemma occupies_stable s s' region k z : stable s s' → occupies s' region k z = occupies s region k z.
Proof. intros H. unfold occupies. by rewrite (region_bytes_stable s). Qed.

Lemma region_bytes_ok s region a v rs :
  resolve_in sim s region core = Ok (a, v) → resolve_physical_ranges a (TView v) = Ok rs →
  region_bytes s region = Ok (al_space a, rs).
Proof. intros H1 H2. unfold region_bytes. rewrite H1. ok_bind. cbn [fst snd]. by rewrite H2. Qed.

Lemma region_within s region a v rs :
  runtime_wf s → resolve_in sim s region core = Ok (a, v) → resolve_physical_ranges a (TView v) = Ok rs →
  ∀ r, r ∈ rs → within (as_initialized (get_space s (al_space a))) r.
Proof.
  intros Hwf Hr Hrs. apply (physical_within_space s a (TView v)); [|exact I|done].
  by eapply (backed_allocation sim), resolve_in_allocation.
Qed.

(** One source: the answer is whether its bytes are initialized. *)
Lemma check_source_spec s s1 region (known : bool) :
  runtime_wf s → (av ← resolve sim region core; check_initialized av.1 (TView av.2)) s = (s1, Ok known) →
  only_reporter s s1 ∧ (known = true ↔ all_known s [region]).
Proof.
  unfold resolve, check_initialized, mbind, stM_bind, st_lift. intros Hwf.
  destruct (resolve_in sim s region core) as [[a v]|] eqn:Er; [|done]. cbn [fst snd].
  destruct (resolve_physical_ranges a (TView v)) as [rs|] eqn:Ers; [|done]. intros H.
  destruct (check_ranges_answer a rs s s1 known (region_within s region a v rs Hwf Er Ers) H) as [Ho Hk].
  split; [done|]. rewrite Hk. unfold all_known, known_bytes, occupies.
  setoid_rewrite list_elem_of_singleton. split.
  - intros Hb r k z ->. rewrite (region_bytes_ok s region a v rs Er Ers).
    intros [<-%bool_decide_eq_true Hc%bool_decide_eq_true]%andb_true_iff. by apply Hb.
  - intros Hb z Hz. apply (Hb region); [done|]. rewrite (region_bytes_ok s region a v rs Er Ers).
    by rewrite !bool_decide_eq_true_2.
Qed.

Lemma all_known_cons s region regions :
  all_known s (region :: regions) ↔ all_known s [region] ∧ all_known s regions.
Proof. unfold all_known. setoid_rewrite elem_of_cons. set_solver. Qed.

Lemma all_known_reporter s r regions : all_known (set_reporter r s) regions ↔ all_known s regions.
Proof. done. Qed.

Lemma check_sources_spec regions b s s1 (known : bool) :
  runtime_wf s → check_sources sim core regions b s = (s1, Ok known) →
  only_reporter s s1 ∧ (known = true ↔ b = true ∧ all_known s regions).
Proof.
  revert b s; induction regions as [|region regions IH]; intros b s Hwf; cbn [check_sources].
  - unfold mret, stM_ret. intros [= <- <-]. split; [apply only_reporter_refl|].
    unfold all_known. set_solver.
  - intros H.
    assert (∃ s2 k, (av ← resolve sim region core; check_initialized av.1 (TView av.2)) s = (s2, Ok k) ∧
      check_sources sim core regions (b && k) s2 = (s1, Ok known)) as (s2 & k & H1 & H2).
    { unfold resolve, mbind, stM_bind in *. destruct (resolve_in sim s region core) as [[a v]|]; [|done].
      cbn [fst snd] in *. destruct (check_initialized a (TView v) s) as [s2 [k|]]; [by exists s2, k|done]. }
    destruct (check_source_spec s s2 region k Hwf H1) as [Ho Hk].
    pose proof Ho as (r & -> & _). destruct (IH _ _ (runtime_wf_reporter _ _ Ho Hwf) H2) as [Ho2 Hk2].
    split; [by eapply only_reporter_trans|].
    rewrite Hk2, all_known_reporter, all_known_cons, andb_true_iff, Hk. tauto.
Qed.

(** One written region. *)
Lemma mark_written_spec initialized w s s' :
  runtime_wf s → mark_written sim core initialized w s = (s', Ok tt) →
  stable s s' ∧ (∀ k, as_data (get_space s' k) = as_data (get_space s k)) ∧
  (∀ k z, 0 <= z → as_initialized (get_space s' k) !! Z.to_nat z =
     flag_after s initialized [w] k z (as_initialized (get_space s k) !! Z.to_nat z)).
Proof.
  unfold mark_written, resolve, mbind, stM_bind. intros Hwf.
  destruct (resolve_in sim s w.2 core) as [[a v]|] eqn:Er; [|done]. cbn [fst snd].
  set (flag := if w.1 : bool then true else initialized).
  pose proof (mark_initialized_ok a (TView v) flag s) as Hm.
  destruct (resolve_physical_ranges a (TView v)) as [rs|] eqn:Ers; rewrite Hm; [|done]. clear Hm.
  intros H. injection H as <-.
  destruct (marked_spec flag rs _ (region_within s w.2 a v rs Hwf Er Ers)) as [Hlen Hz].
  split; [|split].
  - split; try done; intros k; rewrite get_set_space; by case_decide; subst.
  - intros k. rewrite get_set_space. by case_decide; subst.
  - intros k z H0. rewrite get_set_space. cbn [flag_after foldl]. unfold occupies.
    rewrite (region_bytes_ok s w.2 a v rs Er Ers). 
    destruct (decide (al_space a = k)) as [<-|Hk].
    + rewrite bool_decide_eq_true_2 by done. cbn [as_initialized andb]. rewrite (Hz z H0).
      case_decide; [by rewrite bool_decide_eq_true_2|by rewrite bool_decide_eq_false_2].
    + by rewrite bool_decide_eq_false_2.
Qed.

Lemma flag_after_stable s s' initialized writes k z old :
  stable s s' → flag_after s' initialized writes k z old = flag_after s initialized writes k z old.
Proof.
  intros H. unfold flag_after. revert old; induction writes as [|w ws IH]; intros old; cbn [foldl]; [done|].
  by rewrite (occupies_stable s).
Qed.

Lemma mark_all_spec initialized writes s s' :
  runtime_wf s → st_iter (mark_written sim core initialized) writes s = (s', Ok tt) →
  (∀ k, as_data (get_space s' k) = as_data (get_space s k)) ∧
  (∀ k z, 0 <= z → as_initialized (get_space s' k) !! Z.to_nat z =
     flag_after s initialized writes k z (as_initialized (get_space s k) !! Z.to_nat z)).
Proof.
  revert s; induction writes as [|w ws IH]; intros s Hwf; cbn [st_iter].
  - unfold mret, stM_ret. by intros [= <-].
  - unfold mbind, stM_bind. destruct (mark_written sim core initialized w s) as [s1 [[]|]] eqn:E; [|done].
    destruct (mark_written_spec _ _ _ _ Hwf E) as (Hst & Hd & Hf). intros H.
    destruct (IH s1 (stable_wf _ _ Hst Hwf) H) as [Hd' Hf']. split; [intros k; by rewrite Hd', Hd|].
    intros k z Hz. rewrite (Hf' k z Hz), (Hf k z Hz), (flag_after_stable s) by done. done.
Qed.
End poison.

(** The regions whose poison a task inherits. *)
Definition poison_sources (t : Task) (operation : string) : list BufferRegion :=
  let reads := metadata_regions t READ_REGION_KEYS in
  if startswith "atomic_add" operation then atomic_reads reads (written_regions t) else reads.

(** A synchronization-only run tracks poison exactly: executing a supported task changes no
    byte value, and afterwards the poison of every byte is decided by the last written region
    that occupies it - initialized for padding, otherwise initialized exactly when every byte of
    every region the task reads was initialized before - and is unchanged elsewhere. *)
Theorem sync_only_poison sim t operation s s' :
  runtime_wf s → sync_only_supported operation = true →
  mem_str operation ("reinterpretcast" :: SYNCHRONIZATION_OPERATIONS) = false →
  execute_sync_only sim t operation s = (s', Ok tt) →
  (∀ k, as_data (get_space s' k) = as_data (get_space s k)) ∧
  ∃ initialized : bool,
    (initialized = true ↔ all_known sim (core_id t) s (poison_sources t operation)) ∧
    ∀ k z, 0 <= z → as_initialized (get_space s' k) !! Z.to_nat z =
      flag_after sim (core_id t) s initialized (written_regions t) k z (as_initialized (get_space s k) !! Z.to_nat z).
Proof.
  intros Hwf Hsup [Hre Hsync]%mem_str_false%not_elem_of_cons H. unfold execute_sync_only in H.
  apply mem_str_false in Hsync as Hsync'. rewrite Hsync', Hsup in H. cbn [negb] in H.
  replace (mem_str operation ["reinterpretcast"]) with false in H
    by (symmetry; apply mem_str_false; set_solver).
  fold (poison_sources t operation) in H. unfold mbind, stM_bind in H.
  destruct (check_sources _ _ _ _ s) as [s1 [known|]] eqn:Ec; [|done].
  destruct (check_sources_spec sim (core_id t) _ _ _ _ _ Hwf Ec) as [Ho Hk].
  destruct (mark_all_spec sim (core_id t) known _ _ _ (runtime_wf_reporter _ _ Ho Hwf) H) as [Hd Hf].
  destruct Ho as (r & -> & _). split; [exact Hd|]. exists known. split; [|exact Hf].
  rewrite Hk. split; [tauto|]. by split.
Qed.

(** ** Dispatch *)

(** The boolean tests of the dispatch decide closed membership questions. *)
Ltac refute_tests :=
  match goal with H : ?b = false |- _ => solve [vm_compute in H; discriminate H] end.

Lemma supported_explicit operation :
  mem_str operation SYNC_ONLY_EXPLICIT_OPERATIONS = true → sync_only_supported operation = true.
Proof. intros H. unfold sync_only_supported. rewrite H. by rewrite orb_true_r. Qed.

Lemma explicit_in operation l :
  forallb (λ x, mem_str x SYNC_ONLY_EXPLICIT_OPERATIONS) l = true →
  mem_str operation l = true → sync_only_supported operation = true.
Proof.
  intros Hl H%mem_str_true. apply supported_explicit.
  eapply forallb_forall in Hl; [done|by apply list_elem_of_In].
Qed.

Section dispatch.
Context {NP : Numpy} (sim : Simulator) (t : Task).

Lemma handler_supported operation h :
  handler sim t operation = Some h →
  sync_only_supported operation = true ∨ mem_str operation SYNCHRONIZATION_OPERATIONS = true.
Proof.
  unfold handler. intros H.
  repeat match type of H with
  | (if ?b then _ else _) = Some _ => destruct b eqn:?; [clear H|]
  end; try done.
  all: try (left; by eapply explicit_in; [|eassumption]).
  all: try (by right).
  all: left; unfold sync_only_supported.
  all: repeat match goal with Hb : ?b = true |- _ => rewrite Hb; clear Hb end.
  all: by rewrite ?orb_true_r.
Qed.

Lemma handler_none operation :
  handler sim t operation = None →
  sync_only_supported operation = false ∧ mem_str operation SYNCHRONIZATION_OPERATIONS = false.
Proof.
  unfold handler. intros H.
  repeat match type of H with
  | (if ?b then _ else _) = None => destruct b eqn:?; [done|]
  end.
  split; [|done]. unfold sync_only_supported.
  repeat match goal with Hb : ?b = false |- context [?b] => rewrite Hb end. cbn [orb].
  match goal with |- ?x = false => destruct x eqn:Hin; [|done] end.
  exfalso. apply mem_str_true in Hin. unfold SYNC_ONLY_EXPLICIT_OPERATIONS in Hin.
  repeat (apply elem_of_cons in Hin as [->|Hin]; [refute_tests|]). set_solver.
Qed.

(** The two execution modes implement the same operations: an operation has a numeric
    handler exactly when the synchronization-only mode supports it or it is a synchronization
    operation, and every other operation is rejected by both modes without touching memory. *)
Theorem dispatch_agreement node_of operation s :
  (is_Some (handler sim t operation) ↔
     sync_only_supported operation = true ∨ mem_str operation SYNCHRONIZATION_OPERATIONS = true) ∧
  (handler sim t operation = None →
     execute_sync_only sim t operation s =
       (s, Raise (Exn UnsupportedSimOpError "sync-only execution is not implemented" [Program.operation t; task_id t])) ∧
     (lower (Program.operation t) = operation → operation ≠ "buffer_store" →
      is_true (task_meta t "trace_only") = false →
      ∃ label, execute node_of sim t s =
        (s, Raise (Exn UnsupportedSimOpError label [Program.operation t; task_id t])))).
Proof.
  split; [split|].
  - intros [h Hh]. by eapply handler_supported.
  - intros H. destruct (handler sim t operation) eqn:E; [done|].
    apply handler_none in E as [E1 E2]. destruct H; congruence.
  - intros E. pose proof (handler_none operation E) as [E1 E2].
    assert (execute_sync_only sim t operation s =
      (s, Raise (Exn UnsupportedSimOpError "sync-only execution is not implemented" [Program.operation t; task_id t])))
      as Hs by (unfold execute_sync_only; by rewrite E2, E1).
    split; [done|]. intros Hop Hb Htr. unfold execute. rewrite Htr. cbv zeta. rewrite Hop.
    replace (mem_str operation ["buffer_store"]) with false by (symmetry; apply mem_str_false; set_solver).
    destruct (sync_only (sim_config sim)); [by eexists|]. rewrite E. by eexists.
Qed.
End dispatch.

(** Rebinding a name of one owner is invisible to the others. *)
Lemma get_other_owner s k a name scope owner :
  (is_shared scope = true → owner = None) → (scope, owner) ≠ k.1 →
  get (set_allocation k a s) name scope owner = get s name scope owner.
Proof.
  intros Hs Hk. unfold get. change (normalize_owner (set_allocation k a s)) with (normalize_owner s).
  destruct (normalize_owner s scope owner) as [o|] eqn:Eo; ok_bind; [|done].
  assert (o = owner) as ->.
  { unfold normalize_owner in Eo. destruct (is_shared scope); [rewrite Hs by done; congruence|].
    destruct owner as [c|]; [|done]. apply outcome_bind_ok in Eo as (? & _ & (? & _ & Eo)%outcome_bind_ok). congruence. }
  cbn [rt_allocations set_allocation]. rewrite dget_dset_ne; [done|]. intros Heq. apply Hk. by rewrite Heq.
Qed.

Section unsupported.
Context {NP : Numpy} (node_of : pyval → tir) (sim : Simulator) (t : Task).

(** No task of the collective [sync_all] can be executed, in either mode, although the
    scheduler synchronizes on it: it raises [UnsupportedSimOpError]. *)
Theorem sync_all_not_executable s :
  mem_str (lower (operation t)) SYNC_ALL = true → is_true (task_meta t "trace_only") = false →
  ∃ label, execute node_of sim t s = (s, Raise (Exn UnsupportedSimOpError label [operation t; task_id t])).
Proof.
  intros Hop%mem_str_true Htr. unfold execute. rewrite Htr. cbv zeta. unfold SYNC_ALL in Hop.
  repeat (apply elem_of_cons in Hop as [->|Hop];
    [change (mem_str _ ["buffer_store"]) with false; cbn match;
     destruct (sync_only (sim_config sim)); by eexists|]). set_solver.
Qed.

(** The synchronization-only mode accepts [reinterpretcast] but cannot execute one that
    materializes its view: it reads numeric values, which that mode rejects. *)
Theorem sync_only_materialized_view_raises s source destination :
  mem_str (lower (operation t)) ["reinterpretcast"] = true → is_true (task_meta t "trace_only") = false →
  sync_only (sim_config sim) = true → truthy (task_meta t "materialize_view") = true →
  task_meta t "src" = VRegion source → task_meta t "dst" = VRegion destination →
  sync_only_supported (lower (operation t)) = true ∧
  execute node_of sim t s = (s, Raise (Exn UnsupportedSimOpError "numeric results are unavailable" [])).
Proof.
  intros Hop Htr Hso Hm Hs Hd. pose proof Hop as Hin%mem_str_true%list_elem_of_singleton.
  split; [by rewrite Hin|]. rewrite execute_reinterpretcast, Htr by done.
  unfold reinterpretcast, op, operand. rewrite Hs, Hd, Hm.
  unfold rd, read_region, mbind, stM_bind, st_lift. cbn. by rewrite Hso.
Qed.

(** A [reinterpretcast] on the second vector lane has no effect there: it rebinds the name
    in the bank of the task's core, so every region a task of that lane resolves still names the
    allocation it named before. *)
Theorem vector1_reinterpretcast_ineffective s s' ans region :
  mem_str (lower (operation t)) ["reinterpretcast"] = true →
  truthy (task_meta t "materialize_view") = false →
  sim_lane sim = Some VECTOR_1 → rt_vector1_owner_offset s ≠ 0 →
  (∀ destination, task_meta t "dst" = VRegion destination → is_shared (rg_scope destination) = false) →
  execute node_of sim t s = (s', ans) →
  allocation_of sim s' region (core_id t) = allocation_of sim s region (core_id t).
Proof.
  intros Hop Hm Hl Hoff Hlocal H. rewrite execute_reinterpretcast in H by done.
  destruct (is_true _); [by injection H as <- _|]. unfold reinterpretcast, op in H. rewrite Hm in H.
  unfold mbind, stM_bind, st_lift in H.
  destruct (operand t "dst") as [d|] eqn:Ed; [|by injection H as <- _].
  destruct (operand t "src") as [r|]; [|by injection H as <- _].
  assert (is_shared (rg_scope d) = false) as Hd.
  { apply Hlocal. unfold operand in Ed. destruct (as_region _) eqn:E; [|done]. injection Ed as ->. by apply as_region_inv. }
  unfold alias, mbind, stM_bind, st_get, st_lift, st_put in H.
  destruct (normalize_owner s (rg_scope d) (Some (core_id t))) as [owner|] eqn:Eo; [|by injection H as <- _].
  assert (owner = Some (core_id t)) as ->.
  { unfold normalize_owner in Eo. rewrite Hd in Eo.
    apply outcome_bind_ok in Eo as (? & _ & (? & _ & Eo)%outcome_bind_ok). by injection Eo. }
  destruct (dget _ (rg_scope d, Some (core_id t), rg_buffer d)); [|by injection H as <- _].
  destruct (dget _ (rg_scope d, Some (core_id t), rg_buffer r)); [|by injection H as <- _].
  destruct (ensure _ _ _); [|by injection H as <- _]. injection H as <- _.
  unfold allocation_of, region_owner. rewrite Hl. rewrite bool_decide_eq_true_2 by done.
  change (vector1_owner (set_allocation _ _ s) (core_id t)) with (vector1_owner s (core_id t)).
  destruct (is_shared (rg_scope region)) eqn:Esr.
  - ok_bind. apply get_other_owner; [done|]. intros [= ? ?].
  - destruct (vector1_owner s (core_id t)) as [o|] eqn:Ev; ok_bind; [|done].
    apply outcome_bind_ok in Ev as (? & _ & Ev). injection Ev as <-.
    apply get_other_owner; [by rewrite Esr|]. intros [= _ Hc]. lia.
Qed.
End unsupported.

(** ** Typed round trips *)

(** The elements of the region do not overlap in memory. *)
Definition non_overlapping (sim : Simulator) (s : MemoryRuntime) (region : BufferRegion) (core : Z) : Prop :=
  ∀ a v rs, resolve_in sim s region core = Ok (a, v) → resolve_ranges a (TView v) = Ok rs → disjoint_ranges rs.

Lemma concrete_shape_nonneg l shape : concrete_shape l = Ok shape → Forall (λ e, 0 <= e) shape.
Proof.
  unfold concrete_shape. intros (es & _ & (u & He & H)%outcome_bind_ok)%outcome_bind_ok. injection H as <-.
  apply ensure_ok, negb_true_iff in He. apply Forall_forall. intros e Hin.
  apply not_true_iff_false in He. destruct (Z.leb_spec 0 e); [done|]. exfalso. apply He.
  apply existsb_exists. exists e. split; [by apply list_elem_of_In|lia].
Qed.

Lemma alloc_view_shape a off shape dtype st v :
  alloc_view a off shape dtype st = Ok v →
  Forall (λ e, 0 <= e) (mv_shape v) ∧
  (st = None → ∃ it, itemsize v = Ok it ∧ mv_strides_bytes v = contiguous_strides_bytes (mv_shape v) it).
Proof.
  unfold alloc_view, itemsize. cbv zeta. intros (sh & Hsh & (st' & Hst & H)%outcome_bind_ok)%outcome_bind_ok.
  apply concrete_shape_nonneg in Hsh. destruct st as [l|]; inv_ok; cbn; (split; [done|]); [done|].
  intros _. by eexists.
Qed.

Lemma resolved_shape sim s region core a v :
  resolve_in sim s region core = Ok (a, v) →
  Forall (λ e, 0 <= e) (mv_shape v) ∧
  (rg_strides_bytes region = None →
     ∃ it, itemsize v = Ok it ∧ mv_strides_bytes v = contiguous_strides_bytes (mv_shape v) it).
Proof.
  unfold resolve_in. intros (owner & _ & (a' & _ & (shape & _ & (off & _ & H)%outcome_bind_ok)%outcome_bind_ok)%outcome_bind_ok)%outcome_bind_ok.
  apply outcome_bind_ok in H as (st & Hst & (v' & Hv & H)%outcome_bind_ok). injection H as -> ->.
  apply alloc_view_shape in Hv as [H1 H2]. split; [done|]. intros Hn. rewrite Hn in Hst. apply H2.
  by injection Hst.
Qed.

(** A region without explicit strides is one range. *)
Lemma contiguous_non_overlapping sim s region core :
  rg_strides_bytes region = None → non_overlapping sim s region core.
Proof.
  intros Hn a v rs Hr Hrs. destruct (resolved_shape sim s region core a v Hr) as [_ Hc].
  destruct (Hc Hn) as (it & Hit & Hst). unfold resolve_ranges, address_ranges in Hrs.
  destruct (is_empty_view v); [ok_bind; injection Hrs as <-; constructor|].
  rewrite Hit in Hrs. cbn [mbind outcome_bind] in Hrs. rewrite bool_decide_eq_true_2 in Hrs by done.
  apply outcome_bind_ok in Hrs as (l & (r & _ & Hl)%outcome_bind_ok & Hrs). injection Hl as <-.
  apply omap_list_ok in Hrs. inversion Hrs as [|? ? ? ? _ Hnil]; subst. inversion Hnil; subst. repeat constructor.
Qed.

Section roundtrip.
Context {NP : Numpy} {NL : NumpyLaws}.

(** What is written to a region is what is read from it: after a successful [write], [read]
    of the same region raises no hazard and returns [np.asarray(values, dtype)], a well-formed
    array of the region's type and resolved shape; every byte outside the region's allocation is
    unchanged.  The region may have any layout whose elements do not overlap, in particular any
    without explicit strides. *)
Theorem region_roundtrip sim region values core s s' :
  runtime_wf s → arg_wf values → sync_only (sim_config sim) = false →
  rg_strides_bytes region = None ∨ non_overlapping sim s region core →
  write_region sim region values core s = (s', Ok tt) →
  runtime_wf s' ∧
  ∃ d arr a v, numpy_dtype (rg_dtype region) = Ok d ∧ np_asarray values (Some d) = Ok arr ∧
    resolve_in sim s region core = Ok (a, v) ∧ ar_dtype arr = d ∧ ar_shape arr = mv_shape v ∧ ar_wf arr ∧
    read_region sim region core s' = (s', Ok arr) ∧
    ∀ k z, 0 <= z → (k = al_space a → ¬ (al_address a <= z < al_end a)) →
      as_data (get_space s' k) !! Z.to_nat z = as_data (get_space s k) !! Z.to_nat z.
Proof.
  intros Hwf Hv Hso Hover Hw.
  assert (non_overlapping sim s region core) as Hdis
    by (destruct Hover; [by apply contiguous_non_overlapping|done]).
  assert (in_frame [region] region) as Hin by (exists region; split; [by left|done]).
  pose proof (confined_write_region sim core [region] region values Hin s Hwf) as Hu.
  rewrite Hw in Hu. cbn [fst] in Hu.
  unfold write_region, resolve, mbind, stM_bind, st_lift in Hw.
  destruct (resolve_in sim s region core) as [[a v]|] eqn:Er; [|done]. cbn [fst snd] in Hw.
  destruct (numpy_dtype (rg_dtype region)) as [d|] eqn:Ed; [|done].
  destruct (np_asarray values (Some d)) as [arr|] eqn:Ea; [|done].
  destruct (ensure (bool_decide (ar_shape arr = mv_shape v)) _ _) as [[]|] eqn:Ee; [|done].
  apply ensure_ok, bool_decide_eq_true in Ee.
  destruct (asarray_type values d arr Hv Ea) as [Hdt Hawf].
  pose proof (resolve_in_allocation sim s region core a v Er) as Hal.
  pose proof (backed_allocation sim core s region a Hwf Hal) as Hb.
  assert (∃ rs, resolve_ranges a (TView v) = Ok rs) as [rs Hrs].
  { unfold Memory.write, mbind, stM_bind, st_lift in Hw. destruct (resolve_ranges a (TView v)); [by eexists|done]. }
  destruct (write_read_back a (TView v) _ s s' rs Hb I Hrs (Hdis a v rs Er Hrs) Hw) as [Hread Hout].
  split; [by eapply untouched_wf|]. exists d, arr, a, v. split_and!; try done.
  - unfold read_region, resolve, mbind, stM_bind, st_lift. rewrite Hso. cbn [negb ensure require].
    rewrite (resolve_in_stable sim s s') by apply Hu. rewrite Er. cbn [fst snd]. rewrite Hread.
    unfold array_of_bytes. rewrite Ed. ok_bind. rewrite (bytes_roundtrip _ _ _ Ea). ok_bind.
    unfold reshape. destruct Hawf as [_ Hlen]. unfold ar_shape in Ee.
    rewrite <- Ee, <- Hlen. unfold ar_size, ar_shape, ar_data, mk_array. cbn.
    rewrite Z.mul_1_r, Z.eqb_refl. destruct arr as [d' [sh data]]. cbn in *. by rewrite Hdt.
  - intros k z Hz Hk. apply (ut_bytes _ _ _ _ _ Hu k z Hz).
    intros region' a' ->%list_elem_of_singleton Ha' Hsp.
    rewrite Hal in Ha'. injection Ha' as <-. by apply Hk.
Qed.
End roundtrip.

(** ** A concrete simulator *)

Definition int_spec (name : string) (scope : MemoryScope) : BufferSpec :=
  MkBufferSpec name scope [VInt 4] "int32" None None None [].
Definition exec_program : KernelProgram :=
  MkKernel "k" "A2" [MkCore 0 []; MkCore 1 []] [int_spec "x" UB; int_spec "y" UB; int_spec "g" GM] [].
Definition exec_config (only_sync : bool) : SimulatorConfig :=
  MkConfig "A2" "error" only_sync "error" true 8 "error" false 1 15 (120 # 1) None "A2".
Definition exec_sim (only_sync : bool) (l : Lane) : Simulator := MkSim exec_program (exec_config only_sync) [] (Some l).
Definition exec_memory : MemoryRuntime :=
  match from_program exec_program "error" [] with Ok s => s | Raise _ => MkRuntime [] 0 [] (MkReporter "" [] []) [] [] [] [] end.

Lemma exec_memory_ok : from_program exec_program "error" [] = Ok exec_memory.
Proof. vm_compute. reflexivity. Qed.
Lemma exec_memory_wf : runtime_wf exec_memory.
Proof. exact (proj1 (from_program_ok _ _ _ _ exec_memory_ok)). Qed.

Definition int_region (name : string) (scope : MemoryScope) : BufferRegion :=
  Region name scope [VInt 4] "int32" (VInt 0) None None.
Definition ints (l : list Z) : np_arg_of (@dtype IntNumpy) (@elt IntNumpy) := APy (VList (VInt <$> l)).
Definition vector_task (op : string) (meta : dict string pyval) : Task :=
  MkTask "t" op 0 VECTOR_0 VECTOR 1 [] None meta.
(** [y := x + 5] *)
Definition adds_task : Task :=
  vector_task "AddS" [("lhs", VRegion (int_region "x" UB)); ("scalar", VInt 5); ("dst", VRegion (int_region "y" UB))].
Definition x_written : MemoryRuntime :=
  (write_region (exec_sim false VECTOR_0) (int_region "x" UB) (ints [1; 2; 3; 4]) 0 exec_memory).1.
Definition no_node : pyval → tir := λ _, TOther "".

Lemma x_written_wf : runtime_wf x_written.
Proof.
  pose proof (confined_write_region (exec_sim false VECTOR_0) 0 [int_region "x" UB] (int_region "x" UB)
    (ints [1; 2; 3; 4])) as H. refine (untouched_wf _ _ _ _ _ (H _ exec_memory exec_memory_wf) exec_memory_wf).
  exists (int_region "x" UB). split; [by left|done].
Qed.

(** The addition changes [y] only: the first byte of [x] stays. *)
Lemma execute_frame_witness :
  let s' := (execute no_node (exec_sim false VECTOR_0) adds_task x_written).1 in
  runtime_wf s' ∧ as_data (get_space s' (UB, Some 0)) !! 0%nat = Some 1.
Proof.
  destruct (execute_frame no_node (exec_sim false VECTOR_0) adds_task x_written _ _ x_written_wf
    (surjective_pairing _)) as (Hwf & _ & Hb).
  split; [exact Hwf|]. destruct (Hb (UB, Some 0) 0 ltac:(lia)) as [H _].
  - assert (writable adds_task = [int_region "y" UB]) as -> by (vm_compute; reflexivity).
    intros region a ->%list_elem_of_singleton Ha _. vm_compute in Ha. injection Ha as <-. cbn. lia.
  - etransitivity; [exact H|]. vm_compute. reflexivity.
Defined.

(** Its poison-only execution initializes [y], since [x] is initialized. *)
Lemma sync_only_poison_witness :
  let s' := (execute_sync_only (exec_sim true VECTOR_0) adds_task "adds" x_written).1 in
  as_initialized (get_space s' (UB, Some 0)) !! 20%nat = Some true ∧
  as_initialized (get_space x_written (UB, Some 0)) !! 20%nat = Some false.
Proof.
  destruct (sync_only_poison (exec_sim true VECTOR_0) adds_task "adds" x_written
    (execute_sync_only (exec_sim true VECTOR_0) adds_task "adds" x_written).1 x_written_wf) as (_ & i & Hi & Hf);
    [reflexivity|reflexivity|vm_compute; reflexivity|].
  split; [|vm_compute; reflexivity]. etransitivity; [exact (Hf (UB, Some 0) 20 ltac:(lia))|].
  assert (i = true) as ->; [|vm_compute; reflexivity]. apply Hi.
  assert (poison_sources adds_task "adds" = [int_region "x" UB]) as -> by (vm_compute; reflexivity).
  intros region k z ->%list_elem_of_singleton Hz.
  unfold occupies in Hz. set (r := region_bytes _ _ _ _) in Hz. vm_compute in r. subst r.
  apply andb_true_iff in Hz as [<-%bool_decide_eq_true Hc%bool_decide_eq_true].
  apply Exists_exists in Hc as (x & ->%list_elem_of_singleton & Hc). unfold covers in Hc. cbn [fst snd] in Hc.
  assert (∀ n, (n < 16)%nat → as_initialized (get_space x_written (UB, Some 0)) !! n = Some true) as H.
  { intros n Hn. do 16 (destruct n as [|n]; [vm_compute; reflexivity|]). lia. }
  apply H. lia.
Defined.

Lemma dispatch_agreement_witness :
  execute_sync_only (exec_sim true CUBE) (vector_task "foo" []) "foo" exec_memory =
    (exec_memory, Raise (Exn UnsupportedSimOpError "sync-only execution is not implemented" ["foo"; "t"])).
Proof. apply (dispatch_agreement (exec_sim true CUBE) (vector_task "foo" []) no_node "foo"). vm_compute. reflexivity. Defined.

Lemma sync_all_not_executable_witness :
  ∃ label, execute no_node (exec_sim true CUBE) (vector_task "sync_all" []) exec_memory =
    (exec_memory, Raise (Exn UnsupportedSimOpError label ["sync_all"; "t"])).
Proof.
  apply (sync_all_not_executable no_node (exec_sim true CUBE) (vector_task "sync_all" []) exec_memory); reflexivity.
Defined.

(** [x] seen as [y]. *)
Definition cast_task (materialize : bool) : Task :=
  vector_task "reinterpretcast" [("dst", VRegion (int_region "y" UB)); ("src", VRegion (int_region "x" UB));
                                 ("materialize_view", VBool materialize)].

Lemma sync_only_materialized_view_raises_witness :
  execute no_node (exec_sim true VECTOR_0) (cast_task true) x_written =
    (x_written, Raise (Exn UnsupportedSimOpError "numeric results are unavailable" [])).
Proof.
  apply (sync_only_materialized_view_raises no_node (exec_sim true VECTOR_0) (cast_task true) x_written
           (int_region "x" UB) (int_region "y" UB)); reflexivity.
Defined.

Lemma vector1_reinterpretcast_ineffective_witness :
  let s' := (execute no_node (exec_sim false VECTOR_1) (cast_task false) x_written).1 in
  allocation_of (exec_sim false VECTOR_1) s' (int_region "y" UB) 0 =
    allocation_of (exec_sim false VECTOR_1) x_written (int_region "y" UB) 0.
Proof.
  eapply (vector1_reinterpretcast_ineffective no_node (exec_sim false VECTOR_1) (cast_task false) x_written);
    [reflexivity|reflexivity|reflexivity|vm_compute; discriminate| |apply surjective_pairing].
  intros d Hd. injection Hd as <-. reflexivity.
Defined.

Lemma region_roundtrip_witness :
  let s' := (write_region (exec_sim false VECTOR_0) (int_region "x" UB) (ints [1; 2; 3; 4]) 0 exec_memory).1 in
  ∃ arr, ar_data arr = [1; 2; 3; 4] ∧ read_region (exec_sim false VECTOR_0) (int_region "x" UB) 0 s' = (s', Ok arr).
Proof.
  destruct (region_roundtrip (NP := IntNumpy) (exec_sim false VECTOR_0) (int_region "x" UB) (ints [1; 2; 3; 4]) 0 exec_memory
    (write_region (exec_sim false VECTOR_0) (int_region "x" UB) (ints [1; 2; 3; 4]) 0 exec_memory).1
    exec_memory_wf I eq_refl (or_introl eq_refl)) as (_ & d & arr & a & v & Hd & Ha & _ & _ & _ & _ & Hr & _).
  - vm_compute. reflexivity.
  - exists arr. split; [|exact Hr]. vm_compute in Hd. injection Hd as <-. vm_compute in Ha. by injection Ha as <-.
Defined.
