(* ===== verification/FunctionalRun.v ===== *)
(** A whole run of the executor ([FunctionalSimulator.run]): the program that data-dependent
    branches leave - [active_dependency_ids] ends and returns exactly the tasks that are reached
    through dropped ones, and the kept tasks keep their order -, the schedule of that program, the
    order in which its tasks are applied, and the memory and statistics the run returns. *)

From Stdlib Require Import Sorted.
From S2P Require Import Prelude PyDict PySort PyStr Errors PyFloat Layout Values Program Trace.
From S2P Require Import Config Hazard SyncOps SyncReset SyncModel Scheduler Schedule Progress.
From S2P Require Import Intervals MemoryView Memory MemoryProofs Stats Run ExecOrder PyNum Numpy.
From S2P Require Import ExecEnv ExecOps ExecKernels ExecGather Executor FunctionalSim ExecFrame.
From S2P Require Import NumpyInt ExecClaims.
Local Open Scope string_scope.
Local Open Scope Z_scope.
Local Open Scope list_scope.

Section dependencies.
Context (ts : list Task) (active : list string).
Context (Hnd : NoDup (task_id <$> ts)) (Hknown : deps_known ts).
Context (Hacyclic : ∀ x, ¬ tc (task_edge ts) x x).

Let ids := task_id <$> ts.
Let by_id : dict string Task := dict_of_pairs ((λ t, (task_id t, t)) <$> ts).

(** [leads d x]: following dependencies of dropped tasks from [d] one arrives at the kept [x]. *)
Inductive leads : string → string → Prop :=
| leads_kept t : t ∈ ts → dropped active t = false → leads (task_id t) (task_id t)
| leads_via t d x : t ∈ ts → dropped active t = true → d ∈ dependencies t → leads d x → leads (task_id t) x.

Lemma by_id_task t : t ∈ ts → dget by_id (task_id t) = Some t.
Proof. intros Ht. exact (dget_by_task id ts t Hnd Ht). Qed.
Lemma by_id_inv d t : dget by_id d = Some t → t ∈ ts ∧ d = task_id t.
Proof.
  intros H%dget_elem_of. unfold by_id in H. apply (dkeys_by_task id ts Hnd) in H as (u & Hu & -> & ->). done.
Qed.

(** ** The depth of the graph *)

(** Every chain of dependencies from [d] has fewer than [n] edges. *)
Fixpoint bounded (n : nat) (d : string) : Prop :=
  match n with O => False | S n => ∀ d', task_edge ts d d' → bounded n d' end.

Lemma bounded_path n path d :
  NoDup (d :: path) → d :: path ⊆ ids → (∀ y, y ∈ path → tc (task_edge ts) y d) →
  (length ids <= n + length path)%nat → bounded n d.
Proof.
  revert path d; induction n as [|n IH]; intros path d Hp Hsub Hr Hlen; cbn [bounded].
  - pose proof (submseteq_length _ _ (NoDup_submseteq _ _ Hp Hsub)) as Hl. cbn in Hl. lia.
  - intros d' Hd'. assert (∀ y, y ∈ d :: path → tc (task_edge ts) y d') as Hr'.
    { intros y [->|Hy]%elem_of_cons; [by apply tc_once|]. eapply tc_r; [by apply Hr|done]. }
    apply (IH (d :: path)); [| |done|cbn; lia].
    + constructor; [|done]. intros Hin. by apply (Hacyclic d'), Hr'.
    + destruct Hd' as (t & Ht & _ & Hd). intros y [->|Hy]%elem_of_cons; [by eapply Hknown|by apply Hsub].
Qed.

Lemma bounded_all d : d ∈ ids → bounded (length ids) d.
Proof.
  intros Hd. apply (bounded_path _ []); [apply NoDup_singleton| |set_solver|lia].
  intros y ->%list_elem_of_singleton. done.
Qed.

Lemma cost_stable n m d :
  bounded n d → (n <= m)%nat → expansion_cost by_id active m d = expansion_cost by_id active n d.
Proof.
  revert m d; induction n as [|n IH]; intros m d Hb Hm; [done|]. destruct m as [|m]; [lia|].
  cbn [expansion_cost]. destruct (dget by_id d) as [t|] eqn:E; [|done]. apply by_id_inv in E as [Ht ->].
  destruct (dropped active t); [|done]. f_equal. cbn in Hb.
  assert (∀ x, x ∈ dependencies t → bounded n x) as Hall by (intros x Hx; apply Hb; by exists t).
  revert Hall. generalize (dependencies t). intros l.
  induction l as [|x l IHl]; intros Hall; cbn; [done|].
  rewrite (IH m x) by (try lia; apply Hall; by left). f_equal. apply IHl. intros y Hy. apply Hall. by right.
Qed.

Lemma length_by_id : (length ids <= length by_id)%nat.
Proof.
  replace (length by_id) with (length (dkeys by_id)) by (unfold dkeys; apply length_fmap).
  apply submseteq_length, NoDup_submseteq; [done|]. intros x Hx.
  apply list_elem_of_fmap in Hx as (t & -> & Ht). apply list_elem_of_fmap. exists (task_id t, t).
  split; [done|]. by apply dget_elem_of, by_id_task.
Qed.

(** The cost of a dependency, with the fuel the code's model provides. *)
Definition cost : string → nat := expansion_cost by_id active (S (length by_id)).

Lemma cost_dropped t :
  t ∈ ts → dropped active t = true → cost (task_id t) = S (sum_list_with cost (dependencies t)).
Proof.
  intros Ht Hd. unfold cost at 1. cbn [expansion_cost]. rewrite by_id_task, Hd by done. f_equal.
  assert (∀ x, x ∈ dependencies t → bounded (length ids) x) as Hall.
  { intros x Hx. apply bounded_all. by eapply Hknown. }
  revert Hall. generalize (dependencies t). intros l. induction l as [|x l IH]; intros Hall; cbn [sum_list_with]; [done|].
  pose proof length_by_id. f_equal; [|apply IH; set_solver].
  pose proof (Hall x ltac:(by left)) as Hx. unfold cost.
  by rewrite (cost_stable (length ids) (S (length by_id)) x Hx), (cost_stable (length ids) (length by_id) x Hx) by lia.
Qed.
Lemma cost_pos d : (0 < cost d)%nat.
Proof. unfold cost. cbn [expansion_cost]. repeat case_match; lia. Qed.

(** ** The loop *)

Lemma sum_list_with_rev {A} (f : A → nat) l : sum_list_with f (rev l) = sum_list_with f l.
Proof. induction l as [|x l IH]; cbn; [done|]. rewrite sum_list_with_app, IH. cbn. lia. Qed.
Lemma elem_of_rev {A} (x : A) l : x ∈ rev l ↔ x ∈ l.
Proof. by rewrite !list_elem_of_In, <- in_rev. Qed.

Lemma expand_spec fuel pending resolved :
  pending ⊆ ids → (sum_list_with cost pending <= fuel)%nat →
  ∃ r, expand by_id active fuel pending resolved = Ok r ∧
    ∀ x, x ∈ r ↔ x ∈ resolved ∨ ∃ d, d ∈ pending ∧ leads d x.
Proof.
  revert pending resolved; induction fuel as [|fuel IH]; intros pending resolved Hsub Hf.
  all: destruct pending as [|d pending]; cbn [expand];
    [exists resolved; split; [done|]; intros x; split; [by left|]; intros [?|(d & Hd & _)]; [done|set_solver]|].
  { cbn [sum_list_with] in Hf. pose proof (cost_pos d). lia. }
  assert (d ∈ ids) as Hd by (apply Hsub; by left).
  apply list_elem_of_fmap in Hd as (t & -> & Ht). unfold dindex. rewrite by_id_task by done. ok_bind.
  cbn [sum_list_with] in Hf. destruct (dropped active t) eqn:Hdr.
  - rewrite (cost_dropped t Ht Hdr) in Hf.
    destruct (IH (rev (dependencies t) ++ pending) resolved) as (r & Hr & Hx).
    { intros x [Hx|Hx]%elem_of_app; [|apply Hsub; by right].
      rewrite elem_of_rev in Hx. exact (Hknown t x Ht Hx). }
    { rewrite sum_list_with_app, sum_list_with_rev. lia. }
    exists r. split; [done|]. intros x. rewrite Hx. split.
    + intros [?|(d & [Hd|Hd]%elem_of_app & Hl)]; [by left| |right; exists d; split; [by right|done]].
      right. exists (task_id t). split; [by left|]. rewrite elem_of_rev in Hd.
      by eapply leads_via.
    + intros [?|(d & [->|Hd]%elem_of_cons & Hl)]; [by left| |right; exists d; split; [|done]; set_solver].
      right. inversion Hl as [u Hu Hk Hid|u d' y Hu Hk Hd' Hl' Hid]; subst.
      * assert (u = t) as -> by (eapply same_id; eauto). congruence.
      * assert (u = t) as -> by (eapply same_id; eauto). exists d'. split; [|done].
        rewrite elem_of_app, elem_of_rev. by left.
  - destruct (IH pending ({[task_id t]} ∪ resolved)) as (r & Hr & Hx).
    { intros x Hx. apply Hsub. by right. }
    { pose proof (cost_pos (task_id t)). lia. }
    exists r. split; [done|]. intros x. rewrite Hx. split.
    + intros [[->%elem_of_singleton|?]%elem_of_union|(d & Hd & Hl)].
      * right. exists (task_id t). split; [by left|by apply leads_kept].
      * by left.
      * right. exists d. split; [by right|done].
    + intros [?|(d & [->|Hd]%elem_of_cons & Hl)]; [set_solver| |right; by exists d].
      left. inversion Hl as [u Hu Hk Hid|u d' y Hu Hk Hd' Hl' Hid]; subst; [set_solver|].
      assert (u = t) as -> by (eapply same_id; eauto). congruence.
Qed.

Lemma active_dependencies_spec ds :
  ds ⊆ ids →
  ∃ l, active_dependency_ids by_id active ds = Ok l ∧ NoDup l ∧
    StronglySorted (λ a b, str_leb a b = true) l ∧ ∀ x, x ∈ l ↔ ∃ d, d ∈ ds ∧ leads d x.
Proof.
  intros Hsub. unfold active_dependency_ids. cbv zeta.
  destruct (expand_spec (sum_list_with cost ds) (rev ds) ∅) as (r & Hr & Hx).
  { intros x Hx. apply Hsub. by rewrite elem_of_rev in Hx. }
  { by rewrite sum_list_with_rev. }
  unfold cost in Hr. rewrite Hr. ok_bind. eexists. split; [done|]. split; [|split].
  - rewrite py_sorted_perm. exact (NoDup_elements r).
  - exact (py_sorted_ordered str_leb _).
  - intros x. rewrite elem_of_py_sorted, elem_of_elements, Hx.
    setoid_rewrite elem_of_rev. set_solver.
Qed.
End dependencies.

(** ** The resolved program *)

Lemma lane_of_value l : lane_of (lane_value l) = Ok l.
Proof. by destruct l. Qed.
Lemma pipe_of_value q : pipe_of (pipe_value q) = Ok q.
Proof. by destruct q. Qed.

(** What rewiring keeps of a task, and its new dependencies. *)
Record rewired (ts : list Task) (active : list string) (t t' : Task) : Prop := {
  rw_id : task_id t' = task_id t;
  rw_operation : operation t' = operation t;
  rw_resource : (core_id t', lane t', pipe t') = (core_id t, lane t, pipe t);
  rw_duration : duration_cycles t' = duration_cycles t;
  rw_dependencies : ∀ x, x ∈ dependencies t' ↔ ∃ d, d ∈ dependencies t ∧ leads ts active d x;
}.

Section resolved.
Context (p : KernelProgram) (active : list string) (Hwf : program_wf p).
Let ts := tasks p.
Let by_id : dict string Task := dict_of_pairs ((λ t, (task_id t, t)) <$> ts).

Lemma rewire_task_spec t t' : t ∈ ts → rewire_task by_id active t = Ok t' → rewired ts active t t'.
Proof.
  intros Ht. unfold rewire_task. intros (meta & _ & (ds & Hds & H)%outcome_bind_ok)%outcome_bind_ok.
  destruct (active_dependencies_spec ts active (wf_unique _ Hwf) (wf_known _ Hwf) (wf_acyclic _ Hwf)
    (dependencies t)) as (l & Hl & _ & _ & Hx).
  { intros d Hd. by eapply (wf_known _ Hwf). }
  fold by_id in Hl. assert (ds = l) as -> by congruence.
  unfold task_init in H. rewrite lane_of_value, pipe_of_value in H. inv_ok. by split.
Qed.

Lemma rewire_cores_spec (R : Task → Task → Prop) cores cores' :
  (∀ c t t', c ∈ cores → t ∈ cp_tasks c → rewire_task by_id active t = Ok t' → R t t') →
  omap_list (rewire_core by_id active) cores = Ok cores' →
  Forall2 R (kept_tasks active (kernel_tasks cores)) (kernel_tasks cores').
Proof.
  intros HR Hc%omap_list_ok. unfold kernel_tasks, kept_tasks.
  induction Hc as [|c c' cs cs' Hcore _ IH]; cbn [flat_map]; [constructor|].
  rewrite filter_app. apply Forall2_app; [|apply IH; intros c0 t t' ?; apply HR; by right].
  unfold rewire_core in Hcore. apply outcome_bind_ok in Hcore as (l & Hl & Hcore).
  unfold core_program_init in Hcore. inv_ok. cbn [cp_tasks]. apply omap_list_ok in Hl.
  apply Forall2_same_length_lookup. apply Forall2_same_length_lookup in Hl as [Hlen Hl]. split; [done|].
  intros i t t' Hi Hi'. apply (HR c); [by left| |by eapply Hl].
  apply list_elem_of_lookup_2, list_elem_of_filter in Hi. by destruct Hi.
Qed.

Lemma resolved_tasks pr :
  resolved_program p active = Ok pr →
  program_wf pr ∧ Forall2 (rewired ts active) (kept_tasks active ts) (tasks pr).
Proof.
  unfold resolved_program. fold ts by_id. intros (cores & Hc & H)%outcome_bind_ok.
  apply kernel_init_wf in H as (Hpr & -> & _). split; [done|].
  unfold ts, tasks. revert Hc. apply rewire_cores_spec. intros c t t' Hcin Ht. apply rewire_task_spec.
  apply list_elem_of_In, in_flat_map. exists c. by rewrite <- !list_elem_of_In.
Qed.

(** ** The order between kept tasks *)

Definition kept (x : string) : Prop := ∃ t, t ∈ ts ∧ dropped active t = false ∧ x = task_id t.

Lemma leads_rtc x y : leads ts active x y → rtc (task_edge ts) x y ∧ kept y.
Proof.
  induction 1 as [t Ht Hd|t d x Ht Hdr Hd _ [IH Hk]]; [split; [constructor|by exists t]|].
  split; [|done]. eapply rtc_l; [|exact IH]. by exists t.
Qed.

Section order.
Context (ts' : list Task) (Hts' : Forall2 (rewired ts active) (kept_tasks active ts) ts').

Lemma kept_rewired t : t ∈ ts → dropped active t = false → ∃ t', t' ∈ ts' ∧ rewired ts active t t'.
Proof.
  intros Ht Hd. assert (t ∈ kept_tasks active ts) as Hin by (by apply list_elem_of_filter).
  apply list_elem_of_lookup in Hin as [i Hi].
  destruct (Forall2_lookup_l _ _ _ _ _ Hts' Hi) as (t' & Ht' & Hr). exists t'.
  split; [by eapply list_elem_of_lookup_2|done].
Qed.

Lemma rewired_edge x y :
  task_edge ts' x y ↔ kept x ∧ ∃ d, task_edge ts x d ∧ leads ts active d y.
Proof.
  split.
  - intros (t' & Ht' & <- & Hy). apply list_elem_of_lookup in Ht' as [i Hi].
    destruct (Forall2_lookup_r _ _ _ _ _ Hts' Hi) as (t & Ht & Hr).
    apply list_elem_of_lookup_2, list_elem_of_filter in Ht as [Hd Ht].
    destruct (proj1 (rw_dependencies _ _ _ _ Hr y) Hy) as (d & Hdin & Hl). rewrite (rw_id _ _ _ _ Hr).
    split; [by exists t|]. exists d. split; [by exists t|done].
  - intros [(t & Ht & Hk & ->) (d & (u & Hu & Hid & Hd) & Hl)].
    assert (u = t) as -> by (eapply task_of_id; [apply Hwf|eassumption..]).
    destruct (kept_rewired t Ht Hk) as (t' & Ht' & Hr). exists t'.
    split; [done|]. split; [apply Hr|]. apply (rw_dependencies _ _ _ _ Hr). by exists d.
Qed.

Lemma reaches_kept x y :
  x ∈ task_id <$> ts → kept y → rtc (task_edge ts) x y →
  ∃ k, leads ts active x k ∧ rtc (task_edge ts') k y.
Proof.
  intros Hx Hy Hr. revert Hx. induction Hr as [y|x d y Hxd _ IH]; intros Hx.
  - destruct Hy as (t & Ht & Hd & ->). exists (task_id t). split; [by apply leads_kept|constructor].
  - destruct Hxd as (t & Ht & <- & Hd).
    destruct IH as (k & Hl & Hr); [done|exact (wf_known _ Hwf t d Ht Hd)|].
    destruct (dropped active t) eqn:E.
    + exists k. split; [by eapply leads_via|done].
    + exists (task_id t). split; [by apply leads_kept|]. eapply rtc_l; [|exact Hr].
      apply rewired_edge. split; [by exists t|]. exists d. split; [by exists t|done].
Qed.

Lemma rewired_order x y :
  kept x → kept y → tc (task_edge ts') x y ↔ tc (task_edge ts) x y.
Proof.
  intros Hx Hy. split.
  - induction 1 as [x y (_ & d & Hd & Hl)%rewired_edge|x z y (_ & d & Hd & Hl)%rewired_edge _ IH].
    + eapply tc_rtc_r; [by apply tc_once|by apply leads_rtc].
    + apply leads_rtc in Hl as [Hl Hz]. eapply tc_trans; [|by apply IH].
      eapply tc_rtc_r; [by apply tc_once|done].
  - intros H. assert (∃ d, task_edge ts x d ∧ rtc (task_edge ts) d y) as (d & Hd & Hr).
    { inversion H; subst; eexists; (split; [eassumption|]); [constructor|by apply tc_rtc]. }
    destruct (reaches_kept d y) as (k & Hl & Hk); [|done|done|].
    { destruct Hd as (t & Ht & _ & Hdd). by eapply (wf_known _ Hwf). }
    eapply tc_rtc_r; [|exact Hk]. apply tc_once, rewired_edge. split; [done|]. by exists d.
Qed.
End order.
End resolved.

(** ** Properties *)

Definition task_table (p : KernelProgram) : dict string Task :=
  dict_of_pairs ((λ t, (task_id t, t)) <$> tasks p).

(** C25. Resolving the dependencies of a task always ends: in a well-formed program, for any set
    of active tasks and any known dependencies, [active_dependency_ids] returns the ascending,
    duplicate-free list of exactly those kept tasks that are reached from the dependencies by
    following the dependencies of dropped tasks. *)
Theorem active_dependency_ids_exact p active ds :
  program_wf p → ds ⊆ task_id <$> tasks p →
  ∃ l, active_dependency_ids (task_table p) active ds = Ok l ∧ NoDup l ∧
    StronglySorted (λ a b, str_leb a b = true) l ∧
    ∀ x, x ∈ l ↔ ∃ d, d ∈ ds ∧ leads (tasks p) active d x.
Proof.
  intros Hwf. by apply (active_dependencies_spec (tasks p) active (wf_unique _ Hwf) (wf_known _ Hwf) (wf_acyclic _ Hwf)).
Qed.

(** C26. Removing the branches not taken changes nothing for the tasks that stay: when the
    resolved program is constructed it is well formed, it has exactly the kept tasks, in program
    order and with their operation, resource and duration, and one kept task comes before
    another in its dependency order exactly when it does in the original program. *)
Theorem resolved_program_order p active pr :
  program_wf p → resolved_program p active = Ok pr →
  program_wf pr ∧
  Forall2 (λ t t', task_id t' = task_id t ∧ operation t' = operation t ∧ duration_cycles t' = duration_cycles t ∧
      (core_id t', lane t', pipe t') = (core_id t, lane t, pipe t)) (kept_tasks active (tasks p)) (tasks pr) ∧
  ∀ t u, t ∈ kept_tasks active (tasks p) → u ∈ kept_tasks active (tasks p) →
    tc (task_edge (tasks pr)) (task_id t) (task_id u) ↔ tc (task_edge (tasks p)) (task_id t) (task_id u).
Proof.
  intros Hwf H. destruct (resolved_tasks p active Hwf pr H) as [Hpr Hf]. split; [done|]. split.
  - eapply Forall2_impl; [exact Hf|]. intros t t' [? ? ? ? _]. done.
  - intros t u [Ht Htin]%list_elem_of_filter [Hu Huin]%list_elem_of_filter.
    apply (rewired_order p active Hwf (tasks pr) Hf); [by exists t|by exists u].
Qed.

(** A task between two others, in a branch that is not taken. *)
Definition branch_task (name : string) (deps : list string) (dynamic : bool) : Task :=
  MkTask name "add" 0 VECTOR_0 VECTOR 1 deps None
    (if dynamic then [("dynamic_predicates", VTuple [VTuple [VInt 0; VOther "c"; VBool true]])] else []).
Definition branch_program : KernelProgram :=
  MkKernel "k" "A2" [MkCore 0 [branch_task "a" [] false; branch_task "b" ["a"] true; branch_task "c" ["b"] false]] [] [].

Lemma branch_program_wf : program_wf branch_program.
Proof.
  assert (kernel_program_init "k" "A2" (kp_cores branch_program) [] [] = Ok branch_program) as H
    by (vm_compute; reflexivity).
  by apply kernel_init_wf in H as [? _].
Qed.

Lemma active_dependency_ids_exact_witness :
  active_dependency_ids (task_table branch_program) ["a"; "c"] ["b"] = Ok ["a"] ∧
  ∃ d, d ∈ ["b"] ∧ leads (tasks branch_program) ["a"; "c"] d "a".
Proof.
  assert (active_dependency_ids (task_table branch_program) ["a"; "c"] ["b"] = Ok ["a"]) as H by (vm_compute; reflexivity).
  split; [exact H|].
  destruct (active_dependency_ids_exact branch_program ["a"; "c"] ["b"] branch_program_wf) as (l & Hl & _ & _ & Hx).
  - intros x ->%list_elem_of_singleton. right; left.
  - rewrite H in Hl. injection Hl as <-. apply Hx. by left.
Defined.

Lemma resolved_program_order_witness :
  match resolved_program branch_program ["a"; "c"] with
  | Ok pr => task_id <$> tasks pr = ["a"; "c"] ∧ tc (task_edge (tasks pr)) "c" "a"
  | Raise _ => False
  end.
Proof.
  destruct (resolved_program branch_program ["a"; "c"]) as [pr|e] eqn:E; [|vm_compute in E; discriminate E].
  destruct (resolved_program_order branch_program ["a"; "c"] pr branch_program_wf E) as (_ & _ & Ho).
  split; [vm_compute in E; injection E as <-; reflexivity|].
  apply (Ho (branch_task "c" ["b"] false) (branch_task "a" [] false)).
  - apply list_elem_of_filter. split; [reflexivity|]. right; right; left.
  - apply list_elem_of_filter. split; [reflexivity|]. left.
  - eapply tc_l; [|apply tc_once].
    + exists (branch_task "c" ["b"] false). split; [right; right; left|]. split; [reflexivity|by left].
    + exists (branch_task "b" ["a"] true). split; [right; left|]. split; [reflexivity|by left].
Defined.

Section run.
Context {NP : Numpy} (node_of : pyval → tir) (set_order : gset string → list string) (clock : nat → Q).
Context (sim : Simulator).

Lemma execute_all_wf order s s' ans :
  runtime_wf s → execute_all node_of sim order s = (s', ans) → runtime_wf s'.
Proof.
  unfold execute_all. revert s; induction order as [|t order IH]; intros s Hwf; cbn [st_iter].
  - unfold mret, stM_ret. by intros [= <- _].
  - unfold mbind, stM_bind. destruct (execute node_of _ t s) as [s1 ans1] eqn:E.
    destruct (execute_effect _ _ _ _ _ _ Hwf E) as [Hwf1 _].
    destruct ans1 as [[]|e]; [by apply IH|by intros [= <- _]].
Qed.

Lemma dynamic_program_wf s program :
  program_wf (sim_program sim) → program_for_dynamic_control node_of sim None s = Ok program → program_wf program.
Proof.
  intros Hwf. unfold program_for_dynamic_control. destruct (existsb _ _); [|by intros [= <-]].
  intros (active & _ & H)%outcome_bind_ok. exact (proj1 (resolved_tasks (sim_program sim) active Hwf program H)).
Qed.

Lemma scheduler_run_valid fuel program rs st :
  program_wf program → scheduler_run set_order clock sim fuel program = Some (Ok (rs, st)) →
  ∃ c, valid_schedule (tasks program) rs c.
Proof.
  intros Hwf H. unfold scheduler_run, Stats.run in H.
  destruct (schedule _ set_order clock fuel program) as [[rs'|]|] eqn:Es; [|done|done].
  cbn [mbind outcome_bind] in H. injection H as H. apply outcome_bind_ok in H as (st' & _ & H). injection H as -> _.
  by eapply (@schedule_yields_valid _ (FlagBarrierSynchronizationModel (sync_cfg_of (sim_config sim)))).
Qed.

Lemma run_functional_result fuel s :
  program_wf (sim_program sim) → runtime_wf s →
  ∀ r, run_functional node_of set_order clock fuel sim None s = Some (Ok r) →
     ∃ program order,
       program_for_dynamic_control node_of sim None s = Ok program ∧ program_wf program ∧
       (∃ c, valid_schedule (tasks program) (fx_records r) c) ∧
       order ≡ₚ tasks program ∧ greedy_run (tasks program) (rank_in (fx_records r)) order ∧
       (∀ pre t suf, order = pre ++ t :: suf → ∀ d, d ∈ dependencies t → d ∈ task_id <$> pre) ∧
       execute_all node_of sim order s = (fx_memory r, Ok tt) ∧ runtime_wf (fx_memory r) ∧
       from_records (fx_records r) (sim_bindings sim) (diagnostics (rt_reporter (fx_memory r)))
         (local_memory_high_watermark_bytes (fx_memory r)) = Ok (fx_stats r).
Proof.
  intros Hwf Hs. unfold run_functional.
  intros r. destruct (program_for_dynamic_control node_of sim None s) as [program|] eqn:Ep; [|done].
  pose proof (dynamic_program_wf s program Hwf Ep) as Hpw.
  destruct (scheduler_run _ _ _ _ _) as [[[rs st]|]|] eqn:Er; [|done|done]. intros H.
  destruct (scheduler_run_valid fuel program rs st Hpw Er) as [c Hc].
  destruct (scheduled_order program rs c Hpw Hc) as (order & Ho & Hg & Hperm).
  cbn [mbind outcome_bind] in H. rewrite Ho in H. cbn [mbind outcome_bind] in H.
  destruct (execute_all node_of sim order s) as [s' [[]|]] eqn:Ee; [|done].
  cbn [mbind outcome_bind] in H. injection H as H. apply outcome_bind_ok in H as (stats & Hst & H).
  injection H as <-. cbn [fx_records fx_memory fx_stats].
  exists program, order. split_and!; try done; [by exists c| |by eapply execute_all_wf].
  intros pre t suf. by eapply greedy_dependencies.
Qed.

(** C6. A run does what it is meant to: with deadlock detection on, a step budget of the
    resolved program's size always suffices for an answer; and whenever [run] returns a result
    for a well-formed program and memory, its records are a valid schedule of the program that
    the data-dependent branches leave, the memory is the outcome of applying every task of that
    program exactly once, without error, in the only order that always takes the executable task
    scheduled first - so every dependency before its dependents -, the memory is well formed, and
    the statistics are those of the records with the hazards reported on the way. *)
Theorem run_functional_correct fuel s :
  program_wf (sim_program sim) → runtime_wf s →
  (∀ program, program_for_dynamic_control node_of sim None s = Ok program →
     deadlock_detect (sim_config sim) = true → (pass_budget program ≤ fuel)%nat →
     is_Some (run_functional node_of set_order clock fuel sim None s)) ∧
  (∀ r, run_functional node_of set_order clock fuel sim None s = Some (Ok r) →
     ∃ program order,
       program_for_dynamic_control node_of sim None s = Ok program ∧ program_wf program ∧
       (∃ c, valid_schedule (tasks program) (fx_records r) c) ∧
       order ≡ₚ tasks program ∧ greedy_run (tasks program) (rank_in (fx_records r)) order ∧
       (∀ pre t suf, order = pre ++ t :: suf → ∀ d, d ∈ dependencies t → d ∈ task_id <$> pre) ∧
       execute_all node_of sim order s = (fx_memory r, Ok tt) ∧ runtime_wf (fx_memory r) ∧
       from_records (fx_records r) (sim_bindings sim) (diagnostics (rt_reporter (fx_memory r)))
         (local_memory_high_watermark_bytes (fx_memory r)) = Ok (fx_stats r)).
Proof.
  intros Hwf Hs. split.
  - intros program Hp Hd Hf. unfold run_functional. rewrite Hp. unfold scheduler_run, Stats.run.
    destruct (@schedule_total _ (FlagBarrierSynchronizationModel (sync_cfg_of (sim_config sim))) (sim_config sim) set_order clock fuel program Hd Hf) as [x ->]. by eexists.
  - by apply run_functional_result.
Qed.
End run.

(** ** A concrete run: [x := 7], then [y := x + 5] *)

Definition run_program : KernelProgram :=
  MkKernel "k" "A2"
    [MkCore 0 [MkTask "f" "fill" 0 VECTOR_0 VECTOR 4 [] None
                 [("dst", VRegion (int_region "x" UB)); ("scalar", VInt 7)];
               MkTask "a" "adds" 0 VECTOR_0 VECTOR 6 ["f"] None (metadata adds_task)]]
    [int_spec "x" UB; int_spec "y" UB] [].
Definition run_sim : Simulator := MkSim run_program (exec_config false) [] None.
Definition run_memory : MemoryRuntime :=
  match from_program run_program "error" [] with Ok s => s | Raise _ => exec_memory end.

Lemma run_program_wf : program_wf run_program.
Proof.
  assert (kernel_program_init "k" "A2" (kp_cores run_program) (kp_buffers run_program) [] = Ok run_program) as H
    by (vm_compute; reflexivity).
  by apply kernel_init_wf in H as [? _].
Qed.
Lemma run_memory_wf : runtime_wf run_memory.
Proof.
  assert (from_program run_program "error" [] = Ok run_memory) as H by (vm_compute; reflexivity).
  exact (proj1 (from_program_ok _ _ _ _ H)).
Qed.

Lemma run_functional_correct_witness :
  match run_functional no_node elements still_clock 2 run_sim None run_memory with
  | Some (Ok r) =>
      makespan_cycles (fx_stats r) = 10 ∧ runtime_wf (fx_memory r) ∧
      match (read_region run_sim (int_region "y" UB) 0 (fx_memory r)).2 with
      | Ok a => ar_data a = [12; 12; 12; 12]
      | Raise _ => False
      end
  | _ => False
  end.
Proof.
  destruct (run_functional no_node elements still_clock 2 run_sim None run_memory) as [[r|e]|] eqn:E;
    [|vm_compute in E; discriminate E|vm_compute in E; discriminate E].
  destruct (proj2 (run_functional_correct no_node elements still_clock run_sim 2 run_memory run_program_wf
    run_memory_wf) r E) as (program & order & _ & _ & _ & _ & _ & _ & _ & Hw & _).
  vm_compute in E. injection E as <-. split; [reflexivity|]. split; [exact Hw|]. vm_compute. reflexivity.
Defined.
