(* ===== verification/ExecKernelProofs.v ===== *)
(** Exactness of the executor's index computations: the loops of [_im2col] and the byte addresses
    of [_gather]. *)

From S2P Require Import Prelude PyDict PySort PyStr Errors Values Layout Program Trace Config Hazard.
From S2P Require Import Intervals MemoryView Memory PyFloat PyNum Numpy ExecEnv ExecOps ExecKernels ExecGather.
From S2P Require Import NumpyInt.
Local Open Scope string_scope.
Local Open Scope Z_scope.
Local Open Scope list_scope.

(** ** Loops *)

Lemma ofold_fmap {E A B C} (f : C → B → outcome E C) (g : A → B) l acc :
  ofold f (g <$> l) acc = ofold (λ c a, f c (g a)) l acc.
Proof. revert acc; induction l as [|a l IH]; intros acc; cbn; [done|]. destruct (f acc (g a)); cbn; auto. Qed.

Lemma ofold_ext {E A C} (f g : C → A → outcome E C) l acc :
  (∀ a c, a ∈ l → f c a = g c a) → ofold f l acc = ofold g l acc.
Proof.
  revert acc; induction l as [|a l IH]; intros acc Hl; cbn; [done|]. rewrite (Hl a) by (by left).
  destruct (g acc a); cbn; [|done]. apply IH. intros x c Hx. apply Hl. by right.
Qed.

(** Two nested loops visit the coordinates in row order. *)
Lemma ofold_nested {E C} (g : C → Z * Z → outcome E C) rows cols acc :
  ofold (λ c m, ofold (λ c k, g c (m, k)) (py_range cols) c) (py_range rows) acc = ofold g (coords rows cols) acc.
Proof.
  unfold coords. revert acc; induction (py_range rows) as [|m l IH]; intros acc; cbn [ofold flat_map]; [done|].
  rewrite ofold_app, ofold_fmap. destruct (ofold _ (py_range cols) acc); cbn; [apply IH|done].
Qed.

(** Iterations that change nothing can be left out. *)
Lemma ofold_filter {E A C} (P : A → Prop) `{!∀ a, Decision (P a)} (f : C → A → outcome E C) l acc :
  (∀ a c, a ∈ l → ¬ P a → f c a = Ok c) → ofold f l acc = ofold f (filter P l) acc.
Proof.
  revert acc; induction l as [|a l IH]; intros acc Hl; cbn [ofold]; [done|]. rewrite filter_cons.
  case_decide as Hp.
  - cbn [ofold]. destruct (f acc a); cbn; [|done]. apply IH. intros x c Hx. apply Hl. by right.
  - rewrite (Hl a acc) by (done || by left). cbn. apply IH. intros x c Hx. apply Hl. by right.
Qed.

(** ** [_im2col] *)

Section im2col.
Context {NP : Numpy} (p : im2col_params) (d : dtype) (feature : array).

(** Where an element of the tile comes from. *)
Definition image_row (m k : Z) : Z :=
  m / im_output_w p * im_stride_h p - im_pad_top p + k / im_channels p / im_kw p * im_dilation_h p.
Definition image_col (m k : Z) : Z :=
  m mod im_output_w p * im_stride_w p - im_pad_left p + (k / im_channels p) mod im_kw p * im_dilation_w p.
Definition in_image (m k : Z) : Prop := 0 <= image_row m k < im_hi p ∧ 0 <= image_col m k < im_wi p.
#[local] Instance in_image_dec m k : Decision (in_image m k).
Proof. unfold in_image. apply _. Defined.
Definition feature_offset (m k : Z) : Z :=
  (image_row m k * im_wi p + image_col m k) * im_channels p + k mod im_channels p.

(** The conversion of an element to the type of the tile. *)
Definition convert (x : elt) : result elt := converted_scalar (mk_array (ar_dtype feature) [] [x]) d.

Context (Hw : 0 < im_output_w p) (Hch : 0 < im_channels p) (Hkw : 0 < im_kw p).
Context (Hshape : ar_shape feature = [im_hi p * im_wi p; im_channels p]) (Hfeature : ar_wf feature).

Lemma im2col_source_spec m k :
  im2col_source p (m / im_output_w p) (m mod im_output_w p) k =
  Ok (if decide (in_image m k) then Some (image_row m k * im_wi p + image_col m k, k mod im_channels p) else None).
Proof.
  unfold im2col_source, int_divmod.
  destruct (Z.eqb_spec (im_channels p) 0); [lia|]. ok_bind.
  destruct (Z.eqb_spec (im_kw p) 0); [lia|]. ok_bind. cbv zeta.
  fold (image_row m k) (image_col m k). unfold in_image.
  destruct (Z.leb_spec 0 (image_row m k)), (Z.ltb_spec (image_row m k) (im_hi p)),
    (Z.leb_spec 0 (image_col m k)), (Z.ltb_spec (image_col m k) (im_wi p)); cbn [andb];
    case_decide; try done; lia.
Qed.

Lemma feature_offset_bound m k :
  in_image m k → 0 <= feature_offset m k < im_hi p * im_wi p * im_channels p.
Proof.
  intros [[? ?] [? ?]]. pose proof (Z.mod_pos_bound k _ Hch). unfold feature_offset.
  assert (0 <= image_row m k * im_wi p + image_col m k <= im_hi p * im_wi p - 1) by nia. nia.
Qed.

Lemma feature_element m k :
  in_image m k → ∃ x, ar_data feature !! Z.to_nat (feature_offset m k) = Some x ∧
    element feature (feature_offset m k) = Ok x.
Proof.
  intros Hin. pose proof (feature_offset_bound m k Hin) as Hb. destruct Hfeature as [_ Hlen].
  fold (ar_shape feature) in Hlen. rewrite Hshape in Hlen. cbn in Hlen.
  destruct (lookup_lt_is_Some_2 (ar_data feature) (Z.to_nat (feature_offset m k))) as [x Hx];
    [unfold ar_data; lia|].
  exists x. split; [done|]. unfold element, get_index. rewrite Hx.
  by replace (0 <=? feature_offset m k) with true by lia.
Qed.

(** The elements that are read can be converted. *)
Context (Hconvert : ∀ x, x ∈ ar_data feature → is_ok (convert x) = true).

Definition cell_value (m k : Z) : option elt :=
  if decide (in_image m k) then
    x ← ar_data feature !! Z.to_nat (feature_offset m k);
    match convert x with Ok v => Some v | Raise _ => None end
  else None.

Lemma cell_value_some m k : in_image m k ↔ is_Some (cell_value m k).
Proof.
  unfold cell_value. case_decide as Hin; [|split; [done|by intros []]]. split; [intros _|done].
  destruct (feature_element m k Hin) as (x & Hx & _). rewrite Hx. cbn.
  pose proof (Hconvert x (list_elem_of_lookup_2 _ _ _ Hx)) as Hc. destruct (convert x); [by eexists|done].
Qed.

(** One cell: it is assigned the converted feature, or left alone in the padding. *)
Lemma im2col_cell_spec width m k acc :
  0 <= m → 0 <= k < width → m * width + k < Z.of_nat (length acc) →
  im2col_cell p d feature width m (m / im_output_w p) (m mod im_output_w p) acc k =
  Ok (match cell_value m k with Some v => <[Z.to_nat (m * width + k) := v]> acc | None => acc end).
Proof.
  intros Hm Hk Hlen. unfold im2col_cell. rewrite im2col_source_spec. ok_bind. unfold cell_value.
  case_decide as Hin; [|done]. destruct (feature_element m k Hin) as (x & Hx & He). rewrite Hx. cbn [mbind option_bind].
  pose proof (Hconvert x (list_elem_of_lookup_2 _ _ _ Hx)) as Hc.
  unfold shape_at. rewrite Hshape. cbn [lookup list_lookup]. ok_bind.
  pose proof (Z.mod_pos_bound k _ Hch). destruct Hin as [[? ?] [? ?]].
  replace (image_row m k * im_wi p + image_col m k <? im_hi p * im_wi p) with true by nia.
  replace (k mod im_channels p <? im_channels p) with true by lia. cbn [andb ensure require]. ok_bind.
  fold (feature_offset m k). unfold scalar_at. rewrite He. ok_bind. fold (convert x).
  destruct (convert x) as [v|]; [|done]. ok_bind. unfold set_index.
  by replace ((0 <=? m * width + k) && (m * width + k <? Z.of_nat (length acc))) with true by nia.
Qed.

Lemma im2col_loops_spec height width init :
  0 <= height → 0 <= width → Z.of_nat (length init) = height * width →
  ∃ data, ofold (im2col_row p d feature width) (py_range height) init = Ok data ∧ length data = length init ∧
    ∀ m k, 0 <= m < height → 0 <= k < width →
      data !! Z.to_nat (m * width + k) =
        match cell_value m k with Some v => Some v | None => init !! Z.to_nat (m * width + k) end.
Proof.
  intros Hh Hwd Hlen.
  set (g := λ acc '(m, k), im2col_cell p d feature width m (m / im_output_w p) (m mod im_output_w p) acc k).
  assert (ofold (im2col_row p d feature width) (py_range height) init = ofold g (coords height width) init) as ->.
  { rewrite <- ofold_nested. apply ofold_ext. intros m c _. unfold im2col_row, int_divmod.
    destruct (Z.eqb_spec (im_output_w p) 0); [lia|]. done. }
  rewrite (ofold_filter (λ rc, in_image rc.1 rc.2)).
  2:{ intros [m k] acc _ Hout. unfold g, im2col_cell. rewrite im2col_source_spec. cbn in Hout.
      by rewrite decide_False. }
  assert (∀ m k, (m, k) ∈ filter (λ rc, in_image rc.1 rc.2) (coords height width) ↔
    in_image m k ∧ 0 <= m < height ∧ 0 <= k < width) as Hin.
  { intros m k. rewrite list_elem_of_filter, elem_of_coords. done. }
  destruct (write_all_spec (λ m k, m * width + k) (λ m k, default (np_zero d) (cell_value m k)) (length init) g
    (filter (λ rc, in_image rc.1 rc.2) (coords height width))) with (acc := init) as (data & Hd & Hl & Hset & Hkeep);
    [| | |done|].
  - intros m k acc (Hi & Hm & Hk)%Hin Hacc. unfold g.
    pose proof (radix_bound m k height width Hm Hk). rewrite im2col_cell_spec by lia.
    apply cell_value_some in Hi as [v ->]. done.
  - intros m k (_ & Hm & Hk)%Hin. rewrite Hlen. by apply radix_bound.
  - intros m k m' k' (_ & Hm & Hk)%Hin (_ & Hm' & Hk')%Hin Heq. by apply (radix_inj m k m' k' width).
  - exists data. split; [done|]. split; [done|]. intros m k Hm Hk.
    destruct (decide (in_image m k)) as [Hi|Hi].
    + rewrite Hset by (by apply Hin). apply cell_value_some in Hi as [v ->]. done.
    + assert (cell_value m k = None) as ->.
      { destruct (cell_value m k) eqn:E; [|done]. destruct Hi. apply cell_value_some. by rewrite E. }
      apply Hkeep. intros m' k' (Hi' & Hm' & Hk')%Hin Heq.
      assert (m' = m ∧ k' = k) as [-> ->]; [|done]. apply (radix_inj m' k' m k width); [done|done|].
      apply Z2Nat.inj; [nia|nia|done].
Qed.
End im2col.

(** ** Properties *)

(** [_im2col] computes the unfolded image: for a feature map of [hi * wi] rows and
    [channels] columns whose elements convert to the tile's type, the two nested loops finish
    without an index error and leave a tile of unchanged size in which element [(m, k)] is the
    converted feature at row [image_row * wi + image_col] and column [k mod channels] when the
    filter point lies in the image, and keeps its initial value (the padding) otherwise. *)
Theorem im2col_tile_exact `{NP : Numpy} p d feature height width init :
  0 < im_output_w p → 0 < im_channels p → 0 < im_kw p →
  ar_shape feature = [im_hi p * im_wi p; im_channels p] → ar_wf feature →
  (∀ x, x ∈ ar_data feature → is_ok (convert d feature x) = true) →
  0 <= height → 0 <= width → Z.of_nat (length init) = height * width →
  ∃ data, ofold (im2col_row p d feature width) (py_range height) init = Ok data ∧ length data = length init ∧
    ∀ m k, 0 <= m < height → 0 <= k < width →
      (in_image p m k →
         ∃ x v, ar_data feature !! Z.to_nat (feature_offset p m k) = Some x ∧ convert d feature x = Ok v ∧
           data !! Z.to_nat (m * width + k) = Some v) ∧
      (¬ in_image p m k → data !! Z.to_nat (m * width + k) = init !! Z.to_nat (m * width + k)).
Proof.
  intros Hw Hch Hkw Hshape Hwf Hconv Hh Hwd Hlen.
  destruct (im2col_loops_spec p d feature Hw Hch Hkw Hshape Hwf Hconv height width init Hh Hwd Hlen)
    as (data & Hd & Hl & Hv).
  exists data. split; [done|]. split; [done|]. intros m k Hm Hk. rewrite (Hv m k Hm Hk). unfold cell_value.
  case_decide as Hi; (split; [|done]); [|done]. intros _.
  destruct (feature_element p feature Hch Hshape Hwf m k Hi) as (x & Hx & _). rewrite Hx. cbn.
  pose proof (Hconv x (list_elem_of_lookup_2 _ _ _ Hx)) as Hc.
  destruct (convert d feature x) as [v|] eqn:Ev; [|done]. by exists x, v.
Qed.

(** A 2x2 image under a 2x2 filter with one row and column of padding before it. *)
Definition small_im2col : im2col_params := MkIm2col 2 2 2 1 1 1 1 1 1 3 1.
Definition small_feature : typed_array (@dtype IntNumpy) (@elt IntNumpy) :=
  make_array (DInt true 2) [4; 1] [1; 2; 3; 4].

Lemma im2col_tile_exact_witness :
  ∃ data, ofold (im2col_row small_im2col (DInt true 2) small_feature 4) (py_range 9) (replicate 36 0) = Ok data ∧
    data !! 19%nat = Some 4 ∧ data !! 0%nat = Some 0.
Proof.
  destruct (im2col_tile_exact (NP := IntNumpy) small_im2col (DInt true 2) small_feature 9 4 (replicate 36 0)
    eq_refl eq_refl eq_refl eq_refl) as (data & Hd & _ & Hv).
  - split; [repeat constructor; lia|reflexivity].
  - intros x Hx. repeat (apply elem_of_cons in Hx as [->|Hx]; [vm_compute; reflexivity|]). by inversion Hx.
  - lia.
  - lia.
  - reflexivity.
  - exists data. split; [exact Hd|]. split.
    + destruct (proj1 (Hv 4 3 ltac:(lia) ltac:(lia)) ltac:(vm_compute; repeat split; discriminate))
        as (x & v & Hx & Hc & Hdata).
      etransitivity; [exact Hdata|]. vm_compute in Hx. injection Hx as <-. vm_compute in Hc. by injection Hc as <-.
    + etransitivity; [refine (proj2 (Hv 0 0 ltac:(lia) ltac:(lia)) _)|reflexivity].
      vm_compute. intros [[H _] _]. by apply H.
Defined.
