(* ===== verification/ExecCommute.v ===== *)
(** The values a task computes depend only on the bytes of the buffers it names, so tasks that do
    not share written buffers commute, and the numeric result of a program does not depend on
    which of the orders that respect its dependencies the executor follows. *)

From S2P Require Import Prelude PyDict PySort PyStr Errors Values Layout Program Trace Config Hazard.
From S2P Require Import Intervals MemoryView Memory MemoryProofs PyFloat PyNum Numpy.
From S2P Require Import ExecEnv ExecOps ExecKernels ExecGather Executor ExecFrame.
Local Open Scope string_scope.
Local Open Scope Z_scope.
Local Open Scope list_scope.

(** ** Agreement on bytes *)

(** The byte [z] of space [k] has the same value and poison in both states. *)
Definition same_byte (s1 s2 : MemoryRuntime) (k : SpaceKey) (z : Z) : Prop :=
  as_data (get_space s1 k) !! Z.to_nat z = as_data (get_space s2 k) !! Z.to_nat z ∧
  as_initialized (get_space s1 k) !! Z.to_nat z = as_initialized (get_space s2 k) !! Z.to_nat z.

Lemma same_byte_refl s k z : same_byte s s k z.
Proof. done. Qed.
Lemma same_byte_sym s1 s2 k z : same_byte s1 s2 k z → same_byte s2 s1 k z.
Proof. by intros []. Qed.
Lemma same_byte_trans s1 s2 s3 k z : same_byte s1 s2 k z → same_byte s2 s3 k z → same_byte s1 s3 k z.
Proof. intros [] []. split; congruence. Qed.

Lemma stable_sym s s' : stable s s' → stable s' s.
Proof. intros []. split; congruence. Qed.

(** Byte [z] of space [k] belongs to the allocation of one of the regions. *)
Definition in_regions (sim : Simulator) (core : Z) (N : list BufferRegion) (s : MemoryRuntime)
    (k : SpaceKey) (z : Z) : Prop :=
  ∃ region a, region ∈ N ∧ allocation_of sim s region core = Ok a ∧ al_space a = k ∧ al_address a <= z < al_end a.

Lemma in_regions_stable sim core N s s' k z :
  stable s s' → in_regions sim core N s' k z ↔ in_regions sim core N s k z.
Proof. intros H. unfold in_regions. by setoid_rewrite (allocation_stable sim s s' _ core H). Qed.

Lemma filter_ext_in {A} (P Q : A → Prop) `{!∀ x, Decision (P x), !∀ x, Decision (Q x)} (l : list A) :
  (∀ x, x ∈ l → P x ↔ Q x) → filter P l = filter Q l.
Proof.
  induction l as [|x l IH]; intros Heq; [done|]. rewrite !filter_cons, IH by (intros; apply Heq; by right).
  pose proof (Heq x ltac:(by left)). by repeat case_decide; try tauto.
Qed.

Lemma poisoned_ext (i1 i2 : list bool) r :
  (∀ z, covers r z → i1 !! Z.to_nat z = i2 !! Z.to_nat z) → poisoned i1 r = poisoned i2 r.
Proof.
  intros H. apply filter_ext_in. intros z Hz%elem_of_seqZ. by rewrite H by (unfold covers; lia).
Qed.

Lemma flat_map_ext_in {A B} (f g : A → list B) l : (∀ a, In a l → f a = g a) → flat_map f l = flat_map g l.
Proof.
  intros H. induction l as [|a l IH]; cbn; [done|].
  rewrite (H a) by (by left). f_equal. apply IH. intros x Hx. apply H. by right.
Qed.

Section agree.
Context {NP : Numpy} (sim : Simulator) (core : Z) (N : list BufferRegion).

(** Two well-formed states that may differ only in reports and in bytes outside [N]. *)
Record agree (s1 s2 : MemoryRuntime) : Prop := {
  ag_wf1 : runtime_wf s1;
  ag_wf2 : runtime_wf s2;
  ag_stable : stable s1 s2;
  ag_bytes : ∀ k z, 0 <= z → in_regions sim core N s1 k z → same_byte s1 s2 k z;
}.

(** The program answers the same on agreeing states and keeps them in agreement. *)
Definition respects {A} (m : memM A) : Prop :=
  ∀ s1 s2, agree s1 s2 → (m s1).2 = (m s2).2 ∧ agree (m s1).1 (m s2).1.

Lemma respects_ret {A} (a : A) : respects (mret a).
Proof. by intros s1 s2 H. Qed.
Lemma respects_lift {A} (r : result A) : respects (st_lift r).
Proof. by intros s1 s2 H. Qed.
Lemma respects_bind_post {A B} (m : memM A) (f : A → memM B) (Q : A → Prop) :
  respects m → (∀ s s' a, m s = (s', Ok a) → Q a) → (∀ a, Q a → respects (f a)) → respects (m ≫= f).
Proof.
  intros Hm HQ Hf s1 s2 Ha. unfold mbind, stM_bind. destruct (Hm s1 s2 Ha) as [Hans Hag].
  destruct (m s1) as [s1' [a|e]] eqn:E1, (m s2) as [s2' [a2|e2]] eqn:E2; cbn in *; simplify_eq; [|done].
  apply Hf; [by eapply HQ|done].
Qed.
Lemma respects_bind {A B} (m : memM A) (f : A → memM B) :
  respects m → (∀ a, respects (f a)) → respects (m ≫= f).
Proof. intros Hm Hf. apply (respects_bind_post m f (λ _, True)); auto. Qed.
Lemma respects_iter {A} (f : A → memM unit) l : (∀ a, a ∈ l → respects (f a)) → respects (st_iter f l).
Proof.
  induction l as [|a l IH]; intros Hf; cbn [st_iter]; [apply respects_ret|].
  apply respects_bind; [apply Hf; by left|]. intros _. apply IH. intros x Hx. apply Hf. by right.
Qed.

Lemma agree_reporter s1 s2 r1 r2 :
  mode r1 = mode (rt_reporter s1) → mode r2 = mode (rt_reporter s2) → agree s1 s2 →
  agree (set_reporter r1 s1) (set_reporter r2 s2).
Proof.
  intros H1 H2 [W1 W2 S B]. split.
  - eapply stable_wf; [by apply stable_reporter|done].
  - eapply stable_wf; [by apply stable_reporter|done].
  - eapply stable_trans; [apply stable_sym; by apply stable_reporter|].
    eapply stable_trans; [exact S|by apply stable_reporter].
  - intros k z Hz Hin. apply (B k z Hz).
    by rewrite (in_regions_stable sim core N s1) in Hin by (by apply stable_reporter).
Qed.

Lemma report_answer et d r1 r2 : mode r1 = mode r2 → (report et d r1).2 = (report et d r2).2.
Proof. intros H. unfold report. rewrite H. by repeat case_match. Qed.

Lemma respects_report et d : respects (rt_report et d).
Proof.
  intros s1 s2 Ha. pose proof (report_answer et d (rt_reporter s1) (rt_reporter s2)) as Hr.
  pose proof (report_mode et d (rt_reporter s1)) as M1. pose proof (report_mode et d (rt_reporter s2)) as M2.
  unfold rt_report. destruct (report et d (rt_reporter s1)) as [r1 a1], (report et d (rt_reporter s2)) as [r2 a2].
  cbn in *. split; [apply Hr; symmetry; apply (sb_mode _ _ (ag_stable _ _ Ha))|by apply agree_reporter].
Qed.

(** ** Accesses to ranges of an allocation of [N] *)

Lemma agree_range s1 s2 a r z :
  agree s1 s2 → (∃ region, region ∈ N ∧ allocation_of sim s1 region core = Ok a) →
  0 <= al_address a → al_address a <= r.1 → r.2 <= al_end a → covers r z → same_byte s1 s2 (al_space a) z.
Proof.
  intros Ha (region & Hr & Hal) H0 H1 H2 Hz. unfold covers in Hz. apply (ag_bytes _ _ Ha); [lia|].
  exists region, a. split_and!; try done; lia.
Qed.

Lemma respects_check_ranges a rs s1 s2 :
  agree s1 s2 → (∃ region, region ∈ N ∧ allocation_of sim s1 region core = Ok a) → 0 <= al_address a →
  (∀ r, r ∈ rs → al_address a <= r.1 ∧ r.2 <= al_end a) →
  let m := check_initialized_ranges a rs in
  (m s1).2 = (m s2).2 ∧ agree (m s1).1 (m s2).1 ∧ only_reporter s1 (m s1).1 ∧ only_reporter s2 (m s2).1.
Proof.
  intros Ha Hin H0 Hrs. unfold check_initialized_ranges, mbind, stM_bind, st_get. cbn [fst snd].
  rewrite (flat_map_ext_in (λ r, match poisoned (as_initialized (get_space s1 (al_space a))) r with
    | [] => [] | z :: zs => [(z, default z (last (z :: zs)) + 1)] end)
    (λ r, match poisoned (as_initialized (get_space s2 (al_space a))) r with
    | [] => [] | z :: zs => [(z, default z (last (z :: zs)) + 1)] end) rs).
  2:{ intros r Hr%list_elem_of_In. rewrite (poisoned_ext (as_initialized (get_space s1 (al_space a)))
        (as_initialized (get_space s2 (al_space a))) r); [done|].
      intros z Hz. destruct (Hrs r Hr). by destruct (agree_range s1 s2 a r z Ha Hin H0). }
  destruct (flat_map _ rs) as [|[x y] l]; [split_and!; try done; apply only_reporter_refl|].
  match goal with |- context [rt_report ?e ?d s1] =>
    pose proof (respects_report e d s1 s2 Ha) as [Hans Hag];
    pose proof (rt_report_only e d s1) as O1; pose proof (rt_report_only e d s2) as O2;
    destruct (rt_report e d s1) as [s1' [u|]], (rt_report e d s2) as [s2' [u'|]] end; cbn in *; simplify_eq; done.
Qed.

Lemma backed_address s region a :
  runtime_wf s → allocation_of sim s region core = Ok a → 0 <= al_address a ∧ backed s a.
Proof. intros Hwf Ha. pose proof (backed_allocation sim core s region a Hwf Ha) as Hb. split; [apply Hb|done]. Qed.

Lemma respects_memory_read a tg s1 s2 :
  agree s1 s2 → (∃ region, region ∈ N ∧ allocation_of sim s1 region core = Ok a) → target_ok tg →
  (Memory.read a tg s1).2 = (Memory.read a tg s2).2 ∧ agree (Memory.read a tg s1).1 (Memory.read a tg s2).1.
Proof.
  intros Ha Hin Ht. destruct Hin as (region & Hr & Hal).
  destruct (backed_address s1 region a (ag_wf1 _ _ Ha) Hal) as [H0 Hb].
  unfold Memory.read, mbind, stM_bind, st_lift. destruct (resolve_ranges a tg) as [rs|e] eqn:Ers; [|done].
  pose proof (resolve_ranges_within a tg rs Ht Ers) as Hw.
  destruct (respects_check_ranges a rs s1 s2 Ha ltac:(by exists region) H0) as (Hans & Hag & (r1 & E1 & _) & (r2 & E2 & _)).
  { intros r Hin. by destruct (Hw r Hin). }
  destruct (check_initialized_ranges a rs s1) as [s1' ans1], (check_initialized_ranges a rs s2) as [s2' ans2].
  cbn in Hans, Hag, E1, E2. subst ans2 s1' s2'. destruct ans1 as [known|e]; [|done].
  unfold st_get, mret, stM_ret. cbn [fst snd]. split; [|done]. f_equal.
  apply flat_map_ext_in. intros r Hin%list_elem_of_In. destruct (Hw r Hin) as (Hrok & H1 & H2).
  assert (stable s1 s2) as Hst by apply Ha. destruct Hb as [_ Hd _].
  change (get_slice (as_data (get_space s1 (al_space a))) r = get_slice (as_data (get_space s2 (al_space a))) r).
  apply get_slice_ext.
  - unfold within, range_ok in *. lia.
  - unfold within, range_ok in *. rewrite (sb_data _ _ Hst). lia.
  - intros z Hz. by destruct (agree_range s1 s2 a r z Ha ltac:(by exists region) H0 H1 H2 Hz).
Qed.

(** ** Accesses to regions in [N] *)

Lemma framed_allocation s region a :
  in_frame N region → allocation_of sim s region core = Ok a →
  ∃ w, w ∈ N ∧ allocation_of sim s w core = Ok a.
Proof. intros (w & Hw & Hp) Ha. exists w. by rewrite <- (allocation_same_place sim s region w core Hp). Qed.

Lemma resolve_agree s1 s2 region :
  agree s1 s2 → resolve_in sim s2 region core = resolve_in sim s1 region core.
Proof. intros Ha. apply resolve_in_stable, Ha. Qed.

Lemma respects_read_region region : in_frame N region → respects (read_region sim region core).
Proof.
  intros Hin s1 s2 Ha. unfold read_region, resolve, mbind, stM_bind, st_lift.
  destruct (ensure _ _ _) as [u|e]; [|done]. rewrite (resolve_agree s1 s2 region Ha).
  destruct (resolve_in sim s1 region core) as [[a v]|e] eqn:Er; [|done]. cbn [fst snd].
  apply resolve_in_allocation in Er.
  destruct (respects_memory_read a (TView v) s1 s2 Ha (framed_allocation s1 region a Hin Er) I) as [Hans Hag].
  destruct (Memory.read a (TView v) s1) as [s1' [p|e]], (Memory.read a (TView v) s2) as [s2' [p'|e']];
    cbn in *; simplify_eq; done.
Qed.

(** The two states after writing the same bytes at the same place. *)
Lemma agree_set_space s1 s2 k sp1 sp2 :
  agree s1 s2 → runtime_wf (set_space k sp1 s1) → runtime_wf (set_space k sp2 s2) →
  length (as_data sp1) = length (as_data (get_space s1 k)) →
  length (as_initialized sp1) = length (as_initialized (get_space s1 k)) →
  length (as_data sp2) = length (as_data (get_space s2 k)) →
  length (as_initialized sp2) = length (as_initialized (get_space s2 k)) →
  (∀ z, 0 <= z → same_byte s1 s2 k z →
     as_data sp1 !! Z.to_nat z = as_data sp2 !! Z.to_nat z ∧
     as_initialized sp1 !! Z.to_nat z = as_initialized sp2 !! Z.to_nat z) →
  agree (set_space k sp1 s1) (set_space k sp2 s2).
Proof.
  intros Ha W1 W2 D1 I1 D2 I2 Hb. pose proof (ag_stable _ _ Ha) as S. split; [done|done| |].
  - destruct S. split; try done; intros k'; rewrite !get_set_space; case_decide; subst; congruence.
  - intros k' z Hz Hin. rewrite (in_regions_stable sim core N s1) in Hin.
    + pose proof (ag_bytes _ _ Ha k' z Hz Hin) as Hs. unfold same_byte. rewrite !get_set_space.
      case_decide as Hk; [subst k'; by apply Hb|done].
    + split; try done; intros k0; rewrite !get_set_space; by case_decide; subst.
Qed.

Lemma write_ranges_agree rs sp1 sp2 payload :
  space_within sp1 rs → space_within sp2 rs → length (as_data sp1) = length (as_data sp2) →
  Z.of_nat (length payload) = total_size rs →
  ∀ z, 0 <= z → as_data sp1 !! Z.to_nat z = as_data sp2 !! Z.to_nat z →
    as_initialized sp1 !! Z.to_nat z = as_initialized sp2 !! Z.to_nat z →
    as_data (write_ranges sp1 rs payload) !! Z.to_nat z = as_data (write_ranges sp2 rs payload) !! Z.to_nat z ∧
    as_initialized (write_ranges sp1 rs payload) !! Z.to_nat z =
      as_initialized (write_ranges sp2 rs payload) !! Z.to_nat z.
Proof.
  revert sp1 sp2 payload; induction rs as [|r rs IH]; intros sp1 sp2 payload W1 W2 Hl Hp z Hz Hd Hi; [done|].
  cbn [write_ranges]. destruct W1 as [L1 W1], W2 as [L2 W2].
  pose proof (W1 r ltac:(by left)) as R1. pose proof (W2 r ltac:(by left)) as R2.
  assert (0 <= total_size rs) as Hts.
  { apply (total_size_within (as_data sp1)). intros x Hx. apply W1. by right. }
  change (total_size (r :: rs)) with (range_size r + total_size rs) in Hp.
  assert (0 <= range_size r) as Hs by (unfold within, range_size in *; lia).
  set (n := Z.to_nat (range_size r)).
  assert (Z.of_nat (length (take n payload)) = range_size r) as Ht by (rewrite length_take; unfold n; lia).
  assert (Z.of_nat (length (replicate n true)) = range_size r) as Hr by (rewrite length_replicate; unfold n; lia).
  assert (within (as_initialized sp1) r) as R1' by (unfold within in *; by rewrite L1).
  assert (within (as_initialized sp2) r) as R2' by (unfold within in *; by rewrite L2).
  apply IH.
  - split; cbn [as_data as_initialized]; [by rewrite !length_set_slice|].
    intros x Hx. pose proof (W1 x ltac:(by right)). unfold within in *. by rewrite length_set_slice.
  - split; cbn [as_data as_initialized]; [by rewrite !length_set_slice|].
    intros x Hx. pose proof (W2 x ltac:(by right)). unfold within in *. by rewrite length_set_slice.
  - cbn [as_data]. by rewrite !length_set_slice.
  - rewrite length_drop. unfold n. lia.
  - done.
  - cbn [as_data]. rewrite !lookup_set_slice by done. by case_decide.
  - cbn [as_initialized]. rewrite !lookup_set_slice by done. by case_decide.
Qed.

Lemma respects_write_region region values : in_frame N region → respects (write_region sim region values core).
Proof.
  intros Hin s1 s2 Ha.
  pose proof (confined_write_region sim core N region values Hin s1 (ag_wf1 _ _ Ha)) as C1.
  pose proof (confined_write_region sim core N region values Hin s2 (ag_wf2 _ _ Ha)) as C2.
  apply untouched_wf in C1; [|apply (ag_wf1 _ _ Ha)]. apply untouched_wf in C2; [|apply (ag_wf2 _ _ Ha)].
  revert C1 C2. unfold write_region, resolve, mbind, stM_bind, st_lift. rewrite (resolve_agree s1 s2 region Ha).
  destruct (resolve_in sim s1 region core) as [[a v]|e] eqn:Er; [|done].
  destruct (numpy_dtype _) as [d|]; [|done]. destruct (np_asarray values (Some d)) as [arr|]; [|done].
  destruct (ensure _ _ _); [|done]. cbn [fst snd]. apply resolve_in_allocation in Er.
  unfold Memory.write, mbind, stM_bind, st_lift, st_get, st_put.
  destruct (resolve_ranges a (TView v)) as [rs|] eqn:Ers; [|done].
  destruct (ensure (_ =? _) _ _) as [[]|] eqn:El; [|done]. cbn [fst snd]. intros C1 C2. split; [done|].
  apply ensure_ok, Z.eqb_eq in El.
  pose proof (backed_address s1 region a (ag_wf1 _ _ Ha) Er) as [_ B1].
  assert (allocation_of sim s2 region core = Ok a) as Er2 by (by rewrite (allocation_stable sim s1 s2) by apply Ha).
  pose proof (backed_address s2 region a (ag_wf2 _ _ Ha) Er2) as [_ B2].
  pose proof (backed_within s1 a (TView v) rs B1 I Ers) as W1.
  pose proof (backed_within s2 a (TView v) rs B2 I Ers) as W2.
  destruct (write_ranges_outside rs _ _ W1 El) as (D1 & I1 & _).
  destruct (write_ranges_outside rs _ _ W2 El) as (D2 & I2 & _).
  apply agree_set_space; try done. intros z Hz [Hd Hi].
  apply write_ranges_agree; try done. symmetry. apply (sb_data _ _ (ag_stable _ _ Ha)).
Qed.

Lemma respects_check region :
  in_frame N region → respects (av ← resolve sim region core; check_initialized av.1 (TView av.2)).
Proof.
  intros Hin s1 s2 Ha. unfold resolve, check_initialized, mbind, stM_bind, st_lift.
  rewrite (resolve_agree s1 s2 region Ha).
  destruct (resolve_in sim s1 region core) as [[a v]|e] eqn:Er; [|done]. cbn [fst snd].
  apply resolve_in_allocation in Er. destruct (resolve_physical_ranges a (TView v)) as [rs|] eqn:Ers; [|done].
  destruct (backed_address s1 region a (ag_wf1 _ _ Ha) Er) as [H0 _].
  destruct (respects_check_ranges a rs s1 s2 Ha (framed_allocation s1 region a Hin Er) H0) as (Hans & Hag & _); [|done].
  intros r Hr. by destruct (resolve_physical_within a (TView v) rs I Ers r Hr) as (_ & ? & ?).
Qed.

Lemma respects_mark region flag :
  in_frame N region → respects (av ← resolve sim region core; mark_initialized av.1 (TView av.2) flag).
Proof.
  intros Hin s1 s2 Ha.
  pose proof (confined_mark sim core N region flag Hin s1 (ag_wf1 _ _ Ha)) as C1.
  pose proof (confined_mark sim core N region flag Hin s2 (ag_wf2 _ _ Ha)) as C2.
  apply untouched_wf in C1; [|apply (ag_wf1 _ _ Ha)]. apply untouched_wf in C2; [|apply (ag_wf2 _ _ Ha)].
  revert C1 C2. unfold resolve, mbind, stM_bind. rewrite (resolve_agree s1 s2 region Ha).
  destruct (resolve_in sim s1 region core) as [[a v]|e] eqn:Er; [|done]. cbn [fst snd].
  apply resolve_in_allocation in Er.
  pose proof (mark_initialized_ok a (TView v) flag s1) as M1.
  pose proof (mark_initialized_ok a (TView v) flag s2) as M2.
  destruct (resolve_physical_ranges a (TView v)) as [rs|] eqn:Ers; rewrite M1, M2; [|done].
  cbn [fst snd]. intros C1 C2. split; [done|].
  pose proof (backed_address s1 region a (ag_wf1 _ _ Ha) Er) as [_ B1].
  assert (allocation_of sim s2 region core = Ok a) as Er2 by (by rewrite (allocation_stable sim s1 s2) by apply Ha).
  pose proof (backed_address s2 region a (ag_wf2 _ _ Ha) Er2) as [_ B2].
  destruct (marked_spec flag rs _ (physical_within_space s1 a (TView v) rs B1 I Ers)) as [L1 Z1].
  destruct (marked_spec flag rs _ (physical_within_space s2 a (TView v) rs B2 I Ers)) as [L2 Z2].
  apply agree_set_space; try done. intros z Hz [Hd Hi]. cbn [as_data as_initialized].
  split; [done|]. rewrite (Z1 z Hz), (Z2 z Hz). by case_decide.
Qed.
End agree.

(** ** Tasks *)

Lemma in_frame_mono W W' region : W ⊆ W' → in_frame W region → in_frame W' region.
Proof. intros Hs (w & Hw & Hp). exists w. split; [by apply Hs|done]. Qed.

Lemma writable_readable t : writable t ⊆ readable t.
Proof.
  unfold writable, readable. rewrite flat_map_app. intros r Hr. apply elem_of_app. by right.
Qed.

#[export] Instance respects_logic {NP : Numpy} sim t :
  TaskLogic sim t (λ A m, respects sim (core_id t) (readable t) m).
Proof.
  split.
  - intros A a. apply respects_ret.
  - intros A r. apply respects_lift.
  - intros A B m f Q. apply respects_bind_post.
  - intros region Hin. by apply respects_read_region.
  - intros region values Hin. apply respects_write_region. eapply in_frame_mono; [apply writable_readable|done].
Qed.

(** A task that neither rebinds a name nor evaluates a scalar expression. *)
Definition plain (t : Task) : Prop := mem_str (lower (operation t)) ["reinterpretcast"; "buffer_store"] = false.

Section task.
Context {NP : Numpy} (node_of : pyval → tir) (sim : Simulator) (t : Task).
Let ok {A} (m : memM A) : Prop := respects sim (core_id t) (readable t) m.

Lemma metadata_readable keys r :
  keys ⊆ READ_REGION_KEYS ++ WRITE_REGION_KEYS → r ∈ metadata_regions t keys → in_frame (readable t) r.
Proof.
  intros Hk Hr. apply list_elem_of_In, in_flat_map in Hr as (key & Hkey & Hr). apply list_elem_of_In in Hkey, Hr.
  apply (named_key _ t key); [by apply Hk|]. unfold regions_under in Hr. unfold regions_named.
  destruct (_ || _); [set_solver|]. by destruct (task_meta t key).
Qed.

Lemma check_sources_respects regions b :
  (∀ r, r ∈ regions → in_frame (readable t) r) → ok (check_sources sim (core_id t) regions b).
Proof.
  unfold ok. revert b; induction regions as [|r rs IH]; intros b Hin; cbn [check_sources]; [apply respects_ret|].
  intros s1 s2 Ha. pose proof (respects_check sim (core_id t) (readable t) r (Hin r ltac:(by left)) s1 s2 Ha) as [Hans Hag].
  revert Hans Hag. unfold resolve, mbind, stM_bind.
  rewrite (resolve_agree sim (core_id t) (readable t) s1 s2 r Ha).
  destruct (resolve_in sim s1 r (core_id t)) as [[a v]|e]; [|done]. cbn [fst snd].
  destruct (check_initialized a (TView v) s1) as [s1' [k|e]], (check_initialized a (TView v) s2) as [s2' [k'|e']];
    cbn [fst snd]; intros Hans Hag; simplify_eq; [|done].
  apply (IH (b && k')); [|done]. intros x Hx. apply Hin. by right.
Qed.

Lemma atomic_reads_in reads writes r :
  r ∈ atomic_reads reads writes → r ∈ reads ∨ ∃ w, w ∈ writes ∧ r = w.2.
Proof.
  unfold atomic_reads. revert reads; induction writes as [|w ws IH]; intros reads; cbn [foldl]; [by left|].
  intros H. apply IH in H as [H|(w' & Hw & ->)]; [|right; exists w'; split; [by right|done]].
  destruct (_ || _); [by left|]. apply elem_of_app in H as [H| ->%list_elem_of_singleton]; [by left|].
  right. exists w. split; [by left|done].
Qed.

Lemma execute_sync_only_respects operation :
  mem_str operation ["reinterpretcast"] = false → ok (execute_sync_only sim t operation).
Proof.
  unfold ok. intros Hre. unfold execute_sync_only. rewrite Hre.
  destruct (mem_str operation SYNCHRONIZATION_OPERATIONS); [apply respects_ret|].
  destruct (negb _); [apply (respects_lift sim (core_id t) (readable t) (Raise _))|].
  assert (∀ w, w ∈ written_regions t → in_frame (readable t) w.2) as Hw.
  { intros w Hw. eapply in_frame_mono; [apply writable_readable|by apply written_writable]. }
  assert (∀ r, r ∈ metadata_regions t READ_REGION_KEYS → in_frame (readable t) r) as Hr.
  { intros r Hr. eapply metadata_readable; [|done]. intros x Hx. apply elem_of_app. by left. }
  apply respects_bind.
  - apply check_sources_respects. intros r. destruct (startswith _ _); [|apply Hr].
    intros [H|(w & Hin & ->)]%atomic_reads_in; [by apply Hr|by apply Hw].
  - intros b. apply respects_iter. intros w Hin. unfold mark_written. by apply respects_mark, Hw.
Qed.

Lemma execute_respects : plain t → ok (execute node_of sim t).
Proof.
  intros Hplain. unfold ok, execute. destruct (is_true _); [apply respects_ret|]. cbv zeta.
  unfold plain in Hplain. apply mem_str_false in Hplain.
  replace (mem_str (lower (operation t)) ["buffer_store"]) with false by (symmetry; apply mem_str_false; set_solver).
  assert (mem_str (lower (operation t)) ["reinterpretcast"] = false) as Hre by (apply mem_str_false; set_solver).
  destruct (sync_only _); [by apply execute_sync_only_respects|].
  destruct (handler sim t _) as [h|] eqn:Eh;
    [|apply (respects_lift sim (core_id t) (readable t) (Raise _))].
  exact (handler_ok sim t (λ A m, respects sim (core_id t) (readable t) m) _ h Hre Eh).
Qed.
End task.
