(* ===== verification/OrderIndependence.v ===== *)
(** The numeric result of a program does not depend on the order in which the executor applies
    its tasks, as long as tasks that share a written buffer stay in order: tasks without such a
    conflict commute, and any two orders are connected by exchanging neighbours. *)

From S2P Require Import Prelude PyDict PySort PyStr Errors Values Layout Program Trace Config Hazard.
From S2P Require Import SyncOps SyncReset SyncModel Scheduler Schedule Intervals MemoryView Memory MemoryProofs.
From S2P Require Import Stats Run PyFloat PyNum Numpy ExecOrder ExecEnv ExecOps ExecKernels ExecGather.
From S2P Require Import Progress Executor ExecFrame ExecCommute FunctionalSim NumpyInt ExecClaims FunctionalRun.
From Stdlib Require Import Sorting.Sorted.
From stdpp Require Import sorting.
Local Open Scope string_scope.
Local Open Scope Z_scope.
Local Open Scope list_scope.

(** Two states with the same bytes, poison and allocations. *)
Definition same_memory (s1 s2 : MemoryRuntime) : Prop :=
  stable s1 s2 ∧ ∀ k z, 0 <= z → same_byte s1 s2 k z.

#[export] Instance same_memory_equivalence : Equivalence same_memory.
Proof.
  split.
  - intros s. split; [apply stable_refl|done].
  - intros s1 s2 [H B]. split; [by apply stable_sym|]. intros k z Hz. by apply same_byte_sym, B.
  - intros s1 s2 s3 [H1 B1] [H2 B2]. split; [by eapply stable_trans|].
    intros k z Hz. eapply same_byte_trans; [by apply B1|by apply B2].
Qed.

Definition ok_or {A} (r : result A) : option A := match r with Ok a => Some a | Raise _ => None end.

#[export] Instance in_regions_dec sim core N s k z : Decision (in_regions sim core N s k z).
Proof.
  refine (cast_if (decide (Exists (λ a, al_space a = k ∧ al_address a <= z < al_end a)
    (omap (λ r, ok_or (allocation_of sim s r core)) N)))).
  - abstract (apply Exists_exists in e as (a & Ha & Hk & Hz);
      apply list_elem_of_omap in Ha as (r & Hr & Hal); exists r, a;
      destruct (allocation_of sim s r core); [|done]; injection Hal as ->; done).
  - abstract (intros (r & a & Hr & Hal & Hk & Hz); apply n, Exists_exists; exists a; split; [|done];
      apply list_elem_of_omap; exists r; by rewrite Hal).
Defined.

Section commute.
Context {NP : Numpy} (node_of : pyval → tir) (sim : Simulator).

(** A task on its own lane, as [run] executes it. *)
Definition own (t : Task) : Simulator := on_lane (Some (lane t)) sim.
Definition run1 (t : Task) : memM unit := execute node_of (own t) t.
Definition writes_byte (s : MemoryRuntime) (t : Task) : SpaceKey → Z → Prop :=
  in_regions (own t) (core_id t) (writable t) s.
Definition names_byte (s : MemoryRuntime) (t : Task) : SpaceKey → Z → Prop :=
  in_regions (own t) (core_id t) (readable t) s.

(** The allocations of some regions of a task, and whether two tasks conflict: one of them
    writes an allocation that overlaps one the other names. *)
Definition allocations (s : MemoryRuntime) (t : Task) (regions : list BufferRegion) : list MemoryAllocation :=
  omap (λ r, ok_or (allocation_of (own t) s r (core_id t))) regions.
Definition overlapping (a b : MemoryAllocation) : bool :=
  bool_decide (al_space a = al_space b) &&
  (Z.max (al_address a) (al_address b) <? Z.min (al_end a) (al_end b)).
Definition clobbers (s : MemoryRuntime) (t u : Task) : bool :=
  existsb (λ a, existsb (overlapping a) (allocations s u (readable u))) (allocations s t (writable t)).
Definition conflicting (s : MemoryRuntime) (t u : Task) : bool := clobbers s t u || clobbers s u t.

Lemma elem_of_allocations s t N a :
  a ∈ allocations s t N ↔ ∃ r, r ∈ N ∧ allocation_of (own t) s r (core_id t) = Ok a.
Proof.
  unfold allocations. rewrite list_elem_of_omap. split; intros (r & Hr & Ha); exists r; (split; [done|]).
  - destruct (allocation_of _ s r _); [by injection Ha as ->|done].
  - by rewrite Ha.
Qed.

Lemma not_clobbers s t u k z : clobbers s t u = false → writes_byte s t k z → ¬ names_byte s u k z.
Proof.
  intros Hc (r & a & Hr & Ha & <- & Hz) (r' & b & Hr' & Hb & Hk & Hz').
  apply not_true_iff_false in Hc. apply Hc, existsb_exists. exists a.
  split; [apply list_elem_of_In, elem_of_allocations; eauto|].
  apply existsb_exists. exists b. split; [apply list_elem_of_In, elem_of_allocations; eauto|].
  unfold overlapping. rewrite bool_decide_eq_true_2 by done. cbn [andb]. lia.
Qed.

Lemma conflicting_sym s t u : conflicting s t u = conflicting s u t.
Proof. unfold conflicting. apply orb_comm. Qed.

Lemma conflicting_stable s s' t u : stable s s' → conflicting s' t u = conflicting s t u.
Proof.
  intros H. assert (∀ t N, allocations s' t N = allocations s t N) as Ha.
  { intros t0 N. unfold allocations. induction N as [|r N IH]; [done|]. cbn.
    rewrite (allocation_stable (own t0) s s') by done. by rewrite IH. }
  unfold conflicting, clobbers. by rewrite !Ha.
Qed.

Lemma writes_names s t k z : writes_byte s t k z → names_byte s t k z.
Proof. intros (r & a & Hr & H). exists r, a. split; [by apply writable_readable|done]. Qed.

Lemma writes_stable s s' t k z : stable s s' → writes_byte s' t k z ↔ writes_byte s t k z.
Proof. apply in_regions_stable. Qed.
Lemma names_stable s s' t k z : stable s s' → names_byte s' t k z ↔ names_byte s t k z.
Proof. apply in_regions_stable. Qed.

(** ** One task *)

Lemma run1_untouched t s s' ans :
  plain t → runtime_wf s → run1 t s = (s', ans) →
  stable s s' ∧ ∀ k z, 0 <= z → ¬ writes_byte s t k z → same_byte s' s k z.
Proof.
  intros Hp Hwf H. assert (mem_str (lower (operation t)) ["reinterpretcast"] = false) as Hre.
  { apply mem_str_false. unfold plain in Hp. apply mem_str_false in Hp. set_solver. }
  pose proof (execute_confined node_of (own t) t Hre s Hwf) as Hu. fold (run1 t) in Hu. rewrite H in Hu.
  cbn [fst] in Hu. split; [apply Hu|]. intros k z Hz Hn.
  apply (ut_bytes _ _ _ _ _ Hu k z Hz). intros r a Hr Ha Hk Hin. apply Hn. by exists r, a.
Qed.

Lemma run1_agree t s1 s2 s1' :
  plain t → runtime_wf s1 → runtime_wf s2 → stable s1 s2 →
  (∀ k z, 0 <= z → names_byte s1 t k z → same_byte s1 s2 k z) →
  run1 t s1 = (s1', Ok tt) →
  ∃ s2', run1 t s2 = (s2', Ok tt) ∧ stable s1' s2' ∧
    ∀ k z, 0 <= z → names_byte s1 t k z → same_byte s1' s2' k z.
Proof.
  intros Hp W1 W2 Hst Hb H.
  destruct (execute_respects node_of (own t) t Hp s1 s2) as [Hans Hag]; [by split|].
  fold (run1 t) in Hans, Hag. rewrite H in Hans, Hag. destruct (run1 t s2) as [s2' ans2].
  cbn [fst snd] in *. subst ans2. exists s2'. split; [done|]. split; [apply Hag|].
  intros k z Hz Hn. apply (ag_bytes _ _ _ _ _ Hag k z Hz).
  rewrite (in_regions_stable _ _ _ s1 s1'); [done|]. by eapply run1_untouched.
Qed.

(** Equal memories lead to equal memories. *)
Lemma run1_same t s1 s2 s1' :
  plain t → runtime_wf s1 → same_memory s1 s2 → run1 t s1 = (s1', Ok tt) →
  ∃ s2', run1 t s2 = (s2', Ok tt) ∧ same_memory s1' s2'.
Proof.
  intros Hp W1 [Hst Hb] H. pose proof (stable_wf _ _ Hst W1) as W2.
  destruct (run1_agree t s1 s2 s1' Hp W1 W2 Hst ltac:(auto) H) as (s2' & H2 & Hst' & Hn).
  exists s2'. split; [done|]. split; [done|]. intros k z Hz.
  destruct (decide (names_byte s1 t k z)) as [Hin|Hout]; [by apply Hn|].
  destruct (run1_untouched t s1 s1' _ Hp W1 H) as [_ U1]. destruct (run1_untouched t s2 s2' _ Hp W2 H2) as [_ U2].
  assert (¬ writes_byte s1 t k z) as Hw by (intros Hw; by apply Hout, writes_names).
  eapply same_byte_trans; [by apply U1|]. eapply same_byte_trans; [by apply Hb|].
  apply same_byte_sym, U2; [done|]. intros Hw2. apply Hw. by apply (writes_stable s1 s2).
Qed.

(** ** Two tasks *)

Lemma run1_swap t u s s1 s12 :
  plain t → plain u → runtime_wf s → conflicting s t u = false →
  run1 t s = (s1, Ok tt) → run1 u s1 = (s12, Ok tt) →
  ∃ s2 s21, run1 u s = (s2, Ok tt) ∧ run1 t s2 = (s21, Ok tt) ∧ same_memory s12 s21.
Proof.
  intros Pt Pu W [Ctu Cut]%orb_false_iff Ht Hu.
  destruct (run1_untouched t s s1 _ Pt W Ht) as [St Ut]. pose proof (stable_wf _ _ St W) as W1.
  destruct (run1_untouched u s1 s12 _ Pu W1 Hu) as [Su Uu].
  assert (∀ k z, names_byte s1 u k z ↔ names_byte s u k z) as Nu by (intros; by apply names_stable).
  assert (∀ k z, writes_byte s1 u k z ↔ writes_byte s u k z) as Wu by (intros; by apply writes_stable).
  destruct (run1_agree u s1 s s12 Pu W1 W (stable_sym _ _ St)) as (s2 & H2 & S2 & B2); [|done|].
  { intros k z Hz Hn%Nu. apply Ut; [done|]. intros Hw. by apply (not_clobbers s t u k z Ctu). }
  destruct (run1_untouched u s s2 _ Pu W H2) as [Su2 Uu2]. pose proof (stable_wf _ _ Su2 W) as W2.
  destruct (run1_agree t s s2 s1 Pt W W2 Su2) as (s21 & H21 & S21 & B21); [|done|].
  { intros k z Hz Hn. apply same_byte_sym, Uu2; [done|]. intros Hw. by apply (not_clobbers s u t k z Cut). }
  destruct (run1_untouched t s2 s21 _ Pt W2 H21) as [_ Ut2].
  exists s2, s21. split; [done|]. split; [done|]. split.
  { eapply stable_trans; [exact (stable_sym _ _ Su)|exact S21]. }
  intros k z Hz. destruct (decide (writes_byte s t k z)) as [Wt|Wt]; [|destruct (decide (writes_byte s u k z)) as [Wu'|Wu']].
  - eapply same_byte_trans; [|apply B21; [done|by apply writes_names]].
    apply Uu; [done|]. intros Hw%Wu. by apply (not_clobbers s t u k z Ctu), writes_names.
  - eapply same_byte_trans; [apply B2; [done|by apply Nu, writes_names]|].
    apply same_byte_sym, Ut2; [done|]. intros Hw. apply Wt. by apply (writes_stable s s2).
  - eapply same_byte_trans; [apply Uu; [done|by intros ?%Wu]|].
    eapply same_byte_trans; [by apply Ut|]. apply same_byte_sym.
    eapply same_byte_trans; [apply Ut2; [done|]|by apply Uu2].
    intros Hw. apply Wt. by apply (writes_stable s s2).
Qed.
(** ** Whole orders *)

Lemma run_all_cons t l s s' :
  execute_all node_of sim (t :: l) s = (s', Ok tt) ↔
  ∃ s1, run1 t s = (s1, Ok tt) ∧ execute_all node_of sim l s1 = (s', Ok tt).
Proof.
  unfold execute_all. cbn [st_iter]. unfold mbind, stM_bind. fold (own t). fold (run1 t).
  destruct (run1 t s) as [s1 [[]|e]]; [|by split; [|intros (? & ? & _)]].
  split; [intros H; by exists s1|by intros (s2 & [= <-] & H)].
Qed.

Lemma run_all_same l s1 s2 s1' :
  Forall plain l → runtime_wf s1 → same_memory s1 s2 → execute_all node_of sim l s1 = (s1', Ok tt) →
  ∃ s2', execute_all node_of sim l s2 = (s2', Ok tt) ∧ same_memory s1' s2'.
Proof.
  intros Hp. revert s1 s2; induction Hp as [|t l Hp _ IH]; intros s1 s2 W Hs H.
  - injection H as <-. by exists s2.
  - apply run_all_cons in H as (m1 & H1 & H).
    destruct (run1_same t s1 s2 m1 Hp W Hs H1) as (m2 & H2 & Hs').
    destruct (IH m1 m2) as (s2' & H' & Hs''); [|done|done|].
    { eapply stable_wf; [by eapply run1_untouched|done]. }
    exists s2'. split; [|done]. apply run_all_cons. eauto.
Qed.

(** A task may be postponed past tasks it does not conflict with. *)
Lemma run_all_postpone t pre suf s s' :
  plain t → Forall plain (pre ++ suf) → runtime_wf s → (∀ u, u ∈ pre → conflicting s t u = false) →
  execute_all node_of sim (t :: pre ++ suf) s = (s', Ok tt) →
  ∃ s'', execute_all node_of sim (pre ++ t :: suf) s = (s'', Ok tt) ∧ same_memory s' s''.
Proof.
  intros Pt. revert s s'; induction pre as [|u pre IH]; intros s s' Hp W Hc H; [by exists s'|].
  cbn [app] in *. apply Forall_cons in Hp as [Pu Hp].
  apply run_all_cons in H as (s1 & Ht & H). apply run_all_cons in H as (s12 & Hu & H).
  destruct (run1_swap t u s s1 s12) as (s2 & s21 & H2 & H21 & Hs); try done; [apply Hc; by left|].
  pose proof (run1_untouched t s s1 _ Pt W Ht) as [S1 _]. pose proof (stable_wf _ _ S1 W) as W1.
  pose proof (run1_untouched u s1 s12 _ Pu W1 Hu) as [S12 _]. pose proof (stable_wf _ _ S12 W1) as W12.
  pose proof (run1_untouched u s s2 _ Pu W H2) as [S2 _].
  destruct (run_all_same _ _ _ _ Hp W12 Hs H) as (m & Hm & Hsm).
  destruct (IH s2 m Hp) as (s'' & H'' & Hs'').
  - by eapply stable_wf.
  - intros v Hv. rewrite (conflicting_stable s s2) by done. apply Hc. by right.
  - apply run_all_cons. eauto.
  - exists s''. split; [apply run_all_cons; eauto|]. by etrans.
Qed.

(** Two orders of the same tasks that both respect [R], which orders all conflicting tasks. *)
Lemma orders_agree (R : Task → Task → Prop) l1 l2 s s' :
  l1 ≡ₚ l2 → NoDup l1 → Forall plain l1 → runtime_wf s →
  StronglySorted (λ x y, ¬ R x y) l1 → StronglySorted (λ x y, ¬ R x y) l2 →
  (∀ t u, t ∈ l1 → u ∈ l1 → t ≠ u → conflicting s t u = true → R t u ∨ R u t) →
  execute_all node_of sim l1 s = (s', Ok tt) →
  ∃ s'', execute_all node_of sim l2 s = (s'', Ok tt) ∧ same_memory s' s''.
Proof.
  revert l2 s s'; induction l1 as [|t l1 IH]; intros l2 s s' Hperm Hnd Hp W S1 S2 HR H.
  { apply Permutation_nil in Hperm as ->. by exists s'. }
  assert (t ∈ l2) as (pre & suf & ->)%list_elem_of_split by (rewrite <- Hperm; by left).
  apply StronglySorted_cons in S1 as [Ht S1]. apply StronglySorted_app in S2 as (Hx & Sp & Ss).
  apply StronglySorted_cons in Ss as [_ Ss]. rewrite Forall_forall in Ht.
  apply Forall_cons in Hp as [Pt Hp]. apply NoDup_cons in Hnd as [Hni Hnd].
  rewrite <- Permutation_middle in Hperm. apply Permutation_cons_inv in Hperm.
  assert (∀ u, u ∈ pre → u ∈ l1) as Hin by (intros u Hu; rewrite Hperm; set_solver).
  assert (Forall plain (pre ++ suf)) as Hp' by (by rewrite <- Hperm).
  apply run_all_cons in H as (s1 & Hr & H). destruct (run1_untouched t s s1 _ Pt W Hr) as [Hst _].
  destruct (IH (pre ++ suf) s1 s') as (m & Hm & Hs); try done.
  - by eapply stable_wf.
  - apply StronglySorted_app. split; [|done]. intros x y Hx' Hy. apply Hx; [done|by right].
  - intros x y Hx' Hy Hne. rewrite (conflicting_stable s s1) by done. apply HR; [by right|by right|done].
  - destruct (run_all_postpone t pre suf s m) as (s'' & H'' & Hs''); [done|done|done| | |].
    + intros u Hu. apply not_true_iff_false. intros Hc.
      destruct (HR t u) as [?|?]; [by left|right; auto|intros ->; auto|done| |].
      * by apply (Ht u); auto.
      * by eapply (Hx u t); [done|left|].
    + apply run_all_cons. eauto.
    + exists s''. split; [done|]. by etrans.
Qed.
End commute.

(** ** Orders of schedules *)

(** [t] needs the results of [u], directly or through other tasks. *)
Definition depends_on (p : KernelProgram) (t u : Task) : Prop := tc (task_edge (tasks p)) (task_id t) (task_id u).

Lemma StronglySorted_splits {A} (R : A → A → Prop) l :
  (∀ pre x suf, l = pre ++ x :: suf → ∀ y, y ∈ suf → R x y) → StronglySorted R l.
Proof.
  induction l as [|x l IH]; intros H; [constructor|]. apply StronglySorted_cons. split.
  - apply Forall_forall. by apply (H []).
  - apply IH. intros pre y suf ->. by apply (H (x :: pre)).
Qed.

(** An order that puts dependencies first respects [depends_on]. *)
Lemma dependencies_first p order :
  NoDup (task_id <$> tasks p) → order ≡ₚ tasks p →
  (∀ pre t suf, order = pre ++ t :: suf → ∀ d, d ∈ dependencies t → d ∈ task_id <$> pre) →
  StronglySorted (λ x y, ¬ depends_on p x y) order.
Proof.
  intros Hnd Hperm Hdeps. rewrite <- Hperm in Hnd.
  assert (∀ x y, tc (task_edge (tasks p)) x y → ∀ pre t suf,
    order = pre ++ t :: suf → task_id t = x → y ∈ task_id <$> pre) as Hpath.
  { assert (∀ x y pre t suf, task_edge (tasks p) x y → order = pre ++ t :: suf → task_id t = x →
      y ∈ task_id <$> pre) as Hedge.
    { intros x y pre t suf (u & Hu & Hux & Hd) Ho Hx. eapply Hdeps; [done|].
      rewrite (task_of_id order t u Hnd); [done| | |congruence].
      - rewrite Ho. set_solver.
      - by rewrite Hperm. }
    intros x y H. induction H as [x y H|x y z H _ IH]; intros pre t suf Ho Hx; [by eapply Hedge|].
    pose proof (Hedge _ _ _ _ _ H Ho Hx) as Hy.
    apply list_elem_of_fmap in Hy as (u & -> & (p1 & p2 & ->)%list_elem_of_split).
    rewrite fmap_app. apply elem_of_app. left. eapply (IH p1 u (p2 ++ t :: suf)); [|done].
    by rewrite Ho, <- app_assoc. }
  apply StronglySorted_splits. intros pre x suf Ho y Hy Hxy.
  pose proof (Hpath _ _ Hxy pre x suf Ho eq_refl) as Hin.
  rewrite Ho, fmap_app, fmap_cons in Hnd. apply NoDup_app in Hnd as (_ & Hdis & _).
  apply (Hdis _ Hin). right. by apply list_elem_of_fmap_2.
Qed.

(** Conflicting tasks are ordered by the dependency graph. *)
Definition conflicts_ordered (sim : Simulator) (s : MemoryRuntime) (p : KernelProgram) : Prop :=
  ∀ t u, t ∈ tasks p → u ∈ tasks p → t ≠ u → conflicting sim s t u = true →
    depends_on p t u ∨ depends_on p u t.

Section independence.
Context {NP : Numpy} (node_of : pyval → tir) (set_order : gset string → list string) (clock : nat → Q).
Context (sim : Simulator).
Context {St : Type} `{!SynchronizationModel St}.
Context (config' : SimulatorConfig) (set_order' : gset string → list string) (clock' : nat → Q).

(** C5. The numeric result of a run does not depend on the schedule. Let the dependency graph
    order every two tasks one of which writes an allocation that overlaps one the other names
    (and leave aside reinterpreted names and scalar stores, whose regions their metadata does not
    name). If a run succeeds, then executing the tasks in the order of any other schedule of the
    same program - another synchronization model, configuration, hash order or clock - succeeds
    too and leaves the same bytes, the same poison and the same allocations. *)
Theorem numeric_results_schedule_independent fuel fuel' s r program rs' :
  program_wf (sim_program sim) → runtime_wf s →
  run_functional node_of set_order clock fuel sim None s = Some (Ok r) →
  program_for_dynamic_control node_of sim None s = Ok program →
  Forall plain (tasks program) → conflicts_ordered sim s program →
  schedule config' set_order' clock' fuel' program = Some (Ok rs') →
  ∃ order s', functional_execution_order program rs' = Ok order ∧
    execute_all node_of sim order s = (s', Ok tt) ∧ same_memory (fx_memory r) s'.
Proof.
  intros Hwf Hs Hrun Hprog Hplain Hconf Hsched.
  destruct (run_functional_result _ _ _ _ _ _ Hwf Hs r Hrun)
    as (p & o1 & Hp & Hpw & _ & Hperm1 & _ & Hdep1 & He1 & _ & _).
  rewrite Hprog in Hp. injection Hp as <-.
  destruct (schedule_yields_valid config' set_order' clock' fuel' program rs' Hpw Hsched) as [c Hc].
  destruct (scheduled_order program rs' c Hpw Hc) as (o2 & Ho2 & Hg2 & Hperm2).
  pose proof (wf_unique _ Hpw) as Hnd.
  destruct (orders_agree node_of sim (depends_on program) o1 o2 s (fx_memory r)) as (s' & H' & Hsame).
  - by rewrite Hperm1, Hperm2.
  - rewrite Hperm1. by eapply NoDup_fmap_1.
  - by rewrite Hperm1.
  - done.
  - by apply dependencies_first.
  - apply dependencies_first; [done|done|]. intros pre t suf. by eapply greedy_dependencies.
  - intros t u Ht Hu. apply Hconf; by rewrite <- Hperm1.
  - done.
  - by exists o2, s'.
Qed.
End independence.

(** ** Two schedules of one program: with flags, [y := 2] waits for the load of [x]; without
    synchronization it comes before [z := w + 5]. *)

Definition int_fill (id : string) (l : Lane) (pipe : Pipe) (cycles : Z) (name : string) (v : Z) : Task :=
  MkTask id "fill" 0 l pipe cycles [] None [("dst", VRegion (int_region name UB)); ("scalar", VInt v)].
Definition lanes_program : KernelProgram :=
  MkKernel "k" "A2"
    [MkCore 0
      [int_fill "x" VECTOR_0 MTE2 20 "x" 1;
       MkTask "set" "set_flag" 0 VECTOR_0 MTE2 1 [] None
         [("src_pipe", VStr "mte2"); ("dst_pipe", VStr "v"); ("flag_id", VInt 0)];
       MkTask "wait" "wait_flag" 0 VECTOR_0 VECTOR 1 [] None
         [("src_pipe", VStr "mte2"); ("dst_pipe", VStr "v"); ("flag_id", VInt 0)];
       int_fill "y" VECTOR_0 VECTOR 4 "y" 2;
       int_fill "w" VECTOR_1 MTE2 5 "w" 3;
       MkTask "z" "adds" 0 VECTOR_1 VECTOR 6 ["w"] None
         [("dst", VRegion (int_region "z" UB)); ("lhs", VRegion (int_region "w" UB)); ("scalar", VInt 5)]]]
    [int_spec "x" UB; int_spec "y" UB; int_spec "z" UB; int_spec "w" UB] [].
Definition lanes_sim : Simulator := MkSim lanes_program (exec_config false) [] None.
Definition lanes_memory : MemoryRuntime :=
  match from_program lanes_program "error" [] with Ok s => s | Raise _ => exec_memory end.
(** Direct dependencies order the conflicts of small programs. *)
Definition ordered_directly (sim : Simulator) (s : MemoryRuntime) (ts : list Task) : bool :=
  forallb (λ t, forallb (λ u, bool_decide (task_id t = task_id u) || negb (conflicting sim s t u) ||
    mem_str (task_id u) (dependencies t) || mem_str (task_id t) (dependencies u)) ts) ts.

Lemma ordered_directly_sound sim s p :
  NoDup (task_id <$> tasks p) → ordered_directly sim s (tasks p) = true → conflicts_ordered sim s p.
Proof.
  unfold ordered_directly. intros Hnd H t u Ht Hu Hne Hc. rewrite forallb_forall in H.
  specialize (H t (proj1 (list_elem_of_In _ _) Ht)). rewrite forallb_forall in H.
  specialize (H u (proj1 (list_elem_of_In _ _) Hu)).
  rewrite Hc, !orb_true_iff, !mem_str_true, bool_decide_eq_true in H.
  destruct H as [[[H|H]|H]|H]; [|done|left|right].
  - by destruct Hne; eapply task_of_id.
  - apply tc_once. exists t. done.
  - apply tc_once. exists u. done.
Qed.

Lemma lanes_program_wf : program_wf lanes_program.
Proof.
  assert (kernel_program_init "k" "A2" (kp_cores lanes_program) (kp_buffers lanes_program) [] = Ok lanes_program)
    as H by (vm_compute; reflexivity).
  by apply kernel_init_wf in H as [? _].
Qed.
Lemma lanes_memory_wf : runtime_wf lanes_memory.
Proof.
  assert (from_program lanes_program "error" [] = Ok lanes_memory) as H by (vm_compute; reflexivity).
  exact (proj1 (from_program_ok _ _ _ _ H)).
Qed.

(** The value of a computation that returns. *)
Definition value_or {A} (d : A) (x : option (result A)) : A := match x with Some (Ok a) => a | _ => d end.
Lemma value_or_ok {A} (d : A) x :
  match x with Some (Ok _) => true | _ => false end = true → x = Some (Ok (value_or d x)).
Proof. by destruct x as [[|]|]. Qed.

Definition no_result : FunctionalExecutionResult :=
  MkExecution [] (MkStats 0 0 [] [] [] [] [] [] [] [] 0) lanes_memory false.
Definition lanes_result : FunctionalExecutionResult :=
  value_or no_result (run_functional no_node elements still_clock 6 lanes_sim None lanes_memory).
Definition unordered_records : list ExecutionRecord :=
  value_or [] (@schedule _ NoOpSynchronizationModel (exec_config false) elements still_clock 6 lanes_program).

Lemma lanes_run_ok :
  run_functional no_node elements still_clock 6 lanes_sim None lanes_memory = Some (Ok lanes_result).
Proof. unfold lanes_result. apply value_or_ok. vm_compute. reflexivity. Qed.
Lemma unordered_schedule_ok :
  @schedule _ NoOpSynchronizationModel (exec_config false) elements still_clock 6 lanes_program =
  Some (Ok unordered_records).
Proof. unfold unordered_records. apply value_or_ok. vm_compute. reflexivity. Qed.

Definition order_ids (records : list ExecutionRecord) : list string :=
  match functional_execution_order lanes_program records with Ok o => task_id <$> o | Raise _ => [] end.

Lemma numeric_results_schedule_independent_witness :
  order_ids (fx_records lanes_result) = ["w"; "x"; "z"; "set"; "wait"; "y"] ∧
  order_ids unordered_records = ["wait"; "w"; "x"; "y"; "z"; "set"] ∧
  ∃ order s', functional_execution_order lanes_program unordered_records = Ok order ∧
    execute_all no_node lanes_sim order lanes_memory = (s', Ok tt) ∧ same_memory (fx_memory lanes_result) s'.
Proof.
  split; [vm_compute; reflexivity|]. split; [vm_compute; reflexivity|].
  apply (numeric_results_schedule_independent no_node elements still_clock lanes_sim (exec_config false) elements
    still_clock 6 6 lanes_memory lanes_result lanes_program unordered_records lanes_program_wf lanes_memory_wf).
  - exact lanes_run_ok.
  - reflexivity.
  - repeat (constructor; [vm_compute; reflexivity|]). constructor.
  - apply ordered_directly_sound; [apply lanes_program_wf|vm_compute; reflexivity].
  - exact unordered_schedule_ok.
Defined.
