(* ===== verification/LinearTiming.v ===== *)
(** The measured cost model ([linear_timing.py]) and the table of A2 measurements it is fed with
    ([measured_a2.py]): features, fitted lines with their measured domain, the families a
    calibration report holds, and the profile that falls back to the PyPTO model. *)

From stdpp Require Import pretty.
From S2P Require Import Prelude PyDict PySort PyStr Errors PyFloat Values Program PyNum Timing ExecEnv.
Local Open Scope string_scope.
Local Open Scope Z_scope.
Local Open Scope list_scope.

(** ** Features *)

(** [_BYTES] *)
Definition BYTES : dict string Z :=
  [("float16", 2); ("bfloat16", 2); ("float32", 4); ("int32", 4); ("int16", 2); ("int8", 1); ("uint8", 1)].

(** [_input_bytes] *)
Definition input_bytes (dtype : string) : result Z :=
  let parts := split_on "_to_" dtype in
  if (2 <? length parts)%nat || existsb (λ p, negb (dmem BYTES p)) parts then
    raise_with ValueError "unsupported dtype" [dtype]
  else Ok (dget_default 0 BYTES (hd "" parts)).

(** [type(d) is int and d > 0] for every dimension *)
Definition positive_dims (shape : list pyval) : option (list Z) :=
  mapM (λ d, match d with VInt z => if 0 <? z then Some z else None | _ => None end) shape.
Definition is_mma (operation : pyval) : bool :=
  bool_decide (operation = VStr "mma") || bool_decide (operation = VStr "mma_init").
(** A dimension rounded up to whole tiles. *)
Definition padded (d tile : Z) : Z := (d + tile - 1) / tile * tile.

(** [timing_feature]; operation names are metadata values. *)
Definition timing_feature (operation : pyval) (shape : list pyval) (dtype : string) : result Z :=
  itemsize ← input_bytes dtype;
  match shape, positive_dims shape with
  | [], _ | _, None => raise ValueError "shape must have positive concrete integer dimensions"
  | _, Some dims =>
      if is_mma operation then
        match dims with
        | [m; n; k] => Ok (padded m 16 * padded n 16 * padded k (32 / itemsize))
        | _ => raise ValueError "MMA requires (M, N, K)"
        end
      else Ok (prod_of dims * itemsize)
  end.

(** ** Fitted lines *)

Record LinearCost := MkCost {
  slope_ns : pynum;
  intercept_ns : pynum;
  min_feature : pynum;
  max_feature : pynum;
  lc_feature : string;
  lc_evidence : string;
}.

(** [isfinite(n)]: an integer is converted to a float first. *)
Definition isfinite (n : pynum) : result bool :=
  match n with NFloat f => Ok (is_finite f) | _ => _ ← to_float n; Ok true end.

(** [all(isfinite(v) for v in values)], with the numbers when it holds *)
Fixpoint all_finite (values : list pyval) : result (option (list pynum)) :=
  match values with
  | [] => Ok (Some [])
  | v :: values =>
      match as_number v with
      | None => raise TypeError "must be real number"
      | Some n =>
          fin ← isfinite n;
          if fin : bool then rest ← all_finite values; Ok (option_map (cons n) rest) else Ok None
      end
  end.

(** [slope * x + intercept] *)
Definition line_at (slope intercept x : pynum) : result pynum :=
  p ← py_mul slope x; py_add p intercept.

Definition zero : pynum := NInt 0.

(** [LinearCost(...)] with its [__post_init__] *)
Definition linear_cost_init (slope intercept lo hi feature evidence : pyval) : result LinearCost :=
  numbers ← all_finite [slope; intercept; lo; hi];
  match numbers with
  | Some [slope; intercept; lo; hi] =>
      _ ← ensure (negb (py_lt slope zero) && (py_lt zero lo && py_lt lo hi)) ValueError
        "invalid slope or measured domain";
      at_min ← line_at slope intercept lo;
      _ ← ensure (negb (py_le at_min zero)) ValueError "predicted time must be positive on the measured domain";
      _ ← ensure (hashable feature) TypeError "unhashable type";
      match feature with
      | VStr feature =>
          _ ← ensure (mem_str feature ["bytes"; "padded_mnk"]) ValueError "unsupported feature";
          match evidence with
          | VStr evidence =>
              _ ← ensure (nonempty (strip evidence)) ValueError "measurement evidence is required";
              Ok (MkCost slope intercept lo hi feature evidence)
          | _ => raise AttributeError "strip"
          end
      | _ => raise ValueError "unsupported feature"
      end
  | _ => raise ValueError "linear parameters must be finite"
  end.

(** [from_dict]: [cls( **value)] takes exactly the fields. *)
Definition COST_FIELDS : list string :=
  ["slope_ns"; "intercept_ns"; "min_feature"; "max_feature"; "feature"; "evidence"].
Definition from_dict (value : pyval) : result LinearCost :=
  match value with
  | VDict d =>
      _ ← ensure (forallb (λ k, mem_str k COST_FIELDS) (dkeys d) && forallb (dmem d) COST_FIELDS) TypeError
        "unexpected or missing argument";
      linear_cost_init (mget d "slope_ns") (mget d "intercept_ns") (mget d "min_feature")
        (mget d "max_feature") (mget d "feature") (mget d "evidence")
  | _ => raise TypeError "argument after ** must be a mapping"
  end.

(** [to_dict] *)
Definition to_dict (c : LinearCost) : dict string pyval :=
  [("slope_ns", number_value (slope_ns c)); ("intercept_ns", number_value (intercept_ns c));
   ("min_feature", number_value (min_feature c)); ("max_feature", number_value (max_feature c));
   ("feature", VStr (lc_feature c)); ("evidence", VStr (lc_evidence c))].

(** [isfinite(x) and x > 0] *)
Definition finite_positive (x : pynum) : result bool :=
  fin ← isfinite x; Ok (fin && negb (py_le x zero)).

(** [predict_ns] *)
Definition predict_ns (c : LinearCost) (x : pynum) (extrapolate : bool) : result pynum :=
  valid ← finite_positive x;
  _ ← ensure valid ValueError "feature must be finite and positive";
  _ ← ensure (extrapolate || (py_le (min_feature c) x && py_le x (max_feature c))) ValueError
    "feature outside measured domain";
  t ← line_at (slope_ns c) (intercept_ns c) x;
  _ ← ensure (negb (py_le t zero)) ValueError "nonpositive predicted time";
  Ok t.

(** [relative_error] *)
Definition relative_error (c : LinearCost) (x observed_ns : pynum) : result pynum :=
  valid ← finite_positive observed_ns;
  _ ← ensure valid ValueError "observation must be finite and positive";
  t ← predict_ns c x false;
  ratio ← py_div t observed_ns;
  py_sub ratio (NInt 1).

(** ** Calibration reports *)

(** [LinearCalibration.costs]; the four components of a key are compared structurally. *)
Abbreviation costs_table := (dict (list pyval) LinearCost).

(** One family of a report. *)
Definition load_family (costs : costs_table) (family : pyval) : result costs_table :=
  family ← mapping_of family;
  status ← mindex family "status";
  if negb (bool_decide (status = VStr "fitted")) then Ok costs
  else
    key ← omap_list (mindex family) ["operation"; "dtype"; "geometry"; "measurement_mode"];
    _ ← ensure (forallb hashable key) TypeError "unhashable type";
    _ ← ensure (negb (dmem costs key)) ValueError "duplicate calibration family";
    cost ← mindex family "cost";
    cost ← from_dict cost;
    Ok (dset costs key cost).

(** [LinearCalibration.__init__] *)
Definition linear_calibration_init (report : dict string pyval) (platform : string) : result costs_table :=
  _ ← ensure (bool_decide (mget report "schema" = VStr "tilelang-linear-cost-calibration-v1")) ValueError
    "unsupported calibration schema";
  _ ← ensure (bool_decide (mget report "unit" = VStr "ns")
              && bool_decide (mget report "platform_measured" = VStr platform)) ValueError
    "calibration unit/platform does not match measured hardware";
  families ← mindex report "families";
  families ← sequence_of families;
  foldl (λ costs family, costs ← costs; load_family costs family) (Ok []) families.

(** [shape[-1]] of a shape that [timing_feature] accepted *)
Definition last_dim (shape : list pyval) : pyval := default VNone (last shape).

(** The geometry of a family when the caller names none; an operation that is not a string has
    no [startswith]. *)
Definition default_geometry (operation : pyval) (shape : list pyval) : result string :=
  match operation with
  | VStr op =>
      Ok (if startswith "reduce_" op then "last_axis_width_" +:+ str_of (last_dim shape)
          else if bool_decide (op = "copy_l0c_gm") && (length shape =? 2)%nat then
            "row_elements_" +:+ str_of (last_dim shape)
          else "contiguous")
  | _ => raise AttributeError "startswith"
  end.

(** [estimate_ns] *)
Definition estimate_ns (costs : costs_table) (operation : pyval) (shape : list pyval) (dtype : string)
    (measurement_mode : string) (geometry : option string) : result pynum :=
  feature ← timing_feature operation shape dtype;
  geometry ← match geometry with Some g => Ok g | None => default_geometry operation shape end;
  match dget costs [operation; VStr dtype; VStr geometry; VStr measurement_mode] with
  | None => raise_with ValueError "no measured calibration" [dtype; geometry; measurement_mode]
  | Some cost =>
      _ ← ensure (bool_decide (lc_feature cost = if is_mma operation then "padded_mnk" else "bytes"))
        ValueError "calibration feature does not match operation";
      predict_ns cost (NInt feature) false
  end.

(** ** Bridged tasks *)

(** [metadata.get(key, {})] of which [get] is called *)
Definition get_mapping (metadata : dict string pyval) (key : string) : result (dict string pyval) :=
  match dget metadata key with
  | None => Ok []
  | Some (VDict d) => Ok d
  | Some _ => raise AttributeError "get"
  end.

(** [str(getattr(v, "dtype", default)).lower()] under its canonical name *)
Definition dtype_name (v : option pyval) (def : string) : string :=
  let dtype := lower (match v with Some (VRegion r) => rg_dtype r | _ => def end) in
  dget_default dtype [("half", "float16"); ("float", "float32")] dtype.

(** [scope(region)] in a copy's name *)
Definition copy_scope (v : option pyval) : string :=
  match v with
  | Some (VRegion r) => let s := scope_value (rg_scope r) in if bool_decide (s = "workspace") then "gm" else s
  | _ => "None"
  end.

(** [left != right], with Python's equality of numbers *)
Definition py_ne (x y : pyval) : bool :=
  match as_number x, as_number y with
  | Some a, Some b => negb (py_eq a b)
  | _, _ => negb (bool_decide (x = y))
  end.

(** [tuple(shape)]; the elements of a string or a dictionary are strings. *)
Definition shape_tuple (shape : pyval) : result (list pyval) :=
  match shape with
  | VNone => raise ValueError "missing logical timing shape"
  | VTuple l | VList l => Ok l
  | VStr _ | VDict _ => Ok [VStr ""]
  | _ => raise TypeError "not iterable"
  end.

Definition first_operand (metadata : dict string pyval) : option pyval :=
  match dget metadata "src" with
  | Some v => Some v
  | None => match dget metadata "lhs" with Some v => Some v | None => dget metadata "dst" end
  end.
Definition region_shape (v : option pyval) : pyval :=
  match v with Some (VRegion r) => VTuple (rg_shape r) | _ => VNone end.
Definition converted (dtype dst_dtype : string) : string :=
  if bool_decide (dst_dtype = dtype) then dtype else dtype +:+ "_to_" +:+ dst_dtype.

(** The branch of [task_feature] for matrix products: operation and shape. *)
Definition mma_feature (metadata : dict string pyval) : result (pyval * pyval) :=
  mma ← get_mapping metadata "mma";
  Ok (VStr (if truthy (dget_default (VBool true) mma "init") then "mma_init" else "mma"),
      VTuple (mget mma <$> ["rows"; "cols"; "inner"])).

(** The branch for reductions. *)
Definition reduce_feature (short : string) (metadata : dict string pyval) : result pyval :=
  _ ← ensure (negb (py_ne (dget_default (VInt (-1)) metadata "reduce_axis") (VInt (-1)))
              && truthy (dget_default (VBool true) metadata "clear")) ValueError
    "no measured reduction for axis=0 or clear=False";
  let op := dget_default (VStr short) metadata "reduce_kind" in
  renamed ← lookup_value [("sum", "reduce_sum"); ("max", "reduce_max")] op;
  Ok (match renamed with Some s => VStr s | None => op end).

(** The branch for copies: operation, shape and dtype. *)
Definition copy_feature (metadata : dict string pyval) (shape : pyval) (dtype : string)
    : result (pyval * pyval * string) :=
  let dst := dget metadata "dst" in
  let op := "copy_" +:+ copy_scope (first_operand metadata) +:+ "_" +:+ copy_scope dst in
  op ← (if bool_decide (op = "copy_l1_l0b") then
          details ← get_mapping metadata "copy";
          Ok (if truthy (dget_default (VBool false) details "transpose") then op +:+ "_transpose" else op)
        else Ok op);
  shape ← (if bool_decide (op = "copy_l0c_gm") then
             details ← get_mapping metadata "copy"; Ok (dget_default shape details "destination_shape")
           else Ok shape);
  let dtype := converted dtype (dtype_name dst "") in
  match mget metadata "transfer_bytes" with
  | VNone => Ok (VStr op, shape, dtype)
  | transferred =>
      if contains "_to_" dtype || bool_decide (op = "copy_l0c_gm") then Ok (VStr op, shape, dtype)
      else
        match transferred, dget BYTES dtype with
        | VInt bytes, Some size =>
            if bytes mod size =? 0 then Ok (VStr op, VTuple [VInt (bytes / size)], dtype)
            else raise ValueError "copy requires a concrete integral byte count"
        | _, _ => raise ValueError "copy requires a concrete integral byte count"
        end
  end.

(** [task_feature] *)
Definition task_feature (operation : string) (metadata : dict string pyval)
    : result (pyval * list pyval * string) :=
  let short := short_name operation in
  let src := first_operand metadata in
  let dtype := dtype_name src "" in
  let shape := region_shape src in
  '(op, shape, dtype) ←
    (if mem_str short ["mma"] then '(op, shape) ← mma_feature metadata; Ok (op, shape, dtype)
     else if mem_str short ["reduce"; "reduce_2d"; "reduce_sum"; "reduce_max"] then
       op ← reduce_feature short metadata; Ok (op, shape, dtype)
     else if contains "copy" short then copy_feature metadata shape dtype
     else Ok (VStr short, shape, converted dtype (dtype_name (dget metadata "dst") dtype)));
  shape ← shape_tuple shape;
  _ ← timing_feature op shape dtype;
  Ok (op, shape, dtype).

(** The geometry [estimate_task_ns] names itself. *)
Definition task_geometry (op : pyval) (shape : list pyval) (dtype : string) (metadata : dict string pyval)
    : result (option string) :=
  match op with
  | VStr op =>
      geometry ← (if bool_decide (op = "copy_l0c_gm") then
          details ← get_mapping metadata "copy";
          let stride := dget_default (last_dim shape) details "destination_cols" in
          Ok (if py_ne stride (last_dim shape) then
                Some ("row_elements_" +:+ str_of (last_dim shape) +:+ "_stride_elements_" +:+ str_of stride)
              else None)
        else Ok None);
      if startswith "row_expand_" op then
        itemsize ← input_bytes dtype;
        let dense := match last_dim shape with VInt d => VInt (d * itemsize) | v => v end in
        let strides := match dget metadata "src" with Some (VRegion r) => default [] (rg_strides_bytes r) | _ => [] end in
        let stride := default dense (reverse strides !! 1%nat) in
        Ok (Some ("row_stride_bytes_" +:+ str_of stride))
      else Ok geometry
  | _ => raise AttributeError "startswith"
  end.

(** [estimate_task_ns] *)
Definition estimate_task_ns (costs : costs_table) (operation : string) (metadata : dict string pyval)
    : result pynum :=
  '(op, shape, dtype) ← task_feature operation metadata;
  geometry ← task_geometry op shape dtype metadata;
  estimate_ns costs op shape dtype "two_slot" geometry.

(** ** Profiles *)

(** [MeasuredProfile]: a timing profile that overrides [estimate_task]. *)
Record MeasuredProfile := MkMeasured { mp_profile : TimingProfile; mp_model : costs_table }.

Definition BOOKKEEPING_OPERATIONS : list string :=
  ["set_flag"; "wait_flag"; "auto_set_flag"; "auto_wait_flag"; "set_cross_flag"; "wait_cross_flag";
   "auto_set_cross_flag"; "auto_wait_cross_flag"; "pipe_barrier"; "auto_barrier"; "barrier_all"; "sync_all"].

(** [math.ceil] *)
Definition py_ceil (n : pynum) : result Z :=
  match n with NFloat f => float_ceil f | NInt z => Ok z | NBool b => Ok (Z.b2z b) end.

(** [estimate_task_with_source] of the measured profile *)
Definition measured_with_source (m : MeasuredProfile) (operation pipe : string) (metadata : dict string pyval)
    : result (Z * string) :=
  match dget (operation_cycles (mp_profile m)) operation with
  | Some configured => Ok (configured, "override")
  | None =>
      if bool_decide (lower pipe = "s") || mem_str operation BOOKKEEPING_OPERATIONS then Ok (1, "bookkeeping")
      else
        ns ← estimate_task_ns (mp_model m) operation metadata;
        ticks ← py_mul ns (NInt 2);
        cycles ← py_ceil ticks;
        Ok (Z.max 1 cycles, "measured")
  end.

(** [measured_timing_profile]; the hexadecimal digest of the report is an argument. *)
Definition measured_timing_profile (fingerprint : string) (report : dict string pyval) (platform : string)
    : result MeasuredProfile :=
  costs ← linear_calibration_init report platform;
  p ← profile_init true
    (MkProfile platform [] 1 ("measured-linear-" +:+ fingerprint +:+ "-ns-2ticks-per-ns") "measured-linear");
  Ok (MkMeasured p costs).

(** [MeasuredWithFallback]: the measured profile and the profile it falls back to. *)
Record MeasuredWithFallback := MkWithFallback { wf_measured : MeasuredProfile; wf_fallback : TimingProfile }.

(** [estimate_task_with_source] of [MeasuredWithFallback] *)
Definition fallback_with_source (m : MeasuredWithFallback) (operation pipe : string) (metadata : dict string pyval)
    : result (Z * string) :=
  match measured_with_source (wf_measured m) operation pipe metadata with
  | Raise e =>
      if is_subclass (exn_cls e) ValueError then
        cycles ← estimate_task (wf_fallback m) operation pipe metadata; Ok (cycles, "pypto-fallback")
      else Raise e
  | ok => ok
  end.
