(* ===== verification/MeasuredA2.v ===== *)
(** The A2 measurements ([measured_a2.py]) and the profile built from them: the table, the report
    it is turned into, and what an estimate of the default profile is.  An estimate called
    measured comes from a row of the table with the task's operation, type and geometry and a
    feature inside the measured domain; everything else is labelled as something else. *)

From S2P Require Import Prelude PyDict PySort PyStr Errors PyFloat Values Program PyNum Timing ExecEnv LinearTiming.
Local Open Scope string_scope.
Local Open Scope Z_scope.
Local Open Scope list_scope.

(** A decimal literal with [digits] digits after the point. *)
Definition lit (n : Z) (digits : Z) : pynum := NFloat (float_div_int n (10 ^ digits)).

Record CostRow := MkRow {
  cr_operation : string;
  cr_dtype : string;
  cr_geometry : string;
  cr_slope : pynum;
  cr_intercept : pynum;
  cr_min : pynum;
  cr_max : pynum;
  cr_feature : string;
  cr_error : pynum;
  cr_count : Z;
}.

Definition SOURCE_REPORT_SHA256 : string := "bf2297de112dd6a831e72cf2873d979f1141f4013c647e21db8343cea3056e31".
Definition EVIDENCE : string := "sha256:ca33ce9987ce6cee177a5f785743c4e296c30de628a4db4f0faf37c4889bd9c1".

Definition COSTS : list CostRow :=
  [MkRow "add" "float32" "contiguous" (lit 4606961291497232 18) (lit 11751184618188432 15) (NInt 8192) (NInt 49152) "bytes" (lit 5474814940323869 19) 3;
   MkRow "axpy" "float16_to_float32" "contiguous" (lit 6774061717916048 18) (lit 20601340180686805 15) (NInt 4096) (NInt 24576) "bytes" (lit 1349558394835888 16) 1;
   MkRow "axpy" "float32" "contiguous" (lit 4311280291642054 18) (lit 16968825665859583 15) (NInt 8192) (NInt 49152) "bytes" (lit 12521666836602607 18) 1;
   MkRow "brcb_experiment" "float32" "contiguous" (lit 1758164696453617 17) (lit 9434941227542911 15) (NInt 32) (NInt 256) "bytes" (lit 5919754865917781 18) 1;
   MkRow "cast" "float16_to_float32" "contiguous" (lit 4569635677022312 18) (lit 17131759483454402 15) (NInt 4096) (NInt 24576) "bytes" (lit 16509489753128115 17) 1;
   MkRow "cast" "float32_to_float16" "contiguous" (lit 13609160181166848 19) (lit 16595312947486264 15) (NInt 8192) (NInt 49152) "bytes" (lit 1260852353992129 16) 1;
   MkRow "copy_gm_l1" "float16" "contiguous" (lit 30852479115955084 19) (lit 4634801960658818 14) (NInt 8192) (NInt 65536) "bytes" (lit 4585522699088451 17) 1;
   MkRow "copy_gm_ub" "float16" "contiguous" (lit 6523093590277915 18) (lit 14386276653908965 16) (NInt 4096) (NInt 24576) "bytes" (lit 7720620974205339 18) 1;
   MkRow "copy_gm_ub" "float32" "contiguous" (lit 6589155816141724 18) (lit (-14991928974979771) 16) (NInt 8192) (NInt 49152) "bytes" (lit 14152440883344886 18) 1;
   MkRow "copy_l0c_gm" "float32" "row_elements_128" (lit 47747001120571715 19) (lit 14189516129032253 14) (NInt 16384) (NInt 65536) "bytes" (lit 25369635156407 16) 1;
   MkRow "copy_l0c_gm" "float32_to_float16" "row_elements_128" (lit 22641019337737616 19) (lit 1450384024577573 13) (NInt 16384) (NInt 65536) "bytes" (lit 2608214705931089 17) 1;
   MkRow "copy_l0c_gm" "float32_to_float16" "row_elements_256_stride_elements_512" (lit 2332397320303499 18) (lit 1485176651305684 13) (NInt 32768) (NInt 131072) "bytes" (lit 19839334504563877 18) 1;
   MkRow "copy_l1_l0a" "float16" "contiguous" (lit 23021134810961236 19) (lit (-35511606076123314) 17) (NInt 8192) (NInt 65536) "bytes" (lit 7450094161958631 18) 1;
   MkRow "copy_l1_l0b" "float16" "contiguous" (lit 4446625729880045 18) (lit 303774108209592 14) (NInt 8192) (NInt 32768) "bytes" (lit 1110093205576601 17) 1;
   MkRow "copy_l1_l0b_transpose" "float16" "contiguous" (lit 43416171492118355 19) (lit 5062724014336837 16) (NInt 2048) (NInt 32768) "bytes" (lit 4657286210685285 19) 1;
   MkRow "copy_ub_gm" "float16" "contiguous" (lit 10188222226307232 18) (lit (-16123174256034076) 16) (NInt 4096) (NInt 24576) "bytes" (lit 1800774725304566 17) 1;
   MkRow "copy_ub_gm" "float32" "contiguous" (lit 9959592657574153 18) (lit 12370147621650744 16) (NInt 8192) (NInt 49152) "bytes" (lit 8988713801891368 18) 1;
   MkRow "copy_ub_ub" "float32" "contiguous" (lit 20394170863082674 19) (lit 9766235883329589 15) (NInt 64) (NInt 2048) "bytes" (lit 27944464879938957 18) 2;
   MkRow "div" "float32" "contiguous" (lit 8682210852172504 18) (lit 1611152334088368 14) (NInt 8192) (NInt 49152) "bytes" (lit 5381583710029059 20) 1;
   MkRow "exp" "float32" "contiguous" (lit 4339111383337399 18) (lit 15648968797070744 15) (NInt 64) (NInt 49152) "bytes" (lit 25895926951395865 19) 3;
   MkRow "fill" "float32" "contiguous" (lit 2166558927274689 18) (lit 963546149651011 14) (NInt 64) (NInt 49152) "bytes" (lit 14917648316997267 18) 3;
   MkRow "max" "float32" "contiguous" (lit 428632664357344 17) (lit 11244075625596281 15) (NInt 64) (NInt 2048) "bytes" (lit 335914172709888 16) 2;
   MkRow "mma" "float16" "contiguous" (lit 13558304941848882 20) (lit 13609420621244794 17) (NInt 262144) (NInt 4194304) "padded_mnk" (lit 11152453594296396 19) 3;
   MkRow "mma_init" "float16" "contiguous" (lit 13560303894605505 20) (lit 13920890937021113 17) (NInt 524288) (NInt 2097152) "padded_mnk" (lit 18077815552319798 20) 1;
   MkRow "mul" "float32" "contiguous" (lit 4386521468306174 18) (lit 16452979770366326 15) (NInt 8192) (NInt 49152) "bytes" (lit 5673648829766076 17) 1;
   MkRow "mul_add_dst" "float32" "contiguous" (lit 13335544319069473 18) (lit 16117724233518608 15) (NInt 64) (NInt 2048) "bytes" (lit 3437762457266258 17) 2;
   MkRow "muls" "float32" "contiguous" (lit 22859831373134368 19) (lit 12813432249197934 15) (NInt 64) (NInt 49152) "bytes" (lit 10349931988098193 18) 3;
   MkRow "reduce_max" "float32" "last_axis_width_512" (lit 2686824499140826 18) (lit 5036498607097295 14) (NInt 8192) (NInt 49152) "bytes" (lit 12020438904616593 17) 1;
   MkRow "reduce_sum" "float32" "last_axis_width_512" (lit 23983639031287837 19) (lit 6698817334478898 14) (NInt 8192) (NInt 49152) "bytes" (lit 12609302244171905 17) 1;
   MkRow "row_expand_div_experiment" "float32" "row_stride_bytes_512" (lit 6696438616714329 18) (lit 17559043778801822 15) (NInt 4096) (NInt 16384) "bytes" (lit 7881210519922255 17) 1;
   MkRow "row_expand_mul_experiment" "float32" "row_stride_bytes_512" (lit 4075489625978919 18) (lit 183126920122888 13) (NInt 4096) (NInt 16384) "bytes" (lit 10785937919312993 17) 1;
   MkRow "row_expand_sub_experiment" "float32" "row_stride_bytes_2048" (lit 4697443493526442 18) (lit 11119431643625195 15) (NInt 2048) (NInt 8192) "bytes" (lit 4330989066051072 17) 1;
   MkRow "sub" "float32" "contiguous" (lit 4597377880253467 18) (lit 12085239157274017 15) (NInt 64) (NInt 49152) "bytes" (lit 20679331981310112 18) 3].

(** [calibration_report] *)
Definition cost_family (r : CostRow) : pyval :=
  VDict [("operation", VStr (cr_operation r)); ("dtype", VStr (cr_dtype r)); ("geometry", VStr (cr_geometry r));
         ("measurement_mode", VStr "two_slot"); ("status", VStr "fitted");
         ("cost", VDict [("slope_ns", number_value (cr_slope r)); ("intercept_ns", number_value (cr_intercept r));
                         ("min_feature", number_value (cr_min r)); ("max_feature", number_value (cr_max r));
                         ("feature", VStr (cr_feature r)); ("evidence", VStr EVIDENCE)]);
         ("held_out_count", VInt (cr_count r));
         ("held_out_max_abs_relative_error", number_value (cr_error r))].
Definition calibration_report : dict string pyval :=
  [("schema", VStr "tilelang-linear-cost-calibration-v1"); ("unit", VStr "ns"); ("platform_measured", VStr "A2");
   ("a3_validated", VBool false); ("source_report_sha256", VStr SOURCE_REPORT_SHA256);
   ("measurement_scope", VStr "910B3 CANN9, resident-data single-core probes");
   ("families", VList (cost_family <$> COSTS))].

(** [s[:n]] *)
Fixpoint take_chars (n : nat) (s : string) : string :=
  match n, s with S n, String c s => String c (take_chars n s) | _, _ => "" end.

(** [default_a2_timing_profile]: the measured profile is used through a class of its own, with
    no configured cycles. *)
Definition default_a2_timing_profile (fingerprint : string) : result MeasuredWithFallback :=
  measured ← measured_timing_profile fingerprint calibration_report "A2";
  fallback ← profile_init false (MkProfile "A2" [] 1 "pypto-fast-derived-uncalibrated-49587f3" "pypto-fast");
  own ← profile_init true (MkProfile "A2" [] 1
    ("a2-910b3-cann9-measured-linear+pypto-fallback-" +:+ take_chars 16 SOURCE_REPORT_SHA256) "measured-linear");
  Ok (MkWithFallback (MkMeasured own (mp_model measured)) fallback).

(** [default_timing_profile] of [profile.py] *)
Definition default_timing_profile (fingerprint platform : string) : result (MeasuredWithFallback + TimingProfile) :=
  platform ← normalize_platform platform;
  if bool_decide (platform = "A2") then
    p ← default_a2_timing_profile fingerprint; Ok (inl p)
  else
    p ← profile_init false (MkProfile platform [] 1 "pypto-fast-derived-uncalibrated-49587f3" "pypto-fast");
    Ok (inr p).
(** [estimate_task] of either. *)
Definition profile_estimate (p : MeasuredWithFallback + TimingProfile) (operation pipe : string)
    (metadata : dict string pyval) : result Z :=
  match p with
  | inl m => '(cycles, _) ← fallback_with_source m operation pipe metadata; Ok cycles
  | inr p => estimate_task p operation pipe metadata
  end.

(** ** What the shipped table means *)

(** The families of the report, as the calibration holds them. *)
Definition row_key (r : CostRow) : list pyval :=
  [VStr (cr_operation r); VStr (cr_dtype r); VStr (cr_geometry r); VStr "two_slot"].
Definition row_cost (r : CostRow) : LinearCost :=
  MkCost (cr_slope r) (cr_intercept r) (cr_min r) (cr_max r) (cr_feature r) EVIDENCE.

(** Every row is a valid line on its domain, no family occurs twice, and the table the estimator
    uses holds the rows unchanged. *)
Lemma calibration_loads :
  linear_calibration_init calibration_report "A2" = Ok ((λ r, (row_key r, row_cost r)) <$> COSTS).
Proof. vm_compute. reflexivity. Qed.

Lemma estimate_ns_row op shape dtype geometry ns :
  estimate_ns ((λ r, (row_key r, row_cost r)) <$> COSTS) op shape dtype "two_slot" geometry = Ok ns →
  ∃ r x, r ∈ COSTS ∧ op = VStr (cr_operation r) ∧ dtype = cr_dtype r ∧
    match geometry with Some g => Ok g | None => default_geometry op shape end = Ok (cr_geometry r) ∧
    timing_feature op shape dtype = Ok x ∧ cr_feature r = (if is_mma op then "padded_mnk" else "bytes") ∧
    py_le (cr_min r) (NInt x) = true ∧ py_le (NInt x) (cr_max r) = true ∧
    line_at (cr_slope r) (cr_intercept r) (NInt x) = Ok ns ∧ py_le ns zero = false.
Proof.
  unfold estimate_ns. intros (x & Hx & H)%outcome_bind_ok. apply outcome_bind_ok in H as (g & Hg & H).
  destruct (dget _ _) as [cost|] eqn:Hc; [|done]. apply dget_elem_of, list_elem_of_fmap in Hc as (r & Heq & Hr).
  injection Heq as -> -> -> ->. inv_res.
  apply bool_decide_eq_true in H. unfold predict_ns in H0. inv_res.
  match goal with Hb : (false || _) = true |- _ => apply andb_true_iff in Hb as [??] end.
  match goal with Hb : negb _ = true |- _ => apply negb_true_iff in Hb end.
  exists r, x. split_and!; done.
Qed.

(** A task whose measured cost the table gives: its operation, type and geometry are those of a
    row, and its feature lies in the row's measured domain. *)
Definition measured_by (operation : string) (metadata : dict string pyval) (r : CostRow) (x : Z) : Prop :=
  ∃ shape geometry,
    task_feature operation metadata = Ok (VStr (cr_operation r), shape, cr_dtype r) ∧
    task_geometry (VStr (cr_operation r)) shape (cr_dtype r) metadata = Ok geometry ∧
    match geometry with
    | Some g => g = cr_geometry r
    | None => default_geometry (VStr (cr_operation r)) shape = Ok (cr_geometry r)
    end ∧
    timing_feature (VStr (cr_operation r)) shape (cr_dtype r) = Ok x ∧
    cr_feature r = (if is_mma (VStr (cr_operation r)) then "padded_mnk" else "bytes") ∧
    py_le (cr_min r) (NInt x) = true ∧ py_le (NInt x) (cr_max r) = true.


(** Where an estimate of the default A2 profile comes from. *)
Definition source_of (m : MeasuredWithFallback) (operation pipe : string) (metadata : dict string pyval)
    (c : Z) (source : string) : Prop :=
  (source = "bookkeeping" ∧ c = 1 ∧ (lower pipe = "s" ∨ operation ∈ BOOKKEEPING_OPERATIONS)) ∨
  (source = "measured" ∧ ∃ r x ns ticks cycles, r ∈ COSTS ∧ measured_by operation metadata r x ∧
     line_at (cr_slope r) (cr_intercept r) (NInt x) = Ok ns ∧ py_le ns zero = false ∧
     py_mul ns (NInt 2) = Ok ticks ∧ py_ceil ticks = Ok cycles ∧ c = Z.max 1 cycles) ∨
  (source = "pypto-fallback" ∧ estimate_task (wf_fallback m) operation pipe metadata = Ok c ∧
     ∃ e, measured_with_source (wf_measured m) operation pipe metadata = Raise e ∧
       is_subclass (exn_cls e) ValueError = true).

Lemma default_a2_parts fingerprint m :
  default_a2_timing_profile fingerprint = Ok m →
  operation_cycles (mp_profile (wf_measured m)) = [] ∧
  mp_model (wf_measured m) = (λ r, (row_key r, row_cost r)) <$> COSTS ∧
  ∃ p, profile_init false p = Ok (wf_fallback m).
Proof.
  unfold default_a2_timing_profile, measured_timing_profile. rewrite calibration_loads.
  intros (measured & Hm & H)%outcome_bind_ok. apply outcome_bind_ok in H as (fallback & Hf & H).
  apply outcome_bind_ok in H as (own & Ho & [= <-]). cbn [mbind outcome_bind] in Hm.
  apply outcome_bind_ok in Hm as (p & _ & [= <-]). split; [|split; [done|by eexists]].
  unfold profile_init in Ho. apply outcome_bind_ok in Ho as (? & _ & Ho). by inv_res.
Qed.

(** An estimate of the default A2 profile never pretends to be a measurement: every estimate
    is at least one cycle; it is called measured only when the task has the operation, type and
    geometry of a row of the table and a feature inside that row's measured domain, and is then
    the row's line at that feature, in double precision, at two ticks per nanosecond rounded up;
    scalar and synchronization tasks are one cycle of bookkeeping; everything else is the PyPTO
    estimate, and only because the measured model refused the task with a [ValueError]. *)
Theorem measured_estimate_sound fingerprint m operation pipe metadata c source :
  default_a2_timing_profile fingerprint = Ok m →
  fallback_with_source m operation pipe metadata = Ok (c, source) →
  0 < c ∧ source_of m operation pipe metadata c source.
Proof.
  intros (Hcycles & Hmodel & p & Hp)%default_a2_parts. unfold fallback_with_source.
  destruct (measured_with_source _ _ _ _) as [[c' source']|e] eqn:Hms.
  - intros [= -> ->]. unfold measured_with_source in Hms. rewrite Hcycles, Hmodel in Hms. cbn [dget] in Hms.
    destruct (bool_decide (lower pipe = "s") || _) eqn:Hb.
    { injection Hms as <- <-. split; [done|]. left. split_and!; [done..|].
      by rewrite orb_true_iff, bool_decide_eq_true, mem_str_true in Hb. }
    apply outcome_bind_ok in Hms as (ns & Hns & Hms). apply outcome_bind_ok in Hms as (ticks & Ht & Hms).
    apply outcome_bind_ok in Hms as (cycles & Hcy & [= <- <-]). split; [lia|]. right; left. split; [done|].
    unfold estimate_task_ns in Hns. apply outcome_bind_ok in Hns as ([[op shape] dtype] & Hf & Hns).
    apply outcome_bind_ok in Hns as (geometry & Hg & Hns).
    apply estimate_ns_row in Hns as (r & x & Hr & -> & -> & Hgeo & Hx & Hfeat & Hlo & Hhi & Hline & Hpos).
    exists r, x, ns, ticks, cycles. split_and!; try done. exists shape, geometry. split_and!; try done.
    destruct geometry; [by injection Hgeo as ->|done].
  - destruct (is_subclass _ _) eqn:He; [|done]. intros (c' & Hc & [= <- <-])%outcome_bind_ok.
    split; [by eapply estimate_is_duration|]. right; right. split_and!; [done..|]. by exists e.
Qed.

Definition sample_region (scope : MemoryScope) (dtype : string) : pyval :=
  VRegion (Region "A" scope [VInt 128; VInt 64] dtype (VInt 0) None None).
Definition sample_operands (dtype : string) : dict string pyval :=
  [("src", sample_region UB dtype); ("dst", sample_region UB dtype)].
Lemma measured_estimate_sound_witness :
  match default_a2_timing_profile "0" with
  | Ok m =>
      fallback_with_source m "tl.ascend::add<float>" "v" (sample_operands "float") = Ok (326, "measured") ∧
      fallback_with_source m "tl.ascend::add<half>" "v" (sample_operands "half") = Ok (196, "pypto-fallback") ∧
      source_of m "tl.ascend::add<float>" "v" (sample_operands "float") 326 "measured"
  | Raise _ => False
  end.
Proof.
  destruct (default_a2_timing_profile "0") as [m|e] eqn:E; [|vm_compute in E; discriminate E].
  assert (fallback_with_source m "tl.ascend::add<float>" "v" (sample_operands "float") = Ok (326, "measured")) as H.
  { vm_compute in E. injection E as <-. vm_compute. reflexivity. }
  split; [exact H|]. split; [vm_compute in E; injection E as <-; vm_compute; reflexivity|].
  exact (proj2 (measured_estimate_sound "0" m _ _ _ _ _ E H)).
Defined.
