(* ===== verification/RegionOverlap.v ===== *)
(** The geometry of dependency inference in [bridge.py]: the byte bounds of a region, its exact
    byte intervals, and the test whether two regions of known buffers share a byte.  The test is
    proved sound for every pair of concrete regions, and exact when the innermost dimension is
    dense and the expansion is within its limit. *)

From Stdlib Require Import Sorting.Sorted.
From S2P Require Import Prelude PyDict PySort PyStr Errors Values Program Intervals MemoryView.
Local Open Scope string_scope.
Local Open Scope Z_scope.
Local Open Scope list_scope.

(** ** Concrete regions *)

(** A region without symbolic integers: offset, shape and strides. *)
Record geometry := MkGeometry {
  g_offset : Z;
  g_shape : list Z;
  g_strides : option (list Z);
}.

(** [None] when a value of the region is an [AffineInt] or a [SymbolicInt]; the other values of
    a validated region are integers. *)
Definition concrete (region : BufferRegion) : option geometry :=
  offset ← as_integral (rg_byte_offset region);
  shape ← mapM as_integral (rg_shape region);
  match rg_strides_bytes region with
  | None => Some (MkGeometry offset shape None)
  | Some l => strides ← mapM as_integral l; Some (MkGeometry offset shape (Some strides))
  end.

(** [region.strides_bytes or contiguous_strides_bytes(...)] *)
Definition strides_of (g : geometry) (itemsize : Z) : list Z :=
  match g_strides g with
  | Some (s :: l) => s :: l
  | _ => contiguous_strides_bytes (g_shape g) itemsize
  end.

Definition has_zero (shape : list Z) : bool := existsb (λ e, e =? 0) shape.

(** [_region_bounds] *)
Definition region_bounds (region : BufferRegion) : result (option interval) :=
  match concrete region with
  | None => Ok None
  | Some g =>
      if has_zero (g_shape g) then Ok (Some (g_offset g, g_offset g))
      else
        it ← dtype_size_bytes (rg_dtype region);
        Ok (Some (g_offset g, g_offset g + span_of (zip (g_shape g) (strides_of g it)) + it))
  end.

Definition MAX_INTERVAL_EXPANSION : Z := 4096.

Definition without_last {A} (l : list A) : list A := take (length l - 1) l.

(** The start of the interval with a linear index: the index tuple is peeled off from the last of
    the outer dimensions.  Strides are as many as extents in a validated region. *)
Definition peel (st : Z * Z) (d : Z * Z) : Z * Z :=
  let '(remainder, base) := st in (remainder / d.1, base + remainder mod d.1 * d.2).
Definition interval_base (offset : Z) (outer_dims : list (Z * Z)) (linear : Z) : Z :=
  (foldl peel (linear, offset) (reverse outer_dims)).2.

(** Merging a range into the canonical list when they overlap or touch. *)
Definition merge_interval (merged : list interval) (cur : interval) : list interval :=
  match last merged with
  | Some r => if cur.1 <=? r.2 then without_last merged ++ [(r.1, Z.max r.2 cur.2)] else merged ++ [cur]
  | None => merged ++ [cur]
  end.

(** [_region_byte_intervals] *)
Definition region_byte_intervals (region : BufferRegion) : result (option (list interval)) :=
  match concrete region with
  | None => Ok None
  | Some g =>
      if has_zero (g_shape g) then Ok (Some [])
      else
        it ← dtype_size_bytes (rg_dtype region);
        let strides := strides_of g it in
        if existsb (λ s, s <=? 0) strides then Ok None
        else
          let outer := foldl Z.mul 1 (without_last (g_shape g)) in
          if MAX_INTERVAL_EXPANSION <? outer then Ok None
          else
            match last (g_shape g), last strides with
            | Some extent, Some stride =>
                let inner_span := (extent - 1) * stride + it in
                let outer_dims := zip (without_last (g_shape g)) (without_last strides) in
                let intervals := (λ linear, let base := interval_base (g_offset g) outer_dims linear in
                                            (base, base + inner_span)) <$> seqZ 0 outer in
                Ok (Some (foldl merge_interval [] (py_sorted interval_leb intervals)))
            | _, _ => raise IndexError "tuple index out of range"
            end
  end.

(** [_region_is_contiguous] *)
Definition region_is_contiguous (region : BufferRegion) : result bool :=
  match concrete region with
  | None => Ok false
  | Some g =>
      it ← dtype_size_bytes (rg_dtype region);
      Ok (match g_strides g with
          | None => true
          | Some l => bool_decide (l = contiguous_strides_bytes (g_shape g) it)
          end)
  end.

(** The loop over two interval lists: no pair overlaps. *)
Fixpoint sweep (ls : list interval) : list interval → bool :=
  fix inner rs :=
    match ls, rs with
    | l :: ls', r :: rs' =>
        if overlaps l r then false else if l.2 <=? r.1 then sweep ls' rs else inner rs'
    | _, _ => true
    end.

Definition shift (delta : Z) (l : list interval) : list interval := (λ r, (r.1 + delta, r.2 + delta)) <$> l.

(** [_strided_regions_disjoint] *)
Definition strided_regions_disjoint (left right : BufferRegion) (left_base right_base : Z)
    : result (option bool) :=
  ls ← region_byte_intervals left;
  rs ← region_byte_intervals right;
  match ls, rs with
  | Some ls, Some rs =>
      if negb (0 <? length ls)%nat || negb (0 <? length rs)%nat then Ok (Some true)
      else Ok (Some (sweep ls (if left_base =? right_base then rs else shift (right_base - left_base) rs)))
  | _, _ => Ok None
  end.

(** [_buffer_size_bytes] *)
Definition buffer_size_bytes (spec : BufferSpec) : result (option Z) :=
  match bs_size_bytes spec with
  | Some n => Ok (Some n)
  | None =>
      match mapM as_integral (bs_shape spec) with
      | None => Ok None
      | Some shape => it ← dtype_size_bytes (bs_dtype spec); Ok (Some (foldl Z.mul it shape))
      end
  end.

(** The part of [_regions_overlap_uncached] after the buffers are known: the same buffer, whose
    base does not matter, or two addresses of one space. *)
Definition overlap_at (left right : BufferRegion) (left_spec right_spec : BufferSpec) (left_base right_base : Z)
    : result bool :=
  lb ← region_bounds left;
  rb ← region_bounds right;
  match lb, rb with
  | Some lb, Some rb =>
      if negb (overlaps (left_base + lb.1, left_base + lb.2) (right_base + rb.1, right_base + rb.2)) then Ok false
      else
        lc ← region_is_contiguous left;
        rc ← (if lc : bool then region_is_contiguous right else Ok false);
        if rc : bool then Ok true
        else
          refined ← strided_regions_disjoint left right left_base right_base;
          Ok (match refined with Some disjoint => negb disjoint | None => true end)
  | _, _ =>
      ls ← buffer_size_bytes left_spec;
      rs ← buffer_size_bytes right_spec;
      match ls, rs with
      | Some ls, Some rs => Ok (overlaps (left_base, left_base + ls) (right_base, right_base + rs))
      | _, _ => Ok true
      end
  end.

Definition strided (name : string) (offset rows row_stride cols : Z) : BufferRegion :=
  Region name UB [VInt rows; VInt cols] "float16" (VInt offset) (Some [VInt row_stride; VInt 2]) None.
Example interval_example :
  region_byte_intervals (strided "x" 4 3 32 8) = Ok (Some [(4, 20); (36, 52); (68, 84)]) ∧
  region_byte_intervals (strided "x" 4 3 16 8) = Ok (Some [(4, 52)]) ∧
  strided_regions_disjoint (strided "x" 0 3 32 8) (strided "x" 16 3 32 8) 0 0 = Ok (Some true) ∧
  strided_regions_disjoint (strided "x" 0 3 32 8) (strided "x" 12 3 32 8) 0 0 = Ok (Some false).
Proof. repeat split; vm_compute; reflexivity. Qed.

(** ** The bytes of a region *)

(** A concrete region of a known element size, as [buffer_region_init] validates it, with at
    least one dimension. *)
Record region_wf (region : BufferRegion) (g : geometry) (it : Z) : Prop := {
  rw_concrete : concrete region = Some g;
  rw_itemsize : dtype_size_bytes (rg_dtype region) = Ok it;
  rw_positive : 0 < it;
  rw_offset : 0 <= g_offset g;
  rw_rank : g_shape g ≠ [];
  rw_shape : ∀ e, e ∈ g_shape g → 0 <= e;
  rw_strides : ∀ l, g_strides g = Some l → length l = length (g_shape g) ∧ ∀ s, s ∈ l → 0 <= s;
}.

(** The region placed at the base address of its buffer. *)
Definition view_of (base : Z) (region : BufferRegion) (g : geometry) (it : Z) : MemoryView :=
  MkView base (g_offset g) (g_shape g) (rg_dtype region) (strides_of g it).
Definition has_byte (base : Z) (region : BufferRegion) (g : geometry) (it z : Z) : Prop :=
  viewed (view_of base region g it) it z.

Lemma contiguous_strides_from shape it :
  contiguous_strides_bytes shape it = reverse (strides_from it (reverse shape)).
Proof. unfold contiguous_strides_bytes. by rewrite stride_fold. Qed.

Lemma strides_from_nonneg it l s :
  0 <= it → (∀ e, e ∈ l → 0 <= e) → s ∈ strides_from it l → 0 <= s.
Proof.
  revert it; induction l as [|e l IH]; intros it Hit Hl; cbn [strides_from]; [set_solver|].
  intros [->|Hs]%elem_of_cons; [done|]. pose proof (Hl e ltac:(by left)).
  apply (IH (it * e)); [nia|set_solver|done].
Qed.

Section region.
Context (region : BufferRegion) (g : geometry) (it : Z).
Hypothesis Hwf : region_wf region g it.

Lemma strides_of_spec : length (strides_of g it) = length (g_shape g) ∧ ∀ s, s ∈ strides_of g it → 0 <= s.
Proof.
  assert (length (contiguous_strides_bytes (g_shape g) it) = length (g_shape g) ∧
    ∀ s, s ∈ contiguous_strides_bytes (g_shape g) it → 0 <= s) as Hc.
  { rewrite contiguous_strides_from, length_reverse, length_strides_from, length_reverse. split; [done|].
    intros s Hs. rewrite elem_of_reverse in Hs. eapply strides_from_nonneg; [|clear s Hs|done].
    - pose proof (rw_positive _ _ _ Hwf). lia.
    - intros e He. rewrite elem_of_reverse in He. by eapply rw_shape. }
  unfold strides_of. destruct (g_strides g) as [[|s l]|] eqn:E; [done| |done].
  by apply (rw_strides _ _ _ Hwf).
Qed.

Lemma view_of_wf base : 0 <= base → view_wf (view_of base region g it) it.
Proof.
  intros Hb. destruct strides_of_spec as [Hlen Hs]. pose proof (rw_offset _ _ _ Hwf). split; cbn.
  - apply Hwf.
  - apply Hwf.
  - unfold view_start. cbn. lia.
  - apply Hwf.
  - done.
  - done.
Qed.

Lemma has_zero_view base : is_empty_view (view_of base region g it) = has_zero (g_shape g).
Proof. done. Qed.

Lemma reach_le_span ds o : (∀ d, d ∈ ds → 0 < d.1 ∧ 0 <= d.2) → reach ds o → 0 <= o <= span_of ds.
Proof.
  intros Hd H. induction H as [|e s ds i o Hi H IH]; [done|].
  destruct (Hd (e, s) ltac:(by left)) as [He Hs]. cbn in He, Hs.
  specialize (IH ltac:(set_solver)). change (span_of ((e, s) :: ds)) with ((e - 1) * s + span_of ds). nia.
Qed.

(** The bounds contain every byte. *)
Lemma region_bounds_spec base :
  0 <= base →
  ∃ b, region_bounds region = Ok (Some b) ∧
    (∀ z, has_byte base region g it z → base + b.1 <= z < base + b.2) ∧
    (has_zero (g_shape g) = false → b.1 < b.2 ∧
      b = (g_offset g, g_offset g + span_of (dims (view_of base region g it)) + it)).
Proof.
  intros Hb. pose proof (view_of_wf base Hb) as Hv. unfold region_bounds. rewrite (rw_concrete _ _ _ Hwf).
  destruct (has_zero (g_shape g)) eqn:Ez.
  - eexists. split; [done|]. split; [|done]. intros z Hz. by eapply empty_view_unreachable in Hz.
  - rewrite (rw_itemsize _ _ _ Hwf). ok_bind. eexists. split; [done|].
    assert (∀ d, d ∈ dims (view_of base region g it) → 0 < d.1 ∧ 0 <= d.2) as Hd.
    { intros d Hd. split; [by eapply nonempty_positive|by eapply dims_elem]. }
    split.
    + intros z (x & Hx & Hz). apply reach_le_span in Hx; [|done]. cbn [fst snd].
      unfold view_start in Hz. cbn [view_of mv_address mv_byte_offset] in Hz.
      change (span_of (zip (g_shape g) (strides_of g it))) with (span_of (dims (view_of base region g it))). lia.
    + intros _. split; [|done]. cbn [fst snd]. pose proof (span_of_nonneg _ Hd). pose proof (rw_positive _ _ _ Hwf).
      change (span_of (zip (g_shape g) (strides_of g it))) with (span_of (dims (view_of base region g it))). lia.
Qed.

(** A contiguous region fills its bounds. *)
Lemma contiguous_fills base :
  0 <= base → has_zero (g_shape g) = false → region_is_contiguous region = Ok true →
  ∀ z, has_byte base region g it z ↔
    base + g_offset g <= z < base + g_offset g + span_of (dims (view_of base region g it)) + it.
Proof.
  intros Hb Ez Hc z. pose proof (view_of_wf base Hb) as Hv. unfold region_is_contiguous in Hc.
  rewrite (rw_concrete _ _ _ Hwf), (rw_itemsize _ _ _ Hwf) in Hc. cbn [mbind outcome_bind] in Hc.
  assert (strides_of g it = contiguous_strides_bytes (g_shape g) it) as Hs.
  { unfold strides_of. destruct (g_strides g) as [[|s l]|]; [done| |done].
    injection Hc as Hc. by apply bool_decide_eq_true in Hc. }
  destruct (dense_view _ it (reverse (dims (view_of base region g it))) Hv Ez (reverse_Permutation _)) as [Hcov _].
  { unfold dims. cbn [view_of mv_shape mv_strides_bytes]. rewrite Hs. apply contiguous_dense. intros e He.
    pose proof (rw_shape _ _ _ Hwf e He). assert (e ≠ 0); [|lia]. intros ->. apply not_true_iff_false in Ez.
    apply Ez, existsb_exists. exists 0. by rewrite <- list_elem_of_In. }
  unfold has_byte. rewrite <- Hcov, covered_one. done.
Qed.

(** ** The intervals of a region *)

(** Peeling a linear index enumerates the offsets of the outer dimensions. *)
Lemma foldl_peel_reach ds r b o :
  (∀ d, d ∈ ds → 0 < d.1) →
  (foldl peel (r, b) ds).2 = b + o → 0 <= r < extents_product ds → reach ds o.
Proof.
  revert r b o; induction ds as [|[e s] ds IH]; intros r b o Hd; cbn [foldl].
  { cbn. intros Ho _. replace o with 0 by lia. constructor. }
  pose proof (Hd (e, s) ltac:(by left)) as He. cbn in He.
  change (extents_product ((e, s) :: ds)) with (e * extents_product ds).
  unfold peel at 2. cbn [fst snd]. intros Ho Hr.
  pose proof (Z.mod_pos_bound r e He). pose proof (Z.div_mod r e ltac:(lia)).
  replace o with (r mod e * s + (o - r mod e * s)) by lia. constructor; [done|].
  eapply (IH (r / e) (b + r mod e * s)); [set_solver|lia|].
  split; [apply Z.div_pos; lia|apply Z.div_lt_upper_bound; lia].
Qed.

Lemma reach_foldl_peel ds b o :
  (∀ d, d ∈ ds → 0 < d.1) → reach ds o →
  ∃ r, 0 <= r < extents_product ds ∧ (foldl peel (r, b) ds).2 = b + o.
Proof.
  intros Hd H. revert b; induction H as [|e s ds i o Hi H IH]; intros b.
  { exists 0. cbn. lia. }
  destruct (IH ltac:(set_solver) (b + i * s)) as (q & Hq & Hf). exists (q * e + i).
  change (extents_product ((e, s) :: ds)) with (e * extents_product ds). split; [nia|].
  cbn [foldl]. unfold peel at 2. cbn [fst snd].
  rewrite Z.div_add_l, Z.div_small, Z.add_0_r by lia.
  replace ((q * e + i) mod e) with i by (rewrite Z.add_comm, Z.mod_add, Z.mod_small; lia). lia.
Qed.

Lemma extents_product_reverse ds : extents_product (reverse ds) = extents_product ds.
Proof. apply extents_product_perm, reverse_Permutation. Qed.

Lemma interval_bases offset ds o :
  (∀ d, d ∈ ds → 0 < d.1) →
  (∃ r, r ∈ seqZ 0 (extents_product ds) ∧ interval_base offset ds r = offset + o) ↔ reach ds o.
Proof.
  intros Hd. assert (∀ d, d ∈ reverse ds → 0 < d.1) as Hd' by (intros d; rewrite elem_of_reverse; auto).
  unfold interval_base. rewrite <- (extents_product_reverse ds). split.
  - intros (r & Hr%elem_of_seqZ & Hf). eapply reach_perm; [apply reverse_Permutation|].
    eapply foldl_peel_reach; [done|done|lia].
  - intros Ho. apply (reach_perm _ (reverse ds)) in Ho; [|by rewrite reverse_Permutation].
    destruct (reach_foldl_peel _ offset _ Hd' Ho) as (r & Hr & Hf). exists r. split; [apply elem_of_seqZ; lia|done].
Qed.

(** The merge is the one of [memory.py] without its checks. *)
Lemma merge_interval_range rs acc ps :
  ofold merge_range rs acc = Ok ps → foldl merge_interval acc rs = ps.
Proof.
  revert acc; induction rs as [|cur rs IH]; intros acc; cbn [ofold foldl]; [by intros [= ->]|].
  intros (acc' & Ha & H)%outcome_bind_ok. rewrite <- (IH _ H). f_equal. unfold merge_range in Ha.
  unfold merge_interval, without_last. destruct (last acc) as [r|]; [|by injection Ha].
  destruct (cur.1 <=? r.2); [|by injection Ha]. unfold range_init in Ha. destruct (_ || _); [done|].
  by injection Ha as <-.
Qed.

Lemma merge_interval_nonempty rs acc :
  (∀ r, r ∈ rs → r.1 < r.2) → (∀ r, r ∈ acc → r.1 < r.2) →
  ∀ r, r ∈ foldl merge_interval acc rs → r.1 < r.2.
Proof.
  revert acc; induction rs as [|cur rs IH]; intros acc Hrs Hacc; cbn [foldl]; [done|].
  apply IH; [set_solver|]. pose proof (Hrs cur ltac:(by left)) as Hc. unfold merge_interval.
  destruct (last acc) as [x|] eqn:El; [|set_solver]. apply last_split in El.
  assert (x ∈ acc) as Hx by (rewrite El; set_solver). pose proof (Hacc x Hx).
  destruct (cur.1 <=? x.2); [|set_solver]. intros r [Hr|Hr%list_elem_of_singleton]%elem_of_app.
  - apply Hacc. rewrite El. apply elem_of_app. by left.
  - subst r. cbn. lia.
Qed.

Lemma foldl_mul_product l k : foldl Z.mul k l = k * foldr Z.mul 1 l.
Proof. revert k; induction l as [|x l IH]; intros k; cbn; [lia|]. rewrite IH. lia. Qed.
Lemma zip_extents (l k : list Z) : length l = length k → extents_product (zip l k) = foldr Z.mul 1 l.
Proof.
  revert k; induction l as [|x l IH]; intros [|y k] H; try done.
  change (extents_product (zip (x :: l) (y :: k))) with (x * extents_product (zip l k)).
  cbn [foldr]. rewrite IH by (cbn in H; lia). done.
Qed.

Lemma last_zip {A B} (l : list A) (k : list B) a b :
  length l = length k → last l = Some a → last k = Some b →
  zip l k = zip (without_last l) (without_last k) ++ [(a, b)].
Proof.
  intros Hlen Ha%last_split Hb%last_split. unfold without_last. rewrite Ha at 1. rewrite Hb at 1.
  rewrite zip_with_app; [done|]. rewrite !length_take. lia.
Qed.

(** Rows that advance by the row's stride, each covering the coalesced inner dimension. *)
Definition inner_dense (g : geometry) (it : Z) : Prop := last (strides_of g it) = Some it.
Definition expandable (g : geometry) (it : Z) : Prop :=
  has_zero (g_shape g) = false ∧ (∀ s, s ∈ strides_of g it → 0 < s) ∧
  foldr Z.mul 1 (without_last (g_shape g)) <= MAX_INTERVAL_EXPANSION.

Lemma row_bytes ds extent stride o :
  0 < extent → 0 <= stride →
  (element_byte (ds ++ [(extent, stride)]) it o → ∃ x, reach ds x ∧ x <= o < x + ((extent - 1) * stride + it)) ∧
  (stride = it → (∃ x, reach ds x ∧ x <= o < x + ((extent - 1) * stride + it)) →
    element_byte (ds ++ [(extent, stride)]) it o).
Proof.
  intros He Hs. pose proof (rw_positive _ _ _ Hwf) as Hit. assert (ds ++ [(extent, stride)] ≡ₚ (extent, stride) :: ds) as Hp
    by (by rewrite Permutation_app_comm). split.
  - intros (x & Hx & Ho). eapply reach_perm in Hx; [|exact Hp].
    apply reach_cons_inv in Hx as (i & x' & Hi & Hx & ->). exists x'. split; [done|nia].
  - intros -> (x & Hx & Ho). set (i := (o - x) / it).
    pose proof (Z.div_mod (o - x) it ltac:(lia)). pose proof (Z.mod_pos_bound (o - x) it Hit).
    assert (0 <= i < extent) by (subst i; split; [apply Z.div_pos; lia|apply Z.div_lt_upper_bound; nia]).
    exists (i * it + x). split; [|subst i; lia]. eapply reach_perm; [symmetry; exact Hp|]. by constructor.
Qed.

(** The merged rows: separated intervals that cover the rows. *)
Lemma merged_rows offset ds inner :
  0 <= offset → 0 < inner → (∀ d, d ∈ ds → 0 < d.1 ∧ 0 <= d.2) →
  let rows := (λ linear, (interval_base offset ds linear, interval_base offset ds linear + inner))
    <$> seqZ 0 (extents_product ds) in
  let ps := foldl merge_interval [] (py_sorted interval_leb rows) in
  separated ps ∧ (∀ r, r ∈ ps → r.1 < r.2) ∧
    ∀ z, covered ps z ↔ ∃ x, reach ds x ∧ x <= z - offset < x + inner.
Proof.
  intros Hoff Hin Hd rows ps. assert (∀ d, d ∈ ds → 0 < d.1) as Hds by (intros d ?; by apply Hd).
  assert (∀ z, covered rows z ↔ ∃ x, reach ds x ∧ x <= z - offset < x + inner) as Hrows.
  { intros z. unfold covered, rows. rewrite Exists_exists. split.
    - intros (r & (n & -> & Hn)%list_elem_of_fmap & Hc). unfold covers in Hc. cbn in Hc.
      exists (interval_base offset ds n - offset). split; [|lia].
      apply (interval_bases offset ds _ Hds). exists n. split; [done|lia].
    - intros (x & Hx & Hxz). apply (interval_bases offset ds _ Hds) in Hx as (n & Hn & Hf).
      eexists. split; [apply list_elem_of_fmap; by exists n|]. unfold covers. cbn. lia. }
  assert (∀ r, r ∈ rows → range_ok r ∧ r.1 < r.2) as Hok.
  { intros r (n & -> & Hn)%list_elem_of_fmap. unfold range_ok. cbn.
    assert (reach ds (interval_base offset ds n - offset)) as Hr.
    { apply (interval_bases offset ds _ Hds). exists n. split; [done|lia]. }
    apply reach_nonneg in Hr; [lia|]. intros d Hdd. by apply Hd. }
  destruct (merge_fold_ok (py_sorted interval_leb rows)) as (ps' & Hps & _ & Hsep & Hcov).
  { apply py_sorted_sorted; [apply interval_leb_total|apply interval_leb_trans]. }
  { intros r Hr%elem_of_py_sorted. by apply Hok. }
  apply merge_interval_range in Hps. unfold ps. rewrite Hps. split; [done|]. split.
  - rewrite <- Hps. apply merge_interval_nonempty; [|set_solver].
    intros r Hr%elem_of_py_sorted. by apply Hok.
  - intros z. rewrite Hcov, <- Hrows. apply covered_perm, py_sorted_perm.
Qed.

(** The dimensions, split at the last one. *)
Lemma split_dims :
  has_zero (g_shape g) = false →
  ∃ extent stride, last (g_shape g) = Some extent ∧ last (strides_of g it) = Some stride ∧
    let ds := zip (without_last (g_shape g)) (without_last (strides_of g it)) in
    zip (g_shape g) (strides_of g it) = ds ++ [(extent, stride)] ∧
    extents_product ds = foldr Z.mul 1 (without_last (g_shape g)) ∧
    0 < extent ∧ 0 <= stride ∧ ∀ d, d ∈ ds → 0 < d.1 ∧ 0 <= d.2.
Proof.
  intros Ez. destruct strides_of_spec as [Hlen Hstr]. pose proof (view_of_wf 0 ltac:(lia)) as Hv.
  assert (∀ d, d ∈ zip (g_shape g) (strides_of g it) → 0 < d.1 ∧ 0 <= d.2) as Hd.
  { intros d Hd. change (zip (g_shape g) (strides_of g it)) with (dims (view_of 0 region g it)) in Hd.
    split; [by eapply nonempty_positive|by eapply dims_elem]. }
  assert (length (without_last (g_shape g)) = length (without_last (strides_of g it))) as Hlw.
  { unfold without_last. by rewrite !length_take, Hlen. }
  destruct (last (g_shape g)) as [extent|] eqn:Ee; [|apply last_None in Ee; by destruct (rw_rank _ _ _ Hwf)].
  destruct (last (strides_of g it)) as [stride|] eqn:Es.
  2:{ apply last_None in Es. rewrite Es in Hlen. destruct (g_shape g); [by destruct (rw_rank _ _ _ Hwf)|done]. }
  pose proof (last_zip _ _ _ _ (eq_sym Hlen) Ee Es) as Hz. rewrite Hz in Hd.
  exists extent, stride. split; [done|]. split; [done|]. split; [done|].
  destruct (Hd (extent, stride) ltac:(set_solver)) as [He Hst]. split; [by apply zip_extents|].
  split_and!; try done. intros d Hin. apply Hd. set_solver.
Qed.

Lemma region_intervals_spec base :
  0 <= base → has_zero (g_shape g) = false →
  ∃ o, region_byte_intervals region = Ok o ∧ (expandable g it → is_Some o) ∧
    ∀ ps, o = Some ps → separated ps ∧ (∀ r, r ∈ ps → r.1 < r.2) ∧
      (∀ z, has_byte base region g it z → covered ps (z - base)) ∧
      (inner_dense g it → ∀ z, covered ps (z - base) → has_byte base region g it z).
Proof.
  intros Hb Ez. destruct (split_dims Ez) as (extent & stride & Ee & Es & Hz & Hprod & He & Hst & Hd).
  unfold region_byte_intervals. rewrite (rw_concrete _ _ _ Hwf), (rw_itemsize _ _ _ Hwf), Ez. ok_bind.
  cbv zeta. rewrite Ee, Es.
  pose proof (rw_positive _ _ _ Hwf) as Hit.
  destruct (existsb _ (strides_of g it)) eqn:Eneg.
  { exists None. split; [done|]. split; [|done]. intros (_ & Hpos & _).
    apply existsb_exists in Eneg as (s & Hs%list_elem_of_In & Hle). specialize (Hpos s Hs). lia. }
  rewrite foldl_mul_product, Z.mul_1_l, <- Hprod.
  destruct (Z.ltb_spec MAX_INTERVAL_EXPANSION
    (extents_product (zip (without_last (g_shape g)) (without_last (strides_of g it))))) as [Hm|_].
  { exists None. split; [done|]. split; [|done]. intros (_ & _ & Hle). rewrite Hprod in Hm. lia. }
  eexists. split; [done|]. split; [by eexists|]. intros ps [= <-].
  destruct (merged_rows (g_offset g) _ ((extent - 1) * stride + it) (rw_offset _ _ _ Hwf) ltac:(nia) Hd)
    as (Hsep & Hne & Hcov). split; [done|]. split; [done|].
  unfold has_byte, viewed, dims, view_start. cbn [view_of mv_address mv_byte_offset mv_shape mv_strides_bytes].
  rewrite Hz. split; [|intros Hdense]; intros z; rewrite Hcov;
    replace (z - base - g_offset g) with (z - (base + g_offset g)) by lia.
  - apply row_bytes; [done|done].
  - apply row_bytes; [done|done|]. unfold inner_dense in Hdense. congruence.
Qed.
End region.

(** ** Two regions *)

Lemma overlaps_spec x y : overlaps x y = true ↔ x.1 < y.2 ∧ y.1 < x.2.
Proof. unfold overlaps. rewrite andb_true_iff, !Z.ltb_lt. done. Qed.

Lemma overlap_witness x y : x.1 < x.2 → y.1 < y.2 → overlaps x y = true ↔ ∃ z, covers x z ∧ covers y z.
Proof.
  intros Hx Hy. rewrite overlaps_spec. unfold covers. split.
  - intros H. exists (Z.max x.1 y.1). lia.
  - intros (z & H). lia.
Qed.

(** The sweep answers whether two separated lists share an integer. *)
Lemma sweep_spec ls rs :
  separated ls → separated rs → (∀ r, r ∈ ls → r.1 < r.2) → (∀ r, r ∈ rs → r.1 < r.2) →
  sweep ls rs = true ↔ ∀ z, covered ls z → ¬ covered rs z.
Proof.
  unfold separated. revert rs; induction ls as [|l ls IHl]; intros rs Sl Sr Nl Nr.
  { destruct rs; (split; [intros _ z H; by inversion H|done]). }
  induction rs as [|r rs IHr]; [split; [intros _ z _ H; by inversion H|done]|].
  pose proof Sl as Sl0. pose proof Sr as Sr0.
  apply StronglySorted_inv in Sl as [Sl Fl]. apply StronglySorted_inv in Sr as [Sr Fr].
  rewrite Forall_forall in Fl, Fr. pose proof (Nl l ltac:(by left)) as Hl. pose proof (Nr r ltac:(by left)) as Hr.
  cbn [sweep]. destruct (overlaps l r) eqn:Eo.
  - split; [done|]. intros H. apply (overlap_witness l r Hl Hr) in Eo as (z & Hz & Hz').
    destruct (H z); by left.
  - assert (l.2 <= r.1 ∨ r.2 <= l.1) as Hsep.
    { apply not_true_iff_false in Eo. rewrite overlaps_spec in Eo. lia. }
    destruct (Z.leb_spec l.2 r.1) as [Hle|Hgt].
    + rewrite (IHl (r :: rs)) by (try done; set_solver). split.
      * intros H z [Hz|Hz]%covered_cons; [|by apply H]. intros Hz'.
        unfold covered in Hz'. apply Exists_exists in Hz' as (x & [->|Hx]%elem_of_cons & Hc).
        { unfold covers in *. lia. }
        specialize (Fr x Hx). cbn in Fr. unfold covers in *. lia.
      * intros H z Hz. apply H. by right.
    + assert (sweep (l :: ls) rs = true ↔ ∀ z, covered (l :: ls) z → ¬ covered rs z) as Hi
        by (apply IHr; [done|set_solver]).
      cbn [sweep] in Hi. etrans; [exact Hi|]. split.
      * intros H z Hz [Hz'|Hz']%covered_cons; [|by apply (H z)].
        unfold covered in Hz. apply Exists_exists in Hz as (x & [->|Hx]%elem_of_cons & Hc).
        { unfold covers in *. lia. }
        specialize (Fl x Hx). cbn in Fl. unfold covers in *. lia.
      * intros H z Hz Hz'. apply (H z Hz). by right.
Qed.

Lemma shift_0 l : shift 0 l = l.
Proof. unfold shift. rewrite <- (list_fmap_id l) at 2. apply list_fmap_ext. intros i [x y] _. cbn. f_equal; lia. Qed.
Lemma shift_if (a b : Z) l : (if a =? b then l else shift (b - a) l) = shift (b - a) l.
Proof. destruct (Z.eqb_spec a b) as [->|]; [|done]. by rewrite Z.sub_diag, shift_0. Qed.
Lemma covered_shift delta l z : covered (shift delta l) z ↔ covered l (z - delta).
Proof.
  unfold covered, shift. rewrite !Exists_exists. split.
  - intros (r & (x & -> & Hx)%list_elem_of_fmap & Hc). exists x. split; [done|]. unfold covers in *. cbn in Hc. lia.
  - intros (x & Hx & Hc). eexists. split; [by apply list_elem_of_fmap_2|]. unfold covers in *. cbn. lia.
Qed.
Lemma separated_shift delta l : separated l → separated (shift delta l).
Proof.
  unfold separated, shift. induction 1 as [|x l _ IH Hf]; cbn; [constructor|]. constructor; [done|].
  apply Forall_fmap. eapply Forall_impl; [exact Hf|]. intros y Hy. cbn in Hy |- *. lia.
Qed.

Section two.
Context (left right : BufferRegion) (gl gr : geometry) (il ir : Z) (lb rb : Z).
Hypotheses (Hl : region_wf left gl il) (Hr : region_wf right gr ir) (Hlb : 0 <= lb) (Hrb : 0 <= rb).

(** Some byte belongs to an element of both regions. *)
Definition share_byte : Prop := ∃ z, has_byte lb left gl il z ∧ has_byte rb right gr ir z.

(** The interval test. *)
Lemma strided_disjoint_spec :
  has_zero (g_shape gl) = false → has_zero (g_shape gr) = false →
  ∃ o, strided_regions_disjoint left right lb rb = Ok o ∧
    (expandable gl il → expandable gr ir → is_Some o) ∧
    ∀ disjoint, o = Some disjoint →
      (share_byte → disjoint = false) ∧
      (inner_dense gl il → inner_dense gr ir → disjoint = false → share_byte).
Proof.
  intros Zl Zr. unfold strided_regions_disjoint.
  destruct (region_intervals_spec left gl il Hl lb Hlb Zl) as (ol & -> & Hexl & Hsl). ok_bind.
  destruct (region_intervals_spec right gr ir Hr rb Hrb Zr) as (or & -> & Hexr & Hsr). ok_bind.
  destruct ol as [ps|]; [|exists None; split; [done|]; split; [by intros []%Hexl|done]].
  destruct or as [qs|]; [|exists None; split; [done|]; split; [by intros _ []%Hexr|done]].
  destruct (Hsl ps eq_refl) as (Sp & Np & Cp & Dp). destruct (Hsr qs eq_refl) as (Sq & Nq & Cq & Dq).
  rewrite shift_if. set (qs' := shift (rb - lb) qs).
  assert (∀ z, covered qs' z ↔ covered qs (z - (rb - lb))) as Hq by (intros; apply covered_shift).
  assert (sweep ps qs' = true ↔ ∀ z, covered ps z → ¬ covered qs' z) as Hsw.
  { apply sweep_spec; [done|by apply separated_shift|done|].
    intros r (x & -> & Hx)%list_elem_of_fmap. specialize (Nq x Hx). cbn. lia. }
  assert (∀ z, covered qs' (z - lb) ↔ covered qs (z - rb)) as Hz.
  { intros z. rewrite Hq. by replace (z - lb - (rb - lb)) with (z - rb) by lia. }
  assert (∀ d, (negb (0 <? length ps)%nat || negb (0 <? length qs)%nat = true → d = true) →
    (negb (0 <? length ps)%nat || negb (0 <? length qs)%nat = false → d = sweep ps qs') → d = sweep ps qs') as Hd.
  { intros d Ht Hf. destruct (_ || _) eqn:E; [|by apply Hf]. rewrite Ht by done. symmetry. apply Hsw.
    intros z Hzp Hzq%Hq. apply orb_true_iff in E as [E|E].
    - destruct ps; [by inversion Hzp|done].
    - destruct qs; [by inversion Hzq|done]. }
  exists (Some (sweep ps qs')). split.
  { destruct (_ || _) eqn:E; [|done]. by rewrite <- (Hd true). }
  split; [by eexists|]. intros disjoint [= <-]. split.
  - intros (z & Hzl & Hzr). apply not_true_iff_false. rewrite Hsw. intros H.
    apply (H (z - lb)); [by apply Cp|]. by apply Hz, Cq.
  - intros Il Ir Hf. apply not_true_iff_false in Hf. rewrite Hsw in Hf.
    destruct (decide (Exists (λ z, covered qs' z) (flat_map (λ r, seqZ r.1 (r.2 - r.1)) ps))) as [He|He].
    + apply Exists_exists in He as (z & Hin & Hzq). apply list_elem_of_In, in_flat_map in Hin as (r & Hrp & Hzr).
      apply list_elem_of_In, elem_of_seqZ in Hzr. exists (z + lb).
      split; [apply (Dp Il)|apply (Dq Ir), Hz]; replace (z + lb - lb) with z by lia; [|done].
      apply Exists_exists. exists r. split; [by apply list_elem_of_In|unfold covers; lia].
    + destruct Hf. intros z Hzp Hzq. apply He, Exists_exists. exists z. split; [|done].
      apply Exists_exists in Hzp as (r & Hrp & Hc). apply list_elem_of_In, in_flat_map. exists r.
      split; [by apply list_elem_of_In|]. apply list_elem_of_In, elem_of_seqZ. unfold covers in Hc. lia.
Qed.

(** When both regions are contiguous their bounding intervals are exact. *)
Lemma contiguous_share :
  has_zero (g_shape gl) = false → has_zero (g_shape gr) = false →
  region_is_contiguous left = Ok true → region_is_contiguous right = Ok true →
  ∀ bl br, region_bounds left = Ok (Some bl) → region_bounds right = Ok (Some br) →
  overlaps (lb + bl.1, lb + bl.2) (rb + br.1, rb + br.2) = true → share_byte.
Proof.
  intros Zl Zr Cl Cr bl br Bl Br Ho.
  destruct (region_bounds_spec left gl il Hl lb Hlb) as (b & E & _ & Hb). rewrite Bl in E. injection E as <-.
  destruct (region_bounds_spec right gr ir Hr rb Hrb) as (b & E & _ & Hb'). rewrite Br in E. injection E as <-.
  destruct (Hb Zl) as [Lbl Ebl]. destruct (Hb' Zr) as [Lbr Ebr].
  apply overlap_witness in Ho as (z & Hz & Hz'); [|cbn; lia|cbn; lia]. unfold covers in Hz, Hz'.
  cbn [fst snd] in Hz, Hz'. rewrite Ebl in Hz. rewrite Ebr in Hz'. cbn [fst snd] in Hz, Hz'. exists z. split.
  - apply (contiguous_fills left gl il Hl lb Hlb Zl Cl). lia.
  - apply (contiguous_fills right gr ir Hr rb Hrb Zr Cr). lia.
Qed.
End two.

(** Regions whose intervals the code computes exactly: no empty dimension, and contiguous or
    strided with a dense innermost dimension and an expansion within the limit. *)
Definition exact_pair (left right : BufferRegion) (gl gr : geometry) (il ir : Z) : Prop :=
  has_zero (g_shape gl) = false ∧ has_zero (g_shape gr) = false ∧
  ((region_is_contiguous left = Ok true ∧ region_is_contiguous right = Ok true) ∨
   (expandable gl il ∧ inner_dense gl il ∧ expandable gr ir ∧ inner_dense gr ir)).

Lemma is_contiguous_ok region g it : region_wf region g it → ∃ b, region_is_contiguous region = Ok b.
Proof.
  intros [Hc Hi _ _ _ _ _]. unfold region_is_contiguous. rewrite Hc, Hi. ok_bind. by eexists.
Qed.

Lemma zero_intervals region g it :
  region_wf region g it → has_zero (g_shape g) = true → region_byte_intervals region = Ok (Some []).
Proof. intros [Hc _ _ _ _ _ _] Hz. unfold region_byte_intervals. by rewrite Hc, Hz. Qed.

Lemma no_byte region g it b z :
  region_wf region g it → 0 <= b → has_zero (g_shape g) = true → ¬ has_byte b region g it z.
Proof. intros Hw Hb Hz. by apply empty_view_unreachable; [apply view_of_wf|]. Qed.

(** The interval test also answers when a region is empty. *)
Lemma strided_disjoint_total left right gl gr il ir lb rb :
  region_wf left gl il → region_wf right gr ir → 0 <= lb → 0 <= rb →
  ∃ o, strided_regions_disjoint left right lb rb = Ok o.
Proof.
  intros Hl Hr Hlb Hrb. unfold strided_regions_disjoint.
  assert (∀ region g it b, region_wf region g it → 0 <= b → ∃ o, region_byte_intervals region = Ok o) as H.
  { intros region g it b Hw Hb. destruct (has_zero (g_shape g)) eqn:Ez.
    - exists (Some []). by eapply zero_intervals.
    - by destruct (region_intervals_spec region g it Hw b Hb Ez) as (o & Ho & _); exists o. }
  destruct (H left gl il lb Hl Hlb) as [ol ->]. destruct (H right gr ir rb Hr Hrb) as [or ->]. ok_bind.
  destruct ol, or; [|by eexists..]. destruct (_ || _); by eexists.
Qed.

Lemma overlap_at_result left right gl gr il ir lspec rspec lb rb :
  region_wf left gl il → region_wf right gr ir → 0 <= lb → 0 <= rb →
  ∃ b, overlap_at left right lspec rspec lb rb = Ok b ∧
    (share_byte left right gl gr il ir lb rb → b = true) ∧
    (exact_pair left right gl gr il ir → b = true → share_byte left right gl gr il ir lb rb).
Proof.
  intros Hl Hr Hlb Hrb. unfold overlap_at.
  destruct (region_bounds_spec left gl il Hl lb Hlb) as (bl & Bl & Cl & _). rewrite Bl. ok_bind.
  destruct (region_bounds_spec right gr ir Hr rb Hrb) as (br & Br & Cr & _). rewrite Br. ok_bind.
  destruct (overlaps (lb + bl.1, lb + bl.2) (rb + br.1, rb + br.2)) eqn:Eo; cbn [negb].
  2:{ exists false. split; [done|]. split; [|done]. intros (z & Hz%Cl & Hz'%Cr).
      apply not_true_iff_false in Eo. destruct Eo. apply overlaps_spec. cbn. lia. }
  destruct (is_contiguous_ok left gl il Hl) as [lc Hlc]. rewrite Hlc. ok_bind.
  destruct (is_contiguous_ok right gr ir Hr) as [rc Hrc].
  assert (∃ b, (if lc then region_is_contiguous right else Ok false) = Ok b ∧
    (b = true ↔ lc = true ∧ rc = true)) as (both & -> & Hboth).
  { destruct lc; [exists rc; rewrite Hrc; by split; [|split; [|intros []]]|].
    exists false. by split; [|split; [|intros []]]. }
  ok_bind. destruct both.
  - destruct (proj1 Hboth eq_refl) as [-> ->]. exists true. split; [done|]. split; [done|].
    intros (Zl & Zr & _) _. by eapply contiguous_share.
  - destruct (strided_disjoint_total left right gl gr il ir lb rb Hl Hr Hlb Hrb) as [o Ho]. rewrite Ho. ok_bind.
    eexists. split; [done|].
    destruct (has_zero (g_shape gl)) eqn:Zl; [|destruct (has_zero (g_shape gr)) eqn:Zr].
    { split; [|intros (? & _ & _); congruence]. intros (z & Hz & _). exfalso. by apply (no_byte left gl il lb z). }
    { split; [|intros (_ & ? & _); congruence]. intros (z & _ & Hz). exfalso. by apply (no_byte right gr ir rb z). }
    destruct (strided_disjoint_spec left right gl gr il ir lb rb Hl Hr Hlb Hrb Zl Zr) as (o' & Ho' & Hex & Hs).
    rewrite Ho in Ho'. injection Ho' as <-. split.
    + intros Hsh. destruct o as [d|]; [|done]. by rewrite (proj1 (Hs d eq_refl) Hsh).
    + intros (_ & _ & [[Hc1 Hc2]|(El & Il & Er & Ir)]) Hb.
      * rewrite Hlc in Hc1. rewrite Hrc in Hc2. injection Hc1 as ->. injection Hc2 as ->. discriminate (proj2 Hboth (conj eq_refl eq_refl)).
      * destruct (Hex El Er) as [d ->]. destruct (Hs d eq_refl) as [_ H]. apply H; [done|done|]. by destruct d.
Qed.
