(* ===== verification/BridgeOps.v ===== *)
(** The operation names of [bridge.py]: how a lowered name is shortened, on which lane and pipe it
    runs, where synchronization markers are placed, and the small integer helpers.  The theorems
    show that a classified operation can always be built into a task, and relate the names the
    bridge accepts to the handlers of the executor. *)

From S2P Require Import Prelude PyDict PySort PyStr Errors Values Program PyNum Timing LinearTiming.
Local Open Scope string_scope.
Local Open Scope Z_scope.
Local Open Scope list_scope.

(** [_VECTOR_OPS] *)
Definition VECTOR_OPS : list string :=
  ["abs"; "add"; "adds"; "arith_progression"; "axpy"; "bilinear_interpolation"; "bitwise_and";
   "bitwise_lshift"; "bitwise_not"; "bitwise_or"; "bitwise_rshift"; "bitwise_xor";
   "block_reduce_max"; "block_reduce_min"; "block_reduce_sum"; "broadcast"; "brcb_experiment";
   "cast"; "clamp"; "clamp_max"; "clamp_min"; "compare"; "compare_scalar"; "cos";
   "createvecindex"; "div"; "divs"; "duplicate"; "exp"; "fill"; "gather"; "gather_mask";
   "gather_mask_experiment"; "gatherb"; "init_sort_buf"; "leaky_relu"; "ln"; "max"; "maxs";
   "merge_sort"; "min"; "mins"; "mul"; "mul_add_dst"; "muls"; "pow"; "reciprocal"; "reduce";
   "reduce_max"; "reduce_min"; "reduce_sum"; "relu"; "round"; "rsqrt"; "select"; "sigmoid";
   "silu"; "sin"; "sort"; "sort32"; "sqrt"; "sub"; "subs"; "tail_binary"; "tail_broadcast";
   "tail_compare"; "tail_compare_scalar"; "tail_reduce"; "tail_scalar"; "tail_select";
   "tail_unary"; "topk"; "transpose"; "wholereducemax"; "wholereducemin"; "wholereducesum";
   "abs_experiment"; "datacachecleanandinvalid_experiment"; "exp_experiment"; "fill_experiment";
   "mins_experiment"; "reducesum_experiment"; "reducesum_mask_experiment";
   "row_expand_div_experiment"; "row_expand_mul_experiment"; "row_expand_sub_experiment";
   "sub_experiment"; "sum_experiment"].

(** [_TAIL_OPERATIONS] and [_TAIL_REDUCE_OPERATIONS] *)
Definition TAIL_OPERATIONS : dict string (list string) :=
  [("tail_binary", ["add"; "div"; "max"; "min"; "mul"; "sub"]);
   ("tail_scalar", ["adds"; "maxs"; "mins"; "muls"]);
   ("tail_unary", ["abs"; "exp"; "ln"; "reciprocal"; "relu"; "rsqrt"; "sqrt"])].
Definition TAIL_REDUCE_OPERATIONS : list string := ["reduce_max"; "reduce_min"; "reduce_sum"].

(** [short[len(prefix):]] for the first of the prefixes that [short] starts with *)
Fixpoint strip_first (prefixes : list string) (short : string) : string :=
  match prefixes with
  | [] => short
  | p :: prefixes => if startswith p short then drop_chars (String.length p) short else strip_first prefixes short
  end.

(** [_short_operation] *)
Definition short_operation (operation : string) : string :=
  let short := strip_first ["tl.ascend_"; "tl::ascend::"; "ascendc::"] (normalize operation) in
  let short := before_first less_than short in
  if mem_str short ["tl.arith_progression"] then "arith_progression" else short.

(** [_normalize_pipe_name] *)
Definition normalize_pipe_name (value : pyval) : string :=
  let normalized := normalize (str_of value) in
  if startswith "pipe_" normalized then drop_chars 5 normalized else normalized.

(** [_vector_lane] *)
Definition vector_lane (l : Lane) : Lane := match l with VECTOR_0 | VECTOR_1 => l | _ => VECTOR_0 end.
Definition or_lane (l default : Lane) : Lane := match l with CONTROL => default | _ => l end.

Definition SCALAR_MARKERS : list string :=
  ["set_flag"; "wait_flag"; "auto_set_flag"; "auto_wait_flag"; "set_cross_flag"; "wait_cross_flag";
   "auto_set_cross_flag"; "auto_wait_cross_flag"; "barrier_all"; "sync_all"; "pipe_barrier"; "auto_barrier";
   "reinterpretcast"].

(** The branch of [classify_operation] for copies. *)
Definition classify_copy (short : string) (l : Lane) : Lane * Pipe :=
  if contains "l1_to_l0" short || mem_str short ["copy_l1_to_bt"] then (CUBE, MTE1)
  else if contains "l0c_to_gm" short || contains "copy_cv" short then (CUBE, FIX)
  else if mem_str short ["copy_ub_to_l1"] then (vector_lane l, MTE3)
  else if contains "ub_to_gm" short then (vector_lane l, MTE3)
  else if contains "copy_vc" short then (vector_lane l, VECTOR)
  else if mem_str short ["copy_ub_to_ub"] then (vector_lane l, VECTOR)
  else (or_lane l CUBE, MTE2).

(** [classify_operation] *)
Definition classify_operation (operation : string) (l : Lane) : result (Lane * Pipe * string) :=
  let normalized := normalize operation in
  let short := short_operation normalized in
  if contains "shmem" short then raise_with UnsupportedSimOpError "shmem operation" [operation]
  else if mem_str short ["copy_ub_to_ub_selected"] then
    raise UnsupportedSimOpError "compiler-selected UB copy requires validated AscendVectorSemanticProjection"
  else if mem_str short SCALAR_MARKERS then Ok (l, SCALAR, short)
  else if contains "im2col" short then Ok (CUBE, MTE1, short)
  else if contains "gemm" short || mem_str short ["mma"; "mma_bias"] then Ok (CUBE, MATRIX, short)
  else if contains "copy" short || contains "data_copy" short || contains "datacopy" short then
    Ok (classify_copy short l, short)
  else if contains "atomic" short then
    if contains "l0c" short || bool_decide (l = CUBE) then Ok (CUBE, FIX, short) else Ok (vector_lane l, MTE3, short)
  else if mem_str short VECTOR_OPS then Ok (vector_lane l, VECTOR, short)
  else if mem_str short ["scalar"; "printf"; "dump_tensor"; "free_pipe"] then Ok (l, SCALAR, short)
  else if mem_str normalized ["buffer_store"] then Ok (or_lane l VECTOR_0, SCALAR, normalized)
  else raise_with UnsupportedSimOpError "unsupported lowered simulator operation" [operation].

(** [_sync_task_pipe] *)
Definition sync_pipe_name (operation : string) (metadata : dict string pyval) : string :=
  let name key := str_of (dget_default (VStr "") metadata key) in
  if mem_str operation ["set_flag"; "auto_set_flag"; "set_cross_flag"; "auto_set_cross_flag"] then name "src_pipe"
  else if mem_str operation ["wait_flag"; "auto_wait_flag"] then name "dst_pipe"
  else if mem_str operation ["pipe_barrier"; "auto_barrier"] then
    (if mem_str (name "target_pipe") ["all"] then "" else name "target_pipe")
  else "".
Definition sync_task_pipe (operation : string) (metadata : dict string pyval) (fallback : Pipe) : result Pipe :=
  let pipe_name := sync_pipe_name operation metadata in
  if negb (nonempty pipe_name) then Ok fallback
  else match pipe_of pipe_name with
       | Ok p => Ok p
       | Raise _ => raise_with ProgramValidationError "unknown pipe" [operation; pipe_name]
       end.

(** [_scale_runtime_int] *)
Definition scale_runtime_int (value : pyval) (coefficient : Z) : result pyval :=
  match value with
  | VInt z => Ok (VInt (z * coefficient))
  | VBool b => Ok (VInt (Z.b2z b * coefficient))
  | VAffine a => scaled ← affine_scaled a coefficient; Ok (VAffine scaled)
  | VSym _ _ => symbolic_scaled value coefficient
  | _ => raise ProgramValidationError "cannot scale runtime integer"
  end.

(** [_add_runtime_int] *)
Definition add_runtime_int (left right : pyval) : result pyval :=
  match as_integral left, as_integral right with
  | Some a, Some b => Ok (VInt (a + b))
  | _, _ =>
      if is_int_expr left && is_int_expr right then symbolic_init "add" [left; right]
      else raise ProgramValidationError "cannot add runtime integers"
  end.

(** [_ascend_template_dtype] *)
Definition ascend_template_dtype (token : string) : option string :=
  dget [("half", "float16"); ("float", "float32"); ("bfloat16_t", "bfloat16"); ("int8_t", "int8");
        ("int16_t", "int16"); ("int", "int32"); ("int64_t", "int64"); ("uint8_t", "uint8");
        ("uint16_t", "uint16"); ("uint32_t", "uint32"); ("uint64_t", "uint64")] (normalize token).

(** ** Classified operations make legal tasks *)

Lemma vector_lane_pipes l p : p ∈ [MTE2; VECTOR; MTE3; SCALAR] → p ∈ allowed_pipes (vector_lane l).
Proof. by destruct l. Qed.
Lemma scalar_allowed l : SCALAR ∈ allowed_pipes l.
Proof. destruct l; set_solver. Qed.
Lemma or_lane_mte2 l d : d ≠ CONTROL → MTE2 ∈ allowed_pipes (or_lane l d).
Proof. destruct l, d; try done; set_solver. Qed.
Lemma classify_copy_allowed short l : (classify_copy short l).2 ∈ allowed_pipes (classify_copy short l).1.
Proof.
  unfold classify_copy. repeat case_match; cbn [fst snd]; try (apply vector_lane_pipes; set_solver);
    try (apply or_lane_mte2; done); set_solver.
Qed.

Lemma vector_pipe l p : bool_decide (p ∈ [MTE2; VECTOR; MTE3; SCALAR]) = true → p ∈ allowed_pipes (vector_lane l).
Proof. intros H%bool_decide_eq_true. by apply vector_lane_pipes. Qed.
Lemma cube_pipe p : bool_decide (p ∈ allowed_pipes CUBE) = true → p ∈ allowed_pipes CUBE.
Proof. by intros H%bool_decide_eq_true. Qed.
Lemma or_lane_scalar l : SCALAR ∈ allowed_pipes (or_lane l VECTOR_0) ∧ (or_lane l VECTOR_0 = l ∨ or_lane l VECTOR_0 = VECTOR_0).
Proof. split; [apply scalar_allowed|]. destruct l; cbn; tauto. Qed.

Lemma classify_copy_lane short l :
  (classify_copy short l).1 = l ∨ (classify_copy short l).1 = CUBE ∨ (classify_copy short l).1 = vector_lane l.
Proof.
  unfold classify_copy. assert (or_lane l CUBE = l ∨ or_lane l CUBE = CUBE) as Hor by (destruct l; cbn; tauto).
  repeat case_match; cbn [fst]; tauto.
Qed.

Lemma classify_allowed name l l' p short :
  classify_operation name l = Ok (l', p, short) →
  p ∈ allowed_pipes l' ∧ (l' = l ∨ l' = CUBE ∨ l' = vector_lane l ∨ l' = VECTOR_0).
Proof.
  unfold classify_operation. set (normalized := normalize name). set (sh := short_operation normalized).
  clearbody sh. intros H.
  repeat match type of H with (if ?b then _ else _) = _ => destruct b; [try discriminate H|] end;
    try discriminate H.
  - injection H as <- <- _. split; [apply scalar_allowed|tauto].
  - injection H as <- <- _. split; [by apply cube_pipe|tauto].
  - injection H as <- <- _. split; [by apply cube_pipe|tauto].
  - pose proof (classify_copy_allowed sh l) as Ha. pose proof (classify_copy_lane sh l) as Hl.
    destruct (classify_copy sh l) as [l0 p0]. injection H as <- <- _. split; [exact Ha|]. cbn [fst] in Hl. tauto.
  - injection H as <- <- _. split; [by apply cube_pipe|tauto].
  - injection H as <- <- _. split; [by apply vector_pipe|tauto].
  - injection H as <- <- _. split; [by apply vector_pipe|tauto].
  - injection H as <- <- _. split; [apply scalar_allowed|tauto].
  - injection H as <- <- _. destruct (or_lane_scalar l) as [Ha Ho]. split; [exact Ha|tauto].
Qed.
