(* ===== verification/BridgeMemory.v ===== *)
(** Dependency inference of [bridge.py]: the access histories of the tasks emitted so far, the
    aliases that are active, the two caches, and the emission of one task with the edges that its
    memory accesses need. *)

From stdpp Require Import pretty.
From S2P Require Import Prelude PyDict PySort PyStr Errors Values Program Intervals MemoryView RegionOverlap.
From S2P Require Import PyNum Timing ExecEnv LinearTiming MeasuredA2 BridgeOps.
Local Open Scope string_scope.
Local Open Scope Z_scope.
Local Open Scope list_scope.

(** ** State *)

(** The bucket of a history: lane, scope, owning core and buffer. *)
Abbreviation history_key := (Lane * MemoryScope * Z * string)%type.
Record access := MkAccess {
  ac_region : BufferRegion;
  ac_task : string;
  ac_lane : Lane;
  ac_core : Z;
}.
Abbreviation history := (dict history_key (list access)).
(** [id(history)] in the key of the candidate cache *)
Inductive which := LastWrites | LastReads.
#[global] Instance which_eq_dec : EqDecision which.
Proof. solve_decision. Defined.
Abbreviation candidate_key := (which * Lane * MemoryScope * Z * string * bool)%type.
Abbreviation overlap_key := (BufferRegion * BufferRegion * Z)%type.
Abbreviation alias_key := (MemoryScope * option Z * string)%type.

(** The attributes of [_TirBridge] that emission reads and writes. *)
Record BridgeState := MkBridge {
  br_buffers : dict string BufferSpec;
  br_aliases : dict alias_key string;
  br_writes : history;
  br_reads : history;
  br_overlaps : dict overlap_key bool;
  br_candidates : dict candidate_key (list history_key);
  br_tasks : dict Z (list Task);
  br_counter : Z;
}.
Abbreviation bridgeM := (stM BridgeState exn).

Definition history_of (w : which) (st : BridgeState) : history :=
  match w with LastWrites => br_writes st | LastReads => br_reads st end.
Definition set_history (w : which) (h : history) (st : BridgeState) : BridgeState :=
  match w with
  | LastWrites => MkBridge (br_buffers st) (br_aliases st) h (br_reads st) (br_overlaps st)
                    (br_candidates st) (br_tasks st) (br_counter st)
  | LastReads => MkBridge (br_buffers st) (br_aliases st) (br_writes st) h (br_overlaps st)
                   (br_candidates st) (br_tasks st) (br_counter st)
  end.
Definition set_overlaps (c : dict overlap_key bool) (st : BridgeState) : BridgeState :=
  MkBridge (br_buffers st) (br_aliases st) (br_writes st) (br_reads st) c (br_candidates st) (br_tasks st)
    (br_counter st).
Definition set_candidates (c : dict candidate_key (list history_key)) (st : BridgeState) : BridgeState :=
  MkBridge (br_buffers st) (br_aliases st) (br_writes st) (br_reads st) (br_overlaps st) c (br_tasks st)
    (br_counter st).
Definition set_buffers (b : dict string BufferSpec) (st : BridgeState) : BridgeState :=
  MkBridge b (br_aliases st) (br_writes st) (br_reads st) (br_overlaps st) (br_candidates st) (br_tasks st)
    (br_counter st).

(** ** Buffers and aliases *)

Definition shared_scope (s : MemoryScope) : bool := match s with GM | WORKSPACE => true | _ => false end.
(** [region.core_id if region.core_id is not None else core_id] *)
Definition owner_of (region : BufferRegion) (core : Z) : Z := default core (rg_core_id region).

(** [_resolve_active_alias_name]: the loop stops at a name it has seen or that has no alias. *)
Fixpoint follow_alias (fuel : nat) (aliases : dict alias_key string) (scope : MemoryScope) (owner : option Z)
    (seen : list string) (current : string) : string :=
  if mem_str current seen then current
  else match fuel with
  | O => current
  | S fuel =>
      match dget aliases (scope, owner, current) with
      | None => current
      | Some target => follow_alias fuel aliases scope owner (current :: seen) target
      end
  end.
Definition resolve_active_alias_name (aliases : dict alias_key string) (scope : MemoryScope) (owner : option Z)
    (current : string) : string :=
  follow_alias (S (length aliases)) aliases scope owner [] current.

Definition alias_owner (scope : MemoryScope) (owner : Z) : option Z :=
  if shared_scope scope then None else Some owner.
(** [_resolve_active_alias] *)
Definition resolve_active_alias (st : BridgeState) (region : BufferRegion) (owner : Z) : string :=
  resolve_active_alias_name (br_aliases st) (rg_scope region) (alias_owner (rg_scope region) owner) (rg_buffer region).

(** [self.buffers[name]] *)
Definition buffer_named (st : BridgeState) (name : string) : result BufferSpec :=
  match dget (br_buffers st) name with Some spec => Ok spec | None => raise_with KeyError "buffers" [name] end.

(** [_regions_overlap_uncached] *)
Definition regions_overlap_uncached (st : BridgeState) (left right : BufferRegion) (core : Z) : result bool :=
  if negb (bool_decide (rg_scope left = rg_scope right)) then Ok false
  else if negb (shared_scope (rg_scope left)) && negb (owner_of left core =? owner_of right core) then Ok false
  else
    let left_buffer := resolve_active_alias st left (owner_of left core) in
    let right_buffer := resolve_active_alias st right (owner_of right core) in
    left_spec ← buffer_named st left_buffer;
    right_spec ← buffer_named st right_buffer;
    if bool_decide (left_buffer = right_buffer) then overlap_at left right left_spec right_spec 0 0
    else match bs_address left_spec, bs_address right_spec with
         | Some left_base, Some right_base => overlap_at left right left_spec right_spec left_base right_base
         | _, _ => Ok false
         end.

Definition OVERLAP_CACHE_LIMIT : Z := 131072.

(** [_regions_overlap] *)
Definition regions_overlap (left right : BufferRegion) (core : Z) : bridgeM bool :=
  st ← st_get;
  match dget (br_overlaps st) (left, right, core) with
  | Some cached => mret cached
  | None =>
      answer ← st_lift (regions_overlap_uncached st left right core);
      let cache := if Z.of_nat (length (br_overlaps st)) <? OVERLAP_CACHE_LIMIT then br_overlaps st else [] in
      _ ← st_put (set_overlaps (dset cache (left, right, core) answer) st);
      mret answer
  end.

(** ** Histories *)

(** [_memory_history_key] *)
Definition memory_history_key (region : BufferRegion) (l : Lane) (core : Z) : history_key :=
  (l, rg_scope region, owner_of region core, rg_buffer region).

(** [_memory_history_key_may_overlap] *)
Definition memory_history_key_may_overlap (st : BridgeState) (region : BufferRegion) (key : history_key) (core : Z)
    : result bool :=
  let '(_, scope, previous_owner, previous_buffer) := key in
  let owner := owner_of region core in
  if negb (shared_scope scope) && negb (owner =? previous_owner) then Ok false
  else
    let left_buffer := resolve_active_alias st region owner in
    let right_buffer :=
      resolve_active_alias_name (br_aliases st) scope (alias_owner scope previous_owner) previous_buffer in
    if bool_decide (left_buffer = right_buffer) then Ok true
    else
      left ← buffer_named st left_buffer;
      right ← buffer_named st right_buffer;
      left_size ← buffer_size_bytes left;
      right_size ← buffer_size_bytes right;
      Ok (match bs_address left, bs_address right, left_size, right_size with
          | Some la, Some ra, Some ls, Some rs => overlaps (la, la + ls) (ra, ra + rs)
          | _, _, _, _ => false
          end).

(** The elements for which a test that can raise holds. *)
Definition ofilter {A} (f : A → result bool) : list A → result (list A) :=
  fix go l :=
    match l with
    | [] => Ok []
    | a :: l => b ← f a; l ← go l; Ok (if b : bool then a :: l else l)
    end.
Definition st_filter {A} (f : A → bridgeM bool) : list A → bridgeM (list A) :=
  fix go l :=
    match l with
    | [] => mret []
    | a :: l => b ← f a; l ← go l; mret (if b : bool then a :: l else l)
    end.

(** The condition both key searches share. *)
Definition key_matches (st : BridgeState) (region : BufferRegion) (l : Lane) (core : Z) (cross : bool)
    (key : history_key) : result bool :=
  let '(key_lane, key_scope, key_owner, _) := key in
  if bool_decide (key_lane = l) && bool_decide (key_scope = rg_scope region)
     && (cross || (key_owner =? owner_of region core))
  then memory_history_key_may_overlap st region key core else Ok false.

(** [_memory_history_keys]: the keys of both histories *)
Definition memory_history_keys (st : BridgeState) (region : BufferRegion) (l : Lane) (core : Z) (include_cross : bool)
    : result (list history_key) :=
  ofilter (key_matches st region l core (include_cross && shared_scope (rg_scope region)))
    (fromkeys (dkeys (br_writes st) ++ dkeys (br_reads st))).

(** [_memory_history_candidate_keys] *)
Definition memory_history_candidate_keys (w : which) (region : BufferRegion) (l : Lane) (core : Z)
    (include_cross : bool) : bridgeM (list history_key) :=
  st ← st_get;
  let cross := include_cross && shared_scope (rg_scope region) in
  let key := (w, l, rg_scope region, owner_of region core, rg_buffer region, cross) in
  match dget (br_candidates st) key with
  | Some cached => mret cached
  | None =>
      candidates ← st_lift (ofilter (key_matches st region l core cross) (dkeys (history_of w st)));
      _ ← st_put (set_candidates (dset (br_candidates st) key candidates) st);
      mret candidates
  end.

(** [_memory_history_candidates] *)
Definition memory_history_candidates (w : which) (region : BufferRegion) (l : Lane) (core : Z)
    (include_cross : bool) : bridgeM (list access) :=
  keys ← memory_history_candidate_keys w region l core include_cross;
  st ← st_get;
  mret (flat_map (λ key, dget_default [] (history_of w st) key) keys).

(** [_append_memory_history] *)
Definition append_memory_history (w : which) (region : BufferRegion) (id : string) (l : Lane) (core : Z)
    : bridgeM unit :=
  st ← st_get;
  let key := memory_history_key region l core in
  let st := if dmem (history_of w st) key then st else set_candidates [] st in
  let h := history_of w st in
  st_put (set_history w (dset h key (dget_default [] h key ++ [MkAccess region id l core])) st).

(** ** The regions a task names *)

Definition READ_NAMES : list string :=
  ["src_regions"; "src"; "lhs"; "rhs"; "mask"; "accumulator"; "scalar_src"; "offsets"; "bias"].
Definition WRITE_NAMES : list string := ["dst"; "dst_regions"; "pad_dst"; "scratch"; "output_scratch"].

(** [_operand_regions] *)
Definition operand_regions (metadata : dict string pyval) (names : list string) : list BufferRegion :=
  let has_source_regions := bool_decide (is_Some (as_sequence (mget metadata "src_regions"))) in
  flat_map (λ name,
    if bool_decide (name = "src") && has_source_regions then []
    else match mget metadata name with
         | VRegion r => [r]
         | VTuple l | VList l => omap as_region l
         | _ => []
         end) names.
Definition reads_of (metadata : dict string pyval) : list BufferRegion := operand_regions metadata READ_NAMES.
Definition writes_of (metadata : dict string pyval) : list BufferRegion := operand_regions metadata WRITE_NAMES.

(** [_same_on_chip_owner] *)
Definition same_on_chip_owner (region : BufferRegion) (core previous_core : Z) : bool :=
  if shared_scope (rg_scope region) then core =? previous_core else true.

(** [tuple(sorted(set(...)))] *)
Definition sorted_set (l : list string) : list string := py_sorted str_leb (fromkeys l).

(** ** Dependencies *)

(** The condition of one candidate entry; [distinct] asks for another buffer name, as the alias
    edges do. *)
Definition depends_on_entry (distinct : bool) (region : BufferRegion) (l : Lane) (core : Z) (keep_cross : bool)
    (e : access) : bridgeM bool :=
  if distinct && bool_decide (rg_buffer (ac_region e) = rg_buffer region) then mret false
  else if negb (bool_decide (ac_lane e = l)) then mret false
  else
    overlap ← regions_overlap region (ac_region e) core;
    mret (overlap && (keep_cross || same_on_chip_owner region core (ac_core e))).

(** The tasks among some entries that [region] depends on. *)
Definition depends_on_entries (distinct : bool) (region : BufferRegion) (l : Lane) (core : Z) (keep_cross : bool)
    (entries : list access) : bridgeM (list string) :=
  found ← st_filter (depends_on_entry distinct region l core keep_cross) entries;
  mret (ac_task <$> found).

Definition keeps_cross_core (operation : string) : bool := contains "atomic_add" operation.

(** [_memory_dependencies] *)
Definition memory_dependencies (metadata : dict string pyval) (core : Z) (l : Lane) (operation : string)
    : bridgeM (list string) :=
  let keep := keeps_cross_core operation in
  from_reads ← st_map (λ region,
      entries ← memory_history_candidates LastWrites region l core keep;
      depends_on_entries false region l core keep entries) (reads_of metadata);
  from_writes ← st_map (λ region,
      written ← memory_history_candidates LastWrites region l core keep;
      read ← memory_history_candidates LastReads region l core keep;
      depends_on_entries false region l core keep (written ++ read)) (writes_of metadata);
  mret (sorted_set (concat from_reads ++ concat from_writes)).

(** [_alias_memory_dependencies] *)
Definition alias_memory_dependencies (metadata : dict string pyval) (core : Z) (l : Lane) (operation : string)
    : bridgeM (list string) :=
  let keep := keeps_cross_core operation in
  let through w region :=
    entries ← memory_history_candidates w region l core keep;
    depends_on_entries true region l core keep entries in
  from_reads ← st_map (through LastWrites) (reads_of metadata);
  from_writes ← st_map (λ region,
      written ← through LastWrites region; read ← through LastReads region; mret (written ++ read))
    (writes_of metadata);
  mret (sorted_set (concat from_reads ++ concat from_writes)).

(** ** Recording the accesses of a task *)

(** Dropping the entries of one bucket that a written region overlaps. *)
Definition prune_bucket (w : which) (region : BufferRegion) (core : Z) (key : history_key) : bridgeM unit :=
  st ← st_get;
  match dget_default [] (history_of w st) key with
  | [] => mret tt
  | entries =>
      kept ← st_filter (λ e, overlap ← regions_overlap region (ac_region e) core; mret (negb overlap)) entries;
      st ← st_get;
      st_put (set_history w (dset (history_of w st) key kept) st)
  end.
Definition prune_history (w : which) (region : BufferRegion) (l : Lane) (core : Z) : bridgeM unit :=
  st ← st_get;
  keys ← st_lift (memory_history_keys st region l core true);
  st_iter (prune_bucket w region core) keys.
Definition record_write (id : string) (l : Lane) (core : Z) (region : BufferRegion) : bridgeM unit :=
  _ ← prune_history LastWrites region l core;
  _ ← prune_history LastReads region l core;
  append_memory_history LastWrites region id l core.

(** [_record_memory_accesses] *)
Definition record_memory_accesses (metadata : dict string pyval) (id : string) (l : Lane) (core : Z) : bridgeM unit :=
  _ ← st_iter (record_write id l core) (writes_of metadata);
  st_iter (λ region, append_memory_history LastReads region id l core) (reads_of metadata).

(** ** Buffers that change while tasks are emitted *)

(** [_reserve_layout_capacity] *)
Definition reserve_layout_capacity (name : string) (required_bytes : Z) (layout : string) : bridgeM unit :=
  st ← st_get;
  spec ← st_lift (buffer_named st name);
  current ← st_lift (buffer_size_bytes spec);
  match current with
  | None => mret tt
  | Some current =>
      if required_bytes <=? current then mret tt
      else if negb (truthy (mget (bs_metadata spec) "planned_address")) then mret tt
      else
        capacity ← st_lift (int_of (dget_default (VInt 0) (bs_metadata spec) "layout_capacity"));
        let meta := dset (dset (bs_metadata spec) "layout_capacity" (VInt (Z.max capacity required_bytes)))
                      "layout_capacity_layout" (VStr layout) in
        let spec := MkBufferSpec (bs_name spec) (bs_scope spec) (bs_shape spec) (bs_dtype spec)
                      (Some required_bytes) (bs_address spec) (bs_lifetime spec) meta in
        st_put (set_buffers (dset (br_buffers st) name spec) st)
  end.

(** The end of [_emit_call] for a [reinterpretcast]: its alias becomes active, and both caches
    are dropped. *)
Definition activate_alias (metadata : dict string pyval) : bridgeM unit :=
  match as_region (mget metadata "dst"), as_region (mget metadata "src") with
  | Some destination, Some source =>
      st ← st_get;
      let aliases := dset (br_aliases st) (rg_scope destination, rg_core_id destination, rg_buffer destination)
                       (rg_buffer source) in
      st_put (MkBridge (br_buffers st) aliases (br_writes st) (br_reads st) [] [] (br_tasks st) (br_counter st))
  | _, _ => mret tt
  end.

(** ** Emitting a task *)

(** [_Context], as far as emission reads it. *)
Record Context := MkContext {
  cx_core_id : Z;
  cx_lane : Lane;
  cx_predicates : list pyval;
}.

Definition profile_calibration (p : MeasuredWithFallback + TimingProfile) : string :=
  match p with inl m => tp_calibration (mp_profile (wf_measured m)) | inr p => tp_calibration p end.

(** The duration, and the metadata with the source of the estimate when the profile names one. *)
Definition estimated (p : MeasuredWithFallback + TimingProfile) (timing_key : string) (pi : Pipe)
    (metadata : dict string pyval) : result (Z * dict string pyval) :=
  match p with
  | inl m =>
      '(duration, source) ← fallback_with_source m timing_key (pipe_value pi) metadata;
      Ok (duration, dset metadata "timing_source" (VStr source))
  | inr p => duration ← estimate_task p timing_key (pipe_value pi) metadata; Ok (duration, metadata)
  end.

(** Lane, pipe and operation of the emitted task. *)
Definition placed (operation : string) (cx : Context) (metadata : dict string pyval) : result (Lane * Pipe * string) :=
  '(l, pi, normalized) ← classify_operation operation (cx_lane cx);
  pi ← (if bool_decide (l = CONTROL) then Ok pi else sync_task_pipe normalized metadata pi);
  Ok (l, if mem_str normalized ["buffer_store"] && truthy (mget metadata "scalar_store") then SCALAR else pi, normalized).

(** The metadata before the dependencies are known. *)
Definition initial_metadata (p : MeasuredWithFallback + TimingProfile) (cx : Context) (l : Lane) (normalized : string)
    (metadata : dict string pyval) : dict string pyval :=
  let scope := match l with CUBE => "aic" | VECTOR_0 | VECTOR_1 => "aiv" | CONTROL => "mix" end in
  let metadata := if mem_str normalized ["sync_all"] then dsetdefault metadata "sync_scope" (VStr scope) else metadata in
  let metadata := match cx_predicates cx with
                  | [] => metadata
                  | predicates => dset metadata "dynamic_predicates" (VTuple predicates)
                  end in
  let timing_key := str_of (dget_default (VStr normalized) metadata "timing_key") in
  dsetdefault (dsetdefault metadata "timing_key" (VStr timing_key)) "timing_calibration" (VStr (profile_calibration p)).

Definition task_ids (l : list string) : pyval := VTuple (VStr <$> l).
Definition set_if_any (key : string) (ids : list string) (metadata : dict string pyval) : dict string pyval :=
  match ids with [] => metadata | _ => dset metadata key (task_ids ids) end.

Definition next_task_id (cx : Context) (l : Lane) : bridgeM string :=
  st ← st_get;
  _ ← st_put (MkBridge (br_buffers st) (br_aliases st) (br_writes st) (br_reads st) (br_overlaps st)
                (br_candidates st) (br_tasks st) (br_counter st + 1));
  mret ("c" +:+ pretty (cx_core_id cx) +:+ "-" +:+ lane_value l +:+ "-" +:+ pretty (br_counter st)).

Definition append_task (core : Z) (t : Task) : bridgeM unit :=
  st ← st_get;
  st_put (MkBridge (br_buffers st) (br_aliases st) (br_writes st) (br_reads st) (br_overlaps st) (br_candidates st)
            (dset (br_tasks st) core (dget_default [] (br_tasks st) core ++ [t])) (br_counter st)).

(** [_emit_task] *)
Definition emit_task (p : MeasuredWithFallback + TimingProfile) (operation : string) (cx : Context)
    (md : dict string pyval) (extra_dependencies : list string) : bridgeM Task :=
  '(l, pi, normalized) ← st_lift (placed operation cx md);
  id ← next_task_id cx l;
  let meta := initial_metadata p cx l normalized md in
  let timing_key := str_of (mget meta "timing_key") in
  memory ← memory_dependencies meta (cx_core_id cx) (cx_lane cx) normalized;
  let meta := set_if_any "memory_dependencies" memory meta in
  aliased ← alias_memory_dependencies meta (cx_core_id cx) (cx_lane cx) normalized;
  let meta := set_if_any "alias_memory_dependencies" aliased meta in
  let hardware := extra_dependencies ++ (if keeps_cross_core normalized then memory else []) in
  let meta := set_if_any "hardware_dependencies" (sorted_set hardware) meta in
  '(duration, meta) ← st_lift (estimated p timing_key pi meta);
  t ← st_lift (task_init id normalized (cx_core_id cx) (lane_value l) (pipe_value pi) duration
                 (sorted_set (memory ++ extra_dependencies)) None meta);
  _ ← append_task (cx_core_id cx) t;
  _ ← record_memory_accesses (metadata t) id (cx_lane cx) (cx_core_id cx);
  mret t.
(** ** A small kernel *)

Definition tile (name : string) (offset n : Z) : BufferRegion :=
  Region name UB [VInt n] "float32" (VInt offset) None (Some 0).
Definition ub_spec (name : string) (n : Z) (address : option Z) : BufferSpec :=
  MkBufferSpec name UB [VInt n] "float32" None address None [].
Definition new_bridge (buffers : list BufferSpec) : BridgeState :=
  MkBridge ((λ b, (bs_name b, b)) <$> buffers) [] [] [] [] [] [] 0.
Definition unit_profile : MeasuredWithFallback + TimingProfile := inr (MkProfile "A2" [] 1 "c" "fixed").
Definition vector_context : Context := MkContext 0 VECTOR_0 [].
(** Emitting tasks in order: the context, the lowered name and the metadata of each. *)
Abbreviation request := (Context * string * dict string pyval)%type.
Definition emit_all (p : MeasuredWithFallback + TimingProfile) (requests : list request) : bridgeM (list Task) :=
  st_map (λ '(cx, name, md), emit_task p name cx md []) requests.
