(* ===== verification/BridgeCache.v ===== *)
(** The caches of dependency inference are transparent: as long as buffers and aliases stay as
    they are, or the caches are dropped with the alias, every answer is the one a search without
    caches gives. *)

From S2P Require Import Prelude PyDict PySort PyStr Errors Values Program Intervals MemoryView RegionOverlap.
From S2P Require Import PyNum Timing ExecEnv LinearTiming MeasuredA2 BridgeOps BridgeMemory.
Local Open Scope string_scope.
Local Open Scope Z_scope.
Local Open Scope list_scope.

(** ** What the caches hold *)

(** Buffers and aliases decide every overlap. *)
Definition same_plan (st st' : BridgeState) : Prop :=
  br_buffers st' = br_buffers st ∧ br_aliases st' = br_aliases st.
(** Only the caches differ. *)
Record cache_only (st st' : BridgeState) : Prop := {
  co_plan : same_plan st st';
  co_writes : br_writes st' = br_writes st;
  co_reads : br_reads st' = br_reads st;
  co_tasks : br_tasks st' = br_tasks st;
  co_counter : br_counter st' = br_counter st;
}.

#[export] Instance same_plan_preorder : PreOrder same_plan.
Proof. split; [done|]. intros x y z [] []. split; congruence. Qed.
#[export] Instance cache_only_preorder : PreOrder cache_only.
Proof. split; [done|]. intros x y z [] []. split; [by etrans|congruence..]. Qed.

Lemma co_history w st st' : cache_only st st' → history_of w st' = history_of w st.
Proof. intros []. by destruct w. Qed.

(** Two states with the same buffers, aliases and histories. *)
Definition quiet (st st' : BridgeState) : Prop :=
  same_plan st st' ∧ ∀ w, history_of w st' = history_of w st.
Lemma cache_only_quiet st st' : cache_only st st' → quiet st st'.
Proof. intros H. split; [apply H|]. intros w. by apply co_history. Qed.
#[export] Instance quiet_preorder : PreOrder quiet.
Proof.
  split; [done|]. intros x y z [P1 H1] [P2 H2]. split; [by etrans|]. intros w. by rewrite H2.
Qed.

Lemma alias_plan st st' region owner :
  same_plan st st' → resolve_active_alias st' region owner = resolve_active_alias st region owner.
Proof. intros [_ Ha]. unfold resolve_active_alias. by rewrite Ha. Qed.
Lemma buffer_plan st st' name : same_plan st st' → buffer_named st' name = buffer_named st name.
Proof. intros [Hb _]. unfold buffer_named. by rewrite Hb. Qed.
Lemma overlap_plan st st' l r core :
  same_plan st st' → regions_overlap_uncached st' l r core = regions_overlap_uncached st l r core.
Proof.
  intros H. unfold regions_overlap_uncached. rewrite !(alias_plan st st') by done.
  by rewrite !(buffer_plan st st') by done.
Qed.
Lemma may_overlap_plan st st' region key core :
  same_plan st st' →
  memory_history_key_may_overlap st' region key core = memory_history_key_may_overlap st region key core.
Proof.
  intros H. unfold memory_history_key_may_overlap. destruct key as [[[? ?] ?] ?]. rewrite (alias_plan st st') by done.
  destruct H as [Hb Ha]. unfold buffer_named. by rewrite Ha, Hb.
Qed.
Lemma matches_plan st st' region l core cross key :
  same_plan st st' → key_matches st' region l core cross key = key_matches st region l core cross key.
Proof.
  intros H. unfold key_matches. destruct key as [[[? ?] ?] ?]. by rewrite (may_overlap_plan st st') by done.
Qed.

Lemma ofilter_ext {A} (f g : A → result bool) l : (∀ a, a ∈ l → f a = g a) → ofilter f l = ofilter g l.
Proof.
  induction l as [|a l IH]; intros H; cbn; [done|]. rewrite H by (by left). rewrite IH; [done|].
  intros x Hx. apply H. by right.
Qed.
Lemma ofilter_ok {A} (f : A → result bool) l l' :
  ofilter f l = Ok l' → ∀ a, a ∈ l → (f a = Ok true ∧ a ∈ l') ∨ f a = Ok false.
Proof.
  revert l'; induction l as [|x l IH]; intros l'; cbn; [set_solver|].
  intros (b & Hb & H)%outcome_bind_ok. apply outcome_bind_ok in H as (l1 & Hl & [= <-]).
  intros a [->|Ha]%elem_of_cons; [destruct b; [left; split; [done|by left]|by right]|].
  destruct (IH _ Hl a Ha) as [[Hf Hin]|Hf]; [left|by right]. split; [done|]. destruct b; [by right|done].
Qed.
Lemma ofilter_elem {A} (f : A → result bool) l l' :
  ofilter f l = Ok l' → ∀ a, a ∈ l' ↔ a ∈ l ∧ f a = Ok true.
Proof.
  revert l'; induction l as [|x l IH]; intros l'; cbn; [intros [= <-]; set_solver|].
  intros (b & Hb & H)%outcome_bind_ok. apply outcome_bind_ok in H as (l1 & Hl & [= <-]). intros a.
  specialize (IH _ Hl a). destruct b; rewrite !elem_of_cons; split.
  - intros [->|Ha]; [split; [by left|done]|]. apply IH in Ha as []. split; [by right|done].
  - intros [[->|Ha] Hf]; [by left|right; by apply IH].
  - intros Ha%IH. destruct Ha. split; [by right|done].
  - intros [[->|Ha] Hf]; [congruence|by apply IH].
Qed.

(** The test a bucket must pass depends on the region only through the key of the cache. *)
Lemma matches_key st region region' l core core' cross key :
  rg_scope region' = rg_scope region → owner_of region' core' = owner_of region core →
  rg_buffer region' = rg_buffer region →
  key_matches st region' l core' cross key = key_matches st region l core cross key.
Proof.
  intros Hs Ho Hb. unfold key_matches, memory_history_key_may_overlap, resolve_active_alias.
  destruct key as [[[? ?] ?] ?]. by rewrite Hs, Ho, Hb.
Qed.

Record consistent (st : BridgeState) : Prop := {
  cs_overlaps : ∀ l r core b, dget (br_overlaps st) (l, r, core) = Some b →
    regions_overlap_uncached st l r core = Ok b;
  cs_candidates : ∀ w l region core cross keys,
    dget (br_candidates st) (w, l, rg_scope region, owner_of region core, rg_buffer region, cross) = Some keys →
    ofilter (key_matches st region l core cross) (dkeys (history_of w st)) = Ok keys;
}.

Lemma consistent_no_cache st : br_overlaps st = [] → br_candidates st = [] → consistent st.
Proof. intros Ho Hc. split; intros *; rewrite ?Ho, ?Hc; done. Qed.

(** ** Searches *)

(** The program changes nothing but the caches and answers [g], which does not see them. *)
Definition answers {A} (m : bridgeM A) (g : BridgeState → result A) : Prop :=
  (∀ st st', quiet st st' → g st' = g st) ∧
  ∀ st, consistent st → consistent (m st).1 ∧ cache_only st (m st).1 ∧ (m st).2 = g st.

Lemma answers_ret {A} (a : A) : answers (mret a) (λ _, Ok a).
Proof. split; [done|]. by intros st H. Qed.

Lemma answers_bind {A B} (m : bridgeM A) (f : A → bridgeM B) g h :
  answers m g → (∀ a, answers (f a) (h a)) → answers (m ≫= f) (λ st, a ← g st; h a st).
Proof.
  intros [Gm Hm] Hf. split.
  - intros st st' H. rewrite (Gm st st' H). destruct (g st) as [a|e]; [|done]. cbn. by apply (Hf a).
  - intros st Hc. destruct (Hm st Hc) as (C1 & O1 & A1). unfold mbind, stM_bind.
    destruct (m st) as [st1 [a|e]]; cbn [fst snd] in *; rewrite <- A1; [|done]. cbn.
    destruct (proj2 (Hf a) st1 C1) as (C2 & O2 & A2). split; [done|]. split; [by etrans|].
    rewrite A2. by apply (Hf a), cache_only_quiet.
Qed.

Lemma answers_map {A B} (f : A → bridgeM B) (g : A → BridgeState → result B) l :
  (∀ a, answers (f a) (g a)) → answers (st_map f l) (λ st, omap_list (λ a, g a st) l).
Proof.
  intros Hf. induction l as [|a l IH]; [apply answers_ret|]. cbn [st_map omap_list].
  apply answers_bind; [apply Hf|]. intros b. apply answers_bind; [apply IH|]. intros bs. apply answers_ret.
Qed.

Lemma answers_filter {A} (f : A → bridgeM bool) (g : A → BridgeState → result bool) l :
  (∀ a, answers (f a) (g a)) → answers (st_filter f l) (λ st, ofilter (λ a, g a st) l).
Proof.
  intros Hf. induction l as [|a l IH]; [apply answers_ret|]. cbn [st_filter ofilter].
  apply answers_bind; [apply Hf|]. intros b. apply answers_bind; [apply IH|]. intros bs. apply answers_ret.
Qed.

Lemma consistent_put_overlap st l r core b cache :
  consistent st → regions_overlap_uncached st l r core = Ok b →
  (∀ k v, dget cache k = Some v → dget (br_overlaps st) k = Some v) →
  consistent (set_overlaps (dset cache (l, r, core) b) st).
Proof.
  intros [Ho Hc] Hu Hcache. split.
  - intros l' r' core' b'. cbn [set_overlaps br_overlaps].
    assert (∀ x y z, regions_overlap_uncached (set_overlaps (dset cache (l, r, core) b) st) x y z =
      regions_overlap_uncached st x y z) as E by done.
    rewrite E. destruct (decide ((l, r, core) = (l', r', core'))) as [[= -> -> ->]|Hne].
    + rewrite dget_dset_eq. by intros [= <-].
    + rewrite dget_dset_ne by done. intros H%Hcache. by apply Ho.
  - intros w l' region core' cross keys H. exact (Hc w l' region core' cross keys H).
Qed.

Lemma answers_overlap l r core : answers (regions_overlap l r core) (λ st, regions_overlap_uncached st l r core).
Proof.
  split; [intros st st' []; by apply overlap_plan|]. intros st Hc.
  unfold regions_overlap, mbind, stM_bind, st_get. cbn [fst snd].
  destruct (dget (br_overlaps st) (l, r, core)) as [b|] eqn:E.
  { cbn. split; [done|]. split; [done|]. symmetry. by apply Hc. }
  unfold st_lift. destruct (regions_overlap_uncached st l r core) as [b|e] eqn:Eu; [|done].
  cbn. split; [|done]. apply consistent_put_overlap; [done|done|]. intros k v. by case_match.
Qed.

Lemma answers_candidate_keys w region l core include :
  answers (memory_history_candidate_keys w region l core include)
    (λ st, ofilter (key_matches st region l core (include && shared_scope (rg_scope region)))
             (dkeys (history_of w st))).
Proof.
  set (cross := include && shared_scope (rg_scope region)). split.
  { intros st st' H. rewrite (proj2 H w). apply ofilter_ext. intros key _.
    apply matches_plan, H. }
  intros st Hc. unfold memory_history_candidate_keys, mbind, stM_bind, st_get. cbn [fst snd]. fold cross.
  destruct (dget (br_candidates st) _) as [keys|] eqn:E.
  { cbn. split; [done|]. split; [done|]. symmetry. by apply Hc. }
  unfold st_lift. destruct (ofilter _ _) as [keys|e] eqn:Ef; [|done]. cbn. split; [|done].
  destruct Hc as [Ho Hcand]. split; [exact Ho|]. intros w' l' region' core' cross' keys'.
  cbn [set_candidates br_candidates].
  destruct (decide ((w, l, rg_scope region, owner_of region core, rg_buffer region, cross) =
    (w', l', rg_scope region', owner_of region' core', rg_buffer region', cross'))) as [Heq|Hne].
  - rewrite Heq, dget_dset_eq. intros [= <-]. injection Heq as -> -> Hs Ho' Hb ->.
    rewrite <- Ef. apply ofilter_ext. intros key _. by apply (matches_key st).
  - rewrite dget_dset_ne by done. apply Hcand.
Qed.

(** ** The dependencies without caches *)

Definition candidates_of (w : which) (region : BufferRegion) (l : Lane) (core : Z) (include : bool)
    (st : BridgeState) : result (list access) :=
  keys ← ofilter (key_matches st region l core (include && shared_scope (rg_scope region)))
           (dkeys (history_of w st));
  Ok (flat_map (λ key, dget_default [] (history_of w st) key) keys).
Definition entry_needed (distinct : bool) (region : BufferRegion) (l : Lane) (core : Z) (keep : bool) (e : access)
    (st : BridgeState) : result bool :=
  if distinct && bool_decide (rg_buffer (ac_region e) = rg_buffer region) then Ok false
  else if negb (bool_decide (ac_lane e = l)) then Ok false
  else
    overlap ← regions_overlap_uncached st region (ac_region e) core;
    Ok (overlap && (keep || same_on_chip_owner region core (ac_core e))).
Definition needed_tasks (distinct : bool) (region : BufferRegion) (l : Lane) (core : Z) (keep : bool)
    (entries : list access) (st : BridgeState) : result (list string) :=
  found ← ofilter (λ e, entry_needed distinct region l core keep e st) entries;
  Ok (ac_task <$> (found : list access)).
Definition dependencies_of (metadata : dict string pyval) (core : Z) (l : Lane) (operation : string)
    (st : BridgeState) : result (list string) :=
  let keep := keeps_cross_core operation in
  from_reads ← omap_list (λ region,
      entries ← candidates_of LastWrites region l core keep st;
      needed_tasks false region l core keep entries st) (reads_of metadata);
  from_writes ← omap_list (λ region,
      written ← candidates_of LastWrites region l core keep st;
      read ← candidates_of LastReads region l core keep st;
      needed_tasks false region l core keep (written ++ read) st) (writes_of metadata);
  Ok (sorted_set (concat from_reads ++ concat from_writes)).

Lemma answers_candidates w region l core include :
  answers (memory_history_candidates w region l core include) (candidates_of w region l core include).
Proof.
  apply answers_bind; [apply answers_candidate_keys|]. intros keys. split.
  - intros st st' H. by rewrite (proj2 H w).
  - by intros st Hc.
Qed.
Lemma answers_needed distinct region l core keep entries :
  answers (depends_on_entries distinct region l core keep entries) (needed_tasks distinct region l core keep entries).
Proof.
  apply answers_bind; [|intros found; apply answers_ret]. apply (answers_filter _ (entry_needed distinct region l core keep)).
  intros e. unfold depends_on_entry, entry_needed. destruct (distinct && _); [apply answers_ret|].
  destruct (negb _); [apply answers_ret|]. apply answers_bind; [apply answers_overlap|]. intros b. apply answers_ret.
Qed.
Lemma answers_dependencies metadata core l operation :
  answers (memory_dependencies metadata core l operation) (dependencies_of metadata core l operation).
Proof.
  apply answers_bind; [|intros rs; apply answers_bind; [|intros ws; apply answers_ret]].
  - apply (answers_map _ (λ region st, entries ← candidates_of LastWrites region l core _ st; needed_tasks false region l core _ entries st)).
    intros region. apply answers_bind; [apply answers_candidates|]. intros entries. apply answers_needed.
  - apply (answers_map _ (λ region st, written ← candidates_of LastWrites region l core _ st;
      read ← candidates_of LastReads region l core _ st; needed_tasks false region l core _ (written ++ read) st)).
    intros region. apply answers_bind; [apply answers_candidates|]. intros written.
    apply answers_bind; [apply answers_candidates|]. intros read. apply answers_needed.
Qed.
