(* ===== verification/BridgeDeps.v ===== *)
(** What dependency inference guarantees: recording keeps the caches right, and on a stretch of
    one core whose accesses overlap like blocks, every later conflicting access reaches the
    earlier one through the emitted dependencies. *)

From S2P Require Import Prelude PyDict PySort PyStr Errors Values Program Intervals MemoryView RegionOverlap.
From S2P Require Import PyNum Timing ExecEnv LinearTiming MeasuredA2 BridgeOps BridgeMemory BridgeCache.
Local Open Scope string_scope.
Local Open Scope Z_scope.
Local Open Scope list_scope.

(** ** Buckets *)

Definition bucket (w : which) (k : history_key) (st : BridgeState) : list access :=
  dget_default [] (history_of w st) k.

Lemma bucket_key w k e st : e ∈ bucket w k st → k ∈ dkeys (history_of w st).
Proof.
  unfold bucket, dget_default. intros He. apply dec_stable. intros Hk%dget_None_not_key.
  rewrite Hk in He. set_solver.
Qed.

Lemma history_set w w' h st :
  history_of w' (set_history w h st) = if decide (w' = w) then h else history_of w' st.
Proof. by destruct w, w'. Qed.

Lemma bucket_set w w' k k' es st :
  bucket w' k' (set_history w (dset (history_of w st) k es) st) =
  if decide (w' = w ∧ k' = k) then es else bucket w' k' st.
Proof.
  unfold bucket, dget_default. rewrite history_set. destruct (decide (w' = w)) as [->|Hw].
  - destruct (decide (k' = k)) as [->|Hk].
    + by rewrite dget_dset_eq, decide_True.
    + rewrite dget_dset_ne by done. by rewrite decide_False by naive_solver.
  - by rewrite decide_False by naive_solver.
Qed.

Lemma bucket_quiet w k st st' : quiet st st' → bucket w k st' = bucket w k st.
Proof. intros [_ H]. unfold bucket. by rewrite H. Qed.

(** [b] overlaps [a] for a task of core [core]. *)
Definition overlapping_regions (st : BridgeState) (core : Z) (a b : BufferRegion) : Prop :=
  regions_overlap_uncached st a b core = Ok true.

(** A program that removes exactly the entries that [region] overlaps, from selected buckets. *)
Record prunes (selected : which → history_key → Prop) (region : BufferRegion) (core : Z) (st st' : BridgeState)
    : Prop := {
  pr_consistent : consistent st';
  pr_plan : same_plan st st';
  pr_exact : ∀ w k e, e ∈ bucket w k st' ↔
    e ∈ bucket w k st ∧ ¬ (selected w k ∧ overlapping_regions st core region (ac_region e));
}.

Lemma overlapping_plan st st' core a b :
  same_plan st st' → overlapping_regions st' core a b ↔ overlapping_regions st core a b.
Proof. intros H. unfold overlapping_regions. by rewrite (overlap_plan st st'). Qed.
Lemma prunes_nothing selected region core st : consistent st → (∀ w k e, e ∈ bucket w k st → ¬ selected w k) →
  prunes selected region core st st.
Proof. intros H Hs. split; [done|done|]. intros w k e. specialize (Hs w k e). tauto. Qed.
Lemma prunes_trans sel1 sel2 region core st1 st2 st3 :
  prunes sel1 region core st1 st2 → prunes sel2 region core st2 st3 →
  prunes (λ w k, sel1 w k ∨ sel2 w k) region core st1 st3.
Proof.
  intros [C1 P1 E1] [C2 P2 E2]. split; [done|by etrans|].
  intros w k e. rewrite E2, E1, (overlapping_plan st1 st2) by done. tauto.
Qed.
Lemma prunes_ext (sel1 sel2 : which → history_key → Prop) region core st st' :
  (∀ w k e, e ∈ bucket w k st → sel1 w k ↔ sel2 w k) →
  prunes sel1 region core st st' → prunes sel2 region core st st'.
Proof. intros Hs [C P E]. split; [done|done|]. intros w k e. rewrite E. specialize (Hs w k e). tauto. Qed.

(** Replacing the entries of a bucket that exists. *)
Lemma consistent_replace w k es st :
  k ∈ dkeys (history_of w st) → consistent st →
  (∀ w', dkeys (history_of w' (set_history w (dset (history_of w st) k es) st)) = dkeys (history_of w' st)) ∧
  consistent (set_history w (dset (history_of w st) k es) st).
Proof.
  intros Hk [Ho Hc].
  assert (∀ w', dkeys (history_of w' (set_history w (dset (history_of w st) k es) st)) = dkeys (history_of w' st)) as Hkeys.
  { intros w'. rewrite history_set. case_decide; [subst w'|done]. rewrite dkeys_dset. unfold dmem.
    apply dkeys_elem_of in Hk as [v ->]. done. }
  split; [done|]. split.
  - intros l r core b H. rewrite (overlap_plan st) by (by destruct w). apply Ho. by destruct w.
  - intros w' l region core cross keys H. rewrite Hkeys.
    rewrite (ofilter_ext _ (key_matches st region l core cross)) by (intros; apply matches_plan; by destruct w).
    apply Hc. by destruct w.
Qed.

Lemma answers_unneeded region core entries :
  answers (st_filter (λ e, overlap ← regions_overlap region (ac_region e) core; mret (negb overlap)) entries)
    (λ st, ofilter (λ e, b ← regions_overlap_uncached st region (ac_region e) core; Ok (negb b)) entries).
Proof.
  apply (answers_filter _ (λ e st, b ← regions_overlap_uncached st region (ac_region e) core; Ok (negb b))).
  intros e. apply answers_bind; [apply answers_overlap|]. intros b. apply answers_ret.
Qed.

Lemma prune_bucket_prunes w region core key st st' :
  consistent st → prune_bucket w region core key st = (st', Ok tt) →
  prunes (λ w' k, w' = w ∧ k = key) region core st st'.
Proof.
  intros Hc. unfold prune_bucket, mbind, stM_bind, st_get. cbn [fst snd].
  change (dget_default [] (history_of w st) key) with (bucket w key st).
  destruct (bucket w key st) as [|e0 es] eqn:Eb.
  { intros [= <-]. apply prunes_nothing; [done|]. intros w' k e He [-> ->]. rewrite Eb in He. by apply elem_of_nil in He. }
  assert (key ∈ dkeys (history_of w st)) as Hkey by (eapply bucket_key; rewrite Eb; by left).
  set (entries := e0 :: es) in *. clearbody entries.
  destruct (proj2 (answers_unneeded region core entries) st Hc) as (C1 & O1 & A1).
  unfold mbind, stM_bind in C1, O1, A1. destruct (st_filter _ entries st) as [st1 [kept|]]; [|done].
  cbn [fst snd] in *. unfold st_put. intros [= <-]. symmetry in A1. pose proof (cache_only_quiet _ _ O1) as Q1.
  destruct (consistent_replace w key kept st1) as [K2 C2]; [by rewrite (proj2 Q1)|done|].
  split.
  - done.
  - destruct Q1 as [[P1 P2] _]. by destruct w.
  - intros w' k e. rewrite bucket_set. case_decide as Hd; [|rewrite (bucket_quiet _ _ st st1 Q1); tauto].
    destruct Hd as [-> ->]. rewrite Eb, (ofilter_elem _ _ _ A1). unfold overlapping_regions.
    split; intros [He Hb]; (split; [done|]).
    + intros [_ Ho]. by rewrite Ho in Hb.
    + destruct (ofilter_ok _ _ _ A1 e He) as [[Hf _]|Hf]; [done|].
      destruct (regions_overlap_uncached st region (ac_region e) core) as [[]|]; [|done|done]. by destruct Hb.
Qed.

(** The buckets that recording a write searches. *)
Definition searched (st : BridgeState) (region : BufferRegion) (l : Lane) (core : Z) (k : history_key) : Prop :=
  key_matches st region l core (shared_scope (rg_scope region)) k = Ok true.
Lemma searched_lane st region l core k : searched st region l core k → k.1.1.1 = l.
Proof.
  unfold searched, key_matches. destruct k as [[[kl ?] ?] ?]. cbn. destruct (bool_decide (kl = l)) eqn:El; [|done].
  by apply bool_decide_eq_true in El.
Qed.

Lemma prune_keys_prunes w region core keys st st' :
  consistent st → st_iter (prune_bucket w region core) keys st = (st', Ok tt) →
  prunes (λ w' k, w' = w ∧ k ∈ keys) region core st st'.
Proof.
  revert st; induction keys as [|key keys IH]; intros st Hc; cbn [st_iter].
  { intros [= <-]. apply prunes_nothing; [done|]. intros w' k e _ [_ Hk]. by apply elem_of_nil in Hk. }
  unfold mbind, stM_bind. destruct (prune_bucket w region core key st) as [st1 [[]|]] eqn:E; [|done].
  intros H. pose proof (prune_bucket_prunes w region core key st st1 Hc E) as P1.
  eapply prunes_ext; [|eapply prunes_trans; [exact P1|apply IH; [apply P1|exact H]]].
  intros w' k e _. cbn. rewrite elem_of_cons. tauto.
Qed.

Lemma prune_history_prunes w region l core st st' :
  consistent st → prune_history w region l core st = (st', Ok tt) →
  prunes (λ w' k, w' = w ∧ searched st region l core k) region core st st'.
Proof.
  intros Hc. unfold prune_history, mbind, stM_bind at 1, st_get, st_lift. cbn [fst snd].
  unfold stM_bind. destruct (memory_history_keys st region l core true) as [keys|] eqn:Ek; [|done].
  intros H. eapply prunes_ext; [|by apply prune_keys_prunes]. intros w' k e He. cbn.
  rewrite (ofilter_elem _ _ _ Ek), elem_of_fromkeys, elem_of_app. unfold searched. cbn [andb].
  apply bucket_key in He. destruct w, w'; naive_solver.
Qed.

(** Appending an entry. *)
Lemma append_spec w region id l core st :
  consistent st →
  ∃ st', append_memory_history w region id l core st = (st', Ok tt) ∧ consistent st' ∧ same_plan st st' ∧
    ∀ w' k e, e ∈ bucket w' k st' ↔
      e ∈ bucket w' k st ∨ (w' = w ∧ k = memory_history_key region l core ∧ e = MkAccess region id l core).
Proof.
  intros Hc. unfold append_memory_history, mbind, stM_bind, st_get, st_put. cbn [fst snd].
  set (key := memory_history_key region l core).
  set (st1 := if dmem (history_of w st) key then st else set_candidates [] st).
  assert (quiet st st1) as Q1 by (unfold st1; destruct (dmem _ _); [done|]; split; [done|]; by intros []).
  assert (consistent st1) as C1.
  { unfold st1. destruct (dmem _ _); [done|]. destruct Hc as [Ho _]. split; [exact Ho|done]. }
  eexists. split; [done|]. split; [|split].
  - destruct (dmem (history_of w st) key) eqn:Em.
    + apply consistent_replace; [|done]. apply dkeys_elem_of. unfold st1, dmem in *.
      destruct (dget (history_of w st) key); [by eexists|done].
    + destruct C1 as [Ho _]. split.
      * intros l' r core' b H. rewrite (overlap_plan st1) by (by destruct w). apply Ho. by destruct w.
      * intros w' l' region' core' cross keys H. exfalso. unfold st1 in H. by destruct w.
  - destruct Q1 as [[P1 P2] _]. by destruct w.
  - intros w' k e. rewrite bucket_set. change (dget_default [] (history_of w st1) key) with (bucket w key st1).
    rewrite !(bucket_quiet _ _ st st1 Q1). case_decide as Hd.
    + destruct Hd as [-> ->]. rewrite elem_of_app, list_elem_of_singleton. naive_solver.
    + naive_solver.
Qed.

(** Recording one written region: every entry of a searched bucket that it overlaps goes, and
    its own entry comes. *)
Record records (region : BufferRegion) (id : string) (l : Lane) (core : Z) (st st' : BridgeState) : Prop := {
  rc_consistent : consistent st';
  rc_plan : same_plan st st';
  rc_exact : ∀ w k e, e ∈ bucket w k st' ↔
    (e ∈ bucket w k st ∧ ¬ (searched st region l core k ∧ overlapping_regions st core region (ac_region e))) ∨
    (w = LastWrites ∧ k = memory_history_key region l core ∧ e = MkAccess region id l core);
}.

Lemma record_write_records region id l core st st' :
  consistent st → record_write id l core region st = (st', Ok tt) → records region id l core st st'.
Proof.
  intros Hc. unfold record_write, mbind, stM_bind.
  destruct (prune_history LastWrites region l core st) as [st1 [[]|]] eqn:E1; [|done].
  destruct (prune_history LastReads region l core st1) as [st2 [[]|]] eqn:E2; [|done].
  pose proof (prune_history_prunes _ _ _ _ _ _ Hc E1) as P1.
  pose proof (prune_history_prunes _ _ _ _ _ _ (pr_consistent _ _ _ _ _ P1) E2) as P2.
  assert (∀ k, searched st1 region l core k ↔ searched st region l core k) as Hs.
  { intros k. unfold searched. by rewrite (matches_plan st st1) by apply P1. }
  destruct (prunes_trans _ _ _ _ _ _ _ P1 P2) as [C2 Pl2 X2].
  destruct (append_spec LastWrites region id l core st2 C2) as (st3 & -> & C3 & Pl3 & B3).
  intros [= <-]. split; [done|by etrans|].
  intros w k e. rewrite B3, X2, Hs. destruct w; naive_solver.
Qed.

#[local] Instance is_true_dec (r : result bool) : Decision (r = Ok true).
Proof. destruct r as [[]|]; [by left|by right..]. Defined.

Section records.
Context (region : BufferRegion) (id : string) (l : Lane) (core : Z) (st st' : BridgeState).
Hypothesis Hrecords : records region id l core st st'.

Lemma rc_present : MkAccess region id l core ∈ bucket LastWrites (memory_history_key region l core) st'.
Proof. apply Hrecords. by right. Qed.
Lemma rc_old w k e : e ∈ bucket w k st' → e ∈ bucket w k st ∨ ac_task e = id.
Proof. intros [[He _]|(_ & _ & ->)]%Hrecords; [by left|by right]. Qed.
Lemma rc_drops w k e :
  e ∈ bucket w k st → e ∈ bucket w k st' ∨ (overlapping_regions st core region (ac_region e) ∧ k.1.1.1 = l).
Proof.
  intros He. unfold overlapping_regions. destruct (decide (key_matches st region l core (shared_scope (rg_scope region)) k = Ok true ∧
    regions_overlap_uncached st region (ac_region e) core = Ok true)) as [[Hs Ho]|Hn].
  - right. split; [done|by eapply searched_lane].
  - left. apply Hrecords. by left.
Qed.
End records.

(** ** One emission *)

(** The entries that decide which regions a task names. *)
Definition same_operands (md md' : dict string pyval) : Prop :=
  ∀ name, name ∈ READ_NAMES ++ WRITE_NAMES → mget md' name = mget md name.

#[export] Instance same_operands_preorder : PreOrder same_operands.
Proof. split; [done|]. intros x y z H1 H2 name Hn. by rewrite H2, H1. Qed.

Lemma same_operands_dset md k v : k ∉ READ_NAMES ++ WRITE_NAMES → same_operands md (dset md k v).
Proof. intros Hk name Hn. unfold mget, dget_default. rewrite dget_dset_ne; [done|]. by intros ->. Qed.
Lemma same_operands_dsetdefault md k v : k ∉ READ_NAMES ++ WRITE_NAMES → same_operands md (dsetdefault md k v).
Proof. intros Hk. unfold dsetdefault. destruct (dget md k); [done|by apply same_operands_dset]. Qed.
Lemma same_operands_set_if_any key ids md :
  key ∉ READ_NAMES ++ WRITE_NAMES → same_operands md (set_if_any key ids md).
Proof. intros Hk. destruct ids; [done|by apply same_operands_dset]. Qed.

Lemma operand_regions_same md md' names :
  same_operands md md' → names ⊆ READ_NAMES ++ WRITE_NAMES → operand_regions md' names = operand_regions md names.
Proof.
  intros H Hn. unfold operand_regions. rewrite (H "src_regions") by set_solver.
  induction names as [|name names IH]; [done|]. cbn [flat_map].
  rewrite IH by set_solver. by rewrite (H name) by set_solver.
Qed.
Lemma reads_of_same md md' : same_operands md md' → reads_of md' = reads_of md.
Proof. intros H. apply operand_regions_same; [done|set_solver]. Qed.
Lemma writes_of_same md md' : same_operands md md' → writes_of md' = writes_of md.
Proof. intros H. apply operand_regions_same; [done|set_solver]. Qed.

Lemma initial_same p cx l normalized md : same_operands md (initial_metadata p cx l normalized md).
Proof.
  unfold initial_metadata. cbv zeta.
  etrans; [|apply same_operands_dsetdefault; set_solver]. etrans; [|apply same_operands_dsetdefault; set_solver].
  destruct (cx_predicates cx); [|etrans; [|apply same_operands_dset; set_solver]];
    (destruct (mem_str normalized ["sync_all"]); [apply same_operands_dsetdefault; set_solver|done]).
Qed.

Lemma dependencies_of_same md md' core l operation st :
  same_operands md md' → dependencies_of md' core l operation st = dependencies_of md core l operation st.
Proof. intros H. unfold dependencies_of. by rewrite (reads_of_same md md' H), (writes_of_same md md' H). Qed.

(** What a successful emission did, in order: it searched the histories without changing them,
    built the task with the edges it found, and recorded the task's accesses. *)
Lemma bindM_ok {A B} (m : bridgeM A) (f : A → bridgeM B) st st' b :
  (m ≫= f) st = (st', Ok b) → ∃ st1 a, m st = (st1, Ok a) ∧ f a st1 = (st', Ok b).
Proof. unfold mbind, stM_bind. destruct (m st) as [st1 [a|e]]; [eauto|done]. Qed.
Lemma liftM_ok {A} (r : result A) (st st' : BridgeState) a : st_lift r st = (st', Ok a) → st' = st ∧ r = Ok a.
Proof. unfold st_lift. by intros [= <- ->]. Qed.

Lemma consistent_same st st' :
  quiet st st' → br_overlaps st' = br_overlaps st → br_candidates st' = br_candidates st →
  consistent st → consistent st'.
Proof.
  intros [Hp Hh] Eo Ec [Ho Hc]. split.
  - intros l r core b. rewrite Eo, (overlap_plan st st') by done. apply Ho.
  - intros w l region core cross keys. rewrite Ec, Hh. intros H. rewrite <- (Hc _ _ _ _ _ _ H).
    apply ofilter_ext. intros k _. by apply matches_plan.
Qed.

Lemma answers_run {A} (m : bridgeM A) g st st' a :
  answers m g → consistent st → m st = (st', Ok a) → consistent st' ∧ quiet st st' ∧ g st = Ok a.
Proof.
  intros [_ H] Hc Hm. destruct (H st Hc) as (C & O & A1). rewrite Hm in *. cbn [fst snd] in *.
  split; [done|]. split; [by apply cache_only_quiet|done].
Qed.

Lemma task_init_fields id op core ln pn d deps meta t :
  task_init id op core ln pn d deps None meta = Ok t →
  task_id t = id ∧ operation t = op ∧ dependencies t = deps ∧ metadata t = meta.
Proof. unfold task_init. intros H. inv_res. done. Qed.

Lemma estimated_same p timing_key pi md d md' : estimated p timing_key pi md = Ok (d, md') → same_operands md md'.
Proof.
  unfold estimated. destruct p.
  - intros ([? ?] & _ & [= _ <-])%outcome_bind_ok. apply same_operands_dset. set_solver.
  - intros (? & _ & [= _ <-])%outcome_bind_ok. done.
Qed.

Definition alias_through (l : Lane) (core : Z) (keep : bool) (w : which) (region : BufferRegion) (st : BridgeState)
    : result (list string) :=
  entries ← candidates_of w region l core keep st; needed_tasks true region l core keep entries st.
Definition alias_dependencies_of (metadata : dict string pyval) (core : Z) (l : Lane) (operation : string)
    (st : BridgeState) : result (list string) :=
  let keep := keeps_cross_core operation in
  from_reads ← omap_list (λ region, alias_through l core keep LastWrites region st) (reads_of metadata);
  from_writes ← omap_list (λ region,
      written ← alias_through l core keep LastWrites region st;
      read ← alias_through l core keep LastReads region st;
      Ok (written ++ read)) (writes_of metadata);
  Ok (sorted_set (concat from_reads ++ concat from_writes)).
Lemma answers_alias metadata core l operation :
  answers (alias_memory_dependencies metadata core l operation) (alias_dependencies_of metadata core l operation).
Proof.
  assert (∀ keep w region, answers
    (entries ← memory_history_candidates w region l core keep; depends_on_entries true region l core keep entries)
    (alias_through l core keep w region)) as Ht.
  { intros keep w region. apply answers_bind; [apply answers_candidates|]. intros entries. apply answers_needed. }
  apply answers_bind; [|intros rs; apply answers_bind; [|intros ws; apply answers_ret]].
  - apply (answers_map _ (alias_through l core _ LastWrites)). intros region. apply Ht.
  - apply (answers_map _ (λ region st, written ← alias_through l core _ LastWrites region st;
      read ← alias_through l core _ LastReads region st; Ok (written ++ read))). intros region.
    apply answers_bind; [apply Ht|]. intros written. apply answers_bind; [apply Ht|]. intros read. apply answers_ret.
Qed.

Lemma emit_task_inv p name cx md extra st st' t :
  consistent st → emit_task p name cx md extra st = (st', Ok t) →
  ∃ found st1, quiet st st1 ∧ consistent st1 ∧ same_operands md (metadata t) ∧
    (∃ l pi, placed name cx md = Ok (l, pi, Program.operation t)) ∧
    dependencies_of md (cx_core_id cx) (cx_lane cx) (Program.operation t) st = Ok found ∧
    dependencies t = sorted_set (found ++ extra) ∧
    record_memory_accesses (metadata t) (task_id t) (cx_lane cx) (cx_core_id cx) st1 = (st', Ok tt).
Proof.
  intros Hc H. unfold emit_task in H.
  apply bindM_ok in H as (s0 & [[l pi] normalized] & Hpl & H). apply liftM_ok in Hpl as [-> Hpl].
  apply bindM_ok in H as (s1 & id & Hid & H).
  assert (quiet st s1 ∧ consistent s1) as [Q1 C1].
  { unfold next_task_id, mbind, stM_bind, st_get, st_put, mret, stM_ret in Hid. cbn in Hid. injection Hid as <- _.
    assert (∀ n, quiet st (MkBridge (br_buffers st) (br_aliases st) (br_writes st) (br_reads st) (br_overlaps st)
      (br_candidates st) (br_tasks st) n)) as Hq by (intros n; split; [done|by intros []]).
    split; [apply Hq|]. by eapply consistent_same; [apply Hq|..]. }
  set (meta := initial_metadata p cx l normalized md) in *.
  pose proof (initial_same p cx l normalized md) as E0. fold meta in E0.
  apply bindM_ok in H as (s2 & found & Hm & H).
  apply (answers_run _ _ _ _ _ (answers_dependencies _ _ _ _) C1) in Hm as (C2 & Q2 & Hm).
  apply bindM_ok in H as (s3 & aliased & Ha & H).
  apply (answers_run _ _ _ _ _ (answers_alias _ _ _ _) C2) in Ha as (C3 & Q3 & Ha).
  apply bindM_ok in H as (s4 & [d meta'] & He & H). apply liftM_ok in He as [-> He]. apply estimated_same in He as E1.
  apply bindM_ok in H as (s5 & t' & Ht & H). apply liftM_ok in Ht as [-> Ht]. apply task_init_fields in Ht as (Hti & Hto & Htd & Htm).
  apply bindM_ok in H as (s6 & [] & Happ & H).
  unfold append_task, mbind, stM_bind, st_get, st_put in Happ. cbn in Happ.
  assert (quiet s3 s6 ∧ consistent s6) as [Q6 C6].
  { assert (∀ ts, quiet s3 (MkBridge (br_buffers s3) (br_aliases s3) (br_writes s3) (br_reads s3) (br_overlaps s3)
      (br_candidates s3) ts (br_counter s3))) as Hq by (intros ts; split; [done|by intros []]).
    injection Happ as <-. split; [apply Hq|]. by eapply consistent_same; [apply Hq|..]. }
  apply bindM_ok in H as (s7 & [] & Hrec & H). injection H as -> ->. rewrite <- Hti in Hrec.
  assert (same_operands md (metadata t)) as E.
  { rewrite Htm. etrans; [|exact E1]. do 3 (etrans; [|apply same_operands_set_if_any; set_solver]). done. }
  exists found, s6. split_and!; try done.
  - by do 3 (etrans; [|eassumption]).
  - exists l, pi. by rewrite Hto.
  - rewrite Hto. rewrite <- (proj1 (answers_dependencies md _ _ normalized) st s1 Q1).
    rewrite <- Hm. symmetry. by apply dependencies_of_same.
Qed.

(** ** A stretch of emissions on one core *)

Lemma task_edge_mono ts ts' x y : ts ⊆ ts' → task_edge ts x y → task_edge ts' x y.
Proof. intros H (t & Ht & ? & ?). exists t. auto. Qed.
Lemma rtc_edge_mono ts ts' x y : ts ⊆ ts' → rtc (task_edge ts) x y → rtc (task_edge ts') x y.
Proof. intros H. apply rtc_subrel. intros ??. by apply task_edge_mono. Qed.

Lemma matches_cross st region l core cross key :
  key_matches st region l core false key = Ok true → key_matches st region l core cross key = Ok true.
Proof.
  unfold key_matches. destruct key as [[[kl ks] ko] kb]. cbn [orb].
  destruct (bool_decide (kl = l)), (bool_decide (ks = rg_scope region)); cbn [andb]; try done.
  destruct (ko =? owner_of region core); [|done]. by rewrite orb_true_r.
Qed.

Lemma candidate_in w region l core include st entries e k :
  candidates_of w region l core include st = Ok entries → e ∈ bucket w k st →
  key_matches st region l core false k = Ok true → e ∈ entries.
Proof.
  intros (keys & Hk & [= <-])%outcome_bind_ok He Hm. apply list_elem_of_In, in_flat_map. exists k.
  split; apply list_elem_of_In; [|exact He]. apply (ofilter_elem _ _ _ Hk). split; [by eapply bucket_key|].
  by apply matches_cross.
Qed.

Lemma elem_of_concat {A} (x : A) ls : x ∈ concat ls ↔ ∃ l, x ∈ l ∧ l ∈ ls.
Proof.
  rewrite list_elem_of_In, in_concat. setoid_rewrite list_elem_of_In. naive_solver.
Qed.

Lemma sorted_set_elem x l : x ∈ sorted_set l ↔ x ∈ l.
Proof. unfold sorted_set. by rewrite elem_of_py_sorted, elem_of_fromkeys. Qed.

Lemma omap_list_elem {A B} (f : A → result B) l l' a :
  omap_list f l = Ok l' → a ∈ l → ∃ b, b ∈ l' ∧ f a = Ok b.
Proof.
  intros H Ha. apply omap_list_ok in H. apply list_elem_of_lookup in Ha as [i Hi].
  destruct (Forall2_lookup_l _ _ _ _ _ H Hi) as (b & Hb & Hf). exists b. split; [by eapply list_elem_of_lookup_2|done].
Qed.

(** A task that a search finds has an entry in a history that an accessed region overlaps. *)
Lemma needed_known region l core keep entries st ids x :
  needed_tasks false region l core keep entries st = Ok ids → x ∈ ids →
  ∃ e, e ∈ entries ∧ ac_task e = x ∧ overlapping_regions st core region (ac_region e).
Proof.
  intros (found & Hf & [= <-])%outcome_bind_ok (e & -> & He)%list_elem_of_fmap.
  apply (ofilter_elem _ _ _ Hf) in He as [He Hn]. exists e. split; [done|]. split; [done|].
  unfold entry_needed in Hn. cbn [andb] in Hn. destruct (negb _); [done|].
  apply outcome_bind_ok in Hn as (b & Hb & [= Ht]). by apply andb_true_iff in Ht as [-> _].
Qed.
Lemma candidate_known w region l core include st entries e :
  candidates_of w region l core include st = Ok entries → e ∈ entries → ∃ k, e ∈ bucket w k st.
Proof.
  intros (keys & _ & [= <-])%outcome_bind_ok He. apply list_elem_of_In, in_flat_map in He as (k & _ & He).
  exists k. by apply list_elem_of_In.
Qed.
Lemma omap_list_source {A B} (f : A → result B) l l' b :
  omap_list f l = Ok l' → b ∈ l' → ∃ a, a ∈ l ∧ f a = Ok b.
Proof.
  intros H Hb. apply omap_list_ok in H. apply list_elem_of_lookup in Hb as [i Hi].
  destruct (Forall2_lookup_r _ _ _ _ _ H Hi) as (a & Ha & Hf). exists a. split; [by eapply list_elem_of_lookup_2|done].
Qed.
Lemma dependency_known md core l operation st found x :
  dependencies_of md core l operation st = Ok found → x ∈ found →
  ∃ region w k e, region ∈ reads_of md ++ writes_of md ∧ e ∈ bucket w k st ∧ ac_task e = x ∧
    overlapping_regions st core region (ac_region e).
Proof.
  unfold dependencies_of. intros (rs & Hrs & H)%outcome_bind_ok. apply outcome_bind_ok in H as (ws & Hws & [= <-]).
  rewrite sorted_set_elem, elem_of_app, !elem_of_concat. intros [(ids & Hx & Hids)|(ids & Hx & Hids)].
  - destruct (omap_list_source _ _ _ _ Hrs Hids) as (r & Hr & (es & Hes & Hn)%outcome_bind_ok).
    destruct (needed_known _ _ _ _ _ _ _ _ Hn Hx) as (e & He & Ht & Ho).
    destruct (candidate_known _ _ _ _ _ _ _ _ Hes He) as [k Hk]. exists r, LastWrites, k, e.
    split_and!; try done. apply elem_of_app. by left.
  - destruct (omap_list_source _ _ _ _ Hws Hids) as (r & Hr & (written & Hwr & H)%outcome_bind_ok).
    apply outcome_bind_ok in H as (read & Hrd & Hn).
    destruct (needed_known _ _ _ _ _ _ _ _ Hn Hx) as (e & [He|He]%elem_of_app & Ht & Ho);
      [destruct (candidate_known _ _ _ _ _ _ _ _ Hwr He) as [k Hk]; exists r, LastWrites, k, e
      |destruct (candidate_known _ _ _ _ _ _ _ _ Hrd He) as [k Hk]; exists r, LastReads, k, e];
      (split_and!; try done; apply elem_of_app; by right).
Qed.

(** An entry of a candidate bucket that [region] overlaps is among the tasks [region] needs. *)
Lemma needed_in region l core keep entries st ids e :
  needed_tasks false region l core keep entries st = Ok ids → e ∈ entries → ac_lane e = l → ac_core e = core →
  overlapping_regions st core region (ac_region e) → ac_task e ∈ ids.
Proof.
  intros (found & Hf & [= <-])%outcome_bind_ok He Hl Hc Ho. apply list_elem_of_fmap_2.
  apply (ofilter_elem _ _ _ Hf). split; [done|]. unfold entry_needed. cbn [andb].
  rewrite bool_decide_eq_true_2 by done. cbn [negb]. unfold overlapping_regions in Ho. rewrite Ho. ok_bind.
  unfold same_on_chip_owner. rewrite Hc, Z.eqb_refl. by destruct (shared_scope _), keep.
Qed.

(** A dependency is found for every overlapped entry of a visible bucket: reads look at the
    writes, writes at both histories. *)
Lemma dependency_found md core l operation st found w region e k :
  dependencies_of md core l operation st = Ok found →
  (region ∈ writes_of md ∨ (region ∈ reads_of md ∧ w = LastWrites)) →
  e ∈ bucket w k st → key_matches st region l core false k = Ok true →
  ac_lane e = l → ac_core e = core → overlapping_regions st core region (ac_region e) → ac_task e ∈ found.
Proof.
  intros Hd Hr He Hm Hl Hc Ho. unfold dependencies_of in Hd.
  apply outcome_bind_ok in Hd as (rs & Hrs & Hd). apply outcome_bind_ok in Hd as (ws & Hws & [= <-]).
  rewrite sorted_set_elem, elem_of_app, !elem_of_concat. destruct Hr as [Hr|[Hr ->]].
  - right. destruct (omap_list_elem _ _ _ _ Hws Hr) as (ids & Hids & Hf).
    apply outcome_bind_ok in Hf as (written & Hw & Hf). apply outcome_bind_ok in Hf as (read & Hrd & Hf).
    exists ids. split; [|done]. eapply needed_in; [done| |done..]. apply elem_of_app.
    destruct w; [left|right]; by eapply candidate_in.
  - left. destruct (omap_list_elem _ _ _ _ Hrs Hr) as (ids & Hids & Hf).
    apply outcome_bind_ok in Hf as (written & Hw & Hf). exists ids. split; [|done].
    eapply needed_in; [done| |done..]. by eapply candidate_in.
Qed.

Section stretch.
Context (plan : BridgeState) (core : Z) (named : BufferRegion → Prop).

(** The regions named on the core overlap like blocks, and the allocation test that selects
    buckets does not hide an overlap. *)
Record block_like : Prop := {
  bl_sym : ∀ a b, named a → named b → overlapping_regions plan core a b → overlapping_regions plan core b a;
  bl_trans : ∀ a b c, named a → named b → named c →
    overlapping_regions plan core a b → overlapping_regions plan core b c → overlapping_regions plan core a c;
  bl_visible : ∀ a b l, named a → named b → overlapping_regions plan core a b →
    key_matches plan a l core false (memory_history_key b l core) = Ok true;
}.
Hypothesis Hblocks : block_like.

(** An entry of the histories stands for an access: it overlaps whatever the access overlaps, and
    its task is the access's task or comes after it. *)
Definition stands_for (ts : list Task) (st : BridgeState) (l : Lane) (t : Task) (a : BufferRegion) (kind : which)
    : Prop :=
  ∃ w e, e ∈ bucket w (memory_history_key (ac_region e) l core) st ∧ ac_lane e = l ∧ ac_core e = core ∧
    named (ac_region e) ∧ (ac_region e = a ∨ overlapping_regions plan core (ac_region e) a) ∧
    rtc (task_edge ts) (ac_task e) (task_id t) ∧ (w = LastWrites ∨ kind = LastReads).
Definition covers_task (ts : list Task) (st : BridgeState) (l : Lane) (t : Task) : Prop :=
  (∀ a, a ∈ writes_of (metadata t) → stands_for ts st l t a LastWrites) ∧
  (∀ a, a ∈ reads_of (metadata t) → stands_for ts st l t a LastReads).
Definition names_of (md : dict string pyval) : list BufferRegion := writes_of md ++ reads_of md.

Lemma stands_for_mono ts ts' st l t a kind : ts ⊆ ts' → stands_for ts st l t a kind → stands_for ts' st l t a kind.
Proof.
  intros H (w & e & He & Hl & Hc & Hn & Ho & Hr & Hw). exists w, e. split_and!; try done. by eapply rtc_edge_mono.
Qed.

(** Recording a write of the new task [u]. *)
Lemma record_keeps ts st st' u L w l t a kind :
  same_plan plan st → records w (task_id u) L core st st' → named w → named a → u ∈ ts →
  (∀ w0 e, e ∈ bucket w0 (memory_history_key (ac_region e) L core) st → ac_lane e = L → ac_core e = core →
     named (ac_region e) → overlapping_regions plan core w (ac_region e) →
     ac_task e ∈ dependencies u ∨ ac_task e = task_id u) →
  stands_for ts st l t a kind → stands_for ts st' l t a kind.
Proof.
  intros Hp Hrec Hw Ha Hu Hdeps (w0 & e & He & Hl & Hc & Hn & Ho & Hr & Hk).
  destruct (rc_drops _ _ _ _ _ _ Hrec _ _ _ He) as [He'|[Hov HL]]; [by exists w0, e|]. change (l = L) in HL. rewrite HL in He, Hl |- *. clear HL.
  unfold overlapping_regions in Hov. rewrite (overlap_plan plan st) in Hov by done.
  exists LastWrites, (MkAccess w (task_id u) L core). cbn [ac_region ac_task ac_lane ac_core].
  split; [by eapply rc_present|]. split_and!; try done; [..|by left].
  - right. destruct Ho as [<-|Ho]; [done|]. by eapply (bl_trans Hblocks); [..|exact Hov|exact Ho].
  - destruct (Hdeps w0 e He Hl Hc Hn Hov) as [Hd|Heq].
    + eapply rtc_l; [|exact Hr]. exists u. done.
    + by rewrite <- Heq.
Qed.

(** The new task depends on every entry that one of its writes overlaps. *)
Definition needs_entries (u : Task) (L : Lane) (pre : BridgeState) : Prop :=
  ∀ w w0 e, w ∈ writes_of (metadata u) → e ∈ bucket w0 (memory_history_key (ac_region e) L core) pre →
    ac_lane e = L → ac_core e = core → named (ac_region e) → overlapping_regions plan core w (ac_region e) →
    ac_task e ∈ dependencies u.
(** Every entry was there before or belongs to the new task. *)
Definition grown (u : Task) (pre st : BridgeState) : Prop :=
  consistent st ∧ same_plan plan st ∧ ∀ w k e, e ∈ bucket w k st → e ∈ bucket w k pre ∨ ac_task e = task_id u.

Lemma record_writes_cover ts pre u L ws st st' :
  needs_entries u L pre → u ∈ ts → ws ⊆ writes_of (metadata u) → (∀ w, w ∈ ws → named w) → grown u pre st →
  st_iter (record_write (task_id u) L core) ws st = (st', Ok tt) →
  grown u pre st' ∧ (∀ l t a kind, named a → stands_for ts st l t a kind → stands_for ts st' l t a kind) ∧
  ∀ w, w ∈ ws → stands_for ts st' L u w LastWrites.
Proof.
  intros Hneed Hu. revert st; induction ws as [|w ws IH]; intros st Hsub Hnamed Hg; cbn [st_iter].
  { intros [= <-]. split; [done|]. split; [done|]. set_solver. }
  intros (st1 & [] & Hw & H)%bindM_ok. destruct Hg as (Hc & Hp & Hold).
  pose proof (record_write_records _ _ _ _ _ _ Hc Hw) as Hrec.
  assert (grown u pre st1) as Hg1.
  { split; [apply Hrec|]. split; [etrans; [exact Hp|apply Hrec]|]. intros w0 k e He.
    destruct (rc_old _ _ _ _ _ _ Hrec w0 k e He) as [He'|]; [by apply Hold|by right]. }
  destruct (IH st1 ltac:(set_solver) ltac:(set_solver) Hg1 H) as (Hg' & Hkeep & Hnew).
  assert (∀ l t a kind, named a → stands_for ts st l t a kind → stands_for ts st1 l t a kind) as Hk1.
  { intros l t a kind Ha. eapply record_keeps; [done|done|by apply Hnamed; left|done|done|].
    intros w0 e He Hl Hcc Hn Ho. destruct (Hold _ _ _ He) as [He'|]; [left|by right].
    eapply (Hneed w); [apply Hsub; by left|done..]. }
  split; [done|]. split; [auto|]. intros x [->|Hx]%elem_of_cons; [|by apply Hnew].
  apply Hkeep; [by apply Hnamed; left|]. exists LastWrites, (MkAccess w (task_id u) L core).
  split; [by eapply rc_present|]. split_and!; try done; [by apply Hnamed; left|by left|by left].
Qed.

Lemma record_reads_cover ts pre u L rs st st' :
  (∀ a, a ∈ rs → named a) → grown u pre st →
  st_iter (λ region, append_memory_history LastReads region (task_id u) L core) rs st = (st', Ok tt) →
  grown u pre st' ∧ (∀ l t a kind, stands_for ts st l t a kind → stands_for ts st' l t a kind) ∧
  ∀ a, a ∈ rs → stands_for ts st' L u a LastReads.
Proof.
  revert st; induction rs as [|r rs IH]; intros st Hnamed Hg; cbn [st_iter].
  { intros [= <-]. split; [done|]. split; [done|]. set_solver. }
  destruct Hg as (Hc & Hp & Hold).
  destruct (append_spec LastReads r (task_id u) L core st Hc) as (st1 & Happ & C1 & P1 & B1).
  intros (s & [] & Ha & H)%bindM_ok. rewrite Happ in Ha. injection Ha as <-.
  assert (grown u pre st1) as Hg1.
  { split; [done|]. split; [by etrans|]. intros w k e [He|(_ & _ & ->)]%B1; [by apply Hold|by right]. }
  destruct (IH st1 ltac:(set_solver) Hg1 H) as (Hg' & Hkeep & Hnew).
  assert (∀ l t a kind, stands_for ts st l t a kind → stands_for ts st1 l t a kind) as Hk1.
  { intros l t a kind (w & e & He & Hrest). exists w, e. split; [apply B1; by left|done]. }
  split; [done|]. split; [auto|]. intros x [->|Hx]%elem_of_cons; [|by apply Hnew].
  apply Hkeep. exists LastReads, (MkAccess r (task_id u) L core). split; [apply B1; by right|].
  split_and!; try done; [by apply Hnamed; left|by left|by right].
Qed.

(** The log of a stretch: every task with the lane it was emitted for. *)
Definition log_inv (log : list (Lane * Task)) (st : BridgeState) : Prop :=
  consistent st ∧ same_plan plan st ∧
  ∀ l t, (l, t) ∈ log → (∀ a, a ∈ names_of (metadata t) → named a) ∧ covers_task log.*2 st l t.

(** Two tasks conflict: a region one of them writes overlaps a region of the other. *)
Definition regions_conflict (t u : Task) : Prop :=
  ∃ a b, a ∈ names_of (metadata t) ∧ b ∈ names_of (metadata u) ∧
    (a ∈ writes_of (metadata t) ∨ b ∈ writes_of (metadata u)) ∧ overlapping_regions plan core b a.

Lemma covers_task_mono ts ts' st l t : ts ⊆ ts' → covers_task ts st l t → covers_task ts' st l t.
Proof. intros H [Hw Hr]. split; intros a Ha; (eapply stands_for_mono; [done|auto]). Qed.

(** A found dependency for every entry that stands for a conflicting access. *)
Lemma stands_for_found md l operation st found kind b t a ts :
  same_plan plan st → dependencies_of md core l operation st = Ok found →
  (b ∈ writes_of md ∨ (b ∈ reads_of md ∧ kind = LastWrites)) → named b → named a →
  overlapping_regions plan core b a → stands_for ts st l t a kind →
  ∃ x, x ∈ found ∧ rtc (task_edge ts) x (task_id t).
Proof.
  intros Hp Hd Hb Hnb Hna Hov (w & e & He & Hl & Hc & Hn & Ho & Hr & Hk).
  assert (overlapping_regions plan core b (ac_region e)) as Hbe.
  { destruct Ho as [->|Ho]; [done|]. eapply (bl_trans Hblocks); [done|exact Hna|done|done|].
    by apply (bl_sym Hblocks). }
  exists (ac_task e). split; [|done]. eapply dependency_found; [done| |done| |done|done|].
  - destruct Hb as [Hb|[Hb ->]]; [by left|right]. split; [done|]. by destruct Hk.
  - rewrite (matches_plan plan st) by done. by apply (bl_visible Hblocks).
  - unfold overlapping_regions. by rewrite (overlap_plan plan st).
Qed.

Lemma emit_step p log st cx name md st' u :
  log_inv log st → cx_core_id cx = core → (∀ a, a ∈ names_of md → named a) →
  emit_task p name cx md [] st = (st', Ok u) →
  log_inv (log ++ [(cx_lane cx, u)]) st' ∧
  ∀ t, (cx_lane cx, t) ∈ log → regions_conflict t u → tc (task_edge (log ++ [(cx_lane cx, u)]).*2) (task_id u) (task_id t).
Proof.
  intros (Hc & Hp & Hlog) Hcore Hnamed He.
  destruct (emit_task_inv p name cx md [] st st' u Hc He)
    as (found & st1 & Q1 & C1 & Hsame & _ & Hfound & Hdeps & Hrec). rewrite Hcore in *.
  set (log' := log ++ [(cx_lane cx, u)]). rewrite app_nil_r in Hdeps.
  assert (u ∈ log'.*2) as Hu by (unfold log'; rewrite fmap_app; set_solver).
  assert (log.*2 ⊆ log'.*2) as Hsub by (unfold log'; rewrite fmap_app; set_solver).
  assert (writes_of (metadata u) = writes_of md ∧ reads_of (metadata u) = reads_of md) as [Ew Er]
    by (split; [by apply writes_of_same|by apply reads_of_same]).
  assert (∀ a, a ∈ names_of (metadata u) → named a) as Hnu by (unfold names_of; rewrite Ew, Er; done).
  assert (∀ x, x ∈ found → task_edge log'.*2 (task_id u) x) as Hedge.
  { intros x Hx. exists u. split; [done|]. split; [done|]. by rewrite Hdeps, sorted_set_elem. }
  split.
  - assert (needs_entries u (cx_lane cx) st1) as Hneed.
    { intros w w0 e Hw Hin Hl Hcc Hn Ho. rewrite Hdeps, sorted_set_elem. rewrite (bucket_quiet _ _ st st1 Q1) in Hin.
      rewrite Ew in Hw. assert (named w) by (apply Hnamed, elem_of_app; by left).
      eapply dependency_found; [done|by left|done| |done|done|].
      - rewrite (matches_plan plan st) by done. by apply (bl_visible Hblocks).
      - unfold overlapping_regions. by rewrite (overlap_plan plan st). }
    assert (grown u st1 st1) as Hg.
    { split; [done|]. split; [etrans; [exact Hp|apply Q1]|]. intros; by left. }
    unfold record_memory_accesses in Hrec. apply bindM_ok in Hrec as (st2 & [] & Hws & Hrs).
    destruct (record_writes_cover log'.*2 st1 u (cx_lane cx) _ st1 st2 Hneed Hu ltac:(done)
      ltac:(intros; apply Hnu, elem_of_app; by left) Hg Hws) as (Hg2 & Hk2 & Hn2).
    destruct (record_reads_cover log'.*2 st1 u (cx_lane cx) _ st2 st'
      ltac:(intros; apply Hnu, elem_of_app; by right) Hg2 Hrs) as (Hg3 & Hk3 & Hn3).
    split; [apply Hg3|]. split; [apply Hg3|]. intros l t [Hin|Hin%list_elem_of_singleton]%elem_of_app.
    + destruct (Hlog l t Hin) as [Hnt Hcov]. split; [done|]. apply (covers_task_mono _ log'.*2) in Hcov as [Hcw Hcr]; [|done].
      assert (∀ l t a kind, stands_for log'.*2 st l t a kind → stands_for log'.*2 st1 l t a kind) as Hq.
      { intros ???? (w & e & Hb & Hrest). exists w, e. split; [by rewrite (bucket_quiet _ _ st st1)|done]. }
      split; intros a Ha; apply Hk3, Hk2; [apply Hnt, elem_of_app; by left|auto|apply Hnt, elem_of_app; by right|auto].
    + injection Hin as -> ->. split; [done|]. split; [intros a Ha; by apply Hk3, Hn2|done].
  - intros t Hin (a & b & Ha & Hb & Hw & Ho). destruct (Hlog _ t Hin) as [Hnt [Hcw Hcr]].
    assert (∃ kind, stands_for log.*2 st (cx_lane cx) t a kind ∧
      (b ∈ writes_of md ∨ (b ∈ reads_of md ∧ kind = LastWrites))) as (kind & Hst & Hbk).
    { unfold names_of in Ha, Hb. rewrite Ew, Er in *. apply elem_of_app in Ha, Hb.
      destruct Hw as [Hw|Hw]; [exists LastWrites; split; [auto|tauto]|].
      destruct Ha; [exists LastWrites|exists LastReads]; split; auto. }
    destruct (stands_for_found md (cx_lane cx) _ st found kind b t a log.*2 Hp Hfound Hbk) as (x & Hx & Hr);
      [by apply Hnu|by apply Hnt|done|done|].
    eapply tc_rtc_r; [apply tc_once, Hedge, Hx|]. by eapply rtc_edge_mono.
Qed.
End stretch.
