(* ===== verification/BridgeClaims.v ===== *)
(** The theorems on dependency inference ([bridge.py]): what the overlap test decides, when the
    search by buckets and caches finds everything, that conflicting accesses are ordered, and the
    edge that is lost when a buffer is partly overwritten. *)

From S2P Require Import Prelude PyDict PySort PyStr Errors Values Program Trace Config SyncOps SyncReset SyncModel.
From S2P Require Import Scheduler Schedule Progress Intervals MemoryView RegionOverlap PyNum Timing ExecEnv.
From S2P Require Import ExecOrder LinearTiming MeasuredA2 BridgeOps BridgeMemory BridgeCache BridgeDeps.
Local Open Scope string_scope.
Local Open Scope Z_scope.
Local Open Scope list_scope.

(** ** Runs of the bridge *)

(** The states that emission and the activation of aliases reach. *)
Inductive reachable : BridgeState → Prop :=
| reachable_new buffers : reachable (new_bridge buffers)
| reachable_emit p name cx md extra st st' t :
    reachable st → emit_task p name cx md extra st = (st', Ok t) → reachable st'
| reachable_alias md st st' : reachable st → activate_alias md st = (st', Ok tt) → reachable st'.

Lemma record_consistent md id l core st st' :
  consistent st → record_memory_accesses md id l core st = (st', Ok tt) → consistent st'.
Proof.
  intros Hc (st1 & [] & Hw & Hr)%bindM_ok.
  assert (consistent st1) as C1.
  { clear Hr. revert st Hc Hw. induction (writes_of md) as [|w ws IH]; intros st Hc; cbn [st_iter]; [by intros [= <-]|].
    intros (s & [] & Hs & H)%bindM_ok. apply (IH s); [|done]. by eapply record_write_records. }
  clear Hw Hc st. revert st1 C1 Hr. induction (reads_of md) as [|r rs IH]; intros st Hc; cbn [st_iter]; [by intros [= <-]|].
  intros (s & [] & Hs & H)%bindM_ok. apply (IH s); [|done].
  destruct (append_spec LastReads r id l core st Hc) as (s' & Ha & C & _). rewrite Ha in Hs. by injection Hs as <-.
Qed.

Lemma reachable_consistent st : reachable st → consistent st.
Proof.
  induction 1 as [buffers|p name cx md extra st st' t _ IH H|md st st' _ IH H].
  - by apply consistent_no_cache.
  - destruct (emit_task_inv p name cx md extra st st' t IH H) as (found & st1 & _ & C1 & _ & _ & _ & _ & Hr).
    by eapply record_consistent.
  - unfold activate_alias in H. destruct (as_region _); [destruct (as_region _)|].
    + unfold mbind, stM_bind, st_get, st_put in H. injection H as <-. by apply consistent_no_cache.
    + by injection H as <-.
    + by injection H as <-.
Qed.

(** ** Regions inside their buffers *)

(** The region lies inside its buffer, whose size is known; a region of shared memory names no
    core, as the bridge builds them. *)
Definition inside (st : BridgeState) (core : Z) (region : BufferRegion) : Prop :=
  (shared_scope (rg_scope region) = true → rg_core_id region = None) ∧
  ∃ spec size b, buffer_named st (resolve_active_alias st region (owner_of region core)) = Ok spec ∧
    buffer_size_bytes spec = Ok (Some size) ∧ region_bounds region = Ok (Some b) ∧ 0 <= b.1 ∧ b.2 <= size.

Lemma overlap_at_bounds left right ls rs lb rb bl br :
  region_bounds left = Ok (Some bl) → region_bounds right = Ok (Some br) →
  overlap_at left right ls rs lb rb = Ok true → overlaps (lb + bl.1, lb + bl.2) (rb + br.1, rb + br.2) = true.
Proof. intros Hl Hr. unfold overlap_at. rewrite Hl, Hr. ok_bind. by destruct (overlaps _ _). Qed.

Lemma inside_visible st core a b l :
  inside st core a → inside st core b → overlapping_regions st core a b →
  key_matches st a l core false (memory_history_key b l core) = Ok true.
Proof.
  intros (Sa & sa & na & ba & Ba & Na & Ra & La & Ua) (Sb & sb & nb & bb & Bb & Nb & Rb & Lb & Ub) Ho.
  unfold overlapping_regions, regions_overlap_uncached in Ho.
  destruct (bool_decide (rg_scope a = rg_scope b)) eqn:Es; [|done]. apply bool_decide_eq_true in Es. cbn [negb] in Ho.
  assert (owner_of b core = owner_of a core) as Eo.
  { destruct (shared_scope (rg_scope a)) eqn:Esh; [|destruct (Z.eqb_spec (owner_of a core) (owner_of b core)); done].
    unfold owner_of. rewrite Sa, Sb by congruence. done. }
  rewrite Eo, Z.eqb_refl, andb_false_r, Ba in Ho. rewrite Eo in Bb. rewrite Bb in Ho. cbn [mbind outcome_bind] in Ho.
  unfold key_matches, memory_history_key. rewrite <- Es, Eo, !bool_decide_eq_true_2, Z.eqb_refl by done. cbn [orb andb].
  unfold memory_history_key_may_overlap. rewrite Z.eqb_refl, andb_false_r.
  change (resolve_active_alias_name (br_aliases st) (rg_scope a) (alias_owner (rg_scope a) (owner_of a core)) (rg_buffer b))
    with (resolve_active_alias st (Region (rg_buffer b) (rg_scope a) (rg_shape b) (rg_dtype b) (rg_byte_offset b)
            (rg_strides_bytes b) (rg_core_id b)) (owner_of a core)).
  assert (resolve_active_alias st (Region (rg_buffer b) (rg_scope a) (rg_shape b) (rg_dtype b) (rg_byte_offset b)
            (rg_strides_bytes b) (rg_core_id b)) (owner_of a core) = resolve_active_alias st b (owner_of a core)) as ->
    by (unfold resolve_active_alias; cbn; by rewrite Es).
  case_bool_decide as Hn; [done|]. rewrite Ba, Bb. ok_bind. rewrite Na, Nb. ok_bind.
  destruct (bs_address sa) as [la|]; [|done]. destruct (bs_address sb) as [lb|]; [|done].
  apply (overlap_at_bounds _ _ _ _ _ _ _ _ Ra Rb), overlaps_spec in Ho. cbn in Ho.
  f_equal. apply overlaps_spec. cbn. lia.
Qed.

(** ** Stretches *)

(** The regions that the requests name. *)
Definition requested (requests : list request) (a : BufferRegion) : Prop :=
  ∃ cx name md, (cx, name, md) ∈ requests ∧ a ∈ names_of md.

(** Overlap between the named regions is symmetric and transitive: two regions that overlap a third
    one overlap each other, as tiles of one partition do. *)
Definition tiled (st : BridgeState) (core : Z) (requests : list request) : Prop :=
  (∀ a b, requested requests a → requested requests b →
     overlapping_regions st core a b → overlapping_regions st core b a) ∧
  (∀ a b c, requested requests a → requested requests b → requested requests c →
     overlapping_regions st core a b → overlapping_regions st core b c → overlapping_regions st core a c).

Definition lanes_of (requests : list request) : list Lane := (λ r, cx_lane r.1.1) <$> requests.

Lemma tc_edge_mono ts ts' x y : ts ⊆ ts' → tc (task_edge ts) x y → tc (task_edge ts') x y.
Proof.
  intros Hs. induction 1 as [x y H|x y z H _ IH]; [apply tc_once|eapply tc_l; [|exact IH]]; by eapply task_edge_mono.
Qed.

Lemma emit_all_log plan core named p requests log st st' ts :
  block_like plan core named → log_inv plan core named log st →
  (∀ cx name md, (cx, name, md) ∈ requests → cx_core_id cx = core ∧ ∀ a, a ∈ names_of md → named a) →
  emit_all p requests st = (st', Ok ts) →
  length ts = length requests ∧ log_inv plan core named (log ++ zip (lanes_of requests) ts) st' ∧
  ∀ pre l u suf, zip (lanes_of requests) ts = pre ++ (l, u) :: suf → ∀ t, (l, t) ∈ log ++ pre →
    regions_conflict plan core t u →
    tc (task_edge (log ++ zip (lanes_of requests) ts).*2) (task_id u) (task_id t).
Proof.
  intros Hb. revert log st ts; induction requests as [|[[cx name] md] requests IH]; intros log st ts Hinv Hreq; cbn [emit_all st_map].
  { intros [= <- <-]. cbn. rewrite app_nil_r. split; [done|]. split; [done|]. intros pre ? ? ? H. by destruct pre. }
  intros (st1 & u & He & H)%bindM_ok. apply bindM_ok in H as (st2 & us & Hs & H). injection H as <- <-.
  destruct (Hreq cx name md ltac:(by left)) as [Hcore Hnamed].
  destruct (emit_step plan core named Hb p log st cx name md st1 u Hinv Hcore Hnamed He) as [Hinv1 Hstep].
  destruct (IH (log ++ [(cx_lane cx, u)]) st1 us Hinv1) as (Hlen & Hinv2 & Hord);
    [intros; apply (Hreq cx0 name0); by right|exact Hs|].
  cbn [lanes_of fmap list_fmap zip zip_with fst snd]. fold (lanes_of requests).
  rewrite <- app_assoc in Hinv2. cbn [app] in Hinv2. split; [cbn; by rewrite Hlen|]. split; [exact Hinv2|].
  intros pre l v suf Hsplit t Hin Hc. destruct pre as [|x pre].
  - cbn [app] in Hsplit. injection Hsplit as <- <- _. rewrite app_nil_r in Hin.
    pose proof (Hstep t Hin Hc) as Htc. eapply tc_edge_mono; [|exact Htc].
    rewrite !fmap_app. intros z [Hz|Hz]%elem_of_app; apply elem_of_app; [by left|right]. cbn in *. clear -Hz. set_solver.
  - cbn [app] in Hsplit. injection Hsplit as <- Hsplit. pose proof (Hord pre l v suf Hsplit t) as H.
    rewrite <- !app_assoc in H. cbn [app] in H. apply H; [exact Hin|done].
Qed.

(** C7. Dependency inference orders every conflict. Let a stretch of tasks be emitted on one core,
    for any lanes, from any state that emitting tasks and activating aliases reaches (not after
    reserving layout capacity, which leaves a stale cache); let the regions they name lie inside their
    buffers, of known size, and overlap like tiles (overlap is symmetric and transitive). Then of
    any two tasks of the same lane one of which writes a region that overlaps a region of the
    other, the later one reaches the earlier one through the emitted dependencies - although
    the histories forget overwritten accesses, search only selected buckets, and cache both the
    selection and the overlap test. *)
Theorem emitted_conflicts_ordered core p requests st st' ts i j t u l :
  reachable st → emit_all p requests st = (st', Ok ts) → (∀ r, r ∈ requests → cx_core_id r.1.1 = core) →
  (∀ a, requested requests a → inside st core a) → tiled st core requests →
  ts !! i = Some t → ts !! j = Some u → (i < j)%nat → lanes_of requests !! i = Some l → lanes_of requests !! j = Some l →
  regions_conflict st core t u → tc (task_edge ts) (task_id u) (task_id t).
Proof.
  intros Hst Hemit Hcore Hin [Hsym Htrans] Ht Hu Hij Hli Hlj Hconf.
  assert (block_like st core (requested requests)) as Hb.
  { split; [done|done|]. intros a b l' Ha Hb Ho. apply inside_visible; auto. }
  destruct (emit_all_log st core (requested requests) p requests [] st st' ts Hb) as (Hlen & _ & Hord); [| |exact Hemit|].
  { split; [by apply reachable_consistent|]. split; [done|]. intros ?? H. set_solver. }
  { intros cx name md Hr. split; [apply (Hcore _ Hr)|]. intros a Ha. by exists cx, name, md. }
  assert (zip (lanes_of requests) ts !! j = Some (l, u)) as Hj by (by apply lookup_zip_with_Some; exists l, u).
  assert (zip (lanes_of requests) ts !! i = Some (l, t)) as Hi by (by apply lookup_zip_with_Some; exists l, t).
  pose proof (take_drop_middle _ _ _ Hj) as Hsplit. specialize (Hord _ _ _ _ (eq_sym Hsplit) t).
  cbn [app] in Hord. rewrite snd_zip in Hord by (unfold lanes_of; rewrite length_fmap; lia).
  apply Hord; [|exact Hconf]. apply list_elem_of_lookup. exists i. by rewrite lookup_take_lt.
Qed.

(** C18. The caches of dependency inference change no answer: in every state that emitting tasks
    and activating aliases reaches, the cached search finds exactly the edges, or raises exactly
    the exception, of a search of the whole histories with every overlap computed anew; and
    answering leaves such a state. *)
Theorem dependency_caches_transparent st metadata core l name :
  reachable st →
  (memory_dependencies metadata core l name st).2 = dependencies_of metadata core l name st ∧
  (alias_memory_dependencies metadata core l name st).2 = alias_dependencies_of metadata core l name st ∧
  consistent (memory_dependencies metadata core l name st).1.
Proof.
  intros H%reachable_consistent. split_and!.
  - by apply answers_dependencies.
  - by apply answers_alias.
  - by apply answers_dependencies.
Qed.

(** ** The overlap of two regions in a state *)

(** The bases of two regions that may overlap: zero within one buffer, else the buffers' addresses. *)
Definition bases (st : BridgeState) (core : Z) (left right : BufferRegion) (lb rb : Z) : Prop :=
  rg_scope left = rg_scope right ∧
  (shared_scope (rg_scope left) = true ∨ owner_of left core = owner_of right core) ∧
  ∃ ls rs, buffer_named st (resolve_active_alias st left (owner_of left core)) = Ok ls ∧
    buffer_named st (resolve_active_alias st right (owner_of right core)) = Ok rs ∧
    if bool_decide (resolve_active_alias st left (owner_of left core) =
                    resolve_active_alias st right (owner_of right core))
    then lb = 0 ∧ rb = 0 else bs_address ls = Some lb ∧ bs_address rs = Some rb ∧ 0 <= lb ∧ 0 <= rb.

(** C19. The overlap test is sound for two validated concrete regions that have at least one
    dimension and a dtype of known, positive size, in the same memory and in buffers that are
    known, through aliases and planned addresses; for such regions it never raises: regions
    that share a byte are reported. It is exact, never reporting regions that share no byte,
    when neither is empty and both are contiguous or both have a dense innermost dimension,
    positive strides and at most 4096 rows. *)
Theorem regions_overlap_exact st core left right gl gr il ir lb rb :
  bases st core left right lb rb → region_wf left gl il → region_wf right gr ir →
  ∃ b, regions_overlap_uncached st left right core = Ok b ∧
    (share_byte left right gl gr il ir lb rb → b = true) ∧
    (exact_pair left right gl gr il ir → b = true → share_byte left right gl gr il ir lb rb).
Proof.
  intros (Hs & Ho & ls & rs & Hl & Hr & Hb) Wl Wr. unfold regions_overlap_uncached.
  rewrite bool_decide_eq_true_2 by done. cbn [negb].
  assert (negb (shared_scope (rg_scope left)) && negb (owner_of left core =? owner_of right core) = false) as ->
    by (destruct Ho as [->| ->]; [done|by rewrite Z.eqb_refl, andb_false_r]).
  rewrite Hl, Hr. ok_bind. case_bool_decide.
  - destruct Hb as [-> ->]. by apply overlap_at_result.
  - destruct Hb as (-> & -> & Hlb & Hrb). by apply overlap_at_result.
Qed.

(** ** A stretch of tiles *)

Definition gm_tile (name : string) (offset n : Z) : BufferRegion :=
  Region name GM [VInt n] "float32" (VInt offset) None None.
Definition gm_spec (name : string) (n : Z) : BufferSpec := MkBufferSpec name GM [VInt n] "float32" None None None [].
Definition cycles_profile : MeasuredWithFallback + TimingProfile :=
  inr (MkProfile "A2" [("copy_gm_to_ub", 10); ("copy_ub_to_gm", 5)] 1 "c" "fixed").
Definition load (x : BufferRegion) : request :=
  (vector_context, "tl.ascend_copy_gm_to_ub", [("src", VRegion (gm_tile "g" 0 64)); ("dst", VRegion x)]).
Definition fill_tile (x : BufferRegion) : request := (vector_context, "tl.ascend_fill", [("dst", VRegion x)]).
Definition store (x : BufferRegion) : request :=
  (vector_context, "tl.ascend_copy_ub_to_gm", [("src", VRegion x); ("dst", VRegion (gm_tile "o" 0 64))]).
Definition tile_bridge : BridgeState :=
  new_bridge [ub_spec "x" 64 (Some 0); ub_spec "y" 64 (Some 256); gm_spec "g" 64; gm_spec "o" 64].
Definition emitted_tasks (requests : list request) : list Task :=
  match (emit_all cycles_profile requests tile_bridge).2 with Ok ts => ts | Raise _ => [] end.
Definition edges (ts : list Task) : list (string * list string) := (λ t, (task_id t, dependencies t)) <$> ts.
(** The order in which the executor applies the tasks of a one-core kernel, from its schedule. *)
Definition applied (ts : list Task) : list string :=
  let p := MkKernel "k" "A2" [MkCore 0 ts] [] [] in
  match @schedule _ NoOpSynchronizationModel unlimited_config elements still_clock 8 p with
  | Some (Ok rs) => match functional_execution_order p rs with Ok order => task_id <$> order | Raise _ => [] end
  | _ => []
  end.

Definition tile_requests : list request :=
  [load (tile "x" 0 64); fill_tile (tile "x" 0 64); store (tile "y" 0 64); store (tile "x" 0 64)].
Definition tile_regions : list BufferRegion := flat_map (λ r, names_of r.2) tile_requests.

Lemma requested_regions requests a : requested requests a ↔ a ∈ flat_map (λ r, names_of r.2) requests.
Proof.
  rewrite list_elem_of_In, in_flat_map. split.
  - intros (cx & name & md & Hin & Ha). exists (cx, name, md). by rewrite <- !list_elem_of_In.
  - intros ([[cx name] md] & Hin & Ha). exists cx, name, md. by rewrite !list_elem_of_In.
Qed.

(** The conditions on a stretch, decided by evaluation. *)
Definition overlaps_in (st : BridgeState) (core : Z) (a b : BufferRegion) : bool :=
  match regions_overlap_uncached st a b core with Ok b => b | Raise _ => false end.
Definition tiled_test (st : BridgeState) (core : Z) (l : list BufferRegion) : bool :=
  forallb (λ a, forallb (λ b, implb (overlaps_in st core a b) (overlaps_in st core b a)) l) l &&
  forallb (λ a, forallb (λ b, forallb (λ c,
    implb (overlaps_in st core a b && overlaps_in st core b c) (overlaps_in st core a c)) l) l) l.
Lemma overlaps_in_spec st core a b : overlaps_in st core a b = true ↔ overlapping_regions st core a b.
Proof.
  unfold overlaps_in, overlapping_regions. destruct (regions_overlap_uncached st a b core) as [[]|]; (split; [try done; congruence|congruence || done]).
Qed.
Lemma forallb_elem {A} (f : A → bool) l : forallb f l = true ↔ ∀ a, a ∈ l → f a = true.
Proof. rewrite forallb_forall. by setoid_rewrite list_elem_of_In. Qed.
Lemma tiled_by_test st core requests :
  tiled_test st core (flat_map (λ r, names_of r.2) requests) = true → tiled st core requests.
Proof.
  unfold tiled_test. rewrite andb_true_iff, !forallb_elem. intros [Hs Ht]. split.
  - intros a b Ha%requested_regions Hb%requested_regions. rewrite <- !overlaps_in_spec. intros Ho.
    specialize (Hs a Ha). rewrite forallb_elem in Hs. specialize (Hs b Hb). by rewrite Ho in Hs.
  - intros a b c Ha%requested_regions Hb%requested_regions Hc%requested_regions. rewrite <- !overlaps_in_spec.
    intros Hab Hbc. specialize (Ht a Ha). rewrite forallb_elem in Ht. specialize (Ht b Hb).
    rewrite forallb_elem in Ht. specialize (Ht c Hc). by rewrite Hab, Hbc in Ht.
Qed.
Definition inside_test (st : BridgeState) (core : Z) (a : BufferRegion) : bool :=
  implb (shared_scope (rg_scope a)) (bool_decide (rg_core_id a = None)) &&
  match buffer_named st (resolve_active_alias st a (owner_of a core)) with
  | Ok spec =>
      match buffer_size_bytes spec, region_bounds a with
      | Ok (Some size), Ok (Some b) => (0 <=? b.1) && (b.2 <=? size)
      | _, _ => false
      end
  | Raise _ => false
  end.
Lemma inside_by_test st core a : inside_test st core a = true → inside st core a.
Proof.
  unfold inside_test, inside. rewrite andb_true_iff. intros [Hs H]. split.
  { intros Hsh. rewrite Hsh in Hs. cbn in Hs. by apply bool_decide_eq_true in Hs. }
  destruct (buffer_named _ _) as [spec|]; [|done]. destruct (buffer_size_bytes spec) as [[size|]|] eqn:Es; [|done..].
  destruct (region_bounds a) as [[b|]|]; [|done..]. exists spec, size, b. apply andb_true_iff in H as [??].
  split_and!; try done; lia.
Qed.

Definition tile_tasks : list Task := emitted_tasks tile_requests.
Lemma tile_emitted :
  emit_all cycles_profile tile_requests tile_bridge =
    ((emit_all cycles_profile tile_requests tile_bridge).1, Ok tile_tasks).
Proof. vm_compute. reflexivity. Qed.
Definition named_conflict (t u : Task) : Prop := regions_conflict tile_bridge 0 t u.
Definition tile_task (i : nat) : Task := nth i tile_tasks (MkTask "" "" 0 CONTROL SCALAR 1 [] None []).

Lemma tile_conflict : regions_conflict tile_bridge 0 (tile_task 0) (tile_task 3).
Proof.
  exists (tile "x" 0 64), (tile "x" 0 64). split_and!.
  - apply elem_of_app. left. apply list_elem_of_In. vm_compute. by left.
  - apply elem_of_app. right. apply list_elem_of_In. vm_compute. by left.
  - left. apply list_elem_of_In. vm_compute. by left.
  - vm_compute. reflexivity.
Qed.

(** The last store reads what the fill wrote over the loaded tile: it reaches the load too. *)
Lemma emitted_conflicts_ordered_witness :
  edges tile_tasks = [("c0-vector0-0", []); ("c0-vector0-1", ["c0-vector0-0"]); ("c0-vector0-2", []);
                      ("c0-vector0-3", ["c0-vector0-1"; "c0-vector0-2"])] ∧
  tc (task_edge tile_tasks) "c0-vector0-3" "c0-vector0-0".
Proof.
  split; [vm_compute; reflexivity|].
  refine (emitted_conflicts_ordered 0 cycles_profile tile_requests tile_bridge _ tile_tasks 0 3 (tile_task 0) (tile_task 3)
    VECTOR_0 (reachable_new _) tile_emitted _ _ _ _ _ _ _ _ tile_conflict).
  - apply Forall_forall. repeat constructor.
  - intros a Ha%requested_regions. apply inside_by_test.
    assert (forallb (inside_test tile_bridge 0) tile_regions = true) as H by (vm_compute; reflexivity).
    rewrite forallb_elem in H. by apply H.
  - apply tiled_by_test. vm_compute. reflexivity.
  - vm_compute. reflexivity.
  - vm_compute. reflexivity.
  - lia.
  - reflexivity.
  - reflexivity.
Defined.

Lemma emit_all_reachable p rs st st' ts : reachable st → emit_all p rs st = (st', Ok ts) → reachable st'.
Proof.
  revert st ts; induction rs as [|[[cx name] md] rs IH]; intros st ts Hr; cbn [emit_all st_map]; [by intros [= <- _]|].
  intros (s1 & u & He & Hs)%bindM_ok. apply bindM_ok in Hs as (s2 & us & Hs & Hret). injection Hret as <- _.
  exact (IH s1 us (reachable_emit _ _ _ _ _ _ _ _ Hr He) Hs).
Qed.
Lemma tile_reachable : reachable (emit_all cycles_profile tile_requests tile_bridge).1.
Proof.
  apply (emit_all_reachable cycles_profile tile_requests tile_bridge _ tile_tasks); [|exact tile_emitted].
  unfold tile_bridge. apply reachable_new.
Qed.

Definition tile_state : BridgeState := (emit_all cycles_profile tile_requests tile_bridge).1.
Lemma dependency_caches_transparent_witness :
  length (br_overlaps tile_state) = 2%nat ∧
  dependencies_of [("dst", VRegion (tile "x" 0 64))] 0 VECTOR_0 "fill" tile_state = Ok ["c0-vector0-1"; "c0-vector0-3"] ∧
  (memory_dependencies [("dst", VRegion (tile "x" 0 64))] 0 VECTOR_0 "fill" tile_state).2 =
    dependencies_of [("dst", VRegion (tile "x" 0 64))] 0 VECTOR_0 "fill" tile_state.
Proof.
  split; [vm_compute; reflexivity|]. split; [vm_compute; reflexivity|].
  exact (proj1 (dependency_caches_transparent tile_state [("dst", VRegion (tile "x" 0 64))] 0 VECTOR_0 "fill" tile_reachable)).
Defined.

(** Two interleaved column tiles of one matrix: their bounds overlap, their bytes do not. *)
Definition columns (offset : Z) : BufferRegion :=
  Region "x" UB [VInt 3; VInt 8] "float16" (VInt offset) (Some [VInt 32; VInt 2]) (Some 0).
Definition columns_geometry (offset : Z) : geometry := MkGeometry offset [3; 8] (Some [32; 2]).
Lemma columns_wf offset : 0 <= offset → region_wf (columns offset) (columns_geometry offset) 2.
Proof.
  intros H. split; try done; cbn.
  - intros e He. set_unfold in He. lia.
  - intros l [= <-]. split; [done|]. intros s Hs. set_unfold in Hs. lia.
Qed.

Lemma regions_overlap_exact_witness :
  regions_overlap_uncached tile_bridge (columns 0) (columns 16) 0 = Ok false ∧
  regions_overlap_uncached tile_bridge (columns 0) (columns 12) 0 = Ok true ∧
  share_byte (columns 0) (columns 12) (columns_geometry 0) (columns_geometry 12) 2 2 0 0 ∧
  ¬ share_byte (columns 0) (columns 16) (columns_geometry 0) (columns_geometry 16) 2 2 0 0.
Proof.
  assert (∀ n, bases tile_bridge 0 (columns 0) (columns n) 0 0) as Hb.
  { intros n. split; [done|]. split; [by right|]. eexists _, _. split; [reflexivity|]. split; [reflexivity|]. by cbn. }
  assert (∀ n, exact_pair (columns 0) (columns n) (columns_geometry 0) (columns_geometry n) 2 2) as He.
  { assert (∀ m, expandable (columns_geometry m) 2 ∧ inner_dense (columns_geometry m) 2) as Hx.
    { intros m. split; [|reflexivity]. split; [reflexivity|]. split; [|reflexivity || (cbn; unfold MAX_INTERVAL_EXPANSION; lia)].
      intros s Hs. set_unfold in Hs. lia. }
    intros n. split; [reflexivity|]. split; [reflexivity|]. right. split; [apply Hx|]. split; [apply Hx|]. apply Hx. }
  destruct (regions_overlap_exact tile_bridge 0 (columns 0) (columns 16) _ _ 2 2 0 0 (Hb 16) (columns_wf 0 ltac:(lia))
    (columns_wf 16 ltac:(lia))) as (b & E & S & _).
  destruct (regions_overlap_exact tile_bridge 0 (columns 0) (columns 12) _ _ 2 2 0 0 (Hb 12) (columns_wf 0 ltac:(lia))
    (columns_wf 12 ltac:(lia))) as (b' & E' & _ & S').
  assert (regions_overlap_uncached tile_bridge (columns 0) (columns 16) 0 = Ok false) as F by (vm_compute; reflexivity).
  assert (regions_overlap_uncached tile_bridge (columns 0) (columns 12) 0 = Ok true) as T by (vm_compute; reflexivity).
  split; [exact F|]. split; [exact T|]. split.
  - apply S'; [apply He|]. congruence.
  - intros H. specialize (S H). congruence.
Defined.

(** A region of no dimension, which the constructor of regions accepts, makes the test raise when
    it has to expand it. *)
Definition scalar_region : BufferRegion := Region "x" UB [] "float32" (VInt 16) None (Some 0).
Example scalar_region_raises :
  regions_overlap_uncached tile_bridge scalar_region (columns 0) 0 = raise IndexError "tuple index out of range" ∧
  buffer_region_init "x" "ub" [] "float32" (VInt 16) None (Some 0) = Ok scalar_region.
Proof. split; vm_compute; reflexivity. Qed.

(** ** What is lost *)

Definition partial_requests : list request := [load (tile "x" 0 64); fill_tile (tile "x" 0 8); store (tile "x" 32 8)].
Definition partial_task (i : nat) : Task := nth i (emitted_tasks partial_requests) (MkTask "" "" 0 CONTROL SCALAR 1 [] None []).

(** After a load of a whole tile and a fill of its first eight elements, the store of the next
    eight conflicts with the load, but is emitted without any dependency; and the executor
    applies it before the load. *)
Example partial_overwrite_run :
  edges (emitted_tasks partial_requests) = [("c0-vector0-0", []); ("c0-vector0-1", ["c0-vector0-0"]); ("c0-vector0-2", [])] ∧
  regions_conflict tile_bridge 0 (partial_task 0) (partial_task 2) ∧
  applied (emitted_tasks partial_requests) = ["c0-vector0-2"; "c0-vector0-0"; "c0-vector0-1"].
Proof.
  split; [vm_compute; reflexivity|]. split; [|vm_compute; reflexivity].
  exists (tile "x" 0 64), (tile "x" 32 8). split_and!.
  - apply elem_of_app. left. apply list_elem_of_In. vm_compute. by left.
  - apply elem_of_app. right. apply list_elem_of_In. vm_compute. by left.
  - left. apply list_elem_of_In. vm_compute. by left.
  - vm_compute. reflexivity.
Qed.

(** C39. A partial overwrite loses edges. In every state that emitting tasks and activating
    aliases reaches, recording a written region removes from the buckets it searches exactly
    the entries it overlaps, whole, also where it overwrites only a part of them, and adds its
    own. So an access gets no edge to an earlier task whose entries are each overlapped by the
    write or by none of the accessed regions - not even when it accesses bytes of an overlapped
    entry that were not overwritten. *)
Theorem partial_overwrite_loses_edge id l core region st st' old :
  reachable st → record_write id l core region st = (st', Ok tt) →
  (∀ w k e, e ∈ bucket w k st' ↔
     (e ∈ bucket w k st ∧ ¬ (searched st region l core k ∧ overlapping_regions st core region (ac_region e))) ∨
     (w = LastWrites ∧ k = memory_history_key region l core ∧ e = MkAccess region id l core)) ∧
  ∀ metadata core' l' name found,
    (∀ w k e, e ∈ bucket w k st → ac_task e = old →
       (searched st region l core k ∧ overlapping_regions st core region (ac_region e)) ∨
       ∀ a, a ∈ reads_of metadata ++ writes_of metadata → ¬ overlapping_regions st core' a (ac_region e)) →
    old ≠ id → (memory_dependencies metadata core' l' name st').2 = Ok found → old ∉ found.
Proof.
  intros Hc%reachable_consistent Hw. destruct (record_write_records _ _ _ _ _ _ Hc Hw) as [C' P X].
  split; [exact X|]. intros md core' l' name found Hall Hne Hf Hin.
  rewrite (proj2 (proj2 (proj2 (answers_dependencies md core' l' name) st' C'))) in Hf.
  destruct (dependency_known _ _ _ _ _ _ _ Hf Hin) as (a & w & k & e & Ha & He & Ht & Ho).
  apply (overlapping_plan st st') in Ho; [|done].
  apply X in He as [[He Hn]|(_ & _ & ->)]; [|done].
  destruct (Hall w k e He Ht) as [?|Hnone]; [done|by apply (Hnone a)].
Qed.

(** The bridge after the load of the tile, and after the write of its first eight elements. *)
Definition loaded_bridge : BridgeState := (emit_all cycles_profile [load (tile "x" 0 64)] tile_bridge).1.
Definition overwritten_bridge : BridgeState := (record_write "fill" VECTOR_0 0 (tile "x" 0 8) loaded_bridge).1.
Lemma loaded_reachable : reachable loaded_bridge.
Proof.
  apply (emit_all_reachable cycles_profile [load (tile "x" 0 64)] tile_bridge _ (emitted_tasks [load (tile "x" 0 64)]));
    [unfold tile_bridge; apply reachable_new|vm_compute; reflexivity].
Qed.

Lemma single_entry (k0 k : history_key) (a e : access) : e ∈ dget_default [] [(k0, [a])] k → k = k0 ∧ e = a.
Proof.
  unfold dget_default. cbn [dget]. case_decide as Hk; [|intros He; by apply elem_of_nil in He].
  intros ->%list_elem_of_singleton. by subst.
Qed.
Lemma loaded_entries w k e :
  e ∈ bucket w k loaded_bridge →
  (w = LastWrites ∧ k = memory_history_key (tile "x" 0 64) VECTOR_0 0 ∧ ac_region e = tile "x" 0 64) ∨
  ac_region e = gm_tile "g" 0 64.
Proof.
  assert (br_writes loaded_bridge =
    [(memory_history_key (tile "x" 0 64) VECTOR_0 0, [MkAccess (tile "x" 0 64) "c0-vector0-0" VECTOR_0 0])]) as Hw
    by (vm_compute; reflexivity).
  assert (br_reads loaded_bridge =
    [(memory_history_key (gm_tile "g" 0 64) VECTOR_0 0, [MkAccess (gm_tile "g" 0 64) "c0-vector0-0" VECTOR_0 0])]) as Hr
    by (vm_compute; reflexivity).
  unfold bucket, history_of. intros He. destruct w.
  - rewrite Hw in He. apply single_entry in He as [-> ->]. left. split; [reflexivity|split; reflexivity].
  - rewrite Hr in He. apply single_entry in He as [-> ->]. right. reflexivity.
Qed.

(** The read of the next eight elements depends on the load before the write, and on nothing
    after it. *)
Lemma partial_overwrite_loses_edge_witness :
  (memory_dependencies [("src", VRegion (tile "x" 32 8))] 0 VECTOR_0 "copy_ub_to_gm" loaded_bridge).2 = Ok ["c0-vector0-0"] ∧
  (memory_dependencies [("src", VRegion (tile "x" 32 8))] 0 VECTOR_0 "copy_ub_to_gm" overwritten_bridge).2 = Ok [] ∧
  ("c0-vector0-0" : string) ∉ ([] : list string).
Proof.
  split; [vm_compute; reflexivity|].
  assert ((memory_dependencies [("src", VRegion (tile "x" 32 8))] 0 VECTOR_0 "copy_ub_to_gm" overwritten_bridge).2 = Ok []) as Hf
    by (vm_compute; reflexivity).
  split; [exact Hf|].
  assert (reads_of [("src", VRegion (tile "x" 32 8))] ++ writes_of [("src", VRegion (tile "x" 32 8))] = [tile "x" 32 8])
    as Hn by (vm_compute; reflexivity).
  assert (record_write "fill" VECTOR_0 0 (tile "x" 0 8) loaded_bridge = (overwritten_bridge, Ok tt)) as Hw
    by (vm_compute; reflexivity).
  apply (proj2 (partial_overwrite_loses_edge "fill" VECTOR_0 0 (tile "x" 0 8) loaded_bridge overwritten_bridge "c0-vector0-0"
    loaded_reachable Hw) [("src", VRegion (tile "x" 32 8))] 0 VECTOR_0 "copy_ub_to_gm" []); [|discriminate|exact Hf].
  intros w k e He _. destruct (loaded_entries w k e He) as [(-> & -> & ->)| ->].
  - left. split; vm_compute; reflexivity.
  - right. intros a Ha. rewrite Hn in Ha. apply list_elem_of_singleton in Ha as ->. vm_compute. discriminate.
Defined.

Definition l1_spec (name : string) (address : Z) : BufferSpec :=
  MkBufferSpec name L1 [VInt 32] "float32" None (Some address) None [("planned_address", VBool true)].
Definition l1_tile (name : string) (offset n : Z) : BufferRegion :=
  Region name L1 [VInt n] "float32" (VInt offset) None (Some 0).
Definition cube_request (name : string) (md : dict string pyval) : request := (MkContext 0 CUBE [], name, md).
Definition grown_bridge : BridgeState :=
  let st := (emit_all unit_profile
    [cube_request "tl.ascend_copy_gm_to_l1" [("dst", VRegion (l1_tile "b" 0 32))];
     cube_request "tl.ascend_copy_l1_to_l0a" [("src", VRegion (l1_tile "a" 0 32))];
     cube_request "tl.ascend_copy_l1_to_l0a" [("src", VRegion (l1_tile "a" 0 32))]]
    (new_bridge [l1_spec "a" 0; l1_spec "b" 128])).1 in
  (reserve_layout_capacity "a" 256 "zN" st).1.

(** Reserving layout capacity leaves a stale cache: [_reserve_layout_capacity] enlarges a
    buffer without dropping the cached bucket selection, so an access to the reserved bytes
    misses the task that wrote the buffer behind them, which a search without the cache finds. *)
Theorem reserved_capacity_stale :
  let tail := [("src", VRegion (l1_tile "a" 128 32))] in
  (memory_dependencies tail 0 CUBE "copy_l1_to_l0a" grown_bridge).2 = Ok [] ∧
  dependencies_of tail 0 CUBE "copy_l1_to_l0a" grown_bridge = Ok ["c0-cube-0"].
Proof. split; vm_compute; reflexivity. Qed.

(** ** Placement *)

Definition MARKERS : list string :=
  ["set_flag"; "auto_set_flag"; "set_cross_flag"; "auto_set_cross_flag"; "wait_flag"; "auto_wait_flag";
   "pipe_barrier"; "auto_barrier"].

(** Every emitted task has a legal placement: it runs on the lane of its context, on the cube,
    or on a vector lane, and on a pipe that this lane has - except that a synchronization marker
    takes the pipe its metadata names, which must be the value of a pipe and is not compared
    with the lane here: the constructor of the task rejects it. *)
Theorem placement_legal name cx md l p op :
  placed name cx md = Ok (l, p, op) →
  (l = cx_lane cx ∨ l = CUBE ∨ l = vector_lane (cx_lane cx) ∨ l = VECTOR_0) ∧
  (p ∈ allowed_pipes l ∨ (op ∈ MARKERS ∧ l ≠ CONTROL ∧ pipe_of (sync_pipe_name op md) = Ok p)).
Proof.
  unfold placed. intros ([[l0 p0] op0] & Hc & H)%outcome_bind_ok. apply outcome_bind_ok in H as (p1 & Hp & [= <- <- <-]).
  destruct (classify_allowed _ _ _ _ _ Hc) as [Ha Hl]. split; [done|].
  destruct (_ && truthy _); [left; apply scalar_allowed|].
  case_bool_decide as Hcl; [injection Hp as <-; by left|]. unfold sync_task_pipe in Hp.
  destruct (nonempty (sync_pipe_name op0 md)) eqn:En; cbn [negb] in Hp; [|injection Hp as <-; by left].
  right. destruct (pipe_of (sync_pipe_name op0 md)) as [p2|] eqn:Ep; [|done]. injection Hp as ->. split; [|done].
  unfold sync_pipe_name in En. unfold MARKERS.
  repeat match type of En with nonempty (if ?b then _ else _) = _ => destruct b eqn:?; try discriminate En end;
    match goal with H : mem_str _ _ = true |- _ => apply mem_str_true in H; clear -H; set_solver end.
Qed.

Lemma placement_legal_witness :
  placed "tl.ascend_set_flag" vector_context [("src_pipe", VStr "m")] = Ok (VECTOR_0, MATRIX, "set_flag") ∧
  (MATRIX ∈ allowed_pipes VECTOR_0 ∨
   ("set_flag" ∈ MARKERS ∧ VECTOR_0 ≠ CONTROL ∧ pipe_of (sync_pipe_name "set_flag" [("src_pipe", VStr "m")]) = Ok MATRIX)).
Proof.
  split; [vm_compute; reflexivity|].
  exact (proj2 (placement_legal "tl.ascend_set_flag" vector_context [("src_pipe", VStr "m")] _ _ _ eq_refl)).
Defined.
