(* ===== verification/BridgeExprProofs.v ===== *)
(** What the expressions of [BridgeExpr] mean, and the proof that the bridge keeps the meaning:
    a constant, affine form or symbolic integer extracted from an expression evaluates to the
    value of the expression, whatever the simplifier of TVM rewrites, as long as it keeps values.
    The meaning is typed: results leave no integer type and floating-point nodes have none. *)

From stdpp Require Import pretty.
From S2P Require Import Prelude PyDict PySort PyStr Errors PyFloat Values Program PyNum BridgeOps BridgeExpr.
Local Open Scope string_scope.
Local Open Scope Z_scope.
Local Open Scope list_scope.

(** ** Meaning *)

(** The meaning of a binary node on integers; [None] for a division by zero and for a class that
    has no integer meaning. *)
Definition binary_value (class : string) (l r : Z) : option Z :=
  let truth b := Some (Z.b2z b) in
  let nonzero v := if r =? 0 then None else Some v in
  match class with
  | "Add" => Some (l + r)
  | "Sub" => Some (l - r)
  | "Mul" => Some (l * r)
  | "FloorDiv" => nonzero (l / r)
  | "FloorMod" => nonzero (l mod r)
  | "Div" => nonzero (Z.quot l r)
  | "Mod" => nonzero (Z.rem l r)
  | "Min" => Some (Z.min l r)
  | "Max" => Some (Z.max l r)
  | "EQ" => truth (l =? r)
  | "NE" => truth (negb (l =? r))
  | "LT" => truth (l <? r)
  | "LE" => truth (l <=? r)
  | "GT" => truth (r <? l)
  | "GE" => truth (r <=? l)
  | "And" => truth (negb (l =? 0) && negb (r =? 0))
  | "Or" => truth (negb (l =? 0) || negb (r =? 0))
  | _ => None
  end.

(** The values of the integer types of TVM. *)
Definition dtype_range (dtype : string) : option (Z * Z) :=
  dget [("bool", (0, 1)); ("int8", (- 2 ^ 7, 2 ^ 7 - 1)); ("int16", (- 2 ^ 15, 2 ^ 15 - 1));
        ("int32", (- 2 ^ 31, 2 ^ 31 - 1)); ("int64", (- 2 ^ 63, 2 ^ 63 - 1)); ("uint8", (0, 2 ^ 8 - 1));
        ("uint16", (0, 2 ^ 16 - 1)); ("uint32", (0, 2 ^ 32 - 1)); ("uint64", (0, 2 ^ 64 - 1))] dtype.
(** A result of a type: [None] outside an integer type, that is for a floating-point type and
    for a value that the type does not hold. *)
Definition typed (dtype : string) (z : Z) : option Z :=
  r ← dtype_range dtype; if (r.1 <=? z) && (z <=? r.2) then Some z else None.

#[global] Arguments typed : simpl never.

(** The value of an integer expression, given the variables and the scalars in memory: every node
    has an integer type, and its exact result lies in that type.  A float, an overflow, a division
    by zero and a cast that narrows its operand have no value here. *)
Fixpoint expr_value (var : Var → option Z) (scalar : string → Z → option Z) (e : expr) : option Z :=
  match e with
  | EInt d z => typed d z
  | EVar v => z ← var v; typed (v_dtype v) z
  | ECast d x => z ← expr_value var scalar x; typed d z
  | EBin class d a b =>
      l ← expr_value var scalar a; r ← expr_value var scalar b; z ← binary_value class l r; typed d z
  | ENot a => x ← expr_value var scalar a; Some (Z.b2z (x =? 0))
  | ESelect d c t f =>
      c ← expr_value var scalar c; t ← expr_value var scalar t; f ← expr_value var scalar f;
      typed d (if c =? 0 then f else t)
  | ELoad d buffer [index] => i ← expr_value var scalar index; z ← scalar (tb_name buffer) i; typed d z
  | _ => None
  end.
(** The immediate parts of an expression. *)
Definition parts (e : expr) : list expr :=
  match e with
  | ECast _ x | ENot x => [x]
  | EBin _ _ a b => [a; b]
  | ESelect _ c t f => [c; t; f]
  | ELoad _ _ indices => indices
  | _ => []
  end.

Lemma typed_Some d z w : typed d z = Some w → w = z.
Proof. unfold typed. destruct (dtype_range d) as [r|]; [cbn|done]. destruct (_ && _); by intros [= <-]. Qed.

(** Induction through the indices of loads. *)
Definition expr_load_ind (P : expr → Prop)
    (Hint : ∀ d z, P (EInt d z)) (Hfloat : ∀ d bits, P (EFloat d bits)) (Hstring : ∀ s, P (EString s))
    (Hvar : ∀ v, P (EVar v)) (Hcast : ∀ d x, P x → P (ECast d x))
    (Hbin : ∀ c d a b, P a → P b → P (EBin c d a b)) (Hnot : ∀ a, P a → P (ENot a))
    (Hselect : ∀ d c t f, P c → P t → P f → P (ESelect d c t f))
    (Hload : ∀ d buffer indices, Forall P indices → P (ELoad d buffer indices))
    (Hcall : ∀ op d args, P (ECall op d args)) (Hother : ∀ c d r, P (EOther c d r)) : ∀ e, P e :=
  fix go e :=
    match e with
    | EInt d z => Hint d z
    | EFloat d bits => Hfloat d bits
    | EString s => Hstring s
    | EVar v => Hvar v
    | ECast d x => Hcast d x (go x)
    | EBin c d a b => Hbin c d a b (go a) (go b)
    | ENot a => Hnot a (go a)
    | ESelect d c t f => Hselect d c t f (go c) (go t) (go f)
    | ELoad d buffer indices =>
        Hload d buffer indices ((fix all l : Forall P l :=
          match l with [] => Forall_nil_2 P | a :: l => Forall_cons_2 P a l (go a) (all l) end) indices)
    | ECall op d args => Hcall op d args
    | EOther c d r => Hother c d r
    end.

Definition override (environment : env) (var : Var → option Z) (v : Var) : option Z :=
  match dget environment v with Some z => Some z | None => var v end.

(** Binding the variables as [var'] does is replacing them and binding the others as [var] does. *)
Definition binds (replacements : dict Var expr) (scalar : string → Z → option Z) (var var' : Var → option Z) : Prop :=
  ∀ v, expr_value var' scalar (EVar v) =
       expr_value var scalar (match dget replacements v with Some e => e | None => EVar v end).

(** What the bridge relies on in TVM.  [regular var e] holds of the expressions, under a binding of
    the variables, whose rewriting leaves no integer type: TVM takes the arithmetic of index types
    as that of the integers.  These are closed under parts, substitution and simplification; the
    simplifier keeps their values, and substituting literals for variables is binding them. *)
Class TvmLaws (TVM : Tvm) (scalar : string → Z → option Z) (regular : (Var → option Z) → expr → Prop) : Prop := {
  regular_part var e x : regular var e → x ∈ parts e → regular var x;
  simplify_regular var e : regular var e → regular var (tvm_simplify e);
  simplify_value var e z :
    regular var e → expr_value var scalar e = Some z → expr_value var scalar (tvm_simplify e) = Some z;
  substitute_regular var var' replacements e :
    binds replacements scalar var var' → regular var' e → regular var (tvm_substitute replacements e);
  substitute_value var var' replacements e z :
    binds replacements scalar var var' → regular var' e → expr_value var' scalar e = Some z →
    expr_value var scalar (tvm_substitute replacements e) = Some z;
}.

(** The runtime bindings of a program give the variables and the scalars their values. *)
Definition bound_int (b : bindings) (name : string) : option Z :=
  match dget b name with Some (VInt z) => Some z | _ => None end.
Definition bound_var (b : bindings) (v : Var) : option Z := bound_int b (v_name v).
Definition bound_scalar (b : bindings) (buffer : string) (index : Z) : option Z :=
  bound_int b (scalar_name buffer index).
(** The value of an expression under the loop variables and the runtime bindings. *)
Definition meaning (environment : env) (b : bindings) (e : expr) : option Z :=
  expr_value (override environment (bound_var b)) (bound_scalar b) e.

Section sound.
Context {TVM : Tvm} (b : bindings) (regular : (Var → option Z) → expr → Prop) {LAWS : TvmLaws TVM (bound_scalar b) regular}.
Implicit Types (environment : env) (e : expr) (depth : nat).

(** The expression is regular and has the value [z] under the environment and the bindings. *)
Definition means environment e (z : Z) : Prop :=
  regular (override environment (bound_var b)) e ∧ meaning environment b e = Some z.

Lemma literal_int_value var scalar e z w : literal_int e = Some z → expr_value var scalar e = Some w → w = z.
Proof. destruct e; try done. cbn. intros [= ->]. apply typed_Some. Qed.

Lemma environment_binds environment replacements :
  environment_replacements environment = Ok replacements →
  binds replacements (bound_scalar b) (bound_var b) (override environment (bound_var b)).
Proof.
  unfold environment_replacements, binds, override.
  revert replacements; induction environment as [|[x y] environment IH]; intros replacements H v.
  { cbn in H. by inv_ok. }
  cbn [omap_list] in H. apply outcome_bind_ok in H as ([x' e] & Hr & H). apply outcome_bind_ok in H as (rest & Hrest & H).
  inv_ok. specialize (IH _ Hrest v). cbn [dget expr_value] in *. unfold replacement in Hr.
  destruct (existsb _ ["int"; _; _]) eqn:Ei.
  - inv_ok. case_decide as Hx; [by subst|exact IH].
  - destruct (existsb _ ["float"; _]) eqn:Ef; [|done]. apply outcome_bind_ok in Hr as (f & _ & Hr). inv_ok.
    case_decide as Hx; [subst; cbn|exact IH]. unfold typed, dtype_range. cbn [dget].
    repeat (case_decide as Hd; [rewrite Hd in Ei; vm_compute in Ei; discriminate Ei|clear Hd]). done.
Qed.

Lemma simplified_means environment e e' z :
  simplified environment e = Ok e' → means environment e z → means [] e' z.
Proof.
  unfold simplified, means, meaning. intros H [Hg Hz]. destruct environment as [|p environment].
  - inv_ok. split; [by apply simplify_regular|by apply simplify_value].
  - apply outcome_bind_ok in H as (replacements & Hr & H). inv_ok. apply environment_binds in Hr.
    split; [eapply simplify_regular, substitute_regular; done|].
    eapply simplify_value; [by eapply substitute_regular|by eapply substitute_value].
Qed.

(** The parts of an expression with a value have values. *)
Lemma means_cast environment d x z : means environment (ECast d x) z → means environment x z.
Proof.
  intros [Hg Hz]. split; [eapply regular_part; [exact Hg|by left]|].
  cbn in Hz. apply bind_Some in Hz as (y & Hy & Hz). apply typed_Some in Hz as ->. exact Hy.
Qed.
Lemma means_binary environment class d x y z :
  means environment (EBin class d x y) z →
  ∃ l r, means environment x l ∧ means environment y r ∧ binary_value class l r = Some z.
Proof.
  intros [Hg Hz]. cbn in Hz. apply bind_Some in Hz as (l & Hl & Hz). apply bind_Some in Hz as (r & Hr & Hz).
  apply bind_Some in Hz as (w & Hw & Hz). apply typed_Some in Hz as ->. exists l, r.
  split_and!; [split; [|exact Hl]|split; [|exact Hr]|exact Hw]; (eapply regular_part; [exact Hg|]); set_solver.
Qed.

Lemma const_binary_value class f l r z :
  const_binary class = Some f → r ≠ 0 → binary_value class l r = Some z → f l r = z.
Proof.
  unfold const_binary. cbn [dget]. intros H Hr.
  repeat (case_decide; [simplify_eq; cbn; try (destruct (Z.eqb_spec r 0); [done|]); by intros [= <-]|]).
  done.
Qed.

(** A constant is the value of its expression. *)
Lemma const_int_sound depth environment e z w :
  const_int depth environment e = Ok (Some z) → means environment e w → z = w.
Proof.
  revert environment e z w; induction depth as [|depth IH]; intros environment e z w H Hm; [done|].
  cbn [const_int] in H.
  match type of H with context [simplified environment e ≫= ?k] => set (by_tvm := simplified environment e ≫= k) in H end.
  assert (by_tvm = Ok (Some z) → z = w) as Htvm.
  { clear H. subst by_tvm. intros H. apply outcome_bind_ok in H as (simple & Hs & H).
    pose proof (simplified_means _ _ _ _ Hs Hm) as Hv.
    destruct (literal_int simple) as [y|] eqn:El.
    - inv_ok. destruct Hv as [_ Hv]. by rewrite (literal_int_value _ _ _ _ _ El Hv).
    - destruct simple; try done. apply means_cast in Hv. by eapply IH. }
  destruct e as [d y|d bits|s|v|d x|class d a a'|a|d c t f|d bf ix|op d args|c d r]; try by apply Htvm.
  - destruct Hm as [_ Hw]. inv_ok. cbn in Hw. by apply typed_Some in Hw.
  - by destruct Hm as [_ Hw].
  - destruct (dget environment v) as [y|] eqn:Ev; [|by apply Htvm]. inv_ok. destruct Hm as [_ Hw].
    unfold meaning, override in Hw. cbn in Hw. rewrite Ev in Hw. by apply typed_Some in Hw.
  - apply means_cast in Hm. by eapply IH.
  - destruct (const_binary class) as [f|] eqn:Ec; [|by apply Htvm].
    apply outcome_bind_ok in H as (l & Hl & H). apply outcome_bind_ok in H as (r & Hr & H).
    destruct l as [l|]; [|by apply Htvm]. destruct r as [r|]; [|by apply Htvm].
    destruct (Z.eqb_spec r 0) as [|Hr0]; [by apply Htvm|]. inv_ok.
    apply means_binary in Hm as (l' & r' & Hl' & Hr' & Hw).
    assert (l = l') as -> by (by eapply IH). assert (r = r') as -> by (by eapply IH).
    by eapply const_binary_value.
Qed.

(** ** Affine forms *)

(** A value whose affine parts have named terms evaluates to [z]. *)
Definition evaluates (v : pyval) (b : bindings) (z : Z) : Prop :=
  match v with VAffine a => affine_wf a | _ => True end ∧ evaluate_runtime_int v b = Ok z.

Lemma affine_variable_value name a z :
  affine_variable name = Ok a → bound_int b name = Some z → affine_wf a ∧ affine_evaluate a b = Ok z.
Proof.
  unfold affine_variable, bound_int. intros H Hz. destruct (dget b name) as [v|] eqn:Hv; [|done].
  destruct v; simplify_eq.
  assert (name ≠ "") as Hn.
  { intros ->. unfold affine_init in H. cbn in H. done. }
  destruct (affine_init_evaluate b [(name, 1)] 0) as (a' & Ha & Hwf & Hev).
  { by repeat constructor. }
  { repeat constructor. by exists z. }
  change ([(name, VInt 1)]) with (int_terms [(name, 1)]) in H. rewrite Ha in H. inv_ok. split; [done|].
  rewrite Hev. cbn [affine_sum fst snd]. unfold binding_value. rewrite Hv. f_equal. lia.
Qed.

Lemma as_affine_value v a z :
  as_affine v = Ok a → evaluates v b z → affine_wf a ∧ affine_evaluate a b = Ok z.
Proof.
  intros H [Hwf Hz]. destruct v; cbn in H; try done; unfold affine_init in H; cbn in H; simplify_eq.
  - cbn in Hz. simplify_eq. split; [constructor|]. done.
  - done.
Qed.

Lemma affine_value_evaluates a z : affine_wf a → affine_evaluate a b = Ok z → evaluates (affine_value a) b z.
Proof.
  intros Hwf Hz. unfold affine_value. destruct a as [[|t l] c]; cbn [aff_terms aff_constant]; [|by split].
  unfold affine_evaluate in Hz. cbn in Hz. simplify_eq. by split.
Qed.

Lemma affine_sum_of_value sub l r v x y :
  affine_sum_of sub l r = Ok v → evaluates l b x → evaluates r b y →
  evaluates v b (if sub then x - y else x + y).
Proof.
  unfold affine_sum_of. intros H Hl Hr. apply outcome_bind_ok in H as (al & Hal & H).
  apply outcome_bind_ok in H as (ar & Har & H). apply outcome_bind_ok in H as (ar' & Har' & H).
  apply outcome_bind_ok in H as (s & Hs & H). inv_ok.
  destruct (as_affine_value _ _ _ Hal Hl) as [Hlw Hlv]. destruct (as_affine_value _ _ _ Har Hr) as [Hrw Hrv].
  assert (affine_wf ar' ∧ affine_evaluate ar' b = Ok (if sub then - y else y)) as [Hw' Hv'].
  { destruct sub; [|by simplify_eq].
    destruct (affine_homomorphism al ar b x y (-1)) as [_ _]; [done..|].
    destruct (affine_homomorphism ar al b y x (-1)) as [_ (s' & Hs' & Hw' & Hv')]; [done..|].
    rewrite Har' in Hs'. simplify_eq. split; [done|]. rewrite Hv'. f_equal. lia. }
  destruct (affine_homomorphism al ar' b x (if sub then - y else y) 0) as [(p & Hp & Hpw & Hpv) _]; [done..|].
  rewrite Hs in Hp. simplify_eq. replace (if sub then x - y else x + y) with (x + (if sub then - y else y)) by (destruct sub; lia).
  by apply affine_value_evaluates.
Qed.

Lemma scaled_value a x k p :
  affine_wf a → affine_evaluate a b = Ok x → affine_scaled a k = Ok p → evaluates (VAffine p) b (x * k).
Proof.
  intros Hw Hv Hp. destruct (affine_homomorphism a a b x x k) as [_ (s & Hs & Hsw & Hsv)]; [done..|].
  rewrite Hp in Hs. simplify_eq. by split.
Qed.

Lemma affine_product_value l r v x y :
  affine_product l r = Ok (Some v) →
  (∀ v, l = Some v → evaluates v b x) → (∀ v, r = Some v → evaluates v b y) → evaluates v b (x * y).
Proof.
  intros H Hl Hr. destruct l as [l|]; [|done]. specialize (Hl l eq_refl) as [Hlw Hlv].
  destruct r as [r|]; [|by destruct l]. specialize (Hr r eq_refl) as [Hrw Hrv].
  destruct l, r; cbn in H; try done.
  - cbn in Hlv, Hrv. simplify_eq. split; done.
  - apply outcome_bind_ok in H as (p & Hp & H). cbn in Hlv. simplify_eq. rewrite Z.mul_comm. by eapply scaled_value.
  - apply outcome_bind_ok in H as (p & Hp & H). cbn in Hrv. simplify_eq. by eapply scaled_value.
Qed.

Lemma affine_int_sound depth environment e v w :
  affine_int depth environment e = Ok (Some v) → means environment e w → evaluates v b w.
Proof.
  revert environment e v w; induction depth as [|depth IH]; intros environment e v w H Hm; [done|].
  cbn [affine_int] in H. apply outcome_bind_ok in H as (constant & Hc & H).
  destruct constant as [z|].
  { inv_ok. assert (z = w) as -> by (by eapply const_int_sound). by split. }
  apply outcome_bind_ok in H as (simple & Hs & H).
  pose proof (simplified_means _ _ _ _ Hs Hm) as Hv.
  destruct simple as [ | | |x| |class d a a'| | | | | ]; try done.
  - apply outcome_bind_ok in H as (p & Hp & H). inv_ok. destruct Hv as [_ Hv]. unfold meaning in Hv. cbn in Hv.
    apply bind_Some in Hv as (y & Hy & Hv). apply typed_Some in Hv as ->. by eapply affine_variable_value.
  - apply means_binary in Hv as (l & r & Hl & Hr & Hv).
    destruct (mem_str class ["Add"; "Sub"]) eqn:Eas.
    + apply outcome_bind_ok in H as (vl & Hvl & H). apply outcome_bind_ok in H as (vr & Hvr & H).
      destruct vl as [vl|]; [|done]. destruct vr as [vr|]; [|done].
      apply outcome_bind_ok in H as (s & Hsum & H). inv_ok.
      pose proof (affine_sum_of_value _ _ _ _ _ _ Hsum (IH _ _ _ _ Hvl Hl) (IH _ _ _ _ Hvr Hr)) as Hev.
      apply mem_str_true in Eas. apply list_elem_of_In in Eas as [<-|[<-|[]]]; cbn in Hv; by simplify_eq.
    + destruct (mem_str class ["Mul"]) eqn:Em; [|done].
      apply outcome_bind_ok in H as (vl & Hvl & H). apply outcome_bind_ok in H as (vr & Hvr & H).
      apply mem_str_true in Em. apply list_elem_of_In in Em as [<-|[]]. cbn in Hv. simplify_eq.
      eapply affine_product_value; [exact H|..]; intros ? ->; by eapply IH.
Qed.

(** ** Runtime expressions *)

Lemma evaluate_symbolic operation args zs :
  Forall2 (λ a z, evaluate_runtime_int a b = Ok z) args zs →
  evaluate_runtime_int (VSym operation args) b = sym_apply operation zs.
Proof.
  intros H. cbn [evaluate_runtime_int].
  assert (omap_list (λ a, evaluate_runtime_int a b) args = Ok zs) as ->; [by apply omap_list_ok|done].
Qed.

Lemma sym_apply_binary class operation l r z :
  runtime_binary class = Some operation → binary_value class l r = Some z →
  sym_apply (normalize operation) [l; r] = Ok z.
Proof.
  unfold runtime_binary. cbn [dget]. intros H Hz.
  repeat (case_decide; [simplify_eq; cbn in Hz;
    try (destruct (Z.eqb_spec r 0) as [|Hr]; [done|]); simplify_eq;
    unfold sym_apply; cbn [nth_value lookup list_lookup]; ok_bind; eval_mem_str; cbn|]); try done.
  all: try (rewrite (proj2 (Z.eqb_neq r 0)) by done).
  all: try (destruct (l =? 0), (r =? 0); done).
  all: try (rewrite trunc_quotient_quot by done; cbn; f_equal).
  all: try done.
  pose proof (Z.quot_rem' l r). cbn. f_equal. lia.
Qed.

Lemma symbolic_value operation arguments v :
  symbolic operation arguments = Ok (Some v) →
  ∃ args, arguments = Some <$> args ∧ v = VSym (normalize operation) args.
Proof.
  unfold symbolic. intros H. destruct (mapM id arguments) as [args|] eqn:Hm; [|done].
  apply outcome_bind_ok in H as (v' & Hv & H). inv_ok. exists args. split.
  - apply mapM_Some in Hm. clear -Hm. induction Hm as [|a x l l' Ha Hl IH]; cbn; [done|]. unfold id in Ha. by rewrite Ha, IH.
  - unfold symbolic_init in Hv. destruct (dget sym_arities (normalize operation)); [|done].
    apply outcome_bind_ok in Hv as (? & _ & Hv). by apply outcome_bind_ok in Hv as (? & _ & [= <-]).
Qed.

(** The value of a symbolic integer built from parts with values. *)
Lemma symbolic_evaluates operation arguments v zs z :
  symbolic operation arguments = Ok (Some v) →
  Forall2 (λ a z, ∀ x, a = Some x → evaluates x b z) arguments zs →
  sym_apply (normalize operation) zs = Ok z →
  evaluates v b z.
Proof.
  intros H Hargs Hz. apply symbolic_value in H as (args & -> & ->). split; [done|].
  rewrite (evaluate_symbolic _ args zs); [done|].
  apply Forall2_fmap_l in Hargs. eapply Forall2_impl; [exact Hargs|]. intros a y Ha. by apply (Ha a).
Qed.

Lemma runtime_load_value buffers name index v z :
  runtime_load buffers name index = Ok (Some v) → bound_scalar b name index = Some z → evaluates v b z.
Proof.
  unfold runtime_load. intros H Hz. destruct (dget buffers name) as [spec|]; [|done].
  destruct (negb _); [done|]. destruct (bs_shape spec) as [|[| |extent| | | | | | | | |] [|? ?]]; try done.
  destruct (extent <=? index); [done|]. apply outcome_bind_ok in H as (a & Ha & H). inv_ok.
  by eapply affine_variable_value.
Qed.

Lemma runtime_int_value buffers depth environment e v w :
  runtime_int buffers depth environment e = Ok (Some v) → means environment e w → evaluates v b w.
Proof.
  revert environment e v w; induction depth as [|depth IH]; intros environment e v w H Hm; [done|].
  cbn [runtime_int] in H. apply outcome_bind_ok in H as (affine & Ha & H).
  destruct affine as [va|].
  { inv_ok. by eapply affine_int_sound. }
  apply outcome_bind_ok in H as (simple & Hs & H).
  pose proof (simplified_means _ _ _ _ Hs Hm) as Hv. clear Hm.
  assert (∀ x o y, x ∈ parts simple → expr_value (bound_var b) (bound_scalar b) x = Some y →
    runtime_int buffers depth [] x = Ok o → ∀ v, o = Some v → evaluates v b y) as Hpart.
  { intros x o y Hx Hy Ho v' ->. eapply IH; [exact Ho|]. split; [|exact Hy].
    eapply regular_part; [apply Hv|exact Hx]. }
  destruct simple as [ | | | |d x|class d a a'|a|d c t f|d bf ix| | ]; try done.
  - destruct (integer_dtype d); [|done]. apply means_cast in Hv. by eapply IH.
  - destruct (runtime_binary class) as [operation|] eqn:Eop; [|done].
    apply outcome_bind_ok in H as (vl & Hvl & H). apply outcome_bind_ok in H as (vr & Hvr & H).
    apply means_binary in Hv as (l & r & [_ Hl] & [_ Hr] & Hv).
    apply (symbolic_evaluates _ _ _ [l; r] _ H); [|by eapply sym_apply_binary].
    repeat apply Forall2_cons_2; try apply Forall2_nil_2; (eapply Hpart; [|done|done]; set_solver).
  - apply outcome_bind_ok in H as (vx & Hvx & H). destruct Hv as [_ Hv]. apply bind_Some in Hv as (x & Hxv & [= <-]).
    apply (symbolic_evaluates _ _ _ [x] _ H).
    + repeat apply Forall2_cons_2; try apply Forall2_nil_2; (eapply Hpart; [|done|done]; set_solver).
    + cbn. by destruct (x =? 0).
  - apply outcome_bind_ok in H as (vc & Hvc & H). apply outcome_bind_ok in H as (vt & Hvt & H).
    apply outcome_bind_ok in H as (vf & Hvf & H). destruct Hv as [_ Hv].
    apply bind_Some in Hv as (xc & Hxc & Hv). apply bind_Some in Hv as (xt & Hxt & Hv).
    apply bind_Some in Hv as (xf & Hxf & Hv). apply typed_Some in Hv as ->.
    apply (symbolic_evaluates _ _ _ [xc; xt; xf] _ H).
    + repeat apply Forall2_cons_2; try apply Forall2_nil_2; (eapply Hpart; [|done|done]; set_solver).
    + cbn. by destruct (xc =? 0).
  - destruct (negb (integer_dtype d)); [done|]. destruct ix as [|index [|? ?]]; try done.
    apply outcome_bind_ok in H as (oi & Hi & H). destruct oi as [i|]; [|done].
    destruct (i <? 0); [done|]. destruct Hv as [Hg Hv]. cbn in Hv. apply bind_Some in Hv as (i' & Hi' & Hv).
    apply bind_Some in Hv as (z & Hz & Hv). apply typed_Some in Hv as ->.
    assert (i = i') as ->.
    { eapply (const_int_sound _ [] index); [exact Hi|]. split; [|exact Hi'].
      eapply regular_part; [exact Hg|]. by left. }
    by eapply runtime_load_value.
Qed.
End sound.

(** ** A simplifier *)

(** Substitution of literals for variables, and folding of constants: enough of TVM to run the
    examples. *)
Fixpoint replace_vars (replacements : dict Var expr) (e : expr) : expr :=
  let go := replace_vars replacements in
  match e with
  | EVar v => match dget replacements v with Some e => e | None => e end
  | ECast d x => ECast d (go x)
  | EBin c d a b => EBin c d (go a) (go b)
  | ENot a => ENot (go a)
  | ESelect d c t f => ESelect d (go c) (go t) (go f)
  | ELoad d buffer indices => ELoad d buffer (map go indices)
  | ECall op d args => ECall op d (map go args)
  | e => e
  end.
Fixpoint fold_constants (e : expr) : expr :=
  match e with
  | EBin c d a b =>
      match fold_constants a, fold_constants b with
      | EInt da l, EInt db r =>
          match binary_value c l r ≫= typed d with Some z => EInt d z | None => EBin c d (EInt da l) (EInt db r) end
      | a, b => EBin c d a b
      end
  | ELoad d buffer indices => ELoad d buffer (map fold_constants indices)
  | e => e
  end.
Fixpoint loads_of (e : expr) : list (tir_buffer expr * list expr) :=
  match e with
  | ECast _ x | ENot x => loads_of x
  | EBin _ _ a b => loads_of a ++ loads_of b
  | ESelect _ c t f => loads_of c ++ loads_of t ++ loads_of f
  | ELoad _ buffer indices => flat_map loads_of indices ++ [(buffer, indices)]
  | ECall _ _ args => flat_map loads_of args
  | _ => []
  end.
#[export] Instance folding : Tvm := {
  tvm_str := expr_class;
  tvm_simplify := fold_constants;
  tvm_substitute := replace_vars;
  tvm_loads := loads_of;
}.

Lemma fold_constants_value var scalar e z : expr_value var scalar e = Some z → expr_value var scalar (fold_constants e) = Some z.
Proof.
  revert z. induction e as [d y|d bits|s|v|d x IH|c d a a' IHa IHb|a IH|d c t f IHc IHt IHf|d bf ix IH|op d args|c d r] using expr_load_ind; intros z H; try done.
  - cbn in H. apply bind_Some in H as (l & Hl & H). apply bind_Some in H as (r & Hr & H).
    specialize (IHa _ Hl). specialize (IHb _ Hr). cbn [fold_constants].
    assert (expr_value var scalar (EBin c d (fold_constants a) (fold_constants a')) = Some z) as Hkeep.
    { cbn. rewrite IHa, IHb. exact H. }
    destruct (fold_constants a), (fold_constants a'); try exact Hkeep.
    cbn in IHa, IHb. apply typed_Some in IHa as ->. apply typed_Some in IHb as ->.
    change (binary_value c value value0 ≫= typed d = Some z) in H. rewrite H.
    apply bind_Some in H as (w & _ & H). cbn. by pose proof (typed_Some _ _ _ H) as ->.
  - cbn in H. destruct ix as [|i [|? ?]]; try done. apply bind_Some in H as (y & Hy & H).
    inversion IH as [|? ? Hi _]; subst. cbn. by rewrite (Hi _ Hy).
Qed.

Lemma replace_vars_value var var' scalar replacements e :
  binds replacements scalar var var' → expr_value var scalar (replace_vars replacements e) = expr_value var' scalar e.
Proof.
  intros Hb. induction e as [d y|d bits|s|v|d x IH|c d a a' IHa IHb|a IH|d c t f IHc IHt IHf|d bf ix IH|op d args|c d r] using expr_load_ind;
    cbn; try done.
  - symmetry. apply Hb.
  - by rewrite IH.
  - by rewrite IHa, IHb.
  - by rewrite IH.
  - by rewrite IHc, IHt, IHf.
  - destruct ix as [|i [|? ?]]; try done. inversion IH as [|? ? Hi _]; subst. cbn. by rewrite Hi.
Qed.
#[export] Instance folding_laws scalar : TvmLaws folding scalar (λ _ _, True).
Proof.
  split; try done.
  - intros var e z _. apply fold_constants_value.
  - intros var var' replacements e z Hb _. cbn. by rewrite (replace_vars_value _ _ _ _ _ Hb).
Qed.

(** ** Expressions that need no simplifier *)

(** The value of an expression over literals and bound variables, with the five operations
    [_const_int] evaluates itself and no zero on the right. *)
Fixpoint bound_value (environment : env) (e : expr) : option Z :=
  match e with
  | EInt _ z => Some z
  | EVar v => dget environment v
  | ECast _ x => bound_value environment x
  | EBin class _ a b =>
      evaluate ← const_binary class;
      l ← bound_value environment a;
      r ← bound_value environment b;
      if r =? 0 then None else Some (evaluate l r)
  | _ => None
  end.
Fixpoint expr_depth (e : expr) : nat :=
  match e with
  | ECast _ x => S (expr_depth x)
  | EBin _ _ a b => S (Nat.max (expr_depth a) (expr_depth b))
  | _ => 1
  end.

Lemma const_int_bound {TVM : Tvm} depth environment e z :
  (expr_depth e <= depth)%nat → bound_value environment e = Some z → const_int depth environment e = Ok (Some z).
Proof.
  revert e z; induction depth as [|depth IH]; intros e z Hd Hz; [destruct e; cbn in Hd; lia|].
  destruct e as [d y|d bits|s|v|d x|class d a a'|a|d c t f|d bf ix|op d args|c d r]; try done; cbn [bound_value] in Hz.
  - by simplify_eq.
  - cbn [const_int]. by rewrite Hz.
  - cbn [const_int]. apply IH; [cbn in Hd; lia|done].
  - apply bind_Some in Hz as (f & Hf & Hz). apply bind_Some in Hz as (l & Hl & Hz).
    apply bind_Some in Hz as (r & Hr & Hz). destruct (r =? 0) eqn:E0; [done|]. simplify_eq.
    cbn [expr_depth] in Hd. cbn [const_int]. rewrite Hf, (IH a l), (IH a' r) by (done || lia). ok_bind. by rewrite E0.
Qed.


(** A narrowing cast has no such meaning: [_const_int] drops every cast, so the value that a
    cast to eight bits wraps to 44 is extracted as 300. *)
Example narrowing_cast_dropped {TVM : Tvm} b :
  const_int 2 [] (ECast "int8" (EInt "int32" 300)) = Ok (Some 300) ∧
  meaning [] b (ECast "int8" (EInt "int32" 300)) = None.
Proof. done. Qed.

(** [max(i * 128 + n, lengths[0])] in the iteration [i = 3], with [n = 5] and [lengths[0] = 400]. *)
Definition loop_var : Var := MkVar 1 "i" "int32".
Definition size_var : Var := MkVar 2 "n" "int32".
Definition lengths_buffer : tir_buffer expr :=
  MkTirBuffer "lengths" (MkVar 3 "lengths" "handle") "int32" [EInt "int32" 4] [] (EInt "int32" 0) "global".
Definition extent_expr : expr :=
  EBin "Max" "int32"
    (EBin "Add" "int32" (EBin "Mul" "int32" (EVar loop_var) (EInt "int32" 128)) (EVar size_var))
    (ELoad "int32" lengths_buffer [EInt "int32" 0]).
Definition extent_buffers : dict string BufferSpec :=
  [("lengths", MkBufferSpec "lengths" GM [VInt 4] "int32" None None None [])].
Definition extent_bindings : bindings := [("n", VInt 5); ("lengths[0]", VInt 400)].
Example extent_symbolic :
  runtime_int extent_buffers 8 [(loop_var, 3)] extent_expr =
    Ok (Some (VSym "max" [VAffine (Affine [("n", 1)] 384); VAffine (Affine [("lengths[0]", 1)] 0)])).
Proof. vm_compute. reflexivity. Qed.
