(* ===== verification/BridgeRegions.v ===== *)
(** From the operands of a lowered call to regions of buffers: the decoders of [bridge.py] run in
    a monad that reads the buffers and can stop early, with an exception or without metadata. *)

From S2P Require Import Prelude PyDict PySort PyStr Errors Values Program Intervals MemoryView RegionOverlap.
From S2P Require Import PyNum BridgeOps BridgeMemory BridgeExpr.
Local Open Scope string_scope.
Local Open Scope Z_scope.
Local Open Scope list_scope.

(** ** Decoding *)

(** How a decoder ends before its last line: [return {}], or an exception. *)
Inductive stop := NoMetadata | Failed (e : exn).
Abbreviation decM := (stM BridgeState stop).

Definition skip {A} : decM A := st_raise NoMetadata.
Definition fails {A} (c : exn_class) (label : string) : decM A := st_raise (Failed (Exn c label [])).
Definition of_result {A} (m : result A) : decM A :=
  st_lift (match m with Ok a => Ok a | Raise e => Raise (Failed e) end).
(** [if v is None: return {}] *)
Definition known {A} (v : option A) : decM A := match v with Some a => mret a | None => skip end.
Definition all_known {A} (l : list (option A)) : decM (list A) := known (mapM id l).
(** [if not b: return {}] and [if not b: raise c(label)] *)
Definition unless_skip (b : bool) : decM unit := if b then mret tt else skip.
Definition check (b : bool) (c : exn_class) (label : string) : decM unit := if b then mret tt else fails c label.
(** [if v is None: raise c(label)] *)
Definition need {A} (v : option A) (c : exn_class) (label : string) : decM A :=
  match v with Some a => mret a | None => fails c label end.

(** The metadata of a decoder: nothing when it stopped early. *)
Definition decoded (m : decM (dict string pyval)) : bridgeM (dict string pyval) := λ st,
  match m st with
  | (st, Ok metadata) => (st, Ok metadata)
  | (st, Raise NoMetadata) => (st, Ok [])
  | (st, Raise (Failed e)) => (st, Raise e)
  end.

(** What a decoder reads besides the buffers: the depth of Python's stack, the buffer of each data
    variable, the shapes before storage planning, and the context of the call. *)
Class Decode := {
  dc_depth : nat;
  dc_names : dict string string;
  dc_shapes : dict string (list Z);
  dc_core : Z;
  dc_env : env;
}.

Section decode.
Context {TVM : Tvm} {D : Decode}.

Definition int_arg (e : expr) : decM (option pyval) :=
  st ← st_get; of_result (runtime_int (br_buffers st) dc_depth dc_env e).
Definition const_arg (e : expr) : decM (option Z) := of_result (const_int dc_depth dc_env e).
Definition numeric_arg (e : expr) : decM (option pyval) :=
  st ← st_get; of_result (numeric_scalar (br_buffers st) dc_depth dc_env e).
Definition literal_arg (e : expr) : pyval := literal (tvm_simplify e).
Definition int_args (l : list expr) : decM (list (option pyval)) := st_map int_arg l.

(** [isinstance(v, int)], with the integer *)
Definition static (v : pyval) : option Z := as_integral v.
Definition statics (l : list pyval) : option (list Z) := mapM as_integral l.
(** [isinstance(v, int) and v < 0] for some value *)
Definition some_negative (l : list pyval) : bool := existsb is_negative l.
(** [isinstance(v, (bool, int, float))] *)
Definition is_number (v : pyval) : bool := bool_decide (is_Some (as_number v)).
Definition offset_aligned (r : BufferRegion) (n : Z) : bool :=
  match static (rg_byte_offset r) with Some z => z mod n =? 0 | None => true end.
Definition region_in (scope : MemoryScope) (r : BufferRegion) : bool := bool_decide (rg_scope r = scope).
Definition same_dtype (a b : BufferRegion) : bool := bool_decide (rg_dtype a = rg_dtype b).
Definition itemsize_of (r : BufferRegion) : decM Z := of_result (dtype_size_bytes (rg_dtype r)).
Definition buffer_of (name : string) : decM BufferSpec := st ← st_get; of_result (buffer_named st name).

(** ** Access pointers *)

Definition ACCESS_PTR : string := "tir.tvm_access_ptr".
(** [isinstance(pointer, tir.Call) and str(pointer.op.name) == "tir.tvm_access_ptr"], with the
    arguments *)
Definition access_ptr (e : expr) : option (list expr) :=
  match e with ECall op _ args => if bool_decide (op = ACCESS_PTR) then Some args else None | _ => None end.

Definition is_access_ptr (e : expr) : bool := bool_decide (is_Some (access_ptr e)).

(** [_access_ptr_data_name] *)
Definition data_name (pointer : expr) : option string :=
  match access_ptr pointer with Some (_ :: data :: _) => Some (var_name data) | _ => None end.
(** [buffer_name_by_data_var.get(data_name)] *)
Definition pointed_buffer (pointer : expr) : option string := data_name pointer ≫= dget dc_names.

(** [_access_ptr_extent] *)
Definition access_ptr_extent (pointer : expr) : decM (option pyval) :=
  match access_ptr pointer with
  | Some (_ :: _ :: _ :: extent :: _) =>
      extent ← int_arg extent;
      _ ← check (match extent with Some v => negb (is_negative v) | None => true end) ProgramValidationError
        "access pointer extent must not be negative";
      mret extent
  | _ => mret None
  end.

(** Data variable, element offset and annotated dtype of an operand. *)
Definition pointer_parts (pointer : expr) : decM (option (expr * pyval * option string)) :=
  match access_ptr pointer with
  | None => mret (Some (pointer, VInt 0, None))
  | Some (annotation :: data :: offset :: _ :: _) =>
      let annotated := expr_dtype annotation in
      let dtype := if nonempty annotated && negb (mem_str annotated ["handle"]) then Some annotated else None in
      offset ← int_arg offset;
      mret (option_map (λ offset, (data, offset, dtype)) offset)
  | Some _ => mret None
  end.

(** [v * k if isinstance(v, int) else v.scaled(k)] *)
Definition times (v : pyval) (k : Z) : decM pyval := of_result (scale_runtime_int v k).
Definition plus (v w : pyval) : decM pyval := of_result (add_runtime_int v w).

(** The strides of a region with two dimensions. *)
Definition row_strides (spec : BufferSpec) (itemsize : Z) (physical_cols row_stride : option pyval)
    : decM (option (list pyval)) :=
  source ← match row_stride, physical_cols with
           | Some v, _ | None, Some v => mret v
           | None, None => of_result (match last (bs_shape spec) with
                                      | Some v => Ok v
                                      | None => raise IndexError "tuple index out of range"
                                      end)
           end;
  if is_int_expr source then stride ← times source itemsize; mret (Some [stride; VInt itemsize]) else mret None.

(** [_access_buffer_region] *)
Definition access_region (pointer : expr) (shape : list pyval) (physical_cols row_stride : option pyval)
    : decM (option BufferRegion) :=
  parts ← pointer_parts pointer;
  match parts with
  | None => mret None
  | Some (data, offset, annotated) =>
      match dget dc_names (var_name data) with
      | None => mret None
      | Some name =>
          spec ← buffer_of name;
          let dtype := default (bs_dtype spec) annotated in
          itemsize ← of_result (dtype_size_bytes dtype);
          strides ← (if (length shape =? 2)%nat then
                       strides ← row_strides spec itemsize physical_cols row_stride;
                       mret (option_map Some strides)
                     else mret (Some None));
          match strides with
          | None => mret None
          | Some strides =>
              byte_offset ← times offset itemsize;
              r ← of_result (buffer_region_init name (scope_value (bs_scope spec)) shape dtype byte_offset strides
                               (if shared_scope (bs_scope spec) then None else Some dc_core));
              mret (Some r)
          end
      end
  end.
(** The call with its default arguments. *)
Definition region (pointer : expr) (shape : list pyval) : decM (option BufferRegion) :=
  access_region pointer shape None None.

(** [dataclasses.replace] of a region: shape, offset and strides. *)
Definition replace_region (r : BufferRegion) (shape : list pyval) (offset : pyval) (strides : option (list pyval))
    : decM BufferRegion :=
  of_result (buffer_region_init (rg_buffer r) (scope_value (rg_scope r)) shape (rg_dtype r) offset strides (rg_core_id r)).
Definition with_strides (r : BufferRegion) (strides : list pyval) : decM BufferRegion :=
  replace_region r (rg_shape r) (rg_byte_offset r) (Some strides).
Definition with_shape (r : BufferRegion) (shape : list pyval) : decM BufferRegion :=
  replace_region r shape (rg_byte_offset r) (rg_strides_bytes r).
Definition with_offset (r : BufferRegion) (offset : pyval) : decM BufferRegion :=
  replace_region r (rg_shape r) offset (rg_strides_bytes r).
(** The element with an index, of the one-element region at the start of a buffer. *)
Definition element_at (r : BufferRegion) (index : pyval) : decM BufferRegion :=
  itemsize ← itemsize_of r;
  scaled ← times index itemsize;
  offset ← plus (rg_byte_offset r) scaled;
  with_offset r offset.

(** The scratch operand of several calls: as long as its pointer says. *)
Definition scratch_region (pointer : expr) : decM BufferRegion :=
  extent ← access_ptr_extent pointer;
  extent ← known extent;
  scratch ← region pointer [extent];
  known scratch.

(** [_region_fits_buffer] *)
Definition region_fits_buffer (r : BufferRegion) : decM bool :=
  bounds ← of_result (region_bounds r);
  spec ← buffer_of (rg_buffer r);
  match bounds with
  | None => mret (bool_decide (rg_byte_offset r = VInt 0))
  | Some bounds =>
      if negb (forallb (λ v, bool_decide (is_Some (as_integral v))) (bs_shape spec)) then mret true
      else
        size ← of_result (buffer_size_bytes spec);
        mret (match size with Some size => (0 <=? bounds.1) && (bounds.2 <=? size) | None => true end)
  end.

(** ** Shapes of vector operands *)

(** [_vector_shape], of the count or of the valid rows, valid columns and physical columns *)
Definition vector_shape (tail : bool) (dims : list expr) : decM (option (list pyval)) :=
  values ← int_args dims;
  match mapM id values with
  | None => mret None
  | Some values =>
      _ ← check (negb (some_negative values)) ProgramValidationError "vector extents must not be negative";
      _ ← check (match tail, statics values with
                 | true, Some [_; valid; physical] => valid <=? physical
                 | _, _ => true
                 end) ProgramValidationError "tail valid columns must not exceed physical columns";
      mret (Some (if tail then take 2 values else values))
  end.

Definition or_none (v : option pyval) : pyval := default VNone v.

(** [_tail_details] *)
Definition tail_details (dims : list expr) : decM pyval :=
  values ← int_args dims;
  mret (VDict (zip ["valid_rows"; "valid_cols"; "physical_cols"] (or_none <$> values))).

(** [dtype in {...}] or an unsupported dtype *)
Definition supports (r : BufferRegion) (dtypes : list string) (label : string) : decM unit :=
  check (mem_str (rg_dtype r) dtypes) UnsupportedSimOpError label.
End decode.

Definition GATHER_DTYPES : list string :=
  ["int8"; "uint8"; "int16"; "uint16"; "int32"; "uint32"; "float16"; "float32"].
Definition FLOAT_DTYPES : list string := ["float16"; "float32"].
