(* ===== verification/DecodeVector.v ===== *)
(** The element-wise operand decoders of [bridge.py]: binary, unary, scalar, comparison, selection,
    broadcast, casts, fills and sequences. *)

From S2P Require Import Prelude PyDict PySort PyStr Errors Values Program.
From S2P Require Import PyNum ExecEnv BridgeOps BridgeMemory BridgeExpr BridgeRegions.
Local Open Scope string_scope.
Local Open Scope Z_scope.
Local Open Scope list_scope.

Section decode.
Context {TVM : Tvm} {D : Decode}.
Abbreviation metadata := (dict string pyval).

(** [add], ..., [min], [max] *)
Definition binary_metadata (tail : bool) (arguments : list expr) : decM metadata :=
  match arguments with
  | dst :: lhs :: rhs :: dims =>
      _ ← unless_skip (length dims =? (if tail then 3 else 1))%nat;
      shape ← vector_shape tail dims;
      shape ← known shape;
      destination ← region dst shape;
      left ← region lhs shape;
      right ← region rhs shape;
      destination ← known destination;
      left ← known left;
      right ← known right;
      let md := [("dst", VRegion destination); ("lhs", VRegion left); ("rhs", VRegion right)] in
      if tail then details ← tail_details dims; mret (dset md "tail" details) else mret md
  | _ => skip
  end.

(** [abs], [exp], ... *)
Definition unary_metadata (tail : bool) (arguments : list expr) : decM metadata :=
  match arguments with
  | dst :: src :: dims =>
      _ ← unless_skip (length dims =? (if tail then 3 else 1))%nat;
      shape ← vector_shape tail dims;
      shape ← known shape;
      destination ← region dst shape;
      source ← region src shape;
      destination ← known destination;
      source ← known source;
      let md := [("dst", VRegion destination); ("src", VRegion source)] in
      if tail then details ← tail_details dims; mret (dset md "tail" details) else mret md
  | _ => skip
  end.

(** A count that must not be negative, and is known. *)
Definition count_arg (e : expr) (label : string) : decM pyval :=
  count ← int_arg e;
  count ← known count;
  _ ← check (negb (is_negative count)) ProgramValidationError label;
  mret count.

(** An optional scratch operand of the same count. *)
Definition with_scratch (md : metadata) (scratch : option expr) (count : pyval) : decM metadata :=
  match scratch with
  | None => mret md
  | Some pointer => r ← region pointer [count]; r ← known r; mret (dset md "scratch" (VRegion r))
  end.

(** [sigmoid], [silu], [sin], [cos] *)
Definition scratch_unary_metadata (arguments : list expr) : decM metadata :=
  let decode dst src scratch n :=
    count ← count_arg n "vector count must not be negative";
    destination ← region dst [count];
    source ← region src [count];
    destination ← known destination;
    source ← known source;
    with_scratch [("dst", VRegion destination); ("src", VRegion source)] scratch count in
  match arguments with
  | [dst; src; n] => decode dst src None n
  | [dst; src; scratch; n] => decode dst src (Some scratch) n
  | _ => skip
  end.

Definition region_at (md : metadata) (key : string) : option BufferRegion := as_region (mget md key).

(** [round] *)
Definition round_metadata (arguments : list expr) : decM metadata :=
  md ← scratch_unary_metadata arguments;
  source ← known (region_at md "src");
  destination ← known (region_at md "dst");
  _ ← check (same_dtype source destination) ProgramValidationError "round operand dtypes must match";
  _ ← supports source FLOAT_DTYPES "functional round dtype";
  mret md.

(** [_bitwise_metadata] *)
Definition BITWISE_DTYPES : list string := ["int16"; "int32"; "uint16"; "uint32"].
Definition bitwise_metadata (md : metadata) : decM metadata :=
  match md with
  | [] => mret md
  | _ =>
      let names := ["dst"; "src"; "lhs"; "rhs"] in
      let misplaced name := dmem md name && negb (bool_decide (is_Some (region_at md name))) in
      _ ← unless_skip (negb (existsb misplaced names));
      match fromkeys (rg_dtype <$> omap (region_at md) names) with
      | [dtype] =>
          _ ← check (mem_str dtype BITWISE_DTYPES) UnsupportedSimOpError "functional bitwise dtype";
          mret md
      | _ => fails ProgramValidationError "bitwise operand dtypes must match"
      end
  end.

(** [bitwise_lshift], [bitwise_rshift] *)
Definition shift_metadata (arguments : list expr) : decM metadata :=
  match arguments with
  | [dst; src; shift; n] =>
      count ← int_arg n;
      shift ← int_arg shift;
      count ← need count UnsupportedSimOpError "functional bitwise shift requires executable arguments";
      shift ← need shift UnsupportedSimOpError "functional bitwise shift requires executable arguments";
      _ ← check (negb (is_negative count)) ProgramValidationError "bitwise shift count must not be negative";
      destination ← region dst [count];
      source ← region src [count];
      destination ← known destination;
      source ← known source;
      md ← bitwise_metadata [("dst", VRegion destination); ("src", VRegion source)];
      _ ← match static shift with
          | None => mret tt
          | Some z =>
              itemsize ← itemsize_of source;
              check ((0 <=? z) && (z <=? itemsize * 8)) ProgramValidationError "bitwise shift range"
          end;
      mret (dset (dset md "shift" shift) "count" count)
  | _ => skip
  end.

(** [adds], [muls], ...: a scalar literal, or an element of a buffer *)
Definition scalar_metadata (tail : bool) (arguments : list expr) : decM metadata :=
  let operands dst src dims :=
    shape ← vector_shape tail dims;
    shape ← known shape;
    destination ← region dst shape;
    source ← region src shape;
    destination ← known destination;
    source ← known source;
    mret [("dst", VRegion destination); ("lhs", VRegion source)] in
  match tail, arguments with
  | false, [dst; src; scalar; n] =>
      md ← operands dst src [n];
      mret (dset md "scalar" (literal scalar))
  | false, [dst; src; scalar; index; n] =>
      md ← operands dst src [n];
      scalar_index ← int_arg index;
      scalar_source ← region scalar [VInt 1];
      scalar_index ← known scalar_index;
      scalar_source ← known scalar_source;
      element ← element_at scalar_source scalar_index;
      mret (dset md "scalar_src" (VRegion element))
  | true, [dst; src; scalar; rows; cols; physical] =>
      md ← operands dst src [rows; cols; physical];
      details ← tail_details [rows; cols; physical];
      mret (dset (dset md "scalar" (literal scalar)) "tail" details)
  | _, _ => skip
  end.

(** [axpy] *)
Definition axpy_metadata (arguments : list expr) : decM metadata :=
  md ← scalar_metadata false arguments;
  mret (match region_at md "dst" with Some r => dset md "accumulator" (VRegion r) | None => md end).

(** [mul_add_dst] *)
Definition mul_add_dst_metadata (arguments : list expr) : decM metadata :=
  md ← binary_metadata false arguments;
  operands ← all_known (region_at md <$> ["dst"; "lhs"; "rhs"]);
  match fromkeys (rg_dtype <$> operands) with
  | [dtype] =>
      _ ← check (mem_str dtype FLOAT_DTYPES) UnsupportedSimOpError "functional mul_add_dst dtype";
      mret (dset md "accumulator" (mget md "dst"))
  | _ => fails ProgramValidationError "mul_add_dst operand dtypes must match"
  end.

(** [pow], [bitwise_xor]: as many elements as the destination pointer covers *)
Definition pow_metadata (arguments : list expr) : decM metadata :=
  let decode dst lhs rhs scratch :=
    count ← access_ptr_extent dst;
    count ← known count;
    destination ← region dst [count];
    left ← region lhs [count];
    right ← region rhs [count];
    destination ← known destination;
    left ← known left;
    right ← known right;
    with_scratch [("dst", VRegion destination); ("lhs", VRegion left); ("rhs", VRegion right)] scratch count in
  match arguments with
  | [dst; lhs; rhs] => decode dst lhs rhs None
  | [dst; lhs; rhs; scratch] => decode dst lhs rhs (Some scratch)
  | _ => skip
  end.

(** [arguments[1:]] when the first is a string literal *)
Definition without_template (arguments : list expr) : list expr :=
  match arguments with EString _ :: arguments => arguments | _ => arguments end.

(** [clamp], [clamp_max], [clamp_min] *)
Definition clamp_metadata (operation : string) (arguments : list expr) : decM metadata :=
  let two := mem_str operation ["clamp"] in
  let decode dst src scratch bounds n :=
    count ← int_arg n;
    let scalars := literal_arg <$> bounds in
    count ← known count;
    _ ← check (negb (is_negative count)) ProgramValidationError "clamp count must not be negative";
    _ ← check (forallb is_number scalars) UnsupportedSimOpError "functional clamp requires literal bounds";
    destination ← region dst [count];
    source ← region src [count];
    destination ← known destination;
    source ← known source;
    let md := [("dst", VRegion destination); ("src", VRegion source)] in
    let md := match scalars with
              | [lo; hi] => dset (dset md "min_value" lo) "max_value" hi
              | scalar :: _ => dset md "scalar" scalar
              | [] => md
              end in
    with_scratch md scratch count in
  match two, without_template arguments with
  | true, [dst; src; lo; hi; n] => decode dst src None [lo; hi] n
  | true, [dst; src; scratch; lo; hi; n] => decode dst src (Some scratch) [lo; hi] n
  | false, [dst; src; bound; n] => decode dst src None [bound] n
  | false, [dst; src; scratch; bound; n] => decode dst src (Some scratch) [bound] n
  | _, _ => skip
  end.

(** An optional scratch operand as long as its pointer says. *)
Definition with_pointer_scratch (md : metadata) (scratch : option expr) : decM metadata :=
  match scratch with
  | None => mret md
  | Some pointer => r ← scratch_region pointer; mret (dset md "scratch" (VRegion r))
  end.

Definition broadcastable (source_extent destination_extent : Z) : bool :=
  (source_extent =? 1) || (source_extent =? destination_extent).

(** [broadcast] *)
Definition broadcast_metadata (arguments : list expr) : decM metadata :=
  let operands := without_template arguments in
  _ ← unless_skip (5 <=? length operands)%nat;
  match operands with
  | dst :: src :: rest =>
      let '(scratch, rest) := match rest with
                              | p :: rest' => if is_access_ptr p then (Some p, rest') else (None, rest)
                              | [] => (None, rest)
                              end in
      match rest with
      | dim :: extents =>
          dimension ← const_arg dim;
          dimension ← need (d ← dimension; if (d =? 1) || (d =? 2) then Some d else None)
                        UnsupportedSimOpError "functional broadcast supports only rank 1 or 2";
          let rank := Z.to_nat dimension in
          _ ← unless_skip (length extents =? 2 * rank)%nat;
          destination_shape ← int_args (take rank extents);
          source_shape ← int_args (drop rank extents);
          shapes ← all_known (destination_shape ++ source_shape);
          let destination_shape := take rank shapes in
          let source_shape := drop rank shapes in
          _ ← check (negb (some_negative shapes)) ProgramValidationError "broadcast extents must not be negative";
          _ ← check (match statics destination_shape, statics source_shape with
                     | Some ds, Some ss => forallb (λ p, broadcastable p.1 p.2) (zip ss ds)
                     | _, _ => true
                     end) ProgramValidationError "cannot broadcast source shape";
          let cols shape := if dimension =? 2 then last shape else None in
          destination ← access_region dst destination_shape (cols destination_shape) None;
          source ← access_region src source_shape (cols source_shape) None;
          destination ← known destination;
          source ← known source;
          with_pointer_scratch [("dst", VRegion destination); ("src", VRegion source);
                                ("broadcast", VDict [("dimension", VInt dimension)])] scratch
      | [] => skip
      end
  | _ => skip
  end.

(** The axis and the source shape of a [tail_broadcast]. *)
Definition tail_broadcast_axis (src_rows src_cols valid_rows valid_cols src_valid_rows src_valid_cols : Z)
    : decM (Z * list pyval) :=
  if (src_cols =? 1) && negb (src_rows =? 1) then
    _ ← check ((valid_rows <=? src_valid_rows) && (src_valid_cols =? 1)) ProgramValidationError
      "row tail broadcast requires one valid source column";
    mret (1, [VInt valid_rows; VInt 1])
  else if (src_rows =? 1) && negb (src_cols =? 1) then
    _ ← check ((valid_cols <=? src_valid_cols) && (src_valid_rows =? 1)) ProgramValidationError
      "column tail broadcast requires one valid source row";
    mret (0, [VInt 1; VInt valid_cols])
  else fails UnsupportedSimOpError "tail broadcast requires [M,1] or [1,N]".

(** [tail_broadcast] *)
Definition tail_broadcast_metadata (arguments : list expr) : decM metadata :=
  let decode name dst src scratch dim extents :=
    _ ← known (literal_str name);
    dimension ← const_arg dim;
    _ ← check (bool_decide (dimension = Some 2)) UnsupportedSimOpError "tail broadcast supports only rank 2";
    values ← int_args extents;
    values ← all_known values;
    _ ← check (negb (some_negative values)) ProgramValidationError "tail broadcast extents must not be negative";
    match statics values with
    | Some [dst_rows; dst_cols; src_rows; src_cols; valid_rows; valid_cols; src_valid_rows; src_valid_cols] =>
        _ ← check ((valid_rows <=? dst_rows) && (valid_cols <=? dst_cols)) ProgramValidationError
          "tail broadcast valid output must fit its physical tile";
        _ ← check ((src_valid_rows <=? src_rows) && (src_valid_cols <=? src_cols)) ProgramValidationError
          "tail broadcast valid source must fit its physical tile";
        '(axis, source_shape) ←
          tail_broadcast_axis src_rows src_cols valid_rows valid_cols src_valid_rows src_valid_cols;
        destination ← region dst [VInt valid_rows; VInt valid_cols];
        source ← region src source_shape;
        destination ← known destination;
        source ← known source;
        source ← (if axis =? 1 then
                    itemsize ← itemsize_of source;
                    let per_block := 32 / itemsize in
                    let aligned_cols := (src_cols + per_block - 1) / per_block * per_block in
                    with_strides source [VInt (aligned_cols * itemsize); VInt itemsize]
                  else mret source);
        with_pointer_scratch
          [("dst", VRegion destination); ("src", VRegion source);
           ("broadcast", VDict [("dimension", VInt 2); ("axis", VInt axis); ("tail", VBool true)]);
           ("valid_rows", VInt valid_rows); ("valid_cols", VInt valid_cols);
           ("src_valid_rows", VInt src_valid_rows); ("src_valid_cols", VInt src_valid_cols);
           ("physical_rows", VInt dst_rows); ("physical_cols", VInt dst_cols);
           ("src_physical_rows", VInt src_rows); ("src_physical_cols", VInt src_cols)] scratch
    | _ => fails UnsupportedSimOpError "dynamic physical shape is not supported for tail broadcast"
    end in
  match arguments with
  | [name; dst; src; dim; a; b; c; d; e; f; g; h] => decode name dst src None dim [a; b; c; d; e; f; g; h]
  | [name; dst; src; scratch; dim; a; b; c; d; e; f; g; h] =>
      decode name dst src (Some scratch) dim [a; b; c; d; e; f; g; h]
  | _ => skip
  end.

(** [getattr(e, "value", None)] when it is a string *)
Definition string_value (e : expr) : option string := match e with EString s => Some s | _ => None end.
Definition COMPARE_MODES : list string := ["EQ"; "NE"; "GT"; "GE"; "LT"; "LE"].

(** The element of a buffer a comparison or selection takes as its scalar. *)
Definition scalar_element (pointer index : expr) (like : BufferRegion) (label : string) : decM pyval :=
  scalar_index ← int_arg index;
  scalar_index ← need scalar_index UnsupportedSimOpError label;
  scalar_source ← region pointer [VInt 1];
  scalar_source ← known scalar_source;
  _ ← check (same_dtype scalar_source like) ProgramValidationError label;
  element ← element_at scalar_source scalar_index;
  mret (VRegion element).

(** [compare], [compare_scalar] *)
Definition compare_metadata (operation : string) (arguments : list expr) : decM metadata :=
  let operands mode n dst lhs :=
    count ← int_arg n;
    count ← known count;
    mode ← known (string_value mode);
    let mode := upper mode in
    _ ← check (mem_str mode COMPARE_MODES) UnsupportedSimOpError "unsupported compare mode";
    _ ← check (negb (is_negative count)) ProgramValidationError "compare count must not be negative";
    mask_extent ← access_ptr_extent dst;
    mask_extent ← known mask_extent;
    destination ← region dst [mask_extent];
    left ← region lhs [count];
    destination ← known destination;
    left ← known left;
    mret (count, left, [("dst", VRegion destination); ("lhs", VRegion left); ("compare_mode", VStr mode); ("count", count)]) in
  match arguments with
  | [dst; lhs; rhs; mode; n] =>
      '(count, tensor, md) ← operands mode n dst lhs;
      if mem_str operation ["compare"] then
        right ← region rhs [count];
        right ← known right;
        mret (dset md "rhs" (VRegion right))
      else
        scalar ← numeric_arg rhs;
        scalar ← need (v ← scalar; if is_number v then Some v else None) UnsupportedSimOpError
                   "functional compare_scalar requires a literal scalar";
        mret (dset md "scalar" scalar)
  | [dst; lhs; rhs; index; mode; n] =>
      _ ← unless_skip (mem_str operation ["compare_scalar"]);
      '(count, tensor, md) ← operands mode n dst lhs;
      element ← scalar_element rhs index tensor "compare_scalar";
      mret (dset md "scalar_src" element)
  | _ => skip
  end.

(** The second source of a selection. *)
Inductive select_source :=
| SelectElement (pointer index : expr)
| SelectScalar (value : pyval)
| SelectTensor (pointer : expr).

(** The operands after the source type: the second source, the mode with the modes it may have,
    and the count. *)
Definition select_operands (source_type : option Z) (rest : list expr)
    : decM (select_source * expr * list string * expr) :=
  let tensor_modes := ["VSEL_CMPMASK_SPR"; "VSEL_TENSOR_TENSOR_MODE"] in
  match source_type with
  | Some 0 =>
      match rest with
      | [pointer; index; mode; n] => mret (SelectElement pointer index, mode, tensor_modes, n)
      | _ => skip
      end
  | Some 1 =>
      match rest with
      | [source1; mode; n; _; _] =>
          let scalar := literal_arg source1 in
          _ ← check (is_number scalar) UnsupportedSimOpError "functional scalar select requires a literal";
          mret (SelectScalar scalar, mode, ["VSEL_TENSOR_SCALAR_MODE"], n)
      | _ => skip
      end
  | Some 2 =>
      match rest with
      | [source1; mode; n] => mret (SelectTensor source1, mode, tensor_modes, n)
      | _ => skip
      end
  | _ => fails UnsupportedSimOpError "functional select supports source type 0, 1, or 2"
  end.

(** [select] *)
Definition select_metadata (arguments : list expr) : decM metadata :=
  _ ← unless_skip (7 <=? length arguments)%nat;
  match arguments with
  | dst :: mask :: src :: rest =>
      let '(scratch, rest) := match rest with
                              | p :: rest' => if is_access_ptr p then (Some p, rest') else (None, rest)
                              | [] => (None, rest)
                              end in
      match rest with
      | kind :: rest =>
          source_type ← const_arg kind;
          '(second, mode, expected, n) ← select_operands source_type rest;
          mode ← need (s ← string_value mode; if mem_str s expected then Some s else None) UnsupportedSimOpError
                   "select mode";
          count ← count_arg n "select count must not be negative";
          mask_extent ← access_ptr_extent mask;
          mask_extent ← known mask_extent;
          destination ← region dst [count];
          mask ← region mask [mask_extent];
          source ← region src [count];
          destination ← known destination;
          mask ← known mask;
          source ← known source;
          let md := [("dst", VRegion destination); ("mask", VRegion mask); ("lhs", VRegion source);
                     ("select_mode", VStr mode); ("source_type", VInt (default 0 source_type))] in
          md ← match second with
               | SelectElement pointer index =>
                   element ← scalar_element pointer index source "select BufferLoad";
                   mret (dset md "scalar_src" element)
               | SelectScalar scalar => mret (dset md "scalar" scalar)
               | SelectTensor pointer =>
                   source1 ← region pointer [count];
                   source1 ← known source1;
                   mret (dset md "rhs" (VRegion source1))
               end;
          with_pointer_scratch md scratch
      | [] => skip
      end
  | _ => skip
  end.

(** The dimensions of the tail comparisons and selections, with the packed mask width. *)
Definition tail_dimensions (dims : list expr) : decM (list pyval * pyval) :=
  dimensions ← int_args dims;
  dimensions ← all_known dimensions;
  _ ← check (negb (some_negative dimensions)) ProgramValidationError "tail dimensions must not be negative";
  _ ← match statics dimensions with
      | Some [valid_rows; valid_cols; physical_rows; physical_cols; storage_cols] =>
          _ ← check ((valid_rows <=? physical_rows) && (valid_cols <=? physical_cols)) ProgramValidationError
            "tail valid rectangle must fit its physical tile";
          check ((physical_cols + 7) / 8 <=? storage_cols) ProgramValidationError
            "tail packed storage width is too small"
      | _ => mret tt
      end;
  let valid_cols := default VNone (dimensions !! 1%nat) in
  packed ← match static valid_cols with
           | Some z => mret (VInt ((z + 7) / 8))
           | None =>
               sum ← of_result (symbolic_init "add" [valid_cols; VInt 7]);
               of_result (symbolic_init "floordiv" [sum; VInt 8])
           end;
  mret (dimensions, packed).
Definition tail_fields (dimensions : list pyval) : metadata :=
  zip ["valid_rows"; "valid_cols"; "physical_rows"; "physical_cols"; "storage_cols"] dimensions.

(** The second operand of the tail comparisons and selections. *)
Definition tail_second (scalar : bool) (pointer : expr) (valid : list pyval) (md : metadata) : decM metadata :=
  if scalar then
    let v := literal_arg pointer in
    _ ← check (is_number v) UnsupportedSimOpError "tail scalar requires a literal";
    mret (dset md "scalar" v)
  else
    right ← region pointer valid;
    right ← known right;
    mret (dset md "rhs" (VRegion right)).

(** [tail_compare], [tail_compare_scalar] *)
Definition tail_compare_metadata (operation : string) (arguments : list expr) : decM metadata :=
  match arguments with
  | [dst; src; second; mode; a; b; c; d; e] =>
      mode ← need (s ← string_value mode; if mem_str s COMPARE_MODES then Some s else None) UnsupportedSimOpError
               "unsupported tail compare mode";
      '(dimensions, packed) ← tail_dimensions [a; b; c; d; e];
      let valid := take 2 dimensions in
      destination ← region dst (take 1 dimensions ++ [packed]);
      source ← region src valid;
      destination ← known destination;
      source ← known source;
      tail_second (mem_str operation ["tail_compare_scalar"]) second valid
        ([("dst", VRegion destination); ("lhs", VRegion source); ("compare_mode", VStr mode)] ++ tail_fields dimensions)
  | _ => skip
  end.

(** [tail_select] *)
Definition tail_select_metadata (arguments : list expr) : decM metadata :=
  match arguments with
  | [kind; dst; mask; src; tmp; kind_of; second; mode; a; b; c; d; e] =>
      source_type ← const_arg kind_of;
      let expected := name ← literal_str kind;
                      dget [("Scalar", (1, "VSEL_TENSOR_SCALAR_MODE")); ("Tensor", (2, "VSEL_TENSOR_TENSOR_MODE"))] name in
      '(wanted, mode) ← need (p ← expected;
          if bool_decide (source_type = Some p.1) && bool_decide (string_value mode = Some p.2) then Some p else None)
        UnsupportedSimOpError "unsupported tail select kind/type/mode";
      '(dimensions, packed) ← tail_dimensions [a; b; c; d; e];
      let valid := take 2 dimensions in
      destination ← region dst valid;
      mask_region ← region mask (take 1 dimensions ++ [packed]);
      source ← region src valid;
      destination ← known destination;
      mask_region ← known mask_region;
      source ← known source;
      md ← tail_second (wanted =? 1) second valid
        ([("dst", VRegion destination); ("mask", VRegion mask_region); ("lhs", VRegion source);
          ("select_kind", literal kind); ("select_mode", VStr mode); ("source_type", VInt wanted)]
         ++ tail_fields dimensions);
      let scratch := match data_name tmp with
                     | Some name => if bool_decide (data_name mask = Some name) then None else Some tmp
                     | None => None
                     end in
      with_pointer_scratch md scratch
  | _ => skip
  end.

(** [cast] *)
Definition cast_metadata (arguments : list expr) : decM metadata :=
  match arguments with
  | [dst; src; mode; n] =>
      shape ← vector_shape false [n];
      shape ← known shape;
      destination ← region dst shape;
      source ← region src shape;
      destination ← known destination;
      source ← known source;
      round_mode ← known (literal_str mode);
      mret [("dst", VRegion destination); ("src", VRegion source); ("round_mode", VStr (upper round_mode))]
  | _ => skip
  end.

(** [fill] *)
Definition fill_metadata (arguments : list expr) : decM metadata :=
  match (if (length arguments =? 4)%nat then drop 1 arguments else arguments) with
  | [dst; value; n] =>
      count ← int_arg n;
      let scalar := literal_arg value in
      count ← known count;
      _ ← check (negb (is_negative count)) ProgramValidationError "fill count must not be negative";
      _ ← check (is_number scalar) UnsupportedSimOpError "functional fill requires a literal scalar";
      destination ← region dst [count];
      destination ← known destination;
      mret [("dst", VRegion destination); ("scalar", scalar)]
  | _ => skip
  end.

(** The parameters between the angle brackets of a template that ends with one:
    [template.split("<", 1)[1][:-1]] *)
Definition template_parameters (template : string) : option string :=
  '(_, parameters) ← cut "<" template;
  if endswith ">" template then Some (drop_last parameters) else None.

(** [arith_progression], [createvecindex] *)
Definition sequence_metadata (operation : string) (arguments : list expr) : decM metadata :=
  let decode template dst first difference n :=
    template ← known (literal_str template);
    parameters ← known (template_parameters template);
    difference ← match difference with Some e => numeric_arg e | None => mret (Some (VInt 1)) end;
    first ← numeric_arg first;
    count ← int_arg n;
    first ← need first UnsupportedSimOpError "functional sequence requires executable arguments";
    difference ← need difference UnsupportedSimOpError "functional sequence requires executable arguments";
    count ← need count UnsupportedSimOpError "functional sequence requires executable arguments";
    _ ← check (negb (is_negative count)) ProgramValidationError "sequence count must not be negative";
    destination ← region dst [count];
    destination ← known destination;
    _ ← check (bool_decide (ascend_template_dtype (strip parameters) = Some (rg_dtype destination)))
      ProgramValidationError "sequence template dtype must match destination dtype";
    _ ← supports destination ["float16"; "float32"; "int16"; "int32"; "uint16"; "uint32"] "functional sequence dtype";
    mret [("dst", VRegion destination); ("first_value", first); ("difference", difference); ("count", count)] in
  match mem_str operation ["createvecindex"], arguments with
  | true, [template; dst; first; n] => decode template dst first None n
  | false, [template; dst; first; difference; n] => decode template dst first (Some difference) n
  | _, _ => skip
  end.
End decode.
