(* ===== verification/DecodeReduce.v ===== *)
(** The operand decoders of [bridge.py] for reductions: [reduce], the tail, block and whole forms,
    the experimental sums, and the row-wise [exp_experiment]. *)

From S2P Require Import Prelude PyDict PySort PyStr Errors Values Program MemoryView.
From S2P Require Import PyNum ExecEnv BridgeOps BridgeMemory BridgeExpr BridgeRegions DecodeVector.
Local Open Scope string_scope.
Local Open Scope Z_scope.
Local Open Scope list_scope.

Section decode.
Context {TVM : Tvm} {D : Decode}.
Abbreviation metadata := (dict string pyval).

(** [reducesum_experiment] *)
Definition reduce_sum_experiment_metadata (arguments : list expr) : decM metadata :=
  let decode dst src scratch n :=
    count ← count_arg n "reducesum_experiment count must not be negative";
    destination ← region dst [VInt 1];
    source ← region src [count];
    destination ← known destination;
    source ← known source;
    _ ← check (region_in UB destination && region_in UB source) ProgramValidationError
      "reducesum_experiment operands must use UB scope";
    _ ← check (same_dtype destination source) ProgramValidationError "reducesum_experiment dtypes must match";
    _ ← supports source FLOAT_DTYPES "functional reducesum_experiment dtype";
    let md := [("dst", VRegion destination); ("src", VRegion source); ("count", count)] in
    match scratch with
    | None => mret md
    | Some pointer =>
        r ← region pointer [count];
        r ← known r;
        _ ← check (region_in UB r && same_dtype r source) ProgramValidationError
          "reducesum_experiment scratch must match the UB source dtype";
        mret (dset md "scratch" (VRegion r))
    end in
  match arguments with
  | [dst; src; n] => decode dst src None n
  | [dst; src; scratch; n] => decode dst src (Some scratch) n
  | _ => skip
  end.

(** [literal.startswith(prefix) and literal.endswith(">")], with what is between *)
Definition template_between (prefix : string) (e : expr) : option string :=
  s ← literal_str e;
  if startswith prefix s && endswith ">" s then Some (drop_last (drop_chars (String.length prefix) s)) else None.

(** [sum_experiment] *)
Definition sum_experiment_metadata (arguments : list expr) : decM metadata :=
  match arguments with
  | [template; dst; src; outer; inner; valid] =>
      dtype ← need (template_between "Sum_experiment<" template) ProgramValidationError
                "sum_experiment template must be Sum_experiment<dtype>";
      outer ← int_arg outer;
      inner ← int_arg inner;
      valid ← int_arg valid;
      outer ← known outer;
      inner ← known inner;
      valid ← known valid;
      _ ← match static outer, static inner, static valid with
          | Some o, Some i, Some v =>
              _ ← check ((0 <=? o) && (0 <=? i) && (0 <=? v)) ProgramValidationError
                "sum_experiment extents must not be negative";
              check (v <=? i) ProgramValidationError "sum_experiment valid width must not exceed inner width"
          | _, _, _ => mret tt
          end;
      destination ← region dst [outer];
      source ← region src [outer; inner];
      destination ← known destination;
      source ← known source;
      itemsize ← itemsize_of source;
      row ← times inner itemsize;
      source ← with_strides source [row; VInt itemsize];
      _ ← check (region_in UB destination && region_in UB source) ProgramValidationError
        "sum_experiment operands must use UB scope";
      _ ← check (same_dtype destination source) ProgramValidationError "sum_experiment dtypes must match";
      _ ← check (bool_decide (ascend_template_dtype dtype = Some (rg_dtype destination))) ProgramValidationError
        "sum_experiment template dtype must match destination dtype";
      _ ← supports source FLOAT_DTYPES "functional sum_experiment dtype";
      _ ← check (match static inner with Some i => i * itemsize mod 32 =? 0 | None => true end)
        ProgramValidationError "sum_experiment inner rows must be 32-byte aligned";
      mret [("dst", VRegion destination); ("src", VRegion source);
            ("sum_experiment", VDict [("outer", outer); ("inner", inner); ("valid", valid)])]
  | _ => skip
  end.

(** The controls of a block or whole reduction: repeat, mask and the three strides. *)
Definition reduction_controls (repeat mask dst_rep src_blk src_rep : option Z) : decM (Z * Z * Z * Z * Z) :=
  match repeat, mask, dst_rep, src_blk, src_rep with
  | Some repeat, Some mask, Some dst_rep, Some src_blk, Some src_rep =>
      _ ← check ((0 <=? repeat) && (0 <=? mask)) ProgramValidationError "reduction repeat/mask must not be negative";
      _ ← check ((0 <=? dst_rep) && (0 <=? src_blk) && (0 <=? src_rep)) ProgramValidationError
        "reduction strides must not be negative";
      mret (repeat, mask, dst_rep, src_blk, src_rep)
  | _, _, _, _, _ => fails UnsupportedSimOpError "functional reduction requires static repeat/mask/strides"
  end.
Definition control_fields (controls : Z * Z * Z * Z * Z) : metadata :=
  let '(repeat, mask, dst_rep, src_blk, src_rep) := controls in
  [("repeat", VInt repeat); ("mask", VInt mask); ("dst_rep_stride", VInt dst_rep);
   ("src_blk_stride", VInt src_blk); ("src_rep_stride", VInt src_rep)].

(** The source of a block or whole reduction, with the sizes of its elements and blocks. *)
Definition reduction_source (dst src : expr) (controls : Z * Z * Z * Z * Z)
    : decM (BufferRegion * BufferRegion * Z * Z * Z) :=
  let '(repeat, mask, _, src_blk, src_rep) := controls in
  destination ← region dst [VInt 1];
  source ← region src [VInt 1];
  destination ← known destination;
  source ← known source;
  _ ← check (same_dtype destination source) ProgramValidationError "reduction dtypes must match";
  _ ← supports source FLOAT_DTYPES "functional reduction supports only float16/float32";
  itemsize ← itemsize_of source;
  let per_block := 32 / itemsize in
  _ ← check (mask <=? 8 * per_block) ProgramValidationError "reduction mask out of range";
  let active_blocks := (mask + per_block - 1) / per_block in
  source ← replace_region source [VInt repeat; VInt active_blocks; VInt per_block] (rg_byte_offset source)
             (Some [VInt (src_rep * 32); VInt (src_blk * 32); VInt itemsize]);
  mret (destination, source, itemsize, per_block, active_blocks).

(** [block_reduce_max], [block_reduce_min], [block_reduce_sum] *)
Definition block_reduce_metadata (operation : string) (arguments : list expr) : decM metadata :=
  match arguments with
  | [dst; src; repeat; mask; dst_rep; src_blk; src_rep] =>
      repeat ← const_arg repeat;
      mask ← const_arg mask;
      dst_rep ← const_arg dst_rep;
      src_blk ← const_arg src_blk;
      src_rep ← const_arg src_rep;
      controls ← reduction_controls repeat mask dst_rep src_blk src_rep;
      let '(repeat, _, dst_rep, _, _) := controls in
      '(destination, source, itemsize, per_block, active_blocks) ← reduction_source dst src controls;
      destination ← replace_region destination [VInt repeat; VInt active_blocks] (rg_byte_offset destination)
                      (Some [VInt (dst_rep * 8 * itemsize); VInt itemsize]);
      mret ([("dst", VRegion destination); ("src", VRegion source);
             ("reduce_kind", VStr (if startswith "block_" operation then drop_chars 6 operation else operation));
             ("elements_per_block", VInt per_block)] ++ control_fields controls)
  | _ => skip
  end.

(** The table of kinds in [_whole_reduce_metadata]. *)
Definition WHOLE_KINDS : dict string string :=
  [("wholereducesum", "reduce_sum"); ("wholereducemax", "reduce_max"); ("wholereducemin", "reduce_min")].

(** [wholereducesum], [wholereducemax], [wholereducemin] *)
Definition whole_reduce_metadata (operation : string) (arguments : list expr) : decM metadata :=
  let decode dst src mask repeat dst_rep src_blk src_rep order :=
    mask ← const_arg mask;
    repeat ← const_arg repeat;
    dst_rep ← const_arg dst_rep;
    src_blk ← const_arg src_blk;
    src_rep ← const_arg src_rep;
    controls ← reduction_controls repeat mask dst_rep src_blk src_rep;
    let '(repeat, _, dst_rep, _, _) := controls in
    let order := match order with Some e => literal e | None => VStr "ORDER_ONLY_VALUE" end in
    width ← need (match order with
                  | VStr "ORDER_ONLY_VALUE" => Some 1
                  | VStr "ORDER_VALUE_INDEX" => Some 2
                  | _ => None
                  end) UnsupportedSimOpError "functional whole reduction order";
    '(destination, source, itemsize, per_block, active_blocks) ← reduction_source dst src controls;
    destination ← replace_region destination [VInt repeat; VInt width] (rg_byte_offset destination)
                    (Some [VInt (dst_rep * width * itemsize); VInt itemsize]);
    kind ← need (dget WHOLE_KINDS operation) KeyError "reduction kind";
    mret ([("dst", VRegion destination); ("src", VRegion source); ("reduce_kind", VStr kind); ("reduce_order", order);
           ("elements_per_block", VInt per_block)] ++ control_fields controls) in
  match mem_str operation ["wholereducesum"], arguments with
  | true, [dst; src; mask; repeat; dst_rep; src_blk; src_rep] => decode dst src mask repeat dst_rep src_blk src_rep None
  | false, [dst; src; mask; repeat; dst_rep; src_blk; src_rep; order] =>
      decode dst src mask repeat dst_rep src_blk src_rep (Some order)
  | _, _ => skip
  end.

(** [tail_reduce] *)
Definition tail_reduce_metadata (arguments : list expr) : decM metadata :=
  match arguments with
  | [dst; src; dim; rows; cols; physical; clear] =>
      dimension ← const_arg dim;
      clear ← const_arg clear;
      _ ← check (bool_decide (dimension = Some 0) && bool_decide (clear = Some 1)) UnsupportedSimOpError
        "functional tail_reduce supports only dim=0 and clear=true";
      valid_rows ← int_arg rows;
      valid_cols ← int_arg cols;
      physical_cols ← int_arg physical;
      let label := "tail_reduce extents must be executable runtime integer expressions" in
      valid_rows ← need valid_rows UnsupportedSimOpError label;
      valid_cols ← need valid_cols UnsupportedSimOpError label;
      physical_cols ← need physical_cols UnsupportedSimOpError label;
      _ ← check (match static valid_rows, static valid_cols, static physical_cols with
                 | Some _, Some v, Some p => v <=? p
                 | _, _, _ => true
                 end) ProgramValidationError "tail_reduce valid columns must not exceed physical columns";
      source ← region src [valid_rows; valid_cols];
      destination ← region dst [valid_cols];
      let label := "tail_reduce source and destination pointers must resolve to buffers" in
      source ← need source UnsupportedSimOpError label;
      destination ← need destination UnsupportedSimOpError label;
      _ ← check (mem_str (rg_dtype source) ["float32"] && mem_str (rg_dtype destination) ["float32"])
        UnsupportedSimOpError "functional tail_reduce currently supports only float32";
      itemsize ← itemsize_of source;
      _ ← check (match static physical_cols, rg_strides_bytes source with
                 | Some p, Some (stride :: _) =>
                     match static stride with Some s => s =? p * itemsize | None => true end
                 | _, _ => true
                 end) ProgramValidationError "tail_reduce physical columns disagree with source row stride";
      mret [("src", VRegion source); ("dst", VRegion destination);
            ("reduce", VDict [("dimension", VInt 0); ("clear", VBool true); ("valid_rows", valid_rows);
                              ("valid_cols", valid_cols); ("physical_cols", physical_cols)])]
  | _ => fails UnsupportedSimOpError "functional tail_reduce currently requires the no-workspace form"
  end.

(** The tag of [reduce]: kind, rows, columns and axis. *)
Definition reduce_tag (tag : string) : decM (string * Z * Z * Z) :=
  '(kind, encoded) ← known (cut "<" tag);
  _ ← unless_skip (endswith ">" tag);
  let kind := short_operation kind in
  _ ← check (mem_str kind TAIL_REDUCE_OPERATIONS) UnsupportedSimOpError "unsupported reduce kind";
  match strip <$> split_on "," (drop_last encoded) with
  | [_; rows; cols; axis] =>
      '(rows, cols, axis) ← need (rows ← parse_int rows; cols ← parse_int cols; axis ← parse_int axis; Some (rows, cols, axis))
                              UnsupportedSimOpError "reduce tag requires static M/N/axis";
      _ ← check ((0 <=? rows) && (0 <=? cols)) ProgramValidationError "reduce extents must not be negative";
      _ ← check ((axis =? 0) || (axis =? -1)) UnsupportedSimOpError "reduce supports axis 0 or -1";
      mret (kind, rows, cols, axis)
  | _ => fails UnsupportedSimOpError "malformed reduce tag"
  end.

(** [value in {False, True}] *)
Definition flag_value (v : pyval) : option bool :=
  match as_number v with
  | Some n => if py_eq n (NInt 1) then Some true else if py_eq n (NInt 0) then Some false else None
  | None => None
  end.

(** The checks of a reduction whose physical row is wider than its logical one. *)
Definition check_narrow (physical_cols cols axis itemsize : Z) (clear : bool) : decM unit :=
  if physical_cols =? cols then mret tt
  else
    _ ← check (cols <=? physical_cols) ProgramValidationError "narrow reduce logical width must fit its physical row";
    _ ← check (axis =? -1) UnsupportedSimOpError "narrow reduce supports only row reduction (axis=-1)";
    _ ← check (cols * itemsize <=? 256) UnsupportedSimOpError
      "narrow reduce logical row must fit one 256-byte vector repeat";
    _ ← check (physical_cols * itemsize mod 32 =? 0) ProgramValidationError
      "narrow reduce physical row must be 32-byte aligned";
    check clear UnsupportedSimOpError "narrow reduce does not support clear=false".

(** The physical width and the arguments before it: the last argument is the width unless it is
    the boolean [clear]. *)
Definition reduce_width (arguments : list expr) (cols : Z) : decM (Z * list expr) :=
  match last arguments with
  | None => skip
  | Some e =>
      if bool_decide (expr_dtype e = "bool") then mret (cols, arguments)
      else candidate ← const_arg e; candidate ← known candidate; mret (candidate, take (length arguments - 1) arguments)
  end.

(** [reduce] *)
Definition reduce_metadata (arguments : list expr) : decM metadata :=
  match arguments with
  | tag :: dst :: src :: _ :: _ =>
      tag ← known (literal_str tag);
      '(kind, rows, cols, axis) ← reduce_tag tag;
      '(physical_cols, rest) ← reduce_width arguments cols;
      clear ← known (e ← last rest; flag_value (literal e));
      let scratch := drop 3 (take (length rest - 1) rest) in
      _ ← unless_skip (length scratch <=? 2)%nat;
      _ ← check (clear || (length scratch =? 1)%nat || ((axis =? -1) && (length scratch =? 2)%nat))
        UnsupportedSimOpError "reduce clear=false tmp view count";
      source ← region src [VInt rows; VInt cols];
      destination ← region dst [VInt (if axis =? 0 then cols else rows)];
      source ← known source;
      destination ← known destination;
      itemsize ← itemsize_of source;
      _ ← check_narrow physical_cols cols axis itemsize clear;
      source ← with_strides source [VInt (physical_cols * itemsize); VInt itemsize];
      let md := [("src", VRegion source); ("dst", VRegion destination); ("reduce_kind", VStr kind);
                 ("reduce_axis", VInt axis); ("clear", VBool clear); ("rows", VInt rows); ("cols", VInt cols);
                 ("physical_cols", VInt physical_cols)] in
      let md := if clear then md else dset md "accumulator" (VRegion destination) in
      scratches ← st_map scratch_region scratch;
      mret (md ++ zip ["scratch"; "output_scratch"] (VRegion <$> scratches))
  | _ => skip
  end.

(** The row windows of [exp_experiment]: alignment, and no window across a physical row. *)
Definition check_row_window (physical_cols chunk itemsize : Z) (r : BufferRegion) : decM unit :=
  match static (rg_byte_offset r) with
  | None => mret tt
  | Some offset =>
      _ ← check (offset mod 32 =? 0) ProgramValidationError "exp_experiment must be 32-byte aligned";
      check (offset / itemsize mod physical_cols + chunk <=? physical_cols) ProgramValidationError
        "exp_experiment chunk crosses a physical row"
  end.

(** [initial_shape_by_var.get(data, spec.shape)] *)
Definition original_shape (data : string) (spec : BufferSpec) : list pyval :=
  match dget dc_shapes data with Some shape => VInt <$> shape | None => bs_shape spec end.

(** [exp_experiment] *)
Definition exp_experiment_metadata (arguments : list expr) : decM metadata :=
  match arguments with
  | [tag; dst; src] =>
      dtype ← need (template_between "exp_mask<" tag) ProgramValidationError "exp_experiment tag must be exp_mask<dtype>";
      destination_extent ← access_ptr_extent dst;
      source_extent ← access_ptr_extent src;
      let label := "functional exp_experiment requires static pointer extents" in
      destination_extent ← need (destination_extent ≫= static) UnsupportedSimOpError label;
      source_extent ← need (source_extent ≫= static) UnsupportedSimOpError label;
      _ ← check (destination_extent =? source_extent) ProgramValidationError "exp_experiment extents must match";
      destination_data ← known (data_name dst);
      source_data ← known (data_name src);
      destination_name ← known (dget dc_names destination_data);
      source_name ← known (dget dc_names source_data);
      destination_spec ← buffer_of destination_name;
      source_spec ← buffer_of source_name;
      let destination_shape := original_shape destination_data destination_spec in
      let source_shape := original_shape source_data source_spec in
      _ ← check ((2 <=? length destination_shape)%nat && (2 <=? length source_shape)%nat) UnsupportedSimOpError
        "functional exp_experiment requires original 2D buffer shapes";
      let physical_cols := default VNone (last destination_shape) in
      _ ← check (bool_decide (last source_shape = last destination_shape)) ProgramValidationError
        "exp_experiment row strides must match";
      dtype ← need (d ← ascend_template_dtype dtype; if mem_str d FLOAT_DTYPES then Some d else None)
                UnsupportedSimOpError "functional exp_experiment supports float16/float32 only";
      let annotated e := match access_ptr e with Some (a :: _) => bool_decide (expr_dtype a = dtype) | _ => false end in
      _ ← check (annotated dst && annotated src) ProgramValidationError "exp_experiment tag dtype must match operands";
      let chunk := if mem_str dtype ["float16"] then 128 else 64 in
      _ ← check ((0 <? destination_extent) && (destination_extent mod chunk =? 0)) ProgramValidationError
        "exp_experiment extent must contain whole rows";
      let rows := destination_extent / chunk in
      _ ← check (rows <=? 255) ProgramValidationError "exp_experiment repeat count must not exceed 255";
      itemsize ← of_result (dtype_size_bytes dtype);
      cols ← need (c ← static physical_cols; if chunk <=? c then Some c else None) ProgramValidationError
               "exp_experiment physical row is smaller than its vector chunk";
      _ ← check (cols * itemsize mod 32 =? 0) ProgramValidationError
        "exp_experiment physical row stride must be 32-byte aligned";
      destination ← access_region dst [VInt rows; VInt chunk] (Some (VInt cols)) None;
      source ← access_region src [VInt rows; VInt chunk] (Some (VInt cols)) None;
      destination ← known destination;
      source ← known source;
      _ ← check (region_in UB destination && region_in UB source) ProgramValidationError
        "exp_experiment requires UB operands";
      _ ← check (bool_decide (rg_dtype destination = dtype) && bool_decide (rg_dtype source = dtype))
        ProgramValidationError "exp_experiment tag dtype must match operands";
      _ ← check_row_window cols chunk itemsize destination;
      _ ← check_row_window cols chunk itemsize source;
      mret [("dst", VRegion destination); ("src", VRegion source);
            ("exp_experiment", VDict [("rows", VInt rows); ("chunk", VInt chunk); ("physical_cols", VInt cols)])]
  | _ => fails UnsupportedSimOpError "functional exp_experiment requires (tag, dst, src)"
  end.
End decode.
