(* ===== verification/DecodeSort.v ===== *)
(** The operand decoders of [bridge.py] for gathers, sorting, transposition, reinterpretation and
    atomic additions. *)

From S2P Require Import Prelude PyDict PySort PyStr Errors Values Layout Program MemoryView RegionOverlap.
From S2P Require Import PyNum ExecEnv BridgeOps BridgeMemory BridgeExpr BridgeRegions DecodeVector DecodeReduce.
Local Open Scope string_scope.
Local Open Scope Z_scope.
Local Open Scope list_scope.

Section decode.
Context {TVM : Tvm} {D : Decode}.
Abbreviation metadata := (dict string pyval).

Definition INDEX_DTYPES : list string := ["int32"; "uint32"].
Definition check_aligned (rs : list BufferRegion) (label : string) : decM unit :=
  check (forallb (λ r, offset_aligned r 32) rs) ProgramValidationError label.
Definition check_ub (rs : list BufferRegion) (label : string) : decM unit :=
  check (forallb (region_in UB) rs) ProgramValidationError label.
(** [isinstance(extent, int)] for the extents of some pointers *)
Definition static_extents (pointers : list expr) (label : string) : decM (list Z) :=
  extents ← st_map access_ptr_extent pointers;
  need (mapM (λ v, v ≫= static) extents) UnsupportedSimOpError label.
(** Regions of several pointers, all known. *)
Definition regions_of (operands : list (expr * list pyval)) : decM (list BufferRegion) :=
  rs ← st_map (λ '(pointer, shape), region pointer shape) operands; all_known rs.
(** [template.split("<", 1)[1][:-1].strip()], resolved *)
Definition template_dtype (between : string) : option string := ascend_template_dtype (strip between).
Definition is_dtype (dtype : option string) (r : BufferRegion) : bool := bool_decide (dtype = Some (rg_dtype r)).

(** [gather] *)
Definition gather_metadata (arguments : list expr) : decM metadata :=
  let decode dst src offsets base n scratch :=
    count ← int_arg n;
    base ← int_arg base;
    source_extent ← access_ptr_extent src;
    let label := "functional gather requires executable base/count and source extent" in
    count ← need count UnsupportedSimOpError label;
    base ← need base UnsupportedSimOpError label;
    source_extent ← need source_extent UnsupportedSimOpError label;
    _ ← check (negb (is_negative count)) ProgramValidationError "gather count must not be negative";
    _ ← check (negb (is_negative base)) ProgramValidationError "gather base must not be negative";
    rs ← regions_of [(dst, [count]); (src, [source_extent]); (offsets, [count])];
    match rs with
    | [destination; source; offsets] =>
        _ ← check (same_dtype destination source) ProgramValidationError "gather dtypes must match";
        _ ← supports source GATHER_DTYPES "functional gather dtype";
        _ ← check (mem_str (rg_dtype offsets) INDEX_DTYPES) ProgramValidationError "gather offsets dtype";
        _ ← check_aligned rs "gather pointer must be 32-byte aligned";
        with_pointer_scratch
          [("dst", VRegion destination); ("src", VRegion source); ("offsets", VRegion offsets); ("base", base);
           ("count", count)] scratch
    | _ => skip
    end in
  match arguments with
  | [dst; src; offsets; base; n] => decode dst src offsets base n None
  | [dst; src; offsets; base; n; scratch] => decode dst src offsets base n (Some scratch)
  | _ => skip
  end.

(** [isinstance(literal(arguments[0]), str)]: a printed expression counts *)
Definition template_first (arguments : list expr) : option expr :=
  match arguments with
  | e :: _ => match literal_str e with Some _ => Some e | None => None end
  | [] => None
  end.

(** The controls of [gatherb]. *)
Definition check_gatherb (repeat block_stride repeat_stride : pyval) : decM unit :=
  match static repeat, static block_stride, static repeat_stride with
  | Some r, Some b, Some s =>
      _ ← check ((0 <=? r) && (0 <=? b) && (0 <=? s)) ProgramValidationError "gatherb repeat/strides must not be negative";
      check (r <=? 255) ProgramValidationError "gatherb repeat must not exceed 255"
  | _, _, _ => mret tt
  end.

(** [gatherb] *)
Definition gatherb_metadata (arguments : list expr) : decM metadata :=
  let template := template_first arguments in
  match (if template is Some _ then drop 1 arguments else arguments) with
  | [dst; src; offsets; repeat; block_stride; repeat_stride] =>
      repeat ← int_arg repeat;
      block_stride ← int_arg block_stride;
      repeat_stride ← int_arg repeat_stride;
      source_extent ← access_ptr_extent src;
      let label := "functional gatherb requires executable repeat/strides and source extent" in
      repeat ← need repeat UnsupportedSimOpError label;
      block_stride ← need block_stride UnsupportedSimOpError label;
      repeat_stride ← need repeat_stride UnsupportedSimOpError label;
      source_extent ← need source_extent UnsupportedSimOpError label;
      _ ← check_gatherb repeat block_stride repeat_stride;
      rs ← regions_of [(src, [source_extent]); (dst, [VInt 1]); (offsets, [repeat; VInt 8])];
      match rs with
      | [source; destination; offsets] =>
          offsets ← with_strides offsets [VInt (8 * 4); VInt 4];
          _ ← check (same_dtype source destination) ProgramValidationError "gatherb dtypes must match";
          _ ← match template with
              | None => mret tt
              | Some e =>
                  between ← need (template_between "Gatherb<" e) ProgramValidationError "gatherb template";
                  check (is_dtype (ascend_template_dtype between) destination) ProgramValidationError
                    "gatherb template dtype must match destination dtype"
              end;
          _ ← supports source GATHER_DTYPES "functional gatherb dtype";
          _ ← check (mem_str (rg_dtype offsets) INDEX_DTYPES) ProgramValidationError "gatherb offsets dtype";
          _ ← check_aligned [destination; source; offsets] "gatherb pointer must be 32-byte aligned";
          itemsize ← itemsize_of source;
          let per_block := 32 / itemsize in
          outer ← times repeat_stride 32;
          inner ← times block_stride 32;
          destination ← replace_region destination [repeat; VInt 8; VInt per_block] (rg_byte_offset destination)
                          (Some [outer; inner; VInt itemsize]);
          mret [("dst", VRegion destination); ("src", VRegion source); ("offsets", VRegion offsets);
                ("repeat", repeat); ("dst_block_stride", block_stride); ("dst_repeat_stride", repeat_stride);
                ("elements_per_block", VInt per_block)]
      | _ => skip
      end
  | _ => skip
  end.

(** [buffer_name_by_data_var.get(data_name or "")] *)
Definition buffer_or_unnamed (pointer : expr) : option string := dget dc_names (default "" (data_name pointer)).

(** The whole UB buffer behind a pointer, flat. *)
Definition flat_region (pointer : expr) : decM (option BufferRegion) :=
  match buffer_or_unnamed pointer with
  | None => mret None
  | Some name =>
      spec ← buffer_of name;
      _ ← check (bool_decide (bs_scope spec = UB)) ProgramValidationError "gather_mask operands must use UB scope";
      shape ← need (statics (bs_shape spec)) UnsupportedSimOpError "functional gather_mask requires static buffer shapes";
      region pointer [VInt (foldl Z.mul 1 shape)]
  end.

(** The fixed patterns of [gather_mask] *)
Definition MASK_PATTERNS : list string := ["P0101"; "P1010"; "P0001"; "P0010"; "P0100"; "P1000"; "P1111"].

(** [gather_mask] *)
Definition gather_mask_metadata (arguments : list expr) : decM metadata :=
  let decode template dst src selector scratch :=
    between ← need (template_between "GatherMask<" template) ProgramValidationError "gather_mask template";
    destination ← flat_region dst;
    source ← flat_region src;
    destination ← known destination;
    source ← known source;
    _ ← check (same_dtype destination source) ProgramValidationError "gather_mask dtypes must match";
    _ ← check (is_dtype (ascend_template_dtype between) destination) ProgramValidationError
      "gather_mask template dtype must match destination dtype";
    _ ← supports source GATHER_DTYPES "functional gather_mask dtype";
    let md := [("dst", VRegion destination); ("src", VRegion source)] in
    md ← match string_value selector with
         | Some pattern =>
             _ ← check (mem_str pattern MASK_PATTERNS) ProgramValidationError "unsupported gather_mask fixed pattern";
             mret (dset (dset md "mode" (VStr "fixed")) "pattern" (VStr pattern))
         | None =>
             offsets ← flat_region selector;
             offsets ← known offsets;
             _ ← check (mem_str (rg_dtype offsets) ["uint32"]) ProgramValidationError "gather_mask index dtype";
             _ ← check (match statics (rg_shape offsets), statics (rg_shape destination) with
                        | Some (o :: _), Some (d :: _) => o <=? d
                        | _, _ => true
                        end) ProgramValidationError "gather_mask destination is smaller than its index buffer";
             mret (dset (dset md "mode" (VStr "custom")) "offsets" (VRegion offsets))
         end;
    match scratch with
    | None => mret md
    | Some pointer => r ← flat_region pointer; r ← known r; mret (dset md "scratch" (VRegion r))
    end in
  match arguments with
  | [template; dst; src; selector] => decode template dst src selector None
  | [template; dst; src; selector; scratch] => decode template dst src selector (Some scratch)
  | _ => skip
  end.

(** [transpose] *)
Definition transpose_metadata (arguments : list expr) : decM metadata :=
  match arguments with
  | [dst; src] =>
      destination_name ← known (buffer_or_unnamed dst);
      destination_spec ← buffer_of destination_name;
      source_name ← known (buffer_or_unnamed src);
      source_spec ← buffer_of source_name;
      _ ← check (bool_decide (bs_scope source_spec = UB) && bool_decide (bs_scope destination_spec = UB))
        ProgramValidationError "transpose requires UB source and destination";
      _ ← check ((length (bs_shape source_spec) =? 2)%nat && (length (bs_shape destination_spec) =? 2)%nat)
        UnsupportedSimOpError "functional transpose requires rank-2 buffers";
      let label := "functional transpose requires static shapes" in
      source_shape ← need (statics (bs_shape source_spec)) UnsupportedSimOpError label;
      destination_shape ← need (statics (bs_shape destination_spec)) UnsupportedSimOpError label;
      _ ← check (bool_decide (destination_shape = reverse source_shape)) ProgramValidationError
        "transpose destination shape must reverse the source shape";
      _ ← check (bool_decide (bs_dtype destination_spec = bs_dtype source_spec)) ProgramValidationError
        "transpose dtypes must match";
      _ ← check (mem_str (bs_dtype source_spec) GATHER_DTYPES) UnsupportedSimOpError "functional transpose dtype";
      itemsize ← of_result (dtype_size_bytes (bs_dtype source_spec));
      _ ← check (forallb (λ e, e * itemsize mod 32 =? 0) source_shape) ProgramValidationError
        "transpose source dimensions must each be 32-byte aligned";
      destination ← region dst (bs_shape destination_spec);
      source ← region src (bs_shape source_spec);
      destination ← known destination;
      source ← known source;
      _ ← check (bool_decide (rg_byte_offset destination = VInt 0) && bool_decide (rg_byte_offset source = VInt 0))
        UnsupportedSimOpError "functional transpose currently requires whole-buffer operands";
      mret [("dst", VRegion destination); ("src", VRegion source)]
  | _ => skip
  end.

(** [extent * size]: a symbolic extent has no product *)
Definition extent_bytes (extent : pyval) (r : BufferRegion) : decM Z :=
  itemsize ← itemsize_of r;
  match static extent with
  | Some z => mret (z * itemsize)
  | None => fails TypeError "unsupported operand type(s) for *"
  end.

(** [reinterpretcast] *)
Definition reinterpretcast_metadata (arguments : list expr) : decM metadata :=
  match arguments with
  | [dst; src; cast_type] =>
      destination_extent ← access_ptr_extent dst;
      source_extent ← access_ptr_extent src;
      destination_extent ← known destination_extent;
      source_extent ← known source_extent;
      cast_type ← need (literal_str cast_type) ProgramValidationError "reinterpretcast casttype must be a string";
      rs ← regions_of [(dst, [destination_extent]); (src, [source_extent])];
      match rs with
      | [destination; source] =>
          _ ← check_ub rs "reinterpretcast requires UB operands";
          _ ← check (bool_decide (rg_byte_offset destination = VInt 0) && bool_decide (rg_byte_offset source = VInt 0))
            UnsupportedSimOpError "functional reinterpretcast currently requires whole-buffer operands";
          destination_bytes ← extent_bytes destination_extent destination;
          source_bytes ← extent_bytes source_extent source;
          _ ← check (destination_bytes =? source_bytes) ProgramValidationError "reinterpretcast byte sizes must match";
          _ ← check (is_dtype (ascend_template_dtype cast_type) destination) ProgramValidationError
            "reinterpretcast casttype must match destination dtype";
          destination_spec ← buffer_of (rg_buffer destination);
          source_spec ← buffer_of (rg_buffer source);
          let planned spec := truthy (mget (bs_metadata spec) "planned_address") in
          mret [("dst", VRegion destination); ("src", VRegion source); ("alias_dst", VStr (rg_buffer destination));
                ("alias_src", VStr (rg_buffer source));
                ("materialize_view", VBool (planned destination_spec || planned source_spec))]
      | _ => skip
      end
  | _ => skip
  end.

(** [topk] *)
Definition topk_metadata (arguments : list expr) : decM metadata :=
  match arguments with
  | [template; dst; src; tmp; k; repeat_times; actual_num; max_actual_num] =>
      k ← const_arg k;
      repeat_times ← const_arg repeat_times;
      actual_num ← int_arg actual_num;
      max_actual_num ← const_arg max_actual_num;
      template ← need (literal_str template) ProgramValidationError "topk template name must be a string";
      let label := "functional topk requires static K, repeatTimes, and max_actual_num" in
      k ← need k UnsupportedSimOpError label;
      repeat_times ← need repeat_times UnsupportedSimOpError label;
      max_actual_num ← need max_actual_num UnsupportedSimOpError label;
      actual_num ← need actual_num UnsupportedSimOpError "topk actual_num is not executable";
      _ ← check ((0 <? k) && (0 <? max_actual_num) && (k <=? max_actual_num)) ProgramValidationError
        "topk requires 0 < K <= max_actual_num";
      let expected_repeats := (max_actual_num + 31) / 32 in
      _ ← check (repeat_times =? expected_repeats) ProgramValidationError "topk repeatTimes";
      _ ← check (match static actual_num with Some n => (k <=? n) && (n <=? max_actual_num) | None => true end)
        ProgramValidationError "topk actual_num range";
      extents ← static_extents [dst; src; tmp] "functional topk requires static pointer extents";
      match extents with
      | [destination_extent; source_extent; scratch_extent] =>
          _ ← check (2 * k <=? destination_extent) ProgramValidationError "topk destination extent";
          _ ← check (max_actual_num <=? source_extent) ProgramValidationError "topk source extent";
          _ ← check (0 <? scratch_extent) ProgramValidationError "topk scratch extent must be positive";
          rs ← regions_of [(dst, [VInt (2 * k)]); (src, [actual_num]); (tmp, [VInt scratch_extent])];
          match rs with
          | [destination; source; scratch] =>
              _ ← check_ub rs "topk requires UB operands";
              _ ← check (same_dtype destination source) ProgramValidationError "topk dtypes must match";
              _ ← supports source FLOAT_DTYPES "functional topk dtype";
              between ← need (if startswith "TopK<" template && endswith ">" template then
                                Some (drop_last (drop_chars 5 template)) else None) ProgramValidationError
                          "topk template must be TopK<dtype>";
              _ ← check (is_dtype (template_dtype between) destination) ProgramValidationError
                "topk template dtype must match operands";
              let minimum := expected_repeats * 32 * (if mem_str (rg_dtype source) ["float16"] then 10 else 4) in
              _ ← check (minimum <=? scratch_extent) ProgramValidationError "topk scratch extent is too small";
              _ ← check_aligned [scratch] "topk scratch pointer must be 32-byte aligned";
              mret [("dst", VRegion destination); ("src", VRegion source); ("scratch", VRegion scratch);
                    ("topk", VDict [("k", VInt k); ("actual_num", actual_num); ("max_actual_num", VInt max_actual_num);
                                    ("repeat_times", VInt repeat_times)])]
          | _ => skip
          end
      | _ => skip
      end
  | _ => fails UnsupportedSimOpError "functional topk requires the final eight-argument ABI"
  end.

(** [sort32] *)
Definition sort32_metadata (arguments : list expr) : decM metadata :=
  match arguments with
  | [dst; src; index; n] =>
      repeat_times ← int_arg n;
      repeat_times ← need repeat_times UnsupportedSimOpError "sort32 repeatTimes is not executable";
      _ ← check (match static repeat_times with Some r => (1 <=? r) && (r <=? 255) | None => true end)
        ProgramValidationError "sort32 repeatTimes must be in [1, 255]";
      count ← times repeat_times 32;
      extents ← static_extents [src; index; dst] "functional sort32 requires static pointer extents";
      match extents with
      | [source_extent; index_extent; destination_extent] =>
          rs ← regions_of [(src, [VInt source_extent]); (index, [VInt index_extent]); (dst, [VInt destination_extent])];
          match rs with
          | [source; index; destination] =>
              _ ← check_ub rs "sort32 requires UB operands";
              _ ← supports source FLOAT_DTYPES "functional sort32 dtype";
              _ ← check (same_dtype destination source) ProgramValidationError "sort32 dtypes must match";
              _ ← check (mem_str (rg_dtype index) INDEX_DTYPES) ProgramValidationError "sort32 index dtype";
              let multiplier := if mem_str (rg_dtype source) ["float16"] then 4 else 2 in
              _ ← match static count with
                  | None => mret tt
                  | Some c =>
                      _ ← check ((c <=? source_extent) && (c <=? index_extent)) ProgramValidationError
                        "sort32 source/index extents";
                      check (multiplier * c <=? destination_extent) ProgramValidationError "sort32 destination extent"
                  end;
              _ ← check_aligned [destination; source; index] "sort32 pointer must be 32-byte aligned";
              output ← times count multiplier;
              destination ← with_shape destination [output];
              source ← with_shape source [count];
              index ← with_shape index [count];
              mret [("dst", VRegion destination); ("src", VRegion source); ("offsets", VRegion index);
                    ("repeat_times", repeat_times); ("output_multiplier", VInt multiplier)]
          | _ => skip
          end
      | _ => skip
      end
  | _ => fails UnsupportedSimOpError "functional sort32 requires dst, src, indices, and repeatTimes"
  end.

(** The repeat count of [sort] against its element count. *)
Definition check_sort_repeats (repeat_times actual_num : pyval) : decM unit :=
  match static repeat_times with
  | None => mret tt
  | Some r =>
      check ((0 <? r) && match static actual_num with Some n => r =? (n + 31) / 32 | None => true end)
        ProgramValidationError "sort repeatTimes does not match actual_num"
  end.

(** [sort] *)
Definition sort_metadata (arguments : list expr) : decM metadata :=
  match arguments with
  | [template; dst; src; tmp; repeat_times; actual_num] =>
      repeat_times ← int_arg repeat_times;
      actual_num ← int_arg actual_num;
      let label := "sort repeatTimes and actual_num must be executable" in
      repeat_times ← need repeat_times UnsupportedSimOpError label;
      actual_num ← need actual_num UnsupportedSimOpError label;
      _ ← check (match static actual_num with Some n => 0 <? n | None => true end) ProgramValidationError
        "sort actual_num must be positive";
      _ ← check_sort_repeats repeat_times actual_num;
      extents ← static_extents [dst; src; tmp] "functional sort requires static pointer extents";
      match extents with
      | [destination_extent; source_extent; scratch_extent] =>
          _ ← check ((0 <? source_extent) && (2 * source_extent <=? destination_extent)) ProgramValidationError
            "sort destination extent must be at least twice the source extent";
          _ ← check (0 <? scratch_extent) ProgramValidationError "sort scratch extent must be positive";
          _ ← check (match static actual_num with Some n => n <=? source_extent | None => true end)
            ProgramValidationError "sort actual_num exceeds source extent";
          doubled ← times actual_num 2;
          rs ← regions_of [(dst, [doubled]); (src, [actual_num]); (tmp, [VInt scratch_extent])];
          match rs with
          | [destination; source; scratch] =>
              _ ← check_ub rs "sort requires UB operands";
              _ ← check (same_dtype destination source) ProgramValidationError "sort dtypes must match";
              _ ← supports source FLOAT_DTYPES "functional sort dtype";
              between ← need (template_between "Sort<" template) ProgramValidationError "sort template must be Sort<dtype>";
              _ ← check (is_dtype (template_dtype between) destination) ProgramValidationError
                "sort template dtype must match operands";
              aligned_count ← times repeat_times 32;
              minimum ← times aligned_count (if mem_str (rg_dtype source) ["float16"] then 8 else 2);
              _ ← check (match static minimum with Some m => m <=? scratch_extent | None => true end)
                ProgramValidationError "sort scratch extent is too small";
              _ ← check_aligned [scratch] "sort scratch pointer must be 32-byte aligned";
              mret [("dst", VRegion destination); ("src", VRegion source); ("scratch", VRegion scratch);
                    ("sort", VDict [("actual_num", actual_num); ("repeat_times", repeat_times);
                                    ("source_capacity", VInt source_extent)])]
          | _ => skip
          end
      | _ => skip
      end
  | _ => fails UnsupportedSimOpError "functional sort requires the final six-argument ABI"
  end.

Definition INIT_SORT_BUF_BLOCK_ELEMENTS : Z := 64.

(** [init_sort_buf] *)
Definition init_sort_buf_metadata (arguments : list expr) : decM metadata :=
  match arguments with
  | [template; dst; n; _] =>
      between ← need (template_between "InitSortBuf<" template) ProgramValidationError
                  "init_sort_buf template must be InitSortBuf<dtype>";
      count ← int_arg n;
      count ← need (count ≫= static) UnsupportedSimOpError "functional init_sort_buf requires a static element count";
      _ ← check (0 <? count) ProgramValidationError "init_sort_buf element count must be positive";
      capacity ← access_ptr_extent dst;
      capacity ← need (capacity ≫= static) UnsupportedSimOpError
                   "functional init_sort_buf requires a static destination extent";
      _ ← check (count <=? capacity) ProgramValidationError "init_sort_buf element count exceeds destination extent";
      destination ← region dst [VInt count];
      destination ← known destination;
      _ ← check_ub [destination] "init_sort_buf requires a UB destination";
      _ ← check (is_dtype (template_dtype between) destination) ProgramValidationError
        "init_sort_buf template dtype must match destination";
      _ ← supports destination ["float32"] "functional init_sort_buf currently supports float32 workspaces";
      mret [("dst", VRegion destination);
            ("init_sort_buf", VDict [("element_count", VInt count);
                                     ("covered_elements", VInt (count - count mod INIT_SORT_BUF_BLOCK_ELEMENTS))])]
  | _ => fails UnsupportedSimOpError "functional init_sort_buf requires the four-argument ABI"
  end.

(** The scratch operand of [merge_sort]. *)
Definition merge_scratch (pointer : expr) (output_bytes : Z) : decM BufferRegion :=
  extent ← access_ptr_extent pointer;
  extent ← need (z ← extent ≫= static; if 0 <? z then Some z else None) ProgramValidationError
             "merge_sort scratch extent must be a positive static integer";
  scratch ← region pointer [VInt extent];
  scratch ← known scratch;
  _ ← check_ub [scratch] "merge_sort scratch must use UB scope";
  _ ← check_aligned [scratch] "merge_sort scratch pointer must be 32-byte aligned";
  itemsize ← itemsize_of scratch;
  _ ← check (output_bytes <=? extent * itemsize) ProgramValidationError "merge_sort scratch extent is too small";
  mret scratch.

(** [merge_sort] *)
Definition merge_sort_metadata (arguments : list expr) : decM metadata :=
  _ ← check (7 <=? length arguments)%nat UnsupportedSimOpError "functional merge_sort ABI is malformed";
  match arguments with
  | template :: ways :: dst :: rest =>
      between ← need (template_between "MergeSort<" template) ProgramValidationError
                  "merge_sort template must be MergeSort<dtype>";
      dtype ← need (d ← template_dtype between; if mem_str d FLOAT_DTYPES then Some d else None) UnsupportedSimOpError
                "functional merge_sort supports float16 and float32 records";
      let record_width := if mem_str dtype ["float16"] then 4 else 2 in
      ways ← const_arg ways;
      ways ← need (w ← ways; if (w =? 2) || (w =? 3) || (w =? 4) then Some w else None) ProgramValidationError
               "merge_sort numWays must be 2, 3, or 4";
      let n := Z.to_nat ways in
      let has_scratch := (length rest =? 2 * n + 1)%nat in
      _ ← check ((length rest =? 2 * n)%nat || has_scratch) UnsupportedSimOpError "merge_sort arguments";
      let operands := if has_scratch then drop 1 rest else rest in
      let pointers := take n operands in
      lengths ← st_map const_arg (drop n operands);
      lengths ← need (mapM (λ l, z ← l; if 0 <? z then Some z else None) lengths) ProgramValidationError
                  "merge_sort block lengths must be positive";
      extents ← static_extents (dst :: pointers) "functional merge_sort requires static pointer extents";
      let output_elements := record_width * foldl Z.add 0 lengths in
      _ ← check (output_elements <=? hd 0 extents) ProgramValidationError "merge_sort destination extent";
      _ ← check (forallb (λ p, record_width * p.2 <=? p.1) (zip (tl extents) lengths)) ProgramValidationError
        "merge_sort source extent is smaller than its block length";
      rs ← regions_of ((dst, [VInt output_elements]) ::
                       zip_with (λ pointer l, (pointer, [VInt (record_width * l)])) pointers lengths);
      _ ← check_ub rs "merge_sort requires UB operands";
      _ ← check (forallb (is_dtype (Some dtype)) rs) ProgramValidationError
        "merge_sort buffer dtypes must match its template";
      _ ← check_aligned rs "merge_sort pointer must be 32-byte aligned";
      match rs with
      | destination :: sources =>
          let md := [("dst", VRegion destination); ("src_regions", VTuple (VRegion <$> sources));
                     ("merge_sort", VDict [("num_ways", VInt ways); ("lengths", VTuple (VInt <$> lengths));
                                           ("record_width", VInt record_width)])] in
          if has_scratch then
            match rest with
            | pointer :: _ =>
                itemsize ← itemsize_of destination;
                scratch ← merge_scratch pointer (output_elements * itemsize);
                mret (dset md "scratch" (VRegion scratch))
            | [] => skip
            end
          else mret md
      | [] => skip
      end
  | _ => skip
  end.

(** [atomic_add_ub_to_gm] *)
Definition atomic_add_ub_metadata (operation : string) (arguments : list expr) : decM metadata :=
  match arguments with
  | [src; dst; stride; rows; cols] =>
      stride ← int_arg stride;
      rows ← int_arg rows;
      cols ← int_arg cols;
      let label := "atomic_add_ub_to_gm dimensions must be executable" in
      stride ← need stride UnsupportedSimOpError label;
      rows ← need rows UnsupportedSimOpError label;
      cols ← need cols UnsupportedSimOpError label;
      _ ← check (match static stride, static rows, static cols with
                 | Some s, Some r, Some c => (0 <? r) && (0 <? c) && (c <=? s)
                 | _, _, _ => true
                 end) ProgramValidationError "atomic_add_ub_to_gm requires positive rows/cols and stride >= cols";
      rs ← regions_of [(src, [rows; cols]); (dst, [rows; cols])];
      match rs with
      | [source; destination] =>
          itemsize ← itemsize_of destination;
          row ← times stride itemsize;
          destination ← with_strides destination [row; VInt itemsize];
          _ ← check (region_in UB source && region_in GM destination) ProgramValidationError
            "atomic_add_ub_to_gm requires UB source and GM destination";
          _ ← check (same_dtype source destination) ProgramValidationError "atomic_add_ub_to_gm dtypes must match";
          _ ← supports source FLOAT_DTYPES "functional atomic_add_ub_to_gm dtype";
          _ ← check (match static cols with Some c => c * itemsize mod 32 =? 0 | None => true end)
            ProgramValidationError "atomic_add_ub_to_gm row width must be 32-byte aligned";
          parameters ← need (template_parameters (after_last "::" operation)) ProgramValidationError
                         "atomic_add_ub_to_gm requires a dtype template";
          _ ← check (is_dtype (template_dtype (hd "" (split_on "," parameters))) destination) ProgramValidationError
            "atomic_add_ub_to_gm template dtype must match operands";
          mret [("dst", VRegion destination); ("src", VRegion source); ("accumulator", VRegion destination);
                ("atomic", VDict [("kind", VStr "add"); ("rows", rows); ("cols", cols); ("stride", stride);
                                  ("source_scope", VStr (scope_value (rg_scope source)))])]
      | _ => skip
      end
  | _ => fails UnsupportedSimOpError "functional atomic_add_ub_to_gm requires five operands"
  end.

(** The text between a marker and the last bracket, [tag[start + len(marker):-1]], split at commas
    and stripped. *)
Definition marked_parameters (marker tag : string) : option (list string) :=
  '(_, parameters) ← cut marker tag;
  if endswith ">" tag then Some (strip <$> split_on "," (drop_last parameters)) else None.

(** A tile that starts at a multiple of its size, inside its buffer. *)
Definition check_tile (r : BufferRegion) (tile_bytes : Z) (spec : BufferSpec) (label : string) : decM unit :=
  _ ← check (match static (rg_byte_offset r) with Some z => z mod tile_bytes =? 0 | None => false end)
    UnsupportedSimOpError label;
  size ← of_result (buffer_size_bytes spec);
  check (match static (rg_byte_offset r), size with
         | Some offset, Some size => offset + tile_bytes <=? size
         | _, _ => true
         end) ProgramValidationError label.

Definition ROW_MAJOR_LAYOUTS : list string := ["layout::rowmajor"; "layout::row_major"].
Definition ATOMIC_DTYPES : list (string * string) :=
  [("float32", "float32"); ("float32", "float16"); ("float32", "bfloat16"); ("int32", "int32")].

(** The template of [atomic_add_l0c_to_gm]: the two dtypes and the physical extents. *)
Definition atomic_l0c_template (operation : string) : decM (string * string * Z * Z) :=
  parameters ← need (marked_parameters "atomic_add_l0c_to_gm<" operation) UnsupportedSimOpError
                 "malformed atomic_add_l0c_to_gm template";
  match parameters with
  | [source; destination; gm_layout; rows; cols] =>
      _ ← check (mem_str (lower gm_layout) ROW_MAJOR_LAYOUTS) UnsupportedSimOpError
        "functional atomic_add_l0c_to_gm requires RowMajor GM";
      '(rows, cols) ← need (rows ← parse_int rows; cols ← parse_int cols; Some (rows, cols)) UnsupportedSimOpError
                        "atomic_add_l0c_to_gm requires static template extents";
      mret (source, destination, rows, cols)
  | _ => fails UnsupportedSimOpError "malformed atomic_add_l0c_to_gm template"
  end.

(** [atomic_add_l0c_to_gm] *)
Definition atomic_add_l0c_metadata (operation : string) (arguments : list expr) : decM metadata :=
  match arguments with
  | [src; dst; stride; rows; cols] =>
      '(source_dtype, destination_dtype, physical_rows, physical_cols) ← atomic_l0c_template operation;
      dimensions ← int_args [stride; rows; cols];
      dimensions ← need (mapM (λ v, v ≫= static) dimensions) UnsupportedSimOpError
                     "functional atomic_add_l0c_to_gm requires static dimensions";
      match dimensions with
      | [destination_cols; valid_rows; valid_cols] =>
          _ ← check ((0 <? physical_rows) && (0 <? physical_cols) && (0 <? destination_cols)) ProgramValidationError
            "atomic_add_l0c_to_gm physical extents and GM stride must be positive";
          _ ← check ((0 <=? valid_rows) && (valid_rows <=? physical_rows)) ProgramValidationError
            "atomic_add_l0c_to_gm valid rows exceed the physical tile";
          _ ← check ((0 <=? valid_cols) && (valid_cols <=? Z.min physical_cols destination_cols)) ProgramValidationError
            "atomic_add_l0c_to_gm valid columns exceed the physical tile or GM stride";
          source_name ← known (pointed_buffer src);
          source_spec ← buffer_of source_name;
          spec_itemsize ← of_result (dtype_size_bytes (bs_dtype source_spec));
          capacity ← of_result (storage_elements "l0c" [physical_rows; physical_cols] spec_itemsize);
          elements ← of_result (storage_elements "l0c" [physical_rows; valid_cols] spec_itemsize);
          rs ← regions_of [(src, [VInt elements]); (dst, [VInt valid_rows; VInt valid_cols])];
          match rs with
          | [source; destination] =>
              itemsize ← itemsize_of destination;
              destination ← with_strides destination [VInt (destination_cols * itemsize); VInt itemsize];
              _ ← check (region_in L0C source && region_in GM destination) ProgramValidationError
                "atomic_add_l0c_to_gm requires L0C source and GM destination";
              _ ← check (is_dtype (ascend_template_dtype source_dtype) source
                         && is_dtype (ascend_template_dtype destination_dtype) destination) ProgramValidationError
                "atomic_add_l0c_to_gm buffer dtypes disagree with its template";
              _ ← check (bool_decide ((rg_dtype source, rg_dtype destination) ∈ ATOMIC_DTYPES)) UnsupportedSimOpError
                "functional atomic_add_l0c_to_gm dtypes";
              source_itemsize ← itemsize_of source;
              _ ← check_tile source (capacity * source_itemsize) source_spec "atomic_add_l0c_to_gm source tile";
              mret [("src", VRegion source); ("dst", VRegion destination); ("accumulator", VRegion destination);
                    ("atomic", VDict [("kind", VStr "add"); ("rows", VInt valid_rows); ("cols", VInt valid_cols);
                                      ("stride", VInt destination_cols);
                                      ("source_scope", VStr (scope_value (rg_scope source)));
                                      ("source_shape", VTuple [VInt physical_rows; VInt valid_cols])])]
          | _ => skip
          end
      | _ => skip
      end
  | _ => fails UnsupportedSimOpError "functional atomic_add_l0c_to_gm requires five operands"
  end.
End decode.
