(* ===== verification/DecodeCopy.v ===== *)
(** The operand decoders of [bridge.py] for the copies between memory scopes, with the row
    broadcasts of the vector unit: linear and fractal tiles, and the regions they read and write. *)

From S2P Require Import Prelude PyDict PySort PyStr Errors Values Layout Program MemoryView RegionOverlap.
From S2P Require Import PyNum ExecEnv BridgeOps BridgeMemory BridgeExpr BridgeRegions DecodeVector DecodeReduce DecodeSort.
Local Open Scope string_scope.
Local Open Scope Z_scope.
Local Open Scope list_scope.

(** A step of the bridge inside a decoder. *)
Definition in_bridge {A} (m : bridgeM A) : decM A := λ st,
  match m st with
  | (st, Ok a) => (st, Ok a)
  | (st, Raise e) => (st, Raise (Failed e))
  end.

(** Consecutive pieces of a window: from [cursor] to [limit], none across a multiple of [width]. *)
Fixpoint segments (fuel : nat) (width cursor limit : Z) : list (Z * Z) :=
  match fuel with
  | O => []
  | S fuel =>
      if cursor <? limit then
        let piece := Z.min (width - cursor mod width) (limit - cursor) in
        (cursor, piece) :: segments fuel width (cursor + piece) limit
      else []
  end.

(** The first coordinate whose element lies at a physical offset. *)
Fixpoint first_at (layout : string) (shape : list Z) (itemsize offset : Z) (l : list (Z * Z)) : result (option (Z * Z)) :=
  match l with
  | [] => Ok None
  | (row, col) :: l =>
      i ← physical_index layout row col shape itemsize;
      if i =? offset then Ok (Some (row, col)) else first_at layout shape itemsize offset l
  end.
Definition tile_origin (layout : string) (rows cols itemsize offset : Z) : result (option (Z * Z)) :=
  first_at layout [rows; cols] itemsize offset (coords rows cols).

Section decode.
Context {TVM : Tvm} {D : Decode}.
Abbreviation metadata := (dict string pyval).

(** ** From GM to L1 *)

(** The fields of a copy, from the columns of the source, the valid and the physical extents. *)
Definition copy_fields (layout : string) (dims : list pyval) : list (string * pyval) :=
  ("layout", VStr layout) ::
  match dims with
  | [source_cols; valid_rows; valid_cols; physical_rows; physical_cols] =>
      [("valid_rows", valid_rows); ("valid_cols", valid_cols); ("source_cols", source_cols);
       ("physical_rows", physical_rows); ("physical_cols", physical_cols)]
  | _ => []
  end.

(** [copy_gm_to_l1_linear] *)
Definition gm_to_l1_linear_metadata (arguments : list expr) : decM metadata :=
  match arguments with
  | [src; dst; a; b; c; d; e] =>
      dims ← int_args [a; b; c; d; e];
      dims ← all_known dims;
      match dims with
      | [source_cols; valid_rows; valid_cols; physical_rows; physical_cols] =>
          _ ← check (negb (some_negative dims)) ProgramValidationError "GM-to-L1 linear extents must not be negative";
          _ ← match statics dims with
              | Some [sc; vr; vc; pr; pc] =>
                  _ ← check ((vr <=? pr) && (vc <=? pc)) ProgramValidationError
                    "GM-to-L1 valid rectangle must fit its physical L1 tile";
                  check (vc <=? sc) ProgramValidationError "GM-to-L1 valid columns exceed the GM row stride"
              | _ => mret tt
              end;
          source ← access_region src [valid_rows; valid_cols] None (Some source_cols);
          destination ← region dst [valid_rows; valid_cols];
          source ← known source;
          destination ← known destination;
          _ ← check (region_in GM source && region_in L1 destination) ProgramValidationError
            "copy_gm_to_l1_linear requires GM source and L1 destination";
          _ ← check (same_dtype source destination) ProgramValidationError "copy_gm_to_l1_linear dtypes must match";
          itemsize ← itemsize_of source;
          _ ← check (match static valid_cols with Some z => z * itemsize mod 32 =? 0 | None => true end)
            ProgramValidationError "copy_gm_to_l1_linear row width must be 32-byte aligned";
          mret [("src", VRegion source); ("dst", VRegion destination); ("copy", VDict (copy_fields "row_major" dims))]
      | _ => skip
      end
  | _ => skip
  end.

(** The destination of a fractal copy at an offset that is no multiple of the tile: the bands of
    the fractal rows that the valid rectangle touches. *)
Definition zn_bands (r : BufferRegion) (offset valid_rows physical_rows physical_cols itemsize : Z)
    (size : option Z) : decM (list BufferRegion * Z) :=
  let per_c0 := BYTE_PER_C0 / itemsize in
  let written_rows := - ((- valid_rows) / C0_NUM_PER_FRACTAL) * C0_NUM_PER_FRACTAL in
  let band_stride := physical_rows * per_c0 in
  let base := offset / itemsize in
  let per_band := written_rows * per_c0 in
  _ ← check (match size with
             | Some size => (base + (physical_cols / per_c0 - 1) * band_stride + per_band) * itemsize <=? size
             | None => true
             end) ProgramValidationError "GM-to-L1 zN sub-tile bands exceed the destination buffer";
  bands ← st_map (λ band, replace_region r [VInt per_band] (VInt ((base + band * band_stride) * itemsize))
                            (rg_strides_bytes r)) (py_range (physical_cols / per_c0));
  mret (bands, written_rows).

(** [range(0, valid_cols, elements_per_c0)] *)
Definition c0_columns (valid_cols per_c0 : Z) : list Z := (λ k, k * per_c0) <$> py_range (ceil_div valid_cols per_c0).
(** The destination of a fractal copy that starts inside a fractal row: the pieces of C0 blocks of
    each row. *)
Definition zn_rebased (r : BufferRegion) (offset valid_rows valid_cols physical_rows physical_cols itemsize : Z)
    : decM (list BufferRegion) :=
  let per_c0 := BYTE_PER_C0 / itemsize in
  st_map (λ '(row, column),
      index ← of_result (physical_index "zN" row column [physical_rows; physical_cols] itemsize);
      replace_region r [VInt (Z.min per_c0 (valid_cols - column))] (VInt (offset + index * itemsize)) (rg_strides_bytes r))
    (flat_map (λ row, (λ column, (row, column)) <$> c0_columns valid_cols per_c0) (py_range valid_rows)).

(** The three shapes of the destination of [copy_gm_to_l1]. *)
Definition zn_destination (source destination : BufferRegion) (dims : list Z) (itemsize tile_bytes : Z)
    (size : option Z) : decM metadata :=
  match dims with
  | [_; valid_rows; valid_cols; physical_rows; physical_cols] =>
      offset ← need (static (rg_byte_offset destination)) UnsupportedSimOpError
                 "functional copy_gm_to_l1 requires a static destination offset";
      let fields := copy_fields "zN" (VInt <$> dims) in
      let regions rs extra := [("src", VRegion source); ("dst_regions", VTuple (VRegion <$> rs));
                               ("copy", VDict (fields ++ extra))] in
      let clear b := ("need_clear", VBool b) in
      if offset mod tile_bytes =? 0 then
        _ ← check (match size with Some size => offset + tile_bytes <=? size | None => true end)
          ProgramValidationError "GM-to-L1 zN physical tile exceeds the destination buffer";
        mret [("src", VRegion source); ("dst", VRegion destination);
              ("copy", VDict (fields ++
                 [clear (negb ((valid_rows =? physical_rows) && (valid_cols =? physical_cols)))]))]
      else if (physical_rows mod C0_NUM_PER_FRACTAL =? 0) && (offset mod (BYTE_PER_FRACTAL / itemsize * itemsize) =? 0) then
        '(bands, written) ← zn_bands destination offset valid_rows physical_rows physical_cols itemsize size;
        mret (regions bands [("written_rows", VInt written); clear false])
      else
        _ ← check (offset mod BYTE_PER_C0 =? 0) UnsupportedSimOpError
          "functional copy_gm_to_l1 rebased zN copies require a 32-byte-aligned destination offset";
        pieces ← zn_rebased destination offset valid_rows valid_cols physical_rows physical_cols itemsize;
        mret (regions pieces [("rebased_zN", VBool true); clear false])
  | _ => skip
  end.

(** [copy_gm_to_l1] *)
Definition gm_to_l1_zn_metadata (arguments : list expr) : decM metadata :=
  match arguments with
  | [src; dst; a; b; c; d; e] =>
      dims ← int_args [a; b; c; d; e];
      dims ← all_known dims;
      dims ← need (statics dims) UnsupportedSimOpError "functional copy_gm_to_l1 requires static source and tile extents";
      match dims with
      | [source_cols; valid_rows; valid_cols; physical_rows; physical_cols] =>
          _ ← check (forallb (λ z, 0 <=? z) dims) ProgramValidationError "GM-to-L1 zN extents must not be negative";
          _ ← check (negb ((physical_rows =? 0) || (physical_cols =? 0))) ProgramValidationError
            "GM-to-L1 zN physical tile extents must be positive";
          _ ← check ((valid_rows <=? physical_rows) && (valid_cols <=? physical_cols)) ProgramValidationError
            "GM-to-L1 valid rectangle must fit its physical L1 tile";
          _ ← check (valid_cols <=? source_cols) ProgramValidationError
            "GM-to-L1 valid columns exceed the GM row stride";
          source ← access_region src [VInt valid_rows; VInt valid_cols] None (Some (VInt source_cols));
          source ← known source;
          name ← known (pointed_buffer dst);
          spec ← buffer_of name;
          _ ← check (region_in GM source && bool_decide (bs_scope spec = L1)) ProgramValidationError
            "copy_gm_to_l1 requires GM source and L1 destination";
          _ ← check (bool_decide (rg_dtype source = bs_dtype spec)) ProgramValidationError
            "copy_gm_to_l1 requires matching source/destination dtype";
          itemsize ← itemsize_of source;
          _ ← check (physical_cols mod (BYTE_PER_C0 / itemsize) =? 0) UnsupportedSimOpError
            "functional copy_gm_to_l1 requires a C0-aligned physical tile";
          elements ← of_result (storage_elements "zN" [physical_rows; physical_cols] itemsize);
          _ ← in_bridge (reserve_layout_capacity name (elements * itemsize) "zN");
          spec ← buffer_of name;
          destination ← region dst [VInt elements];
          destination ← known destination;
          size ← of_result (buffer_size_bytes spec);
          zn_destination source destination dims itemsize (elements * itemsize) size
      | _ => skip
      end
  | _ => skip
  end.

(** ** From UB *)

(** [_UB_TO_UB_CAST_NONE] *)
Definition UB_TO_UB_CAST_NONE : list (string * string) :=
  [("float32", "float16"); ("float32", "bfloat16"); ("float32", "int16"); ("float16", "int8"); ("int16", "int32")].

(** The name without the prefix of the intrinsics, in any case. *)
Fixpoint strip_any_case (prefixes : list string) (template : string) : string :=
  match prefixes with
  | [] => template
  | p :: prefixes =>
      if startswith p (lower template) then drop_chars (String.length p) template else strip_any_case prefixes template
  end.
Definition copy_template (operation : string) : string :=
  strip_any_case ["tl.ascend_"; "tl::ascend::"; "ascendc::"] operation.

(** The row stride of an operand of [copy_ub_to_ub], in elements, against the declared one. *)
Definition check_row_stride (stride : Z) (r : BufferRegion) : decM unit :=
  itemsize ← itemsize_of r;
  physical ← match rg_strides_bytes r with
             | Some (s :: _) =>
                 s ← need (static s) TypeError "unsupported operand type(s) for //";
                 mret (Some (s / itemsize))
             | Some [] => fails IndexError "tuple index out of range"
             | None => mret (last (rg_shape r) ≫= static)
             end;
  check (match physical with Some p => stride =? p | None => true end) ProgramValidationError
    "copy_ub_to_ub row stride disagrees with the buffer's physical row width".

(** The conversion of a [copy_ub_to_ub]. *)
Definition ub_cast_mode (destination source : string) : pyval :=
  if bool_decide (source = destination) then VNone
  else if bool_decide ((destination, source) ∈ UB_TO_UB_CAST_NONE) then VStr "CAST_NONE" else VStr "CAST_RINT".

(** [copy_ub_to_ub] *)
Definition ub_to_ub_metadata (operation : string) (arguments : list expr) : decM metadata :=
  match arguments with
  | [src; dst; a; b; c; d; e; f] =>
      let template := copy_template operation in
      let malformed := "copy_ub_to_ub template must be copy_ub_to_ub<dtype, dtype, len>" in
      _ ← check (startswith "copy_ub_to_ub<" template && endswith ">" template) ProgramValidationError malformed;
      dims ← int_args [a; b; c; d; e; f];
      dims ← all_known dims;
      dims ← need (statics dims) UnsupportedSimOpError "functional copy_ub_to_ub requires static tile extents";
      match dims with
      | [src_rows; src_cols; src_stride; dst_rows; dst_cols; dst_stride] =>
          _ ← check (forallb (λ z, 0 <=? z) dims) ProgramValidationError "copy_ub_to_ub extents must not be negative";
          _ ← check ((src_cols <=? src_stride) && (dst_cols <=? dst_stride)) ProgramValidationError
            "copy_ub_to_ub tile columns must not exceed the row stride";
          source ← access_region src [VInt src_rows; VInt src_cols] (Some (VInt src_stride)) None;
          destination ← access_region dst [VInt dst_rows; VInt dst_cols] (Some (VInt dst_stride)) None;
          source ← known source;
          destination ← known destination;
          _ ← check (region_in UB source && region_in UB destination) ProgramValidationError
            "copy_ub_to_ub requires UB source and UB destination";
          _ ← check_row_stride src_stride source;
          _ ← check_row_stride dst_stride destination;
          _ ← check ((src_rows =? dst_rows) && (src_cols =? dst_cols)) ProgramValidationError
            "copy_ub_to_ub tiles must have identical extents";
          tokens ← need (template_parameters template) ProgramValidationError malformed;
          match split_on "," tokens with
          | [to; from; len] =>
              _ ← check (is_dtype (ascend_template_dtype to) destination && is_dtype (ascend_template_dtype from) source)
                ProgramValidationError "copy_ub_to_ub template dtypes must match the source/destination buffers";
              len ← need (parse_int len) UnsupportedSimOpError
                      "functional copy_ub_to_ub requires a static template length";
              _ ← check (len =? src_rows * src_cols) ProgramValidationError
                "copy_ub_to_ub template length must equal the tile size";
              mret [("src", VRegion source); ("dst", VRegion destination);
                    ("copy", VDict [("layout", VStr "ub_to_ub"); ("valid_rows", VInt src_rows);
                                    ("valid_cols", VInt src_cols);
                                    ("cast_mode", ub_cast_mode (rg_dtype destination) (rg_dtype source))])]
          | _ => fails ProgramValidationError malformed
          end
      | _ => skip
      end
  | _ => skip
  end.

(** [copy_ub_to_l1] *)
Definition ub_to_l1_metadata (operation : string) (arguments : list expr) : decM metadata :=
  match arguments with
  | [src; dst; a; b; c; d] =>
      dims ← int_args [a; b; c; d];
      dims ← all_known dims;
      dims ← need (statics dims) UnsupportedSimOpError "functional copy_ub_to_l1 requires static tile extents";
      match dims with
      | [src_cols; src_rows; dst_rows; dst_cols] =>
          _ ← check ((src_rows =? dst_rows) && (src_cols =? dst_cols)) ProgramValidationError
            "copy_ub_to_l1 requires identical source and destination tile extents";
          _ ← check ((0 <? src_rows) && (0 <? src_cols)) ProgramValidationError
            "copy_ub_to_l1 tile extents must be positive";
          source ← region src [VInt src_rows; VInt src_cols];
          source ← known source;
          _ ← check (region_in UB source) ProgramValidationError "copy_ub_to_l1 requires a UB source";
          let template := copy_template operation in
          let declared := if startswith "copy_ub_to_l1<" template
                          then parameters ← template_parameters template;
                               ascend_template_dtype (hd "" (split_on "," parameters))
                          else None in
          _ ← check (match declared with Some d => bool_decide (d = rg_dtype source) | None => true end)
            ProgramValidationError "copy_ub_to_l1 template dtype must match the source buffer";
          _ ← supports source ["float16"] "functional copy_ub_to_l1 supports half tiles only";
          itemsize ← itemsize_of source;
          _ ← check ((src_rows mod C0_NUM_PER_FRACTAL =? 0) && (src_cols mod (BYTE_PER_C0 / itemsize) =? 0))
            UnsupportedSimOpError "functional copy_ub_to_l1 requires a fractal/C0-aligned tile";
          elements ← of_result (storage_elements "zN" [src_rows; src_cols] itemsize);
          destination ← region dst [VInt elements];
          destination ← known destination;
          _ ← check (region_in L1 destination) ProgramValidationError "copy_ub_to_l1 requires an L1 destination";
          mret [("src", VRegion source); ("dst", VRegion destination);
                ("copy", VDict (copy_fields "zN" (VInt <$> [src_cols; src_rows; src_cols; src_rows; src_cols])
                                ++ [("need_clear", VBool false)]))]
      | _ => skip
      end
  | _ => skip
  end.

(** ** Row broadcasts *)

(** The elements between the first and the last that [brcb] writes. *)
Definition brcb_footprint (repeat blk_stride rep_stride per_block : Z) : Z :=
  if 0 <? repeat then (repeat - 1) * rep_stride * per_block + 7 * blk_stride * per_block + per_block else 0.

(** [brcb] *)
Definition brcb_metadata (arguments : list expr) : decM metadata :=
  match arguments with
  | [template; dst; src; repeat; blk_stride; rep_stride] =>
      between ← need (template_between "brcb<" template) ProgramValidationError "brcb template must be brcb<dtype>";
      controls ← int_args [repeat; blk_stride; rep_stride];
      controls ← all_known controls;
      controls ← need (statics controls) UnsupportedSimOpError "functional brcb requires a static repeat and strides";
      match controls with
      | [repeat; blk_stride; rep_stride] =>
          _ ← check (forallb (λ z, 0 <=? z) controls) ProgramValidationError
            "brcb repeat and strides must not be negative";
          source ← region src [VInt (repeat * 8)];
          source ← known source;
          _ ← check (region_in UB source) ProgramValidationError "brcb requires a UB source";
          _ ← check (match ascend_template_dtype (strip between) with
                     | Some d => bool_decide (d = rg_dtype source)
                     | None => true
                     end) ProgramValidationError "brcb template dtype must match the source buffer";
          itemsize ← itemsize_of source;
          destination ← region dst [VInt (brcb_footprint repeat blk_stride rep_stride (BYTE_PER_C0 / itemsize))];
          destination ← known destination;
          _ ← check (region_in UB destination) ProgramValidationError "brcb requires a UB destination";
          _ ← check (same_dtype destination source) ProgramValidationError "brcb source/destination dtypes must match";
          _ ← check_aligned [destination; source] "brcb requires 32-byte-aligned operands";
          mret [("dst", VRegion destination); ("src", VRegion source);
                ("brcb", VDict [("repeat", VInt repeat); ("blk_stride", VInt blk_stride);
                                ("rep_stride", VInt rep_stride)])]
      | _ => skip
      end
  | _ => fails UnsupportedSimOpError "functional brcb requires the six-argument ABI"
  end.

(** [shape[-1]] *)
Definition last_extent (shape : list pyval) : decM pyval :=
  need (last shape) IndexError "tuple index out of range".

(** The physical row stride of the destination of a row broadcast. *)
Definition expand_row_stride (data : string) (spec : BufferSpec) (row_elements per_block itemsize : Z) : decM Z :=
  let shape := original_shape data spec in
  stride ← last_extent (if (2 <=? length shape)%nat then shape else bs_shape spec);
  need (z ← static stride;
        if (row_elements <=? z) && (z * itemsize mod BYTE_PER_C0 =? 0) && (z / per_block <=? 255) then Some z else None)
    ProgramValidationError "row expansion requires a 32-byte-aligned physical row stride".
(** The one of the source, when the pointer names a buffer. *)
Definition expand_source_stride (src : expr) (row_stride : Z) : decM pyval :=
  st ← st_get;
  match data_name src with
  | Some data =>
      match (name ← dget dc_names data; dget (br_buffers st) name) with
      | Some spec => if nonempty data then last_extent (original_shape data spec) else mret (VInt row_stride)
      | None => mret (VInt row_stride)
      end
  | None => mret (VInt row_stride)
  end.

(** The scratch operand of a row broadcast. *)
Definition expand_scratch (tmp : expr) (elements : Z) (destination : BufferRegion) : decM BufferRegion :=
  extent ← access_ptr_extent tmp;
  _ ← check (match extent with Some v => bool_decide (static v = Some elements) | None => true end)
    ProgramValidationError "row expansion tmp extent";
  scratch ← region tmp [VInt elements];
  scratch ← known scratch;
  _ ← check (region_in UB scratch) ProgramValidationError "row expansion requires a UB tmp";
  _ ← check (same_dtype scratch destination) ProgramValidationError
    "row expansion requires matching tmp and operand dtypes";
  mret scratch.

(** The two row windows of a row broadcast, with the number of elements in a block. *)
Definition expand_windows (parameters : string) (dst src : expr) (dst_extent : Z)
    : decM (BufferRegion * BufferRegion * Z * Z * Z) :=
  data ← known (data_name dst);
  name ← known (dget dc_names data);
  spec ← buffer_of name;
  _ ← check (match template_dtype parameters with Some d => bool_decide (d = bs_dtype spec) | None => true end)
    ProgramValidationError "row expansion tag dtype must match the operand buffers";
  _ ← check (mem_str (bs_dtype spec) FLOAT_DTYPES) UnsupportedSimOpError "row expansion supports float16/float32 rows only";
  itemsize ← of_result (dtype_size_bytes (bs_dtype spec));
  let per_block := BYTE_PER_C0 / itemsize in
  let row_elements := 8 * per_block in
  row_stride ← expand_row_stride data spec row_elements per_block itemsize;
  let rows := dst_extent / row_elements in
  _ ← check ((dst_extent mod row_elements =? 0) && (1 <=? rows) && (rows <=? 255)) ProgramValidationError
    "row expansion extent must tile into 1..255 rows";
  destination ← access_region dst [VInt rows; VInt row_elements] None (Some (VInt row_stride));
  source_stride ← expand_source_stride src row_stride;
  source ← access_region src [VInt rows; VInt row_elements] None (Some source_stride);
  destination ← known destination;
  source ← known source;
  _ ← st_iter (λ r, _ ← check (region_in UB r) ProgramValidationError "row expansion requires UB operands";
                    check (offset_aligned r BYTE_PER_C0) ProgramValidationError
                      "row expansion requires 32-byte-aligned row windows") [destination; source];
  _ ← check (bool_decide (static source_stride = Some row_stride)) ProgramValidationError
    "row expansion source and destination physical row strides must match";
  mret (destination, source, rows, row_elements, per_block).

(** [_row_expand_metadata] *)
Definition row_expand_metadata (arguments : list expr) : decM metadata :=
  let decode tag dst src scalar tmp :=
    parameters ← need (l ← literal_str tag; template_parameters l) ProgramValidationError "row expansion tag";
    extents ← st_map access_ptr_extent [dst; src; scalar];
    extents ← all_known extents;
    extents ← need (statics extents) UnsupportedSimOpError "row expansion requires static pointer extents";
    match extents with
    | [dst_extent; src0_extent; src1_extent] =>
        _ ← check (dst_extent =? src0_extent) ProgramValidationError
          "row expansion source and destination extents must match";
        '(destination, source, rows, row_elements, per_block) ← expand_windows parameters dst src dst_extent;
        let scalar_elements := match tmp with Some _ => rows | None => rows * per_block end in
        _ ← check (src1_extent =? scalar_elements) ProgramValidationError "row expansion scalar source extent";
        scalar_source ← region scalar [VInt scalar_elements];
        scalar_source ← known scalar_source;
        _ ← check (region_in UB scalar_source) ProgramValidationError "row expansion requires a UB scalar source";
        let md := [("dst", VRegion destination); ("src", VRegion source); ("scalar_src", VRegion scalar_source);
                   ("row_expand", VDict [("rows", VInt rows); ("row_elements", VInt row_elements)])] in
        match tmp with
        | None => mret md
        | Some tmp => scratch ← expand_scratch tmp (rows * per_block) destination; mret (dset md "scratch" (VRegion scratch))
        end
    | _ => skip
    end in
  match arguments with
  | [tag; dst; src; scalar] => decode tag dst src scalar None
  | [tag; dst; src; scalar; tmp] => decode tag dst src scalar (Some tmp)
  | _ => fails UnsupportedSimOpError "row expansion requires (tag, dst, src0, src1[, tmp])"
  end.
End decode.
