(* ===== verification/DecodeMatrix.v ===== *)
(** The operand decoders of [bridge.py] for the matrix unit: L1 to BT and to L0, L0C to GM, im2col,
    and the matrix multiplications. *)

From S2P Require Import Prelude PyDict PySort PyStr Errors Values Layout Program MemoryView RegionOverlap.
From S2P Require Import PyNum ExecEnv BridgeOps BridgeMemory BridgeExpr BridgeRegions.
From S2P Require Import DecodeVector DecodeReduce DecodeSort DecodeCopy.
Local Open Scope string_scope.
Local Open Scope Z_scope.
Local Open Scope list_scope.

Section decode.
Context {TVM : Tvm} {D : Decode}.
Abbreviation metadata := (dict string pyval).

Definition positive (l : list Z) : bool := forallb (λ z, 0 <? z) l.
Definition natural (l : list Z) : bool := forallb (λ z, 0 <=? z) l.
Definition shape_of (l : list Z) : pyval := VTuple (VInt <$> l).

(** [copy_l1_to_bt] *)
Definition l1_to_bt_metadata (tag : string) (arguments : list expr) : decM metadata :=
  match arguments with
  | [src; dst; length] =>
      parameters ← need (marked_parameters "copy_l1_to_bt<" tag) UnsupportedSimOpError "malformed copy_l1_to_bt template";
      match parameters with
      | [to; from] =>
          length ← int_arg length;
          length ← need (length ≫= static) UnsupportedSimOpError
                     "functional copy_l1_to_bt requires a static element count";
          _ ← check (0 <? length) ProgramValidationError "copy_l1_to_bt length must be positive";
          rs ← regions_of [(src, [VInt length]); (dst, [VInt length])];
          match rs with
          | [source; destination] =>
              _ ← check (region_in L1 source && region_in BT destination) ProgramValidationError
                "copy_l1_to_bt requires L1 source and BT destination";
              _ ← check (is_dtype (ascend_template_dtype from) source && is_dtype (ascend_template_dtype to) destination
                         && same_dtype source destination) ProgramValidationError
                "copy_l1_to_bt requires matching buffer and template dtypes";
              _ ← supports source ["float32"; "int32"] "functional copy_l1_to_bt supports float32/int32 bias";
              itemsize ← itemsize_of source;
              let transfer := length * itemsize in
              _ ← check (transfer mod 64 =? 0) UnsupportedSimOpError
                "functional copy_l1_to_bt requires a 64-byte-aligned transfer";
              mret [("src", VRegion source); ("dst", VRegion destination);
                    ("copy", VDict [("valid_elements", VInt length); ("layout", VStr "linear")]);
                    ("transfer_bytes", VInt transfer)]
          | _ => skip
          end
      | _ => fails UnsupportedSimOpError "malformed copy_l1_to_bt template"
      end
  | _ => skip
  end.

(** ** From L1 to L0 *)

Definition bool_flag (s : string) : option bool := dget [("true", true); ("false", false)] s.

(** The template of [copy_l1_to_l0a] and [copy_l1_to_l0b]: the shape of the source and the
    transposition. *)
Definition l0_template (operation tag : string) : decM (Z * Z * bool) :=
  parameters ← known (marked_parameters (operation +:+ "<") tag);
  match parameters with
  | [_; rows; cols; flag] =>
      '(rows, cols) ← need (rows ← parse_int rows; cols ← parse_int cols; Some (rows, cols)) UnsupportedSimOpError
                        "copy_l1_to_l0 requires static source template extents";
      transpose ← need (bool_flag flag) UnsupportedSimOpError
                    "copy_l1_to_l0 requires a literal transpose template flag";
      mret (rows, cols, transpose)
  | _ => fails UnsupportedSimOpError "malformed copy_l1_to_l0 template"
  end.

(** The L1 windows behind one L0 tile, one per C0 block that it touches: in [zN] the blocks lie
    along the columns, in [nZ] along the rows. *)
Definition l0_window (transposed : bool) (source : BufferRegion) (shape : list Z) (itemsize slot_base : Z)
    (origin : Z * Z) (rows cols : Z) (piece : Z * Z) : decM BufferRegion :=
  let per_c0 := BYTE_PER_C0 / itemsize in
  let '(cursor, extent) := piece in
  let '(row, col, window, strides) :=
    if transposed then (cursor, origin.2, [extent; cols], [itemsize; per_c0 * itemsize])
    else (origin.1, cursor, [rows; extent], [per_c0 * itemsize; itemsize]) in
  offset ← of_result (physical_index (if transposed then "nZ" else "zN") row col shape itemsize);
  replace_region source (VInt <$> window) (VInt ((slot_base + offset) * itemsize)) (Some (VInt <$> strides)).
Definition l0_windows (transposed : bool) (source : BufferRegion) (shape : list Z) (itemsize slot_base : Z)
    (origin : Z * Z) (rows cols : Z) : decM (list BufferRegion) :=
  let '(start, extent) := if transposed then (origin.1, rows) else (origin.2, cols) in
  st_map (l0_window transposed source shape itemsize slot_base origin rows cols)
    (segments (Z.to_nat extent) (BYTE_PER_C0 / itemsize) start (start + extent)).

(** [_l1_to_l0_metadata] *)
Definition l1_to_l0_metadata (operation tag : string) (arguments : list expr) : decM metadata :=
  match arguments with
  | [src; dst; dst_m; dst_n] =>
      '(source_rows, source_cols, transpose) ← l0_template operation tag;
      dims ← int_args [dst_m; dst_n];
      dims ← all_known dims;
      dims ← need (statics dims) UnsupportedSimOpError "functional copy_l1_to_l0 requires static destination extents";
      match dims with
      | [rows; cols] =>
          _ ← check (positive [source_rows; source_cols; rows; cols]) ProgramValidationError
            "copy_l1_to_l0 matrix extents must be positive";
          let '(logical_rows, logical_cols) :=
            if transpose : bool then (source_cols, source_rows) else (source_rows, source_cols) in
          let shape := [logical_rows; logical_cols] in
          _ ← check ((rows <=? logical_rows) && (cols <=? logical_cols)) ProgramValidationError
            "copy_l1_to_l0 destination tile must fit its logical L1 source";
          let source_layout := if transpose then "nZ" else "zN" in
          let to_l0a := endswith "l0a" operation in
          let destination_layout := if to_l0a then "l0a" else "l0b" in
          source_data ← known (data_name src);
          destination_data ← known (data_name dst);
          source_name ← known (dget dc_names source_data);
          destination_name ← known (dget dc_names destination_data);
          source_spec ← buffer_of source_name;
          destination_spec ← buffer_of destination_name;
          _ ← check (bool_decide (bs_scope source_spec = L1)
                     && bool_decide (bs_scope destination_spec = if to_l0a then L0A else L0B))
            ProgramValidationError "copy_l1_to_l0 requires L1 source and L0 destination";
          _ ← check (bool_decide (bs_dtype source_spec = bs_dtype destination_spec)) ProgramValidationError
            "copy_l1_to_l0 requires matching source/destination dtype";
          itemsize ← of_result (dtype_size_bytes (bs_dtype source_spec));
          source_elements ← of_result (storage_elements source_layout shape itemsize);
          destination_elements ← of_result (storage_elements destination_layout [rows; cols] itemsize);
          _ ← in_bridge (reserve_layout_capacity source_name (source_elements * itemsize) source_layout);
          source ← region src [VInt source_elements];
          destination ← region dst [VInt destination_elements];
          source ← known source;
          destination ← known destination;
          offset ← need (z ← static (rg_byte_offset source); if z mod BYTE_PER_C0 =? 0 then Some z else None)
                     UnsupportedSimOpError "functional copy_l1_to_l0 requires a 32-byte-aligned source";
          let element := offset / itemsize in
          let slot_base := if 0 <? source_elements then element / source_elements * source_elements else 0 in
          origin ← of_result (tile_origin source_layout logical_rows logical_cols itemsize (element - slot_base));
          origin ← need origin UnsupportedSimOpError
                     "functional copy_l1_to_l0 cannot map its source offset to a logical tile";
          _ ← check ((origin.1 + rows <=? logical_rows) && (origin.2 + cols <=? logical_cols)) ProgramValidationError
            "copy_l1_to_l0 source window exceeds its logical L1 tile";
          windows ← l0_windows transpose source shape itemsize slot_base origin rows cols;
          let direct := match windows with [window] => Some window | _ => None end in
          source ← match direct with
                   | Some window => mret window
                   | None => replace_region source [VInt source_elements] (VInt 0) None
                   end;
          _ ← check_tile destination (destination_elements * itemsize) destination_spec "copy_l1_to_l0 destination tile";
          let md := [("src", VRegion source); ("dst", VRegion destination);
                     ("copy", VDict [("layout_transform", VBool true); ("source_layout", VStr source_layout);
                                     ("destination_layout", VStr destination_layout); ("source_shape", shape_of shape);
                                     ("destination_shape", shape_of [rows; cols]);
                                     ("source_origin", shape_of [origin.1; origin.2]);
                                     ("source_window_direct", VBool (bool_decide (is_Some direct)));
                                     ("source_region_axis", VInt (if transpose then 0 else 1));
                                     ("transpose", VBool transpose)])] in
          mret (match direct with
                | Some _ => md
                | None => dset md "src_regions" (VTuple (VRegion <$> windows))
                end)
      | _ => skip
      end
  | _ => skip
  end.

(** ** From L0C to GM *)

Definition RELU_TEMPLATES : dict string bool := [("true", true); ("false", false); ("1", true); ("0", false)].
(** The template of [copy_l0c_to_gm]: the dtypes, the physical extents and the activation. *)
Definition l0c_template (tag : string) : decM (string * string * Z * Z * bool) :=
  parameters ← known (marked_parameters "copy_l0c_to_gm<" tag);
  match parameters with
  | [from; to; layout; rows; cols; relu] =>
      _ ← check (mem_str (lower layout) ROW_MAJOR_LAYOUTS) UnsupportedSimOpError
        "functional copy_l0c_to_gm requires RowMajor GM";
      '(rows, cols) ← need (rows ← parse_int rows; cols ← parse_int cols; Some (rows, cols)) UnsupportedSimOpError
                        "copy_l0c_to_gm requires static source template extents";
      relu ← need (dget RELU_TEMPLATES (lower relu)) UnsupportedSimOpError
               "copy_l0c_to_gm requires a literal ReLU template flag";
      mret (from, to, rows, cols, relu)
  | _ => fails UnsupportedSimOpError "malformed copy_l0c_to_gm template"
  end.

(** The static dimensions of [copy_l0c_to_gm] against its template. *)
Definition check_l0c_dimensions (dims : list Z) (rows cols : Z) : decM unit :=
  match dims with
  | [destination_cols; valid_rows; valid_cols; physical_rows; physical_cols] =>
      _ ← check (positive [destination_cols; physical_rows; physical_cols]) ProgramValidationError
        "copy_l0c_to_gm physical extents and GM stride must be positive";
      _ ← check (natural [valid_rows; valid_cols]) ProgramValidationError
        "copy_l0c_to_gm valid extents must not be negative";
      _ ← check ((valid_rows <=? physical_rows) && (valid_cols <=? physical_cols)) ProgramValidationError
        "copy_l0c_to_gm valid rectangle must fit its physical L0C tile";
      _ ← check (valid_cols <=? destination_cols) ProgramValidationError
        "copy_l0c_to_gm valid columns exceed the GM row stride";
      check ((physical_rows =? rows) && (physical_cols =? cols)) ProgramValidationError
        "copy_l0c_to_gm physical extents disagree with its template"
  | _ => skip
  end.

(** A unit flag among the ones that are modelled. *)
Definition unit_flag_arg (e : expr) (flags : list Z) (label : string) : decM Z :=
  flag ← int_arg e;
  need (z ← flag ≫= static; if existsb (Z.eqb z) flags then Some z else None) UnsupportedSimOpError label.

(** [copy_l0c_to_gm] *)
Definition l0c_to_gm_metadata (tag : string) (arguments : list expr) : decM metadata :=
  match arguments with
  | [src; dst; a; b; c; d; e; relu; flag] =>
      '(from, to, template_rows, template_cols, template_relu) ← l0c_template tag;
      dims ← int_args [a; b; c; d; e];
      dims ← all_known dims;
      dims ← need (statics dims) UnsupportedSimOpError "functional copy_l0c_to_gm requires static dimensions";
      _ ← check_l0c_dimensions dims template_rows template_cols;
      relu ← need (static (literal_arg relu)) UnsupportedSimOpError
               "copy_l0c_to_gm requires a literal enable_relu argument";
      _ ← check (Bool.eqb (negb (relu =? 0)) template_relu) ProgramValidationError
        "copy_l0c_to_gm ReLU argument disagrees with its template";
      unit_flag ← unit_flag_arg flag [0; 3] "functional copy_l0c_to_gm supports unitFlag 0 or 0b11";
      match dims with
      | [destination_cols; valid_rows; valid_cols; physical_rows; physical_cols] =>
          source_name ← known (pointed_buffer src);
          spec ← buffer_of source_name;
          spec_itemsize ← of_result (dtype_size_bytes (bs_dtype spec));
          capacity ← of_result (storage_elements "l0c" [physical_rows; physical_cols] spec_itemsize);
          elements ← of_result (storage_elements "l0c" [physical_rows; valid_cols] spec_itemsize);
          rs ← regions_of [(src, [VInt elements]); (dst, [VInt valid_rows; VInt valid_cols])];
          match rs with
          | [source; destination] =>
              _ ← check (region_in L0C source && region_in GM destination) ProgramValidationError
                "copy_l0c_to_gm requires L0C source and GM destination";
              '(from, to) ← need (from ← ascend_template_dtype from; to ← ascend_template_dtype to; Some (from, to))
                              UnsupportedSimOpError "copy_l0c_to_gm uses an unsupported template dtype";
              _ ← check (is_dtype (Some from) source && is_dtype (Some to) destination) ProgramValidationError
                "copy_l0c_to_gm buffer dtypes disagree with its template";
              itemsize ← itemsize_of source;
              _ ← check_tile source (capacity * itemsize) spec "copy_l0c_to_gm source tile";
              mret [("src", VRegion source); ("dst", VRegion destination);
                    ("copy", VDict [("layout_transform", VBool true); ("source_layout", VStr "l0c");
                                    ("destination_layout", VStr "row_major");
                                    ("source_shape", shape_of [physical_rows; valid_cols]);
                                    ("destination_shape", shape_of [valid_rows; valid_cols]);
                                    ("relu", VBool template_relu); ("unit_flag", VInt unit_flag);
                                    ("destination_cols", VInt destination_cols)])]
          | _ => skip
          end
      | _ => skip
      end
  | _ => skip
  end.

(** ** Image to columns *)

(** Positions of the filter along one axis. *)
Definition conv_extent (image before after dilation kernel stride : Z) : Z :=
  (image + before + after - dilation * (kernel - 1) - 1) / stride + 1.
Definition at_most (bound : Z) (l : list Z) : bool := forallb (λ z, z <=? bound) l.

(** The parameters of [im2col], with the extents of the output and the channels. *)
Definition im2col_parameters (dtype : string) (dims : list Z) : decM (Z * Z * Z) :=
  match dims with
  | [hi; wi; kh; kw; stride_h; stride_w; dilation_h; dilation_w;
     pad_left; pad_right; pad_top; pad_bottom; pos_m; pos_k; valid_m; valid_k] =>
      _ ← check (positive [hi; wi; kh; kw; stride_h; stride_w; dilation_h; dilation_w]) ProgramValidationError
        "im2col image, filter, stride, and dilation values must be positive";
      _ ← check (natural [pad_left; pad_right; pad_top; pad_bottom]) ProgramValidationError "im2col padding must not be negative";
      _ ← check (positive [valid_m; valid_k]) ProgramValidationError "im2col valid extents must be positive";
      _ ← check (at_most 255 [pad_left; pad_right; pad_top; pad_bottom]) ProgramValidationError
        "im2col padding must fit LoadData3DParamsV2 uint8 fields";
      _ ← check (at_most 65535 [hi; wi; pos_m; pos_k; valid_m; valid_k]) ProgramValidationError
        "im2col values must fit LoadData3DParamsV2 uint16 fields";
      _ ← check ((pos_m =? 0) && (pos_k =? 0)) UnsupportedSimOpError
        "functional im2col follows the A2 contract requiring pos_m=pos_k=0";
      _ ← check (valid_k mod (kh * kw) =? 0) ProgramValidationError
        "im2col valid_k must be a positive multiple of kh*kw";
      let channels := valid_k / (kh * kw) in
      _ ← check (channels =? if mem_str dtype ["float32"] then 8 else 16) UnsupportedSimOpError
        "functional im2col requires one C0 group of channels";
      let output_h := conv_extent hi pad_top pad_bottom dilation_h kh stride_h in
      let output_w := conv_extent wi pad_left pad_right dilation_w kw stride_w in
      _ ← check (positive [output_h; output_w]) ProgramValidationError "im2col convolution has no output positions";
      _ ← check (valid_m <=? output_h * output_w) ProgramValidationError
        "im2col valid_m exceeds the convolution output position count";
      mret (output_h, output_w, channels)
  | _ => skip
  end.

Definition IM2COL_DTYPES : list string := ["float16"; "bfloat16"; "float32"].

(** [im2col] *)
Definition im2col_metadata (arguments : list expr) : decM metadata :=
  match arguments with
  | tag :: src :: dst :: parameters =>
      _ ← unless_skip (length parameters =? 16)%nat;
      between ← need (template_between "im2col<" tag) UnsupportedSimOpError "functional im2col got malformed template";
      dtype ← need (d ← template_dtype between; if mem_str d IM2COL_DTYPES then Some d else None) UnsupportedSimOpError
                "functional im2col supports float16, bfloat16, and float32";
      dims ← int_args parameters;
      dims ← all_known dims;
      dims ← need (statics dims) UnsupportedSimOpError
               "functional im2col requires static image/filter/tile parameters";
      '(output_h, output_w, channels) ← im2col_parameters dtype dims;
      match dims with
      | [hi; wi; kh; kw; stride_h; stride_w; dilation_h; dilation_w;
     pad_left; pad_right; pad_top; pad_bottom; _; _; valid_m; valid_k] =>
          itemsize ← of_result (dtype_size_bytes dtype);
          source_elements ← of_result (storage_elements "zn" [hi * wi; channels] itemsize);
          destination_elements ← of_result (storage_elements "l0a" [valid_m; valid_k] itemsize);
          rs ← regions_of [(src, [VInt source_elements]); (dst, [VInt destination_elements])];
          match rs with
          | [source; destination] =>
              _ ← check (region_in L1 source && region_in L0A destination) ProgramValidationError
                "im2col requires L1 source and L0A destination";
              _ ← check (is_dtype (Some dtype) source && is_dtype (Some dtype) destination) ProgramValidationError
                "im2col buffer dtypes must match its template dtype";
              spec ← buffer_of (rg_buffer source);
              _ ← check_tile source (source_elements * itemsize) spec "im2col source tile";
              spec ← buffer_of (rg_buffer destination);
              _ ← check_tile destination (destination_elements * itemsize) spec "im2col destination tile";
              mret [("src", VRegion source); ("dst", VRegion destination);
                    ("im2col", VDict [("image_shape", shape_of [hi; wi]); ("kernel", shape_of [kh; kw]);
                                      ("stride", shape_of [stride_h; stride_w]);
                                      ("dilation", shape_of [dilation_h; dilation_w]);
                                      ("padding", shape_of [pad_left; pad_right; pad_top; pad_bottom]);
                                      ("output_shape", shape_of [output_h; output_w]); ("channels", VInt channels);
                                      ("valid_m", VInt valid_m); ("valid_k", VInt valid_k)])]
          | _ => skip
          end
      | _ => skip
      end
  | _ => skip
  end.

(** ** Matrix multiplication *)

Definition MMA_DTYPES : list (string * string) :=
  [("float16", "float32"); ("bfloat16", "float32"); ("float32", "float32"); ("int8", "int32")].
Definition GEMM_DTYPES : list (string * string) :=
  [("float16", "float32"); ("bfloat16", "float32"); ("int8", "int32")].

(** The dtypes of a template, when the pair is one of those supported. *)
Definition dtype_pair (pairs : list (string * string)) (input accumulator : string) : option (string * string) :=
  input ← ascend_template_dtype input;
  accumulator ← ascend_template_dtype accumulator;
  if bool_decide ((input, accumulator) ∈ pairs) then Some (input, accumulator) else None.

(** The columns that a multiplication computes: all those of the template, or [n_actual]. *)
Definition actual_columns (n_actual : option expr) (cols : Z) : decM pyval :=
  match n_actual with
  | None => mret (VInt cols)
  | Some e =>
      actual ← int_arg e;
      actual ← need (v ← actual; if is_int_expr v then Some v else None) UnsupportedSimOpError
                 "matrix multiplication requires an executable n_actual";
      _ ← match static actual with
          | Some z =>
              _ ← check ((0 <? z) && (z <=? cols)) ProgramValidationError "n_actual must be in [1, N]";
              check (z mod 16 =? 0) UnsupportedSimOpError "n_actual must be a multiple of 16"
          | None => mret tt
          end;
      mret actual
  end.

(** The elements of an operand of which only some columns take part: [rows] is rounded up. *)
Definition partial_storage (layout : string) (shape : Z → list Z) (rows itemsize : Z) (actual : pyval) : result pyval :=
  match static actual with
  | Some n => elements ← storage_elements layout (shape n) itemsize; Ok (VInt elements)
  | None => scale_runtime_int actual ((rows + 15) / 16 * 16)
  end.

(** Operands that start at a multiple of their size, inside their buffers. *)
Definition check_operand (label : string) (operand : BufferRegion * Z) : decM unit :=
  let '(r, elements) := operand in
  itemsize ← itemsize_of r;
  spec ← buffer_of (rg_buffer r);
  check_tile r (elements * itemsize) spec label.

(** The template of [mma] and [mma_bias]. *)
Definition mma_template (marker : string) (tag : expr) : decM (string * string * Z * Z) :=
  between ← need (template_between marker tag) UnsupportedSimOpError "functional mma got malformed template";
  match strip <$> split_on "," between with
  | [input; accumulator; rows; cols] =>
      '(rows, cols) ← need (rows ← parse_int rows; cols ← parse_int cols; Some (rows, cols)) UnsupportedSimOpError
                        "functional mma requires static M/N template extents";
      mret (input, accumulator, rows, cols)
  | _ => fails UnsupportedSimOpError "malformed mma template"
  end.

(** The operands of a multiplication, from its dtypes and extents: left, right and result, with
    the elements that the whole tiles hold. *)
Definition mma_operands (a b c : expr) (input accumulator : string) (rows cols inner : Z) (actual : pyval)
    : decM (list (BufferRegion * Z)) :=
  input_size ← of_result (dtype_size_bytes input);
  accumulator_size ← of_result (dtype_size_bytes accumulator);
  left_elements ← of_result (storage_elements "l0a" [rows; inner] input_size);
  right_capacity ← of_result (storage_elements "l0b" [inner; cols] input_size);
  result_capacity ← of_result (storage_elements "l0c" [rows; cols] accumulator_size);
  right_elements ← of_result (partial_storage "l0b" (λ n, [inner; n]) inner input_size actual);
  result_elements ← of_result (partial_storage "l0c" (λ n, [rows; n]) rows accumulator_size actual);
  rs ← regions_of [(a, [VInt left_elements]); (b, [right_elements]); (c, [result_elements])];
  mret (zip rs [left_elements; right_capacity; result_capacity]).

(** The bias of [mma_bias]. *)
Definition mma_bias (pointer : option expr) (actual : pyval) : decM (option BufferRegion) :=
  match pointer with
  | None => mret None
  | Some pointer => r ← region pointer [actual]; r ← known r; mret (Some r)
  end.

Definition mma_decode (tag a b c : expr) (bias : option expr) (init inner : expr) (partial : option (expr * expr))
    : decM metadata :=
  '(input, accumulator, rows, cols) ← mma_template (if bias is Some _ then "mma_bias<" else "mma<") tag;
  inner ← int_arg inner;
  inner ← known inner;
  inner ← need (static inner) UnsupportedSimOpError "functional mma requires a static K extent";
  _ ← check (positive [rows; cols; inner]) ProgramValidationError "mma M/N/K extents must be positive";
  init ← const_arg init;
  init ← need init UnsupportedSimOpError "functional mma requires an init flag resolvable for each loop iteration";
  let initialize := negb (init =? 0) in
  actual ← actual_columns (fst <$> partial) cols;
  unit_flag ← match partial with
              | None => mret 0
              | Some (_, flag) => unit_flag_arg flag [0; 2; 3] "functional mma supports unitFlag 0, 0b10, or 0b11"
              end;
  '(input, accumulator) ← need (dtype_pair MMA_DTYPES input accumulator) UnsupportedSimOpError
                            "functional mma dtypes";
  operands ← mma_operands a b c input accumulator rows cols inner actual;
  match operands with
  | [left_operand; right_operand; destination_operand] =>
      let '(lhs, rhs, destination) := (left_operand.1, right_operand.1, destination_operand.1) in
      bias ← mma_bias bias actual;
      _ ← check (region_in L0A lhs && region_in L0B rhs && region_in L0C destination) ProgramValidationError
        "mma requires L0A, L0B, and L0C operands";
      _ ← check (is_dtype (Some input) lhs && is_dtype (Some input) rhs && is_dtype (Some accumulator) destination)
        ProgramValidationError "mma buffer dtypes disagree with its template";
      _ ← check (match bias with Some r => region_in BT r && is_dtype (Some accumulator) r | None => true end)
        ProgramValidationError "mma_bias requires a BT bias matching the accumulator dtype";
      _ ← st_iter (check_operand "mma operand tile") operands;
      let fields := [("rows", VInt rows); ("cols", VInt cols); ("inner", VInt inner); ("init", VBool initialize);
                     ("n_actual", actual); ("unit_flag", VInt unit_flag)] in
      let md fields := [("lhs", VRegion lhs); ("rhs", VRegion rhs); ("dst", VRegion destination); ("mma", VDict fields)]
                       ++ (if unit_flag =? 2 then [("unit_flag_role", VStr "hold")] else []) in
      mret (match bias with
            | Some r => md (fields ++ [("bias", VBool true)]) ++ [("bias", VRegion r)]
            | None => md fields ++ (if initialize then [] else [("accumulator", VRegion destination)])
            end)
  | _ => skip
  end.

(** [mma], [mma_bias] *)
Definition mma_metadata (biased : bool) (arguments : list expr) : decM metadata :=
  match biased, arguments with
  | false, [tag; a; b; c; init; inner] => mma_decode tag a b c None init inner None
  | false, [tag; a; b; c; init; inner; n; flag] => mma_decode tag a b c None init inner (Some (n, flag))
  | true, [tag; a; b; c; bias; init; inner] => mma_decode tag a b c (Some bias) init inner None
  | true, [tag; a; b; c; bias; init; inner; n; flag] => mma_decode tag a b c (Some bias) init inner (Some (n, flag))
  | _, _ => skip
  end.

(** ** Tiled multiplication *)

Record gemm_shape := MkGemm {
  gm_input : string;
  gm_accumulator : string;
  gm_rows : Z;
  gm_cols : Z;
  gm_inner : Z;
  gm_k_l0_size : Z;
  gm_transpose_a : bool;
  gm_transpose_b : bool;
}.

(** The template of [gemm_v0]. *)
Definition gemm_template (tag : expr) : decM gemm_shape :=
  between ← need (template_between "gemm_v0<" tag) UnsupportedSimOpError "malformed gemm_v0 template";
  match strip <$> split_on "," between with
  | [input; accumulator; rows; cols; inner; flag_a; flag_b; k] =>
      extents ← need (mapM parse_int [rows; cols; inner; k]) UnsupportedSimOpError
                  "functional gemm_v0 requires static M/N/K/kL0Size";
      match extents with
      | [rows; cols; inner; k] =>
          _ ← check (positive extents) ProgramValidationError "gemm_v0 extents must be positive";
          _ ← check ((k mod 16 =? 0) && (k <=? 4095)) ProgramValidationError
            "gemm_v0 kL0Size must be a multiple of 16 and at most 4095";
          '(flag_a, flag_b) ← need (a ← bool_flag flag_a; b ← bool_flag flag_b; Some (a, b)) UnsupportedSimOpError
                                "functional gemm_v0 requires literal transpose flags";
          mret (MkGemm input accumulator rows cols inner k flag_a flag_b)
      | _ => skip
      end
  | _ => fails UnsupportedSimOpError "malformed gemm_v0 template"
  end.

(** The tiling of the columns: their number in a tile, the number of tiles, and that of steps. *)
Definition gemm_tiling (g : gemm_shape) (input_bytes : Z) : decM (Z * Z * Z) :=
  let k := gm_k_l0_size g in
  let max_n := 32 * 1024 / (k * input_bytes) in
  let n_tile := if gm_transpose_b g || (gm_cols g <=? max_n) then gm_cols g else max_n in
  _ ← check ((0 <? n_tile) && (gm_cols g mod n_tile =? 0)) ProgramValidationError
    "gemm_v0 N tiling does not evenly divide the output columns";
  let n_l0_split := gm_cols g / n_tile in
  let step_count := (gm_inner g + k - 1) / k * n_l0_split in
  let budget := 64 * 1024 / (if 1 <? step_count then 2 else 1) in
  _ ← check (n_tile * k * input_bytes <=? budget) ProgramValidationError "gemm_v0 B tile exceeds its L0B slot";
  _ ← check (gm_rows g * k * input_bytes <=? budget) ProgramValidationError "gemm_v0 A tile exceeds its L0A slot";
  mret (n_tile, n_l0_split, step_count).

Definition gemm_fields (g : gemm_shape) (initialize : bool) (actual : pyval) (tiling : Z * Z * Z)
    (shape_a shape_b : list Z) : list (string * pyval) :=
  let '(n_tile, n_l0_split, step_count) := tiling in
  [("rows", VInt (gm_rows g)); ("cols", VInt (gm_cols g)); ("inner", VInt (gm_inner g)); ("shape_a", shape_of shape_a);
   ("shape_b", shape_of shape_b); ("transpose_a", VBool (gm_transpose_a g)); ("transpose_b", VBool (gm_transpose_b g));
   ("init", VBool initialize); ("n_actual", actual); ("k_l0_size", VInt (gm_k_l0_size g)); ("n_tile", VInt n_tile);
   ("n_l0_split", VInt n_l0_split); ("step_count", VInt step_count)].

Definition gemm_decode (tag a b c init : expr) (n_actual : option expr) : decM metadata :=
  g ← gemm_template tag;
  init ← const_arg init;
  init ← need init UnsupportedSimOpError "functional gemm_v0 requires an init flag resolvable for each loop iteration";
  let initialize := negb (init =? 0) in
  actual ← actual_columns n_actual (gm_cols g);
  _ ← check (gm_transpose_b g || bool_decide (static actual = Some (gm_cols g))) UnsupportedSimOpError
    "functional gemm_v0 supports partial n_actual only with transpose_B";
  '(input, accumulator) ← need (dtype_pair GEMM_DTYPES (gm_input g) (gm_accumulator g)) UnsupportedSimOpError
                            "functional gemm_v0 dtypes";
  input_bytes ← of_result (dtype_size_bytes input);
  tiling ← gemm_tiling g input_bytes;
  let shape_a := if gm_transpose_a g then [gm_inner g; gm_rows g] else [gm_rows g; gm_inner g] in
  let shape_b := if gm_transpose_b g then [gm_cols g; gm_inner g] else [gm_inner g; gm_cols g] in
  a_elements ← of_result (storage_elements "zn" shape_a input_bytes);
  b_elements ← of_result (storage_elements "zn" shape_b input_bytes);
  accumulator_bytes ← of_result (dtype_size_bytes accumulator);
  c_elements ← of_result (storage_elements "l0c" [gm_rows g; gm_cols g] accumulator_bytes);
  rs ← regions_of [(a, [VInt a_elements]); (b, [VInt b_elements]); (c, [VInt c_elements])];
  match rs with
  | [lhs; rhs; destination] =>
      _ ← check (region_in L1 lhs && region_in L1 rhs && region_in L0C destination) ProgramValidationError
        "gemm_v0 requires L1, L1, and L0C operands";
      _ ← check (is_dtype (Some input) lhs && is_dtype (Some input) rhs && is_dtype (Some accumulator) destination)
        ProgramValidationError "gemm_v0 buffer dtypes disagree with its template";
      _ ← st_iter (check_operand "gemm_v0 operand tile") (zip rs [a_elements; b_elements; c_elements]);
      mret ([("lhs", VRegion lhs); ("rhs", VRegion rhs); ("dst", VRegion destination);
             ("gemm", VDict (gemm_fields g initialize actual tiling shape_a shape_b))]
            ++ (if initialize then [] else [("accumulator", VRegion destination)]))
  | _ => skip
  end.

(** [gemm_v0] *)
Definition gemm_v0_metadata (arguments : list expr) : decM metadata :=
  match arguments with
  | [tag; a; b; c; init] => gemm_decode tag a b c init None
  | [tag; a; b; c; init; n_actual] => gemm_decode tag a b c init (Some n_actual)
  | _ => skip
  end.
End decode.
