(* ===== verification/BridgeDispatch.v ===== *)
(** [_functional_metadata] of [bridge.py]: which decoder reads the operands of which operation,
    and the copies between GM and UB. *)

From S2P Require Import Prelude PyDict PySort PyStr Errors Values Layout Program MemoryView RegionOverlap.
From S2P Require Import PyNum ExecEnv BridgeOps BridgeMemory BridgeExpr BridgeRegions.
From S2P Require Import DecodeVector DecodeReduce DecodeSort DecodeCopy DecodeMatrix.
Local Open Scope string_scope.
Local Open Scope Z_scope.
Local Open Scope list_scope.

Section decode.
Context {TVM : Tvm} {D : Decode}.
Abbreviation metadata := (dict string pyval).

(** ** Copies between GM and UB *)

(** The physical tile of a strided copy: the extents from some position on, one row by default. *)
Definition physical_tile (rest : list expr) : decM (option (pyval * pyval)) :=
  match rest with
  | [] => mret None
  | [cols] => cols ← int_arg cols; cols ← known cols; mret (Some (VInt 1, cols))
  | rows :: cols :: _ =>
      rows ← int_arg rows;
      cols ← int_arg cols;
      rows ← known rows;
      cols ← known cols;
      mret (Some (rows, cols))
  end.

(** The description of a strided copy, and its physical tile. *)
Definition strided_details (gm_to_ub : bool) (arguments : list expr) (stride : expr) (valid_rows valid_cols : pyval)
    : decM (metadata * option (pyval * pyval)) :=
  let padded := gm_to_ub || (8 <=? length arguments)%nat in
  let details := [("valid_rows", valid_rows); ("valid_cols", valid_cols); ("stride_n", literal stride)] in
  let details := match padded, arguments !! 5%nat with
                 | true, Some pad => dset details "pad_value" (literal_arg pad)
                 | _, _ => details
                 end in
  tile ← physical_tile (drop (if padded then 6 else 5)%nat arguments);
  match tile with
  | None => mret (details, None)
  | Some (rows, cols) =>
      _ ← check (match statics [valid_rows; valid_cols; rows; cols] with
                 | Some [vr; vc; pr; pc] => (vr <=? pr) && (vc <=? pc)
                 | _ => true
                 end) ProgramValidationError "copy valid rectangle must fit its physical destination tile";
      mret (dset (dset details "physical_rows" rows) "physical_cols" cols, tile)
  end.

(** The padding region of a copy into UB, when it lies inside the buffer. *)
Definition pad_destination (dst : expr) (rows cols : pyval) (md : metadata) : decM metadata :=
  r ← region dst [rows; cols];
  fits ← match r with Some r => region_fits_buffer r | None => mret false end;
  mret (match r with
        | Some r => if fits : bool then dset md "pad_dst" (VRegion r)
                    else dset md "pad_disabled_reason" (VStr "physical tile exceeds buffer view")
        | None => dset md "pad_disabled_reason" (VStr "physical tile exceeds buffer view")
        end).

(** [copy_gm_to_ub] and [copy_ub_to_gm] with at least five operands *)
Definition strided_copy (gm_to_ub : bool) (src dst stride rows cols : expr) (arguments : list expr) : decM metadata :=
  valid_rows ← int_arg rows;
  valid_cols ← int_arg cols;
  valid_rows ← known valid_rows;
  valid_cols ← known valid_cols;
  _ ← check (negb (some_negative [valid_rows; valid_cols])) ProgramValidationError
    "copy valid rows/columns must not be negative";
  row_stride ← int_arg stride;
  '(details, tile) ← strided_details gm_to_ub arguments stride valid_rows valid_cols;
  let physical_cols := snd <$> tile in
  let shape := [valid_rows; valid_cols] in
  source ← (if gm_to_ub then access_region src shape None row_stride else access_region src shape physical_cols None);
  destination ← (if gm_to_ub then access_region dst shape physical_cols None else access_region dst shape None row_stride);
  source ← known source;
  destination ← known destination;
  let md := [("src", VRegion source); ("dst", VRegion destination); ("copy", VDict details)] in
  match gm_to_ub && dmem details "pad_value", tile with
  | true, Some (rows, cols) => pad_destination dst rows cols md
  | _, _ => mret md
  end.

(** With three or four operands: a number of consecutive elements. *)
Definition linear_copy (src dst length : expr) : decM metadata :=
  length ← int_arg length;
  length ← known length;
  _ ← unless_skip (negb (is_negative length));
  source ← region src [length];
  destination ← region dst [length];
  source ← known source;
  destination ← known destination;
  mret [("src", VRegion source); ("dst", VRegion destination); ("copy", VDict [("valid_elements", length)])].

Definition ub_copy_metadata (normalized : string) (arguments : list expr) : decM metadata :=
  let gm_to_ub := contains "copy_gm_to_ub" normalized in
  match arguments with
  | src :: dst :: stride :: rows :: cols :: _ => strided_copy gm_to_ub src dst stride rows cols arguments
  | src :: dst :: length :: _ => linear_copy src dst length
  | _ => skip
  end.

(** ** The decoder of an operation *)

Definition through_bitwise (m : decM metadata) : decM metadata := md ← m; bitwise_metadata md.

(** The element-wise operations. *)
Definition vector_decoder (short : string) (tail : bool) (arguments : list expr) : option (decM metadata) :=
  let among names := mem_str short names in
  if among ["add"; "sub"; "mul"; "div"; "min"; "max"; "sub_experiment"] then Some (binary_metadata tail arguments)
  else if among ["bitwise_and"; "bitwise_or"] then Some (through_bitwise (binary_metadata false arguments))
  else if among ["bitwise_xor"] then Some (through_bitwise (pow_metadata arguments))
  else if among ["adds"; "subs"; "muls"; "divs"; "mins"; "maxs"; "leaky_relu"; "mins_experiment"] then
    Some (scalar_metadata tail arguments)
  else if among ["axpy"] then Some (axpy_metadata arguments)
  else if among ["mul_add_dst"] then Some (mul_add_dst_metadata arguments)
  else if among ["abs"; "exp"; "ln"; "reciprocal"; "relu"; "rsqrt"; "sqrt"; "abs_experiment"] then
    Some (unary_metadata tail arguments)
  else if among ["bitwise_not"] then Some (through_bitwise (unary_metadata false arguments))
  else if among ["bitwise_lshift"; "bitwise_rshift"] then Some (shift_metadata arguments)
  else if among ["sigmoid"; "silu"; "sin"; "cos"] then Some (scratch_unary_metadata arguments)
  else if among ["round"] then Some (round_metadata arguments)
  else if among ["pow"] then Some (pow_metadata arguments)
  else if among ["clamp"; "clamp_max"; "clamp_min"] then Some (clamp_metadata short arguments)
  else if among ["broadcast"] then Some (broadcast_metadata arguments)
  else if among ["tail_broadcast"] then Some (tail_broadcast_metadata arguments)
  else if among ["compare"; "compare_scalar"] then Some (compare_metadata short arguments)
  else if among ["tail_compare"; "tail_compare_scalar"] then Some (tail_compare_metadata short arguments)
  else if among ["tail_select"] then Some (tail_select_metadata arguments)
  else if among ["select"] then Some (select_metadata arguments)
  else if among ["cast"] then Some (cast_metadata arguments)
  else if among ["fill"] then Some (fill_metadata arguments)
  else if among ["exp_experiment"] then Some (exp_experiment_metadata arguments)
  else if among ["reducesum_experiment"] then Some (reduce_sum_experiment_metadata arguments)
  else if among ["sum_experiment"] then Some (sum_experiment_metadata arguments)
  else if among ["arith_progression"; "createvecindex"] then Some (sequence_metadata short arguments)
  else None.

(** Gathers, sorting, reductions and atomic additions. *)
Definition indexed_decoder (short operation : string) (arguments : list expr) : option (decM metadata) :=
  let among names := mem_str short names in
  if among ["gather"] then Some (gather_metadata arguments)
  else if among ["gatherb"] then Some (gatherb_metadata arguments)
  else if among ["gather_mask"] then Some (gather_mask_metadata arguments)
  else if among ["transpose"] then Some (transpose_metadata arguments)
  else if among ["reinterpretcast"] then Some (reinterpretcast_metadata arguments)
  else if among ["topk"] then Some (topk_metadata arguments)
  else if among ["sort32"] then Some (sort32_metadata arguments)
  else if among ["sort"] then Some (sort_metadata arguments)
  else if among ["merge_sort"] then Some (merge_sort_metadata arguments)
  else if among ["init_sort_buf"] then Some (init_sort_buf_metadata arguments)
  else if among ["atomic_add_ub_to_gm"] then Some (atomic_add_ub_metadata operation arguments)
  else if among ["atomic_add_l0c_to_gm"] then Some (atomic_add_l0c_metadata operation arguments)
  else if among ["reduce"] then Some (reduce_metadata arguments)
  else if among ["block_reduce_max"; "block_reduce_min"; "block_reduce_sum"] then Some (block_reduce_metadata short arguments)
  else if among ["wholereducemax"; "wholereducemin"; "wholereducesum"] then Some (whole_reduce_metadata short arguments)
  else None.

(** Copies and the matrix unit. *)
Definition matrix_decoder (short normalized : string) (arguments : list expr) : option (decM metadata) :=
  let among names := mem_str short names in
  if among ["copy_gm_to_l1_linear"] then Some (gm_to_l1_linear_metadata arguments)
  else if among ["copy_gm_to_l1"] then Some (gm_to_l1_zn_metadata arguments)
  else if among ["copy_ub_to_ub"] then Some (ub_to_ub_metadata normalized arguments)
  else if among ["copy_ub_to_l1"] then Some (ub_to_l1_metadata normalized arguments)
  else if among ["brcb_experiment"] then Some (brcb_metadata arguments)
  else if among ["row_expand_mul_experiment"; "row_expand_sub_experiment"; "row_expand_div_experiment"] then
    Some (row_expand_metadata arguments)
  else if among ["copy_l1_to_l0a"; "copy_l1_to_l0b"] then Some (l1_to_l0_metadata short normalized arguments)
  else if among ["copy_l1_to_bt"] then Some (l1_to_bt_metadata normalized arguments)
  else if among ["copy_l0c_to_gm"] then Some (l0c_to_gm_metadata normalized arguments)
  else if among ["im2col"] then Some (im2col_metadata arguments)
  else if among ["mma"; "mma_bias"] then Some (mma_metadata (among ["mma_bias"]) arguments)
  else if among ["gemm_v0"] then Some (gemm_v0_metadata arguments)
  else None.

(** The first alternative that applies. *)
Definition or_else {A} (o : option A) (m : option A) : option A := match o with Some a => Some a | None => m end.

(** [_functional_metadata]; an operation without decoder has no metadata. *)
Definition functional_metadata (operation : string) (tail_kind : option string) (arguments : list expr)
    : decM metadata :=
  let normalized := lower operation in
  let short := short_operation normalized in
  default skip
    (or_else (vector_decoder short (bool_decide (is_Some tail_kind)) arguments)
    (or_else (indexed_decoder short operation arguments)
    (or_else (matrix_decoder short normalized arguments)
    (if mem_str short TAIL_REDUCE_OPERATIONS && bool_decide (tail_kind = Some "tail_reduce")
     then Some (tail_reduce_metadata arguments)
     else if contains "copy_gm_to_ub" normalized || contains "copy_ub_to_gm" normalized
     then Some (ub_copy_metadata normalized arguments)
     else None)))).
End decode.
