(* ===== verification/BridgeVisit.v ===== *)
(** The traversal of a lowered kernel by [bridge.py]: statements under their context, the buffers
    that they declare, and the tasks that calls and scalar stores emit. *)

From stdpp Require Import pretty.
From S2P Require Import Prelude PyDict PySort PyStr Errors Values Layout Program Trace MemoryView RegionOverlap.
From S2P Require Import PyNum Timing ExecEnv LinearTiming MeasuredA2 BridgeOps BridgeMemory BridgeExpr BridgeRegions.
From S2P Require Import DecodeCopy DecodeMatrix BridgeDispatch.
Local Open Scope string_scope.
Local Open Scope Z_scope.
Local Open Scope list_scope.

(** ** Statements *)

(** The node of an attribute: a thread axis, or a variable. *)
Inductive attr_node := ThreadAxis (tag : string) (var : Var) | NodeVar (var : Var).

(** The statement classes that [_visit] tells apart; [None] is an absent branch. *)
Inductive stmt :=
| SSeq (l : list stmt)
| SAttr (key : string) (node : attr_node) (value : expr) (body : stmt)
| SFor (var : Var) (minimum extent : expr) (body : stmt)
| SIf (condition : expr) (then_case : stmt) (else_case : option stmt)
| SLet (var : Var) (value : expr) (body : stmt)
| SAllocate (var : Var) (annotation dtype : string) (extents : list expr) (body : stmt)
| SDecl (body : stmt)
| SRealize (block : stmt)
| SBlock (buffers : list (tir_buffer expr)) (init : option stmt) (body : stmt)
| SAssert (condition : expr) (body : stmt)
| SEvaluate (value : expr)
| SStore (buffer : tir_buffer expr) (value : expr) (indices : list expr)
| SOther (class : string).

(** [tir.const] and [call.span] *)
Class TvmNodes := {
  tvm_const : Z → string → expr;
  tvm_span : expr → option string;
}.

(** The attributes of a function that the bridge reads, with its parameters. *)
Record prim_func := MkFunc {
  fn_symbol : option string;
  fn_addresses : list (Var * expr);
  fn_sizes : list (Var * expr);
  fn_shapes : list (Var * list expr);
  fn_parameters : list (tir_buffer expr);
  fn_body : stmt;
}.

(** [_Context] *)
Record VisitContext := MkVisitContext {
  vc_core : Z;
  vc_lane : Lane;
  vc_vector : option Z;
  vc_env : env;
  vc_predicates : list pyval;
}.
Definition initial_context : VisitContext := MkVisitContext 0 CONTROL None [] [].
Definition with_env (e : env) (cx : VisitContext) : VisitContext :=
  MkVisitContext (vc_core cx) (vc_lane cx) (vc_vector cx) e (vc_predicates cx).
Definition bind_var (v : Var) (z : Z) (cx : VisitContext) : VisitContext := with_env (dset (vc_env cx) v z) cx.
Definition with_core (core : Z) (cx : VisitContext) : VisitContext :=
  MkVisitContext core (vc_lane cx) (vc_vector cx) (vc_env cx) (vc_predicates cx).
Definition with_vector (index : Z) (cx : VisitContext) : VisitContext :=
  MkVisitContext (vc_core cx) (vc_lane cx) (Some index) (vc_env cx) (vc_predicates cx).
Definition with_lane (l : Lane) (cx : VisitContext) : VisitContext :=
  MkVisitContext (vc_core cx) l (vc_vector cx) (vc_env cx) (vc_predicates cx).
Definition with_predicate (p : pyval) (cx : VisitContext) : VisitContext :=
  MkVisitContext (vc_core cx) (vc_lane cx) (vc_vector cx) (vc_env cx) (vc_predicates cx ++ [p]).
(** The part of the context that the emission of a task reads. *)
Definition emission_context (cx : VisitContext) : Context := MkContext (vc_core cx) (vc_lane cx) (vc_predicates cx).

(** ** State *)

(** The attributes of [_TirBridge] that only the traversal uses, around those of emission. *)
Record Visit := MkVisit {
  vs_bridge : BridgeState;
  vs_names : dict string string;
  vs_scopes : dict string MemoryScope;
  vs_addresses : dict string Z;
  vs_sizes : dict string Z;
  vs_shapes : dict string (list Z);
  vs_predicates : Z;
  vs_breaks : Z;
}.
Definition set_bridge (b : BridgeState) (s : Visit) : Visit :=
  MkVisit b (vs_names s) (vs_scopes s) (vs_addresses s) (vs_sizes s) (vs_shapes s) (vs_predicates s) (vs_breaks s).
Definition set_names (n : dict string string) (s : Visit) : Visit :=
  MkVisit (vs_bridge s) n (vs_scopes s) (vs_addresses s) (vs_sizes s) (vs_shapes s) (vs_predicates s) (vs_breaks s).
Definition set_scopes (n : dict string MemoryScope) (s : Visit) : Visit :=
  MkVisit (vs_bridge s) (vs_names s) n (vs_addresses s) (vs_sizes s) (vs_shapes s) (vs_predicates s) (vs_breaks s).
Definition set_plan (addresses sizes : dict string Z) (shapes : dict string (list Z)) (s : Visit) : Visit :=
  MkVisit (vs_bridge s) (vs_names s) (vs_scopes s) addresses sizes shapes (vs_predicates s) (vs_breaks s).
Definition count_predicate (s : Visit) : Visit :=
  MkVisit (vs_bridge s) (vs_names s) (vs_scopes s) (vs_addresses s) (vs_sizes s) (vs_shapes s) (vs_predicates s + 1)
    (vs_breaks s).
Definition count_break (s : Visit) : Visit :=
  MkVisit (vs_bridge s) (vs_names s) (vs_scopes s) (vs_addresses s) (vs_sizes s) (vs_shapes s) (vs_predicates s)
    (vs_breaks s + 1).

(** How a traversal ends early: [_LoopBreak], or an exception. *)
Inductive interruption := LoopBreak | Stopped (e : exn).
Abbreviation visitM := (stM Visit interruption).
Definition of_outcome {A} (m : result A) : visitM A :=
  st_lift (match m with Ok a => Ok a | Raise e => Raise (Stopped e) end).
Definition stops {A} (c : exn_class) (label : string) : visitM A := st_raise (Stopped (Exn c label [])).
Definition demand (b : bool) (c : exn_class) (label : string) : visitM unit := if b then mret tt else stops c label.
(** A step of emission. *)
Definition emission {A} (m : bridgeM A) : visitM A := λ s,
  match m (vs_bridge s) with
  | (b, Ok a) => (set_bridge b s, Ok a)
  | (b, Raise e) => (set_bridge b s, Raise (Stopped e))
  end.
Definition modify (f : Visit → Visit) : visitM unit := s ← st_get; st_put (f s).

(** One visit after the other; [f] stays outside the recursion. *)
Definition each {A} (f : A → visitM unit) : list A → visitM unit :=
  fix go l :=
    match l with
    | [] => mret tt
    | a :: l => _ ← f a; go l
    end.
(** The iterations of a loop: a break ends it, and is counted. *)
Definition each_until_break {A} (f : A → visitM unit) : list A → visitM unit :=
  fix go l :=
    match l with
    | [] => mret tt
    | a :: l => λ s,
        match f a s with
        | (s, Ok _) => go l s
        | (s, Raise LoopBreak) => (count_break s, Ok tt)
        | (s, Raise e) => (s, Raise e)
        end
    end.

Section bridge.
Context {TVM : Tvm} {NODES : TvmNodes} (depth : nat) (profile : MeasuredWithFallback + TimingProfile)
  (max_unrolled_iterations : Z).

(** What the decoders read of the state and of the context. *)
Definition decoding (s : Visit) (cx : VisitContext) : Decode :=
  {| dc_depth := depth; dc_names := vs_names s; dc_shapes := vs_shapes s; dc_core := vc_core cx; dc_env := vc_env cx |}.

Definition integer (e : expr) (cx : VisitContext) (what : string) : visitM Z :=
  of_outcome (require_int depth e (vc_env cx) what).
Definition runtime (e : expr) (cx : VisitContext) : visitM (option pyval) :=
  s ← st_get; of_outcome (runtime_int (br_buffers (vs_bridge s)) depth (vc_env cx) e).
Definition or_stop {A} (v : option A) (c : exn_class) (label : string) : visitM A :=
  match v with Some a => mret a | None => stops c label end.

(** ** Buffers *)

(** [_buffer_spec] *)
Definition buffer_spec (s : Visit) (name : string) (scope : MemoryScope) (shape : list pyval) (dtype : string)
    : result BufferSpec :=
  let address := dget (vs_addresses s) name in
  buffer_spec_init name (scope_value scope) shape dtype (dget (vs_sizes s) name) address None
    (match address with Some _ => [("planned_address", VBool true)] | None => [] end).

(** The buffer of a name, unless it exists, and the name of the buffer of a data variable. *)
Definition declare (name data : string) (scope : MemoryScope) (shape : list pyval) (dtype : string) : visitM unit :=
  s ← st_get;
  spec ← of_outcome (buffer_spec s name scope shape dtype);
  let b := vs_bridge s in
  let buffers := if dmem (br_buffers b) name then br_buffers b else dset (br_buffers b) name spec in
  st_put (set_names (dset (vs_names s) data name) (set_bridge (set_buffers buffers b) s)).

Definition shape_under (extents : list expr) (e : env) : visitM (list pyval) :=
  s ← st_get; of_outcome (omap_list (λ x, extent_or_symbol (br_buffers (vs_bridge s)) depth x e) extents).

(** [_collect_memory_plan] *)
Definition plan_entry (attribute : string) (entry : Var * expr) : visitM (string * Z) :=
  z ← of_outcome (const_int depth [] entry.2);
  z ← or_stop (z ← z; if 0 <=? z then Some z else None) ProgramValidationError
        ("PrimFunc " +:+ attribute +:+ " must contain non-negative integers");
  mret (v_name entry.1, z).
Definition planned_shape (entry : Var * list expr) : visitM (option (string * list Z)) :=
  extents ← of_outcome (omap_list (const_int depth []) entry.2);
  mret (shape ← mapM (λ z, z ← z; if 0 <=? z then Some z else None) extents; Some (v_name entry.1, shape)).
Definition collect_memory_plan (f : prim_func) : visitM unit :=
  addresses ← st_map (plan_entry "address_map") (fn_addresses f);
  sizes ← st_map (plan_entry "size_map") (fn_sizes f);
  shapes ← st_map planned_shape (fn_shapes f);
  modify (set_plan (dict_of_pairs addresses) (dict_of_pairs sizes) (dict_of_pairs (omap id shapes))).

(** [_collect_parameter_buffers] *)
Definition collect_parameter (b : tir_buffer expr) : visitM unit :=
  shape ← shape_under (tb_shape b) [];
  declare (tb_name b) (v_name (tb_data b)) GM shape (tb_dtype b).

(** [_collect_allocate] *)
Definition collect_allocate (var : Var) (annotation dtype : string) (extents : list expr) (cx : VisitContext)
    : visitM unit :=
  let name := v_name var in
  s ← st_get;
  scope ← match dget (vs_scopes s) name with
          | Some scope => mret scope
          | None => of_outcome (parse_scope (if nonempty annotation then annotation else "local.var"))
          end;
  shape ← shape_under extents (vc_env cx);
  declare name name scope shape dtype.

(** [_collect_block_buffer] *)
Definition collect_block_buffer (cx : VisitContext) (b : tir_buffer expr) : visitM unit :=
  shape ← shape_under (tb_shape b) (vc_env cx);
  scope ← of_outcome (parse_scope (tb_scope b));
  declare (tb_name b) (v_name (tb_data b)) scope shape (tb_dtype b).

(** ** Scalar stores *)

(** The offset of one index into the offset so far. *)
Definition index_offset (cx : VisitContext) (offset : pyval) (index : expr * (Z * Z)) : visitM pyval :=
  let '(index, (extent, stride)) := index in
  scalar ← runtime index cx;
  scalar ← or_stop scalar UnsupportedSimOpError "scalar buffer index must be executable";
  _ ← demand (match as_integral scalar with Some z => (0 <=? z) && (z <? extent) | None => true end)
    ProgramValidationError "scalar buffer index is outside its logical extent";
  of_outcome (scaled ← scale_runtime_int scalar stride; add_runtime_int offset scaled).
Definition index_offsets (cx : VisitContext) : list (expr * (Z * Z)) → pyval → visitM pyval :=
  fix go l offset :=
    match l with
    | [] => mret offset
    | i :: l => offset ← index_offset cx offset i; go l offset
    end.

(** [_scalar_buffer_region] *)
Definition scalar_buffer_region (cx : VisitContext) (load : tir_buffer expr * list expr) : visitM BufferRegion :=
  let '(buffer, indices) := load in
  s ← st_get;
  name ← or_stop (dget (vs_names s) (v_name (tb_data buffer))) UnsupportedSimOpError
           "scalar expression references unknown buffer";
  shape ← st_map (λ e, integer e cx "scalar buffer extent") (tb_shape buffer);
  strides ← match tb_strides buffer with
            | [] => itemsize ← of_outcome (dtype_size_bytes (tb_dtype buffer));
                    mret ((λ z, z / itemsize) <$> contiguous_strides_bytes shape itemsize)
            | strides => st_map (λ e, integer e cx "scalar buffer stride") strides
            end;
  _ ← demand (length indices =? length shape)%nat ProgramValidationError
    "scalar buffer index rank does not match its shape";
  offset ← runtime (tb_elem_offset buffer) cx;
  offset ← or_stop offset UnsupportedSimOpError "scalar buffer offset must be executable";
  offset ← index_offsets cx (zip indices (zip shape strides)) offset;
  s ← st_get;
  spec ← of_outcome (buffer_named (vs_bridge s) name);
  of_outcome
    (itemsize ← dtype_size_bytes (tb_dtype buffer);
     byte_offset ← scale_runtime_int offset itemsize;
     buffer_region_init name (scope_value (bs_scope spec)) [VInt 1] (tb_dtype buffer) byte_offset None
       (if shared_scope (bs_scope spec) then None else Some (vc_core cx))).

Definition emit (operation : string) (cx : VisitContext) (md : dict string pyval) (extra : list string) : visitM Task :=
  emission (emit_task profile operation (emission_context cx) md extra).

(** The store of a scalar. *)
Definition buffer_store (cx : VisitContext) (buffer : tir_buffer expr) (value : expr) (indices : list expr)
    : visitM unit :=
  let value := tvm_substitute ((λ b, (b.1, tvm_const b.2 (v_dtype b.1))) <$> vc_env cx) value in
  sources ← st_map (scalar_buffer_region cx) (tvm_loads value);
  destination ← scalar_buffer_region cx (buffer, indices);
  _ ← emit "buffer_store" cx
        [("buffer", VStr (tb_name buffer)); ("dst", VRegion destination);
         ("src_regions", VTuple (VRegion <$> sources)); ("store_value", VOther (tvm_str value));
         ("scalar_store", VBool true)] [];
  mret tt.

(** [_dynamic_condition] *)
Definition dynamic_condition (condition : expr) (e : env) : visitM pyval :=
  replacements ← of_outcome (match e with [] => Ok [] | _ => environment_replacements e end);
  let condition := tvm_substitute replacements condition in
  match tvm_loads condition with
  | [] => stops UnsupportedSimOpError "dynamic if condition is not executable"
  | _ => mret (VOther (tvm_str condition))
  end.

(** ** Tiled multiplications *)

(** The description of a [gemm_v0], read back from its metadata. *)
Record gemm_run := MkRun {
  gr_lhs : BufferRegion;
  gr_rhs : BufferRegion;
  gr_dst : BufferRegion;
  gr_rows : Z;
  gr_inner : Z;
  gr_k : Z;
  gr_n_tile : Z;
  gr_steps : Z;
  gr_shape_a : list Z;
  gr_shape_b : list Z;
  gr_transpose_a : bool;
  gr_transpose_b : bool;
  gr_init : bool;
  gr_actual : pyval;
}.
Definition run_of (md : dict string pyval) : option gemm_run :=
  details ← match mget md "gemm" with VDict d => Some d | _ => None end;
  let number key := static (mget details key) in
  let shape key := l ← as_sequence (mget details key); statics l in
  let flag key := match mget details key with VBool b => Some b | _ => None end in
  lhs ← as_region (mget md "lhs");
  rhs ← as_region (mget md "rhs");
  dst ← as_region (mget md "dst");
  rows ← number "rows";
  inner ← number "inner";
  k ← number "k_l0_size";
  n_tile ← number "n_tile";
  steps ← number "step_count";
  shape_a ← shape "shape_a";
  shape_b ← shape "shape_b";
  transpose_a ← flag "transpose_a";
  transpose_b ← flag "transpose_b";
  init ← flag "init";
  Some (MkRun lhs rhs dst rows inner k n_tile steps shape_a shape_b transpose_a transpose_b init (mget details "n_actual")).

Definition L0_SLOT_BYTES : Z := 65536 / 2.
Definition slots : list Z := [0; 1].

(** A ping-pong buffer of one slot. *)
Definition reserve_slot (name : string) (scope : MemoryScope) (dtype : string) (elements slot : Z) : visitM unit :=
  spec ← of_outcome (buffer_spec_init name (scope_value scope) [VInt elements] dtype None (Some (slot * L0_SLOT_BYTES)) None
                       [("planned_address", VBool true)]);
  modify (λ s, set_bridge (set_buffers (dset (br_buffers (vs_bridge s)) name spec) (vs_bridge s)) s).

(** [source_window_regions] *)
Definition source_window (source : BufferRegion) (shape : list Z) (row : Z) (rows : pyval) (itemsize : Z)
    (piece : Z * Z) : result BufferRegion :=
  let per_c0 := BYTE_PER_C0 / itemsize in
  offset ← physical_index "zn" row piece.1 shape itemsize;
  base ← match static (rg_byte_offset source) with
         | Some z => Ok z
         | None => raise TypeError "unsupported operand type(s) for +"
         end;
  buffer_region_init (rg_buffer source) (scope_value (rg_scope source)) [rows; VInt piece.2] (rg_dtype source)
    (VInt (base + offset * itemsize)) (Some [VInt (per_c0 * itemsize); VInt itemsize]) (rg_core_id source).
Definition source_windows (source : BufferRegion) (shape : list Z) (origin : Z * Z) (rows : pyval) (cols itemsize : Z)
    : result (list BufferRegion) :=
  omap_list (source_window source shape origin.1 rows itemsize)
    (segments (Z.to_nat cols) (BYTE_PER_C0 / itemsize) origin.2 (origin.2 + cols)).
Definition source_fields (source : BufferRegion) (windows : list BufferRegion) : dict string pyval :=
  match windows with
  | [] => [("src", VRegion source)]
  | [window] => [("src", VRegion window)]
  | _ => [("src", VRegion source); ("src_regions", VTuple (VRegion <$> windows))]
  end.

(** The copy of one operand tile into its slot. *)
Definition load_fields (key : string) (transfer : pyval) (reuse : dict string pyval) (source slot_region : BufferRegion)
    (windows : list BufferRegion) (destination_layout : string) (source_shape : list Z) (origin : Z * Z)
    (window destination : list pyval) (transposed : bool) : dict string pyval :=
  [("timing_key", VStr key); ("transfer_bytes", transfer)] ++ reuse ++ source_fields source windows ++
  [("dst", VRegion slot_region);
   ("copy", VDict [("layout_transform", VBool true); ("source_layout", VStr "zn");
                   ("destination_layout", VStr destination_layout); ("source_shape", shape_of source_shape);
                   ("source_origin", shape_of [origin.1; origin.2]); ("source_window_shape", VTuple window);
                   ("source_window_direct", VBool (length windows =? 1)%nat); ("source_region_axis", VInt 1);
                   ("destination_shape", VTuple destination); ("transpose_after_slice", VBool transposed)])].

Definition slot_region (name : string) (scope : MemoryScope) (elements : pyval) (dtype : string) (core : Z)
    : result BufferRegion :=
  buffer_region_init name (scope_value scope) [elements] dtype (VInt 0) None (Some core).

(** One step: both loads, and the multiplication that depends on them. *)
Definition gemm_step (cx : VisitContext) (g : gemm_run) (input_bytes accumulator_bytes : Z) (l0a_name l0b_name : Z → string)
    (step : Z) : visitM unit :=
  let k_split := (gr_inner g + gr_k g - 1) / gr_k g in
  let n_index := step / k_split in
  let k_index := step mod k_split in
  let slot := step mod 2 in
  let k_start := k_index * gr_k g in
  let n_start := n_index * gr_n_tile g in
  let k_size := Z.min (gr_k g) (gr_inner g - k_start) in
  let n_size := if gr_transpose_b g then gr_actual g else VInt (gr_n_tile g) in
  let stage := [("gemm_stage", VDict [("step", VInt step); ("n_index", VInt n_index); ("k_index", VInt k_index);
                                      ("ping_pong_slot", VInt slot)])] in
  let '(rows_a, cols_a, origin_a) :=
    if gr_transpose_a g then (k_size, gr_rows g, (k_start, 0)) else (gr_rows g, k_size, (0, k_start)) in
  let '(rows_b, cols_b, origin_b) :=
    if gr_transpose_b g then (n_size, k_size, (n_start, k_start)) else (VInt k_size, gr_n_tile g, (k_start, n_start)) in
  elements_a ← of_outcome (storage_elements "l0a" [gr_rows g; k_size] input_bytes);
  l0a ← of_outcome (slot_region (l0a_name slot) L0A (VInt elements_a) (rg_dtype (gr_lhs g)) (vc_core cx));
  elements_b ← of_outcome (partial_storage "l0b" (λ n, [k_size; n]) k_size input_bytes n_size);
  l0b ← of_outcome (slot_region (l0b_name slot) L0B elements_b (rg_dtype (gr_lhs g)) (vc_core cx));
  a_regions ← of_outcome (source_windows (gr_lhs g) (gr_shape_a g) origin_a (VInt rows_a) cols_a input_bytes);
  b_regions ← of_outcome (source_windows (gr_rhs g) (gr_shape_b g) origin_b rows_b cols_b input_bytes);
  let reuse := if 2 <=? step then [("wait_event", VStr "M_MTE1")] else [] in
  load_a ← emit "copy_l1_to_l0a" cx
             (stage ++ load_fields "gemm_v0.load_a" (VInt (gr_rows g * k_size * input_bytes)) reuse (gr_lhs g) l0a
                         a_regions "l0a" (gr_shape_a g) origin_a [VInt rows_a; VInt cols_a]
                         [VInt (gr_rows g); VInt k_size] (gr_transpose_a g)) [];
  transfer_b ← of_outcome (scale_runtime_int n_size (k_size * input_bytes));
  load_b ← emit "copy_l1_to_l0b" cx
             (stage ++ load_fields "gemm_v0.load_b" transfer_b reuse (gr_rhs g) l0b b_regions "l0b" (gr_shape_b g)
                         origin_b [rows_b; VInt cols_b] [VInt k_size; n_size] (gr_transpose_b g)) [];
  base ← or_stop (static (rg_byte_offset (gr_dst g))) TypeError "unsupported operand type(s) for +";
  elements_c ← of_outcome (partial_storage "l0c" (λ n, [gr_rows g; n]) (gr_rows g) accumulator_bytes n_size);
  l0c ← of_outcome (buffer_region_init (rg_buffer (gr_dst g)) (scope_value (rg_scope (gr_dst g))) [elements_c]
                      (rg_dtype (gr_dst g))
                      (VInt (base + n_start * ((gr_rows g + 15) / 16 * 16) * accumulator_bytes)) None
                      (rg_core_id (gr_dst g)));
  let initialize := gr_init g && (k_index =? 0) in
  math ← of_outcome (scale_runtime_int n_size (2 * gr_rows g * k_size));
  _ ← emit "mma" cx
        (stage ++ [("timing_key", VStr "gemm_v0.mma"); ("math_ops", math); ("wait_event", VStr "MTE1_M");
                   ("set_event", VStr "M_MTE1"); ("lhs", VRegion l0a); ("rhs", VRegion l0b); ("dst", VRegion l0c);
                   ("mma", VDict [("rows", VInt (gr_rows g)); ("cols", n_size); ("inner", VInt k_size);
                                  ("init", VBool initialize); ("n_actual", n_size); ("unit_flag", VInt 0)])]
         ++ (if initialize then [] else [("accumulator", VRegion l0c)]))
        [task_id load_a; task_id load_b];
  mret tt.

(** [_emit_gemm_v0_trace_tasks] *)
Definition emit_gemm_v0_trace_tasks (cx : VisitContext) (md : dict string pyval) : visitM unit :=
  g ← or_stop (run_of md) KeyError "gemm";
  input_bytes ← of_outcome (dtype_size_bytes (rg_dtype (gr_lhs g)));
  accumulator_bytes ← of_outcome (dtype_size_bytes (rg_dtype (gr_dst g)));
  let max_k := Z.min (gr_inner g) (gr_k g) in
  s ← st_get;
  let prefix := "__sim_gemm_" +:+ pretty (vc_core cx) +:+ "_" +:+ pretty (br_counter (vs_bridge s)) in
  let l0a slot := prefix +:+ "_l0a_" +:+ pretty slot in
  let l0b slot := prefix +:+ "_l0b_" +:+ pretty slot in
  _ ← each (λ slot,
        elements ← of_outcome (storage_elements "l0a" [gr_rows g; max_k] input_bytes);
        reserve_slot (l0a slot) L0A (rg_dtype (gr_lhs g)) elements slot) slots;
  _ ← each (λ slot,
        elements ← of_outcome (storage_elements "l0b" [max_k; gr_n_tile g] input_bytes);
        reserve_slot (l0b slot) L0B (rg_dtype (gr_lhs g)) elements slot) slots;
  each (gemm_step cx g input_bytes accumulator_bytes l0a l0b) (py_range (gr_steps g)).

(** ** Calls *)

(** The operation behind a tail or reduction tag, its operands, and the kind of the tail. *)
Definition tagged_operation (operation : string) (arguments : list expr)
    : result (string * list expr * option string) :=
  let kind := short_operation operation in
  match dget TAIL_OPERATIONS kind, arguments with
  | Some _, [] => raise_with ProgramValidationError "tail operation requires an operation tag" [kind]
  | Some allowed, tag :: rest =>
      match literal_str tag with
      | None => raise_with ProgramValidationError "tail operation tag must be a string" [kind]
      | Some tag =>
          let operation := short_operation tag in
          if mem_str operation allowed then Ok (operation, rest, Some kind)
          else raise_with UnsupportedSimOpError "operation tag is not valid for the tail" [kind; tag]
      end
  | None, arguments =>
      if mem_str kind ["tail_reduce"] then
        match arguments with
        | [] => raise ProgramValidationError "tail_reduce requires a reduction kind"
        | tag :: rest =>
            let operation := short_operation (str_of (literal tag)) in
            if mem_str operation TAIL_REDUCE_OPERATIONS then Ok (operation, rest, Some kind)
            else raise UnsupportedSimOpError "unsupported tail_reduce kind"
        end
      else
        match mem_str kind ["mma"], arguments with
        | true, tag :: _ =>
            Ok (match literal_str tag with
                | Some tag => if startswith "mma_bias<" tag then "mma_bias" else operation
                | None => operation
                end, arguments, None)
        | _, _ => Ok (operation, arguments, None)
        end
  end.

(** Several steps: a tile that is split, or one with fewer columns. *)
Definition needs_gemm_trace (operation : string) (md : dict string pyval) : bool :=
  mem_str (short_operation operation) ["gemm_v0"] &&
  match mget md "gemm" with
  | VDict details =>
      match static (mget details "step_count") with Some z => 1 <? z | None => false end
      || negb (bool_decide (mget details "n_actual" = mget details "cols"))
  | _ => false
  end.

(** The metadata of a call. *)
Definition call_metadata (call : expr) (lowered operation : string) (tail_kind : option string) (arguments : list expr)
    (cx : VisitContext) : visitM (dict string pyval) :=
  s ← st_get;
  let D := decoding s cx in
  let md := [("arguments", VTuple (debug_literal <$> arguments))] in
  let md := match tail_kind with
            | Some kind => dset (dset md "lowered_operation" (VStr lowered)) "tail_kind" (VStr kind)
            | None => md
            end in
  functional ← emission (decoded (functional_metadata operation tail_kind arguments));
  sync ← of_outcome (sync_metadata depth (vc_env cx) operation arguments);
  let md := dupdate (dupdate md functional) sync in
  mret (match tvm_span call with Some span => dset md "span" (VStr span) | None => md end).

(** [_emit_call] *)
Definition emit_call (call : expr) (op : string) (args : list expr) (cx : VisitContext) : visitM unit :=
  '(lowered, arguments) ← of_outcome (call_operation op args);
  if mem_str lowered ["tl.loop_break"] then st_raise LoopBreak
  else
    '(operation, arguments, tail_kind) ← of_outcome (tagged_operation lowered arguments);
    md ← call_metadata call lowered operation tail_kind arguments cx;
    if needs_gemm_trace operation md then emit_gemm_v0_trace_tasks cx md
    else
      _ ← emit operation cx md [];
      if mem_str (short_operation operation) ["reinterpretcast"] then emission (activate_alias md) else mret tt.

(** ** Statements *)

(** [range(minimum, minimum + extent)] *)
Definition int_range (minimum extent : Z) : list Z := (λ k, minimum + k) <$> py_range extent.

(** The lane and the body of a resource scope. *)
Definition resource_scope (cx : VisitContext) (scope : Z) : result (option Lane) :=
  if scope =? 0 then
    Ok (match vc_vector cx with None | Some 0 => Some CUBE | _ => None end)
  else if scope =? 1 then
    Ok (Some (if default 0 (vc_vector cx) =? 0 then VECTOR_0 else VECTOR_1))
  else raise UnsupportedSimOpError "unsupported resource_scope value".

Definition node_var (node : attr_node) : Var := match node with ThreadAxis _ v | NodeVar v => v end.
Definition thread_tag (node : attr_node) : string := match node with ThreadAxis tag _ => tag | NodeVar _ => "" end.

(** [_visit_attr], with the visit of the body. *)
Definition visit_attr (visit_body : VisitContext → visitM unit) (key : string) (node : attr_node) (value : expr)
    (cx : VisitContext) : visitM unit :=
  if mem_str key ["thread_extent"; "virtual_thread"] then
    extent ← integer value cx (thread_tag node +:+ " extent");
    let tag := thread_tag node in
    if mem_str tag ["blockIdx.x"] then
      each (λ core, visit_body (with_core core (bind_var (node_var node) core cx))) (py_range extent)
    else if mem_str tag ["blockIdx.y"; "threadIdx.x"] then
      each (λ index, visit_body (with_vector index (bind_var (node_var node) index cx))) (py_range extent)
    else visit_body cx
  else if mem_str key ["resource_scope"] then
    scope ← integer value cx key;
    lane ← of_outcome (resource_scope cx scope);
    match lane with Some l => visit_body (with_lane l cx) | None => mret tt end
  else
    _ ← (if mem_str key ["storage_scope"] then
           scope ← of_outcome (match literal value with
                               | VStr s => parse_scope s
                               | _ => raise AttributeError "object has no attribute 'strip'"
                               end);
           modify (λ s, set_scopes (dset (vs_scopes s) (v_name (node_var node)) scope) s)
         else mret tt);
    visit_body cx.

(** The loop over the values of its variable. *)
Definition visit_for (visit_body : VisitContext → visitM unit) (var : Var) (minimum extent : expr) (cx : VisitContext)
    : visitM unit :=
  minimum ← integer minimum cx "loop minimum";
  extent ← integer extent cx "loop extent";
  _ ← demand ((0 <=? extent) && (extent <=? max_unrolled_iterations)) UnsupportedSimOpError
    "loop extent exceeds simulator bridge limit";
  each_until_break (λ value, visit_body (bind_var var value cx)) (int_range minimum extent).

(** Both branches of a condition that is not a constant, each under its predicate. *)
Definition visit_dynamic (visit_then visit_else : VisitContext → visitM unit) (condition : expr) (cx : VisitContext)
    : visitM unit :=
  condition ← dynamic_condition condition (vc_env cx);
  s ← st_get;
  let predicate b := VTuple [VInt (vs_predicates s); condition; VBool b] in
  _ ← modify count_predicate;
  _ ← visit_then (with_predicate (predicate true) cx);
  visit_else (with_predicate (predicate false) cx).

(** [_visit] *)
Fixpoint visit_stmt (s : stmt) (cx : VisitContext) {struct s} : visitM unit :=
  match s with
  | SSeq l => each (λ child, visit_stmt child cx) l
  | SAttr key node value body => visit_attr (visit_stmt body) key node value cx
  | SFor var minimum extent body => visit_for (visit_stmt body) var minimum extent cx
  | SIf condition then_case else_case =>
      let visit_else cx := match else_case with Some s => visit_stmt s cx | None => mret tt end in
      known ← of_outcome (const_int depth (vc_env cx) condition);
      match known with
      | Some z => if z =? 0 then visit_else cx else visit_stmt then_case cx
      | None => visit_dynamic (visit_stmt then_case) visit_else condition cx
      end
  | SLet var value body =>
      z ← integer value cx "let binding";
      visit_stmt body (bind_var var z cx)
  | SAllocate var annotation dtype extents body =>
      _ ← collect_allocate var annotation dtype extents cx;
      visit_stmt body cx
  | SDecl body => visit_stmt body cx
  | SRealize block => visit_stmt block cx
  | SBlock buffers init body =>
      _ ← each (collect_block_buffer cx) buffers;
      _ ← match init with Some s => visit_stmt s cx | None => mret tt end;
      visit_stmt body cx
  | SAssert condition body =>
      z ← integer condition cx "assertion";
      _ ← demand (negb (z =? 0)) ProgramValidationError "TIR assertion failed";
      visit_stmt body cx
  | SEvaluate value =>
      zero ← of_outcome (is_zero_expr depth value (vc_env cx));
      if zero : bool then mret tt
      else match value with
           | ECall op _ args => emit_call value op args cx
           | _ => stops UnsupportedSimOpError "unsupported final TIR statement"
           end
  | SStore buffer value indices => buffer_store cx buffer value indices
  | SOther _ => stops UnsupportedSimOpError "unsupported final TIR statement"
  end.
End bridge.
