(* ===== verification/UnitFlags.v ===== *)
(** [_validate_unit_flag_pairs] of [bridge.py]: the readable and writable bits of the 512-byte
    blocks of L0C, the edges between the operations that pass a block on, and the end of [build]. *)

From S2P Require Import Prelude PyDict PySort PyStr Errors Values Layout Program Trace MemoryView RegionOverlap.
From S2P Require Import PyNum Timing ExecEnv LinearTiming MeasuredA2 BridgeOps BridgeMemory BridgeExpr BridgeRegions.
From S2P Require Import BridgeVisit.
Local Open Scope string_scope.
Local Open Scope Z_scope.
Local Open Scope list_scope.

(** ** Blocks *)

(** Allocations with an address share their blocks. *)
Inductive allocation := ByAddress | InBuffer (name : string).
#[global] Instance allocation_eq_dec : EqDecision allocation.
Proof. solve_decision. Defined.
Abbreviation block := (allocation * Z)%type.

Definition UNIT_BLOCK : Z := 512.

(** [range(begin, end)] *)
Definition block_range (first last : Z) : list Z := (λ k, first + k) <$> py_range (last - first).

(** The nested [blocks] *)
Definition unit_blocks (st : BridgeState) (core : Z) (v : pyval) : result (list block) :=
  match as_region v with
  | None => raise UnsupportedSimOpError "unitFlag requires concrete contiguous L0C regions"
  | Some r =>
      contiguous ← region_is_contiguous r;
      _ ← ensure contiguous UnsupportedSimOpError "unitFlag requires concrete contiguous L0C regions";
      bounds ← region_bounds r;
      match bounds with
      | None => raise UnsupportedSimOpError "unitFlag requires static L0C byte bounds"
      | Some (low, high) =>
          let name := resolve_active_alias st r core in
          spec ← buffer_named st name;
          let base := default 0 (bs_address spec) in
          let place := match bs_address spec with Some _ => ByAddress | None => InBuffer name end in
          _ ← ensure (((base + low) mod UNIT_BLOCK =? 0) && ((base + high) mod UNIT_BLOCK =? 0)) UnsupportedSimOpError
            "unitFlag L0C regions must span complete 512B blocks";
          Ok (pair place <$> block_range ((base + low) / UNIT_BLOCK) ((base + high) / UNIT_BLOCK))
      end
  end.

(** ** The states of the blocks *)

(** Per block: the release that is readable, and the last operation that cleared it. *)
Abbreviation unit_states := (dict block (option nat * option nat)).
Definition block_state (states : unit_states) (b : block) : option nat * option nat :=
  dget_default (None, None) states b.

(** What an operation does to the blocks that it touches. *)
Inductive unit_role := Hold | Release | Consume.
#[global] Instance unit_role_eq_dec : EqDecision unit_role.
Proof. solve_decision. Defined.

Definition unit_flag_of (v : pyval) : option Z :=
  match v with VDict d => static (mget d "unit_flag") | _ => None end.
(** Which of the two branches of the loop a task takes. *)
Definition role_of (t : Task) : option unit_role :=
  match unit_flag_of (mget (metadata t) "mma") with
  | Some 2 => Some Hold
  | Some 3 => Some Release
  | _ =>
      if mem_str (operation t) ["copy_l0c_to_gm"] && bool_decide (unit_flag_of (mget (metadata t) "copy") = Some 3)
      then Some Consume else None
  end.
Definition touched_key (r : unit_role) : string := match r with Consume => "src" | _ => "dst" end.
Definition role_name (r : unit_role) : string :=
  match r with Hold => "hold" | Release => "release" | Consume => "consume" end.

(** [_ in metadata.get(key, ())], for tuples of names *)
Definition names_of (v : pyval) : list string :=
  match as_sequence v with Some l => omap (λ v, match v with VStr s => Some s | _ => None end) l | None => [] end.

(** The nested [annotate] *)
Definition annotated (role : unit_role) (hardware peers : list string) (t : Task) : result Task :=
  let md := metadata t in
  let edges := sorted_set (names_of (mget md "hardware_dependencies") ++ hardware) in
  let pairs := sorted_set (names_of (mget md "unit_flag_pairs") ++ peers) in
  let unit := sorted_set (names_of (mget md "unit_flag_dependencies") ++ hardware) in
  let md := dset (dset md "unit_flag_role" (VStr (role_name role))) "hardware_dependencies" (task_ids edges) in
  let md := dset md "unit_flag_dependencies" (task_ids unit) in
  let md := match pairs with
            | [] => md
            | first :: _ => dset (dset md "unit_flag_pairs" (task_ids pairs)) "unit_flag_pair" (VStr first)
            end in
  task_init (task_id t) (operation t) (core_id t) (lane_value (lane t)) (pipe_value (pipe t)) (duration_cycles t)
    (sorted_set (dependencies t ++ edges)) (stage t) md.
Definition annotate (index : nat) (role : unit_role) (hardware peers : list string) (ts : list Task)
    : result (list Task) :=
  match ts !! index with
  | None => raise IndexError "list index out of range"
  | Some t => t ← annotated role hardware peers t; Ok (<[index := t]> ts)
  end.

(** The identifiers of the tasks at some indices. *)
Definition ids_at (ts : list Task) (l : list nat) : list string := omap (λ i, task_id <$> ts !! i) l.
Definition indices (l : list (option nat)) : list nat := py_sorted Nat.leb (fromkeys (omap id l)).

(** [states[block] = value] for some blocks *)
Definition set_states (f : block → option nat * option nat) (bs : list block) (states : unit_states) : unit_states :=
  foldl (λ states b, dset states b (f b)) states bs.

(** A multiplication: no block may still be readable. *)
Definition unit_multiply (index : nat) (release : bool) (touched : list block) (ts : list Task) (states : unit_states)
    : result (list Task * unit_states) :=
  _ ← ensure (forallb (λ b, bool_decide ((block_state states b).1 = None)) touched) ProgramValidationError
    "unitFlag MMA overwrites readable L0C before a following paired fixpipe";
  let cleared := (λ b, (block_state states b).2) <$> touched in
  ts ← annotate index (if release then Release else Hold) (ids_at ts (indices cleared)) [] ts;
  Ok (ts, set_states (λ b, (if release then Some index else None, (block_state states b).2)) touched states).

(** A copy out of L0C: every block must be readable. *)
Definition unit_consume (index : nat) (id : string) (touched : list block) (ts : list Task) (states : unit_states)
    : result (list Task * unit_states) :=
  writers ← match mapM (λ b, (block_state states b).1) touched with
            | Some writers => Ok (indices (Some <$> writers))
            | None => raise ProgramValidationError "unitFlag fixpipe requires a preceding paired MMA for every L0C block"
            end;
  let producers := ids_at ts writers in
  ts ← annotate index Consume producers producers ts;
  ts ← ofold (λ ts writer, annotate writer Release [] [id] ts) writers ts;
  Ok (ts, set_states (λ _, (None, Some index)) touched states).

(** One task of the loop. *)
Definition unit_step (st : BridgeState) (core : Z) (acc : list Task * unit_states) (index : nat)
    : result (list Task * unit_states) :=
  let '(ts, states) := acc in
  match ts !! index with
  | None => Ok (ts, states)
  | Some t =>
      match role_of t with
      | None => Ok (ts, states)
      | Some role =>
          touched ← unit_blocks st core (mget (metadata t) (touched_key role));
          match role with
          | Hold => unit_multiply index false touched ts states
          | Release => unit_multiply index true touched ts states
          | Consume => unit_consume index (task_id t) touched ts states
          end
      end
  end.

(** The tasks of one core. *)
Definition unit_flag_pairs (st : BridgeState) (core : Z) (ts : list Task) : result (list Task) :=
  '(ts, states) ← ofold (unit_step st core) (seq 0 (length ts)) (ts, []);
  match omap (λ e : block * (option nat * option nat), e.2.1) states with
  | [] => Ok ts
  | unmatched => raise_with ProgramValidationError "unitFlag MMA requires a following paired fixpipe"
                   (sorted_set (ids_at ts unmatched))
  end.

(** [_validate_unit_flag_pairs] *)
Definition validate_unit_flag_pairs (st : BridgeState) : result (dict Z (list Task)) :=
  omap_list (λ e : Z * list Task, ts ← unit_flag_pairs st e.1 e.2; Ok (e.1, ts)) (br_tasks st).

(** ** The program *)

Definition new_visit : Visit := MkVisit (MkBridge [] [] [] [] [] [] [] 0) [] [] [] [] [] 0 0.
Definition set_tasks (tasks : dict Z (list Task)) (b : BridgeState) : BridgeState :=
  MkBridge (br_buffers b) (br_aliases b) (br_writes b) (br_reads b) (br_overlaps b) (br_candidates b) tasks (br_counter b).

(** The core programs in the order of their identifiers; one empty core without tasks. *)
Definition core_programs (tasks : dict Z (list Task)) : result (list CoreProgram) :=
  cores ← omap_list (λ core, core_program_init core (dget_default [] tasks core)) (py_sorted Z.leb (dkeys tasks));
  match cores with
  | [] => core ← core_program_init 0 []; Ok [core]
  | _ => Ok cores
  end.

Section build.
Context {TVM : Tvm} {NODES : TvmNodes} (depth : nat) (profile : MeasuredWithFallback + TimingProfile)
  (max_unrolled_iterations : Z).

(** [build] up to the construction of the program: the tasks of each core, with the edges of the
    unit flags. *)
Definition lowered (f : prim_func) : visitM (dict Z (list Task)) :=
  _ ← collect_memory_plan depth f;
  _ ← each (collect_parameter depth) (fn_parameters f);
  _ ← visit_stmt depth profile max_unrolled_iterations (fn_body f) initial_context;
  s ← st_get;
  tasks ← of_outcome (validate_unit_flag_pairs (vs_bridge s));
  _ ← st_put (set_bridge (set_tasks tasks (vs_bridge s)) s);
  mret tasks.
(** [build] *)
Definition build (platform : string) (f : prim_func) : visitM KernelProgram :=
  tasks ← lowered f;
  s ← st_get;
  of_outcome
    (cores ← core_programs tasks;
     kernel_program_init (default "main" (fn_symbol f)) platform cores (dvalues (br_buffers (vs_bridge s)))
       [("timing_calibration", VStr (profile_calibration profile)); ("source", VStr "final-optimized-tir");
        ("loop_break_count", VInt (vs_breaks s))]).
Definition built (platform : string) (f : prim_func) : Visit * outcome interruption KernelProgram :=
  build platform f new_visit.
End build.

(** [build_kernel_program]: the profile of the platform, unless one is given. *)
Definition build_kernel_program {TVM : Tvm} {NODES : TvmNodes} (depth : nat) (platform : string)
    (fingerprint : string)
    (profile : option (MeasuredWithFallback + TimingProfile)) (max_unrolled_iterations : Z) (f : prim_func)
    : outcome interruption KernelProgram :=
  match (platform ← normalize_platform platform;
         profile ← match profile with Some p => Ok p | None => default_timing_profile fingerprint platform end;
         Ok (platform, profile)) with
  | Ok (platform, profile) => (built depth profile max_unrolled_iterations platform f).2
  | Raise e => Raise (Stopped e)
  end.
