(* ===== verification/DecodeSound.v ===== *)
(** What every decoder of [bridge.py] guarantees, and the dispatch over them: it changes nothing but
    the capacity of buffers, and every region of its metadata lies in a declared buffer, in the
    scope of that buffer, owned by the core of the call unless the scope is shared.
    The argument is a logical relation [good] on the values that decoders pass around, with one
    rule for each step. *)

From S2P Require Import Prelude PyDict PySort PyStr Errors Layout Values Program Intervals MemoryView PyNum ExecEnv.
From S2P Require Import RegionOverlap BridgeOps BridgeMemory BridgeExpr BridgeRegions DecodeVector DecodeReduce.
From S2P Require Import DecodeSort DecodeCopy DecodeMatrix BridgeDispatch.
Local Open Scope string_scope.
Local Open Scope Z_scope.
Local Open Scope list_scope.

(** ** States that differ in the capacity of buffers only *)

Definition spec_key (spec : BufferSpec) : string * MemoryScope * list pyval * string :=
  (bs_name spec, bs_scope spec, bs_shape spec, bs_dtype spec).
Record only_buffers (st st' : BridgeState) : Prop := {
  ob_keys : dkeys (br_buffers st') = dkeys (br_buffers st);
  ob_specs : ∀ n, spec_key <$> dget (br_buffers st') n = spec_key <$> dget (br_buffers st) n;
  ob_aliases : br_aliases st' = br_aliases st;
  ob_writes : br_writes st' = br_writes st;
  ob_reads : br_reads st' = br_reads st;
  ob_tasks : br_tasks st' = br_tasks st;
  ob_counter : br_counter st' = br_counter st;
}.
#[global] Instance only_buffers_preorder : PreOrder only_buffers.
Proof. split; [by intros st|]. intros a b c [] []. split; congruence || (intros; etrans; eauto). Qed.

Lemma spec_of st st' n spec :
  only_buffers st st' → dget (br_buffers st') n = Some spec →
  ∃ spec0, dget (br_buffers st) n = Some spec0 ∧ spec_key spec = spec_key spec0.
Proof.
  intros H Hg. pose proof (ob_specs _ _ H n) as Hs. rewrite Hg in Hs. cbn in Hs.
  destruct (dget (br_buffers st) n) as [spec0|]; [|done]. cbn [fmap option_fmap option_map] in Hs. injection Hs as Hs. exists spec0. split; [done|]. unfold spec_key. congruence.
Qed.

(** The extents of every buffer are integer expressions, as the constructor of [BufferSpec] checks. *)
Definition plain_shape (spec : BufferSpec) : Prop := Forall (λ v, is_int_expr v = true) (bs_shape spec).
Definition plain_buffers (st : BridgeState) : Prop := ∀ n spec, dget (br_buffers st) n = Some spec → plain_shape spec.
Lemma plain_only st st' : only_buffers st st' → plain_buffers st → plain_buffers st'.
Proof.
  intros H Hp n spec Hg. destruct (spec_of _ _ _ _ H Hg) as (spec0 & Hg0 & Hk). unfold plain_shape.
  replace (bs_shape spec) with (bs_shape spec0) by (unfold spec_key in Hk; congruence). exact (Hp _ _ Hg0).
Qed.

(** A region in a declared buffer of the state. *)
Definition region_placed (st : BridgeState) (core : Z) (r : BufferRegion) : Prop :=
  ∃ spec, dget (br_buffers st) (rg_buffer r) = Some spec ∧ rg_scope r = bs_scope spec ∧
    rg_core_id r = if shared_scope (bs_scope spec) then None else Some core.

(** ** The logical relation *)

(** The regions that a metadata value names directly are placed. *)
Definition value_placed (st : BridgeState) (core : Z) (v : pyval) : Prop :=
  match v with
  | VRegion r => region_placed st core r
  | VTuple l | VList l => ∀ r, VRegion r ∈ l → region_placed st core r
  | _ => True
  end.

Class Good (A : Type) := good : BridgeState → Z → A → Prop.
#[export] Hint Mode Good + : typeclass_instances.
#[export] Instance good_region : Good BufferRegion := region_placed.
#[export] Instance good_value : Good pyval := value_placed.
#[export] Instance good_option {A} `{Good A} : Good (option A) := λ st core o,
  match o with Some a => good st core a | None => True end.
#[export] Instance good_pair {A B} `{Good A, Good B} : Good (A * B) := λ st core p, good st core p.1 ∧ good st core p.2.
(** A field of metadata.  Decoders never name the edges of the hardware, which emission adds. *)
#[export] Instance good_field : Good (string * pyval) | 0 := λ st core p,
  p.1 ≠ "hardware_dependencies" ∧ good st core p.2.
#[export] Instance good_list {A} `{Good A} : Good (list A) := λ st core,
  fix go l := match l with [] => True | a :: l => good st core a ∧ go l end.
#[export] Instance good_spec : Good BufferSpec := λ _ _, plain_shape.
#[export] Instance good_select : Good select_source := λ st core s,
  match s with SelectScalar v => value_placed st core v | _ => True end.
#[export] Instance good_other {A} : Good A | 1000 := λ _ _ _, True.

Lemma good_all {A} `{Good A} st core (l : list A) : good st core l ↔ ∀ a, a ∈ l → good st core a.
Proof.
  induction l as [|a l IH]; [split; [set_solver|done]|]. change (good st core (a :: l)) with (good st core a ∧ good st core l).
  rewrite IH. split; [intros [Ha Hl] b [->|Hb]%elem_of_cons; auto|]. intros Hall. split; [apply Hall; by left|].
  intros b Hb. apply Hall. by right.
Qed.
Lemma good_app {A} `{Good A} st core (l l' : list A) : good st core l → good st core l' → good st core (l ++ l').
Proof. rewrite !good_all. intros. set_solver. Qed.
Lemma good_dset st core (d : dict string pyval) k v :
  good st core d → k ≠ "hardware_dependencies" → good st core v → good st core (dset d k v).
Proof.
  induction d as [|[k' v'] d IH]; intros Hd Hk Hv; cbn [dset]; [by repeat split|].
  destruct Hd as [[Hk' Hv'] Hd]. case_decide; [by repeat split|]. split; [by split|]. by apply IH.
Qed.
Lemma good_dget (d : dict string pyval) st core k : good st core d → good st core (dget d k).
Proof. induction d as [|[k' v'] d IH]; cbn [dget]; [done|]. intros [[_ Hv] Hd]. case_decide; [done|]. by apply IH. Qed.
Lemma good_mget (d : dict string pyval) st core k : good st core d → good st core (mget d k).
Proof. intros H%(good_dget _ _ _ k). unfold mget, dget_default. by destruct (dget d k). Qed.
Lemma good_hardware (d : dict string pyval) st core : good st core d → dget d "hardware_dependencies" = None.
Proof. induction d as [|[k v] d IH]; cbn [dget]; [done|]. intros [[Hk _] Hd]. rewrite decide_False by done. by apply IH. Qed.
Lemma good_vregion st core r : good st core r → good st core (VRegion r).
Proof. done. Qed.
Lemma good_tuple st core (rs : list BufferRegion) : good st core rs → good st core (VTuple (VRegion <$> rs)).
Proof. rewrite good_all. intros H r (r' & [= ->] & Hr)%list_elem_of_fmap. by apply H. Qed.
Lemma good_take {A} `{Good A} st core n (l : list A) : good st core l → good st core (take n l).
Proof. rewrite !good_all. intros Hl a Ha. apply Hl. eapply elem_of_take in Ha as (? & ? & _). by eapply list_elem_of_lookup_2. Qed.
Lemma good_drop {A} `{Good A} st core n (l : list A) : good st core l → good st core (drop n l).
Proof. rewrite !good_all. intros Hl a (i & Hi)%list_elem_of_lookup_1. apply Hl. rewrite lookup_drop in Hi. by eapply list_elem_of_lookup_2. Qed.
Lemma good_lookup {A} `{Good A} st core i (l : list A) : good st core l → good st core (l !! i).
Proof. rewrite good_all. intros Hl. destruct (l !! i) eqn:E; [exact (Hl _ (list_elem_of_lookup_2 _ _ _ E))|done]. Qed.
Lemma good_zip {A B} `{Good A, Good B} st core (l : list A) (l' : list B) :
  good st core l → good st core l' → good st core (zip l l').
Proof.
  revert l'. induction l as [|a l IH]; intros [|b l'] Hl Hl'; try done. destruct Hl, Hl'. split; [by split|]. by apply IH.
Qed.
Lemma good_fields st core names (l : list pyval) :
  "hardware_dependencies" ∉ names → good st core l → good (A := dict string pyval) st core (zip names l).
Proof.
  revert l. induction names as [|n names IH]; intros [|v l] Hn Hl; try done. destruct Hl as [Hv Hl].
  split; [split; [set_solver|done]|apply IH; [set_solver|done]].
Qed.
Lemma good_vregions st core (rs : list BufferRegion) : good st core rs → good st core (VRegion <$> rs).
Proof. rewrite !good_all. intros H v (r & -> & Hr)%list_elem_of_fmap. exact (H r Hr). Qed.
Lemma good_scalar st core v : good st core v → good st core (SelectScalar v).
Proof. done. Qed.
Lemma good_wrapped {A} `{Good A} st core (o : option A) : good st core o → good st core (option_map Some o).
Proof. by destruct o. Qed.
Lemma good_bind {A B} `{Good A, Good B} st core (o : option A) (f : A → option B) :
  good st core o → (∀ a, good st core a → good st core (f a)) → good st core (o ≫= f).
Proof. destruct o as [a|]; [|done]. intros Ha Hf. exact (Hf a Ha). Qed.
Lemma good_last {A} `{Good A} st core (l : list A) : good st core l → good st core (last l).
Proof. rewrite last_lookup. apply good_lookup. Qed.

(** ** The rules *)

Section rules.
Context (base : BridgeState) {E : Type} (core : Z).
Abbreviation ok := (good base core).

(** A step keeps the state and answers with good values. *)
Definition sound {A} `{Good A} (m : stM BridgeState E A) : Prop :=
  ∀ st st' r, only_buffers base st → m st = (st', r) → only_buffers base st' ∧ ∀ a, r = Ok a → ok a.

Context {A B : Type} `{Good A, Good B}.

Lemma sound_ret (a : A) : ok a → sound (mret a).
Proof. intros Ha st st' r Hst [= <- <-]. split; [done|]. by intros ? [= <-]. Qed.
Lemma sound_raise (e : E) : sound (A := A) (st_raise e).
Proof. intros st st' r Hst [= <- <-]. by split. Qed.
Lemma sound_bind (m : stM BridgeState E A) (f : A → stM BridgeState E B) :
  sound m → (∀ a, ok a → sound (f a)) → sound (m ≫= f).
Proof.
  intros Hm Hf st st' r Hst Hrun. unfold mbind, stM_bind in Hrun. destruct (m st) as [st1 r1] eqn:Em.
  destruct (Hm _ _ _ Hst Em) as [Hst1 Ha]. destruct r1 as [a|e].
  - exact (Hf a (Ha a eq_refl) _ _ _ Hst1 Hrun).
  - injection Hrun as <- <-. by split.
Qed.
Lemma sound_lift (m : outcome E A) : (∀ a, m = Ok a → ok a) → sound (st_lift m).
Proof. intros Hm st st' r Hst [= <- <-]. by split. Qed.
Lemma sound_get (f : BridgeState → stM BridgeState E A) : (∀ st, only_buffers base st → sound (f st)) → sound (st_get ≫= f).
Proof. intros Hf st st' r Hst Hrun. exact (Hf st Hst st st' r Hst Hrun). Qed.
Lemma sound_map (f : A → stM BridgeState E B) l : (∀ a, a ∈ l → sound (f a)) → sound (st_map f l).
Proof.
  induction l as [|a l IH]; intros Hf.
  - intros st st' r Hst [= <- <-]. split; [done|]. by intros ? [= <-].
  - change (sound (b ← f a; bs ← st_map f l; mret (b :: bs))). intros st st' r Hst Hrun.
    unfold mbind, stM_bind in Hrun. destruct (f a st) as [st1 r1] eqn:E1.
    destruct (Hf a ltac:(by left) _ _ _ Hst E1) as [Hst1 Hb]. destruct r1 as [b|e]; [|injection Hrun as <- <-; by split].
    destruct (st_map f l st1) as [st2 r2] eqn:E2. destruct (IH ltac:(intros; apply Hf; by right) _ _ _ Hst1 E2) as [Hst2 Hbs].
    destruct r2 as [bs|e]; injection Hrun as <- <-; (split; [done|]); [|done]. intros ? [= <-]. exact (conj (Hb b eq_refl) (Hbs bs eq_refl)).
Qed.
End rules.

Section iter.
Context (base : BridgeState) {E : Type} (core : Z) {A : Type}.
Lemma sound_iter (f : A → stM BridgeState E unit) l : (∀ a, a ∈ l → sound base core (f a)) → sound base core (st_iter f l).
Proof.
  induction l as [|a l IH]; intros Hf; cbn [st_iter]; [by apply sound_ret|].
  eapply sound_bind; [apply Hf; by left|]. intros _ _. apply IH. intros. apply Hf. by right.
Qed.
End iter.

(** Values without pyvals. *)
Class AlwaysGood A `{Good A} := always_good : ∀ st core (a : A), good st core a.
#[export] Instance always_other {A} : @AlwaysGood A good_other.
Proof. done. Qed.
#[export] Instance always_option {A} `{AlwaysGood A} : AlwaysGood (option A).
Proof. intros st core [a|]; [exact (always_good st core a)|done]. Qed.
#[export] Instance always_list {A} `{AlwaysGood A} : AlwaysGood (list A).
Proof. intros st core l. apply good_all. intros. apply always_good. Qed.
#[export] Instance always_pair {A B} `{AlwaysGood A, AlwaysGood B} : AlwaysGood (A * B).
Proof. intros st core []. split; apply always_good. Qed.

Create HintDb good.
(** Goodness of composed values, from that of their parts. *)
Ltac good_cbn :=
  cbn [good good_region good_value good_option good_pair good_field good_list good_select good_other value_placed fst snd
       option_map fmap option_fmap option_join list_fmap app omap list_omap] in *.
Ltac good_cases :=
  match goal with
  | |- good ?b ?c (match ?x with _ => _ end) =>
      first [ is_var x; destruct x
            | let H := fresh in assert (good b c x) as H by solve [eauto 3 with good]; destruct x
            | destruct x ]
  end.
Ltac good_hyps :=
  repeat match goal with
  | H : good ?b ?c (?x, ?y) |- _ => change (good b c x ∧ good b c y) in H; destruct H
  | H : good ?b ?c (?x :: ?l) |- _ => change (good b c x ∧ good b c l) in H; destruct H
  | H : good ?b ?c (Some ?x) |- _ => change (good b c x) in H
  | H : good ?b ?c ?x |- _ => is_var x; lazymatch type of x with prod _ _ => destruct x end
  | H : _ ∧ _ |- _ => destruct H
  end.
Ltac good_split :=
  repeat first [assumption | exact I | discriminate | apply always_good | apply good_dset | apply good_app | apply good_fields; [set_solver|] | apply good_zip | eapply good_bind; [|intros ? ?; good_hyps] | solve [eauto 2 with good] | good_cases | progress good_cbn | split].
Ltac good_case := match goal with |- context [match ?x with _ => _ end] => destruct x end.
Ltac good_solve := intros; good_hyps; first [solve [eauto 3 with good] | good_split; repeat (good_case; good_split); solve [eauto 4 with good]].

(** ** The steps of the decoders *)

Section steps.
Context {TVM : Tvm} {D : Decode} (base : BridgeState) (Hplain : plain_buffers base).
Abbreviation ok := (good base dc_core).
Abbreviation sound := (sound base dc_core).

Lemma sound_skip {A} `{Good A} : sound (skip (A := A)).
Proof. apply sound_raise. Qed.
Lemma sound_fails {A} `{Good A} c label : sound (fails (A := A) c label).
Proof. apply sound_raise. Qed.
Lemma sound_of_result {A} `{Good A} (m : result A) : (∀ a, m = Ok a → ok a) → sound (of_result m).
Proof. intros Hm. apply sound_lift. destruct m as [a|e]; [|done]. intros ? [= <-]. by apply Hm. Qed.
Lemma sound_known {A} `{Good A} (v : option A) : ok v → sound (known v).
Proof. unfold known. destruct v as [a|]; [intros Ha; by eapply sound_ret|intros _; eapply sound_skip]. Qed.
Lemma sound_need {A} `{Good A} (v : option A) c label : ok v → sound (need v c label).
Proof. unfold need. destruct v as [a|]; [intros Ha; by eapply sound_ret|intros _; eapply sound_fails]. Qed.
Lemma sound_check b c label : sound (check b c label).
Proof. unfold check. destruct b; [by eapply sound_ret|eapply sound_fails]. Qed.
Lemma sound_unless_skip b : sound (unless_skip b).
Proof. unfold unless_skip. destruct b; [by eapply sound_ret|eapply sound_skip]. Qed.
Lemma good_mapM {A} `{Good A} (l : list (option A)) : ok l → ok (mapM id l).
Proof.
  induction l as [|[a|] l IH]; [done| |done]. intros [Ha Hl]. cbn [mapM id]. specialize (IH Hl).
  destruct (mapM id l) as [l'|] eqn:El; cbn; rewrite ?El; [|done]. by split.
Qed.
Lemma sound_all_known {A} `{Good A} (l : list (option A)) : ok l → sound (all_known l).
Proof. intros Hl. by apply sound_known, good_mapM. Qed.

(** Integer expressions name no region. *)
Lemma int_expr_placed st core v : is_int_expr v = true → value_placed st core v.
Proof. by destruct v. Qed.
Lemma symbolic_plain op args v : symbolic_init op args = Ok v → is_int_expr v = true.
Proof.
  unfold symbolic_init. destruct (dget sym_arities _); [|done].
  intros H. repeat (apply outcome_bind_ok in H as (? & _ & H)). by injection H as <-.
Qed.
Lemma affine_sum_plain b l r v : affine_sum_of b l r = Ok v → is_int_expr v = true.
Proof.
  unfold affine_sum_of. intros H. repeat (apply outcome_bind_ok in H as (? & _ & H)). injection H as <-.
  unfold affine_value. by case_match.
Qed.
Lemma affine_product_plain l r v : affine_product l r = Ok (Some v) → is_int_expr v = true.
Proof.
  unfold affine_product. intros H. repeat case_match; try done; simplify_eq; try done.
  all: apply outcome_bind_ok in H as (? & _ & H); by injection H as <-.
Qed.
Lemma affine_int_plain depth e x v : affine_int depth e x = Ok (Some v) → is_int_expr v = true.
Proof.
  destruct depth as [|depth]; [done|]. cbn [affine_int]. intros H. apply outcome_bind_ok in H as (c & _ & H).
  destruct c; [by injection H as <-|]. apply outcome_bind_ok in H as (y & _ & H).
  destruct y; try done.
  - apply outcome_bind_ok in H as (? & _ & H). by injection H as <-.
  - case_match.
    + apply outcome_bind_ok in H as (? & _ & H). apply outcome_bind_ok in H as (? & _ & H). repeat case_match; try done.
      apply outcome_bind_ok in H as (s & Hs & H). injection H as <-. by eapply affine_sum_plain.
    + case_match; [|done]. apply outcome_bind_ok in H as (? & _ & H). apply outcome_bind_ok in H as (? & _ & H).
      by eapply affine_product_plain.
Qed.
Lemma symbolic_some_plain op l v : symbolic op l = Ok (Some v) → is_int_expr v = true.
Proof.
  unfold symbolic. destruct (mapM id l); [|done]. intros H. apply outcome_bind_ok in H as (s & Hs & H). injection H as <-.
  by eapply symbolic_plain.
Qed.
Lemma runtime_int_plain buffers depth e x v : runtime_int buffers depth e x = Ok (Some v) → is_int_expr v = true.
Proof.
  revert e x v. induction depth as [|depth IH]; [done|]. intros e x v. cbn [runtime_int]. intros H.
  apply outcome_bind_ok in H as (a & Ha & H). destruct a as [a|]; [injection H as <-; by eapply affine_int_plain|].
  apply outcome_bind_ok in H as (y & _ & H).
  destruct y; try done.
  - case_match; [by eapply IH|done].
  - case_match; [|done]. repeat (apply outcome_bind_ok in H as (? & _ & H)). by eapply symbolic_some_plain.
  - apply outcome_bind_ok in H as (? & _ & H). by eapply symbolic_some_plain.
  - repeat (apply outcome_bind_ok in H as (? & _ & H)). by eapply symbolic_some_plain.
  - case_match; [done|]. case_match; [done|]. case_match; [|done]. apply outcome_bind_ok in H as (? & _ & H).
    case_match; [|done]. case_match; [done|]. unfold runtime_load in H. repeat case_match; try done.
    apply outcome_bind_ok in H as (? & _ & H). by injection H as <-.
Qed.
Lemma numeric_placed buffers depth e x v st core : numeric_scalar buffers depth e x = Ok (Some v) → value_placed st core v.
Proof.
  revert e x v. induction depth as [|depth IH]; [done|]. intros e x v. cbn [numeric_scalar]. intros H.
  apply outcome_bind_ok in H as (y & _ & H).
  assert (∀ i, (match i with Some v => Ok (Some v) | None => runtime_int buffers depth e y end) = Ok (Some v) →
    (∀ w, i = Some w → value_placed st core w) → value_placed st core v) as Hend.
  { intros [w|] Hw Hi; [injection Hw as <-; by apply Hi|]. by eapply int_expr_placed, runtime_int_plain. }
  destruct y; try (injection H as <-; done); (apply outcome_bind_ok in H as (i & Hi & H); apply (Hend i H); intros w ->; try done).
  by eapply IH.
Qed.
Lemma literal_placed st core e : good st core (literal e).
Proof. by destruct e. Qed.
Lemma literal_arg_placed st core e : good st core (literal_arg e).
Proof. apply literal_placed. Qed.

Lemma sound_int_arg e : sound (int_arg e).
Proof.
  apply sound_get. intros st _. apply sound_of_result. intros [v|] Hv; [|done].
  by eapply int_expr_placed, runtime_int_plain.
Qed.
Lemma sound_const_arg e : sound (const_arg e).
Proof. apply sound_of_result. by intros [z|]. Qed.
Lemma sound_numeric_arg e : sound (numeric_arg e).
Proof. apply sound_get. intros st _. apply sound_of_result. intros [v|] Hv; [|done]. by eapply numeric_placed. Qed.
Lemma sound_int_args l : sound (int_args l).
Proof. apply sound_map. intros e _. apply sound_int_arg. Qed.
Lemma sound_buffer_of name : sound (buffer_of name).
Proof.
  apply sound_get. intros st Hst. apply sound_of_result. intros spec. unfold buffer_named.
  destruct (dget (br_buffers st) name) eqn:Hg; [|done]. intros [= <-]. by eapply (plain_only base).
Qed.
Lemma scaled_plain v k w : scale_runtime_int v k = Ok w → is_int_expr w = true.
Proof.
  destruct v; cbn; intros H; try done; try (by injection H as <-).
  all: first [by eapply symbolic_plain|apply outcome_bind_ok in H as (? & _ & H); by injection H as <-].
Qed.
Lemma added_plain v w u : add_runtime_int v w = Ok u → is_int_expr u = true.
Proof.
  unfold add_runtime_int. intros H. repeat case_match; try done; try (by injection H as <-); by eapply symbolic_plain.
Qed.
Lemma sound_times v k : sound (times v k).
Proof. apply sound_of_result. intros w Hw. by eapply int_expr_placed, scaled_plain. Qed.
Lemma sound_plus v w : sound (plus v w).
Proof. apply sound_of_result. intros u Hu. by eapply int_expr_placed, added_plain. Qed.
Lemma sound_symbolic op l : sound (of_result (symbolic_init op l)).
Proof. apply sound_of_result. intros u Hu. by eapply int_expr_placed, symbolic_plain. Qed.
Lemma sound_scaled v k : sound (of_result (scale_runtime_int v k)).
Proof. apply sound_times. Qed.

(** A region that is built from a placed one, or for a declared buffer. *)
Lemma region_init_fields name scope shape dtype offset strides owner r :
  buffer_region_init name (scope_value scope) shape dtype offset strides owner = Ok r →
  rg_buffer r = name ∧ rg_scope r = scope ∧ rg_core_id r = owner.
Proof.
  unfold buffer_region_init. rewrite parse_scope_value. cbn [mbind outcome_bind]. intros H.
  repeat (apply outcome_bind_ok in H as (? & ? & H)). simplify_eq. done.
Qed.
Lemma sound_replace_region r shape offset strides : ok r → sound (replace_region r shape offset strides).
Proof.
  intros (spec & Hg & Hs & Hc). apply sound_of_result. intros r' (Hb & Hs' & Hc')%region_init_fields.
  exists spec. by rewrite Hb, Hs', Hc'.
Qed.
Lemma sound_pointer_parts e : sound (pointer_parts e).
Proof.
  unfold pointer_parts. destruct (access_ptr e) as [[|annotation [|data [|offset [|extent rest]]]]|]; try (by eapply sound_ret).
  eapply sound_bind; [apply sound_int_arg|]. intros [v|] Hv; eapply sound_ret; good_solve.
Qed.
End steps.
Create HintDb sound.
#[export] Hint Resolve sound_skip sound_fails sound_check sound_unless_skip sound_int_arg sound_const_arg
  sound_numeric_arg sound_int_args sound_buffer_of sound_times sound_plus sound_symbolic sound_scaled
  sound_pointer_parts : sound.
#[export] Hint Resolve good_take good_drop good_lookup good_last good_wrapped good_vregion good_vregions good_tuple good_mget good_mapM good_scalar literal_placed literal_arg_placed : good.

(** One rule for the first step of a decoder; conditions and cases are taken apart. *)
Ltac sound_rule :=
  lazymatch goal with
  | |- sound _ _ (st_get ≫= _) => eapply sound_get; intros ? ?
  | |- sound _ _ (_ ≫= _) => eapply sound_bind; [|intros ? ?]
  | |- sound _ _ (st_map _ _) => eapply sound_map; intros ? ?
  | |- sound _ _ (st_iter _ _) => eapply sound_iter; intros ? ?
  | |- sound ?b ?c (match ?x with _ => _ end) =>
      first [ is_var x; destruct x
            | let H := fresh in assert (good b c x) as H by solve [good_solve]; destruct x
            | destruct x ]
  | |- sound _ _ (mret _) => eapply sound_ret; solve [good_solve]
  | |- sound _ _ (known _) => eapply sound_known; solve [good_solve]
  | |- sound _ _ (all_known _) => eapply sound_all_known; solve [good_solve]
  | |- sound _ _ (need _ _ _) => eapply sound_need; solve [good_solve]
  | |- sound _ _ (replace_region _ _ _ _) => eapply sound_replace_region; solve [good_solve]
  | |- sound _ _ _ => first [ solve [eauto 2 with sound nocore] | eapply sound_of_result; intros; apply always_good ]
  end.
#[export] Hint Extern 1 (good _ _ _) => solve [good_solve] : sound.
Ltac sound_auto := intros; repeat (progress cbv beta zeta || sound_rule).

Section regions.
Context {TVM : Tvm} {D : Decode} (base : BridgeState) (Hplain : plain_buffers base).
Abbreviation ok := (good base dc_core).
Abbreviation sound := (sound base dc_core).

Lemma sound_access_ptr_extent e : sound (access_ptr_extent e).
Proof. unfold access_ptr_extent. sound_auto. Qed.
Lemma plain_last spec v : plain_shape spec → last (bs_shape spec) = Some v → is_int_expr v = true.
Proof. intros Hp Hl. rewrite last_lookup in Hl. by eapply Forall_lookup_1 in Hp. Qed.
Lemma sound_row_strides spec itemsize cols stride :
  ok spec → ok cols → ok stride → sound (row_strides spec itemsize cols stride).
Proof.
  unfold row_strides. intros Hs Hc Ht. eapply sound_bind; [|intros; sound_auto].
  destruct stride; [sound_auto|]. destruct cols; [sound_auto|]. eapply sound_of_result. intros v Hv.
  destruct (last (bs_shape spec)) eqn:Hl; [|done]. injection Hv as <-. by eapply int_expr_placed, plain_last.
Qed.
Hint Resolve sound_row_strides sound_access_ptr_extent : sound.
(** What is known of the buffer that a decoder reads. *)
Lemma sound_buffer_bind {A} `{Good A} name (f : BufferSpec → decM A) :
  (∀ spec spec0, dget (br_buffers base) name = Some spec0 → spec_key spec = spec_key spec0 → ok spec → sound (f spec)) →
  sound (buffer_of name ≫= f).
Proof.
  intros Hf st st' r Hst Hrun. unfold buffer_of, mbind, stM_bind, st_get, of_result, st_lift, buffer_named in Hrun.
  destruct (dget (br_buffers st) name) as [spec|] eqn:Hg; [|injection Hrun as <- <-; by split].
  destruct (spec_of _ _ _ _ Hst Hg) as (spec0 & Hg0 & Hk). eapply (Hf spec); [done..| |done|exact Hrun].
  by eapply (plain_only base).
Qed.
Lemma sound_access_region pointer shape cols stride : ok cols → ok stride → sound (access_region pointer shape cols stride).
Proof.
  unfold access_region. intros Hc Ht. eapply sound_bind; [apply sound_pointer_parts|].
  intros [[[data offset] annotated]|] Hp; [|sound_auto].
  destruct (dget dc_names (var_name data)) as [name|]; [|sound_auto].
  eapply sound_buffer_bind. intros spec spec0 Hg Hk Hspec. sound_auto.
  eapply sound_of_result. intros r (Hb & Hs & Ho)%region_init_fields. exists spec0. rewrite Hb, Hs, Ho.
  by replace (bs_scope spec0) with (bs_scope spec) by (unfold spec_key in Hk; congruence).
Qed.
Lemma sound_region pointer shape : sound (region pointer shape).
Proof. by apply sound_access_region. Qed.
End regions.
#[export] Hint Resolve sound_row_strides sound_access_ptr_extent sound_access_region sound_region : sound.

Section derived.
Context {TVM : Tvm} {D : Decode} (base : BridgeState) (Hplain : plain_buffers base).
Abbreviation ok := (good base dc_core).
Abbreviation sound := (sound base dc_core).
Lemma sound_with_strides r strides : ok r → sound (with_strides r strides).
Proof. apply sound_replace_region. Qed.
Lemma sound_with_shape r shape : ok r → sound (with_shape r shape).
Proof. apply sound_replace_region. Qed.
Lemma sound_with_offset r offset : ok r → sound (with_offset r offset).
Proof. apply sound_replace_region. Qed.
Lemma sound_element_at r index : ok r → sound (element_at r index).
Proof. unfold element_at, itemsize_of. intros. sound_auto. by apply sound_with_offset. Qed.
Lemma sound_scratch_region pointer : sound (scratch_region pointer).
Proof. unfold scratch_region. sound_auto. Qed.
Lemma sound_region_fits r : sound (region_fits_buffer r).
Proof. unfold region_fits_buffer. sound_auto. Qed.
Lemma sound_vector_shape tail dims : sound (vector_shape tail dims).
Proof. unfold vector_shape. sound_auto. Qed.
Lemma sound_tail_details dims : sound (tail_details dims).
Proof. unfold tail_details. sound_auto. Qed.
Lemma sound_supports r dtypes label : sound (supports r dtypes label).
Proof. apply sound_check. Qed.
End derived.
#[export] Hint Resolve sound_with_strides sound_with_shape sound_with_offset sound_element_at sound_scratch_region
  sound_region_fits sound_vector_shape sound_tail_details sound_supports : sound.

Section vector.
Context {TVM : Tvm} {D : Decode} (base : BridgeState) (Hplain : plain_buffers base).
Abbreviation ok := (good base dc_core).
Abbreviation sound := (sound base dc_core).

Lemma sound_binary tail arguments : sound (binary_metadata tail arguments).
Proof. unfold binary_metadata. sound_auto. Qed.
Lemma sound_unary tail arguments : sound (unary_metadata tail arguments).
Proof. unfold unary_metadata. sound_auto. Qed.
Lemma sound_count_arg e label : sound (count_arg e label).
Proof. unfold count_arg. sound_auto. Qed.
Lemma sound_with_scratch md scratch count : ok md → sound (with_scratch md scratch count).
Proof. unfold with_scratch. sound_auto. Qed.
Hint Resolve sound_binary sound_unary sound_count_arg sound_with_scratch : sound.
Lemma sound_scratch_unary arguments : sound (scratch_unary_metadata arguments).
Proof. unfold scratch_unary_metadata. sound_auto. Qed.
Lemma region_at_good md key : ok md → ok (region_at md key).
Proof. intros Hm%(good_mget _ _ _ key). unfold region_at. by destruct (mget md key). Qed.
Hint Resolve region_at_good : good.
Hint Resolve sound_scratch_unary : sound.
Lemma sound_round arguments : sound (round_metadata arguments).
Proof. unfold round_metadata. sound_auto. Qed.
Lemma sound_bitwise md : ok md → sound (bitwise_metadata md).
Proof. unfold bitwise_metadata. sound_auto. Qed.
Hint Resolve sound_bitwise : sound.
Lemma sound_shift arguments : sound (shift_metadata arguments).
Proof. unfold shift_metadata. sound_auto. Qed.
Lemma sound_scalar tail arguments : sound (scalar_metadata tail arguments).
Proof. unfold scalar_metadata. sound_auto. Qed.
Hint Resolve sound_scalar : sound.
Lemma sound_axpy arguments : sound (axpy_metadata arguments).
Proof. unfold axpy_metadata. sound_auto. Qed.
Lemma sound_mul_add_dst arguments : sound (mul_add_dst_metadata arguments).
Proof. unfold mul_add_dst_metadata. sound_auto. Qed.
Lemma sound_pow arguments : sound (pow_metadata arguments).
Proof. unfold pow_metadata. sound_auto. Qed.
Lemma sound_clamp operation arguments : sound (clamp_metadata operation arguments).
Proof. unfold clamp_metadata. sound_auto. Qed.
Lemma sound_with_pointer_scratch md scratch : ok md → sound (with_pointer_scratch md scratch).
Proof. unfold with_pointer_scratch. sound_auto. Qed.
Hint Resolve sound_with_pointer_scratch : sound.
Lemma sound_broadcast arguments : sound (broadcast_metadata arguments).
Proof. unfold broadcast_metadata. sound_auto. Qed.
Lemma sound_tail_broadcast arguments : sound (tail_broadcast_metadata arguments).
Proof. unfold tail_broadcast_metadata, tail_broadcast_axis. sound_auto. Qed.
Lemma sound_scalar_element pointer index source label :
  sound (scalar_element pointer index source label).
Proof. unfold scalar_element. sound_auto. Qed.
Hint Resolve sound_scalar_element : sound.
Lemma sound_compare operation arguments : sound (compare_metadata operation arguments).
Proof. unfold compare_metadata. sound_auto. Qed.
Lemma sound_select_operands source_type rest : sound (select_operands source_type rest).
Proof. unfold select_operands. sound_auto. Qed.
Hint Resolve sound_select_operands : sound.
Lemma sound_select arguments : sound (select_metadata arguments).
Proof. unfold select_metadata. sound_auto. Qed.
Lemma sound_tail_dimensions dims : sound (tail_dimensions dims).
Proof. unfold tail_dimensions. sound_auto. Qed.
Lemma tail_fields_good dimensions : ok dimensions → ok (tail_fields dimensions).
Proof. intros H. apply good_fields; [set_solver|done]. Qed.
Lemma sound_tail_second scalar pointer valid md : ok md → sound (tail_second scalar pointer valid md).
Proof. unfold tail_second. sound_auto. Qed.
Hint Resolve tail_fields_good : good.
Hint Resolve sound_tail_dimensions sound_tail_second : sound.
Lemma sound_tail_compare operation arguments : sound (tail_compare_metadata operation arguments).
Proof. unfold tail_compare_metadata. sound_auto. Qed.
Lemma sound_tail_select arguments : sound (tail_select_metadata arguments).
Proof. unfold tail_select_metadata. sound_auto. Qed.
Lemma sound_cast arguments : sound (cast_metadata arguments).
Proof. unfold cast_metadata. sound_auto. Qed.
Lemma sound_fill arguments : sound (fill_metadata arguments).
Proof. unfold fill_metadata. sound_auto. Qed.
Lemma sound_sequence operation arguments : sound (sequence_metadata operation arguments).
Proof. unfold sequence_metadata. sound_auto. Qed.
End vector.
#[export] Hint Resolve sound_binary sound_unary sound_count_arg sound_with_scratch sound_scratch_unary sound_round
  sound_bitwise sound_shift sound_scalar sound_axpy sound_mul_add_dst sound_pow sound_clamp sound_with_pointer_scratch
  sound_broadcast sound_tail_broadcast sound_compare sound_select sound_tail_compare sound_tail_select sound_cast
  sound_fill sound_sequence : sound.

Section reduce.
Context {TVM : Tvm} {D : Decode} (base : BridgeState) (Hplain : plain_buffers base).
Abbreviation ok := (good base dc_core).
Abbreviation sound := (sound base dc_core).

Lemma sound_reduce_sum_experiment arguments : sound (reduce_sum_experiment_metadata arguments).
Proof. unfold reduce_sum_experiment_metadata. sound_auto. Qed.
Lemma sound_sum_experiment arguments : sound (sum_experiment_metadata arguments).
Proof. unfold sum_experiment_metadata. sound_auto. Qed.
Lemma control_fields_good controls : ok (control_fields controls).
Proof. unfold control_fields. good_solve. Qed.
Hint Resolve control_fields_good : good.
Lemma sound_reduction_controls repeat_ mask dst_rep src_blk src_rep :
  sound (reduction_controls repeat_ mask dst_rep src_blk src_rep).
Proof. unfold reduction_controls. sound_auto. Qed.
Lemma sound_reduction_source dst src controls : sound (reduction_source dst src controls).
Proof. unfold reduction_source. sound_auto. Qed.
Hint Resolve sound_reduction_controls sound_reduction_source : sound.
Lemma sound_block_reduce operation arguments : sound (block_reduce_metadata operation arguments).
Proof. unfold block_reduce_metadata. sound_auto. Qed.
Lemma sound_whole_reduce operation arguments : sound (whole_reduce_metadata operation arguments).
Proof. unfold whole_reduce_metadata. sound_auto. Qed.
Lemma sound_tail_reduce arguments : sound (tail_reduce_metadata arguments).
Proof. unfold tail_reduce_metadata. sound_auto. Qed.
Lemma sound_reduce arguments : sound (reduce_metadata arguments).
Proof. unfold reduce_metadata, reduce_tag, check_narrow, reduce_width. sound_auto. Qed.
Lemma sound_exp_experiment arguments : sound (exp_experiment_metadata arguments).
Proof. unfold exp_experiment_metadata, check_row_window. sound_auto. Qed.
End reduce.
#[export] Hint Resolve sound_reduce_sum_experiment sound_sum_experiment sound_block_reduce sound_whole_reduce
  sound_tail_reduce sound_reduce sound_exp_experiment : sound.

Section sort.
Context {TVM : Tvm} {D : Decode} (base : BridgeState) (Hplain : plain_buffers base).
Abbreviation ok := (good base dc_core).
Abbreviation sound := (sound base dc_core).

Lemma sound_static_extents pointers label : sound (static_extents pointers label).
Proof. unfold static_extents. sound_auto. Qed.
Lemma sound_regions_of operands : sound (regions_of operands).
Proof. unfold regions_of. sound_auto. Qed.
Lemma sound_check_aligned rs label : sound (check_aligned rs label).
Proof. apply sound_check. Qed.
Lemma sound_check_ub rs label : sound (check_ub rs label).
Proof. apply sound_check. Qed.
Lemma sound_flat_region pointer : sound (flat_region pointer).
Proof. unfold flat_region. sound_auto. Qed.
Lemma sound_check_gatherb r b s : sound (check_gatherb r b s).
Proof. unfold check_gatherb. sound_auto. Qed.
Lemma sound_check_sort_repeats r n : sound (check_sort_repeats r n).
Proof. unfold check_sort_repeats. sound_auto. Qed.
Lemma sound_merge_scratch pointer bytes : sound (merge_scratch pointer bytes).
Proof. unfold merge_scratch, check_ub, check_aligned. sound_auto. Qed.
Lemma sound_check_tile r bytes spec label : sound (check_tile r bytes spec label).
Proof. unfold check_tile. sound_auto. Qed.
Lemma sound_atomic_l0c_template operation : sound (atomic_l0c_template operation).
Proof. unfold atomic_l0c_template. sound_auto. Qed.
Hint Resolve sound_static_extents sound_regions_of sound_check_aligned sound_check_ub sound_flat_region
  sound_check_gatherb sound_check_sort_repeats sound_merge_scratch sound_check_tile sound_atomic_l0c_template : sound.
Lemma sound_gather arguments : sound (gather_metadata arguments).
Proof. unfold gather_metadata. sound_auto. Qed.
Lemma sound_gatherb arguments : sound (gatherb_metadata arguments).
Proof. unfold gatherb_metadata. sound_auto. Qed.
Lemma sound_gather_mask arguments : sound (gather_mask_metadata arguments).
Proof. unfold gather_mask_metadata. sound_auto. Qed.
Lemma sound_transpose arguments : sound (transpose_metadata arguments).
Proof. unfold transpose_metadata. sound_auto. Qed.
Lemma sound_reinterpretcast arguments : sound (reinterpretcast_metadata arguments).
Proof. unfold reinterpretcast_metadata, extent_bytes. sound_auto. Qed.
Lemma sound_topk arguments : sound (topk_metadata arguments).
Proof. unfold topk_metadata. sound_auto. Qed.
Lemma sound_sort32 arguments : sound (sort32_metadata arguments).
Proof. unfold sort32_metadata. sound_auto. Qed.
Lemma sound_sort arguments : sound (sort_metadata arguments).
Proof. unfold sort_metadata. sound_auto. Qed.
Lemma sound_init_sort_buf arguments : sound (init_sort_buf_metadata arguments).
Proof. unfold init_sort_buf_metadata. sound_auto. Qed.
Lemma sound_merge_sort arguments : sound (merge_sort_metadata arguments).
Proof. unfold merge_sort_metadata. sound_auto. Qed.
Lemma sound_atomic_add_ub operation arguments : sound (atomic_add_ub_metadata operation arguments).
Proof. unfold atomic_add_ub_metadata. sound_auto. Qed.
Lemma sound_atomic_add_l0c operation arguments : sound (atomic_add_l0c_metadata operation arguments).
Proof. unfold atomic_add_l0c_metadata. sound_auto. Qed.
End sort.
#[export] Hint Resolve sound_static_extents sound_regions_of sound_check_aligned sound_check_ub sound_flat_region
  sound_check_tile sound_gather sound_gatherb sound_gather_mask sound_transpose sound_reinterpretcast sound_topk
  sound_sort32 sound_sort sound_init_sort_buf sound_merge_sort sound_atomic_add_ub sound_atomic_add_l0c : sound.

Section copy.
Context {TVM : Tvm} {D : Decode} (base : BridgeState) (Hplain : plain_buffers base).
Abbreviation ok := (good base dc_core).
Abbreviation sound := (sound base dc_core).

(** The one step that changes the state: a buffer gets more capacity. *)
Lemma replaced_only_buffers st name spec spec' :
  dget (br_buffers st) name = Some spec → spec_key spec' = spec_key spec →
  only_buffers st (set_buffers (dset (br_buffers st) name spec') st).
Proof.
  intros Hg Hk. split; cbn [br_buffers br_aliases br_writes br_reads br_tasks br_counter set_buffers]; try done.
  - rewrite dkeys_dset. assert (dmem (br_buffers st) name = true) as -> by (apply dmem_true; eauto). done.
  - intros n. rewrite dget_dset. case_decide; [|done]. subst n. by rewrite Hg; cbn; rewrite Hk.
Qed.
Lemma reserve_only_buffers name required layout st st' r :
  reserve_layout_capacity name required layout st = (st', r) → only_buffers st st'.
Proof.
  unfold reserve_layout_capacity, mbind, stM_bind, st_get, st_lift, buffer_named. intros H.
  destruct (dget (br_buffers st) name) as [spec|] eqn:Hg; [|by injection H as <- <-].
  repeat (case_match; simplify_eq); try (by injection H as <- <-); try done. all: unfold st_put in H; simplify_eq; by eapply replaced_only_buffers.
Qed.
Lemma sound_reserve name required layout : sound (in_bridge (reserve_layout_capacity name required layout)).
Proof.
  intros st st' r Hst Hrun. unfold in_bridge in Hrun.
  destruct (reserve_layout_capacity name required layout st) as [st1 r1] eqn:E1.
  apply reserve_only_buffers in E1. destruct r1; injection Hrun as <- <-; (split; [by etrans|done]).
Qed.
Hint Resolve sound_reserve : sound.
Lemma sound_gm_to_l1_linear arguments : sound (gm_to_l1_linear_metadata arguments).
Proof. unfold gm_to_l1_linear_metadata. sound_auto. Qed.
Lemma sound_zn_bands r offset vr pr pc itemsize size : ok r → sound (zn_bands r offset vr pr pc itemsize size).
Proof. unfold zn_bands. sound_auto. Qed.
Lemma sound_zn_rebased r offset vr vc pr pc itemsize : ok r → sound (zn_rebased r offset vr vc pr pc itemsize).
Proof. unfold zn_rebased. sound_auto. Qed.
Hint Resolve sound_zn_bands sound_zn_rebased : sound.
Lemma sound_zn_destination source destination dims itemsize tile size :
  ok source → ok destination → sound (zn_destination source destination dims itemsize tile size).
Proof. unfold zn_destination. sound_auto. Qed.
Hint Resolve sound_zn_destination : sound.
Lemma sound_gm_to_l1_zn arguments : sound (gm_to_l1_zn_metadata arguments).
Proof. unfold gm_to_l1_zn_metadata. sound_auto. Qed.
Lemma sound_check_row_stride stride r : sound (check_row_stride stride r).
Proof. unfold check_row_stride. sound_auto. Qed.
Hint Resolve sound_check_row_stride : sound.
Lemma sound_ub_to_ub operation arguments : sound (ub_to_ub_metadata operation arguments).
Proof. unfold ub_to_ub_metadata. sound_auto. Qed.
Lemma sound_ub_to_l1 operation arguments : sound (ub_to_l1_metadata operation arguments).
Proof. unfold ub_to_l1_metadata. sound_auto. Qed.
Lemma sound_brcb arguments : sound (brcb_metadata arguments).
Proof. unfold brcb_metadata. sound_auto. Qed.
Lemma plain_original data spec : plain_shape spec → Forall (λ v, is_int_expr v = true) (original_shape data spec).
Proof.
  intros Hs. unfold original_shape. destruct (dget dc_shapes data) as [l|]; [|done]. cbn.
  by apply Forall_fmap, Forall_true.
Qed.
Lemma sound_last_extent shape : Forall (λ v, is_int_expr v = true) shape → sound (last_extent shape).
Proof.
  intros Hs. unfold last_extent. apply sound_need. destruct (last shape) as [v|] eqn:Hl; [|done].
  rewrite last_lookup in Hl. apply int_expr_placed. exact (Forall_lookup_1 _ _ _ _ Hs Hl).
Qed.
Lemma sound_expand_row_stride data spec n per_block itemsize : ok spec → sound (expand_row_stride data spec n per_block itemsize).
Proof.
  unfold expand_row_stride. intros Hs. eapply sound_bind; [|sound_auto].
  apply sound_last_extent. destruct (2 <=? length (original_shape data spec))%nat; [by apply plain_original|exact Hs].
Qed.
Lemma sound_expand_source_stride src row_stride : sound (expand_source_stride src row_stride).
Proof.
  unfold expand_source_stride. eapply sound_get. intros st Hst. destruct (data_name src) as [data|]; [|sound_auto].
  destruct (dget dc_names data ≫= λ name, dget (br_buffers st) name) as [spec|] eqn:Hspec; [|sound_auto].
  destruct (nonempty data); [|sound_auto]. apply sound_last_extent, plain_original.
  apply bind_Some in Hspec as (name & _ & Hg). by eapply (plain_only base).
Qed.
Lemma sound_expand_scratch tmp elements destination : sound (expand_scratch tmp elements destination).
Proof. unfold expand_scratch. sound_auto. Qed.
Hint Resolve sound_expand_row_stride sound_expand_source_stride sound_expand_scratch : sound.
Lemma sound_expand_windows parameters dst src extent : sound (expand_windows parameters dst src extent).
Proof. unfold expand_windows. sound_auto. Qed.
Hint Resolve sound_expand_windows : sound.
Lemma sound_row_expand arguments : sound (row_expand_metadata arguments).
Proof. unfold row_expand_metadata. sound_auto. Qed.
End copy.
#[export] Hint Resolve sound_reserve sound_gm_to_l1_linear sound_gm_to_l1_zn sound_ub_to_ub sound_ub_to_l1 sound_brcb
  sound_row_expand : sound.

Section matrix.
Context {TVM : Tvm} {D : Decode} (base : BridgeState) (Hplain : plain_buffers base).
Abbreviation ok := (good base dc_core).
Abbreviation sound := (sound base dc_core).

Lemma sound_l1_to_bt tag arguments : sound (l1_to_bt_metadata tag arguments).
Proof. unfold l1_to_bt_metadata. sound_auto. Qed.
Lemma sound_l0_template operation tag : sound (l0_template operation tag).
Proof. unfold l0_template. sound_auto. Qed.
Lemma sound_l0_windows transposed source shape itemsize slot origin rows cols :
  ok source → sound (l0_windows transposed source shape itemsize slot origin rows cols).
Proof. unfold l0_windows, l0_window. sound_auto. Qed.
Hint Resolve sound_l0_template sound_l0_windows : sound.
Lemma good_single (l : list BufferRegion) : ok l → ok (match l with [r] => Some r | _ => None end).
Proof. destruct l as [|r [|]]; [done| |done]. by intros [? _]. Qed.
Hint Resolve good_single : good.
Lemma sound_l1_to_l0 operation tag arguments : sound (l1_to_l0_metadata operation tag arguments).
Proof. unfold l1_to_l0_metadata. sound_auto. Qed.
Lemma sound_l0c_template tag : sound (l0c_template tag).
Proof. unfold l0c_template. sound_auto. Qed.
Lemma sound_check_l0c_dimensions dims rows cols : sound (check_l0c_dimensions dims rows cols).
Proof. unfold check_l0c_dimensions. sound_auto. Qed.
Lemma sound_unit_flag_arg e flags label : sound (unit_flag_arg e flags label).
Proof. unfold unit_flag_arg. sound_auto. Qed.
Hint Resolve sound_l0c_template sound_check_l0c_dimensions sound_unit_flag_arg : sound.
Lemma sound_l0c_to_gm tag arguments : sound (l0c_to_gm_metadata tag arguments).
Proof. unfold l0c_to_gm_metadata. sound_auto. Qed.
Lemma sound_im2col_parameters dtype dims : sound (im2col_parameters dtype dims).
Proof. unfold im2col_parameters. sound_auto. Qed.
Hint Resolve sound_im2col_parameters : sound.
Lemma sound_im2col arguments : sound (im2col_metadata arguments).
Proof. unfold im2col_metadata. sound_auto. Qed.
Lemma sound_actual_columns n cols : sound (actual_columns n cols).
Proof. unfold actual_columns. sound_auto. Qed.
Lemma sound_mma_template marker tag : sound (mma_template marker tag).
Proof. unfold mma_template. sound_auto. Qed.
Lemma sound_partial_storage layout shape rows itemsize actual :
  ok actual → sound (of_result (partial_storage layout shape rows itemsize actual)).
Proof.
  intros Ha. apply sound_of_result. intros v. unfold partial_storage. destruct (static actual).
  - intros H. apply outcome_bind_ok in H as (? & _ & H). by injection H as <-.
  - intros H. by eapply int_expr_placed, scaled_plain.
Qed.
Lemma sound_check_operand label operand : sound (check_operand label operand).
Proof. unfold check_operand. sound_auto. Qed.
Hint Resolve sound_actual_columns sound_mma_template sound_partial_storage sound_check_operand : sound.
Lemma sound_mma_operands a b c input accumulator rows cols inner actual :
  ok actual → sound (mma_operands a b c input accumulator rows cols inner actual).
Proof. unfold mma_operands. sound_auto. Qed.
Lemma sound_mma_bias pointer actual : ok actual → sound (mma_bias pointer actual).
Proof. unfold mma_bias. sound_auto. Qed.
Hint Resolve sound_mma_operands sound_mma_bias : sound.
Lemma sound_mma_decode tag a b c bias init inner partial : sound (mma_decode tag a b c bias init inner partial).
Proof. unfold mma_decode. sound_auto. Qed.
Hint Resolve sound_mma_decode : sound.
Lemma sound_mma biased arguments : sound (mma_metadata biased arguments).
Proof. unfold mma_metadata. sound_auto. Qed.
Lemma sound_gemm_template tag : sound (gemm_template tag).
Proof. unfold gemm_template. sound_auto. Qed.
Lemma sound_gemm_tiling g bytes : sound (gemm_tiling g bytes).
Proof. unfold gemm_tiling. sound_auto. Qed.
Hint Resolve sound_gemm_template sound_gemm_tiling : sound.
Lemma sound_gemm_decode tag a b c init n : sound (gemm_decode tag a b c init n).
Proof. unfold gemm_decode. sound_auto. Qed.
Hint Resolve sound_gemm_decode : sound.
Lemma sound_gemm_v0 arguments : sound (gemm_v0_metadata arguments).
Proof. unfold gemm_v0_metadata. sound_auto. Qed.
End matrix.
#[export] Hint Resolve sound_l1_to_bt sound_l1_to_l0 sound_l0c_to_gm sound_im2col sound_mma sound_gemm_v0 : sound.

Section dispatch.
Context {TVM : Tvm} {D : Decode} (base : BridgeState) (Hplain : plain_buffers base).
Abbreviation ok := (good base dc_core).
Abbreviation sound := (sound base dc_core).

Lemma sound_physical_tile rest : sound (physical_tile rest).
Proof. unfold physical_tile. sound_auto. Qed.
Hint Resolve sound_physical_tile : sound.
Lemma sound_strided_details b arguments stride vr vc : ok vr → ok vc → sound (strided_details b arguments stride vr vc).
Proof. unfold strided_details. sound_auto. Qed.
Lemma sound_pad_destination dst rows cols md : ok md → sound (pad_destination dst rows cols md).
Proof. unfold pad_destination. sound_auto. Qed.
Hint Resolve sound_strided_details sound_pad_destination : sound.
Lemma sound_strided_copy b src dst stride rows cols arguments : sound (strided_copy b src dst stride rows cols arguments).
Proof. unfold strided_copy. sound_auto. Qed.
Lemma sound_linear_copy src dst length : sound (linear_copy src dst length).
Proof. unfold linear_copy. sound_auto. Qed.
Hint Resolve sound_strided_copy sound_linear_copy : sound.
Lemma sound_ub_copy normalized arguments : sound (ub_copy_metadata normalized arguments).
Proof. unfold ub_copy_metadata. sound_auto. Qed.
Lemma sound_through_bitwise m : sound m → sound (through_bitwise m).
Proof. intros Hm. unfold through_bitwise. eapply sound_bind; [exact Hm|]. intros md Hmd. by apply sound_bitwise. Qed.
Hint Resolve sound_ub_copy sound_through_bitwise : sound.

(** A decoder that may be there. *)
Definition sound_if_any (o : option (decM (dict string pyval))) : Prop := ∀ m, o = Some m → sound m.
Lemma any_some m : sound m → sound_if_any (Some m).
Proof. by intros Hm ? [= <-]. Qed.
Lemma any_if (b : bool) m o : sound m → sound_if_any o → sound_if_any (if b then Some m else o).
Proof. intros Hm Ho. destruct b; [by apply any_some|done]. Qed.
Lemma any_else o o' : sound_if_any o → sound_if_any o' → sound_if_any (or_else o o').
Proof. destruct o; [by intros ? ?|done]. Qed.
Ltac any_auto := cbv zeta; repeat (apply any_if; [solve [eauto 3 with sound nocore]|]); done.
Lemma sound_vector_decoder short tail arguments : sound_if_any (vector_decoder short tail arguments).
Proof. unfold vector_decoder. any_auto. Qed.
Lemma sound_indexed_decoder short operation arguments : sound_if_any (indexed_decoder short operation arguments).
Proof. unfold indexed_decoder. any_auto. Qed.
Lemma sound_matrix_decoder short normalized arguments : sound_if_any (matrix_decoder short normalized arguments).
Proof. unfold matrix_decoder. any_auto. Qed.
Lemma functional_metadata_sound operation tail arguments : sound (functional_metadata operation tail arguments).
Proof.
  unfold functional_metadata.
  match goal with |- sound (default skip ?o) => assert (sound_if_any o) as Ho end.
  { repeat apply any_else; auto using sound_vector_decoder, sound_indexed_decoder, sound_matrix_decoder.
    apply any_if; [apply sound_tail_reduce, Hplain|].
    apply any_if; [apply sound_ub_copy|done]. }
  match goal with |- sound (default skip ?o) => destruct o eqn:E end; [exact (Ho _ eq_refl)|apply sound_skip].
Qed.
End dispatch.

(** What the metadata of a call says of the state that it was decoded in. *)
Lemma decoded_frame {TVM : Tvm} {D : Decode} operation tail arguments st st' r :
  plain_buffers st → decoded (functional_metadata operation tail arguments) st = (st', r) →
  only_buffers st st' ∧ ∀ md, r = Ok md → good st dc_core md.
Proof.
  intros Hp H. unfold decoded in H.
  destruct (functional_metadata operation tail arguments st) as [st1 r1] eqn:E1.
  destruct (functional_metadata_sound st Hp operation tail arguments st st1 r1) as [Ho Hg]; [done..|].
  repeat (case_match; simplify_eq); (split; [done|]); intros md0 [= <-]; [by apply Hg|done].
Qed.
