(* ===== verification/BridgeEmit.v ===== *)
(** What every emission of [bridge.py] does, whatever the caches hold: the searches answer with
    tasks of the histories, the histories grow by the new task only, and the task is appended to
    its core under the next identifier. *)

From Stdlib Require Import Ascii.
From stdpp Require Import pretty.
From S2P Require Import Prelude PyDict PySort PyStr Errors Values Program Intervals MemoryView RegionOverlap.
From S2P Require Import PyNum Timing ExecEnv LinearTiming MeasuredA2 BridgeOps BridgeMemory BridgeCache BridgeDeps UnitFlags.
Local Open Scope string_scope.
Local Open Scope Z_scope.
Local Open Scope list_scope.

(** ** Searches *)

Section searches.
Context (P : access → Prop).

(** Every entry of the histories. *)
Definition all_entries (st : BridgeState) : Prop := ∀ w k e, e ∈ bucket w k st → P e.
Lemma all_entries_quiet st st' : quiet st st' → all_entries st → all_entries st'.
Proof. intros Hq H w k e He. rewrite (bucket_quiet _ _ st st') in He by done. eauto. Qed.

(** The program changes nothing but the caches, and its answers satisfy [Q] when the entries
    satisfy [P]. *)
Definition searching {A} (m : bridgeM A) (Q : A → Prop) : Prop :=
  ∀ st st' r, all_entries st → m st = (st', r) → cache_only st st' ∧ ∀ a, r = Ok a → Q a.

Lemma searching_ret {A} (a : A) (Q : A → Prop) : Q a → searching (mret a) Q.
Proof. intros Ha st st' r _ [= <- <-]. split; [done|]. by intros ? [= <-]. Qed.
Lemma searching_lift {A} (m : result A) (Q : A → Prop) : (∀ a, m = Ok a → Q a) → searching (st_lift m) Q.
Proof. intros Ha st st' r _ [= <- <-]. by split. Qed.
Lemma searching_bind {A B} (m : bridgeM A) (f : A → bridgeM B) (Q : A → Prop) (R : B → Prop) :
  searching m Q → (∀ a, Q a → searching (f a) R) → searching (m ≫= f) R.
Proof.
  intros Hm Hf st st' r Hst H. unfold mbind, stM_bind in H. destruct (m st) as [st1 r1] eqn:E1.
  destruct (Hm _ _ _ Hst E1) as [C1 Q1]. destruct r1 as [a|e]; [|by injection H as <- <-].
  destruct (Hf a (Q1 a eq_refl) st1 st' r) as [C2 Q2]; [|done|].
  - by eapply all_entries_quiet; [apply cache_only_quiet|].
  - split; [by etrans|done].
Qed.
Lemma searching_get {A} (f : BridgeState → bridgeM A) (Q : A → Prop) :
  (∀ st st' r, all_entries st → f st st = (st', r) → cache_only st st' ∧ ∀ a, r = Ok a → Q a) →
  searching (st_get ≫= f) Q.
Proof. intros Hf st st' r Hst H. exact (Hf st st' r Hst H). Qed.
Lemma searching_map {A B} (f : A → bridgeM B) l (Q : B → Prop) :
  (∀ a, a ∈ l → searching (f a) Q) → searching (st_map f l) (Forall Q).
Proof.
  induction l as [|a l IH]; intros Hf; [apply searching_ret; constructor|].
  change (searching (b ← f a; bs ← st_map f l; mret (b :: bs)) (Forall Q)).
  eapply searching_bind; [apply Hf; by left|]. intros b Hb.
  eapply searching_bind; [apply IH; intros; apply Hf; by right|]. intros bs Hbs. apply searching_ret. by constructor.
Qed.
Lemma searching_filter {A} (f : A → bridgeM bool) l :
  (∀ a, searching (f a) (λ _, True)) → searching (st_filter f l) (λ l', l' ⊆ l).
Proof.
  intros Hf. induction l as [|a l IH]; [by apply searching_ret|].
  change (searching (b ← f a; l' ← st_filter f l; mret (if b : bool then a :: l' else l')) (λ l', l' ⊆ a :: l)).
  eapply searching_bind; [apply Hf|]. intros b _. eapply searching_bind; [exact IH|]. intros l' Hl.
  apply searching_ret. destruct b; set_solver.
Qed.

Lemma searching_overlap a b core : searching (regions_overlap a b core) (λ _, True).
Proof.
  unfold regions_overlap. apply searching_get. intros st st' r _. destruct (dget (br_overlaps st) _).
  - by intros [= <- <-].
  - unfold mbind, stM_bind, st_lift, st_put. destruct (regions_overlap_uncached st a b core); by intros [= <- <-].
Qed.
Lemma searching_keys w region l core cross : searching (memory_history_candidate_keys w region l core cross) (λ _, True).
Proof.
  unfold memory_history_candidate_keys. apply searching_get. intros st st' r _. cbv zeta. destruct (dget (br_candidates st) _).
  - by intros [= <- <-].
  - unfold mbind, stM_bind, st_lift, st_put. destruct (ofilter _ _); by intros [= <- <-].
Qed.
Lemma searching_candidates w region l core cross :
  searching (memory_history_candidates w region l core cross) (Forall P).
Proof.
  eapply searching_bind; [apply searching_keys|]. intros keys _. apply searching_get. intros st st' r Hst [= <- <-].
  split; [done|]. intros ? [= <-]. apply Forall_forall. intros e (k & _ & He)%list_elem_of_In%in_flat_map.
  apply list_elem_of_In in He. exact (Hst w k e He).
Qed.
Lemma searching_entries distinct region l core keep entries (Q : string → Prop) :
  (∀ e, P e → Q (ac_task e)) → Forall P entries →
  searching (depends_on_entries distinct region l core keep entries) (Forall Q).
Proof.
  intros HQ He. unfold depends_on_entries. eapply searching_bind.
  - apply searching_filter. intros e. unfold depends_on_entry. destruct (_ && _); [by apply searching_ret|].
    destruct (negb _); [by apply searching_ret|]. eapply searching_bind; [apply searching_overlap|]. intros. by apply searching_ret.
  - intros found Hf. apply searching_ret, Forall_fmap, Forall_forall. intros e Hin. apply HQ.
    rewrite Forall_forall in He. apply He, Hf, Hin.
Qed.

Context (Q : string → Prop) (HQ : ∀ e, P e → Q (ac_task e)).
Lemma Forall_concat_all (ls : list (list string)) : Forall (Forall Q) ls → Forall Q (concat ls).
Proof. induction 1; [constructor|]. by apply Forall_app. Qed.
Lemma Forall_sorted_set l : Forall Q l → Forall Q (sorted_set l).
Proof.
  intros H. apply Forall_forall. intros x Hx. rewrite sorted_set_elem in Hx. by eapply Forall_forall in H.
Qed.
Lemma searching_dependencies md core l operation : searching (memory_dependencies md core l operation) (Forall Q).
Proof.
  unfold memory_dependencies. eapply searching_bind.
  - apply searching_map. intros region _. eapply searching_bind; [apply searching_candidates|]. intros entries He.
    by apply searching_entries.
  - intros rs Hrs. eapply searching_bind.
    + apply searching_map. intros region _. eapply searching_bind; [apply searching_candidates|]. intros written Hw.
      eapply searching_bind; [apply searching_candidates|]. intros read Hr. apply searching_entries; [done|]. by apply Forall_app.
    + intros ws Hws. apply searching_ret, Forall_sorted_set, Forall_app. split; by apply Forall_concat_all.
Qed.
Lemma searching_alias md core l operation : searching (alias_memory_dependencies md core l operation) (Forall Q).
Proof.
  unfold alias_memory_dependencies. cbv zeta.
  assert (∀ w region, searching (entries ← memory_history_candidates w region l core (keeps_cross_core operation);
    depends_on_entries true region l core (keeps_cross_core operation) entries) (Forall Q)) as Ht.
  { intros w region. eapply searching_bind; [apply searching_candidates|]. intros entries He. by apply searching_entries. }
  eapply searching_bind; [apply searching_map; intros; apply Ht|]. intros rs Hrs. eapply searching_bind.
  - apply searching_map. intros region _. eapply searching_bind; [apply Ht|]. intros written Hw.
    eapply searching_bind; [apply Ht|]. intros read Hr. apply searching_ret. by apply Forall_app.
  - intros ws Hws. apply searching_ret, Forall_sorted_set, Forall_app. split; by apply Forall_concat_all.
Qed.
End searches.

(** ** Recording *)

(** Nothing but the caches and the histories changes. *)
Record outside (st st' : BridgeState) : Prop := {
  os_plan : same_plan st st';
  os_tasks : br_tasks st' = br_tasks st;
  os_counter : br_counter st' = br_counter st;
}.
#[export] Instance outside_preorder : PreOrder outside.
Proof. split; [done|]. intros a b c [] []. split; [by etrans|congruence..]. Qed.
Lemma cache_only_outside st st' : cache_only st st' → outside st st'.
Proof. intros []. by split. Qed.

Section recording.
Context (P : access → Prop).

Definition recording (m : bridgeM unit) : Prop :=
  ∀ st st' r, all_entries P st → m st = (st', r) → outside st st' ∧ all_entries P st'.

Lemma recording_bind {A} (m : bridgeM A) (f : A → bridgeM unit) (Q : A → Prop) :
  searching P m Q → (∀ a, Q a → recording (f a)) → recording (m ≫= f).
Proof.
  intros Hm Hf st st' r Hst H. unfold mbind, stM_bind in H. destruct (m st) as [st1 r1] eqn:E1.
  destruct (Hm _ _ _ Hst E1) as [C1 Q1].
  assert (all_entries P st1) as H1 by (by eapply all_entries_quiet; [apply cache_only_quiet|]).
  destruct r1 as [a|e]; [|injection H as <- <-; split; [by apply cache_only_outside|done]].
  destruct (Hf a (Q1 a eq_refl) st1 st' r H1 H) as [O2 H2]. split; [|done].
  etrans; [by apply cache_only_outside|done].
Qed.
Lemma recording_then (m : bridgeM unit) (f : unit → bridgeM unit) :
  recording m → recording (f tt) → recording (m ≫= f).
Proof.
  intros Hm Hf st st' r Hst H. unfold mbind, stM_bind in H. destruct (m st) as [st1 r1] eqn:E1.
  destruct (Hm _ _ _ Hst E1) as [O1 H1]. destruct r1 as [[]|e]; [|by injection H as <- <-].
  destruct (Hf st1 st' r H1 H) as [O2 H2]. split; [by etrans|done].
Qed.
Lemma recording_iter {A} (f : A → bridgeM unit) l : (∀ a, recording (f a)) → recording (st_iter f l).
Proof.
  intros Hf. induction l as [|a l IH]; cbn [st_iter]; [by intros st st' r Hst [= <- <-]|]. by apply recording_then.
Qed.

(** A bucket that is replaced by entries of the histories. *)
Lemma all_entries_replace w k es st :
  all_entries P st → Forall P es → all_entries P (set_history w (dset (history_of w st) k es) st).
Proof.
  intros Hst Hes w' k' e. rewrite bucket_set. case_decide; [|apply Hst]. rewrite Forall_forall in Hes. apply Hes.
Qed.
Lemma outside_set_history w h st : outside st (set_history w h st).
Proof. by destruct w. Qed.

Lemma recording_prune w region core key : recording (prune_bucket w region core key).
Proof.
  intros st st' r Hst H. unfold prune_bucket in H. unfold mbind, stM_bind at 1, st_get in H.
  assert (Forall P (dget_default [] (history_of w st) key)) as He by (apply Forall_forall; intros e; apply Hst).
  destruct (dget_default [] (history_of w st) key) as [|e0 es] eqn:Eb; [by injection H as <- <-|].
  match type of H with stM_bind _ _ ?f ?m st = _ => change ((m ≫= f) st = (st', r)) in H end.
  revert st st' r Hst H He Eb. generalize (e0 :: es) as entries. intros entries st st' r Hst H He _.
  unfold mbind, stM_bind at 1 in H. destruct (st_filter _ entries st) as [st1 r1] eqn:E1.
  destruct (searching_filter P (λ e, overlap ← regions_overlap region (ac_region e) core; mret (negb overlap)) entries
    ltac:(intros; eapply searching_bind; [apply searching_overlap|]; intros; by apply searching_ret) st st1 r1 Hst E1) as [C1 Q1].
  assert (all_entries P st1) as H1 by (by eapply all_entries_quiet; [apply cache_only_quiet|]).
  destruct r1 as [kept|e]; [|injection H as <- <-; split; [by apply cache_only_outside|done]].
  unfold stM_bind, st_get, st_put in H. injection H as <- <-. split.
  - etrans; [by apply cache_only_outside|apply outside_set_history].
  - apply all_entries_replace; [done|]. apply Forall_forall. intros e Hin. rewrite Forall_forall in He.
    apply He. by apply (Q1 kept eq_refl).
Qed.
Lemma recording_prune_history w region l core : recording (prune_history w region l core).
Proof.
  intros st st' r Hst H. unfold prune_history, mbind, stM_bind at 1, st_get in H. unfold stM_bind, st_lift in H.
  destruct (memory_history_keys st region l core true) as [keys|e]; [|by injection H as <- <-].
  by eapply (recording_iter _ keys (recording_prune w region core)).
Qed.
Lemma recording_append w region id l core : P (MkAccess region id l core) → recording (append_memory_history w region id l core).
Proof.
  intros Hnew st st' r Hst H. unfold append_memory_history, mbind, stM_bind, st_get, st_put in H. injection H as <- <-.
  set (key := memory_history_key region l core). set (st1 := if dmem (history_of w st) key then st else set_candidates [] st).
  assert (outside st st1 ∧ quiet st st1) as [O1 Q1].
  { unfold st1. destruct (dmem _ _); [done|]. split; [done|]. split; [done|]. by intros []. }
  assert (all_entries P st1) as H1 by by eapply all_entries_quiet.
  split; [etrans; [done|apply outside_set_history]|]. apply all_entries_replace; [done|].
  apply Forall_app. split; [|by constructor]. apply Forall_forall. intros e He. exact (H1 w key e He).
Qed.
Lemma recording_memory md id l core :
  (∀ region, P (MkAccess region id l core)) → recording (record_memory_accesses md id l core).
Proof.
  intros Hnew. apply recording_then.
  - apply recording_iter. intros region. unfold record_write.
    apply recording_then; [apply recording_prune_history|]. apply recording_then; [apply recording_prune_history|].
    by apply recording_append.
  - apply recording_iter. intros region. by apply recording_append.
Qed.
End recording.

(** ** One emission *)

Definition task_name (core : Z) (l : Lane) (k : Z) : string :=
  "c" +:+ pretty core +:+ "-" +:+ lane_value l +:+ "-" +:+ pretty k.

(** The state and the task after an emission, when every entry of the histories belongs to one of
    the tasks [known]. *)
Record emits (cx : Context) (md : dict string pyval) (extra known : list string) (st st' : BridgeState) (t : Task)
    : Prop := {
  em_name : ∃ l, task_id t = task_name (cx_core_id cx) l (br_counter st);
  em_core : core_id t = cx_core_id cx;
  em_ok : task_ok t;
  em_operands : same_operands md (metadata t);
  em_dependencies : ∀ d, d ∈ dependencies t → d ∈ known ∨ d ∈ extra;
  em_hardware : dget md "hardware_dependencies" = None →
    ∀ d, d ∈ UnitFlags.names_of (mget (metadata t) "hardware_dependencies") → d ∈ dependencies t;
  em_plan : same_plan st st';
  em_counter : br_counter st' = br_counter st + 1;
  em_tasks : br_tasks st' = dset (br_tasks st) (cx_core_id cx) (dget_default [] (br_tasks st) (cx_core_id cx) ++ [t]);
  em_entries : all_entries (λ e, ac_task e ∈ task_id t :: known) st';
}.

Lemma all_entries_mono (P Q : access → Prop) st : (∀ e, P e → Q e) → all_entries P st → all_entries Q st.
Proof. intros H Ha w k e He. eauto. Qed.
Lemma task_init_core id op core ln pn d deps stg meta t :
  task_init id op core ln pn d deps stg meta = Ok t → core_id t = core.
Proof. unfold task_init. intros H. inv_res. done. Qed.

Lemma names_of_ids ids : UnitFlags.names_of (task_ids ids) = ids.
Proof. unfold UnitFlags.names_of, task_ids. cbn [as_sequence]. induction ids as [|x ids IH]; [done|]. cbn. by rewrite IH. Qed.
(** The steps that complete the metadata do not name the edges of the hardware. *)
Lemma dget_dsetdefault_ne (d : dict string pyval) k k' v : k ≠ k' → dget (dsetdefault d k v) k' = dget d k'.
Proof. intros Hk. unfold dsetdefault. destruct (dget d k); [done|by apply dget_dset_ne]. Qed.
Lemma dget_set_if_any_ne key key' ids md : key ≠ key' → dget (set_if_any key ids md) key' = dget md key'.
Proof. intros Hk. destruct ids; [done|by apply dget_dset_ne]. Qed.
Lemma initial_hardware p cx l normalized md :
  dget (initial_metadata p cx l normalized md) "hardware_dependencies" = dget md "hardware_dependencies".
Proof.
  unfold initial_metadata. cbv zeta. rewrite !dget_dsetdefault_ne by done.
  destruct (cx_predicates cx); [|rewrite dget_dset_ne by done]; destruct (mem_str _ _); by rewrite ?dget_dsetdefault_ne.
Qed.
Lemma estimated_hardware p timing_key pi md d md' :
  estimated p timing_key pi md = Ok (d, md') → mget md' "hardware_dependencies" = mget md "hardware_dependencies".
Proof.
  unfold estimated, mget, dget_default. destruct p.
  - intros ([? ?] & _ & [= _ <-])%outcome_bind_ok. by rewrite dget_dset_ne.
  - intros (? & _ & [= _ <-])%outcome_bind_ok. done.
Qed.

Lemma emit_task_emits p name cx md extra known st st' t :
  all_entries (λ e, ac_task e ∈ known) st → emit_task p name cx md extra st = (st', Ok t) →
  emits cx md extra known st st' t.
Proof.
  intros Hst H. unfold emit_task in H.
  apply bindM_ok in H as (s0 & [[l pi] normalized] & Hpl & H). apply liftM_ok in Hpl as [-> _].
  apply bindM_ok in H as (s1 & id & Hid & H).
  unfold next_task_id, mbind, stM_bind, st_get, st_put, mret, stM_ret in Hid. cbn [fst snd] in Hid. injection Hid as <- Hid.
  fold (task_name (cx_core_id cx) l (br_counter st)) in Hid. subst id.
  set (s1 := MkBridge _ _ _ _ _ _ _ _) in H.
  set (meta := initial_metadata p cx l normalized md) in *.
  pose proof (initial_same p cx l normalized md) as E0. fold meta in E0.
  assert (all_entries (λ e, ac_task e ∈ known) s1) as H1 by exact Hst.
  apply bindM_ok in H as (s2 & found & Hm & H).
  destruct (searching_dependencies (λ e, ac_task e ∈ known) (λ x, x ∈ known) (λ e He, He) _ _ _ _ _ _ _ H1 Hm) as [C2 Hfound].
  specialize (Hfound found eq_refl).
  assert (all_entries (λ e, ac_task e ∈ known) s2) as H2 by (by eapply all_entries_quiet; [apply cache_only_quiet|]).
  apply bindM_ok in H as (s3 & aliased & Ha & H).
  destruct (searching_alias (λ e, ac_task e ∈ known) (λ x, x ∈ known) (λ e He, He) _ _ _ _ _ _ _ H2 Ha) as [C3 _].
  assert (all_entries (λ e, ac_task e ∈ known) s3) as H3 by (by eapply all_entries_quiet; [apply cache_only_quiet|]).
  apply bindM_ok in H as (s4 & [d meta'] & He & H). apply liftM_ok in He as [-> He].
  apply estimated_hardware in He as Ehw. apply estimated_same in He as E1.
  apply bindM_ok in H as (s5 & t' & Ht & H). apply liftM_ok in Ht as [-> Ht].
  pose proof (task_init_ok _ _ _ _ _ _ _ _ _ _ Ht) as Hok. pose proof (task_init_core _ _ _ _ _ _ _ _ _ _ Ht) as Hcore.
  apply task_init_fields in Ht as (Hti & Hto & Htd & Htm).
  apply bindM_ok in H as (s6 & [] & Happ & H).
  unfold append_task, mbind, stM_bind, st_get, st_put in Happ. cbn [fst snd] in Happ. injection Happ as <-.
  set (s6 := MkBridge _ _ _ _ _ _ _ _) in H.
  assert (all_entries (λ e, ac_task e ∈ task_id t' :: known) s6) as H6.
  { eapply (all_entries_mono _ _ s3); [|exact H3]. intros e. by right. }
  apply bindM_ok in H as (s7 & [] & Hrec & H). injection H as -> ->. rewrite <- Hti in Hrec.
  eapply (recording_memory (λ e, ac_task e ∈ task_id t :: known)) in Hrec as [O7 H7]; [|intros; by left|exact H6].
  assert (outside s1 s3) as O3 by (etrans; by apply cache_only_outside).
  split; try done.
  - by exists l.
  - rewrite Htm. etrans; [|exact E1]. do 3 (etrans; [|apply same_operands_set_if_any; set_solver]). done.
  - intros x. rewrite Htd, sorted_set_elem, elem_of_app. rewrite Forall_forall in Hfound. naive_solver.
  - intros Hnone x. rewrite Htm, Ehw, Htd, sorted_set_elem.
    set (md2 := set_if_any "alias_memory_dependencies" aliased _).
    assert (dget md2 "hardware_dependencies" = None) as Hn.
    { unfold md2. rewrite !dget_set_if_any_ne by done. unfold meta. by rewrite initial_hardware. }
    destruct (sorted_set _) as [|x0 ids] eqn:Es; cbn [set_if_any]; unfold mget, dget_default;
      [rewrite Hn; cbn; set_solver|]. rewrite dget_dset_eq. change (default VNone (Some ?v)) with v. rewrite names_of_ids, <- Es, sorted_set_elem, !elem_of_app.
    destruct (keeps_cross_core normalized); set_solver.
  - etrans; [apply (os_plan _ _ O3)|apply (os_plan _ _ O7)].
  - rewrite (os_counter _ _ O7). unfold s6. cbn [br_counter]. by rewrite (os_counter s1 s3).
  - rewrite (os_tasks _ _ O7). unfold s6. cbn [br_tasks]. by rewrite (os_tasks s1 s3).
Qed.

(** ** Identifiers *)

(** What follows the first dash. *)
Fixpoint after_dash (s : string) : string :=
  match s with
  | "" => ""
  | String c s => if bool_decide (c = "-"%char) then s else after_dash s
  end.
Fixpoint dashless (s : string) : bool :=
  match s with
  | "" => true
  | String c s => negb (bool_decide (c = "-"%char)) && dashless s
  end.
Lemma after_dash_app a b : dashless a = true → after_dash (a +:+ "-" +:+ b) = b.
Proof.
  induction a as [|c a IH]; [done|]. cbn [dashless]. intros [Hc Ha]%andb_true_iff. cbn [String.app after_dash].
  change (String c a +:+ "-" +:+ b) with (String c (a +:+ "-" +:+ b)). cbn [after_dash].
  destruct (bool_decide _); [done|]. by apply IH.
Qed.
Lemma dashless_app a b : dashless a = true → dashless b = true → dashless (a +:+ b) = true.
Proof.
  induction a as [|c a IH]; [done|]. cbn [dashless]. intros [Hc Ha]%andb_true_iff Hb.
  change (dashless (String c (a +:+ b)) = true). cbn [dashless]. rewrite Hc. by apply IH.
Qed.
Lemma dashless_digits x s : dashless s = true → dashless (pretty_N_go x s) = true.
Proof.
  revert s. induction (N.lt_wf_0 x) as [x _ IH]; intros s Hs.
  destruct (decide (x = 0)%N) as [->|Hx]; [by rewrite pretty_N_go_0|].
  rewrite pretty_N_go_step by lia. apply IH; [apply N.div_lt; lia|]. cbn [dashless]. rewrite Hs.
  unfold pretty_N_char. by repeat case_match.
Qed.
Lemma dashless_pretty z : 0 <= z → dashless (pretty z) = true.
Proof.
  intros Hz. destruct z as [|p|p]; [done| |lia]. unfold pretty, pretty_Z, pretty, pretty_positive, pretty, pretty_N.
  case_decide; [done|]. by apply dashless_digits.
Qed.
Lemma task_name_inj core l k core' l' k' :
  0 <= core → 0 <= core' → task_name core l k = task_name core' l' k' → k = k'.
Proof.
  intros Hc Hc' H. apply (f_equal after_dash) in H. unfold task_name in H.
  assert (∀ a b : string, "c" +:+ a +:+ b = ("c" +:+ a) +:+ b) as Ha by done.
  rewrite !Ha in H. rewrite !after_dash_app in H by (apply dashless_app; [done|by apply dashless_pretty]).
  assert (∀ x, dashless (lane_value x) = true) as Hl by by intros [].
  apply (f_equal after_dash) in H. rewrite !after_dash_app in H by done. by apply (inj pretty) in H.
Qed.
