(* ===== verification/VisitInvariant.v ===== *)
(** The invariant of the traversal of [bridge.py], a program logic for its steps, and the proof
    that every step keeps it: the tasks emitted so far come in the order of their identifiers,
    with edges to earlier tasks only and with their regions in declared buffers. *)

From stdpp Require Import pretty.
From S2P Require Import Prelude PyDict PySort PyStr Errors Layout Values Program Intervals.
From S2P Require Import MemoryView Timing PyNum ExecEnv LinearTiming MeasuredA2 RegionOverlap.
From S2P Require Import BridgeOps BridgeMemory BridgeCache BridgeDeps BridgeExpr BridgeRegions.
From S2P Require Import DecodeCopy DecodeMatrix BridgeDispatch BridgeVisit UnitFlags DecodeSound.
From S2P Require Import BridgeEmit.
Local Open Scope string_scope.
Local Open Scope Z_scope.
Local Open Scope list_scope.

(** ** The invariant *)

(** The names that tiled multiplications reserve for their slots, and the scope of each: the
    letter before the number of the slot. *)
Definition SLOT_PREFIX : string := "__sim_gemm_".
Definition slot_scope (name : string) : MemoryScope :=
  if bool_decide (String.get (String.length name - 3) name = Some (Ascii.Ascii true false false false false true true false))
  then L0A else L0B.

Record buffers_ok (b : BridgeState) : Prop := {
  bo_keys : NoDup (dkeys (br_buffers b));
  bo_names : ∀ n spec, dget (br_buffers b) n = Some spec → bs_name spec = n;
  bo_plain : plain_buffers b;
  bo_slots : ∀ n spec, dget (br_buffers b) n = Some spec → startswith SLOT_PREFIX n = true → bs_scope spec = slot_scope n;
}.

(** The regions that a task of a core names. *)
Definition operands_placed (b : BridgeState) (core : Z) (md : dict string pyval) : Prop :=
  ∀ r, r ∈ reads_of md ++ writes_of md → region_placed b core r.

(** The tasks [log] were emitted in this order. *)
Record traced (log : list Task) (b : BridgeState) : Prop := {
  tr_counter : br_counter b = Z.of_nat (length log);
  tr_tasks : ∀ core, dget_default [] (br_tasks b) core = filter (λ t, core_id t = core) log;
  tr_keys : NoDup (dkeys (br_tasks b));
  tr_cores : ∀ core, core ∈ dkeys (br_tasks b) → 0 ≤ core;
  tr_ok : ∀ t, t ∈ log → task_ok t;
  tr_names : ∀ i t, log !! i = Some t → ∃ l, task_id t = task_name (core_id t) l (Z.of_nat i);
  tr_edges : ∀ i t d, log !! i = Some t → d ∈ dependencies t →
    ∃ j u, (j < i)%nat ∧ log !! j = Some u ∧ task_id u = d;
  tr_placed : ∀ t, t ∈ log → operands_placed b (core_id t) (metadata t);
  tr_hardware : ∀ t d, t ∈ log → d ∈ UnitFlags.names_of (mget (metadata t) "hardware_dependencies") → d ∈ dependencies t;
  tr_entries : all_entries (λ e, ac_task e ∈ task_id <$> log) b;
}.

(** ** Growth *)

(** Buffers come, and keep their scope. *)
Definition grows (b b' : BridgeState) : Prop :=
  ∀ n spec, dget (br_buffers b) n = Some spec →
    ∃ spec', dget (br_buffers b') n = Some spec' ∧ bs_scope spec' = bs_scope spec.
#[export] Instance grows_preorder : PreOrder grows.
Proof.
  split; [by intros b n spec; eauto|]. intros a b c H1 H2 n spec Hg.
  destruct (H1 _ _ Hg) as (s1 & Hg1 & E1). destruct (H2 _ _ Hg1) as (s2 & Hg2 & E2). exists s2. split; [done|congruence].
Qed.
Lemma grows_same b b' : br_buffers b' = br_buffers b → grows b b'.
Proof. intros E n spec Hg. rewrite E. eauto. Qed.
Lemma grows_only b b' : only_buffers b b' → grows b b'.
Proof.
  intros H n spec Hg. pose proof (ob_specs _ _ H n) as Hs. rewrite Hg in Hs.
  destruct (dget (br_buffers b') n) as [spec'|]; [|done]. cbn in Hs. exists spec'. split; [done|]. unfold spec_key in Hs. congruence.
Qed.

Lemma placed_grows b b' core r : grows b b' → region_placed b core r → region_placed b' core r.
Proof.
  intros H (spec & Hg & Hs & Hc). destruct (H _ _ Hg) as (spec' & Hg' & E). exists spec'. by rewrite E.
Qed.
Lemma operands_grows b b' core md : grows b b' → operands_placed b core md → operands_placed b' core md.
Proof. intros H Hm r Hr. eapply placed_grows; [done|]. by apply Hm. Qed.
Lemma value_grows b b' core (v : pyval) : grows b b' → good b core v → good b' core v.
Proof.
  intros H. destruct v; cbn [good good_value value_placed]; try done; try (intros Hv r Hr; eapply placed_grows; [done|by apply Hv]).
  by apply placed_grows.
Qed.

Definition world : Type := list Task * BridgeState.
Definition sane (w : world) : Prop := traced w.1 w.2 ∧ buffers_ok w.2.
Record later (w w' : world) : Prop := {
  lt_log : w.1 `prefix_of` w'.1;
  lt_grows : grows w.2 w'.2;
}.
#[export] Instance later_preorder : PreOrder later.
Proof. split; [done|]. intros a b c [] []. split; by etrans. Qed.

Lemma traced_frame log b b' :
  br_counter b' = br_counter b → br_tasks b' = br_tasks b → br_writes b' = br_writes b → br_reads b' = br_reads b →
  grows b b' → traced log b → traced log b'.
Proof.
  intros Ec Et Ew Er Hg []. split; try done; try congruence.
  - intros core. by rewrite Et.
  - intros core. rewrite Et. auto.
  - intros t Ht. eapply operands_grows; [done|auto].
  - intros w k e He. apply (tr_entries0 w k e). unfold bucket, history_of in *. by destruct w; rewrite ?Ew, ?Er in He.
Qed.
Lemma buffers_ok_same b b' : br_buffers b' = br_buffers b → buffers_ok b → buffers_ok b'.
Proof. intros E []. split; unfold plain_buffers in *; rewrite E; done. Qed.

(** ** The logic *)

(** From the world [w] the step reaches a later one, in which its answer satisfies [Q]; or it
    raises an exception other than that of a loop break. *)
Definition visits {A} (w : world) (m : visitM A) (Q : world → A → Prop) : Prop :=
  ∀ s s' r, vs_bridge s = w.2 → sane w → m s = (s', r) →
    (∃ e, r = Raise (Stopped e)) ∨
    ∃ w', later w w' ∧ sane w' ∧ vs_bridge s' = w'.2 ∧ ∀ a, r = Ok a → Q w' a.
Definition fine {A} : world → A → Prop := λ _ _, True.

Lemma visits_quiet {A} w (m : visitM A) (Q : world → A → Prop) :
  (∀ s s' r, vs_bridge s = w.2 → sane w → m s = (s', r) → vs_bridge s' = vs_bridge s ∧ ∀ a, r = Ok a → Q w a) →
  visits w m Q.
Proof.
  intros Hm s s' r Hs Hw H. right. exists w. destruct (Hm s s' r Hs Hw H) as [E Ha].
  split; [done|]. split; [done|]. split; [congruence|done].
Qed.
Lemma visits_ret {A} w (a : A) (Q : world → A → Prop) : Q w a → visits w (mret a) Q.
Proof. intros Ha. apply visits_quiet. intros s s' r _ _ [= <- <-]. split; [done|]. by intros ? [= <-]. Qed.
Lemma visits_outcome {A} w (m : result A) (Q : world → A → Prop) :
  (∀ a, m = Ok a → Q w a) → visits w (of_outcome m) Q.
Proof.
  intros Ha. apply visits_quiet. intros s s' r _ _ [= <- <-]. split; [done|]. destruct m; [|done]. intros ? [= <-]. by apply Ha.
Qed.
Lemma visits_stops {A} w c label (Q : world → A → Prop) : visits w (stops c label) Q.
Proof. intros s s' r _ _ [= <- <-]. left. by eexists. Qed.
Lemma visits_break {A} w (Q : world → A → Prop) : visits w (st_raise LoopBreak) Q.
Proof. apply visits_quiet. by intros s s' r _ _ [= <- <-]. Qed.
Lemma visits_or_stop {A} w (v : option A) c label (Q : world → A → Prop) :
  (∀ a, v = Some a → Q w a) → visits w (or_stop v c label) Q.
Proof. intros Ha. destruct v; [apply visits_ret; by apply Ha|apply visits_stops]. Qed.
Lemma visits_demand w b c label (Q : world → unit → Prop) : Q w tt → visits w (demand b c label) Q.
Proof. intros Ha. destruct b; [by apply visits_ret|apply visits_stops]. Qed.
Lemma visits_modify w f : (∀ s, vs_bridge (f s) = vs_bridge s) → visits w (modify f) fine.
Proof. intros Hf. apply visits_quiet. intros s s' r _ _ [= <- <-]. split; [apply Hf|done]. Qed.
Lemma visits_bind {A B} w (m : visitM A) (f : A → visitM B) Q R :
  visits w m Q → (∀ w' a, later w w' → Q w' a → visits w' (f a) R) → visits w (m ≫= f) R.
Proof.
  intros Hm Hf s s' r Hs Hw H. unfold mbind, stM_bind in H. destruct (m s) as [s1 r1] eqn:E1.
  destruct (Hm _ _ _ Hs Hw E1) as [[e ->]|(w1 & L1 & S1 & B1 & Q1)]; [injection H as <- <-; left; by eexists|].
  destruct r1 as [a|e].
  - destruct (Hf w1 a L1 (Q1 a eq_refl) s1 s' r B1 S1 H) as [?|(w2 & L2 & S2 & B2 & Q2)]; [by left|].
    right. exists w2. split; [by etrans|done].
  - injection H as <- <-. right. exists w1. done.
Qed.
Lemma visits_get {A} w (f : Visit → visitM A) Q : (∀ s, vs_bridge s = w.2 → visits w (f s) Q) → visits w (st_get ≫= f) Q.
Proof. intros Hf s s' r Hs Hw H. exact (Hf s Hs s s' r Hs Hw H). Qed.
Lemma visits_weaken {A} w (m : visitM A) (Q R : world → A → Prop) :
  (∀ w' a, later w w' → Q w' a → R w' a) → visits w m Q → visits w m R.
Proof.
  intros HQ Hm s s' r Hs Hw H. destruct (Hm s s' r Hs Hw H) as [?|(w1 & L1 & S1 & B1 & Q1)]; [by left|].
  right. exists w1. split_and!; try done. intros a Ha. apply HQ; auto.
Qed.
Lemma visits_fine {A} w (m : visitM A) Q : visits w m Q → visits w m fine.
Proof. by apply visits_weaken. Qed.
Lemma visits_map {A B} w (f : A → visitM B) l (Q : world → B → Prop) :
  (∀ w1 w2 b, later w1 w2 → Q w1 b → Q w2 b) → (∀ a w', a ∈ l → later w w' → visits w' (f a) Q) →
  visits w (st_map f l) (λ w', Forall (Q w')).
Proof.
  intros Hmono. revert w. induction l as [|a l IH]; intros w Hf; [apply visits_ret; constructor|].
  change (visits w (b ← f a; bs ← st_map f l; mret (b :: bs)) (λ w', Forall (Q w'))).
  eapply visits_bind; [apply Hf; [by left|done]|]. intros w1 b L1 Hb.
  eapply visits_bind; [apply IH; intros; apply Hf; [by right|by etrans]|]. intros w2 bs L2 Hbs. apply visits_ret.
  constructor; [by eapply Hmono|done].
Qed.
Lemma visits_each {A} w (f : A → visitM unit) l :
  (∀ a w', a ∈ l → later w w' → visits w' (f a) fine) → visits w (each f l) fine.
Proof.
  revert w. induction l as [|a l IH]; intros w Hf; [by apply visits_ret|].
  change (visits w (_ ← f a; each f l) fine). eapply visits_bind; [apply Hf; [by left|done]|].
  intros w1 [] L1 _. apply IH. intros. apply Hf; [by right|by etrans].
Qed.
Lemma visits_until_break {A} w (f : A → visitM unit) l :
  (∀ a w', a ∈ l → later w w' → visits w' (f a) fine) → visits w (each_until_break f l) fine.
Proof.
  revert w. induction l as [|a l IH]; intros w Hf; [by apply visits_ret|].
  intros s s' r Hs Hw H. cbn [each_until_break] in H. fold (each_until_break f) in H.
  destruct (f a s) as [s1 r1] eqn:E1.
  destruct (Hf a w ltac:(by left) ltac:(done) s s1 r1 Hs Hw E1) as [[e ->]|(w1 & L1 & S1 & B1 & _)].
  { injection H as <- <-. left. by eexists. }
  destruct r1 as [[]|[|e]].
  - destruct (IH w1 ltac:(intros; apply Hf; [by right|by etrans]) s1 s' r B1 S1 H) as [?|(w2 & L2 & S2 & B2 & _)]; [by left|].
    right. exists w2. split; [by etrans|done].
  - injection H as <- <-. right. by exists w1.
  - injection H as <- <-. left. by eexists.
Qed.
(** A step of emission that ends in a later world. *)
Lemma visits_emission {A} w (m : bridgeM A) (Q : world → A → Prop) :
  (∀ b' a, sane w → m w.2 = (b', Ok a) → ∃ log, later w (log, b') ∧ sane (log, b') ∧ Q (log, b') a) →
  visits w (emission m) Q.
Proof.
  intros Hm s s' r Hs Hw H. unfold emission in H. rewrite Hs in H. destruct (m w.2) as [b' [a|e]] eqn:E; injection H as <- <-.
  - right. destruct (Hm b' a Hw eq_refl) as (log & L & S & Ha). exists (log, b'). split_and!; try done. by intros ? [= <-].
  - left. by eexists.
Qed.
(** Steps that leave the world as it is. *)
Lemma visits_outcome_bind {A B} w (m : result A) (f : A → visitM B) Q :
  (∀ a, m = Ok a → visits w (f a) Q) → visits w (of_outcome m ≫= f) Q.
Proof.
  intros Hf s s' r Hs Hw H. unfold mbind, stM_bind, of_outcome, st_lift in H. destruct m as [a|e].
  - exact (Hf a eq_refl s s' r Hs Hw H).
  - injection H as <- <-. left. by eexists.
Qed.
Lemma visits_or_stop_bind {A B} w (v : option A) c label (f : A → visitM B) Q :
  (∀ a, v = Some a → visits w (f a) Q) → visits w (or_stop v c label ≫= f) Q.
Proof.
  intros Hf s s' r Hs Hw H. destruct v as [a|]; [exact (Hf a eq_refl s s' r Hs Hw H)|].
  injection H as <- <-. left. by eexists.
Qed.
Lemma visits_demand_bind {B} w b c label (f : unit → visitM B) Q :
  (b = true → visits w (f tt) Q) → visits w (demand b c label ≫= f) Q.
Proof.
  intros Hf s s' r Hs Hw H. destruct b; [exact (Hf eq_refl s s' r Hs Hw H)|]. injection H as <- <-. left. by eexists.
Qed.
Lemma visits_ret_bind {A B} w (a : A) (f : A → visitM B) Q : visits w (f a) Q → visits w (mret a ≫= f) Q.
Proof. done. Qed.
Lemma visits_put w s : (sane w → ∃ log, later w (log, vs_bridge s) ∧ sane (log, vs_bridge s)) → visits w (st_put s) fine.
Proof.
  intros Hp s0 s' r Hs Hw [= <- <-]. right. destruct (Hp Hw) as (log & L & S). by exists (log, vs_bridge s).
Qed.

(** ** Buffers *)

(** Adding or replacing a buffer. *)
Lemma sane_set_buffer w name spec :
  sane w → bs_name spec = name → plain_shape spec →
  (startswith SLOT_PREFIX name = true → bs_scope spec = slot_scope name) →
  (∀ old, dget (br_buffers w.2) name = Some old → bs_scope spec = bs_scope old) →
  let b := set_buffers (dset (br_buffers w.2) name spec) w.2 in later w (w.1, b) ∧ sane (w.1, b).
Proof.
  intros [Ht Hb] Hn Hp Hs Hold b.
  assert (grows w.2 b) as Hg.
  { intros n old Ho. cbn. rewrite dget_dset. case_decide; [subst n|by eauto]. exists spec. split; [done|]. by apply Hold. }
  split; [by split|]. split; [by apply (traced_frame _ w.2)|]. split; cbn.
  - apply NoDup_dkeys_dset, Hb.
  - intros n s. rewrite dget_dset. case_decide; [by intros [= <-]; subst|apply (bo_names _ Hb)].
  - intros n s. cbn. rewrite dget_dset. case_decide; [by intros [= <-]|apply (bo_plain _ Hb)].
  - intros n s. rewrite dget_dset. case_decide; [by intros [= <-]; subst|apply (bo_slots _ Hb)].
Qed.

Lemma buffer_spec_init_fields name scope shape dtype size address lifetime md spec :
  buffer_spec_init name (scope_value scope) shape dtype size address lifetime md = Ok spec →
  bs_name spec = name ∧ bs_scope spec = scope ∧ plain_shape spec.
Proof.
  unfold buffer_spec_init. rewrite parse_scope_value. intros H. inv_res. split; [done|]. split; [done|].
  unfold plain_shape. cbn [bs_shape]. apply Forall_forall. intros v Hv%list_elem_of_In.
  match goal with H : forallb _ _ = true |- _ => rewrite forallb_forall in H; by apply H end.
Qed.

Lemma sane_same w b :
  sane w → br_buffers b = br_buffers w.2 → br_counter b = br_counter w.2 → br_tasks b = br_tasks w.2 →
  br_writes b = br_writes w.2 → br_reads b = br_reads w.2 → later w (w.1, b) ∧ sane (w.1, b).
Proof.
  intros [Ht Hb] E ????. assert (grows w.2 b) by by apply grows_same. split; [by split|].
  split; [by eapply traced_frame|by eapply buffers_ok_same].
Qed.

(** The names of the buffers that a statement declares. *)
Fixpoint declared (s : stmt) : list string :=
  match s with
  | SSeq l => flat_map declared l
  | SAttr _ _ _ body | SFor _ _ _ body | SLet _ _ body | SDecl body | SAssert _ body => declared body
  | SRealize block => declared block
  | SIf _ then_case else_case => declared then_case ++ match else_case with Some s => declared s | None => [] end
  | SAllocate var _ _ _ body => v_name var :: declared body
  | SBlock buffers init body =>
      (tb_name <$> buffers) ++ match init with Some s => declared s | None => [] end ++ declared body
  | SEvaluate _ | SStore _ _ _ | SOther _ => []
  end.
(** No declared buffer is named like a slot of a tiled multiplication. *)
Definition no_slot (names : list string) : Prop := ∀ n, n ∈ names → startswith SLOT_PREFIX n = false.

Lemma no_slot_app l l' : no_slot (l ++ l') → no_slot l ∧ no_slot l'.
Proof. intros H. split; intros n Hn; apply H, elem_of_app; tauto. Qed.
Section bridge.
Context {TVM : Tvm} {NODES : TvmNodes} (depth : nat) (profile : MeasuredWithFallback + TimingProfile) (limit : Z).

Lemma visits_declare w name data scope shape dtype :
  startswith SLOT_PREFIX name = false → visits w (declare name data scope shape dtype) fine.
Proof.
  intros Hn. unfold declare. apply visits_get. intros s Hs. apply visits_outcome_bind. intros spec Hspec.
  apply buffer_spec_init_fields in Hspec as (Hname & Hscope & Hplain).
  apply visits_put. intros Hw. exists w.1. cbn [vs_bridge set_names set_bridge]. rewrite Hs.
  destruct (dmem (br_buffers w.2) name) eqn:Em; [by apply sane_same|].
  apply dmem_false in Em. apply sane_set_buffer; try done; [by rewrite Hn|by rewrite Em].
Qed.
Lemma visits_shape w extents e : visits w (shape_under depth extents e) fine.
Proof. unfold shape_under. apply visits_get. intros s _. by apply visits_outcome. Qed.
Lemma visits_integer w e cx what : visits w (integer depth e cx what) fine.
Proof. by apply visits_outcome. Qed.
Lemma visits_runtime w e cx : visits w (runtime depth e cx) (λ _ _, True).
Proof. unfold runtime. apply visits_get. intros s _. by apply visits_outcome. Qed.

Lemma visits_plan w f : visits w (collect_memory_plan depth f) fine.
Proof.
  assert (∀ attribute w0 entries, visits w0 (st_map (plan_entry depth attribute) entries) fine) as Hp.
  { intros attribute w0 entries. eapply visits_fine, (visits_map _ _ _ fine); [done|]. intros e w1 _ _.
    apply visits_outcome_bind. intros z _. apply visits_or_stop_bind. intros a _. by apply visits_ret. }
  unfold collect_memory_plan. eapply visits_bind; [apply Hp|]. intros w1 addresses _ _.
  eapply visits_bind; [apply Hp|]. intros w2 sizes _ _. eapply visits_bind.
  { eapply visits_fine, (visits_map _ _ _ fine); [done|]. intros e w3 _ _.
    apply visits_outcome_bind. intros z _. by apply visits_ret. }
  intros w3 shapes _ _. by apply visits_modify.
Qed.
Lemma visits_parameter w b : startswith SLOT_PREFIX (tb_name b) = false → visits w (collect_parameter depth b) fine.
Proof.
  intros Hn. unfold collect_parameter. eapply visits_bind; [apply visits_shape|]. intros. by apply visits_declare.
Qed.
Lemma visits_allocate w var annotation dtype extents cx :
  startswith SLOT_PREFIX (v_name var) = false → visits w (collect_allocate depth var annotation dtype extents cx) fine.
Proof.
  intros Hn. unfold collect_allocate. apply visits_get. intros s _.
  eapply (visits_bind _ _ _ fine); [destruct (dget (vs_scopes s) (v_name var)); [by apply visits_ret|by apply visits_outcome]|].
  intros w1 scope _ _. eapply visits_bind; [apply visits_shape|]. intros. by apply visits_declare.
Qed.
Lemma visits_block_buffer w cx b :
  startswith SLOT_PREFIX (tb_name b) = false → visits w (collect_block_buffer depth cx b) fine.
Proof.
  intros Hn. unfold collect_block_buffer. eapply visits_bind; [apply visits_shape|]. intros w1 shape _ _.
  apply visits_outcome_bind. intros scope _. by apply visits_declare.
Qed.

(** ** Emission *)

(** Metadata whose values are good names placed regions only. *)
Lemma good_operands b core (md : dict string pyval) : good b core md → operands_placed b core md.
Proof.
  intros Hmd. assert (∀ names r, r ∈ operand_regions md names → region_placed b core r) as H.
  { intros names r (name & _ & Hr)%list_elem_of_In%in_flat_map. apply list_elem_of_In in Hr.
    pose proof (good_mget _ _ _ name Hmd) as Hv. destruct (_ && _); [set_solver|].
    destruct (mget md name); try (by apply elem_of_nil in Hr);
      try (apply list_elem_of_omap in Hr as (v & Hin & E); destruct v; try done; injection E as ->; by apply Hv).
    apply list_elem_of_singleton in Hr. by subst. }
  intros r [Hr|Hr]%elem_of_app; by eapply H.
Qed.
Lemma traced_emits log b b' cx md extra t :
  traced log b → emits cx md extra (task_id <$> log) b b' t → (∀ d, d ∈ extra → d ∈ task_id <$> log) →
  operands_placed b (cx_core_id cx) md → dget md "hardware_dependencies" = None → traced (log ++ [t]) b'.
Proof.
  intros Ht He Hextra Hmd Hhw. destruct (em_name _ _ _ _ _ _ _ He) as [l Hname]. pose proof (em_core _ _ _ _ _ _ _ He) as Hcore.
  assert (grows b b') as Hg by (apply grows_same, (em_plan _ _ _ _ _ _ _ He)).
  assert (∀ i u, (log ++ [t]) !! i = Some u → log !! i = Some u ∨ (i = length log ∧ u = t)) as Hin.
  { intros i u [Hi|[Hle Hi]]%lookup_app_Some; [by left|right]. apply list_lookup_singleton_Some in Hi as [Hi ->]. split; [lia|done]. }
  split.
  - rewrite (em_counter _ _ _ _ _ _ _ He), (tr_counter _ _ Ht), length_app. cbn [length]. lia.
  - intros core. rewrite (em_tasks _ _ _ _ _ _ _ He), filter_app, filter_cons, filter_nil. unfold dget_default at 1.
    rewrite dget_dset. case_decide as Hc.
    + subst core. rewrite (tr_tasks _ _ Ht). by rewrite decide_True.
    + fold (dget_default [] (br_tasks b) core). rewrite (tr_tasks _ _ Ht), decide_False by congruence. by rewrite app_nil_r.
  - rewrite (em_tasks _ _ _ _ _ _ _ He). apply NoDup_dkeys_dset, (tr_keys _ _ Ht).
  - intros core. rewrite (em_tasks _ _ _ _ _ _ _ He), dkeys_dset. destruct (dmem _ _); [apply (tr_cores _ _ Ht)|].
    intros [Hc| ->%list_elem_of_singleton]%elem_of_app; [by apply (tr_cores _ _ Ht)|].
    rewrite <- Hcore. apply (to_core _ (em_ok _ _ _ _ _ _ _ He)).
  - intros u [Hu| ->%list_elem_of_singleton]%elem_of_app; [by apply (tr_ok _ _ Ht)|apply (em_ok _ _ _ _ _ _ _ He)].
  - intros i u [Hi|[-> ->]]%Hin; [by apply (tr_names _ _ Ht)|]. exists l. by rewrite Hname, Hcore, (tr_counter _ _ Ht).
  - intros i u d [Hi|[-> ->]]%Hin Hd.
    + destruct (tr_edges _ _ Ht i u d Hi Hd) as (j & v & Hj & Hv & E). exists j, v. split; [done|]. split; [by apply lookup_app_l_Some|done].
    + assert (d ∈ task_id <$> log) as (v & -> & Hv)%list_elem_of_fmap.
      { destruct (em_dependencies _ _ _ _ _ _ _ He d Hd); auto. }
      apply list_elem_of_lookup in Hv as [j Hj]. exists j, v. split; [by eapply lookup_lt_Some|]. split; [by apply lookup_app_l_Some|done].
  - intros u [Hu| ->%list_elem_of_singleton]%elem_of_app; [eapply operands_grows; [done|by apply (tr_placed _ _ Ht)]|].
    rewrite Hcore. eapply operands_grows; [done|]. intros r. pose proof (em_operands _ _ _ _ _ _ _ He) as Hs.
    rewrite (reads_of_same md), (writes_of_same md) by done. apply Hmd.
  - intros u d [Hu| ->%list_elem_of_singleton]%elem_of_app; [by apply (tr_hardware _ _ Ht)|by apply (em_hardware _ _ _ _ _ _ _ He)].
  - eapply all_entries_mono; [|apply (em_entries _ _ _ _ _ _ _ He)]. intros e. rewrite fmap_app. cbn. set_solver.
Qed.
Lemma visits_emit w operation cx md extra :
  good w.2 (vc_core cx) md → (∀ d, d ∈ extra → d ∈ task_id <$> w.1) →
  visits w (emit profile operation cx md extra) (λ w' t, task_id t ∈ task_id <$> w'.1).
Proof.
  intros Hgood Hextra. pose proof (good_operands _ _ _ Hgood) as Hmd. apply visits_emission. intros b' t [Ht Hb] H. apply (emit_task_emits _ _ _ _ _ (task_id <$> w.1)) in H; [|apply Ht].
  exists (w.1 ++ [t]). assert (br_buffers b' = br_buffers w.2) as E by apply (em_plan _ _ _ _ _ _ _ H).
  split; [split; [by eexists|by apply grows_same]|]. split; [split; [eapply traced_emits; try done; by eapply good_hardware|by eapply buffers_ok_same]|].
  cbn. rewrite fmap_app. set_solver.
Qed.

Lemma good_md_grows b b' core (md : dict string pyval) : grows b b' → good b core md → good b' core md.
Proof.
  intros Hg Hmd. apply good_all. intros [k v] Hin. rewrite good_all in Hmd. destruct (Hmd _ Hin) as [Hk Hv].
  split; [done|]. by eapply value_grows.
Qed.

(** ** Scalar stores *)

Lemma visits_index_offsets w cx l offset : visits w (index_offsets depth cx l offset) fine.
Proof.
  revert w offset. induction l as [|[i [extent stride]] l IH]; intros w offset; [by apply visits_ret|].
  change (visits w (o ← index_offset depth cx offset (i, (extent, stride)); index_offsets depth cx l o) fine).
  eapply (visits_bind _ _ _ fine); [|intros; apply IH]. eapply visits_bind; [apply visits_runtime|]. intros w1 v _ _.
  apply visits_or_stop_bind. intros a _. apply visits_demand_bind. intros _. by apply visits_outcome.
Qed.
Lemma visits_integers w es cx what : visits w (st_map (λ e, integer depth e cx what) es) fine.
Proof. eapply visits_fine, (visits_map _ _ _ fine); [done|]. intros. apply visits_integer. Qed.
Lemma placed_init b core spec name shape dtype offset strides r :
  dget (br_buffers b) name = Some spec →
  buffer_region_init name (scope_value (bs_scope spec)) shape dtype offset strides
    (if shared_scope (bs_scope spec) then None else Some core) = Ok r → region_placed b core r.
Proof. intros Hg (Hb & Hs & Hc)%region_init_fields. exists spec. by rewrite Hb. Qed.
Lemma visits_scalar_region w cx load :
  visits w (scalar_buffer_region depth cx load) (λ w' r, region_placed w'.2 (vc_core cx) r).
Proof.
  destruct load as [buffer indices]. unfold scalar_buffer_region. apply visits_get. intros s _.
  apply visits_or_stop_bind. intros name _. eapply visits_bind; [apply visits_integers|]. intros w1 shape _ _.
  eapply (visits_bind _ _ _ fine).
  { destruct (tb_strides buffer); [|apply visits_integers]. apply visits_outcome_bind. intros. by apply visits_ret. }
  intros w2 strides _ _. apply visits_demand_bind. intros _. eapply visits_bind; [apply visits_runtime|]. intros w3 offset _ _.
  apply visits_or_stop_bind. intros o _. eapply visits_bind; [apply visits_index_offsets|]. intros w4 o' _ _.
  apply visits_get. intros s1 Hs1. apply visits_outcome_bind. intros spec Hspec. unfold buffer_named in Hspec.
  rewrite Hs1 in Hspec. destruct (dget (br_buffers w4.2) name) as [spec'|] eqn:Hg; [|done]. injection Hspec as ->.
  apply visits_outcome. intros r Hr. apply outcome_bind_ok in Hr as (itemsize & _ & Hr).
  apply outcome_bind_ok in Hr as (byte_offset & _ & Hr). by eapply placed_init.
Qed.
Lemma visits_store w cx buffer value indices : visits w (buffer_store depth profile cx buffer value indices) fine.
Proof.
  unfold buffer_store. cbv zeta. eapply visits_bind.
  { apply (visits_map _ _ _ (λ w' r, region_placed w'.2 (vc_core cx) r)); [|intros; apply visits_scalar_region].
    intros w1 w2 r [_ Hg]. by apply placed_grows. }
  intros w1 sources _ Hsources. eapply visits_bind; [apply visits_scalar_region|]. intros w2 destination L2 Hd.
  eapply visits_bind; [|intros; by apply visits_ret]. apply visits_emit; [|set_solver].
  assert (good w2.2 (vc_core cx) sources) as Hs.
  { apply good_all. rewrite Forall_forall in Hsources. intros r Hr. eapply placed_grows; [apply L2|by apply Hsources]. }
  good_solve.
Qed.

(** ** Tiled multiplications *)

Definition slot_ready (b : BridgeState) (name : string) (scope : MemoryScope) : Prop :=
  ∃ spec, dget (br_buffers b) name = Some spec ∧ bs_scope spec = scope.
Lemma ready_grows b b' name scope : grows b b' → slot_ready b name scope → slot_ready b' name scope.
Proof. intros Hg (spec & Hs & E). destruct (Hg _ _ Hs) as (spec' & Hs' & E'). exists spec'. split; [done|congruence]. Qed.

Lemma string_length_app (a b : string) : String.length (a +:+ b) = (String.length a + String.length b)%nat.
Proof. induction a as [|c a IH]; [done|]. exact (f_equal S IH). Qed.
Lemma string_get_app (a b : string) n : String.get (String.length a + n) (a +:+ b) = String.get n b.
Proof. by induction a as [|c a IH]. Qed.
Lemma startswith_app (p x : string) : startswith p (p +:+ x) = true.
Proof.
  unfold startswith. induction p as [|c p IH]; [by destruct x|].
  change (String.prefix (String c p) (String c (p +:+ x)) = true). cbn [String.prefix]. by destruct (Ascii.ascii_dec c c).
Qed.
Lemma slot_scope_app a b : String.length b = 6%nat → slot_scope (a +:+ b) = slot_scope b.
Proof.
  intros Hb. unfold slot_scope.
  rewrite string_length_app, Hb.
  replace (String.length a + 6 - 3)%nat with (String.length a + 3)%nat by lia. by rewrite string_get_app.
Qed.
Lemma slot_names p slot : slot ∈ slots →
  slot_scope (p +:+ "_l0a_" +:+ pretty slot) = L0A ∧ slot_scope (p +:+ "_l0b_" +:+ pretty slot) = L0B.
Proof.
  intros Hs. assert (slot = 0 ∨ slot = 1) as [->| ->] by (unfold slots in Hs; set_solver).
  all: split; rewrite slot_scope_app by reflexivity; vm_compute; reflexivity.
Qed.

Lemma visits_reserve w name scope dtype elements slot :
  startswith SLOT_PREFIX name = true → slot_scope name = scope →
  visits w (reserve_slot name scope dtype elements slot) (λ w' _, slot_ready w'.2 name scope).
Proof.
  intros Hp Hs. unfold reserve_slot. apply visits_outcome_bind. intros spec (Hn & Hsc & Hplain)%buffer_spec_init_fields.
  intros s s' r Hsw Hw [= <- <-]. right. set (b := set_buffers (dset (br_buffers w.2) name spec) w.2).
  destruct (sane_set_buffer w name spec) as [L S]; try done; [by rewrite Hsc|..].
  { intros old Ho. rewrite Hsc, <- Hs. symmetry. by apply (bo_slots w.2 (proj2 Hw)). }
  exists (w.1, b). split; [done|]. split; [done|]. split; [cbn; by rewrite Hsw|]. intros [] _. exists spec.
  unfold b. cbn. by rewrite dget_dset_eq.
Qed.
Lemma visits_reserve_slots w (name : Z → string) scope dtype (elements : result Z) :
  (∀ slot, slot ∈ slots → startswith SLOT_PREFIX (name slot) = true ∧ slot_scope (name slot) = scope) →
  visits w (each (λ slot, e ← of_outcome elements; reserve_slot (name slot) scope dtype e slot) slots)
    (λ w' _, ∀ slot, slot ∈ slots → slot_ready w'.2 (name slot) scope).
Proof.
  intros Hn. assert (∀ w slot, slot ∈ slots →
    visits w (e ← of_outcome elements; reserve_slot (name slot) scope dtype e slot) (λ w' _, slot_ready w'.2 (name slot) scope)) as Hr.
  { intros w0 slot Hslot. apply visits_outcome_bind. intros e _. apply visits_reserve; by apply Hn. }
  unfold slots in *. cbn [each]. eapply visits_bind; [apply Hr; set_solver|]. intros w1 [] L1 H1. cbn beta in H1.
  eapply visits_bind; [apply Hr; set_solver|]. intros w2 [] L2 H2. apply visits_ret. cbn beta in H2.
  intros slot [-> | ->%list_elem_of_singleton]%elem_of_cons; [|done]. eapply ready_grows; [apply L2|done].
Qed.

Lemma placed_slot b core name scope elements dtype r :
  shared_scope scope = false → slot_ready b name scope → slot_region name scope elements dtype core = Ok r →
  region_placed b core r.
Proof.
  intros Hsh (spec & Hg & <-) (Hb & Hs & Hc)%region_init_fields. exists spec. rewrite Hb, Hsh. done.
Qed.
Lemma placed_derived b core r shape offset strides r' :
  region_placed b core r →
  buffer_region_init (rg_buffer r) (scope_value (rg_scope r)) shape (rg_dtype r) offset strides (rg_core_id r) = Ok r' →
  region_placed b core r'.
Proof. intros (spec & Hg & Hs & Hc) (Hb & Hs' & Hc')%region_init_fields. exists spec. by rewrite Hb, Hs', Hc'. Qed.
Lemma placed_windows b core source shape origin rows cols itemsize windows :
  region_placed b core source → source_windows source shape origin rows cols itemsize = Ok windows → good b core windows.
Proof.
  intros Hs Hw%omap_list_ok. apply good_all. intros r Hr.
  apply list_elem_of_lookup in Hr as [i Hi]. destruct (Forall2_lookup_r _ _ _ _ _ Hw Hi) as (piece & _ & H).
  unfold source_window in H. apply outcome_bind_ok in H as (offset & _ & H). apply outcome_bind_ok in H as (base & _ & H).
  by eapply placed_derived.
Qed.
Lemma good_source_fields b core source windows : region_placed b core source → good b core windows → good b core (source_fields source windows).
Proof.
  intros Hs Hw. destruct windows as [|r [|r' l]]; cbn [source_fields]; [good_solve|destruct Hw; good_solve|].
  pose proof (good_tuple _ _ _ Hw). good_solve.
Qed.

(** What a step of the multiplication needs: its operands and its slots. *)
Record run_ready (b : BridgeState) (core : Z) (g : gemm_run) (l0a l0b : Z → string) : Prop := {
  rr_lhs : region_placed b core (gr_lhs g);
  rr_rhs : region_placed b core (gr_rhs g);
  rr_dst : region_placed b core (gr_dst g);
  rr_l0a : ∀ slot, slot ∈ slots → slot_ready b (l0a slot) L0A;
  rr_l0b : ∀ slot, slot ∈ slots → slot_ready b (l0b slot) L0B;
}.
Lemma run_ready_grows b b' core g l0a l0b : grows b b' → run_ready b core g l0a l0b → run_ready b' core g l0a l0b.
Proof.
  intros Hg []. split; try (by eapply placed_grows); try (intros; eapply ready_grows; [done|auto]).
Qed.
Lemma run_of_ready b core md g : good b core md → run_of md = Some g →
  region_placed b core (gr_lhs g) ∧ region_placed b core (gr_rhs g) ∧ region_placed b core (gr_dst g).
Proof.
  intros Hmd H. unfold run_of in H. repeat (apply bind_Some in H as (? & ? & H)). injection H as <-. cbn [gr_lhs gr_rhs gr_dst].
  assert (∀ key r, as_region (mget md key) = Some r → region_placed b core r) as Hr.
  { intros key r Hkey. pose proof (good_mget _ _ _ key Hmd) as Hv. destruct (mget md key); try done. injection Hkey as ->. done. }
  split_and!; by eapply Hr.
Qed.

Lemma good_load_fields b core key transfer reuse source slot windows layout shape origin window destination transposed :
  good b core transfer → good b core reuse → region_placed b core source → region_placed b core slot →
  good b core windows →
  good b core (load_fields key transfer reuse source slot windows layout shape origin window destination transposed).
Proof.
  intros Ht Hr Hs Hd Hw. pose proof (good_source_fields _ _ _ _ Hs Hw). unfold load_fields.
  apply good_app; [good_solve|]. apply good_app; [done|]. apply good_app; [done|good_solve].
Qed.
Lemma slot_member step : step mod 2 ∈ slots.
Proof. unfold slots. pose proof (Z.mod_pos_bound step 2). assert (step mod 2 = 0 ∨ step mod 2 = 1) by lia. set_solver. Qed.
Lemma scaled_placed b core v k u : scale_runtime_int v k = Ok u → value_placed b core u.
Proof. intros H. by eapply int_expr_placed, scaled_plain. Qed.

Lemma visits_gemm_step w cx g ib ab l0a l0b step :
  run_ready w.2 (vc_core cx) g l0a l0b → visits w (gemm_step profile cx g ib ab l0a l0b step) fine.
Proof.
  intros Hg. unfold gemm_step. cbv zeta.
  match goal with |- context [if gr_transpose_a g then ?x else ?y] => destruct (if gr_transpose_a g then x else y) as [[rows_a cols_a] origin_a] end.
  match goal with |- context [if gr_transpose_b g then (?x, ?y, ?z) else ?u] => destruct (if gr_transpose_b g then (x, y, z) else u) as [[rows_b cols_b] origin_b] end.
  apply visits_outcome_bind. intros elements_a _. apply visits_outcome_bind. intros ra Hra.
  apply visits_outcome_bind. intros elements_b _. apply visits_outcome_bind. intros rb Hrb.
  apply visits_outcome_bind. intros wa Hwa. apply visits_outcome_bind. intros wb Hwb.
  apply (placed_slot w.2) in Hra; [|done|apply Hg, slot_member]. apply (placed_slot w.2) in Hrb; [|done|apply Hg, slot_member].
  apply (placed_windows w.2 (vc_core cx)) in Hwa; [|apply Hg]. apply (placed_windows w.2 (vc_core cx)) in Hwb; [|apply Hg].
  eapply visits_bind.
  { apply visits_emit; [|set_solver]. apply good_app; [good_solve|].
    apply good_load_fields; [done|by destruct (2 <=? step)|apply Hg|done|done]. }
  intros w1 load_a L1 Hla. cbn beta in Hla. apply visits_outcome_bind. intros transfer Htr.
  apply (scaled_placed w1.2 (vc_core cx)) in Htr. pose proof (lt_grows _ _ L1) as G1.
  eapply visits_bind.
  { apply visits_emit; [|set_solver]. apply good_app; [good_solve|]. apply good_load_fields.
    - done.
    - by destruct (2 <=? step).
    - eapply placed_grows; [done|apply Hg].
    - by eapply placed_grows.
    - apply good_all. intros r Hr. rewrite good_all in Hwb. eapply placed_grows; [done|by apply Hwb]. }
  intros w2 load_b L2 Hlb. cbn beta in Hlb. apply visits_or_stop_bind. intros base _.
  apply visits_outcome_bind. intros elements_c _. apply visits_outcome_bind. intros rc Hrc.
  apply visits_outcome_bind. intros math Hmath. apply (scaled_placed w2.2 (vc_core cx)) in Hmath.
  assert (grows w.2 w2.2) as G2 by (etrans; [done|apply L2]).
  apply (placed_derived w2.2 (vc_core cx)) in Hrc; [|eapply placed_grows; [done|apply Hg]].
  apply (placed_grows _ w2.2) in Hra; [|done]. apply (placed_grows _ w2.2) in Hrb; [|done].
  eapply visits_bind; [|intros; by apply visits_ret]. apply visits_emit.
  - repeat apply good_app; [good_solve|good_solve|]. destruct (gr_init g && _); good_solve.
  - destruct (lt_log _ _ L2) as [more Hmore]. intros d [-> | ->%list_elem_of_singleton]%elem_of_cons; [|done].
    rewrite Hmore, fmap_app. set_solver.
Qed.
Lemma visits_gemm w cx md : good w.2 (vc_core cx) md → visits w (emit_gemm_v0_trace_tasks profile cx md) fine.
Proof.
  intros Hmd. unfold emit_gemm_v0_trace_tasks. apply visits_or_stop_bind. intros g Hrun.
  apply visits_outcome_bind. intros ib _. apply visits_outcome_bind. intros ab _. cbv zeta. apply visits_get. intros s _.
  destruct (run_of_ready _ _ _ _ Hmd Hrun) as (Hl & Hr & Hd).
  set (prefix := "__sim_gemm_" +:+ _).
  assert (∀ x, startswith SLOT_PREFIX (prefix +:+ x) = true) as Hp by (intros x; apply (startswith_app SLOT_PREFIX)).
  assert (∀ x slot, prefix +:+ x +:+ slot = prefix +:+ (x +:+ slot)) as Ha by done.
  eapply visits_bind.
  { apply (visits_reserve_slots _ (λ slot, prefix +:+ "_l0a_" +:+ pretty slot) L0A). intros slot Hs.
    split; [apply Hp|by apply slot_names]. }
  intros w1 [] L1 H1. cbn beta in H1. eapply visits_bind.
  { apply (visits_reserve_slots _ (λ slot, prefix +:+ "_l0b_" +:+ pretty slot) L0B). intros slot Hs.
    split; [apply Hp|by apply slot_names]. }
  intros w2 [] L2 H2. cbn beta in H2. apply visits_each. intros step w3 _ L3. apply visits_gemm_step.
  eapply run_ready_grows; [apply L3|]. assert (grows w.2 w2.2) by (etrans; [apply L1|apply L2]).
  split; try (by eapply placed_grows); [|done]. intros slot Hs. eapply ready_grows; [apply L2|by apply H1].
Qed.

(** ** Calls *)

Lemma sane_only w b : sane w → only_buffers w.2 b → later w (w.1, b) ∧ sane (w.1, b).
Proof.
  intros [Ht Hb] Ho. pose proof (grows_only _ _ Ho) as Hg. split; [by split|]. split.
  - apply (traced_frame _ w.2); [apply Ho..|done|done].
  - assert (∀ n spec, dget (br_buffers b) n = Some spec →
      ∃ spec0, dget (br_buffers w.2) n = Some spec0 ∧ bs_name spec = bs_name spec0 ∧ bs_scope spec = bs_scope spec0) as Hs.
    { intros n spec Hn. destruct (spec_of _ _ _ _ Ho Hn) as (spec0 & Hn0 & E). exists spec0. unfold spec_key in E. split; [done|split; congruence]. }
    split; cbn.
    + rewrite (ob_keys _ _ Ho). apply Hb.
    + intros n spec (s0 & H0 & -> & _)%Hs. by apply (bo_names _ Hb).
    + eapply plain_only; [done|apply Hb].
    + intros n spec (s0 & H0 & _ & ->)%Hs. by apply (bo_slots _ Hb).
Qed.
Lemma good_dupdate b core (d d' : dict string pyval) : good b core d → good b core d' → good b core (dupdate d d').
Proof.
  unfold dupdate. revert d. induction d' as [|[k v] d' IH]; intros d Hd Hd'; [done|]. cbn [fold_left].
  destruct Hd' as [[Hk Hv] Hd']. apply IH; [by apply good_dset|done].
Qed.
Lemma flag_int_placed b core e d v : flag_int depth e d = Ok v → good b core v.
Proof.
  unfold flag_int. destruct e; [intros [= <-]; apply literal_placed|]. intros (z & _ & [= <-])%outcome_bind_ok.
  destruct z; [done|apply literal_placed].
Qed.
Lemma sync_placed b core e operation arguments md : sync_metadata depth e operation arguments = Ok md → good b core md.
Proof.
  unfold sync_metadata. intros (flags & Hf & [= <-])%outcome_bind_ok.
  assert (good b core flags) as Hg.
  { unfold flag_metadata in Hf. repeat case_match; simplify_eq; try done;
      repeat (apply outcome_bind_ok in Hf as (? & ?Hx%(flag_int_placed b core) & Hf)); simplify_eq; by repeat split. }
  destruct arguments; [done|]. destruct (contains _ _); [good_solve|done].
Qed.
Lemma visits_call_metadata w call lowered operation tail arguments cx :
  visits w (call_metadata depth call lowered operation tail arguments cx) (λ w' md, good w'.2 (vc_core cx) md).
Proof.
  unfold call_metadata. apply visits_get. intros s _. cbv zeta. eapply visits_bind.
  { apply (visits_emission _ _ (λ w' md, good w'.2 (vc_core cx) md)). intros b' md Hw H.
    apply (decoded_frame (D := decoding depth s cx)) in H as [Ho Hg]; [|apply Hw].
    exists w.1. destruct (sane_only _ _ Hw Ho) as [L S]. split; [done|]. split; [done|].
    eapply good_md_grows; [apply (grows_only _ _ Ho)|]. by apply Hg. }
  intros w1 functional _ Hf. cbn beta in Hf. apply visits_outcome_bind. intros sync Hsync.
  apply (sync_placed w1.2 (vc_core cx)) in Hsync. apply visits_ret.
  match goal with |- good _ _ (match _ with Some _ => dset ?md _ _ | None => _ end) => assert (good w1.2 (vc_core cx) md) as Hm end.
  { apply good_dupdate; [|done]. apply good_dupdate; [|done].
    assert (good w1.2 (vc_core cx) (VTuple (debug_literal <$> arguments))) as Ha.
    { intros r (e & E & _)%list_elem_of_fmap. by destruct e. }
    destruct tail; good_solve. }
  destruct (tvm_span call); good_solve.
Qed.
Lemma visits_activate w md : visits w (emission (activate_alias md)) fine.
Proof.
  apply visits_emission. intros b' a Hw H. exists w.1. unfold activate_alias, mbind, stM_bind, st_get, st_put in H.
  destruct (as_region (mget md "dst")) as [d|], (as_region (mget md "src")) as [r|]; injection H as <- _; [|by destruct w..].
  by edestruct (sane_same w) as [L S]; [exact Hw|..|split; [exact L|by split]].
Qed.
Lemma visits_call w call op args cx : visits w (emit_call depth profile call op args cx) fine.
Proof.
  unfold emit_call. apply visits_outcome_bind. intros [lowered arguments] _. destruct (mem_str lowered _); [apply visits_break|].
  apply visits_outcome_bind. intros [[operation arguments'] tail] _.
  eapply visits_bind; [apply visits_call_metadata|]. intros w1 md _ Hmd. cbn beta in Hmd.
  destruct (needs_gemm_trace operation md); [by apply visits_gemm|].
  eapply visits_bind; [apply visits_emit; [done|set_solver]|]. intros w2 t _ _.
  destruct (mem_str _ _); [apply visits_activate|by apply visits_ret].
Qed.

(** ** Statements *)

Lemma visits_attr w f key node value cx :
  (∀ w cx, visits w (f cx) fine) → visits w (visit_attr depth f key node value cx) fine.
Proof.
  intros Hf. unfold visit_attr. destruct (mem_str key _).
  { eapply visits_bind; [apply visits_integer|]. intros w1 extent _ _.
    destruct (mem_str _ _); [by apply visits_each|]. destruct (mem_str _ _); [by apply visits_each|done]. }
  destruct (mem_str key _).
  { eapply visits_bind; [apply visits_integer|]. intros w1 scope _ _. apply visits_outcome_bind. intros l _.
    destruct l; [done|by apply visits_ret]. }
  eapply (visits_bind _ _ _ fine); [|done]. destruct (mem_str key _); [|by apply visits_ret].
  apply visits_outcome_bind. intros scope _. by apply visits_modify.
Qed.
Lemma visits_for w f var minimum extent cx :
  (∀ w cx, visits w (f cx) fine) → visits w (visit_for depth limit f var minimum extent cx) fine.
Proof.
  intros Hf. unfold visit_for. eapply visits_bind; [apply visits_integer|]. intros w1 lo _ _.
  eapply visits_bind; [apply visits_integer|]. intros w2 n _ _. apply visits_demand_bind. intros _. by apply visits_until_break.
Qed.
Lemma visits_dynamic w f g condition cx :
  (∀ w cx, visits w (f cx) fine) → (∀ w cx, visits w (g cx) fine) → visits w (visit_dynamic f g condition cx) fine.
Proof.
  intros Hf Hg. unfold visit_dynamic. eapply (visits_bind _ _ _ fine).
  { unfold dynamic_condition. apply visits_outcome_bind. intros replacements _. cbv zeta.
    destruct (tvm_loads _); [apply visits_stops|by apply visits_ret]. }
  intros w1 v _ _. apply visits_get. intros s _. cbv zeta. eapply visits_bind; [by apply visits_modify|]. intros w2 [] _ _.
  eapply visits_bind; [apply Hf|]. done.
Qed.
Lemma visits_stmt s : no_slot (declared s) → ∀ w cx, visits w (visit_stmt depth profile limit s cx) fine.
Proof.
  revert s. fix IH 1. intros s Hd w cx. destruct s as [l|key node value body|var minimum extent body|condition then_case else_case
    |var value body|var annotation dtype extents body|body|block|buffers init body|condition body|value|buffer value indices|class];
    cbn [declared] in Hd; cbn [visit_stmt].
  - revert Hd w. induction l as [|a l IHl]; intros Hd w; [by apply visits_ret|].
    apply no_slot_app in Hd as [Ha Hl].
    change (visits w (_ ← visit_stmt depth profile limit a cx; each (λ child, visit_stmt depth profile limit child cx) l) fine).
    eapply visits_bind; [by apply IH|]. intros w1 [] _ _. by apply IHl.
  - apply visits_attr. by apply IH.
  - apply visits_for. by apply IH.
  - apply no_slot_app in Hd as [Ht He]. apply visits_outcome_bind. intros known _.
    assert (∀ w cx, visits w (match else_case with Some s => visit_stmt depth profile limit s cx | None => mret tt end) fine) as Helse.
    { destruct else_case as [s|]; [by apply IH|]. intros. by apply visits_ret. }
    destruct known as [z|]; [destruct (z =? 0); [apply Helse|by apply IH]|]. apply visits_dynamic; [by apply IH|apply Helse].
  - eapply visits_bind; [apply visits_integer|]. intros w1 z _ _. by apply IH.
  - eapply visits_bind; [apply visits_allocate; apply Hd; by left|]. intros w1 [] _ _. apply IH. intros n Hn. apply Hd. by right.
  - by apply IH.
  - by apply IH.
  - apply no_slot_app in Hd as [Hb Hd]. apply no_slot_app in Hd as [Hi Hd]. eapply visits_bind.
    { apply visits_each. intros b w1 Hb1 _. apply visits_block_buffer, Hb. by apply list_elem_of_fmap_2. }
    intros w1 [] _ _. eapply (visits_bind _ _ _ fine); [|intros; by apply IH].
    destruct init as [s|]; [by apply IH|by apply visits_ret].
  - eapply visits_bind; [apply visits_integer|]. intros w1 z _ _. apply visits_demand_bind. intros _. by apply IH.
  - apply visits_outcome_bind. intros zero _. destruct zero; [by apply visits_ret|].
    destruct value; try apply visits_stops. apply visits_call.
  - apply visits_store.
  - apply visits_stops.
Qed.
End bridge.
