(* ===== verification/UnitFlagProofs.v ===== *)
(** The unit flags of [bridge.py]: what they add to the tasks of a core — edges to earlier tasks of
    the same core, and entries of metadata that name no region — and that they accept exactly the
    kernels in which every 512-byte block of L0C goes through multiplications that hold it and
    through pairs of a release and the copy that consumes it. *)

From S2P Require Import Prelude PyDict PySort PyStr Errors Layout Values Program Intervals MemoryView Timing PyNum.
From S2P Require Import ExecEnv LinearTiming MeasuredA2 RegionOverlap BridgeOps BridgeMemory BridgeCache BridgeDeps.
From S2P Require Import BridgeExpr BridgeRegions BridgeDispatch BridgeVisit UnitFlags BridgeEmit.
Local Open Scope string_scope.
Local Open Scope Z_scope.
Local Open Scope list_scope.

(** The edges of the hardware that metadata names are dependencies. *)
Definition hardware_known (t : Task) : Prop :=
  ∀ d, d ∈ names_of (mget (metadata t) "hardware_dependencies") → d ∈ dependencies t.

(** [t'] is the task [t] at position [i] of [ts], perhaps with edges to earlier tasks. *)
Record refined (ts : list Task) (i : nat) (t t' : Task) : Prop := {
  rf_id : task_id t' = task_id t;
  rf_operation : operation t' = operation t;
  rf_core : core_id t' = core_id t;
  rf_lane : lane t' = lane t;
  rf_pipe : pipe t' = pipe t;
  rf_duration : duration_cycles t' = duration_cycles t;
  rf_role : role_of t' = role_of t;
  rf_operands : same_operands (metadata t) (metadata t');
  rf_ok : task_ok t → task_ok t';
  rf_old : dependencies t ⊆ dependencies t';
  rf_edges : ∀ d, d ∈ dependencies t' →
    d ∈ dependencies t ∨ ∃ j u, (j < i)%nat ∧ ts !! j = Some u ∧ task_id u = d;
  rf_hardware : hardware_known t → hardware_known t';
}.
Lemma refined_refl ts i t : refined ts i t t.
Proof. split; auto. done. Qed.
Lemma refined_trans ts i t1 t2 t3 : refined ts i t1 t2 → refined ts i t2 t3 → refined ts i t1 t3.
Proof.
  intros [] []. split; try congruence; auto.
  - by etrans.
  - by etrans.
  - intros d Hd. destruct (rf_edges1 d Hd); auto.
Qed.

(** The same tasks, refined. *)
Definition refines (ts ts' : list Task) : Prop :=
  length ts' = length ts ∧ ∀ i t t', ts !! i = Some t → ts' !! i = Some t' → refined ts i t t'.
Lemma refines_refl ts : refines ts ts.
Proof. split; [done|]. intros i t t' H H'. rewrite H in H'. injection H' as ->. apply refined_refl. Qed.
Lemma refines_lookup ts ts' i t' : refines ts ts' → ts' !! i = Some t' → ∃ t, ts !! i = Some t ∧ refined ts i t t'.
Proof.
  intros [Hl Hr] H. destruct (lookup_lt_is_Some_2 ts i) as [t Ht]; [rewrite <- Hl; by eapply lookup_lt_Some|]. eauto.
Qed.
Lemma refines_ids ts ts' : refines ts ts' → task_id <$> ts' = task_id <$> ts.
Proof.
  intros Hr. apply list_eq. intros i. rewrite !list_lookup_fmap. destruct (ts' !! i) as [t'|] eqn:E'.
  - destruct (refines_lookup _ _ _ _ Hr E') as (t & -> & Hf). cbn. by rewrite (rf_id _ _ _ _ Hf).
  - apply lookup_ge_None in E'. rewrite (lookup_ge_None_2 ts); [done|]. destruct Hr as [<- _]. done.
Qed.

Lemma ids_at_earlier ts ts' l i d :
  refines ts ts' → (∀ j, j ∈ l → (j < i)%nat) → d ∈ ids_at ts' l → ∃ j u, (j < i)%nat ∧ ts !! j = Some u ∧ task_id u = d.
Proof.
  intros Hr Hl (j & Hj & E)%list_elem_of_omap. apply fmap_Some in E as (u' & Hu & ->).
  destruct (refines_lookup _ _ _ _ Hr Hu) as (u & Hu0 & Hf). exists j, u. split; [by apply Hl|]. split; [done|].
  symmetry. apply Hf.
Qed.
Lemma elem_of_indices l j : j ∈ indices l ↔ Some j ∈ l.
Proof.
  unfold indices. rewrite elem_of_py_sorted, elem_of_fromkeys, list_elem_of_omap. split.
  - intros (x & Hx & E). unfold id in E. by subst x.
  - intros H. by exists (Some j).
Qed.

(** ** One annotation *)

Lemma annotated_refined ts i role hardware peers t t' :
  annotated role hardware peers t = Ok t' → hardware_known t →
  (∀ d, d ∈ hardware → ∃ j u, (j < i)%nat ∧ ts !! j = Some u ∧ task_id u = d) → refined ts i t t'.
Proof.
  unfold annotated. cbv zeta. intros H Hk He.
  set (edges := sorted_set (names_of (mget (metadata t) "hardware_dependencies") ++ hardware)) in *.
  pose proof (task_init_ok _ _ _ _ _ _ _ _ _ _ H) as Hok.
  assert (∀ d, d ∈ edges → d ∈ dependencies t ∨ d ∈ hardware) as Hedges.
  { intros d. unfold edges. rewrite sorted_set_elem, elem_of_app. naive_solver. }
  unfold task_init in H. inv_res.
  match goal with H : lane_of (lane_value _) = _ |- _ => assert (lane_of (lane_value (lane t)) = Ok (lane t)) as Hl by (by destruct (lane t)); rewrite Hl in H; injection H as <- end.
  match goal with H : pipe_of (pipe_value _) = _ |- _ => assert (pipe_of (pipe_value (pipe t)) = Ok (pipe t)) as Hp by (by destruct (pipe t)); rewrite Hp in H; injection H as <- end.
  split; cbn [task_id operation core_id lane pipe duration_cycles metadata dependencies]; try done.
  - unfold role_of, mget, dget_default. cbn [metadata operation].
    destruct (sorted_set (names_of (default VNone (dget (metadata t) "unit_flag_pairs")) ++ peers));
      by rewrite !dget_dset_ne.
  - destruct (sorted_set (names_of (mget (metadata t) "unit_flag_pairs") ++ peers)); repeat (etrans; [|apply same_operands_dset; set_solver]); done.
  - intros d Hd. rewrite sorted_set_elem, elem_of_app. by left.
  - intros d. rewrite sorted_set_elem, elem_of_app. intros [Hd|Hd]; [by left|].
    destruct (Hedges d Hd); [by left|right; by apply He].
  - intros _ d Hd. cbn [metadata dependencies] in *. rewrite sorted_set_elem, elem_of_app. right.
    rewrite <- (names_of_ids edges). revert Hd. unfold mget at 1, dget_default.
    destruct (sorted_set (names_of (mget (metadata t) "unit_flag_pairs") ++ peers)); rewrite ?dget_dset_ne by done;
      by rewrite dget_dset_eq.
Qed.

Lemma annotate_refines ts0 index role hardware peers ts ts' :
  refines ts0 ts → (∀ t, t ∈ ts → hardware_known t) →
  (∀ d, d ∈ hardware → ∃ j u, (j < index)%nat ∧ ts0 !! j = Some u ∧ task_id u = d) →
  annotate index role hardware peers ts = Ok ts' → refines ts0 ts' ∧ ∀ t, t ∈ ts' → hardware_known t.
Proof.
  intros Hr Hk He H. unfold annotate in H. destruct (ts !! index) as [t|] eqn:Ht; [|done].
  apply outcome_bind_ok in H as (t' & Ha & [= <-]).
  pose proof (Hk t (list_elem_of_lookup_2 _ _ _ Ht)) as Hkt.
  destruct (refines_lookup _ _ _ _ Hr Ht) as (t0 & Ht0 & Hf).
  pose proof (annotated_refined ts0 index _ _ _ _ _ Ha Hkt He) as Hf'. split.
  - split; [rewrite length_insert; apply Hr|]. intros i u u' Hu Hu'. apply list_lookup_insert_Some in Hu' as [(-> & <- & _)|[_ Hu']].
    + rewrite Ht0 in Hu. injection Hu as <-. by eapply refined_trans.
    + by apply Hr.
  - intros u [i Hi]%list_elem_of_lookup. apply list_lookup_insert_Some in Hi as [(-> & <- & _)|[_ Hi]].
    + by apply Hf'.
    + apply Hk. by eapply list_elem_of_lookup_2.
Qed.

(** ** The tasks of a core *)

(** The states of the blocks point to tasks before [i]. *)
Definition states_before (i : nat) (states : unit_states) : Prop :=
  ∀ b j, (block_state states b).1 = Some j ∨ (block_state states b).2 = Some j → (j < i)%nat.

Lemma set_states_spec f bs states b :
  block_state (set_states f bs states) b = if decide (b ∈ bs) then f b else block_state states b.
Proof.
  unfold set_states. revert states. induction bs as [|b0 bs IH]; intros states; [by rewrite decide_False by set_solver|].
  cbn [foldl]. rewrite IH. unfold block_state, dget_default. rewrite dget_dset. destruct (decide (b ∈ bs)) as [Hb|Hb].
  - by rewrite decide_True by by right.
  - case_decide as E; [subst b0; by rewrite decide_True by by left|]. rewrite decide_False; [done|]. intros [?|?]%elem_of_cons; congruence.
Qed.

Lemma unit_step_refines ts0 st core i ts states ts' states' :
  refines ts0 ts → (∀ t, t ∈ ts → hardware_known t) → states_before i states →
  unit_step st core (ts, states) i = Ok (ts', states') →
  refines ts0 ts' ∧ (∀ t, t ∈ ts' → hardware_known t) ∧ states_before (S i) states'.
Proof.
  intros Hr Hk Hs H. assert (states_before (S i) states) as Hs' by (intros b j Hj; specialize (Hs b j Hj); lia).
  unfold unit_step in H. destruct (ts !! i) as [t|] eqn:Ht; [|by injection H as <- <-].
  destruct (role_of t) as [role|]; [|by injection H as <- <-].
  apply outcome_bind_ok in H as (touched & _ & H).
  assert (∀ release, unit_multiply i release touched ts states = Ok (ts', states') →
    refines ts0 ts' ∧ (∀ t, t ∈ ts' → hardware_known t) ∧ states_before (S i) states') as Hm.
  { clear H. intros release H. unfold unit_multiply in H. apply outcome_bind_ok in H as ([] & _ & H). cbv zeta in H.
    apply outcome_bind_ok in H as (ts1 & Ha & [= <- <-]).
    assert (∀ j, j ∈ indices ((λ b, (block_state states b).2) <$> touched) → (j < i)%nat) as Hin.
    { intros j Hj%elem_of_indices. apply list_elem_of_fmap in Hj as (b & E & _). apply (Hs b). by right. }
    destruct (annotate_refines ts0 _ _ _ _ _ _ Hr Hk ltac:(intros d; by apply ids_at_earlier) Ha) as [Hr1 Hk1].
    split; [done|]. split; [done|]. intros b j. rewrite set_states_spec. case_decide; [|apply Hs'].
    cbn [fst snd]. destruct release; intros [Hj|Hj]; try done; [injection Hj as <-; lia|apply (Hs' b); by right|apply (Hs' b); by right]. }
  destruct role; [by apply (Hm false)|by apply (Hm true)|]. clear Hm.
  unfold unit_consume in H. apply outcome_bind_ok in H as (writers & Hw & H). cbv zeta in H.
  apply outcome_bind_ok in H as (ts1 & Ha & H). apply outcome_bind_ok in H as (ts2 & Hf & [= <- <-]).
  assert (∀ j, j ∈ writers → (j < i)%nat) as Hwi.
  { destruct (mapM _ touched) as [ws|] eqn:Em; [|done]. injection Hw as <-. intros j Hj%elem_of_indices.
    apply list_elem_of_fmap in Hj as (j' & [= <-] & Hj). apply mapM_Some_1 in Em. apply list_elem_of_lookup in Hj as [k Hk'].
    destruct (Forall2_lookup_r _ _ _ _ _ Em Hk') as (b & _ & Hb). apply (Hs b). by left. }
  destruct (annotate_refines ts0 _ _ _ _ _ _ Hr Hk ltac:(intros d; by apply ids_at_earlier) Ha) as [Hr1 Hk1].
  assert (refines ts0 ts2 ∧ ∀ t, t ∈ ts2 → hardware_known t) as [Hr2 Hk2].
  { clear Hw Ha Hwi. revert ts1 Hf Hr1 Hk1. induction writers as [|w ws IH]; intros ts1 Hf Hr1 Hk1; [by injection Hf as <-|].
    cbn [ofold] in Hf. apply outcome_bind_ok in Hf as (ts3 & Ha & Hf).
    destruct (annotate_refines ts0 _ _ _ _ _ _ Hr1 Hk1 ltac:(by intros d ?%elem_of_nil) Ha) as [Hr3 Hk3]. by apply (IH ts3). }
  split; [done|]. split; [done|]. intros b j. rewrite set_states_spec. case_decide; [|apply Hs'].
  cbn [fst snd]. intros [Hj|Hj]; [done|injection Hj as <-; lia].
Qed.

Lemma unit_flag_pairs_refines st core ts ts' :
  (∀ t, t ∈ ts → hardware_known t) → unit_flag_pairs st core ts = Ok ts' → refines ts ts'.
Proof.
  intros Hk H. unfold unit_flag_pairs in H. apply outcome_bind_ok in H as ([ts1 states] & Hf & H).
  assert (refines ts ts1) as Hr; [|destruct (omap _ states); by simplify_eq].
  clear H. revert ts1 states Hf. generalize (length ts) at 1 as n. intros n.
  assert (∀ k ts0 states0 ts1 states1, refines ts ts0 → (∀ t, t ∈ ts0 → hardware_known t) → states_before k states0 →
    ofold (unit_step st core) (seq k n) (ts0, states0) = Ok (ts1, states1) → refines ts ts1) as Hgen.
  { induction n as [|n IH]; intros k ts0 states0 ts1 states1 Hr Hk0 Hs Hf; [by injection Hf as <- <-|].
    cbn [seq ofold] in Hf. apply outcome_bind_ok in Hf as ([ts2 states2] & Hs2 & Hf).
    destruct (unit_step_refines _ _ _ _ _ _ _ _ Hr Hk0 Hs Hs2) as (Hr2 & Hk2 & Hb2). by eapply (IH (S k)). }
  intros ts1 states. apply Hgen; [apply refines_refl|done|]. intros b j [?|?]; done.
Qed.

(** ** The words of the blocks *)

(** [(Hold | Release Consume)*] *)
Inductive paired : list unit_role → Prop :=
| paired_nil : paired []
| paired_hold w : paired w → paired (Hold :: w)
| paired_pass w : paired w → paired (Release :: Consume :: w).

(** The same language as an automaton: whether the block is readable, or [None] after an error. *)
Definition next_state (state : option bool) (role : unit_role) : option bool :=
  match state, role with
  | Some false, Hold => Some false
  | Some false, Release => Some true
  | Some true, Consume => Some false
  | _, _ => None
  end.
Definition scan (state : option bool) (w : list unit_role) : option bool := foldl next_state state w.

Lemma scan_none w : scan None w = None.
Proof. by induction w. Qed.
Lemma scan_app state w w' : scan state (w ++ w') = scan (scan state w) w'.
Proof. apply foldl_app. Qed.
Lemma paired_scan w : paired w ↔ scan (Some false) w = Some false.
Proof.
  split; [by induction 1|]. remember (length w) as n eqn:En. revert w En.
  induction (lt_wf n) as [n _ IH]. intros w -> H. destruct w as [|[| |] w]; [constructor|..].
  - constructor. apply (IH (length w)); [cbn; lia|done|exact H].
  - destruct w as [|[| |] w]; cbn in H; try done; try (by rewrite scan_none in H).
    constructor. apply (IH (length w)); [cbn; lia|done|exact H].
  - cbn in H. by rewrite scan_none in H.
Qed.

(** The role of a task on a block. *)
Definition blocks_of (st : BridgeState) (core : Z) (t : Task) (role : unit_role) : list block :=
  match unit_blocks st core (mget (metadata t) (touched_key role)) with Ok l => l | Raise _ => [] end.
Definition role_on (st : BridgeState) (core : Z) (b : block) (t : Task) : option unit_role :=
  role ← role_of t; if bool_decide (b ∈ blocks_of st core t role) then Some role else None.
(** The roles on a block, in the order of the core's tasks. *)
Definition word (st : BridgeState) (core : Z) (ts : list Task) (b : block) : list unit_role := omap (role_on st core b) ts.

(** ** Annotations never fail *)

Lemma NoDup_fromkeys {A} `{EqDecision A} (l : list A) : NoDup (fromkeys l).
Proof.
  unfold fromkeys. generalize (@nil A) as seen. induction l as [|x l IH]; intros seen; [constructor|]. cbn.
  case_decide; [apply IH|]. apply NoDup_cons. split; [|apply IH]. rewrite elem_of_fromkeys_acc. intros [_ Hx]. apply Hx. by left.
Qed.

(** A task that can be built again. *)
Record sound_task (t : Task) : Prop := {
  so_ok : task_ok t;
  so_shmem : reject_shmem_operation (operation t) = Ok tt;
  so_hardware : hardware_known t;
}.
Lemma annotated_total role hardware peers t :
  sound_task t → task_id t ∉ hardware → is_Some (match annotated role hardware peers t with Ok t' => Some t' | Raise _ => None end).
Proof.
  intros [Hok Hsh Hk] Hh. destruct Hok. unfold annotated, task_init. cbv zeta.
  rewrite to_id, to_op, Hsh. unfold ensure. cbn [require]. ok_bind.
  replace (0 <=? core_id t) with true by lia. replace (0 <? duration_cycles t) with true by lia. cbn [require]. ok_bind.
  assert (lane_of (lane_value (lane t)) = Ok (lane t)) as -> by (by destruct (lane t)). ok_bind.
  assert (pipe_of (pipe_value (pipe t)) = Ok (pipe t)) as -> by (by destruct (pipe t)). ok_bind.
  rewrite (bool_decide_eq_true_2 (pipe t ∈ allowed_pipes (lane t))) by done. cbn [require]. ok_bind.
  match goal with |- context [mem_str (task_id t) ?l] => assert (mem_str (task_id t) l = false) as -> end.
  { apply mem_str_false. rewrite sorted_set_elem, elem_of_app, sorted_set_elem, elem_of_app.
    intros [?|[?|?]]; [done| |done]. by apply to_self, Hk. }
  cbn [negb require]. ok_bind. rewrite bool_decide_eq_true_2; [cbn; by eexists|].
  unfold sorted_set. rewrite py_sorted_perm. apply NoDup_fromkeys.
Qed.
Lemma annotate_total ts index role hardware peers t :
  ts !! index = Some t → sound_task t → task_id t ∉ hardware → ∃ ts', annotate index role hardware peers ts = Ok ts'.
Proof.
  intros Ht Hs Hh. unfold annotate. rewrite Ht. destruct (annotated_total role hardware peers t Hs Hh) as [t' E].
  destruct (annotated role hardware peers t) as [u|]; [|done]. eexists. done.
Qed.

Section core.
Context (st : BridgeState) (core : Z) (ts0 : list Task).
Context (Hids : NoDup (task_id <$> ts0)) (Hsound : ∀ t, t ∈ ts0 → sound_task t).
Context (Hblocks : ∀ t role, t ∈ ts0 → role_of t = Some role →
  unit_blocks st core (mget (metadata t) (touched_key role)) = Ok (blocks_of st core t role)).

Lemma refined_sound i t t' : refined ts0 i t t' → sound_task t → sound_task t'.
Proof.
  intros Hr []. split; [by apply (rf_ok _ _ _ _ Hr)|by rewrite (rf_operation _ _ _ _ Hr)|by apply (rf_hardware _ _ _ _ Hr)].
Qed.
(** Annotating a task of a refinement with the names of other tasks. *)
Lemma annotate_step ts i role hardware peers :
  refines ts0 ts → (i < length ts0)%nat →
  (∀ d, d ∈ hardware → ∃ j u, (j < i)%nat ∧ ts0 !! j = Some u ∧ task_id u = d) →
  ∃ ts', annotate i role hardware peers ts = Ok ts' ∧ refines ts0 ts'.
Proof.
  intros Hr Hi Hh. destruct (lookup_lt_is_Some_2 ts i) as [t Ht]; [by rewrite (proj1 Hr)|].
  assert (∀ u, u ∈ ts → sound_task u) as Hs.
  { intros u [k Hk]%list_elem_of_lookup. destruct (refines_lookup _ _ _ _ Hr Hk) as (u0 & Hu0 & Hf).
    eapply refined_sound; [done|]. apply Hsound. by eapply list_elem_of_lookup_2. }
  destruct (annotate_total ts i role hardware peers t Ht) as [ts' Ha]; [apply Hs; by eapply list_elem_of_lookup_2|..].
  - intros (j & u & Hj & Hu & E)%Hh. destruct (refines_lookup _ _ _ _ Hr Ht) as (t0 & Ht0 & Hf).
    rewrite (rf_id _ _ _ _ Hf) in E. pose proof (proj1 (NoDup_alt _) Hids j i (task_id t0)) as Hn.
    rewrite !list_lookup_fmap, Hu, Ht0 in Hn. cbn in Hn. rewrite E in Hn. specialize (Hn eq_refl eq_refl). lia.
  - exists ts'. split; [done|]. by eapply annotate_refines in Ha as [? _]; [..|intros u Hu; by apply Hs|].
Qed.

(** What the states of the blocks say after the first [k] tasks. *)
Record tracks (k : nat) (ts : list Task) (states : unit_states) : Prop := {
  tk_refines : refines ts0 ts;
  tk_keys : NoDup (dkeys states);
  tk_before : states_before k states;
  tk_states : ∀ b, scan (Some false) (word st core (take k ts0) b) = Some (bool_decide (is_Some (block_state states b).1));
}.

Lemma dget_set_keys f bs states : NoDup (dkeys states) → NoDup (dkeys (set_states f bs states)).
Proof. unfold set_states. revert states. induction bs as [|b bs IH]; intros states Hs; [done|]. by apply IH, NoDup_dkeys_dset. Qed.
Lemma word_snoc k t b : ts0 !! k = Some t →
  word st core (take (S k) ts0) b = word st core (take k ts0) b ++ option_list (role_on st core b t).
Proof. intros Ht. unfold word. rewrite (take_S_r _ _ t) by done. rewrite omap_app. cbn. by destruct (role_on st core b t). Qed.

Lemma tracks_silent k ts states t :
  ts0 !! k = Some t → role_of t = None → tracks k ts states → tracks (S k) ts states.
Proof.
  intros Ht Hrole []. split; try done.
  - intros b j Hj. specialize (tk_before0 b j Hj). lia.
  - intros b. rewrite (word_snoc _ t) by done. unfold role_on. rewrite Hrole. cbn. by rewrite app_nil_r.
Qed.
(** A task that takes every touched block from one state to another. *)
Lemma tracks_step k ts ts' states t role f :
  ts0 !! k = Some t → role_of t = Some role → tracks k ts states → refines ts0 ts' →
  (∀ b, b ∈ blocks_of st core t role → next_state (Some (bool_decide (is_Some (block_state states b).1))) role
     = Some (bool_decide (is_Some (f b).1)) ∧ ∀ j, (f b).1 = Some j ∨ (f b).2 = Some j → (j < S k)%nat) →
  tracks (S k) ts' (set_states f (blocks_of st core t role) states).
Proof.
  intros Ht Hrole [] Hr Hf. split; [done|by apply dget_set_keys|..].
  - intros b j. rewrite set_states_spec. case_decide as Hb; [by apply Hf|]. intros Hj. specialize (tk_before0 b j Hj). lia.
  - intros b. rewrite (word_snoc _ t), scan_app, set_states_spec, tk_states0 by done. unfold role_on. rewrite Hrole. cbn [mbind option_bind].
    case_decide as Hb; [rewrite (bool_decide_eq_true_2 (b ∈ _)) by done|by rewrite (bool_decide_eq_false_2 (b ∈ _))].
    by apply Hf.
Qed.
Lemma word_error k t role b states ts :
  ts0 !! k = Some t → role_of t = Some role → tracks k ts states → b ∈ blocks_of st core t role →
  next_state (Some (bool_decide (is_Some (block_state states b).1))) role = None →
  scan (Some false) (word st core (take (S k) ts0) b) = None.
Proof.
  intros Ht Hrole [] Hb Hn. rewrite (word_snoc _ t), scan_app, tk_states0 by done. unfold role_on. rewrite Hrole.
  cbn [mbind option_bind]. by rewrite (bool_decide_eq_true_2 (b ∈ _)).
Qed.

Lemma step_exact k ts states :
  (k < length ts0)%nat → tracks k ts states →
  match unit_step st core (ts, states) k with
  | Ok (ts', states') => tracks (S k) ts' states'
  | Raise _ => ∃ b, scan (Some false) (word st core (take (S k) ts0) b) = None
  end.
Proof.
  intros Hk Htr. pose proof (tk_refines _ _ _ Htr) as Hr. pose proof (tk_before _ _ _ Htr) as Hbefore.
  destruct (lookup_lt_is_Some_2 ts k) as [t Ht]; [by rewrite (proj1 Hr)|].
  destruct (refines_lookup _ _ _ _ Hr Ht) as (t0 & Ht0 & Hf). unfold unit_step. rewrite Ht, (rf_role _ _ _ _ Hf).
  destruct (role_of t0) as [role|] eqn:Hrole; [|by eapply tracks_silent].
  assert (mget (metadata t) (touched_key role) = mget (metadata t0) (touched_key role)) as ->.
  { apply (rf_operands _ _ _ _ Hf). destruct role; cbn; set_solver. }
  rewrite Hblocks by (done || by eapply list_elem_of_lookup_2). ok_bind. set (touched := blocks_of st core t0 role).
  assert (∀ release : bool, role = (if release then Release else Hold) →
    match unit_multiply k release touched ts states with
    | Ok (ts', states') => tracks (S k) ts' states'
    | Raise _ => ∃ b, scan (Some false) (word st core (take (S k) ts0) b) = None
    end) as Hmultiply.
  { intros release Er. unfold unit_multiply, ensure. destruct (forallb _ touched) eqn:Hall; cbn [require].
    - ok_bind. cbv zeta. assert (∀ b, b ∈ touched → (block_state states b).1 = None) as Hnone.
      { intros b Hb%list_elem_of_In. rewrite forallb_forall in Hall. by apply Hall, bool_decide_eq_true in Hb. }
      destruct (annotate_step ts k (if release then Release else Hold)
        (ids_at ts (indices ((λ b, (block_state states b).2) <$> touched))) [] Hr Hk) as (ts' & -> & Hr').
      { intros d. apply ids_at_earlier; [done|]. intros j Hj%elem_of_indices. apply list_elem_of_fmap in Hj as (b & E & _).
        apply (Hbefore b). by right. }
      ok_bind. apply (tracks_step k ts); try done. intros b Hb. rewrite Hnone by done. subst role. split.
      + by destruct release.
      + cbn [fst snd]. destruct release; intros j [E|E]; try done; [injection E as <-; lia|..];
          (enough (j < k)%nat by lia; apply (Hbefore b); by right).
    - ok_bind. apply not_true_iff_false in Hall. rewrite forallb_forall in Hall.
      destruct (decide (Forall (λ b, (block_state states b).1 = None) touched)) as [Hn|Hn].
      + exfalso. apply Hall. intros b Hb%list_elem_of_In. apply bool_decide_eq_true. rewrite Forall_forall in Hn. by apply Hn.
      + apply not_Forall_Exists, Exists_exists in Hn as (b & Hb & Hs); [|apply _]. exists b.
        eapply word_error; [done..|]. rewrite bool_decide_eq_true_2 by by apply not_eq_None_Some. subst role. by destruct release. }
  destruct role; [by apply (Hmultiply false)|by apply (Hmultiply true)|]. clear Hmultiply.
  unfold unit_consume. destruct (mapM _ touched) as [ws|] eqn:Em.
  - ok_bind. cbv zeta. apply mapM_Some_1 in Em.
    assert (∀ j, j ∈ indices (Some <$> ws) → (j < k)%nat) as Hwk.
    { intros j Hj%elem_of_indices. apply list_elem_of_fmap in Hj as (j' & [= <-] & Hj). apply list_elem_of_lookup in Hj as [q Hq].
      destruct (Forall2_lookup_r _ _ _ _ _ Em Hq) as (b & _ & Hb). apply (Hbefore b). by left. }
    destruct (annotate_step ts k Consume (ids_at ts (indices (Some <$> ws))) (ids_at ts (indices (Some <$> ws))) Hr Hk)
      as (ts1 & -> & Hr1); [intros d; by apply ids_at_earlier|]. ok_bind.
    assert (∃ ts2, ofold (λ ts writer, annotate writer Release [] [task_id t] ts) (indices (Some <$> ws)) ts1 = Ok ts2 ∧ refines ts0 ts2)
      as (ts2 & -> & Hr2).
    { revert ts1 Hr1. induction (indices (Some <$> ws)) as [|w l IH]; intros ts1 Hr1; [by exists ts1|].
      destruct (annotate_step ts1 w Release [] [task_id t] Hr1) as (ts3 & E & Hr3);
        [etrans; [apply Hwk; by left|done]|by intros d ?%elem_of_nil|].
      cbn [ofold]. rewrite E. ok_bind. apply IH; [|done]. intros j Hj. apply Hwk. by right. }
    ok_bind. apply (tracks_step k ts); try done. intros b Hb. apply list_elem_of_lookup in Hb as [q Hq].
    destruct (Forall2_lookup_l _ _ _ _ _ Em Hq) as (j & _ & Hj). rewrite Hj. split; [done|]. cbn [fst snd].
    intros j' [?|[= <-]]; [done|lia].
  - ok_bind. apply mapM_None in Em. apply Exists_exists in Em as (b & Hb & Hs). exists b.
    eapply word_error; [done..|]. by rewrite Hs.
Qed.

Lemma loop_exact n k ts states :
  (k + n)%nat = length ts0 → tracks k ts states →
  match ofold (unit_step st core) (seq k n) (ts, states) with
  | Ok (ts', states') => tracks (length ts0) ts' states'
  | Raise _ => ∃ b, scan (Some false) (word st core ts0 b) = None
  end.
Proof.
  revert k ts states. induction n as [|n IH]; intros k ts states Hk Htr; cbn [seq ofold]; [by replace (length ts0) with k by lia|].
  pose proof (step_exact k ts states ltac:(lia) Htr) as Hs. destruct (unit_step st core (ts, states) k) as [[ts1 states1]|e].
  - ok_bind. apply IH; [lia|done].
  - ok_bind. destruct Hs as [b Hb]. exists b. rewrite <- (take_drop (S k) ts0). unfold word in *. by rewrite omap_app, scan_app, Hb, scan_none.
Qed.
Lemma readable_blocks states : NoDup (dkeys states) →
  omap (λ e : block * (option nat * option nat), e.2.1) states = [] ↔ ∀ b, (block_state states b).1 = None.
Proof.
  intros Hnd. split.
  - intros Ho b. unfold block_state, dget_default. destruct (dget states b) as [[[i|] c]|] eqn:Hg; try done.
    apply dget_elem_of in Hg. assert (i ∈ omap (λ e : block * (option nat * option nat), e.2.1) states) as Hi.
    { apply list_elem_of_omap. by exists (b, (Some i, c)). }
    rewrite Ho in Hi. by apply elem_of_nil in Hi.
  - intros Hb. destruct (omap _ states) as [|i l] eqn:Eo; [done|]. exfalso.
    assert (i ∈ omap (λ e : block * (option nat * option nat), e.2.1) states) as Hi by (rewrite Eo; by left).
    apply list_elem_of_omap in Hi as ([b v] & Hin & E). specialize (Hb b). unfold block_state, dget_default in Hb.
    rewrite (elem_of_dget states b v) in Hb by done. cbn in *. congruence.
Qed.

(** C16. The pairing of unit flags is exact: over the tasks of a core whose block regions resolve, it
    succeeds if and only if on every 512-byte block the operations that touch it, in program order,
    are multiplications that hold the block and pairs of a multiplication that releases it and the
    copy that consumes it; otherwise it raises, whatever the annotations of earlier pairs did. *)
Theorem unit_flags_accept_exact :
  (∃ ts, unit_flag_pairs st core ts0 = Ok ts) ↔ ∀ b, paired (word st core ts0 b).
Proof.
  setoid_rewrite paired_scan. unfold unit_flag_pairs.
  assert (tracks 0 ts0 []) as H0.
  { split; [apply refines_refl|constructor|by intros b j [?|?]|done]. }
  pose proof (loop_exact (length ts0) 0 ts0 [] eq_refl H0) as Hl.
  destruct (ofold _ _ (ts0, [])) as [[ts1 states]|e]; ok_bind.
  - destruct Hl as [Hr Hnd _ Hst]. rewrite firstn_all in Hst. setoid_rewrite Hst.
    pose proof (readable_blocks states Hnd) as Hblk. destruct (omap _ states) as [|i l].
    + split; [|by eauto]. intros _ b. by rewrite (proj1 Hblk eq_refl b).
    + split; [by intros (? & ?)|]. intros Hall. exfalso. enough (i :: l = []) by done. apply Hblk. intros b.
      specialize (Hall b). injection Hall as Hall%bool_decide_eq_false. by apply eq_None_not_Some.
  - destruct Hl as [b Hb]. split; [by intros (? & ?)|]. intros Hall. specialize (Hall b). congruence.
Qed.
End core.

(** ** Two rounds over a tile of two blocks *)

Definition unit_tile : BufferRegion := Region "acc" L0C [VInt 256] "float32" (VInt 0) None (Some 0).
Definition unit_call (id operation key flagged : string) (flag : Z) : Task :=
  MkTask id operation 0 CUBE MATRIX 1 [] None [(key, VRegion unit_tile); (flagged, VDict [("unit_flag", VInt flag)])].
Definition unit_bridge : BridgeState :=
  MkBridge [("acc", MkBufferSpec "acc" L0C [VInt 256] "float32" None None None [])] [] [] [] [] [] [] 0.
Definition unit_tasks : list Task :=
  [unit_call "t0" "mma" "dst" "mma" 2; unit_call "t1" "mma" "dst" "mma" 3; unit_call "t2" "copy_l0c_to_gm" "src" "copy" 3;
   unit_call "t3" "mma" "dst" "mma" 3; unit_call "t4" "copy_l0c_to_gm" "src" "copy" 3].
Example unit_words :
  (λ k, word unit_bridge 0 unit_tasks (InBuffer "acc", k)) <$> [0; 1; 2] =
  [[Hold; Release; Consume; Release; Consume]; [Hold; Release; Consume; Release; Consume]; []].
Proof. vm_compute. reflexivity. Qed.
Lemma unit_tasks_roles : map role_of unit_tasks = [Some Hold; Some Release; Some Consume; Some Release; Some Consume].
Proof. vm_compute. reflexivity. Qed.

Lemma unit_flags_accept_exact_witness :
  (∀ b, paired (word unit_bridge 0 unit_tasks b)) ∧
  ¬ (∃ ts, unit_flag_pairs unit_bridge 0 (take 4 unit_tasks) = Ok ts) ∧
  ¬ (∀ b, paired (word unit_bridge 0 (take 4 unit_tasks) b)).
Proof.
  assert (∀ n t, t ∈ take n unit_tasks → sound_task t) as Hsound.
  { intros n t Ht%(list_elem_of_lookup _ _). destruct Ht as [i Hi]. apply lookup_take_Some in Hi as [Hi _].
    do 5 (destruct i as [|i]; [injection Hi as <-; split; [split; try done; vm_compute; try set_solver; constructor|done|by intros d ?%elem_of_nil]|]). done. }
  assert (∀ n t role, t ∈ take n unit_tasks → role_of t = Some role →
    unit_blocks unit_bridge 0 (mget (metadata t) (touched_key role)) = Ok (blocks_of unit_bridge 0 t role)) as Hblocks.
  { intros n t role Ht Hr. apply list_elem_of_lookup in Ht as [i Hi]. apply lookup_take_Some in Hi as [Hi _].
    do 5 (destruct i as [|i]; [injection Hi as <-; vm_compute in Hr; injection Hr as <-; vm_compute; reflexivity|]). done. }
  assert (∀ n, NoDup (task_id <$> take n unit_tasks)) as Hids.
  { intros n. rewrite fmap_take. eapply sublist_NoDup; [|apply sublist_take]. vm_compute. repeat constructor; set_solver. }
  assert (¬ ∃ ts, unit_flag_pairs unit_bridge 0 (take 4 unit_tasks) = Ok ts) as Hn.
  { intros [ts H]. vm_compute in H. discriminate. }
  split; [|split; [done|]].
  - apply (unit_flags_accept_exact unit_bridge 0 unit_tasks (Hids 5%nat) (Hsound 5%nat) (Hblocks 5%nat)). eexists. vm_compute. reflexivity.
  - intros Hall. apply Hn. by apply (unit_flags_accept_exact unit_bridge 0 (take 4 unit_tasks) (Hids 4%nat) (Hsound 4%nat) (Hblocks 4%nat)).
Defined.
