(* ===== verification/BuiltProgram.v ===== *)
(** The program that [build] of [bridge.py] makes: its tasks are those of the traversal, in
    emission order on every core, and every wait of the scheduler goes to an earlier one. *)

From S2P Require Import Prelude PyDict PySort PyStr Errors Values Layout Program Trace Config SyncOps SyncReset SyncModel.
From S2P Require Import Scheduler Schedule Progress Intervals MemoryView RegionOverlap PyNum Timing ExecEnv LinearTiming MeasuredA2.
From S2P Require Import BridgeOps BridgeMemory BridgeCache BridgeDeps BridgeExpr BridgeRegions BridgeDispatch BridgeVisit.
From S2P Require Import BridgeExprProofs BridgeClaims DecodeSound UnitFlags BridgeEmit VisitInvariant UnitFlagProofs.
Local Open Scope string_scope.
Local Open Scope Z_scope.
Local Open Scope list_scope.

(** ** Lists taken apart by a key *)

Section parts.
Context {A K : Type} `{EqDecision K} (key : A → K).

Lemma filter_order (P : A → Prop) `{∀ x, Decision (P x)} (l : list A) i j a b :
  filter P l !! j = Some a → filter P l !! i = Some b → (j < i)%nat →
  ∃ p q, (p < q)%nat ∧ l !! p = Some a ∧ l !! q = Some b.
Proof.
  revert i j. induction l as [|x l IH]; intros i j Hj Hi Hlt; [done|]. rewrite filter_cons in Hj, Hi. case_decide.
  - destruct i as [|i]; [lia|]. cbn in Hi. destruct j as [|j]; cbn in Hj.
    + injection Hj as ->. apply list_elem_of_lookup_2 in Hi. apply list_elem_of_filter in Hi as [_ Hi].
      apply list_elem_of_lookup in Hi as [q Hq]. exists 0%nat, (S q). split; [lia|done].
    + destruct (IH i j Hj Hi ltac:(lia)) as (p & q & ? & ? & ?). exists (S p), (S q). split; [lia|done].
  - destruct (IH i j Hj Hi Hlt) as (p & q & ? & ? & ?). exists (S p), (S q). split; [lia|done].
Qed.

Lemma filter_everything (P : A → Prop) `{∀ x, Decision (P x)} (l : list A) : (∀ x, x ∈ l → P x) → filter P l = l.
Proof.
  intros HP. induction l as [|x l IH]; [done|]. rewrite filter_cons_True by (apply HP; by left).
  f_equal. apply IH. intros. apply HP. by right.
Qed.
Lemma parts_insert t l ks : NoDup ks → key t ∈ ks →
  flat_map (λ c, filter (λ x, key x = c) (t :: l)) ks ≡ₚ t :: flat_map (λ c, filter (λ x, key x = c) l) ks.
Proof.
  induction ks as [|c ks IH]; intros Hnd Hin; [by apply elem_of_nil in Hin|]. apply NoDup_cons in Hnd as [Hc Hnd].
  cbn [flat_map]. destruct (decide (key t = c)) as [E|E].
  - rewrite filter_cons_True by done. rewrite <- app_comm_cons. f_equiv. f_equiv. assert (∀ c', c' ∈ ks → key t ≠ c') as Hne by (intros c' Hc' E'; apply Hc; by rewrite <- E, E').
    clear -Hne. induction ks as [|c' ks IH]; [done|]. cbn [flat_map]. rewrite filter_cons_False by (apply Hne; by left).
    f_equiv. apply IH. intros. apply Hne. by right.
  - apply elem_of_cons in Hin as [?|Hin]; [done|]. rewrite filter_cons_False by done. rewrite (IH Hnd Hin). by rewrite Permutation_middle.
Qed.
Lemma parts_perm l ks : NoDup ks → (∀ t, t ∈ l → key t ∈ ks) → flat_map (λ c, filter (λ x, key x = c) l) ks ≡ₚ l.
Proof.
  intros Hnd. induction l as [|t l IH]; intros Hin.
  - clear. induction ks as [|c ks IH]; [done|]. cbn. by rewrite IH.
  - rewrite parts_insert by (done || (apply Hin; by left)). f_equiv. apply IH. intros. apply Hin. by right.
Qed.
Lemma parts_filter (R : K → list A) ks c : NoDup ks → (∀ c t, t ∈ R c → key t = c) →
  filter (λ x, key x = c) (flat_map R ks) = if decide (c ∈ ks) then R c else [].
Proof.
  intros Hnd Hkey. induction ks as [|k ks IH]; [by rewrite decide_False by set_solver|]. apply NoDup_cons in Hnd as [Hk Hnd].
  cbn [flat_map]. rewrite filter_app, IH by done. destruct (decide (k = c)) as [->|Hkc].
  - rewrite (decide_False (P := c ∈ ks)), decide_True by set_solver. rewrite app_nil_r.
    apply filter_everything. intros t. apply Hkey.
  - rewrite (filter_none _ (R k)); [|intros t Ht ?; apply Hkc; by rewrite <- (Hkey k t)].
    cbn. destruct (decide (c ∈ ks)); [rewrite decide_True by by right|rewrite decide_False by set_solver]; done.
Qed.
End parts.

(** ** Positions in the order of emission *)

Section emitted.
Context (log : list Task) (b : BridgeState) (Htraced : traced log b).

Definition at_index (i : nat) (x : string) : Prop := ∃ t, log !! i = Some t ∧ task_id t = x.
(** [x] was emitted after [y]. *)
Definition falls (x y : string) : Prop := ∃ i j, (j < i)%nat ∧ at_index i x ∧ at_index j y.

Lemma at_index_unique i j x : at_index i x → at_index j x → i = j.
Proof.
  intros (t & Ht & Hx) (u & Hu & Hy). destruct (tr_names _ _ Htraced i t Ht) as [l El], (tr_names _ _ Htraced j u Hu) as [l' El'].
  rewrite Hx in El. rewrite Hy in El'. rewrite El in El'. apply task_name_inj in El'; [lia|..].
  - apply (to_core _ (tr_ok _ _ Htraced t (list_elem_of_lookup_2 _ _ _ Ht))).
  - apply (to_core _ (tr_ok _ _ Htraced u (list_elem_of_lookup_2 _ _ _ Hu))).
Qed.
Lemma log_ids_unique : NoDup (task_id <$> log).
Proof.
  apply NoDup_alt. intros i j x Hi Hj. rewrite list_lookup_fmap in Hi, Hj.
  apply fmap_Some in Hi as (t & Ht & ->), Hj as (u & Hu & E). eapply at_index_unique; [by exists t|by exists u].
Qed.
Lemma falling_acyclic (E : string → string → Prop) : (∀ x y, E x y → falls x y) → ∀ x, ¬ tc E x x.
Proof.
  intros HE. assert (∀ x y, tc E x y → falls x y) as Htc.
  { induction 1 as [x y H|x y z H _ IH]; [by apply HE|]. destruct (HE _ _ H) as (i & j & Hij & Hx & Hy), IH as (k & m & Hkm & Hy' & Hz).
    exists i, m. rewrite (at_index_unique _ _ _ Hy Hy') in Hij. split; [lia|done]. }
  intros x (i & j & Hij & Hi & Hj)%Htc. pose proof (at_index_unique _ _ _ Hi Hj). lia.
Qed.

(** ** The tasks of the program *)

Definition on_core (core : Z) : list Task := filter (λ t, core_id t = core) log.
Context (final : Z → list Task) (Hfinal : ∀ core, refines (on_core core) (final core)).
Context (cores : list Z) (Hcores : NoDup cores) (Hall : ∀ t, t ∈ log → core_id t ∈ cores).

Lemma final_task core t : t ∈ final core → core_id t = core ∧
  ∃ i t0, on_core core !! i = Some t0 ∧ final core !! i = Some t ∧ refined (on_core core) i t0 t ∧ t0 ∈ log.
Proof.
  intros [i Hi]%list_elem_of_lookup. destruct (refines_lookup _ _ _ _ (Hfinal core) Hi) as (t0 & H0 & Hr).
  pose proof (list_elem_of_lookup_2 _ _ _ H0) as Hin. apply list_elem_of_filter in Hin as [Hc Hin].
  split; [by rewrite (rf_core _ _ _ _ Hr)|]. by exists i, t0.
Qed.
Lemma final_order core j i u t :
  final core !! j = Some u → final core !! i = Some t → (j < i)%nat → falls (task_id t) (task_id u).
Proof.
  intros Hu Ht Hlt. destruct (refines_lookup _ _ _ _ (Hfinal core) Hu) as (u0 & Hu0 & Ru).
  destruct (refines_lookup _ _ _ _ (Hfinal core) Ht) as (t0 & Ht0 & Rt).
  destruct (filter_order _ _ _ _ _ _ Hu0 Ht0 Hlt) as (p & q & Hpq & Hp & Hq). exists q, p. split; [done|].
  rewrite (rf_id _ _ _ _ Ru), (rf_id _ _ _ _ Rt). split; [by exists t0|by exists u0].
Qed.

Definition all_final : list Task := flat_map final cores.
Lemma elem_of_final t : t ∈ all_final ↔ ∃ core, core ∈ cores ∧ t ∈ final core.
Proof.
  unfold all_final. rewrite list_elem_of_In, in_flat_map. setoid_rewrite list_elem_of_In. naive_solver.
Qed.
Lemma final_ids : task_id <$> all_final ≡ₚ task_id <$> log.
Proof.
  rewrite <- (parts_perm core_id log cores Hcores Hall) at 1. unfold all_final. clear Hall Hcores.
  induction cores as [|c cs IH]; [done|]. cbn [flat_map]. rewrite !fmap_app, IH. f_equiv.
  by rewrite (refines_ids _ _ (Hfinal c)).
Qed.
Lemma final_unique : NoDup (task_id <$> all_final).
Proof. rewrite final_ids. apply log_ids_unique. Qed.

(** Dependencies go back in the order of emission. *)
Lemma final_edge t d : t ∈ all_final → d ∈ dependencies t → falls (task_id t) d.
Proof.
  intros (core & _ & Ht)%elem_of_final Hd. destruct (final_task core t Ht) as (_ & i & t0 & H0 & Hi & Hr & Hlog).
  destruct (rf_edges _ _ _ _ Hr d Hd) as [Hold|(j & u & Hj & Hu & <-)].
  - apply list_elem_of_lookup in Hlog as [q Hq]. destruct (tr_edges _ _ Htraced q t0 d Hq Hold) as (p & u & Hp & Hu & <-).
    exists q, p. split; [done|]. split; [|by exists u]. exists t0. split; [done|]. symmetry. apply Hr.
  - destruct (filter_order _ _ _ _ _ _ Hu H0 Hj) as (p & q & Hpq & Hp & Hq). exists q, p. split; [done|].
    split; [exists t0; split; [done|symmetry; apply Hr]|by exists u].
Qed.
Lemma final_known : deps_known all_final.
Proof.
  intros t d Ht Hd. rewrite final_ids. destruct (final_edge t d Ht Hd) as (_ & j & _ & _ & (u & Hu & <-)).
  apply list_elem_of_fmap_2. by eapply list_elem_of_lookup_2.
Qed.
Lemma final_acyclic x : ¬ tc (task_edge all_final) x x.
Proof. revert x. apply falling_acyclic. intros x y (t & Ht & <- & Hd). by apply final_edge. Qed.
Lemma final_ok t : t ∈ all_final → task_ok t.
Proof.
  intros (core & _ & Ht)%elem_of_final. destruct (final_task core t Ht) as (_ & i & t0 & _ & _ & Hr & Hlog).
  by apply (rf_ok _ _ _ _ Hr), (tr_ok _ _ Htraced).
Qed.

(** So does every wait of the scheduler: tasks of one resource run in the order of their core. *)
Lemma final_waits x : ¬ tc (waits_for all_final) x x.
Proof.
  revert x. apply falling_acyclic. intros x y (t & Ht & <- & Hy). unfold required_ids in Hy.
  rewrite elem_of_fromkeys, elem_of_app in Hy. destruct Hy as [Hy|Hy].
  { unfold execution_dependencies in Hy. apply list_elem_of_filter in Hy as [_ Hy]. by apply final_edge. }
  apply list_elem_of_split in Ht as (pre & post & E). rewrite E in Hy.
  rewrite fifo_predecessors_spec in Hy by (rewrite <- E; apply final_unique).
  destruct (last (filter _ pre)) as [a|] eqn:Ha; cbn in Hy; [|by apply elem_of_nil in Hy].
  apply list_elem_of_singleton in Hy as ->. rewrite last_lookup in Ha. apply list_elem_of_lookup_2 in Ha.
  apply list_elem_of_filter in Ha as [Hkey Ha].
  assert (core_id a = core_id t) as Hcore by (unfold resource_key in Hkey; congruence).
  assert (filter (λ t', core_id t' = core_id t) all_final = final (core_id t)) as Hf.
  { unfold all_final. rewrite (parts_filter core_id); [|done|intros c u Hu; by apply (final_task c u)].
    rewrite decide_True; [done|]. assert (t ∈ all_final) as (c & Hc & Hin)%elem_of_final by (rewrite E; set_solver).
    by rewrite (proj1 (final_task c t Hin)). }
  rewrite E, filter_app, filter_cons_True in Hf by done.
  assert (a ∈ filter (λ t', core_id t' = core_id t) pre) as [j Hj]%list_elem_of_lookup by by apply list_elem_of_filter.
  apply (final_order (core_id t) j (length (filter (λ t', core_id t' = core_id t) pre)) a t).
  - rewrite <- Hf. by apply lookup_app_l_Some.
  - rewrite <- Hf. by rewrite list_lookup_middle.
  - by eapply lookup_lt_Some.
Qed.
End emitted.

(** ** The end of [build] *)

Lemma omap_list_total {A B} (f : A → result B) (g : A → B) l :
  (∀ a, a ∈ l → f a = Ok (g a)) → omap_list f l = Ok (g <$> l).
Proof.
  induction l as [|a l IH]; intros Hf; [done|]. cbn [omap_list]. rewrite Hf by by left. ok_bind.
  rewrite IH by (intros; apply Hf; by right). done.
Qed.
Lemma buffer_names_unique b : buffers_ok b → NoDup (bs_name <$> dvalues (br_buffers b)).
Proof.
  intros Hb. assert (bs_name <$> dvalues (br_buffers b) = dkeys (br_buffers b)) as ->; [|apply Hb].
  pose proof (bo_keys _ Hb) as Hnd. pose proof (bo_names _ Hb) as Hn. revert Hnd Hn. generalize (br_buffers b) as d. intros d.
  unfold dvalues, dkeys. induction d as [|[k v] d IH]; intros Hnd Hn; [done|]. cbn in *. apply NoDup_cons in Hnd as [Hk Hnd].
  f_equal; [apply (Hn k v); by rewrite decide_True|]. apply IH; [done|]. intros n spec Hg. apply Hn.
  rewrite decide_False; [done|]. intros <-. apply Hk. apply (dkeys_elem_of d). by exists spec.
Qed.

(** The tasks of the cores after the unit flags. *)
Lemma flagged_tasks b log tasks :
  traced log b → validate_unit_flag_pairs b = Ok tasks →
  dkeys tasks = dkeys (br_tasks b) ∧ ∀ core, refines (on_core log core) (dget_default [] tasks core).
Proof.
  intros Ht H. unfold validate_unit_flag_pairs in H. apply omap_list_ok in H.
  assert (∀ core ts, (core, ts) ∈ br_tasks b → ∀ t, t ∈ ts → hardware_known t) as Hk.
  { intros core ts Hin t Hts d. apply (tr_hardware _ _ Ht). pose proof (tr_tasks _ _ Ht core) as E.
    apply elem_of_dget in Hin; [|apply Ht]. unfold dget_default in E. rewrite Hin in E. cbn in E. rewrite E in Hts.
    by apply list_elem_of_filter in Hts as [_ Hts]. }
  assert (∀ core, on_core log core = dget_default [] (br_tasks b) core) as Hon by (intros; symmetry; apply Ht).
  setoid_rewrite Hon. clear Hon Ht. revert Hk H. generalize (br_tasks b) as d. intros d Hk H.
  induction H as [|[c ts] [c' ts'] d d' Hf _ IH]; [split; [done|]; intros; apply refines_refl|].
  apply outcome_bind_ok in Hf as (ts1 & Hu & [= <- <-]). apply unit_flag_pairs_refines in Hu; [|apply (Hk c); by left].
  destruct IH as [Hkeys Hr]; [intros; eapply Hk; [by right|done]|]. split; [exact (f_equal (cons c) Hkeys)|].
  intros core. unfold dget_default. cbn [dget]. case_decide; [done|]. apply Hr.
Qed.

Section build.
Context {TVM : Tvm} {NODES : TvmNodes} (depth : nat) (profile : MeasuredWithFallback + TimingProfile) (limit : Z).

(** The names of the buffers of a function. *)
Definition function_names (f : prim_func) : list string := (tb_name <$> fn_parameters f) ++ declared (fn_body f).

Lemma new_visit_sane : sane ([], vs_bridge new_visit).
Proof.
  split.
  - split; cbn [fst snd]; try done; try (intros *; by intros ?%elem_of_nil); [constructor|].
    intros w k e He. destruct w; by apply elem_of_nil in He.
  - split; done || constructor.
Qed.

Lemma lowered_facts f s tasks :
  no_slot (function_names f) → lowered depth profile limit f new_visit = (s, Ok tasks) →
  ∃ log b, traced log b ∧ buffers_ok b ∧ validate_unit_flag_pairs b = Ok tasks ∧ vs_bridge s = set_tasks tasks b.
Proof.
  intros Hn H. apply no_slot_app in Hn as [Hp Hb].
  assert (visits ([], vs_bridge new_visit) (_ ← collect_memory_plan depth f;
    _ ← each (collect_parameter depth) (fn_parameters f);
    visit_stmt depth profile limit (fn_body f) initial_context) fine) as Hv.
  { eapply visits_bind; [apply visits_plan|]. intros w1 [] _ _. eapply visits_bind.
    - apply visits_each. intros p w2 Hin _. apply visits_parameter, Hp. by apply list_elem_of_fmap_2.
    - intros w2 [] _ _. by apply visits_stmt. }
  unfold lowered in H. unfold mbind, stM_bind in H, Hv.
  destruct (collect_memory_plan depth f new_visit) as [s1 [[]|]] eqn:E1; [|done].
  destruct (each (collect_parameter depth) (fn_parameters f) s1) as [s2 [[]|]] eqn:E2; [|done].
  destruct (visit_stmt depth profile limit (fn_body f) initial_context s2) as [s3 [[]|]] eqn:E3; [|done].
  destruct (Hv new_visit s3 (Ok tt) eq_refl new_visit_sane) as [[e ?]|([log b] & _ & [Ht Hbo] & Hs3 & _)];
    [by rewrite E1, E2|done|]. cbn [fst snd] in *.
  unfold st_get, of_outcome, st_lift, st_put in H. rewrite Hs3 in H.
  destruct (validate_unit_flag_pairs b) as [ts|] eqn:Eu; [|done]. injection H as <- <-. exists log, b. done.
Qed.

(** The cores of the program, and their tasks in the order of their identifiers. *)
Definition sorted_cores (tasks : dict Z (list Task)) : list Z := py_sorted Z.leb (dkeys tasks).
Definition final_of (tasks : dict Z (list Task)) (core : Z) : list Task := dget_default [] tasks core.
Definition cores_of (tasks : dict Z (list Task)) : list CoreProgram :=
  match (λ c, MkCore c (final_of tasks c)) <$> sorted_cores tasks with [] => [MkCore 0 []] | cores => cores end.

(** What the traversal establishes for the tasks of the cores. *)
Record settled (log : list Task) (b : BridgeState) (tasks : dict Z (list Task)) : Prop := {
  sl_traced : traced log b;
  sl_buffers : buffers_ok b;
  sl_final : ∀ core, refines (on_core log core) (final_of tasks core);
  sl_unique : NoDup (sorted_cores tasks);
  sl_all : ∀ t, t ∈ log → core_id t ∈ sorted_cores tasks;
  sl_cores : ∀ core, core ∈ sorted_cores tasks → 0 <= core;
}.
Lemma lowered_settled f s tasks :
  no_slot (function_names f) → lowered depth profile limit f new_visit = (s, Ok tasks) →
  ∃ log b, settled log b tasks ∧ vs_bridge s = set_tasks tasks b.
Proof.
  intros Hn H. destruct (lowered_facts f s tasks Hn H) as (log & b & Ht & Hb & Hu & Hs).
  destruct (flagged_tasks b log tasks Ht Hu) as [Hkeys Hr]. exists log, b. split; [|done]. split; try done.
  - unfold sorted_cores. rewrite py_sorted_perm, Hkeys. apply Ht.
  - intros t Hin. unfold sorted_cores. rewrite elem_of_py_sorted, Hkeys. apply dkeys_elem_of.
    pose proof (tr_tasks _ _ Ht (core_id t)) as E. unfold dget_default in E.
    destruct (dget (br_tasks b) (core_id t)) as [l|]; [by exists l|]. cbn in E.
    assert (t ∈ filter (λ u, core_id u = core_id t) log) as Hf by by apply list_elem_of_filter.
    rewrite <- E in Hf. by apply elem_of_nil in Hf.
  - intros core. unfold sorted_cores. rewrite elem_of_py_sorted, Hkeys. apply Ht.
Qed.

Lemma core_programs_total log b tasks : settled log b tasks → core_programs tasks = Ok (cores_of tasks).
Proof.
  intros Hs. unfold core_programs. fold (sorted_cores tasks).
  rewrite (omap_list_total _ (λ c, MkCore c (final_of tasks c))).
  - ok_bind. unfold cores_of. by destruct (_ <$> sorted_cores tasks).
  - intros c Hc. unfold core_program_init. pose proof (sl_cores _ _ _ Hs c Hc) as H0. apply Z.leb_le in H0 as ->.
    cbn [ensure]. unfold ensure. cbn [require]. ok_bind. fold (final_of tasks c).
    assert (forallb (λ t, core_id t =? c) (final_of tasks c) = true) as ->; [|done].
    apply forallb_forall. intros t Ht%list_elem_of_In. apply Z.eqb_eq. by eapply final_task in Ht as [? _]; [|apply Hs].
Qed.
Lemma cores_of_tasks tasks : kernel_tasks (cores_of tasks) = all_final (final_of tasks) (sorted_cores tasks).
Proof.
  unfold cores_of, kernel_tasks, all_final. induction (sorted_cores tasks) as [|c cs IH]; [done|]. cbn.
  f_equal. clear. induction cs as [|c cs IH]; [done|]. cbn. by rewrite IH.
Qed.
Lemma cores_of_unique tasks : NoDup (sorted_cores tasks) → NoDup (cp_core_id <$> cores_of tasks).
Proof.
  unfold cores_of. intros Hnd. assert (cp_core_id <$> ((λ c, MkCore c (final_of tasks c)) <$> sorted_cores tasks) = sorted_cores tasks) as E.
  { rewrite <- list_fmap_compose. apply list_fmap_id. }
  destruct (sorted_cores tasks) as [|c cs]; [apply NoDup_singleton|]. cbn [fmap list_fmap] in *. by rewrite E.
Qed.

(** The constructor of the program accepts them. *)
Lemma program_total log b tasks name platform p metadata :
  settled log b tasks → nonempty name = true → normalize_platform platform = Ok p →
  kernel_program_init name platform (cores_of tasks) (dvalues (br_buffers b)) metadata =
    Ok (MkKernel name p (cores_of tasks) (dvalues (br_buffers b)) metadata).
Proof.
  intros Hs Hname Hp. unfold kernel_program_init. rewrite Hname, Hp. unfold ensure. cbn [require]. ok_bind.
  rewrite (proj2 (validate_unique_spec "core" _)) by (apply cores_of_unique, Hs). ok_bind.
  rewrite (proj2 (validate_unique_spec "buffer" _)) by (apply buffer_names_unique, Hs). ok_bind.
  rewrite cores_of_tasks.
  assert (NoDup (task_id <$> all_final (final_of tasks) (sorted_cores tasks))) as Hnd.
  { eapply final_unique; apply Hs. }
  rewrite (proj2 (validate_unique_spec "task" _)) by done. ok_bind.
  assert (deps_known (all_final (final_of tasks) (sorted_cores tasks))) as Hk by (eapply final_known; apply Hs).
  match goal with |- context [forallb ?f ?l] => assert (forallb f l = true) as -> end.
  { apply forallb_forall. intros t Ht%list_elem_of_In. apply forallb_forall. intros d Hd%list_elem_of_In.
    apply mem_str_true. by eapply Hk. }
  cbn [require]. ok_bind. pose proof (acyclic_result _ Hnd Hk) as Hac.
  destruct (validate_acyclic _) as [[]|e]; [done|]. destruct Hac as (_ & x & Hx).
  exfalso. revert Hx. eapply final_acyclic; apply Hs.
Qed.

Lemma built_settled platform f s program :
  no_slot (function_names f) → built depth profile limit platform f = (s, Ok program) →
  ∃ log b tasks, settled log b tasks ∧ kp_buffers program = dvalues (br_buffers b) ∧
    Program.tasks program = all_final (final_of tasks) (sorted_cores tasks) ∧ program_wf program.
Proof.
  intros Hn H. unfold built, build in H. unfold mbind, stM_bind at 1 in H.
  destruct (lowered depth profile limit f new_visit) as [s1 [tasks|e]] eqn:El; [|done].
  destruct (lowered_settled f s1 tasks Hn El) as (log & b & Hs & Hb). exists log, b, tasks. split; [done|].
  unfold stM_bind, st_get, of_outcome, st_lift in H. rewrite Hb, (core_programs_total _ _ _ Hs) in H.
  cbn [mbind outcome_bind] in H. destruct (kernel_program_init _ _ _ _ _) as [k|e] eqn:Ek; [|done]. injection H as <- <-.
  destruct (kernel_init_wf _ _ _ _ _ _ Ek) as (Hwf & Htasks & _). rewrite Htasks, cores_of_tasks.
  split; [|done]. unfold kernel_program_init in Ek. inv_res. done.
Qed.

(** ** Properties *)

(** C13. The checks of [KernelProgram] never reject what the traversal made: if the visit of a function
    and the pairing of its unit flags succeed, then [build] returns a program — cores, buffers and
    tasks have distinct names, every dependency names a task of the program, and there is no
    dependency cycle.  Buffers must not be named like the slots of tiled multiplications. *)
Theorem built_program_accepted platform p f s tasks :
  no_slot (function_names f) → nonempty (default "main" (fn_symbol f)) = true → normalize_platform platform = Ok p →
  lowered depth profile limit f new_visit = (s, Ok tasks) →
  ∃ program, built depth profile limit platform f = (s, Ok program) ∧ kp_cores program = cores_of tasks ∧
    kp_platform program = p ∧ program_wf program.
Proof.
  intros Hn Hname Hp Hl. destruct (lowered_settled f s tasks Hn Hl) as (log & b & Hs & Hb).
  eexists. split.
  - unfold built, build. unfold mbind, stM_bind at 1. rewrite Hl. unfold stM_bind, st_get, of_outcome, st_lift.
    rewrite Hb, (core_programs_total _ _ _ Hs). cbn [mbind outcome_bind br_buffers set_tasks].
    by rewrite (program_total _ _ _ _ _ _ _ Hs Hname Hp).
  - split; [done|]. split; [done|]. by eapply kernel_init_wf, program_total.
Qed.

(** C14. A built program never deadlocks by its dependencies. Let its buffers not be named like the
    slots of tiled multiplications. With the no-op synchronization model, a configuration of
    the program's platform that sets no limit on cycles and detects deadlocks, and a wall clock
    that stays within the execution timeout, the scheduler places every task, within one pass
    per task, because every dependency and every first-in-first-out wait goes to a task that
    was emitted earlier. *)
Theorem built_program_schedules platform f s program config set_order clock :
  no_slot (function_names f) → built depth profile limit platform f = (s, Ok program) →
  Config.platform config = kp_platform program → deadlock_detect config = true → max_cycles config = None →
  (∀ k, (clock (S k) - clock 0%nat <= execution_timeout_s config)%Q) →
  ∃ rs, schedule config set_order clock (length (Program.tasks program)) program = Some (Ok rs).
Proof.
  intros Hn Hbuilt Hplat Hdd Hmax Hcl. destruct (built_settled _ _ _ _ Hn Hbuilt) as (log & b & tasks & Hs & _ & Htasks & Hwf).
  apply noop_schedule_complete; try done; rewrite Htasks.
  - intros t. eapply final_ok; apply Hs.
  - eapply final_waits; apply Hs.
Qed.

(** C15. Every region that a task of a built program reads or writes lies in a buffer of the program:
    the buffer exists, the region has its scope, and it belongs to the core of the task unless the
    scope is shared — for every operation the bridge decodes, the scalar stores and the steps of a
    tiled multiplication. Buffers must not be named like the slots of tiled multiplications. *)
Theorem built_regions_placed platform f s program t r :
  no_slot (function_names f) → built depth profile limit platform f = (s, Ok program) →
  t ∈ Program.tasks program → r ∈ reads_of (metadata t) ++ writes_of (metadata t) →
  ∃ spec, spec ∈ kp_buffers program ∧ bs_name spec = rg_buffer r ∧ rg_scope r = bs_scope spec ∧
    rg_core_id r = if shared_scope (bs_scope spec) then None else Some (core_id t).
Proof.
  intros Hn Hbuilt Ht Hr. destruct (built_settled _ _ _ _ Hn Hbuilt) as (log & b & tasks & Hs & Hb & Htasks & _).
  rewrite Htasks in Ht. apply elem_of_final in Ht as (core & _ & Ht).
  destruct (final_task _ _ (sl_final _ _ _ Hs) core t Ht) as (Hc & i & t0 & _ & _ & Hf & Hlog).
  pose proof (rf_operands _ _ _ _ Hf) as Hsame. rewrite (reads_of_same _ _ Hsame), (writes_of_same _ _ Hsame) in Hr.
  destruct (tr_placed _ _ (sl_traced _ _ _ Hs) t0 Hlog r Hr) as (spec & Hg & Hscope & Hcore).
  exists spec. rewrite Hb, (rf_core _ _ _ _ Hf). split; [|split; [by apply (bo_names _ (sl_buffers _ _ _ Hs))|done]].
  apply dget_elem_of in Hg. unfold dvalues. apply list_elem_of_In, in_map_iff. exists (rg_buffer r, spec).
  split; [done|by apply list_elem_of_In].
Qed.
End build.

(** ** A kernel *)

(** On each of two cores, a tile goes from GM to UB, through [exp] and back, in a loop with a
    break in its first iteration. *)
Definition kernel_handle (k : Z) (name : string) : Var := MkVar k name "handle".
Definition kernel_int (z : Z) : expr := EInt "int32" z.
Definition kernel_buffer (name : string) (n k : Z) : tir_buffer expr :=
  MkTirBuffer name (kernel_handle k (name +:+ "_d")) "float32" [kernel_int n] [] (kernel_int 0) "global".
Definition kernel_pointer (name : string) (k n : Z) : expr :=
  ECall ACCESS_PTR "handle"
    [EOther "Call" "float32" "ann"; EVar (kernel_handle k (name +:+ "_d")); kernel_int 0; kernel_int n; kernel_int 1].
Definition kernel_call (op : string) (args : list expr) : stmt := SEvaluate (ECall op "handle" args).
Definition kernel_index : Var := MkVar 7 "i" "int32".
Definition kernel_core : Var := MkVar 9 "core" "int32".
Definition tile_copies : stmt :=
  SSeq [kernel_call "tl.ascend_copy_gm_to_ub" [kernel_pointer "A" 1 64; kernel_pointer "ub" 3 64; kernel_int 64];
        kernel_call "tl.ascend_exp" [kernel_pointer "ub" 3 64; kernel_pointer "ub" 3 64; kernel_int 64];
        kernel_call "tl.ascend_copy_ub_to_gm" [kernel_pointer "ub" 3 64; kernel_pointer "B" 2 64; kernel_int 64];
        SIf (EBin "EQ" "bool" (EVar kernel_index) (kernel_int 0)) (kernel_call "tl.loop_break" []) None].
Definition kernel : prim_func :=
  MkFunc (Some "k") [(kernel_handle 3 "ub_d", kernel_int 0)] [] [] [kernel_buffer "A" 128 1; kernel_buffer "B" 128 2]
    (SAttr "thread_extent" (ThreadAxis "blockIdx.x" kernel_core) (kernel_int 2)
      (SAllocate (kernel_handle 3 "ub_d") "shared.ub" "float32" [kernel_int 64]
        (SAttr "resource_scope" (NodeVar (MkVar 8 "scope" "int32")) (kernel_int 1)
          (SFor kernel_index (kernel_int 0) (kernel_int 2) tile_copies)))).
Definition kernel_nodes : TvmNodes := {| tvm_const z d := EInt d z; tvm_span _ := None |}.
Definition built_kernel : Visit * outcome interruption KernelProgram :=
  @built folding kernel_nodes 20 unit_profile 100 "A2" kernel.
Definition kernel_program : KernelProgram :=
  match built_kernel.2 with Ok p => p | Raise _ => MkKernel "" "" [] [] [] end.
Definition lowered_kernel : Visit * outcome interruption (dict Z (list Task)) :=
  @lowered folding kernel_nodes 20 unit_profile 100 kernel new_visit.
Definition kernel_tasks_of : dict Z (list Task) := match lowered_kernel.2 with Ok t => t | Raise _ => [] end.

Example kernel_edges :
  (λ t, (task_id t, dependencies t)) <$> Program.tasks kernel_program =
  [("c0-vector0-0", []); ("c0-vector0-1", ["c0-vector0-0"]); ("c0-vector0-2", ["c0-vector0-1"]);
   ("c1-vector0-3", []); ("c1-vector0-4", ["c1-vector0-3"]); ("c1-vector0-5", ["c1-vector0-4"])].
Proof. vm_compute. reflexivity. Qed.
Lemma kernel_names : no_slot (function_names kernel).
Proof. intros n Hn. apply list_elem_of_In in Hn. cbn in Hn. by destruct Hn as [<-|[<-|[<-|[]]]]. Qed.
Lemma kernel_built : @built folding kernel_nodes 20 unit_profile 100 "A2" kernel = (built_kernel.1, Ok kernel_program).
Proof. vm_compute. reflexivity. Qed.
Lemma kernel_lowered : @lowered folding kernel_nodes 20 unit_profile 100 kernel new_visit = (lowered_kernel.1, Ok kernel_tasks_of).
Proof. vm_compute. reflexivity. Qed.

Lemma built_program_accepted_witness :
  ∃ program, @built folding kernel_nodes 20 unit_profile 100 "A2" kernel = (lowered_kernel.1, Ok program) ∧
    kp_cores program = cores_of kernel_tasks_of ∧ kp_platform program = "A2" ∧ program_wf program.
Proof.
  exact (@built_program_accepted folding kernel_nodes 20 unit_profile 100 "A2" "A2" kernel lowered_kernel.1 kernel_tasks_of
    kernel_names eq_refl eq_refl kernel_lowered).
Defined.

(** The tasks and regions of the kernel, as the theorems on built programs need them. *)
Lemma kernel_platform : Config.platform unlimited_config = kp_platform kernel_program.
Proof. vm_compute. reflexivity. Qed.
Lemma still_clock_within k : (still_clock (S k) - still_clock 0%nat <= execution_timeout_s unlimited_config)%Q.
Proof. vm_compute. discriminate. Qed.
Definition kernel_task (i : nat) : Task := nth i (Program.tasks kernel_program) (MkTask "" "" 0 CONTROL SCALAR 1 [] None []).
Definition kernel_region (i : nat) : BufferRegion := nth 0 (reads_of (metadata (kernel_task i))) (Region "" GM [] "" VNone None None).
Lemma kernel_task_4 : kernel_task 4 ∈ Program.tasks kernel_program.
Proof. unfold kernel_task. apply list_elem_of_In, nth_In. vm_compute. lia. Qed.
Lemma kernel_region_4 : kernel_region 4 ∈ reads_of (metadata (kernel_task 4)) ++ writes_of (metadata (kernel_task 4)).
Proof. apply list_elem_of_In. vm_compute. left. reflexivity. Qed.

Lemma built_program_schedules_witness :
  ∃ rs, schedule unlimited_config elements still_clock (length (Program.tasks kernel_program)) kernel_program = Some (Ok rs).
Proof.
  exact (@built_program_schedules folding kernel_nodes 20 unit_profile 100 "A2" kernel built_kernel.1 kernel_program
    unlimited_config elements still_clock kernel_names kernel_built kernel_platform eq_refl eq_refl still_clock_within).
Defined.
Lemma built_regions_placed_witness :
  ∃ spec, spec ∈ kp_buffers kernel_program ∧ bs_name spec = rg_buffer (kernel_region 4) ∧
    rg_scope (kernel_region 4) = bs_scope spec ∧
    rg_core_id (kernel_region 4) = if shared_scope (bs_scope spec) then None else Some (core_id (kernel_task 4)).
Proof.
  exact (@built_regions_placed folding kernel_nodes 20 unit_profile 100 "A2" kernel built_kernel.1 kernel_program
    (kernel_task 4) (kernel_region 4) kernel_names kernel_built kernel_task_4 kernel_region_4).
Defined.
