(* ===== verification/LoweringClaims.v ===== *)
(** Two properties of lowering ([bridge.py]): the L1 windows behind one L0 tile, cut at the blocks
    of C0, contain the physical addresses of the elements of the tile and no others; and how a loop
    break in a branch that is not decided at lowering changes the program. *)

From S2P Require Import Prelude PyDict PySort PyStr Errors Layout Values Program Trace MemoryView Timing PyNum.
From S2P Require Import ExecEnv LinearTiming MeasuredA2 RegionOverlap BridgeOps BridgeMemory BridgeClaims BridgeExpr.
From S2P Require Import BridgeExprProofs BridgeRegions DecodeVector DecodeReduce DecodeSort DecodeCopy DecodeMatrix.
From S2P Require Import BridgeVisit UnitFlags DecodeSound BridgeEmit VisitInvariant BuiltProgram.
Local Open Scope string_scope.
Local Open Scope Z_scope.
Local Open Scope list_scope.

(** ** Pieces *)

Lemma segments_inside fuel width cursor limit c p :
  0 < width → (c, p) ∈ segments fuel width cursor limit →
  cursor <= c ∧ 0 < p ∧ c + p <= limit ∧ c mod width + p <= width.
Proof.
  intros Hw. revert cursor. induction fuel as [|fuel IH]; intros cursor; cbn [segments]; [by intros ?%elem_of_nil|].
  destruct (Z.ltb_spec cursor limit) as [Hlt|]; [|by intros ?%elem_of_nil]. pose proof (Z.mod_pos_bound cursor width Hw).
  cbv zeta. intros [[= -> ->]|Hin]%elem_of_cons; [lia|]. specialize (IH _ Hin). lia.
Qed.
Lemma segments_cover fuel width cursor limit x :
  0 < width → limit - cursor <= Z.of_nat fuel → cursor <= x < limit →
  ∃ c p, (c, p) ∈ segments fuel width cursor limit ∧ c <= x < c + p.
Proof.
  intros Hw. revert cursor. induction fuel as [|fuel IH]; intros cursor Hf Hx; [lia|]. cbn [segments].
  rewrite (proj2 (Z.ltb_lt cursor limit)) by lia. cbv zeta. set (piece := Z.min _ _).
  pose proof (Z.mod_pos_bound cursor width Hw). destruct (Z.lt_ge_cases x (cursor + piece)).
  - exists cursor, piece. split; [by left|lia].
  - destruct (IH (cursor + piece) ltac:(lia) ltac:(lia)) as (c & p & Hin & Hc). exists c, p. split; [by right|done].
Qed.

(** ** Addresses *)

(** The byte offsets of the elements of a static region with two dimensions. *)
Definition element_offset (r : BufferRegion) (a : Z) : Prop :=
  ∃ h w s0 s1 o x y, rg_shape r = [VInt h; VInt w] ∧ rg_strides_bytes r = Some [VInt s0; VInt s1] ∧
    rg_byte_offset r = VInt o ∧ 0 <= x < h ∧ 0 <= y < w ∧ a = o + x * s0 + y * s1.

(** Moving inside a block of C0. *)
Lemma fractal_step major e r c x y :
  0 < e → c mod e + y < e → 0 <= y → fractal_index major e (r + x) (c + y) = fractal_index major e r c + x * e + y.
Proof.
  intros He Hy Hy0. unfold fractal_index. pose proof (Z.mod_pos_bound c e He).
  assert ((c + y) / e = c / e ∧ (c + y) mod e = c mod e + y) as [-> ->].
  { pose proof (Z.div_mod c e ltac:(lia)). replace (c + y) with ((c mod e + y) + c / e * e) by lia.
    rewrite Z.div_add, Z.mod_add by lia. rewrite (Z.div_small (c mod e + y)), (Z.mod_small (c mod e + y)) by lia. lia. }
  pose proof (Z.div_mod r 16 ltac:(lia)). pose proof (Z.div_mod (r + x) 16 ltac:(lia)). nia.
Qed.

(** The index of an element in the layout of the windows. *)
Definition source_layout (transposed : bool) : string := if transposed then "nZ" else "zN".
Definition source_index (transposed : bool) (rows cols e row col : Z) : Z :=
  if transposed then fractal_index (ceil_div cols 16) e col row else fractal_index (ceil_div rows 16) e row col.
Lemma source_physical transposed rows cols itemsize row col :
  validate [rows; cols] itemsize = Ok (rows, cols, BYTE_PER_C0 / itemsize) → 0 <= row < rows → 0 <= col < cols →
  physical_index (source_layout transposed) row col [rows; cols] itemsize =
    Ok (source_index transposed rows cols (BYTE_PER_C0 / itemsize) row col).
Proof.
  intros Hv Hr Hc. rewrite (physical_index_spec _ _ _ _ _ rows cols) by (done || (destruct transposed; vm_compute; set_solver)).
  by destruct transposed.
Qed.

Lemma decM_bind_ok {A B} (m : decM A) (f : A → decM B) st st' b :
  (m ≫= f) st = (st', Ok b) → ∃ st1 a, m st = (st1, Ok a) ∧ f a st1 = (st', Ok b).
Proof. unfold mbind, stM_bind. destruct (m st) as [st1 [a|x]]; [eauto|done]. Qed.
Lemma of_result_ok {A} (m : result A) st st' a : of_result m st = (st', Ok a) → st' = st ∧ m = Ok a.
Proof. unfold of_result, st_lift. destruct m; by intros [= <- <-]. Qed.
Lemma static_region b s shape dtype o strides owner r :
  buffer_region_init b (scope_value s) (VInt <$> shape) dtype (VInt o) (Some (VInt <$> strides)) owner = Ok r →
  rg_shape r = VInt <$> shape ∧ rg_byte_offset r = VInt o ∧ rg_strides_bytes r = Some (VInt <$> strides).
Proof.
  unfold buffer_region_init. rewrite parse_scope_value. intros H. inv_res. cbn [rg_shape rg_byte_offset rg_strides_bytes].
  split; [|done]. rewrite <- list_fmap_compose. by apply list_fmap_ext.
Qed.

Section windows.
Context {TVM : Tvm} {D : Decode}.
Context (transposed : bool) (source : BufferRegion) (logical_rows logical_cols itemsize slot_base row0 col0 rows cols : Z).
Abbreviation shape := [logical_rows; logical_cols].
Abbreviation e := (BYTE_PER_C0 / itemsize).
Context (Hv : validate shape itemsize = Ok (logical_rows, logical_cols, e)).
Context (Hrow : 0 <= row0) (Hcol : 0 <= col0) (Hrows : row0 + rows <= logical_rows) (Hcols : col0 + cols <= logical_cols).

(** The offset of an element of the L1 matrix. *)
Definition source_offset (row col : Z) : Z := (slot_base + source_index transposed logical_rows logical_cols e row col) * itemsize.

(** The window of one piece, which starts at [cursor] and has [extent] rows or columns. *)
Lemma window_offsets cursor extent st st' w :
  0 < extent → cursor mod e + extent <= e →
  l0_window transposed source shape itemsize slot_base (row0, col0) rows cols (cursor, extent) st = (st', Ok w) →
  st' = st ∧ ∀ a, element_offset w a ↔
    ∃ row col, a = source_offset row col ∧
      (if transposed then cursor <= row < cursor + extent ∧ col0 <= col < col0 + cols
       else row0 <= row < row0 + rows ∧ cursor <= col < cursor + extent).
Proof.
  intros Hext Hblock H. pose proof Hv as (? & ? & [= <- <-] & ? & ? & Hi & Hm & _)%validate_ok.
  destruct (c0_elements itemsize Hi Hm) as [He _].
  assert (∀ row col i, physical_index (source_layout transposed) row col shape itemsize = Ok i →
    i = source_index transposed logical_rows logical_cols e row col) as Hphys.
  { intros row col i Hix. pose proof Hix as (? & ? & [= <- <-] & _ & _ & _ & _ & _ & Hc)%physical_index_ok_inv.
    apply elem_of_coords in Hc as [Hr Hc]. rewrite (source_physical transposed _ _ _ _ _ Hv) in Hix by done. congruence. }
  unfold l0_window in H. cbn [fst snd] in H. unfold source_offset, element_offset.
  destruct transposed; cbv zeta beta iota in H; apply decM_bind_ok in H as (st1 & i & Hix & H);
    apply of_result_ok in Hix as [-> Hix]; apply Hphys in Hix as ->;
    unfold replace_region in H; apply of_result_ok in H as [-> H].
  - apply (static_region _ _ [extent; cols] _ _ [itemsize; e * itemsize]) in H as (Hs & Ho & Hst).
    split; [done|]. intros a. rewrite Hs, Ho, Hst. cbn [source_index fmap list_fmap]. split.
    + intros (h & wd & s0 & s1 & o & x & y & [= <- <-] & [= <- <-] & [= <-] & Hx & Hy & ->).
      exists (cursor + x), (col0 + y). split; [|lia]. rewrite fractal_step by lia. ring.
    + intros (row & col & -> & Hr & Hc). exists extent, cols, itemsize, (e * itemsize).
      eexists _, (row - cursor), (col - col0). split_and!; try done; try lia.
      replace row with (cursor + (row - cursor)) at 1 by lia. replace col with (col0 + (col - col0)) at 1 by lia.
      rewrite fractal_step by lia. ring.
  - apply (static_region _ _ [rows; extent] _ _ [e * itemsize; itemsize]) in H as (Hs & Ho & Hst).
    split; [done|]. intros a. rewrite Hs, Ho, Hst. cbn [source_index fmap list_fmap]. split.
    + intros (h & wd & s0 & s1 & o & x & y & [= <- <-] & [= <- <-] & [= <-] & Hx & Hy & ->).
      exists (row0 + x), (cursor + y). split; [|lia]. rewrite fractal_step by lia. ring.
    + intros (row & col & -> & Hr & Hc). exists rows, extent, (e * itemsize), itemsize.
      eexists _, (row - row0), (col - cursor). split_and!; try done; try lia.
      replace row with (row0 + (row - row0)) at 1 by lia. replace col with (cursor + (col - cursor)) at 1 by lia.
      rewrite fractal_step by lia. ring.
Qed.

Lemma st_map_each {A B} (f : A → decM B) l st st' bs :
  st_map f l st = (st', Ok bs) → Forall2 (λ a b, ∃ st1 st2, f a st1 = (st2, Ok b)) l bs.
Proof.
  revert st bs. induction l as [|a l IH]; intros st bs H; [injection H as _ <-; constructor|].
  change ((b ← f a; bs ← st_map f l; mret (b :: bs)) st = (st', Ok bs)) in H.
  apply decM_bind_ok in H as (st1 & b & Hb & H). apply decM_bind_ok in H as (st2 & bs' & Hbs & [= <- <-]).
  constructor; [by exists st, st1|by eapply IH].
Qed.

(** C17. The windows behind an L0 tile are exact: a byte offset is that of an element of one of the
    windows if and only if it is the physical offset, in the fractal layout of the L1 matrix, of a
    logical element of the tile — whether the tile is transposed or not, and wherever it is cut by
    the blocks of C0. *)
Theorem l0_windows_exact st st' windows :
  l0_windows transposed source shape itemsize slot_base (row0, col0) rows cols st = (st', Ok windows) →
  ∀ a, (∃ w, w ∈ windows ∧ element_offset w a) ↔
    ∃ row col i, row0 <= row < row0 + rows ∧ col0 <= col < col0 + cols ∧
      physical_index (source_layout transposed) row col shape itemsize = Ok i ∧ a = (slot_base + i) * itemsize.
Proof.
  intros H a. pose proof Hv as (? & ? & [= <- <-] & ? & ? & Hi & Hm & _)%validate_ok.
  destruct (c0_elements itemsize Hi Hm) as [He _]. unfold l0_windows in H.
  set (start := if transposed then row0 else col0). set (extent := if transposed then rows else cols).
  replace (if transposed then ((row0, col0).1, rows) else ((row0, col0).2, cols)) with (start, extent) in H
    by (unfold start, extent; by destruct transposed).
  apply st_map_each in H.
  assert (∀ row col, row0 <= row < row0 + rows → col0 <= col < col0 + cols →
    physical_index (source_layout transposed) row col shape itemsize = Ok (source_index transposed logical_rows logical_cols e row col)) as Hp.
  { intros row col Hr Hc. apply source_physical; [done|lia|lia]. }
  split.
  - intros (w & [k Hk]%list_elem_of_lookup & Hw). destruct (Forall2_lookup_r _ _ _ _ _ H Hk) as ([c p] & Hcp & st1 & st2 & Hrun).
    apply list_elem_of_lookup_2, segments_inside in Hcp as (Hc0 & Hp0 & Hlim & Hblock); [|done].
    apply window_offsets in Hrun as [_ Hoff]; [|done|done]. destruct (proj1 (Hoff a) Hw) as (row & col & Ea & Hin).
    assert (row0 <= row < row0 + rows ∧ col0 <= col < col0 + cols) as [Hr Hc]
      by (unfold start, extent in *; destruct transposed; lia).
    exists row, col, (source_index transposed logical_rows logical_cols e row col). by rewrite Hp.
  - intros (row & col & i & Hr & Hc & Hix & ->). rewrite Hp in Hix by done. injection Hix as <-.
    destruct (segments_cover (Z.to_nat extent) e start (start + extent) (if transposed then row else col)) as (c & p & Hin & Hx);
      [done|unfold start, extent; destruct transposed; lia|unfold start, extent; destruct transposed; lia|].
    destruct (segments_inside _ _ _ _ _ _ He Hin) as (Hc0 & Hp0 & Hlim & Hblock). apply list_elem_of_lookup in Hin as [k Hk].
    destruct (Forall2_lookup_l _ _ _ _ _ H Hk) as (w & Hw & st1 & st2 & Hrun). exists w.
    split; [by eapply list_elem_of_lookup_2|]. apply window_offsets in Hrun as [_ Hoff]; [|done|done].
    apply Hoff. exists row, col. split; [done|]. destruct transposed; lia.
Qed.
End windows.

(** A tile of 16 rows and 40 columns at (3, 5) of a 32 x 64 matrix of 16-bit elements: three
    windows. *)
Definition window_source : BufferRegion := Region "l1" L1 [VInt 2048] "float16" (VInt 0) None (Some 0).
Definition empty_bridge : BridgeState := MkBridge [] [] [] [] [] [] [] 0.
Definition tile_windows : list BufferRegion :=
  match (l0_windows false window_source [32; 64] 2 0 (3, 5) 16 40 empty_bridge).2 with Ok ws => ws | Raise _ => [] end.
Example tile_window_list :
  (λ w, (rg_shape w, rg_byte_offset w)) <$> tile_windows =
  [([VInt 16; VInt 11], VInt 106); ([VInt 16; VInt 16], VInt 1120); ([VInt 16; VInt 13], VInt 2144)].
Proof. vm_compute. reflexivity. Qed.
Lemma l0_windows_exact_witness :
  (∃ w, w ∈ tile_windows ∧ element_offset w 1120) ↔
    ∃ row col i, 3 <= row < 3 + 16 ∧ 5 <= col < 5 + 40 ∧
      physical_index (source_layout false) row col [32; 64] 2 = Ok i ∧ 1120 = (0 + i) * 2.
Proof.
  eapply (l0_windows_exact false window_source 32 64 2 0 3 5 16 40 eq_refl) with (st := empty_bridge); try lia.
  vm_compute. reflexivity.
Defined.

Section visit.
Context {TVM : Tvm} {NODES : TvmNodes} (depth : nat) (profile : MeasuredWithFallback + TimingProfile) (limit : Z).
Abbreviation lower s cx := (visit_stmt depth profile limit s cx).

Definition break_call (dtype : string) : stmt := SEvaluate (ECall "tl.loop_break" dtype []).

Lemma each_stops {A} (f : A → visitM unit) before a after s s1 s' r :
  each f before s = (s1, Ok tt) → f a s1 = (s', Raise r) → each f (before ++ a :: after) s = (s', Raise r).
Proof.
  revert s. induction before as [|b before IH]; intros s H Ha; cbn [each app] in *.
  - injection H as ->. unfold mbind, stM_bind. by rewrite Ha.
  - unfold mbind, stM_bind in *. destruct (f b s) as [s2 [[]|]]; [|done]. by apply IH.
Qed.
Lemma visit_break dtype cx s :
  is_zero_expr depth (ECall "tl.loop_break" dtype []) (vc_env cx) = Ok false →
  lower (break_call dtype) cx s = (s, Raise LoopBreak).
Proof. intros Hz. cbn [visit_stmt break_call]. unfold mbind, stM_bind, of_outcome, st_lift. by rewrite Hz. Qed.

(** C38. A break under a condition that depends on run-time data is taken while the kernel is lowered:
    when the condition of [if (condition) break else ...] in a loop is not a constant, the loop
    ends in its first iteration with the tasks before the branch, whatever the condition will be —
    the other branch, the statements after it and all later iterations emit nothing, and nothing
    is raised. *)
Theorem dynamic_break_taken cx s s1 var minimum extent lo n before condition value dtype else_case after :
  require_int depth minimum (vc_env cx) "loop minimum" = Ok lo → require_int depth extent (vc_env cx) "loop extent" = Ok n →
  0 < n <= limit →
  lower (SSeq before) (bind_var var lo cx) s = (s1, Ok tt) →
  const_int depth (dset (vc_env cx) var lo) condition = Ok None →
  dynamic_condition condition (dset (vc_env cx) var lo) s1 = (s1, Ok value) →
  is_zero_expr depth (ECall "tl.loop_break" dtype []) (dset (vc_env cx) var lo) = Ok false →
  lower (SFor var minimum extent (SSeq (before ++ SIf condition (break_call dtype) else_case :: after))) cx s =
    (count_break (count_predicate s1), Ok tt).
Proof.
  intros Hlo Hn Hlim Hbefore Hconst Hcond Hzero. cbn [visit_stmt] in *. unfold visit_for.
  unfold integer, of_outcome, st_lift, demand, mbind. unfold stM_bind. rewrite Hlo, Hn.
  rewrite (proj2 (Z.leb_le 0 n)), (proj2 (Z.leb_le n limit)) by lia. cbn [andb].
  unfold int_range, py_range. destruct (Z.to_nat n) as [|m] eqn:Em; [lia|].
  cbn [seq fmap list_fmap map each_until_break]. rewrite Z.add_0_r.
  unfold mret at 1, stM_ret at 1.
  rewrite (each_stops _ before _ after s s1 (count_predicate s1) LoopBreak Hbefore); [done|].
  cbn [visit_stmt]. unfold mbind, stM_bind, of_outcome, st_lift. cbn [vc_env bind_var with_env]. rewrite Hconst.
  unfold visit_dynamic, mbind, stM_bind. cbn [vc_env bind_var with_env]. rewrite Hcond.
  unfold st_get, modify, mbind, stM_bind, st_get, st_put. cbv zeta.
  by rewrite visit_break.
Qed.
End visit.

(** ** A loop that ends when a value in UB is negative *)

Definition break_context : VisitContext := MkVisitContext 0 VECTOR_0 (Some 0) [] [].
Definition negative_tile : expr :=
  EBin "LT" "bool" (ELoad "float32" (kernel_buffer "ub" 64 3) [kernel_int 0]) (kernel_int 0).
Definition tile_in : stmt :=
  kernel_call "tl.ascend_copy_gm_to_ub" [kernel_pointer "A" 1 64; kernel_pointer "ub" 3 64; kernel_int 64].
Definition tile_out : stmt :=
  kernel_call "tl.ascend_copy_ub_to_gm" [kernel_pointer "ub" 3 64; kernel_pointer "B" 2 64; kernel_int 64].
Definition breaking_loop : stmt :=
  SFor kernel_index (kernel_int 0) (kernel_int 4)
    (SSeq ([tile_in] ++ SIf negative_tile (break_call "handle") (Some tile_out) :: [tile_out])).
Definition before_break : Visit :=
  (@visit_stmt folding kernel_nodes 20 unit_profile 100 (SSeq [tile_in]) (bind_var kernel_index 0 break_context)
    built_kernel.1).1.

Lemma dynamic_break_taken_witness :
  @visit_stmt folding kernel_nodes 20 unit_profile 100 breaking_loop break_context built_kernel.1 =
    (count_break (count_predicate before_break), Ok tt) ∧
  (length <$> (dget (br_tasks (vs_bridge built_kernel.1)) 0) = Some 3%nat) ∧
  (length <$> (dget (br_tasks (vs_bridge before_break)) 0) = Some 4%nat).
Proof.
  split; [|split; vm_compute; reflexivity].
  apply (@dynamic_break_taken folding kernel_nodes 20 unit_profile 100 break_context built_kernel.1 before_break
    kernel_index (kernel_int 0) (kernel_int 4) 0 4 [tile_in] negative_tile (VOther "LT") "handle" (Some tile_out) [tile_out]);
    [| |lia|..]; vm_compute; reflexivity.
Defined.
