(* ===== verification/ReportDocument.v ===== *)
(** The documents of performance reports ([report.py]): [PerformanceReport] and its constructors,
    the JSON-ready document, the comparison of two reports and the text summary.  The theorems
    show that the report of a schedule can always be written, that its lists hold the largest
    entries, and that exchanging the reports of a comparison negates every change. *)

From stdpp Require Import pretty.
From Stdlib Require Import Sorting.Sorted Floats.SpecFloat.
From S2P Require Import Prelude PyDict PySort PyStr Errors PyFloat PyNum Values Program Trace.
From S2P Require Import Config Hazard Intervals MemoryView Stats TraceExport Timing Report.
Local Open Scope string_scope.
Local Open Scope Z_scope.
Local Open Scope list_scope.

Definition REPORT_SCHEMA_VERSION : string := "1.0".

(** ** The report *)

Record PerformanceReport := MkReport {
  pr_platform : string;
  calibration : string;
  timing_estimator : string;
  pr_sync_only : bool;
  trace_path : option string;
  stats : SimulationStats;
  pr_critical_path : dict string pyval;
  schedule_records : list ExecutionRecord;
  timing_limitations : list string;
}.

(** [from_stats]; [profile] is the timing profile of the configuration. *)
Definition from_stats (st : SimulationStats) (config : SimulatorConfig) (profile : TimingProfile)
    (trace_path : option string) : PerformanceReport :=
  MkReport (platform config) (tp_calibration profile) (estimator profile) (sync_only config) trace_path st
    [("status", VStr "unavailable");
     ("reason", VStr "a schedule result is required for critical-chain extraction")] [] [].

(** [from_schedule]; [None] is an exhausted step budget of the critical chain. *)
Definition from_schedule (records : list ExecutionRecord) (st : SimulationStats) (config : SimulatorConfig)
    (profile : TimingProfile) (trace_path : option string) : option PerformanceReport :=
  path ← critical_path records;
  Some (MkReport (platform config) (tp_calibration profile) (estimator profile) (sync_only config) trace_path
          st path records []).

(** [replace(report, timing_limitations=...)], as the adapter does after a run whose program has
    limitations *)
Definition limited (limitations : list string) (r : PerformanceReport) : PerformanceReport :=
  match limitations with
  | [] => r
  | _ => MkReport (pr_platform r) (calibration r) (timing_estimator r) (pr_sync_only r) (trace_path r) (stats r)
           (pr_critical_path r) (schedule_records r) limitations
  end.

(** ** Rankings *)

(** [(-utilization[resource], resource)]: utilizations are bit patterns of doubles. *)
Definition utilization_of (st : SimulationStats) (resource : string) : float :=
  float_of_bits (dget_default 0 (utilization_by_resource st) resource).
Definition busier (st : SimulationStats) (x y : string) : bool :=
  pair_leb SFeqb SFleb str_leb (SFopp (utilization_of st x), x) (SFopp (utilization_of st y), y).
Definition busiest (st : SimulationStats) : list string :=
  take 5 (py_sorted (busier st) (dkeys (utilization_by_resource st))).

(** [(-waits[reason], reason)] *)
Definition wait_of (st : SimulationStats) (reason : string) : Z := dget_default 0 (wait_cycles_by_reason st) reason.
Definition longer_wait (st : SimulationStats) (x y : string) : bool :=
  pair_leb Z.eqb Z.leb str_leb (- wait_of st x, x) (- wait_of st y, y).
Definition major_stalls (st : SimulationStats) : list string :=
  take 5 (py_sorted (longer_wait st) (dkeys (wait_cycles_by_reason st))).

(** The ranking of [_resource_pressure]: queued cycles, then utilization, then the name. *)
Definition pressed (st : SimulationStats) (x y : string * (Z * Z)) : bool :=
  pair_leb Z.eqb Z.leb (pair_leb SFeqb SFleb str_leb)
    (- x.2.2, (SFopp (utilization_of st x.1), x.1)) (- y.2.2, (SFopp (utilization_of st y.1), y.1)).

(** ** The document *)

(** [calibration.startswith("measured-") and not timing_limitations] *)
Definition measured (r : PerformanceReport) : bool :=
  startswith "measured-" (calibration r) && match timing_limitations r with [] => true | _ => false end.
Definition interpretation (r : PerformanceReport) : string :=
  if measured r then "measured hardware timing" else "analytical schedule estimate; not measured hardware latency".
Definition simulation_mode (r : PerformanceReport) : string := if pr_sync_only r then "sync_only" else "functional".

Definition resource_item (st : SimulationStats) (resource : string) : result pyval :=
  match dget (busy_cycles_by_resource st) resource with
  | None => raise KeyError resource
  | Some busy =>
      Ok (VDict [("resource", VStr resource);
                 ("utilization", VFloat (dget_default 0 (utilization_by_resource st) resource));
                 ("busy_cycles", VInt busy)])
  end.
Definition stall_item (st : SimulationStats) (reason : string) : pyval :=
  VDict [("reason", VStr reason); ("cycles", VInt (wait_of st reason))].
Definition inactive_item (x : Z * interval) : pyval :=
  VDict [("core_id", VInt x.1); ("start_cycle", VInt x.2.1); ("end_cycle", VInt x.2.2);
         ("duration_cycles", VInt (x.2.2 - x.2.1))].
Definition pressure_item (st : SimulationStats) (x : string * (Z * Z)) : pyval :=
  VDict [("resource", VStr x.1); ("busy_cycles", VInt (dget_default 0 (busy_cycles_by_resource st) x.1));
         ("utilization", VFloat (dget_default 0 (utilization_by_resource st) x.1));
         ("operation_count", VInt x.2.1); ("fifo_queued_task_cycles", VInt x.2.2)].
(** [_resource_pressure] *)
Definition pressure_document (r : PerformanceReport) : dict string pyval :=
  [("scope", VStr "schedule-derived FIFO queued task-cycles then utilization; not physical queue depth or hardware saturation");
   ("top_resources",
     VList (pressure_item (stats r) <$> take 5 (py_sorted (pressed (stats r)) (resource_pressure (schedule_records r)))))].

(** [to_dict] *)
Definition report_to_dict (r : PerformanceReport) : result (dict string pyval) :=
  top ← omap_list (resource_item (stats r)) (busiest (stats r));
  Ok [("schema_version", VStr REPORT_SCHEMA_VERSION); ("platform", VStr (pr_platform r));
      ("simulation_mode", VStr (simulation_mode r));
      ("timing", VDict [("calibration", VStr (calibration r)); ("estimator", VStr (timing_estimator r));
                        ("measured", VBool (measured r));
                        ("limitations", VList (VStr <$> timing_limitations r));
                        ("interpretation", VStr (interpretation r))]);
      ("schedule", VDict (Stats.to_dict (stats r)));
      ("top_resources", VList top);
      ("major_stalls", VList (stall_item (stats r) <$> major_stalls (stats r)));
      ("critical_path", VDict (pr_critical_path r));
      ("top_inactive_intervals", VList (inactive_item <$> top_inactive_intervals (stats r) (schedule_records r)));
      ("copy_compute_overlap", VDict (copy_compute_overlap (schedule_records r)));
      ("resource_pressure", VDict (pressure_document r));
      ("trace_path", opt_value VStr (trace_path r))].

(** ** The comparison *)

Definition overlap_total (r : PerformanceReport) : Z := foldr Z.add 0 (dvalues (overlap_by_core (schedule_records r))).

(** The keys of both dictionaries, sorted. *)
Definition all_keys {V} (a b : dict string V) : list string :=
  py_sorted str_leb (elements (list_to_set (dkeys a) ∪ list_to_set (dkeys b) : gset string)).

(** A row of a comparison: the name, both values and the change. *)
Record change (V : Type) := MkChange {
  ch_name : string;
  ch_before : V;
  ch_after : V;
  ch_delta : V;
}.
Arguments MkChange {V}.
Arguments ch_name {V}.
Arguments ch_before {V}.
Arguments ch_after {V}.
Arguments ch_delta {V}.

Definition resource_change (a b : SimulationStats) (resource : string) : change float :=
  let before := utilization_of a resource in
  let after := utilization_of b resource in
  MkChange resource before after (SFsub 53 1024 after before).
Definition resource_change_leb (x y : change float) : bool :=
  pair_leb SFeqb SFleb str_leb (SFopp (SFabs (ch_delta x)), ch_name x) (SFopp (SFabs (ch_delta y)), ch_name y).
Definition resource_changes (a b : SimulationStats) : list (change float) :=
  py_sorted resource_change_leb
    (resource_change a b <$> all_keys (utilization_by_resource a) (utilization_by_resource b)).

Definition wait_change (a b : SimulationStats) (reason : string) : change Z :=
  MkChange reason (wait_of a reason) (wait_of b reason) (wait_of b reason - wait_of a reason).
Definition wait_change_leb (x y : change Z) : bool :=
  pair_leb Z.eqb Z.leb str_leb (- Z.abs (ch_delta x), ch_name x) (- Z.abs (ch_delta y), ch_name y).
Definition wait_changes (a b : SimulationStats) : list (change Z) :=
  py_sorted wait_change_leb (wait_change a b <$> all_keys (wait_cycles_by_reason a) (wait_cycles_by_reason b)).

Definition float_value (f : float) : pyval := VFloat (float_bits f).
Definition resource_row (c : change float) : pyval :=
  VDict [("resource", VStr (ch_name c)); ("baseline_utilization", float_value (ch_before c));
         ("candidate_utilization", float_value (ch_after c)); ("delta", float_value (ch_delta c))].
Definition wait_row (c : change Z) : pyval :=
  VDict [("reason", VStr (ch_name c)); ("baseline_cycles", VInt (ch_before c));
         ("candidate_cycles", VInt (ch_after c)); ("delta_cycles", VInt (ch_delta c))].
Definition span_of_path (r : PerformanceReport) : pyval := dget_default VNone (pr_critical_path r) "span_cycles".
Definition ratio (baseline candidate : Z) : result pyval :=
  if baseline =? 0 then Ok VNone else n ← py_div (NInt candidate) (NInt baseline); Ok (number_value n).

(** [compare] *)
Definition compare (baseline candidate : PerformanceReport) : result (dict string pyval) :=
  _ ← ensure (pr_platform baseline =? pr_platform candidate)%string ValueError "cannot compare simulator reports from different platforms";
  _ ← report_to_dict baseline;
  _ ← report_to_dict candidate;
  let before := makespan_cycles (stats baseline) in
  let after := makespan_cycles (stats candidate) in
  quotient ← ratio before after;
  Ok [("schema_version", VStr REPORT_SCHEMA_VERSION);
      ("scope", VStr "comparison of simulator schedules; candidate minus baseline; not a measured hardware-performance comparison");
      ("platform", VStr (pr_platform candidate));
      ("timing_comparable",
        VBool ((calibration baseline =? calibration candidate)%string &&
               (timing_estimator baseline =? timing_estimator candidate)%string));
      ("makespan_cycles",
        VDict [("baseline", VInt before); ("candidate", VInt after); ("delta", VInt (after - before)); ("ratio", quotient)]);
      ("critical_chain_span_cycles",
        VDict [("baseline", span_of_path baseline); ("candidate", span_of_path candidate)]);
      ("copy_compute_overlap_per_core_cycles",
        VDict [("baseline", VInt (overlap_total baseline)); ("candidate", VInt (overlap_total candidate));
               ("delta", VInt (overlap_total candidate - overlap_total baseline))]);
      ("top_resource_utilization_changes",
        VList (resource_row <$> take 5 (resource_changes (stats baseline) (stats candidate))));
      ("top_wait_cycle_changes", VList (wait_row <$> take 5 (wait_changes (stats baseline) (stats candidate))))].

(** ** Text *)

(** The tenths of [x], rounded to the nearest and ties to even, from the exact value. *)
Definition tenths_of (m e : Z) : Z :=
  if 0 <=? e then m * 10 * 2 ^ e
  else let q := m * 10 / 2 ^ (- e) in
       let r := (m * 10) mod 2 ^ (- e) in
       match 2 * r ?= 2 ^ (- e) with Lt => q | Gt => q + 1 | Eq => if Z.even q then q else q + 1 end.
(** [f"{x:.1%}"] *)
Definition percent (x : float) : string :=
  match float_mul x (float_div_int 100 1) with
  | S754_nan => "nan%"
  | S754_infinity s => (if s then "-inf%" else "inf%")
  | S754_zero s => (if s then "-0.0%" else "0.0%")
  | S754_finite s m e =>
      let t := tenths_of (Zpos m) e in
      (if s then "-" else "") +:+ pretty (t / 10) +:+ "." +:+ pretty (t mod 10) +:+ "%"
  end.
Example percents :
  percent <$> [float_div_int 1 2; float_div_int 1 3; float_div_int 2 3; float_div_int 9996 10000; float_div_int 0 1; float_div_int 5 10000]
  = ["50.0%"; "33.3%"; "66.7%"; "100.0%"; "0.0%"; "0.1%"].
Proof. vm_compute. reflexivity. Qed.

(** [to_text]; the items of the document come in the order of [busiest] and [major_stalls]. *)
Definition newline : string := String (Ascii.ascii_of_nat 10) "".
Definition text_lines (r : PerformanceReport) : list string :=
  let st := stats r in
  ["Simulator performance report: " +:+ pr_platform r +:+ " (" +:+ simulation_mode r +:+ ")";
   "makespan=" +:+ pretty (makespan_cycles st) +:+ " cycles, tasks=" +:+ pretty (task_count st) +:+
     ", load_imbalance=" +:+ pretty (load_imbalance_cycles st) +:+ " cycles";
   "timing=" +:+ calibration r +:+ ": " +:+ interpretation r] ++
  (String.append "timing limitation: " <$> timing_limitations r) ++
  (match busiest st with
   | [] => []
   | top => ["top_resources=" +:+
             String.concat ", " ((λ k, k +:+ " (" +:+ percent (utilization_of st k) +:+ ")") <$> take 3 top)]
   end) ++
  (match major_stalls st with
   | [] => []
   | stalls => ["major_stalls=" +:+
                String.concat ", " ((λ k, k +:+ " (" +:+ pretty (wait_of st k) +:+ " cycles)") <$> take 3 stalls)]
   end).
Definition to_text (r : PerformanceReport) : result string :=
  _ ← report_to_dict r;
  Ok (String.concat newline (text_lines r)).

(** ** The order of floats *)

Lemma SFleb_opp x y : x ≠ S754_nan → y ≠ S754_nan → SFleb (SFopp x) (SFopp y) = SFleb y x.
Proof.
  intros Hx Hy. unfold SFleb. destruct x as [[]|[]| |[] m e], y as [[]|[]| |[] m' e']; try done; cbn [SFcompare SFopp negb];
    change (Pos.compare_cont Eq m m') with (Z.pos m ?= Z.pos m'); change (Pos.compare_cont Eq m' m) with (Z.pos m' ?= Z.pos m); split_compare.
Qed.
Lemma SFopp_number x : x ≠ S754_nan → SFopp x ≠ S754_nan.
Proof. by destruct x. Qed.

(** Exchanging the operands of a difference negates it, up to the sign of zero. *)
Definition opposite_float (x y : float) : Prop := y = SFopp x ∨ (is_zero x = true ∧ is_zero y = true).
Lemma binary_round_opp s m e : binary_round 53 1024 (negb s) m e = SFopp (binary_round 53 1024 s m e).
Proof.
  unfold binary_round. destruct (shl_align _ _ _) as [mz ez]. unfold binary_round_aux.
  destruct (shr_fexp _ _ (Z.pos mz) ez loc_Exact) as [r e']. destruct (shr_fexp _ _ _ e' loc_Exact) as [r2 e2].
  destruct (shr_m r2); [done| |done]. by destruct (e2 <=? 1024 - 53).
Qed.
Lemma SFsub_opposite x y : opposite_float (SFsub 53 1024 x y) (SFsub 53 1024 y x).
Proof.
  unfold opposite_float, SFsub. destruct x as [[]|[]| |sx mx ex], y as [[]|[]| |sy my ey]; try (by left); try (by right); try (left; cbn; by rewrite negb_involutive).
  rewrite (Z.min_comm ey ex). set (a := cond_Zopp sx _). set (b := cond_Zopp sy _).
  replace (b - a) with (- (a - b)) by lia. destruct (a - b) as [|p|p]; [by right|..]; left; unfold binary_normalize; cbn [Z.opp];
    [apply (binary_round_opp false)|apply (binary_round_opp true)].
Qed.
Lemma SFabs_opposite x y : opposite_float x y → SFabs y = SFabs x.
Proof. by intros [->|[Hx Hy]]; [destruct x|destruct x, y]. Qed.

(** ** Comparisons are antisymmetric *)

Definition mirrored {V} (opp : V → V → Prop) (x y : change V) : Prop :=
  ch_name y = ch_name x ∧ ch_before y = ch_after x ∧ ch_after y = ch_before x ∧ opp (ch_delta x) (ch_delta y).

Lemma all_keys_comm {V} (a b : dict string V) : all_keys a b = all_keys b a.
Proof. unfold all_keys. by rewrite (union_comm_L (list_to_set (dkeys a))). Qed.
Lemma mirrored_map {V} opp (f g : string → change V) l :
  (∀ k, mirrored opp (f k) (g k)) → Forall2 (mirrored opp) (f <$> l) (g <$> l).
Proof. intros H. apply Forall2_fmap, Forall_Forall2_diag, Forall_forall. done. Qed.

Lemma resource_changes_mirrored a b : Forall2 (mirrored opposite_float) (resource_changes a b) (resource_changes b a).
Proof.
  unfold resource_changes. rewrite (all_keys_comm (utilization_by_resource b)). eapply py_sorted_related.
  - intros x y x' y' (Hx & _ & _ & Hdx%SFabs_opposite) (Hy & _ & _ & Hdy%SFabs_opposite).
    unfold resource_change_leb. by rewrite Hx, Hy, Hdx, Hdy.
  - apply mirrored_map. intros k. split; [done|]. split; [done|]. split; [done|]. apply SFsub_opposite.
Qed.
Lemma wait_changes_mirrored a b : Forall2 (mirrored (λ x y, y = - x)) (wait_changes a b) (wait_changes b a).
Proof.
  unfold wait_changes. rewrite (all_keys_comm (wait_cycles_by_reason b)). eapply py_sorted_related.
  - intros x y x' y' (Hx & _ & _ & Hdx) (Hy & _ & _ & Hdy). unfold wait_change_leb. by rewrite Hx, Hy, Hdx, Hdy, !Z.abs_opp.
  - apply mirrored_map. intros k. split; [done|]. split; [done|]. split; [done|]. cbn. lia.
Qed.

(** C32. Comparing two reports the other way round exchanges the sides and negates every change: the
    makespan and the overlap change by the opposite amounts, the same resources and wait reasons
    are listed in the same order with opposite changes, and both directions agree on whether the
    timings are comparable.  Reports of different platforms are rejected in both directions. *)
Theorem compare_antisymmetric a b :
  (∀ ab ba, compare a b = Ok ab → compare b a = Ok ba →
     dget ab "platform" = dget ba "platform" ∧ dget ab "timing_comparable" = dget ba "timing_comparable" ∧
     (∃ before after r r',
        dget ab "makespan_cycles" = Some (VDict [("baseline", VInt before); ("candidate", VInt after);
                                                 ("delta", VInt (after - before)); ("ratio", r)]) ∧
        dget ba "makespan_cycles" = Some (VDict [("baseline", VInt after); ("candidate", VInt before);
                                                 ("delta", VInt (- (after - before))); ("ratio", r')])) ∧
     (∃ before after,
        dget ab "copy_compute_overlap_per_core_cycles" =
          Some (VDict [("baseline", VInt before); ("candidate", VInt after); ("delta", VInt (after - before))]) ∧
        dget ba "copy_compute_overlap_per_core_cycles" =
          Some (VDict [("baseline", VInt after); ("candidate", VInt before); ("delta", VInt (- (after - before)))])) ∧
     (∃ xs ys,
        dget ab "top_resource_utilization_changes" = Some (VList (resource_row <$> xs)) ∧
        dget ba "top_resource_utilization_changes" = Some (VList (resource_row <$> ys)) ∧
        Forall2 (mirrored opposite_float) xs ys) ∧
     (∃ xs ys,
        dget ab "top_wait_cycle_changes" = Some (VList (wait_row <$> xs)) ∧
        dget ba "top_wait_cycle_changes" = Some (VList (wait_row <$> ys)) ∧
        Forall2 (mirrored (λ x y, y = - x)) xs ys)) ∧
  (pr_platform a ≠ pr_platform b →
     raises_class ValueError (compare a b) ∧ raises_class ValueError (compare b a)).
Proof.
  split.
  - intros ab ba Hab Hba. unfold compare in Hab, Hba.
    apply outcome_bind_ok in Hab as (_ & Ep%ensure_ok & Hab), Hba as (_ & _ & Hba).
    apply outcome_bind_ok in Hab as (_ & _ & Hab), Hba as (_ & _ & Hba).
    apply outcome_bind_ok in Hab as (_ & _ & Hab), Hba as (_ & _ & Hba).
    apply outcome_bind_ok in Hab as (r & _ & Hab), Hba as (r' & _ & Hba). injection Hab as <-. injection Hba as <-.
    apply String.eqb_eq in Ep. split; [cbn; by rewrite Ep|]. split; [cbn; by rewrite (String.eqb_sym (calibration b)), (String.eqb_sym (timing_estimator b))|].
    split; [exists (makespan_cycles (stats a)), (makespan_cycles (stats b)), r, r'; split; [done|]; cbn; do 3 f_equal; lia || (repeat f_equal; lia)|].
    split; [exists (overlap_total a), (overlap_total b); split; [done|]; cbn; repeat f_equal; lia|].
    split; (eexists _, _; split; [done|]; split; [done|]; apply Forall2_take); [apply resource_changes_mirrored|apply wait_changes_mirrored].
  - intros Hne. assert (pr_platform b ≠ pr_platform a) as Hne' by done. apply String.eqb_neq in Hne, Hne'.
    unfold compare. rewrite Hne, Hne'. split; by eexists.
Qed.

(** ** The report of a schedule *)

Lemma busiest_top st :
  Forall (λ u, float_of_bits u.2 ≠ S754_nan) (utilization_by_resource st) →
  let top := busiest st in
  length top = Nat.min 5 (length (utilization_by_resource st)) ∧ (∀ k, k ∈ top → k ∈ dkeys (utilization_by_resource st)) ∧
  ∀ k k', k ∈ top → k' ∈ dkeys (utilization_by_resource st) → k' ∉ top → SFleb (utilization_of st k') (utilization_of st k) = true.
Proof.
  intros Hnan top.
  assert (∀ k, k ∈ dkeys (utilization_by_resource st) → utilization_of st k ≠ S754_nan) as Hk.
  { intros k [u Hu]%dkeys_elem_of. rewrite Forall_forall in Hnan. unfold utilization_of, dget_default. rewrite Hu.
    by apply (Hnan (k, u)), dget_elem_of. }
  set (key k := (rank (SFopp (utilization_of st k)), k)).
  assert (LebOrder (pair_leb rank_eqb rank_leb str_leb)) as Hord.
  { apply pair_leb_order; [apply _..|]. intros x y. unfold rank_eqb. case_bool_decide; by constructor. }
  destruct (take_sorted_top (λ k k', pair_leb rank_eqb rank_leb str_leb (key k) (key k') = true) (busier st) 5 (dkeys (utilization_by_resource st)))
    as (Hlen & Hin & Htop).
  { apply py_sorted_by_key; [done|]. intros x y Hx%Hk Hy%Hk. unfold busier, pair_leb, key. cbn.
    destruct (float_rank (SFopp (utilization_of st x)) (SFopp (utilization_of st y))) as [-> ->]; [by apply SFopp_number..|done]. }
  split; [unfold top, busiest; rewrite Hlen; unfold dkeys; by rewrite length_map|]. split; [done|].
  intros k k' Hk1 Hk2 Hn. pose proof (Hk k (Hin k Hk1)) as N1. pose proof (Hk k' Hk2) as N2. specialize (Htop k k' Hk1 Hk2 Hn).
  rewrite <- SFleb_opp, (proj2 (float_rank _ _ (SFopp_number _ N1) (SFopp_number _ N2))) by done.
  unfold pair_leb, key, rank_eqb in Htop. cbn in Htop. case_bool_decide as E; [|done]. rewrite E.
  destruct (leb_total (rank (SFopp (utilization_of st k'))) (rank (SFopp (utilization_of st k')))) as [?|?]; done.
Qed.

Lemma stalls_top st :
  let top := major_stalls st in
  length top = Nat.min 5 (length (wait_cycles_by_reason st)) ∧ (∀ k, k ∈ top → k ∈ dkeys (wait_cycles_by_reason st)) ∧
  ∀ k k', k ∈ top → k' ∈ dkeys (wait_cycles_by_reason st) → k' ∉ top → wait_of st k' <= wait_of st k.
Proof.
  assert (LebOrder (pair_leb Z.eqb Z.leb str_leb)) as Hord by (apply pair_leb_order; [apply _..|apply Z.eqb_spec]).
  destruct (take_sorted_top (λ k k', longer_wait st k k' = true) (longer_wait st) 5 (dkeys (wait_cycles_by_reason st))) as (Hlen & Hin & Htop).
  { eapply (py_sorted_by_key (longer_wait st) (λ k, (- wait_of st k, k))); [exact Hord|done]. }
  split; [unfold major_stalls; rewrite Hlen; unfold dkeys; by rewrite length_map|]. split; [done|].
  intros k k' Hk1 Hk2 Hn. specialize (Htop k k' Hk1 Hk2 Hn). unfold longer_wait, pair_leb in Htop. cbn in Htop. destruct (Z.eqb_spec (- wait_of st k) (- wait_of st k')); lia.
Qed.

(** The statistics of records have a busy count for every utilization. *)
Lemma from_records_keys rs b ds wm st k :
  from_records rs b ds wm = Ok st → k ∈ dkeys (utilization_by_resource st) → is_Some (dget (busy_cycles_by_resource st) k).
Proof.
  unfold from_records. destruct rs as [|first rest]; [intros [= <-]; cbn; by intros ?%elem_of_nil|].
  intros (t & _ & H)%outcome_bind_ok. injection H as <-. cbn. intros Hk%dkeys_elem_of.
  rewrite dget_fmap_values in Hk. destruct Hk as [x Hx]. destruct (dget _ k) as [n|] eqn:E in Hx; [|done]. rewrite E. by eexists.
Qed.
Lemma report_to_dict_ok r :
  (∀ k, k ∈ dkeys (utilization_by_resource (stats r)) → is_Some (dget (busy_cycles_by_resource (stats r)) k)) →
  ∃ top doc, report_to_dict r = Ok doc ∧ dget doc "top_resources" = Some (VList top) ∧
    Forall2 (λ k item, resource_item (stats r) k = Ok item) (busiest (stats r)) top.
Proof.
  intros Hk. assert (∃ top, omap_list (resource_item (stats r)) (busiest (stats r)) = Ok top) as [top Etop].
  { assert (∀ k, k ∈ busiest (stats r) → is_Some (dget (busy_cycles_by_resource (stats r)) k)) as Hb.
    { intros k (? & Hin%list_elem_of_lookup_2 & _)%elem_of_take. by apply Hk, (elem_of_py_sorted (busier (stats r))). }
    revert Hb. generalize (busiest (stats r)). intros l Hl. induction l as [|k l IH]; [by exists []|].
    destruct (Hl k) as [n Hn]; [by left|]. destruct IH as [items Hitems]; [by intros ? ?; apply Hl; right|].
    assert (∃ item, resource_item (stats r) k = Ok item) as [item Hitem] by (unfold resource_item; rewrite Hn; by eexists).
    exists (item :: items). apply omap_list_ok. constructor; [done|by apply omap_list_ok]. }
  exists top. unfold report_to_dict. rewrite Etop. eexists. split; [reflexivity|]. split; [reflexivity|]. by apply omap_list_ok.
Qed.

(** C31. The report of a schedule, with any limitations added as the adapter adds them, can always be
    made and written, as a document and as text, provided the statistics hold no NaN among the
    utilizations. Its resource list has one row for each of the at most five busiest
    resources, with the counters of the statistics, and no resource left out is busier than a
    listed one. Its list of stalls has one row for each of the at most five longest wait
    reasons, with the waited cycles, and no reason left out was waited for longer. It lists the
    limitations, claims measured timing exactly when the profile is a measured one and there are
    no limitations, and says so in the interpretation. *)
Theorem schedule_report_complete rs b ds wm st config profile path limitations :
  from_records rs b ds wm = Ok st → Forall (λ u, float_of_bits u.2 ≠ S754_nan) (utilization_by_resource st) →
  ∃ r0 doc top claimed,
    let r := limited limitations r0 in
    from_schedule rs st config profile path = Some r0 ∧ report_to_dict r = Ok doc ∧ (∃ text, to_text r = Ok text) ∧
    dget doc "top_resources" = Some (VList top) ∧
    length top = Nat.min 5 (length (utilization_by_resource st)) ∧
    (∀ i item, top !! i = Some item → ∃ k u n,
       busiest st !! i = Some k ∧ dget (utilization_by_resource st) k = Some u ∧ dget (busy_cycles_by_resource st) k = Some n ∧
       item = VDict [("resource", VStr k); ("utilization", VFloat u); ("busy_cycles", VInt n)] ∧
       ∀ k', k' ∈ dkeys (utilization_by_resource st) → k' ∉ busiest st → SFleb (utilization_of st k') (utilization_of st k) = true) ∧
    dget doc "major_stalls" = Some (VList (stall_item st <$> major_stalls st)) ∧
    length (major_stalls st) = Nat.min 5 (length (wait_cycles_by_reason st)) ∧
    (∀ k, k ∈ major_stalls st → k ∈ dkeys (wait_cycles_by_reason st) ∧
       ∀ k', k' ∈ dkeys (wait_cycles_by_reason st) → k' ∉ major_stalls st → wait_of st k' <= wait_of st k) ∧
    dget doc "timing" = Some (VDict
      [("calibration", VStr (tp_calibration profile)); ("estimator", VStr (estimator profile)); ("measured", VBool claimed);
       ("limitations", VList (VStr <$> limitations));
       ("interpretation", VStr (if claimed then "measured hardware timing"
                                else "analytical schedule estimate; not measured hardware latency"))]) ∧
    (claimed = true ↔ startswith "measured-" (tp_calibration profile) = true ∧ limitations = []).
Proof.
  intros Hst Hnan. pose proof (critical_chain_sound rs) as Hc. unfold from_schedule, critical_path.
  destruct (critical_chain rs) as [chain|]; [|done]. cbn [mbind option_bind]. clear Hc.
  set (r0 := MkReport _ _ _ _ _ _ _ _ _). set (r := limited limitations r0).
  assert (stats r = st ∧ calibration r = tp_calibration profile ∧ timing_estimator r = estimator profile ∧
    timing_limitations r = limitations) as (Est & Ecal & Eest & Elim) by (by destruct limitations).
  destruct (busiest_top st Hnan) as (Hlen & Hin & Htop). destruct (stalls_top st) as (Slen & Sin & Stop).
  destruct (report_to_dict_ok r) as (top & doc & Hdoc & Hres & Hitems); [intros k Hk; rewrite Est in *; by eapply from_records_keys|].
  exists r0, doc, top, (measured r). rewrite Est in Hitems. cbv zeta. fold r. split; [done|]. split; [done|].
  split; [unfold to_text; rewrite Hdoc; by eexists|]. split; [done|].
  split; [rewrite <- Hlen; symmetry; apply (Forall2_length _ _ _ Hitems)|]. split; [|split; [|split; [done|split; [|split]]]].
  - intros i item Hi. destruct (Forall2_lookup_r _ _ _ _ _ Hitems Hi) as (k & Hk & Hitem).
    pose proof (list_elem_of_lookup_2 _ _ _ Hk) as Hkt. destruct (proj1 (dkeys_elem_of _ _) (Hin k Hkt)) as [u Hu].
    unfold resource_item in Hitem. destruct (dget (busy_cycles_by_resource st) k) as [n|] eqn:En; [|done].
    injection Hitem as <-. exists k, u, n. split; [done|]. split; [done|]. split; [done|]. split; [unfold dget_default; by rewrite Hu|].
    intros k' H1 H2. by apply Htop.
  - unfold report_to_dict in Hdoc. apply outcome_bind_ok in Hdoc as (? & _ & [= <-]).
    transitivity (Some (VList (stall_item (stats r) <$> major_stalls (stats r)))); [reflexivity|by rewrite Est].
  - intros k Hk. split; [by apply Sin|]. intros k'. by apply Stop.
  - unfold report_to_dict in Hdoc. apply outcome_bind_ok in Hdoc as (? & _ & [= <-]).
    transitivity (Some (VDict [("calibration", VStr (calibration r)); ("estimator", VStr (timing_estimator r));
      ("measured", VBool (measured r)); ("limitations", VList (VStr <$> timing_limitations r));
      ("interpretation", VStr (interpretation r))])); [reflexivity|]. rewrite Ecal, Eest, Elim. unfold interpretation. reflexivity.
  - unfold measured. rewrite Ecal, Elim, andb_true_iff. destruct limitations; naive_solver.
Qed.

(** ** Two schedules of a kernel *)

Definition stats_of (rs : list ExecutionRecord) : SimulationStats :=
  match from_records rs [] [] [] with Ok st => st | Raise _ => MkStats 0 0 [] [] [] [] [] [] [] [] 0 end.
Definition a2_profile : TimingProfile := MkProfile "a2" [] 100 "pto-fallback" "pto-fallback".
Definition a2_config : SimulatorConfig :=
  MkConfig "a2" "error" false "error" true 8 "error" false 1 15 (120 # 1) None "a2".
Definition report_of (rs : list ExecutionRecord) : PerformanceReport :=
  default (from_stats (stats_of rs) a2_config a2_profile None) (from_schedule rs (stats_of rs) a2_config a2_profile None).
(** The second load waits for the first multiplication. *)
Definition slower_records : list ExecutionRecord :=
  [op_record "load0" "copy_gm_to_l1" MTE2 0 10 []; op_record "mma0" "mma" MATRIX 10 18 [("explicit", VTuple [VStr "load0"])];
   op_record "load1" "copy_gm_to_l1" MTE2 18 24 [("fifo", VTuple [VStr "load0"])];
   op_record "mma1" "mma" MATRIX 24 32 [("fifo", VTuple [VStr "mma0"])]].

Example report_text :
  to_text (report_of report_records) =
  Ok (String.concat newline
        ["Simulator performance report: a2 (functional)"; "makespan=26 cycles, tasks=4, load_imbalance=0 cycles";
         "timing=pto-fallback: analytical schedule estimate; not measured hardware latency";
         "top_resources=core-0/cube/m (61.5%), core-0/cube/mte2 (61.5%)"]).
Proof. vm_compute. reflexivity. Qed.

Lemma numbers_spec (l : dict string Z) :
  forallb (λ u, match float_of_bits u.2 with S754_nan => false | _ => true end) l = true →
  Forall (λ u, float_of_bits u.2 ≠ S754_nan) l.
Proof. intros H. rewrite forallb_forall in H. apply Forall_forall. intros u Hu%list_elem_of_In%H E. by rewrite E in Hu. Qed.
(** With a measured profile the report claims measured timing, unless the program has limitations. *)
Definition measured_profile : TimingProfile := MkProfile "a2" [] 100 "measured-a2" "pto".
Lemma schedule_report_complete_witness :
  ∃ r doc top claimed, let limits := ["sync costs are estimates"] in
    from_schedule report_records (stats_of report_records) a2_config measured_profile None = Some r ∧
    report_to_dict (limited limits r) = Ok doc ∧ dget doc "top_resources" = Some (VList top) ∧ length top = 2%nat ∧
    measured r = true ∧
    dget doc "timing" = Some (VDict
      [("calibration", VStr "measured-a2"); ("estimator", VStr "pto"); ("measured", VBool claimed);
       ("limitations", VList (VStr <$> limits));
       ("interpretation", VStr (if claimed then "measured hardware timing"
                                else "analytical schedule estimate; not measured hardware latency"))]) ∧
    claimed = false.
Proof.
  destruct (schedule_report_complete report_records [] [] [] (stats_of report_records) a2_config measured_profile None
    ["sync costs are estimates"]) as (r & doc & top & claimed & Hr & Hdoc & _ & Htop & Hlen & _ & _ & _ & _ & Htiming & Hm).
  - vm_compute. reflexivity.
  - apply numbers_spec. vm_compute. reflexivity.
  - exists r, doc, top, claimed. split; [exact Hr|]. split; [exact Hdoc|]. split; [exact Htop|]. split; [exact Hlen|].
    split; [|split; [exact Htiming|]].
    + unfold from_schedule in Hr. destruct (critical_path report_records); [|discriminate Hr]. injection Hr as <-. reflexivity.
    + destruct claimed; [|reflexivity]. discriminate (proj2 (proj1 Hm eq_refl)).
Defined.
Definition compared : result (dict string pyval) := compare (report_of report_records) (report_of slower_records).
Definition compared_back : result (dict string pyval) := compare (report_of slower_records) (report_of report_records).
Definition document_of (m : result (dict string pyval)) : dict string pyval := match m with Ok d => d | Raise _ => [] end.
Lemma compared_ok : compared = Ok (document_of compared) ∧ compared_back = Ok (document_of compared_back).
Proof. split; vm_compute; reflexivity. Qed.
Lemma compare_antisymmetric_witness :
  ∃ xs ys, dget (document_of compared) "top_resource_utilization_changes" = Some (VList (resource_row <$> xs)) ∧
           dget (document_of compared_back) "top_resource_utilization_changes" = Some (VList (resource_row <$> ys)) ∧
           Forall2 (mirrored opposite_float) xs ys.
Proof.
  destruct (compare_antisymmetric (report_of report_records) (report_of slower_records)) as [H _].
  destruct (H _ _ (proj1 compared_ok) (proj2 compared_ok)) as (_ & _ & _ & _ & Hx & _). exact Hx.
Defined.
