(* ===== verification/Adapter.v ===== *)
(** The JIT adapter ([adapter.py]): the object a compiled kernel becomes on the simulator.  It
    resolves the configuration, checks the synchronization of the program, turns arguments into
    bindings and memory, runs the simulator and returns its results, and keeps the last schedule,
    trace and report.  The theorems say what a call computes and what each method leaves behind. *)

From S2P Require Import Prelude PyDict PySort PyStr Errors Values Layout Program Trace Config Hazard.
From S2P Require Import SyncOps SyncReset SyncModel SyncValidator Scheduler Schedule Progress Intervals.
From S2P Require Import MemoryView Memory MemoryProofs Stats Run TraceExport Timing Report ReportDocument.
From S2P Require Import PyFloat PyNum Numpy NumpyInt ExecOrder ExecEnv ExecOps ExecKernels ExecGather Executor.
From S2P Require Import FunctionalSim ExecFrame ExecClaims FunctionalRun.
Local Open Scope string_scope.
Local Open Scope Z_scope.
Local Open Scope list_scope.

(** Tensors of torch, as far as the adapter uses them. *)
Class Torch {NP : Numpy} := {
  tensor : Type;
  tensor_shape : tensor → list Z;            (* [tensor.shape] *)
  tensor_device : tensor → string;           (* [tensor.device.type] *)
  tensor_bfloat16 : tensor → bool;           (* [tensor.dtype == torch.bfloat16] *)
  tensor_numpy : tensor → result array;      (* [detach().numpy()], or the view of the raw bits *)
  torch_from_numpy : array → result tensor;  (* [torch.from_numpy], through raw bits for bfloat16 *)
}.

Section adapter.
Context {NP : Numpy} {TORCH : Torch} (node_of : pyval → tir).
Context (set_order : gset string → list string) (clock : nat → Q) (resolve_path : string → string).

(** ** The adapter *)

(** A symbolic extent: the identity of its variable and the variable's name. *)
Definition extent_var : Type := Z * string.
(** A parameter of the kernel: the extents of its shape that are variables. *)
Definition param : Type := list (option extent_var).

(** What a constructed adapter keeps, and what its methods change; [written] are the trace
    documents written so far. *)
Record Adapter := MkAdapter {
  ad_params : list param;
  result_idx : list nat;
  workspace_idx : list nat;
  ad_config : SimulatorConfig;
  ad_profile : TimingProfile;
  ad_trace_path : option string;
  ad_program : KernelProgram;
  ad_limitations : list string;
  dynamic_symbolic_map : dict extent_var (nat * nat);
  parameter_names : list (option string);
  buffer_specs : dict string BufferSpec;
  validate_sync : option string;
  has_dynamic_control : bool;
}.
Record AdapterState := MkState {
  last_schedule : option (list ExecutionRecord * SimulationStats);
  last_stats : option SimulationStats;
  last_trace : option string;
  last_report : option PerformanceReport;
  last_execution : option FunctionalExecutionResult;
  sync_diagnostics : list HazardDiagnostic;
  written : list (string * dict string pyval);
}.

(** ** Construction *)

(** [list(indices)] *)
Definition elements_of (v : pyval) : result (list pyval) :=
  match v with
  | VList l | VTuple l => Ok l
  | VStr s => Ok (if nonempty s then [VStr s] else [])
  | VDict kvs => Ok (VStr ∘ fst <$> kvs)
  | _ => raise TypeError "object is not iterable"
  end.
Definition normalize_index (n : nat) (index : pyval) : result nat :=
  match index with
  | VInt z =>
      let z := if z <? 0 then z + Z.of_nat n else z in
      _ ← ensure (negb ((z <? 0) || (Z.of_nat n <=? z))) ValueError "index out of range";
      Ok (Z.to_nat z)
  | _ => raise ValueError "must contain integers"
  end.
(** [_normalize_indices] *)
Definition normalize_indices (n : nat) (indices : option pyval) : result (list nat) :=
  match indices with
  | None => Ok []
  | Some v =>
      l ← match v with VInt _ | VBool _ => Ok [v] | _ => elements_of v end;
      omap_list (normalize_index n) l
  end.

(** [_dynamic_symbolic_map]: every variable with the first place that mentions it *)
Definition map_extent (parameter : nat) (m : dict extent_var (nat * nat)) (x : nat * option extent_var) :
    dict extent_var (nat * nat) :=
  match x.2 with Some v => if dmem m v then m else dset m v (parameter, x.1) | None => m end.
Definition symbolic_map (skipped : list nat) (params : list param) : dict extent_var (nat * nat) :=
  foldl (λ m p, if bool_decide (p.1 ∈ skipped) then m else foldl (map_extent p.1) m (enumerate 0 p.2)) [] (enumerate 0 params).

(** [tuple(program.metadata.get("timing_limitations", ()))] *)
Definition limitations_of (p : KernelProgram) : list string :=
  match dget (kp_metadata p) "timing_limitations" with Some v => match as_sequence v with Some l => str_of <$> l | None => [] end | None => [] end.
Definition specs_of (p : KernelProgram) : dict string BufferSpec := dict_of_pairs ((λ b, (bs_name b, b)) <$> kp_buffers p).

(** [__init__]; [names] is what [_extract_parameter_names] finds in the lowered function. *)
Definition adapter_init (params : list param) (names : list (option string)) (result_idx workspace_idx : option pyval)
    (config : SimulatorConfig) (profile : TimingProfile) (trace_path : option string) (program : KernelProgram)
    (validate_sync : option string) : result (Adapter * AdapterState) :=
  results ← normalize_indices (length params) result_idx;
  workspaces ← normalize_indices (length params) workspace_idx;
  let dynamic := existsb is_dynamic (tasks program) in
  diagnostics ← match validate_sync with
                | Some key => if dynamic then Ok [] else validate_memory_synchronization program (hazard_check config) key
                | None => Ok []
                end;
  Ok (MkAdapter params results workspaces config profile trace_path program (limitations_of program)
        (symbolic_map (results ++ workspaces) params) names (specs_of program) validate_sync dynamic,
      MkState None None None None None diagnostics []).

(** ** Recording a schedule *)

(** A method: [None] is an exhausted step budget of the scheduler. *)
Definition adM (A : Type) : Type := AdapterState → option (AdapterState * result A).
#[global] Instance adM_ret : MRet adM := λ A a s, Some (s, Ok a).
#[global] Instance adM_bind : MBind adM := λ A B f m s,
  match m s with
  | Some (s', Ok a) => f a s'
  | Some (s', Raise e) => Some (s', Raise e)
  | None => None
  end.
Definition ad_lift {A} (m : result A) : adM A := λ s, Some (s, m).
Definition ad_modify (f : AdapterState → AdapterState) : adM unit := λ s, Some (f s, Ok tt).
Definition ad_with {A} (f : AdapterState → adM A) : adM A := λ s, f s s.
Definition ad_steps {A} (m : option A) : adM A := λ s, a ← m; Some (s, Ok a).

Definition with_schedule (records : list ExecutionRecord) (st : SimulationStats) (s : AdapterState) : AdapterState :=
  MkState (Some (records, st)) (Some st) (last_trace s) (last_report s) (last_execution s) (sync_diagnostics s) (written s).
Definition with_trace (path : string) (document : dict string pyval) (s : AdapterState) : AdapterState :=
  MkState (last_schedule s) (last_stats s) (Some (resolve_path path)) (last_report s) (last_execution s) (sync_diagnostics s)
    (written s ++ [(path, document)]).
Definition with_report (r : PerformanceReport) (s : AdapterState) : AdapterState :=
  MkState (last_schedule s) (last_stats s) (last_trace s) (Some r) (last_execution s) (sync_diagnostics s) (written s).
Definition with_execution (x : FunctionalExecutionResult) (s : AdapterState) : AdapterState :=
  MkState (last_schedule s) (last_stats s) (last_trace s) (last_report s) (Some x) (sync_diagnostics s) (written s).
Definition with_diagnostics (ds : list HazardDiagnostic) (s : AdapterState) : AdapterState :=
  MkState (last_schedule s) (last_stats s) (last_trace s) (last_report s) (last_execution s) ds (written s).

(** The trace that is written when the configuration asks for one. *)
Definition export_trace (ad : Adapter) (records : list ExecutionRecord) : adM unit :=
  match ad_trace_path ad with
  | None => mret tt
  | Some path => ad_with (λ s,
      timeline ← ad_lift match last_execution s with
                          | Some x => local_memory_live_bytes (fx_memory x) records
                          | None => Ok []
                          end;
      document ← ad_lift (trace_to_dict (MkExporter (platform (ad_config ad)) (tp_calibration (ad_profile ad)) (ad_limitations ad)) records timeline);
      ad_modify (with_trace path document))
  end.
(** [_record_schedule] *)
Definition record_schedule (ad : Adapter) (records : list ExecutionRecord) (st : SimulationStats) : adM unit :=
  _ ← ad_modify (with_schedule records st);
  _ ← export_trace ad records;
  ad_with (λ s, r ← ad_steps (from_schedule records st (ad_config ad) (ad_profile ad) (last_trace s));
                ad_modify (with_report (limited (ad_limitations ad) r))).

(** [schedule] *)
Definition schedule_program (fuel : nat) (ad : Adapter) : adM (list ExecutionRecord * SimulationStats) :=
  scheduled ← ad_steps (scheduler_run set_order clock (MkSim (ad_program ad) (ad_config ad) [] None) fuel (ad_program ad));
  '(records, st) ← ad_lift scheduled;
  _ ← record_schedule ad records st;
  mret (records, st).

(** [performance_report] *)
Definition performance_report : adM PerformanceReport := λ s,
  Some (s, match last_report s with
           | Some r => Ok r
           | None => raise SimulatorConfigError "no simulator schedule is available; call schedule() first"
           end).

(** ** Arguments *)

Inductive argument :=
| ArgNone
| ArgArray (a : array)
| ArgTensor (t : tensor)
| ArgGeneric (item : pyval)
| ArgPy (v : pyval).

(** [value.shape], where there is one; a NumPy scalar has the empty shape. *)
Definition argument_shape (v : argument) : option (list Z) :=
  match v with
  | ArgArray a => Some (ar_shape a)
  | ArgTensor t => Some (tensor_shape t)
  | ArgGeneric _ => Some []
  | ArgNone | ArgPy _ => None
  end.
Definition bind_extent (values : list argument) (b : bindings) (x : extent_var * (nat * nat)) : result bindings :=
  let '((_, name), (parameter, axis)) := x in
  match values !! parameter ≫= argument_shape with
  | None => raise_with ProgramValidationError "cannot bind dynamic extent" [name]
  | Some shape =>
      match shape !! axis with
      | Some n => Ok (dset b name (VInt n))
      | None => raise IndexError "tuple index out of range"
      end
  end.
Definition bind_scalar (ad : Adapter) (b : bindings) (x : option string * argument) : result bindings :=
  let known := match x.1 with Some name => dmem (buffer_specs ad) name | None => false end in
  let bind v :=
    match v with
    | VInt _ | VFloat _ => Ok (dset b (default "" x.1) v)
    | _ => raise ProgramValidationError "simulator scalar parameter must be numeric"
    end in
  if known then Ok b
  else match x.2 with
  | ArgNone => Ok b
  | ArgGeneric item => bind item
  | ArgPy v => bind v
  | ArgArray _ | ArgTensor _ => raise ProgramValidationError "simulator scalar parameter must be numeric"
  end.

(** The parameters that the caller supplies, and their values. *)
Definition supplied_indices (ad : Adapter) : list nat :=
  filter (λ i, i ∉ result_idx ad ∧ i ∉ workspace_idx ad) (seq 0 (length (ad_params ad))).
Definition parameter_values (ad : Adapter) (arguments : list argument) : list argument :=
  foldl (λ values x, <[x.1 := x.2]> values) (replicate (length (ad_params ad)) ArgNone) (zip (supplied_indices ad) arguments).
Definition bindings_of (ad : Adapter) (values : list argument) : result bindings :=
  b ← ofold (bind_extent values) (dynamic_symbolic_map ad) [];
  ofold (bind_scalar ad) (zip (parameter_names ad) values) b.

(** [_full_region] *)
Definition full_region (spec : BufferSpec) : result BufferRegion :=
  _ ← ensure (bool_decide (bs_scope spec = GM)) ProgramValidationError "simulator parameter buffer must use GM scope";
  buffer_region_init (bs_name spec) (scope_value (bs_scope spec)) (bs_shape spec) (bs_dtype spec) (VInt 0) None None.

(** [np.ascontiguousarray], which has at least one dimension *)
Definition contiguous (a : array) : array :=
  match ar_shape a with [] => mk_array (ar_dtype a) [1] (ar_data a) | _ => a end.
(** [_as_numpy]; the flag says that the value is a tensor. *)
Definition as_numpy (v : argument) : result (array * bool) :=
  match v with
  | ArgArray a => Ok (contiguous a, false)
  | ArgTensor t =>
      _ ← ensure (mem_str (tensor_device t) ["cpu"]) ProgramValidationError "simulator input must be a CPU tensor";
      match tensor_numpy t with
      | Ok a => Ok (contiguous a, true)
      | Raise e =>
          if negb (tensor_bfloat16 t) && is_subclass (exn_cls e) TypeError
          then raise UnsupportedSimOpError "simulator cannot convert tensor dtype to NumPy" else Raise e
      end
  | _ => raise TypeError "simulator input must be a NumPy array or CPU torch.Tensor"
  end.

(** [self._parameter_names[index]] *)
Definition parameter_name (ad : Adapter) (index : nat) : option string :=
  match parameter_names ad !! index with Some name => name | None => None end.
(** One input: its array goes to the whole buffer of the parameter. *)
Definition write_input (ad : Adapter) (sim : Simulator) (values : list argument) (torch : bool) (index : nat) : memM bool :=
  match parameter_name ad index with
  | None => mret torch
  | Some name =>
      match dget (buffer_specs ad) name with
      | None => mret torch
      | Some spec =>
          '(a, is_tensor) ← st_lift (as_numpy (default ArgNone (values !! index)));
          region ← st_lift (full_region spec);
          _ ← write_region sim region (AArr a) 0;
          mret (torch || is_tensor)
      end
  end.
Fixpoint write_inputs (ad : Adapter) (sim : Simulator) (values : list argument) (indices : list nat) (torch : bool) : memM bool :=
  match indices with
  | [] => mret torch
  | i :: indices => torch ← write_input ad sim values torch i; write_inputs ad sim values indices torch
  end.

(** ** Results *)

(** [_result_buffer] *)
Definition result_buffer (ad : Adapter) (index : nat) : result BufferSpec :=
  match name ← parameter_name ad index; dget (buffer_specs ad) name with
  | Some spec => Ok spec
  | None => raise ProgramValidationError "simulator result parameter is not a buffer"
  end.
Definition read_result (ad : Adapter) (sim : Simulator) (index : nat) : memM array :=
  spec ← st_lift (result_buffer ad index);
  region ← st_lift (full_region spec);
  read_region sim region 0.

Inductive output := OutArray (a : array) | OutTensor (t : tensor).
(** [_from_numpy] *)
Definition from_numpy (torch : bool) (a : array) : result output :=
  if torch then t ← torch_from_numpy (contiguous a); Ok (OutTensor t) else Ok (OutArray a).
(** [None], a single output or a list *)
Inductive returned := NoResult | One (o : output) | Many (os : list output).
Definition returned_of (os : list output) : returned := match os with [o] => One o | _ => Many os end.

(** ** A call *)

(** The number of arguments and the bindings: everything before the simulator is built. *)
Definition check_arguments (ad : Adapter) (arguments : list argument) : result unit :=
  _ ← ensure (length (parameter_names ad) =? length (ad_params ad))%nat UnsupportedSimOpError
        "functional simulator requires final PrimFunc parameter metadata";
  ensure (bool_decide (length arguments ∈ [length (supplied_indices ad);
                                           (length (supplied_indices ad) + length (dynamic_symbolic_map ad))%nat]))
    ValueError "expected simulator inputs".

(** The synchronization of a program with data-dependent branches is checked for the branches taken;
    the program they leave is kept for the run. *)
Definition check_active_program (ad : Adapter) (sim : Simulator) (memory : MemoryRuntime) : adM (option KernelProgram) :=
  match validate_sync ad with
  | Some key =>
      if has_dynamic_control ad then
        program ← ad_lift (program_for_dynamic_control node_of sim None memory);
        diagnostics ← ad_lift (validate_memory_synchronization program (hazard_check (ad_config ad)) key);
        _ ← ad_modify (with_diagnostics diagnostics);
        mret (Some program)
      else mret None
  | None => mret None
  end.

(** The simulator with its inputs in memory. *)
Definition prepared (ad : Adapter) (arguments : list argument) : result (Simulator * MemoryRuntime * bool) :=
  _ ← check_arguments ad arguments;
  let values := parameter_values ad arguments in
  b ← bindings_of ad values;
  '(sim, memory) ← functional_init (ad_program ad) (Some (ad_config ad)) b;
  let '(memory, answer) := write_inputs ad sim values (supplied_indices ad) false memory in
  torch ← answer;
  Ok (sim, memory, torch).

(** The results of a run; the memory of [last_execution] is the one that is read. *)
Definition with_memory (memory : MemoryRuntime) (x : FunctionalExecutionResult) : FunctionalExecutionResult :=
  MkExecution (fx_records x) (fx_stats x) memory (fx_numeric_results_available x).
Definition collect_results (ad : Adapter) (sim : Simulator) (torch : bool) (x : FunctionalExecutionResult) : adM returned :=
  if fx_numeric_results_available x then
    let '(memory, answer) := st_map (read_result ad sim) (result_idx ad) (fx_memory x) in
    _ ← ad_modify (with_execution (with_memory memory x));
    arrays ← ad_lift answer;
    outputs ← ad_lift (omap_list (from_numpy torch) arrays);
    mret (returned_of outputs)
  else mret NoResult.

(** [_functional_execute] *)
Definition functional_execute (fuel : nat) (ad : Adapter) (arguments : list argument) : adM returned :=
  '(sim, memory, torch) ← ad_lift (prepared ad arguments);
  cached ← check_active_program ad sim memory;
  ran ← ad_steps (run_functional node_of set_order clock fuel sim cached memory);
  x ← ad_lift ran;
  _ ← ad_modify (with_execution x);
  _ ← record_schedule ad (fx_records x) (fx_stats x);
  collect_results ad sim torch x.
End adapter.

(** ** Configuration *)

(** What a caller may pass as [sim_config]: a mapping is given by its platform, if any, and the
    constructor's other arguments. *)
Inductive sim_config_value :=
| NoConfig
| AConfig (c : SimulatorConfig)
| Options (configured : option string) (options : string → config_args)
| OtherConfig.

(** [_resolve_config] *)
Definition resolve_config (platform_name : string) (value : sim_config_value) : result SimulatorConfig :=
  let mismatch := raise SimulatorConfigError "sim_config platform does not match JIT platform" in
  match value with
  | NoConfig => config_init (default_config_args platform_name)
  | AConfig c => if (platform c =? upper platform_name)%string then Ok c else mismatch
  | Options configured options =>
      if (upper (default platform_name configured) =? upper platform_name)%string then config_init (options platform_name)
      else mismatch
  | OtherConfig => raise SimulatorConfigError "sim_config must be SimulatorConfig, mapping, or None"
  end.

(** ** Steps of a method *)

Section methods.
Context {NP : Numpy} {TORCH : Torch} (node_of : pyval → tir).
Context (set_order : gset string → list string) (clock : nat → Q) (resolve_path : string → string).

Lemma ad_bind_inv {A B} (m : adM A) (f : A → adM B) s s' (ans : result B) :
  adM_bind A B f m s = Some (s', ans) →
  (∃ e, m s = Some (s', Raise e) ∧ ans = Raise e) ∨ ∃ s1 a, m s = Some (s1, Ok a) ∧ f a s1 = Some (s', ans).
Proof. unfold adM_bind. destruct (m s) as [[s1 [a|e]]|]; [eauto|intros [= <- <-]; eauto|done]. Qed.
Lemma ad_bind_ok {A B} (m : adM A) (f : A → adM B) s s' b :
  adM_bind A B f m s = Some (s', Ok b) → ∃ s1 a, m s = Some (s1, Ok a) ∧ f a s1 = Some (s', Ok b).
Proof. by intros [(? & _ & ?)|?]%ad_bind_inv. Qed.
Lemma ad_steps_ok {A} (m : option A) s s' a : ad_steps m s = Some (s', Ok a) → m = Some a ∧ s' = s.
Proof. unfold ad_steps. destruct m; [|done]. cbn. by intros [= <- <-]. Qed.
Lemma ad_lift_ok {A} (m : result A) s s' a : ad_lift m s = Some (s', Ok a) → m = Ok a ∧ s' = s.
Proof. unfold ad_lift. by intros [= <- ->]. Qed.

(** What recording a schedule leaves: the schedule always; its report, unless the export of the
    trace failed, which leaves the earlier report. *)
Lemma record_schedule_spec ad records st s s' ans :
  record_schedule resolve_path ad records st s = Some (s', ans) →
  last_schedule s' = Some (records, st) ∧ last_stats s' = Some st ∧ last_execution s' = last_execution s ∧
  match ans with
  | Ok _ => ∃ r, last_report s' = Some r ∧ schedule_records r = records ∧ stats r = st ∧
              timing_limitations r = ad_limitations ad ∧ trace_path r = last_trace s' ∧
              (ad_trace_path ad = None → last_trace s' = last_trace s)
  | Raise _ => last_report s' = last_report s ∧ last_trace s' = last_trace s ∧ ad_trace_path ad ≠ None
  end.
Proof.
  unfold record_schedule, export_trace, mbind, adM_bind, ad_modify, ad_with, ad_lift, ad_steps, mret, adM_ret.
  assert (∀ t, from_schedule records st (ad_config ad) (ad_profile ad) t ≠ None) as Htotal.
  { intros t. unfold from_schedule, critical_path. pose proof (critical_chain_sound records) as Hc. by destruct (critical_chain records). }
  assert (∀ t r, from_schedule records st (ad_config ad) (ad_profile ad) t = Some r →
    let l := limited (ad_limitations ad) r in
    schedule_records l = records ∧ stats l = st ∧ timing_limitations l = ad_limitations ad ∧ trace_path l = t) as Hreport.
  { intros t r. unfold from_schedule. destruct (critical_path records); [|done]. intros [= <-]. unfold limited. by destruct (ad_limitations ad). }
  destruct (ad_trace_path ad) as [path|]; cbn.
  - destruct (match last_execution s with Some _ => _ | None => _ end) as [timeline|]; [|intros [= <- <-]; done].
    destruct (trace_to_dict _ records timeline) as [document|]; [|intros [= <- <-]; done]. cbn.
    destruct (from_schedule _ _ _ _ _) as [r|] eqn:Er; [|done]. intros [= <- <-]. destruct (Hreport _ _ Er) as (? & ? & ? & ?).
    cbn. split_and!; [done..|]. eexists. split_and!; done.
  - destruct (from_schedule _ _ _ _ _) as [r|] eqn:Er; [|done]. intros [= <- <-]. destruct (Hreport _ _ Er) as (? & ? & ? & ?).
    cbn. split_and!; [done..|]. eexists. split_and!; done.
Qed.

(** ** A call *)

Lemma write_inputs_wf ad sim values indices torch m m' ans :
  runtime_wf m → write_inputs ad sim values indices torch m = (m', ans) → runtime_wf m'.
Proof.
  revert torch m. induction indices as [|i indices IH]; intros torch m Hwf; cbn [write_inputs].
  { unfold mret, stM_ret. by intros [= <- _]. }
  unfold mbind, stM_bind. destruct (write_input ad sim values torch i m) as [m1 ans1] eqn:E.
  assert (runtime_wf m1) as Hwf1.
  { unfold write_input, mbind, stM_bind, st_lift, mret, stM_ret in E. destruct (parameter_name ad i) as [name|]; [|by injection E as <- _].
    destruct (dget (buffer_specs ad) name) as [spec|]; [|by injection E as <- _].
    destruct (as_numpy _) as [[a tensor_arg]|]; [|by injection E as <- _]. destruct (full_region spec) as [region|]; [|by injection E as <- _].
    pose proof (confined_write_region sim 0 [region] region (AArr a)) as Hc.
    destruct (write_region sim region (AArr a) 0 m) as [m2 [[]|]] eqn:Ew; injection E as <- _;
      refine (untouched_wf _ _ _ _ _ _ Hwf); specialize (Hc ltac:(exists region; split; [by left|done]) m Hwf); rewrite Ew in Hc; exact Hc. }
  destruct ans1; [by apply IH|by intros [= <- _]].
Qed.

(** The program that was resolved for the synchronization check is the one the run would resolve. *)
Lemma run_functional_cached fuel sim program m :
  program_for_dynamic_control node_of sim None m = Ok program →
  run_functional node_of set_order clock fuel sim (Some program) m = run_functional node_of set_order clock fuel sim None m.
Proof. intros H. unfold run_functional. by rewrite H. Qed.

Lemma prepared_ok ad arguments sim m torch :
  prepared ad arguments = Ok (sim, m, torch) →
  ∃ b m0, functional_init (ad_program ad) (Some (ad_config ad)) b = Ok (sim, m0) ∧ bindings_of ad (parameter_values ad arguments) = Ok b ∧
    write_inputs ad sim (parameter_values ad arguments) (supplied_indices ad) false m0 = (m, Ok torch) ∧
    sim = MkSim (ad_program ad) (ad_config ad) b None ∧ runtime_wf m.
Proof.
  unfold prepared. intros H. apply outcome_bind_ok in H as (_ & _ & H). apply outcome_bind_ok in H as (b & Hb & H).
  apply outcome_bind_ok in H as ([sim' m0] & Hi & H). destruct (write_inputs _ _ _ _ _ _) as [m' ans] eqn:Ew.
  apply outcome_bind_ok in H as (torch' & Ht & H). injection H as -> -> ->. exists b, m0. subst ans.
  pose proof Hi as Hsim. unfold functional_init in Hsim. ok_bind. cbn [mbind outcome_bind] in Hsim.
  apply outcome_bind_ok in Hsim as (_ & _ & Hsim). apply outcome_bind_ok in Hsim as (_ & _ & Hsim).
  apply outcome_bind_ok in Hsim as (m1 & Hm1 & Hsim). injection Hsim as <- <-. split_and!; try done.
  eapply write_inputs_wf; [|exact Ew]. exact (proj1 (from_program_ok _ _ _ _ Hm1)).
Qed.

Lemma check_active_ok ad sim m s s' cached :
  check_active_program node_of ad sim m s = Some (s', Ok cached) →
  (∀ fuel, run_functional node_of set_order clock fuel sim cached m = run_functional node_of set_order clock fuel sim None m).
Proof.
  unfold check_active_program. destruct (validate_sync ad) as [key|]; [|by intros [= _ <-]].
  destruct (has_dynamic_control ad); [|by intros [= _ <-]].
  intros (s1 & program & Hp & H)%ad_bind_ok. apply ad_lift_ok in Hp as [Hp ->].
  apply ad_bind_ok in H as (s2 & ds & _ & H). apply ad_bind_ok in H as (s3 & [] & _ & H). injection H as _ <-.
  intros fuel. by apply run_functional_cached.
Qed.

(** C29. A call that returns has run the program on its arguments.  The arguments became bindings and
    memory contents, the run scheduled and executed the program that the data-dependent branches
    leave, and its records, statistics and report are the ones the adapter now keeps.  The results
    are the arrays read from the final memory at the result parameters, in their order, in the
    framework of the arguments; a synchronization-only adapter returns nothing. *)
Theorem adapter_call_correct fuel ad arguments s s' out :
  program_wf (ad_program ad) →
  functional_execute node_of set_order clock resolve_path fuel ad arguments s = Some (s', Ok out) →
  ∃ b m torch x m',
    let sim := MkSim (ad_program ad) (ad_config ad) b None in
    prepared ad arguments = Ok (sim, m, torch) ∧ runtime_wf m ∧
    run_functional node_of set_order clock fuel sim None m = Some (Ok x) ∧ runtime_wf (fx_memory x) ∧
    (∃ program c, program_for_dynamic_control node_of sim None m = Ok program ∧ valid_schedule (tasks program) (fx_records x) c) ∧
    last_schedule s' = Some (fx_records x, fx_stats x) ∧ last_stats s' = Some (fx_stats x) ∧
    last_execution s' = Some (with_memory m' x) ∧
    (∃ r, last_report s' = Some r ∧ schedule_records r = fx_records x ∧ stats r = fx_stats x ∧
       timing_limitations r = ad_limitations ad) ∧
    if sync_only (ad_config ad) then out = NoResult ∧ m' = fx_memory x
    else ∃ arrays outputs,
      st_map (read_result ad sim) (result_idx ad) (fx_memory x) = (m', Ok arrays) ∧
      Forall2 (λ a o, from_numpy torch a = Ok o) arrays outputs ∧ out = returned_of outputs.
Proof.
  intros Hwf H. unfold functional_execute in H.
  apply ad_bind_ok in H as (s1 & [[sim m] torch] & Hp & H). apply ad_lift_ok in Hp as [Hp ->].
  destruct (prepared_ok _ _ _ _ _ Hp) as (b & m0 & _ & _ & _ & -> & Hm).
  apply ad_bind_ok in H as (s2 & cached & Hc & H). apply ad_bind_ok in H as (s3 & ran & Hr & H).
  apply ad_steps_ok in Hr as [Hr ->]. rewrite (check_active_ok _ _ _ _ _ _ Hc) in Hr.
  apply ad_bind_ok in H as (s4 & x & Hx & H). apply ad_lift_ok in Hx as [-> ->].
  apply ad_bind_ok in H as (s5 & [] & Hmod & H). injection Hmod as <-.
  apply ad_bind_ok in H as (s6 & [] & Hrec & H). apply record_schedule_spec in Hrec as (Hs & Hst & He & r & Hrep & Hrr & Hrs & Hrl & _).
  destruct (run_functional_result node_of set_order clock (MkSim (ad_program ad) (ad_config ad) b None) fuel m Hwf Hm x Hr) as (program & order & Hprog & _ & [c Hvalid] & _ & _ & _ & _ & Hmx & _).
  assert (fx_numeric_results_available x = negb (sync_only (ad_config ad))) as Hnum.
  { unfold run_functional in Hr. rewrite Hprog in Hr. destruct (scheduler_run _ _ _ _ _) as [scheduled|]; [|done]. injection Hr as Hr.
    apply outcome_bind_ok in Hr as ([records ?] & _ & Hr). apply outcome_bind_ok in Hr as (o & _ & Hr).
    destruct (execute_all _ _ _ _) as [m2 ans2]. apply outcome_bind_ok in Hr as (_ & _ & Hr). apply outcome_bind_ok in Hr as (st2 & _ & Hr). by injection Hr as <-. }
  unfold collect_results in H. rewrite Hnum in H. destruct (sync_only (ad_config ad)) eqn:Eso; cbn [negb] in H.
  - injection H as <- <-. exists b, m, torch, x, (fx_memory x). cbn zeta. split_and!; try done; [by exists program, c| |by exists r].
    rewrite He. destruct x; done.
  - destruct (st_map (read_result _ _) (result_idx ad) (fx_memory x)) as [m' answer] eqn:Er.
    apply ad_bind_ok in H as (s7 & [] & Hmod & H). injection Hmod as <-. apply ad_bind_ok in H as (s8 & arrays & Ha & H).
    apply ad_lift_ok in Ha as [-> ->]. apply ad_bind_ok in H as (s9 & outputs & Ho & H). apply ad_lift_ok in Ho as [Ho ->].
    injection H as <- <-. apply omap_list_ok in Ho. exists b, m, torch, x, m'. cbn zeta.
    split_and!; try done; [by exists program, c|by exists r|by exists arrays, outputs].
Qed.

(** ** What the adapter keeps *)

Inductive ad_step (ad : Adapter) (s s' : AdapterState) : Prop :=
| step_schedule fuel ans : schedule_program set_order clock resolve_path fuel ad s = Some (s', ans) → ad_step ad s s'
| step_execute fuel arguments ans :
    functional_execute node_of set_order clock resolve_path fuel ad arguments s = Some (s', ans) → ad_step ad s s'.
Definition reached (ad : Adapter) (s : AdapterState) : Prop :=
  ∃ diagnostics, rtc (ad_step ad) (MkState None None None None None diagnostics []) s.

Record kept (ad : Adapter) (s : AdapterState) : Prop := {
  kept_stats : last_stats s = snd <$> last_schedule s;
  kept_none : last_schedule s = None → last_report s = None;
  kept_report : ad_trace_path ad = None → last_trace s = None ∧
    ∀ records st, last_schedule s = Some (records, st) → ∃ r, last_report s = Some r ∧
      schedule_records r = records ∧ stats r = st ∧ timing_limitations r = ad_limitations ad ∧ trace_path r = None;
}.
Definition keeps {A} (ad : Adapter) (m : adM A) : Prop := ∀ s s' ans, kept ad s → m s = Some (s', ans) → kept ad s'.
Lemma ad_keeps_bind {A B} ad (m : adM A) (f : A → adM B) : keeps ad m → (∀ a, keeps ad (f a)) → keeps ad (adM_bind A B f m).
Proof. intros Hm Hf s s' ans Hk [(e & H & _)|(s1 & a & H & H')]%ad_bind_inv; [by eapply Hm|]. eapply Hf; [|done]. by eapply Hm. Qed.
Lemma ad_keeps_lift {A} ad (m : result A) : keeps ad (ad_lift m).
Proof. intros s s' ans Hk. unfold ad_lift. by intros [= <- _]. Qed.
Lemma ad_keeps_steps {A} ad (m : option A) : keeps ad (ad_steps m).
Proof. intros s s' ans Hk. unfold ad_steps. destruct m; [|done]. cbn. by intros [= <- _]. Qed.
Lemma ad_keeps_ret {A} ad (a : A) : keeps ad (mret a).
Proof. intros s s' ans Hk. by intros [= <- _]. Qed.
Lemma ad_keeps_execution ad x : keeps ad (ad_modify (with_execution x)).
Proof. intros s s' ans [] [= <- _]. by split. Qed.
Lemma ad_keeps_diagnostics ad ds : keeps ad (ad_modify (with_diagnostics ds)).
Proof. intros s s' ans [] [= <- _]. by split. Qed.
Lemma ad_keeps_record ad records st : keeps ad (record_schedule resolve_path ad records st).
Proof.
  intros s s' ans [K1 K2 K3] H. apply record_schedule_spec in H as (Hs & Hst & _ & Hr). split; [by rewrite Hs, Hst|by rewrite Hs|].
  intros Hpath. destruct (K3 Hpath) as [Ht _]. destruct ans as [u|e]; [|by destruct Hr as (_ & _ & Hr)].
  destruct Hr as (r & Hrep & H1 & H2 & H3 & H4 & H5). specialize (H5 Hpath). split; [by rewrite H5|].
  rewrite Hs. intros ? ? [= <- <-]. exists r. rewrite H4, H5. done.
Qed.

(** C30. The adapter's records are consistent in every reachable state, whatever calls succeeded or
    failed before: the statistics are those of the last schedule, and there is no report before
    the first schedule, when asking for one raises [SimulatorConfigError].  Without a trace path
    the report is always that of the last schedule, with the limitations of the program. *)
Theorem adapter_reports_last_schedule ad s :
  reached ad s →
  last_stats s = snd <$> last_schedule s ∧
  (last_schedule s = None → ∃ e, performance_report s = Some (s, Raise e) ∧ exn_cls e = SimulatorConfigError) ∧
  (ad_trace_path ad = None → ∀ records st, last_schedule s = Some (records, st) →
     ∃ r, performance_report s = Some (s, Ok r) ∧ schedule_records r = records ∧ stats r = st ∧
       timing_limitations r = ad_limitations ad ∧ trace_path r = None).
Proof.
  intros [ds Hsteps]. assert (kept ad s) as [K1 K2 K3].
  { assert (kept ad (MkState None None None None None ds [])) as Hk by by split.
    induction Hsteps as [|s1 s2 s3 Hstep _ IH]; [done|]. apply IH. destruct Hstep as [fuel ans H|fuel arguments ans H].
    - revert H. apply (ad_keeps_bind ad (ad_steps _)); [apply ad_keeps_steps|intros scheduled|done].
      apply ad_keeps_bind; [apply ad_keeps_lift|intros [records st]]. apply ad_keeps_bind; [apply ad_keeps_record|intros _; apply ad_keeps_ret].
    - revert H. apply (ad_keeps_bind ad (ad_lift _)); [apply ad_keeps_lift|intros [[sim m] torch]|done].
      apply ad_keeps_bind.
      { unfold check_active_program. destruct (validate_sync ad); [|apply ad_keeps_ret]. destruct (has_dynamic_control ad); [|apply ad_keeps_ret].
        apply ad_keeps_bind; [apply ad_keeps_lift|intros program]. apply ad_keeps_bind; [apply ad_keeps_lift|intros diagnostics].
        apply ad_keeps_bind; [apply ad_keeps_diagnostics|intros _; apply ad_keeps_ret]. }
      intros cached. apply ad_keeps_bind; [apply ad_keeps_steps|intros ran]. apply ad_keeps_bind; [apply ad_keeps_lift|intros x].
      apply ad_keeps_bind; [apply ad_keeps_execution|intros _]. apply ad_keeps_bind; [apply ad_keeps_record|intros _].
      unfold collect_results. destruct (fx_numeric_results_available x); [|apply ad_keeps_ret].
      destruct (st_map _ _ _) as [m' answer]. apply ad_keeps_bind; [apply ad_keeps_execution|intros _]. apply ad_keeps_bind; [apply ad_keeps_lift|intros arrays].
      apply ad_keeps_bind; [apply ad_keeps_lift|intros outputs; apply ad_keeps_ret]. }
  split; [done|]. split.
  - intros Hn. unfold performance_report. rewrite (K2 Hn). by eexists.
  - intros Hpath records st Hs. destruct (proj2 (K3 Hpath) records st Hs) as (r & Hr & ?). exists r. unfold performance_report. by rewrite Hr.
Qed.

(** ** Indices *)

(** Indices of results and workspaces are Python indices: integers from [-n] to [n - 1], counted
    from the end when negative; anything else is a [ValueError]. *)
Lemma normalize_index_exact n v i :
  normalize_index n v = Ok i ↔ ∃ z, v = VInt z ∧ - Z.of_nat n <= z < Z.of_nat n ∧ Z.of_nat i = z mod Z.of_nat n.
Proof.
  assert (∀ z, 0 <= z < Z.of_nat n → z mod Z.of_nat n = z) as Hsmall by (intros; by apply Z.mod_small).
  split.
  - destruct v; try done. cbn. intros H. apply outcome_bind_ok in H as (_ & Hr%ensure_ok & [= <-]). exists z.
    destruct (Z.ltb_spec z 0).
    + split; [done|]. split; [lia|]. rewrite <- (Z.mod_add z 1), Z.mul_1_l, Hsmall by lia. lia.
    + split; [done|]. split; [lia|]. rewrite Hsmall by lia. lia.
  - intros (z & -> & Hz & Hi). cbn. destruct (Z.ltb_spec z 0).
    + rewrite <- (Z.mod_add z 1), Z.mul_1_l, Hsmall in Hi by lia. replace (negb _) with true by lia. cbn. f_equal. lia.
    + rewrite Hsmall in Hi by lia. replace (negb _) with true by lia. cbn. f_equal. lia.
Qed.
End methods.

(** ** A kernel that adds five to its input *)

(** Tensors as arrays that live on the CPU. *)
#[export] Instance ArrayTorch : @Torch IntNumpy :=
  @Build_Torch IntNumpy array ar_shape (λ _, "cpu") (λ _, false) (λ a, Ok a) (λ a, Ok a).

Definition five_task : Task :=
  MkTask "t" "AddS" 0 VECTOR_0 VECTOR 1 [] None
    [("lhs", VRegion (int_region "x" GM)); ("scalar", VInt 5); ("dst", VRegion (int_region "y" GM))].
Definition five_program : KernelProgram :=
  MkKernel "five" "A2" [MkCore 0 [five_task]] [int_spec "x" GM; int_spec "y" GM] [].
Lemma five_program_wf : program_wf five_program.
Proof.
  assert (kernel_program_init "five" "A2" (kp_cores five_program) (kp_buffers five_program) [] = Ok five_program) as H
    by (vm_compute; reflexivity).
  by apply kernel_init_wf in H as [? _].
Qed.

(** The result is the last of two parameters. *)
Definition five_init : result (Adapter * AdapterState) :=
  adapter_init [[]; []] [Some "x"; Some "y"] (Some (VInt (-1))) None (exec_config false) a2_profile None five_program
    (Some "memory_dependencies").
Definition five_adapter : Adapter :=
  MkAdapter [[]; []] [1%nat] [] (exec_config false) a2_profile None five_program [] [] [Some "x"; Some "y"]
    [("x", int_spec "x" GM); ("y", int_spec "y" GM)] (Some "memory_dependencies") false.
Definition fresh : @AdapterState := MkState None None None None None [] [].
Example five_initialized : five_init = Ok (five_adapter, fresh).
Proof. vm_compute. reflexivity. Qed.

Definition int_array (l : list Z) : typed_array (@dtype IntNumpy) (@elt IntNumpy) :=
  mk_array (default (DInt false 0) (np_dtype "int32")) [Z.of_nat (length l)] l.
Definition call (arguments : list (@argument IntNumpy ArrayTorch)) : option (AdapterState * result returned) :=
  functional_execute no_node elements still_clock id 2 five_adapter arguments fresh.
(** The numbers an answer holds. *)
Definition numbers_of (r : @returned IntNumpy ArrayTorch) : list Z :=
  match r with One (OutArray a) => ar_data a | _ => [] end.
Definition answer_of (m : option (AdapterState * result (@returned IntNumpy ArrayTorch))) : result (list Z) :=
  match m with Some (_, a) => numbers_of <$> a | None => raise RecursionError "steps" end.
Example call_errors :
  (λ m, match answer_of m with Raise e => Some (exn_cls e) | Ok _ => None end) <$>
    [call []; call [ArgPy (VInt 3)]; call [ArgArray (int_array [1; 2])]] =
  [Some ValueError; Some TypeError; Some ProgramValidationError].
Proof. vm_compute. reflexivity. Qed.
Lemma call_answer : answer_of (call [ArgArray (int_array [1; 2; 3; 4])]) = Ok [6; 7; 8; 9].
Proof. vm_compute. reflexivity. Qed.
Lemma call_ok : ∃ s out, call [ArgArray (int_array [1; 2; 3; 4])] = Some (s, Ok out) ∧ numbers_of out = [6; 7; 8; 9].
Proof.
  pose proof call_answer as H. destruct (call _) as [[s [out|e]]|]; [|discriminate H|discriminate H].
  exists s, out. split; [reflexivity|]. cbn in H. by injection H.
Qed.

Lemma adapter_call_correct_witness :
  ∃ s out x, call [ArgArray (int_array [1; 2; 3; 4])] = Some (s, Ok out) ∧ numbers_of out = [6; 7; 8; 9] ∧
    last_schedule s = Some (fx_records x, fx_stats x) ∧ runtime_wf (fx_memory x).
Proof.
  destruct call_ok as (s & out & Hcall & Hn). exists s, out. pose proof Hcall as H. unfold call in H.
  destruct (adapter_call_correct no_node elements still_clock id 2 five_adapter [ArgArray (int_array [1; 2; 3; 4])] fresh s out
    five_program_wf H) as (b & m & torch & x & m' & _ & _ & _ & Hx & _ & Hs & _).
  exists x. split; [exact Hcall|]. split; [exact Hn|]. split; [exact Hs|exact Hx].
Defined.

(** After the call the report is that of its schedule; before it there was none. *)
Lemma adapter_reports_last_schedule_witness :
  (∃ e, performance_report fresh = Some (fresh, Raise e) ∧ exn_cls e = SimulatorConfigError) ∧
  ∃ s out, call [ArgArray (int_array [1; 2; 3; 4])] = Some (s, Ok out) ∧ last_stats s = snd <$> last_schedule s.
Proof.
  split.
  - apply (adapter_reports_last_schedule no_node elements still_clock id five_adapter fresh); [|reflexivity]. exists []. apply rtc_refl.
  - destruct call_ok as (s & out & Hcall & _). exists s, out. split; [exact Hcall|].
    apply (adapter_reports_last_schedule no_node elements still_clock id five_adapter s). exists []. apply rtc_once.
    unfold call in Hcall. exact (step_execute no_node elements still_clock id five_adapter fresh s 2 [ArgArray (int_array [1; 2; 3; 4])] (Ok out) Hcall).
Defined.
