(* ===== verification/BestFit.v ===== *)
(** The buffer allocator of the tile search ([carver/roller/bestfit.py]): a best-fit allocator over
    a growing range, with splitting on allocation and merging of neighbours on release.  The
    theorems show that live blocks never overlap or move, that an allocation takes the smallest
    free block that fits and otherwise grows the range as little as possible, and that a released
    block cannot be released again. *)

From Stdlib Require Import Sorting.Sorted.
From S2P Require Import Prelude PyStr Errors.
Local Open Scope string_scope.
Local Open Scope Z_scope.
Local Open Scope list_scope.

(** ** Blocks *)

Record Block := MkBlock {
  b_start : Z;
  b_end : Z;
  is_free : bool;
}.
Definition size (b : Block) : Z := b_end b - b_start b.
Definition merge (b other : Block) : result Block :=
  _ ← ensure (eqb (is_free b) (is_free other)) AssertionError "self.is_free == other.is_free";
  Ok (MkBlock (Z.min (b_start b) (b_start other)) (Z.max (b_end b) (b_end other)) (is_free b)).

(** ** The allocator *)

(** Blocks are shared, mutable objects: a handle that [malloc] returned is the object in the list.
    An object is its position in [objects]; [blocks] is the list of the allocator. *)
Record BestFit := MkBestFit {
  limit : Z;
  blocks : list nat;
  align : Z;
  objects : list Block;
}.
Definition new_best_fit (align : Z) : BestFit := MkBestFit 0 [] align [].
Definition obj (os : list Block) (i : nat) : Block := default (MkBlock 0 0 false) (os !! i).

Definition rounded (align n : Z) : Z := (n + align - 1) / align * align.

(** One turn of the search: a free block that fits and is smaller than the one found so far. *)
Definition fits (os : list Block) (n : Z) (found : option nat) (i : nat) : option nat :=
  let b := obj os i in
  if is_free b && (n <=? size b) &&
     match found with None => true | Some j => size b <? size (obj os j) end
  then Some i else found.
Definition best (bf : BestFit) (n : Z) : option nat := foldl (fits (objects bf) n) None (blocks bf).

(** [self.list.index(block)] *)
Definition index_of (i : nat) (l : list nat) : option nat := fst <$> list_find (i =.) l.

Definition malloc (n : Z) (bf : BestFit) : result (nat * BestFit) :=
  _ ← ensure (negb (align bf =? 0)) ZeroDivisionError "integer division or modulo by zero";
  let n := rounded (align bf) n in
  let fresh := length (objects bf) in
  match best bf n with
  | Some i =>
      let b := obj (objects bf) i in
      let remain := size b - n in
      let cut := b_end b - remain in
      if remain =? 0 then
        Ok (i, MkBestFit (limit bf) (blocks bf) (align bf)
                 (<[i := MkBlock (b_start b) (b_end b) false]> (objects bf)))
      else
        match index_of i (blocks bf) with
        | None => raise ValueError "x not in list"
        | Some k =>
            Ok (i, MkBestFit (limit bf) (take (S k) (blocks bf) ++ fresh :: drop (S k) (blocks bf)) (align bf)
                     (<[i := MkBlock (b_start b) cut false]> (objects bf) ++ [MkBlock cut (cut + remain) true]))
        end
  | None =>
      let grow :=
        (fresh, MkBestFit (limit bf + n) (blocks bf ++ [fresh]) (align bf)
                  (objects bf ++ [MkBlock (limit bf) (limit bf + n) false])) in
      match last (blocks bf) with
      | Some i =>
          let b := obj (objects bf) i in
          if is_free b then
            let stop := b_end b + (n - size b) in
            Ok (i, MkBestFit stop (blocks bf) (align bf) (<[i := MkBlock (b_start b) stop false]> (objects bf)))
          else Ok grow
      | None => Ok grow
      end
  end.

(** The merges at the end of [free], with the next block and with the previous one. *)
Definition absorb_next (k : nat) (l : list nat) (os : list Block) : result (list nat * list Block) :=
  match l !! k, l !! S k with
  | Some i, Some j =>
      if is_free (obj os j) then m ← merge (obj os i) (obj os j); Ok (delete (S k) l, <[i := m]> os) else Ok (l, os)
  | _, _ => Ok (l, os)
  end.
Definition absorb_previous (k : nat) (l : list nat) (os : list Block) : result (list nat * list Block) :=
  match k with
  | O => Ok (l, os)
  | S p =>
      match l !! k, l !! p with
      | Some i, Some j =>
          if is_free (obj os j) then m ← merge (obj os i) (obj os j); Ok (delete p l, <[i := m]> os) else Ok (l, os)
      | _, _ => Ok (l, os)
      end
  end.

Definition free (i : nat) (bf : BestFit) : result BestFit :=
  let b := obj (objects bf) i in
  _ ← ensure (negb (is_free b)) AssertionError "not block.is_free";
  match index_of i (blocks bf) with
  | None => raise ValueError "block is not in list"
  | Some k =>
      let l := <[k := length (objects bf)]> (blocks bf) in
      let os := objects bf ++ [MkBlock (b_start b) (b_end b) true] in
      '(l, os) ← absorb_next k l os;
      '(l, os) ← absorb_previous k l os;
      Ok (MkBestFit (limit bf) l (align bf) os)
  end.

(** ** Blocks that tile a range *)

Fixpoint chain (s : Z) (l : list Block) (e : Z) : Prop :=
  match l with
  | [] => s = e
  | b :: l => b_start b = s ∧ s <= b_end b ∧ chain (b_end b) l e
  end.
Lemma chain_app s l1 l2 e : chain s (l1 ++ l2) e ↔ ∃ m, chain s l1 m ∧ chain m l2 e.
Proof.
  revert s. induction l1 as [|b l1 IH]; intros s; cbn; [naive_solver|]. rewrite IH. naive_solver.
Qed.
Lemma chain_bound s l e : chain s l e → s <= e ∧ ∀ b, b ∈ l → s <= b_start b ∧ b_start b <= b_end b ∧ b_end b <= e.
Proof.
  revert s. induction l as [|b l IH]; intros s; cbn.
  - intros ->. split; [lia|by intros b ?%elem_of_nil].
  - intros (<- & Hb & Hl). apply IH in Hl as [He Hl]. split; [lia|]. intros c [->|Hc]%elem_of_cons; [lia|].
    specialize (Hl c Hc). lia.
Qed.
Lemma chain_unique s e s' e' l : l ≠ [] → chain s l e → chain s' l e' → s = s' ∧ e = e'.
Proof.
  intros Hl. assert (∀ m, chain m l e → chain m l e' → e = e') as He.
  { clear. induction l as [|b l IH]; [by intros m -> ->|]. intros m (_ & _ & H) (_ & _ & H'). by eapply IH. }
  intros H H'. destruct l as [|b l]; [done|]. pose proof H as (<- & _). pose proof H' as (<- & _). by split; [|eapply He].
Qed.
Lemma chain_ordered s l e : chain s l e → StronglySorted (λ a b, b_end a <= b_start b) l.
Proof.
  revert s. induction l as [|b l IH]; intros s; cbn; [constructor|]. intros (_ & _ & Hl).
  constructor; [by eapply IH|]. apply Forall_forall. intros c Hc. by apply (proj2 (chain_bound _ _ _ Hl)).
Qed.

Definition free_pair (a b : Block) : Prop := is_free a = true ∧ is_free b = true.
(** No two neighbours are free. *)
Fixpoint sparse (l : list Block) : Prop :=
  match l with
  | a :: l => match l with b :: _ => ¬ free_pair a b | [] => True end ∧ sparse l
  | [] => True
  end.
Lemma sparse_app l1 l2 :
  sparse (l1 ++ l2) ↔ sparse l1 ∧ sparse l2 ∧ ∀ a b, last l1 = Some a → head l2 = Some b → ¬ free_pair a b.
Proof.
  induction l1 as [|x l1 IH]; [cbn; naive_solver|]. cbn [app sparse]. rewrite IH.
  destruct l1 as [|y l1]; cbn [app last].
  - destruct l2 as [|z l2]; cbn; naive_solver.
  - destruct (last (y :: l1)); naive_solver.
Qed.

(** ** The invariant *)

Definition view (bf : BestFit) : list Block := obj (objects bf) <$> blocks bf.
Record wf (bf : BestFit) : Prop := {
  wf_align : 0 < align bf;
  wf_nodup : NoDup (blocks bf);
  wf_ids : ∀ i, i ∈ blocks bf → (i < length (objects bf))%nat;
  wf_chain : chain 0 (view bf) (limit bf);
  wf_sparse : sparse (view bf);
  wf_limit : (align bf | limit bf);
  wf_aligned : ∀ b, b ∈ view bf → (align bf | b_start b) ∧ (align bf | b_end b);
}.
(** A block that has been handed out and not returned. *)
Definition in_use (bf : BestFit) (i : nat) : Prop := i ∈ blocks bf ∧ is_free (obj (objects bf) i) = false.
(** The live blocks other than [i] are the same, where they were. *)
Definition keeps_others (i : nat) (bf bf' : BestFit) : Prop :=
  ∀ j, j ≠ i → (in_use bf' j ↔ in_use bf j) ∧ (in_use bf j → obj (objects bf') j = obj (objects bf) j).

(** Objects that left the list never come back, and never change. *)
Definition keeps_dead (bf bf' : BestFit) : Prop :=
  (length (objects bf) <= length (objects bf'))%nat ∧
  ∀ j, (j < length (objects bf))%nat → j ∉ blocks bf → j ∉ blocks bf' ∧ obj (objects bf') j = obj (objects bf) j.

Lemma new_wf a : 0 < a → wf (new_best_fit a).
Proof. intros Ha. split; cbn; try done; [constructor|by intros i ?%elem_of_nil|by apply Z.divide_0_r|by intros b ?%elem_of_nil]. Qed.

Lemma obj_app_l os b i : (i < length os)%nat → obj (os ++ [b]) i = obj os i.
Proof. intros Hi. unfold obj. by rewrite lookup_app_l. Qed.
Lemma obj_app_r os b : obj (os ++ [b]) (length os) = b.
Proof. unfold obj. by rewrite list_lookup_middle. Qed.
Lemma obj_insert_eq os i b : (i < length os)%nat → obj (<[i := b]> os) i = b.
Proof. intros Hi. unfold obj. by rewrite list_lookup_insert_eq. Qed.
Lemma obj_insert_ne os i j b : i ≠ j → obj (<[i := b]> os) j = obj os j.
Proof. intros Hi. unfold obj. by rewrite list_lookup_insert_ne. Qed.
Lemma fmap_obj_ext os os' (l : list nat) : (∀ i, i ∈ l → obj os' i = obj os i) → obj os' <$> l = obj os <$> l.
Proof. intros H. apply list_fmap_ext. intros k i Hk. apply H. by eapply list_elem_of_lookup_2. Qed.

Lemma index_of_split i l : NoDup l → i ∈ l → ∃ pre post, (l = pre ++ i :: post) ∧ index_of i l = Some (length pre) ∧ i ∉ pre ∧ i ∉ post.
Proof.
  intros Hnd (pre & post & ->)%list_elem_of_split. exists pre, post.
  apply NoDup_app in Hnd as (_ & Hn & [Hp _]%NoDup_cons).
  assert (i ∉ pre) as Hi by (intros Hi; apply (Hn i Hi); by left). split; [done|]. split; [|done].
  unfold index_of. rewrite list_find_app_r; [|apply list_find_None, Forall_forall; by intros x Hx ->].
  cbn. rewrite decide_True by done. done.
Qed.
Lemma index_of_None i l : i ∉ l → index_of i l = None.
Proof.
  intros Hi. unfold index_of. replace (list_find (i =.) l) with (@None (nat * nat)); [done|]. symmetry.
  apply list_find_None, Forall_forall. by intros x Hx ->.
Qed.

(** ** The search *)

Lemma best_spec os n l :
  match foldl (fits os n) None l with
  | None => ∀ i, i ∈ l → is_free (obj os i) = true → size (obj os i) < n
  | Some j => j ∈ l ∧ is_free (obj os j) = true ∧ n <= size (obj os j) ∧
      ∀ i, i ∈ l → is_free (obj os i) = true → n <= size (obj os i) → size (obj os j) <= size (obj os i)
  end.
Proof.
  induction l as [|x l IH] using rev_ind; [by intros i ?%elem_of_nil|]. rewrite foldl_snoc.
  destruct (foldl _ _ _) as [j|]; unfold fits.
  - destruct IH as (Hj & Hf & Hn & Hmin). destruct (_ && _) eqn:E.
    + rewrite !andb_true_iff, Z.leb_le, Z.ltb_lt in E. destruct E as [[Hx Hs] Hlt].
      split; [set_solver|]. split; [done|]. split; [done|].
      intros i [Hi| ->%list_elem_of_singleton]%elem_of_app Hif Hin; [|lia]. specialize (Hmin i Hi Hif Hin). lia.
    + split; [set_solver|]. split; [done|]. split; [done|].
      intros i [Hi| ->%list_elem_of_singleton]%elem_of_app Hif Hin; [by apply Hmin|].
      rewrite Hif, (proj2 (Z.leb_le _ _)) in E by done. cbn in E. lia.
  - destruct (_ && _) eqn:E.
    + rewrite !andb_true_iff, Z.leb_le in E. destruct E as [[Hx Hs] _].
      split; [set_solver|]. split; [done|]. split; [done|].
      intros i [Hi| ->%list_elem_of_singleton]%elem_of_app Hif Hin; [|lia]. specialize (IH i Hi Hif). lia.
    + intros i [Hi| ->%list_elem_of_singleton]%elem_of_app Hif; [by apply IH|].
      rewrite Hif in E. cbn in E. lia.
Qed.

Lemma rounded_spec a n : 0 < a → (a | rounded a n) ∧ n <= rounded a n < n + a.
Proof.
  intros Ha. unfold rounded. split; [by exists ((n + a - 1) / a)|].
  pose proof (Z.div_mod (n + a - 1) a). pose proof (Z.mod_pos_bound (n + a - 1) a). nia.
Qed.

(** ** Allocation *)

(** Replacing blocks in the middle of the list by blocks that tile the same range. *)
Section replace.
Context (bf : BestFit) (pre mid post ids : list nat) (os : list Block).
Context (Hwf : wf bf) (Hsplit : blocks bf = pre ++ mid ++ post).
Context (Hsame : ∀ j, j ∈ pre ∨ j ∈ post → obj os j = obj (objects bf) j).
Context (Hids : ∀ j, j ∈ ids → j ∈ mid ∨ (length (objects bf) <= j)%nat).

Lemma view_split :
  view bf = (obj (objects bf) <$> pre) ++ (obj (objects bf) <$> mid) ++ (obj (objects bf) <$> post).
Proof. unfold view. by rewrite Hsplit, !fmap_app. Qed.
Lemma replaced_view a l :
  view (MkBestFit l (pre ++ ids ++ post) a os) =
  (obj (objects bf) <$> pre) ++ (obj os <$> ids) ++ (obj (objects bf) <$> post).
Proof.
  unfold view. cbn. rewrite !fmap_app. f_equal; [|f_equal]; apply fmap_obj_ext; intros j Hj; apply Hsame; tauto.
Qed.
Lemma replaced_wf :
  NoDup ids → (∀ j, j ∈ ids → (j < length os)%nat) → (length (objects bf) <= length os)%nat →
  (∀ s e, chain s (obj (objects bf) <$> mid) e → chain s (obj os <$> ids) e) →
  sparse ((obj (objects bf) <$> pre) ++ (obj os <$> ids) ++ (obj (objects bf) <$> post)) →
  (∀ b, b ∈ obj os <$> ids → (align bf | b_start b) ∧ (align bf | b_end b)) →
  wf (MkBestFit (limit bf) (pre ++ ids ++ post) (align bf) os).
Proof.
  intros Hnd Hlt Hlen Hchain Hsp Hal. destruct Hwf as [H1 H2 H3 H4 _ H6 H7].
  rewrite view_split in H4, H7. rewrite Hsplit in H2, H3. split; rewrite ?replaced_view; cbn; try done.
  - apply NoDup_app in H2 as (Hpre & Hd1 & (_ & Hd2 & Hpost)%NoDup_app).
    apply NoDup_app. split; [done|]. split.
    + intros j Hj [Hj'|Hj']%elem_of_app; [|by apply (Hd1 j Hj), elem_of_app; right].
      destruct (Hids j Hj') as [Hm|Hge]; [by apply (Hd1 j Hj), elem_of_app; left|].
      assert (j < length (objects bf))%nat by (apply H3; set_solver). lia.
    + apply NoDup_app. split; [done|]. split; [|done]. intros j Hj Hj'.
      destruct (Hids j Hj) as [Hm|Hge]; [by apply (Hd2 j)|].
      assert (j < length (objects bf))%nat by (apply H3; set_solver). lia.
  - intros j Hj. rewrite !elem_of_app in Hj. destruct Hj as [Hj|[Hj|Hj]]; [|by apply Hlt|];
      (apply (Nat.lt_le_trans _ (length (objects bf))); [apply H3; set_solver|done]).
  - apply chain_app in H4 as (m & Hp & (m' & Hm & Hq)%chain_app). apply chain_app. exists m. split; [done|].
    apply chain_app. exists m'. split; [by apply Hchain|done].
  - intros b Hb. rewrite !elem_of_app in Hb. destruct Hb as [Hb|[Hb|Hb]]; [|by apply Hal|]; apply H7; set_solver.
Qed.
Lemma replaced_keeps i a l :
  (∀ j, j ∈ mid → j ≠ i → is_free (obj (objects bf) j) = true) →
  (∀ j, j ∈ ids → j ≠ i → is_free (obj os j) = true) →
  keeps_others i bf (MkBestFit l (pre ++ ids ++ post) a os).
Proof.
  intros Hm Hi j Hj. unfold in_use. cbn. rewrite Hsplit, !elem_of_app.
  assert (j ∈ pre ∨ j ∈ post → obj os j = obj (objects bf) j) as Hs by apply Hsame. split.
  - split; intros [[H|[H|H]] Hf].
    + rewrite <- Hs by tauto. tauto.
    + rewrite Hi in Hf by done. done.
    + rewrite <- Hs by tauto. tauto.
    + rewrite Hs by tauto. tauto.
    + rewrite Hm in Hf by done. done.
    + rewrite Hs by tauto. tauto.
  - intros [[H|[H|H]] Hf]; [by apply Hs; left| |by apply Hs; right]. rewrite Hm in Hf by done. done.
Qed.
End replace.

(** The parts of the list around a block. *)
Lemma wf_around bf i :
  wf bf → i ∈ blocks bf →
  ∃ pre post, blocks bf = pre ++ [i] ++ post ∧ index_of i (blocks bf) = Some (length pre) ∧
    (i < length (objects bf))%nat ∧ (∀ j, j ∈ pre ∨ j ∈ post → j ≠ i ∧ (j < length (objects bf))%nat).
Proof.
  intros Hwf Hi. destruct (index_of_split i (blocks bf) (wf_nodup _ Hwf) Hi) as (pre & post & E & Hix & Hp & Hq).
  exists pre, post. split; [done|]. split; [done|]. split; [by apply Hwf|]. intros j Hj. split; [naive_solver|].
  apply Hwf. rewrite E. set_solver.
Qed.
Lemma sparse_used pre l post :
  (∀ b, b ∈ l → is_free b = false) → l ≠ [] → sparse pre → sparse post → sparse (pre ++ l ++ post).
Proof.
  intros Hl Hne Hpre Hpost. apply sparse_app. split; [done|]. split.
  - apply sparse_app. split; [|split; [done|]].
    + clear Hne. induction l as [|a l IH]; [done|]. cbn. split; [|apply IH; set_solver]. destruct l as [|b l]; [done|].
      intros [? _]. specialize (Hl a). rewrite Hl in * by set_solver. done.
    + intros a b Ha _ [Hfa _]. rewrite Hl in Hfa; [done|]. apply last_Some_elem_of, Ha.
  - intros a b _ Hb [_ Hfb]. destruct l as [|c l]; [done|]. injection Hb as <-. rewrite Hl in Hfb; [done|by left].
Qed.

(** ** Allocation *)

(** What [malloc] promises: a used, aligned block that was not live, at least as large as asked and
    by less than the alignment larger; nothing else moves. *)
Record allocated (n : Z) (bf : BestFit) (i : nat) (bf' : BestFit) : Prop := {
  al_wf : wf bf';
  al_live : in_use bf' i;
  al_new : ¬ in_use bf i;
  al_size : n <= size (obj (objects bf') i) < n + align bf;
  al_others : keeps_others i bf bf';
  al_dead : keeps_dead bf bf';
  al_align : align bf' = align bf;
}.

Lemma fmap_singleton_view os (i : nat) : obj os <$> [i] = [obj os i].
Proof. done. Qed.

Lemma found_whole n bf i :
  wf bf → i ∈ blocks bf → is_free (obj (objects bf) i) = true → 0 <= n → size (obj (objects bf) i) = rounded (align bf) n →
  let b := obj (objects bf) i in
  allocated n bf i (MkBestFit (limit bf) (blocks bf) (align bf) (<[i := MkBlock (b_start b) (b_end b) false]> (objects bf))).
Proof.
  intros Hwf Hi Hf Hn Hsize b. destruct (wf_around bf i Hwf Hi) as (pre & post & E & _ & Hid & Hne).
  set (os := <[i := _]> _). assert (obj os i = MkBlock (b_start b) (b_end b) false) as Hoi by by apply obj_insert_eq.
  assert (∀ j, j ∈ pre ∨ j ∈ post → obj os j = obj (objects bf) j) as Hsame
    by (intros j Hj; apply obj_insert_ne; intros ->; by destruct (Hne j Hj)).
  assert (∀ j, j ∈ [i] → j ∈ [i] ∨ (length (objects bf) <= j)%nat) as Hids by tauto.
  pose proof (view_split bf pre [i] post E) as Hv. pose proof (rounded_spec (align bf) n (wf_align _ Hwf)) as [_ Hr].
  rewrite E. split; cbn; try done.
  - apply (replaced_wf bf pre [i] post [i] os); try done.
    + apply NoDup_singleton.
    + intros j ->%list_elem_of_singleton. unfold os. by rewrite length_insert.
    + unfold os. by rewrite length_insert.
    + rewrite !fmap_singleton_view, Hoi. intros s e. cbn. tauto.
    + pose proof (wf_sparse _ Hwf) as Hs. rewrite Hv in Hs. apply sparse_app in Hs as (? & (_ & ? & _)%sparse_app & _).
      apply sparse_used; try done. rewrite fmap_singleton_view, Hoi. by intros c ->%list_elem_of_singleton.
    + rewrite fmap_singleton_view, Hoi. intros c ->%list_elem_of_singleton. cbn. apply (wf_aligned _ Hwf b).
      apply list_elem_of_fmap. by exists i.
  - split; [cbn; set_solver|]. cbn. by rewrite Hoi.
  - intros [_ ?]. congruence.
  - rewrite Hoi. unfold size in *. cbn. fold b in Hsize. lia.
  - apply (replaced_keeps bf pre [i] post [i] os E Hsame i); intros j ->%list_elem_of_singleton; done.
  - split; cbn; [unfold os; by rewrite length_insert|]. intros j _ Hj. rewrite E in Hj. split; [done|].
    apply obj_insert_ne. intros ->. apply Hj. set_solver.
Qed.

Lemma found_split n bf i k :
  wf bf → i ∈ blocks bf → is_free (obj (objects bf) i) = true → 0 <= n → rounded (align bf) n < size (obj (objects bf) i) →
  index_of i (blocks bf) = Some k →
  let b := obj (objects bf) i in
  let cut := b_end b - (size b - rounded (align bf) n) in
  allocated n bf i
    (MkBestFit (limit bf) (take (S k) (blocks bf) ++ length (objects bf) :: drop (S k) (blocks bf)) (align bf)
       (<[i := MkBlock (b_start b) cut false]> (objects bf) ++ [MkBlock cut (cut + (size b - rounded (align bf) n)) true])).
Proof.
  intros Hwf Hi Hf Hn Hsize Hk b cut. destruct (wf_around bf i Hwf Hi) as (pre & post & E & Hix & Hid & Hne).
  rewrite Hix in Hk. injection Hk as <-. pose proof (view_split bf pre [i] post E) as Hv.
  destruct (rounded_spec (align bf) n (wf_align _ Hwf)) as [Hdiv Hr].
  assert (take (S (length pre)) (blocks bf) ++ length (objects bf) :: drop (S (length pre)) (blocks bf) =
    pre ++ [i; length (objects bf)] ++ post) as ->.
  { rewrite E, app_assoc. rewrite take_app_length', drop_app_length' by (rewrite length_app; cbn; lia). by rewrite <- app_assoc. }
  set (os := <[i := _]> _ ++ _). set (fresh := length (objects bf)).
  assert (∀ j, j ≠ i → (j < fresh)%nat → obj os j = obj (objects bf) j) as Hold.
  { intros j Hj Hlt. unfold os. rewrite obj_app_l by by rewrite length_insert. by apply obj_insert_ne. }
  assert (obj os i = MkBlock (b_start b) cut false) as Hoi
    by (unfold os; rewrite obj_app_l by (by rewrite length_insert); by apply obj_insert_eq).
  assert (obj os fresh = MkBlock cut (b_end b) true) as Hof.
  { unfold os, fresh. rewrite <- (length_insert (objects bf) i (MkBlock (b_start b) cut false)), obj_app_r. f_equal. lia. }
  assert (∀ j, j ∈ pre ∨ j ∈ post → obj os j = obj (objects bf) j) as Hsame by (intros j Hj; apply Hold; by apply Hne).
  assert (∀ j, j ∈ [i; fresh] → j ∈ [i] ∨ (length (objects bf) <= j)%nat) as Hids
    by (intros j [->|[->|[]%elem_of_nil]%elem_of_cons]%elem_of_cons; [left; by left|by right]).
  assert (b ∈ view bf) as Hb by (apply list_elem_of_fmap; by exists i).
  assert (obj os <$> [i; fresh] = [MkBlock (b_start b) cut false; MkBlock cut (b_end b) true]) as Hmid by (cbn; by rewrite Hoi, Hof).
  split; cbn; try done.
  - apply (replaced_wf bf pre [i] post [i; fresh] os); try done; rewrite ?Hmid.
    + apply NoDup_cons. split; [|apply NoDup_singleton]. intros ->%list_elem_of_singleton. unfold fresh in Hid. lia.
    + unfold os. rewrite length_app, length_insert. cbn. intros j [->|[->|[]%elem_of_nil]%elem_of_cons]%elem_of_cons; unfold fresh; lia.
    + unfold os. rewrite length_app, length_insert. lia.
    + rewrite fmap_singleton_view. intros s e. cbn. fold b. unfold cut, size in *. fold b in Hsize. intros (? & ? & ?). split; [done|]. lia.
    + pose proof (wf_sparse _ Hwf) as Hs. rewrite Hv in Hs. apply sparse_app in Hs as (Hs1 & (_ & Hs2 & Hpost)%sparse_app & Hpre).
      apply (sparse_used _ [_] (MkBlock cut (b_end b) true :: _)); try done; [by intros c ->%list_elem_of_singleton|].
      cbn. split; [|done]. destruct (obj (objects bf) <$> post) as [|c l]; [done|]. intros [_ Hc]. by apply (Hpost b c).
    + destruct (wf_aligned _ Hwf b Hb) as [Hs He].
      assert ((align bf | cut)) as Hcut. { replace cut with (b_start b + rounded (align bf) n) by (unfold cut, size; lia). by apply Z.divide_add_r. }
      intros c [->|[->|[]%elem_of_nil]%elem_of_cons]%elem_of_cons; done.
  - split; [cbn; set_solver|]. cbn. by rewrite Hoi.
  - intros [_ ?]. congruence.
  - rewrite Hoi. unfold size, cut in *. cbn. unfold size. lia.
  - apply (replaced_keeps bf pre [i] post [i; fresh] os E Hsame i).
    + by intros j ->%list_elem_of_singleton.
    + intros j [->|Hj%list_elem_of_singleton]%elem_of_cons Hji; [done|]. subst j. by rewrite Hof.
  - split; cbn; [unfold os; rewrite length_app, length_insert; lia|]. rewrite E. intros j Hlt Hj. split.
    + rewrite elem_of_app, !elem_of_cons. intros [H|[->|[->|H]]]; [apply Hj; set_solver..|unfold fresh in Hlt; lia|apply Hj; set_solver].
    + apply Hold; [intros ->; apply Hj; set_solver|done].
Qed.

(** Growing at the end: the last block, when it is free and too small, or a new one. *)
Lemma grown_last n bf pre i :
  wf bf → blocks bf = pre ++ [i] → is_free (obj (objects bf) i) = true → 0 <= n →
  size (obj (objects bf) i) < rounded (align bf) n →
  let b := obj (objects bf) i in
  let stop := b_end b + (rounded (align bf) n - size b) in
  allocated n bf i (MkBestFit stop (blocks bf) (align bf) (<[i := MkBlock (b_start b) stop false]> (objects bf))).
Proof.
  intros Hwf E Hf Hn Hsize b stop. destruct (rounded_spec (align bf) n (wf_align _ Hwf)) as [Hdiv Hr].
  assert (i ∈ blocks bf) as Hi by (rewrite E; set_solver). pose proof (wf_ids _ Hwf i Hi) as Hid.
  pose proof (wf_nodup _ Hwf) as Hnd. pose proof (wf_chain _ Hwf) as Hch. pose proof (wf_sparse _ Hwf) as Hsp.
  set (os := <[i := _]> _). assert (obj os i = MkBlock (b_start b) stop false) as Hoi by by apply obj_insert_eq.
  assert (∀ j, j ≠ i → obj os j = obj (objects bf) j) as Hold by (intros; by apply obj_insert_ne).
  assert (i ∉ pre) as Hip.
  { rewrite E in Hnd. apply NoDup_app in Hnd as (_ & Hn' & _). intros Hp. apply (Hn' i Hp). by left. }
  assert (view bf = (obj (objects bf) <$> pre) ++ [b]) as Hv by (unfold view; by rewrite E, fmap_app).
  assert (view (MkBestFit stop (blocks bf) (align bf) os) = (obj (objects bf) <$> pre) ++ [MkBlock (b_start b) stop false]) as Hv'.
  { unfold view. cbn. rewrite E, fmap_app. cbn. rewrite Hoi. f_equal. apply fmap_obj_ext. intros j Hj. apply Hold. by intros ->. }
  rewrite Hv in Hch, Hsp. destruct (wf_aligned _ Hwf b) as [Hs He]; [rewrite Hv; set_solver|].
  apply chain_app in Hch as (m & Hpre & <- & Hle & Hend). cbn in Hend.
  assert (stop = b_start b + rounded (align bf) n) as Hstop by (unfold stop, size; lia).
  assert ((align bf | stop)) as Hds by (rewrite Hstop; by apply Z.divide_add_r).
  split; cbn; try done.
  - split; rewrite ?Hv'; cbn; try apply Hwf; try done.
    + intros j Hj. unfold os. rewrite length_insert. by apply Hwf.
    + apply chain_app. exists (b_start b). split; [done|]. cbn. split; [done|]. split; [lia|done].
    + apply sparse_app in Hsp as (Hsp & _). by apply (sparse_used _ [_] []); [intros c ->%list_elem_of_singleton|..].
    + intros c [Hc| ->%list_elem_of_singleton]%elem_of_app; [|done]. apply (wf_aligned _ Hwf). rewrite Hv. set_solver.
  - split; [done|]. cbn. by rewrite Hoi.
  - intros [_ ?]. congruence.
  - rewrite Hoi. unfold size in *. cbn. lia.
  - intros j Hj. unfold in_use. cbn. by rewrite !Hold.
  - split; cbn; [unfold os; by rewrite length_insert|]. intros j _ Hj. split; [done|]. apply Hold. by intros ->.
Qed.
Lemma grown_new n bf :
  wf bf → 0 <= n →
  let r := rounded (align bf) n in
  allocated n bf (length (objects bf))
    (MkBestFit (limit bf + r) (blocks bf ++ [length (objects bf)]) (align bf)
       (objects bf ++ [MkBlock (limit bf) (limit bf + r) false])).
Proof.
  intros Hwf Hn r. destruct (rounded_spec (align bf) n (wf_align _ Hwf)) as [Hdiv Hr]. fold r in Hdiv, Hr.
  set (os := objects bf ++ [_]). pose proof (obj_app_r (objects bf) (MkBlock (limit bf) (limit bf + r) false)) as Hof. fold os in Hof.
  assert (∀ j, j ∈ blocks bf → obj os j = obj (objects bf) j) as Hold by (intros j Hj; by apply obj_app_l, Hwf).
  assert (view (MkBestFit (limit bf + r) (blocks bf ++ [length (objects bf)]) (align bf) os) =
    view bf ++ [MkBlock (limit bf) (limit bf + r) false]) as Hv.
  { unfold view. cbn. rewrite fmap_app. cbn. rewrite Hof. f_equal. by apply fmap_obj_ext. }
  assert (length (objects bf) ∉ blocks bf) as Hfresh by (intros Hj%(wf_ids _ Hwf); lia).
  split; cbn; try done.
  - split; rewrite ?Hv; cbn; try apply Hwf; try done.
    + apply NoDup_app. split; [apply Hwf|]. split; [|apply NoDup_singleton]. by intros j Hj ->%list_elem_of_singleton.
    + unfold os. rewrite length_app. cbn. intros j [Hj%(wf_ids _ Hwf)| ->%list_elem_of_singleton]%elem_of_app; lia.
    + apply chain_app. exists (limit bf). split; [apply Hwf|]. cbn. split; [done|]. split; [lia|done].
    + apply (sparse_used _ [_] []); [by intros c ->%list_elem_of_singleton|done|apply Hwf|done].
    + apply Z.divide_add_r; [apply Hwf|done].
    + intros c [Hc| ->%list_elem_of_singleton]%elem_of_app; [by apply (wf_aligned _ Hwf)|]. cbn.
      split; [apply Hwf|]. apply Z.divide_add_r; [apply Hwf|done].
  - split; [cbn; set_solver|]. cbn. by rewrite Hof.
  - intros [? _]. done.
  - rewrite Hof. unfold size. cbn. lia.
  - intros j Hj. unfold in_use. cbn. rewrite elem_of_app, list_elem_of_singleton. split.
    + split; intros [H Hf]; [destruct H as [H|H]; [|done]|]; rewrite ?Hold in * by done; tauto.
    + intros [H _]. by apply Hold.
  - split; cbn; [unfold os; rewrite length_app; lia|]. intros j Hlt Hj. split; [|by apply obj_app_l].
    intros [H| ->%list_elem_of_singleton]%elem_of_app; [done|lia].
Qed.

(** ** Release *)

Definition used_end (o : option Block) : Prop := ∀ b, o = Some b → is_free b = false.

(** A free neighbour is not followed by another one. *)
Lemma neighbours_used (l : list Block) a :
  is_free a = true → (sparse (l ++ [a]) → used_end (last l)) ∧ (sparse (a :: l) → used_end (head l)).
Proof.
  intros Ha. split.
  - intros (_ & _ & Hp)%sparse_app b Hb. destruct (is_free b) eqn:E; [|done]. exfalso. by eapply (Hp b a).
  - intros [Hp _] b Hb. destruct l as [|c l]; [done|]. injection Hb as ->. destruct (is_free b) eqn:E; [|done].
    exfalso. by apply Hp.
Qed.

(** The merges of [free]: the new block takes in the free blocks beside it. *)
Section absorb.
Context (pre post : list nat) (i : nat) (os : list Block) (s e : Z).
Context (Hi : (i < length os)%nat) (Hobj : obj os i = MkBlock s e true) (Hse : s <= e).

Lemma absorb_next_spec stop :
  i ∉ post → chain e (obj os <$> post) stop → sparse (obj os <$> post) →
  ∃ right post' os' e', post = right ++ post' ∧ absorb_next (length pre) (pre ++ i :: post) os = Ok (pre ++ i :: post', os') ∧
    (∀ j, j ∈ right → is_free (obj os j) = true) ∧ used_end (head (obj os <$> post')) ∧
    length os' = length os ∧ obj os' i = MkBlock s e' true ∧ (∀ j, j ≠ i → obj os' j = obj os j) ∧
    chain e (obj os <$> right) e'.
Proof.
  intros Hn Hch Hsp. unfold absorb_next. rewrite list_lookup_middle by done.
  replace (S (length pre)) with (length (pre ++ [i])) by (rewrite length_app; cbn; lia).
  replace (pre ++ i :: post) with ((pre ++ [i]) ++ post) by by rewrite <- app_assoc.
  rewrite lookup_app_r, Nat.sub_diag by done.
  destruct post as [|j post']; [exists [], [], os, e; repeat split; try done; [by rewrite app_nil_r|by intros ? ?%elem_of_nil]|].
  cbn [lookup list_lookup]. destruct (is_free (obj os j)) eqn:Ej.
  - destruct Hch as (Hj & Hle & _). unfold merge, ensure. rewrite Hobj, Ej. cbn. ok_bind. rewrite delete_middle, <- app_assoc.
    eexists [j], post', _, (b_end (obj os j)). split; [done|]. split; [reflexivity|].
    split; [by intros k ->%list_elem_of_singleton|]. split; [by apply (proj2 (neighbours_used _ _ Ej))|].
    split; [by rewrite length_insert|]. split; [rewrite obj_insert_eq by done; f_equal; lia|].
    split; [intros k Hk; by apply obj_insert_ne|]. cbn. done.
  - exists [], (j :: post'), os, e. repeat split; try done; [by rewrite <- app_assoc|by intros ? ?%elem_of_nil|by intros c [= <-]].
Qed.
Lemma absorb_previous_spec start :
  i ∉ pre → chain start (obj os <$> pre) s → sparse (obj os <$> pre) →
  ∃ left pre' os' s', pre = pre' ++ left ∧ absorb_previous (length pre) (pre ++ i :: post) os = Ok (pre' ++ i :: post, os') ∧
    (∀ j, j ∈ left → is_free (obj os j) = true) ∧ used_end (last (obj os <$> pre')) ∧
    length os' = length os ∧ obj os' i = MkBlock s' e true ∧ (∀ j, j ≠ i → obj os' j = obj os j) ∧
    chain s' (obj os <$> left) s.
Proof.
  intros Hn Hch Hsp. destruct pre as [|j pre' _] using rev_ind;
    [exists [], [], os, s; repeat split; try done; by intros ? ?%elem_of_nil|].
  rewrite length_app. cbn [length]. rewrite Nat.add_1_r. cbn [absorb_previous].
  replace (S (length pre')) with (length (pre' ++ [j])) by (rewrite length_app; cbn; lia).
  rewrite list_lookup_middle by done. rewrite <- app_assoc. cbn [app]. rewrite list_lookup_middle by done.
  rewrite fmap_app in Hch, Hsp. destruct (is_free (obj os j)) eqn:Ej.
  - apply chain_app in Hch as (m & _ & (Hj & Hle & He)). cbn in He. unfold merge, ensure. rewrite Hobj, Ej. cbn. ok_bind. rewrite delete_middle.
    eexists [j], pre', _, (b_start (obj os j)). split; [done|]. split; [reflexivity|].
    split; [by intros k ->%list_elem_of_singleton|]. split; [by apply (proj1 (neighbours_used _ _ Ej))|].
    split; [by rewrite length_insert|]. split; [rewrite obj_insert_eq by done; f_equal; lia|].
    split; [intros k Hk; by apply obj_insert_ne|]. cbn. split; [done|]. split; [lia|done].
  - exists [], (pre' ++ [j]), os, s. repeat split; try done; [by rewrite app_nil_r|by rewrite <- app_assoc|by intros ? ?%elem_of_nil|].
    rewrite fmap_app, last_app. by intros c [= <-].
Qed.
End absorb.

(** What [free] promises. *)
Record released (bf : BestFit) (i : nat) (bf' : BestFit) : Prop := {
  re_wf : wf bf';
  re_dead : i ∉ blocks bf' ∧ obj (objects bf') i = obj (objects bf) i;
  re_others : keeps_others i bf bf';
  re_old : keeps_dead bf bf';
  re_limit : limit bf' = limit bf;
  re_align : align bf' = align bf;
}.

Lemma freed_range bf pre mid post i os b :
  wf bf → blocks bf = pre ++ mid ++ post → i ∈ mid →
  (∀ j, j ∈ mid → j ≠ i → is_free (obj (objects bf) j) = true) →
  used_end (last (obj (objects bf) <$> pre)) → used_end (head (obj (objects bf) <$> post)) →
  (length (objects bf) < length os)%nat → obj os (length (objects bf)) = b → is_free b = true →
  (∀ j, (j < length (objects bf))%nat → obj os j = obj (objects bf) j) →
  chain (b_start b) (obj (objects bf) <$> mid) (b_end b) →
  released bf i (MkBestFit (limit bf) (pre ++ [length (objects bf)] ++ post) (align bf) os).
Proof.
  intros Hwf E Hi Hmid Hl Hr Hlen Hb Hfree Hold Hrange. set (fresh := length (objects bf)) in *.
  assert (∀ j, j ∈ pre ∨ j ∈ mid ∨ j ∈ post → (j < fresh)%nat) as Hids
    by (intros j Hj; apply (wf_ids _ Hwf); rewrite E; set_solver).
  assert (∀ j, j ∈ pre ∨ j ∈ post → obj os j = obj (objects bf) j) as Hsame by (intros j Hj; apply Hold, Hids; tauto).
  assert (∀ j, j ∈ [fresh] → j ∈ mid ∨ (length (objects bf) <= j)%nat) as Hnew by (intros j ->%list_elem_of_singleton; by right).
  pose proof (view_split bf pre mid post E) as Hv.
  pose proof (wf_sparse _ Hwf) as Hsp. pose proof (wf_aligned _ Hwf) as Hal. rewrite Hv in Hsp, Hal.
  apply sparse_app in Hsp as (Hs1 & (_ & Hs2 & _)%sparse_app & _).
  assert (obj (objects bf) <$> mid ≠ []) as Hne by (intros Hm%fmap_nil_inv; subst mid; by apply elem_of_nil in Hi).
  split; cbn; try done.
  - apply (replaced_wf bf pre mid post [fresh] os); try done; rewrite ?fmap_singleton_view, ?Hb.
    + apply NoDup_singleton.
    + by intros j ->%list_elem_of_singleton.
    + unfold fresh in Hlen. lia.
    + intros s e Hc. destruct (chain_unique _ _ _ _ _ Hne Hc Hrange) as [-> ->]. apply chain_bound in Hc as [? _]. by cbn.
    + apply sparse_app. split; [done|]. split.
      * apply (sparse_app [b]). split; [by cbn|]. split; [done|]. intros a c [= <-] Hc [_ Hf]. rewrite (Hr c Hc) in Hf. done.
      * intros a c Ha _ [Hf _]. rewrite (Hl a Ha) in Hf. done.
    + intros c ->%list_elem_of_singleton. split.
      * destruct mid as [|j mid']; [done|]. destruct Hrange as (<- & _). apply Hal. set_solver.
      * destruct mid as [|j mid' _] using rev_ind; [done|]. rewrite fmap_app in Hrange.
        apply chain_app in Hrange as (m & _ & (_ & _ & <-)). apply Hal. rewrite fmap_app. set_solver.
  - split; [|apply Hold, Hids; tauto]. pose proof (wf_nodup _ Hwf) as Hnd. rewrite E in Hnd.
    apply NoDup_app in Hnd as (_ & Hd1 & (_ & Hd2 & _)%NoDup_app). pose proof (Hids i ltac:(tauto)).
    rewrite elem_of_app, elem_of_cons. intros [H'|[->|H']]; [by apply (Hd1 i H'), elem_of_app; left|lia|by apply (Hd2 i)].
  - apply (replaced_keeps bf pre mid post [fresh] os E Hsame i); [done|].
    intros j Hj Hji. apply list_elem_of_singleton in Hj. subst j. by rewrite Hb.
  - split; cbn; [unfold fresh in Hlen; lia|]. intros j Hlt Hj. split; [|by apply Hold].
    rewrite E in Hj. rewrite elem_of_app, elem_of_cons. intros [H'|[->|H']]; [apply Hj; set_solver|unfold fresh in Hlt; lia|apply Hj; set_solver].
Qed.

Lemma free_spec bf i : wf bf → in_use bf i → ∃ bf', free i bf = Ok bf' ∧ released bf i bf'.
Proof.
  intros Hwf [Hi Hused]. destruct (wf_around bf i Hwf Hi) as (pre & post & E & Hix & Hid & Hne).
  unfold free, ensure. rewrite Hused, Hix. cbn [negb require]. ok_bind. rewrite E. cbn [app].
  rewrite insert_app_r_alt, Nat.sub_diag by done. cbn [insert list_insert].
  set (os := objects bf ++ [_]). set (fresh := length (objects bf)) in *. set (b := obj (objects bf) i) in *.
  assert (obj os fresh = MkBlock (b_start b) (b_end b) true) as Hof by apply obj_app_r.
  assert (length os = S fresh) as Hlen by (unfold os; rewrite length_app; cbn; unfold fresh; lia).
  assert (∀ j, (j < fresh)%nat → obj os j = obj (objects bf) j) as Hold by (intros; by apply obj_app_l).
  assert (∀ l, (∀ j, j ∈ l → (j < fresh)%nat) → obj os <$> l = obj (objects bf) <$> l) as Hmap
    by (intros l Hl; apply fmap_obj_ext; intros j Hj; by apply Hold, Hl).
  assert (∀ j, j ∈ pre → (j < fresh)%nat) as Hpre by (intros j Hj; apply Hne; tauto).
  assert (∀ j, j ∈ post → (j < fresh)%nat) as Hpost by (intros j Hj; apply Hne; tauto).
  pose proof (wf_sparse _ Hwf) as Hsp. pose proof (wf_chain _ Hwf) as Hch. rewrite (view_split bf pre [i] post E) in Hsp, Hch.
  apply sparse_app in Hsp as (Hsp1 & (_ & Hsp2 & _)%sparse_app & _). apply chain_app in Hch as (m & Hc1 & (<- & Hle & Hc2)). fold b in Hc1, Hle, Hc2.
  destruct (absorb_next_spec pre post fresh os (b_start b) (b_end b) ltac:(lia) Hof Hle (limit bf))
    as (right & post' & os1 & e & Epost & -> & Hright & Hhead & Hlen1 & Hof1 & Hsame1 & Hce);
    [intros H%Hpost; lia|by rewrite Hmap..|]. ok_bind.
  assert (∀ j, (j < fresh)%nat → obj os1 j = obj (objects bf) j) as Hold1 by (intros j Hj; rewrite Hsame1 by lia; by apply Hold).
  assert (obj os1 <$> pre = obj (objects bf) <$> pre) as Hmap1 by (apply fmap_obj_ext; intros j Hj; by apply Hold1, Hpre).
  assert (∀ j, j ∈ right ++ post' → (j < fresh)%nat) as Hrp by by rewrite <- Epost.
  rewrite Hmap in Hce by (intros; apply Hrp; set_solver). pose proof (chain_bound _ _ _ Hce) as [Hbe _].
  destruct (absorb_previous_spec pre post' fresh os1 (b_start b) e ltac:(lia) Hof1 ltac:(lia) 0)
    as (left & pre' & os2 & s & Epre & -> & Hleft & Hlast & Hlen2 & Hof2 & Hsame2 & Hcs);
    [intros H%Hpre; lia|by rewrite Hmap1..|]. ok_bind. eexists. split; [done|].
  assert (∀ j, j ∈ pre' ++ left → (j < fresh)%nat) as Hpl by by rewrite <- Epre.
  apply (freed_range bf pre' (left ++ i :: right) post' i os2 (MkBlock s e true)); try done.
  - rewrite E, Epre, Epost. by rewrite <- !app_assoc.
  - set_solver.
  - intros j Hj Hji. rewrite elem_of_app, elem_of_cons in Hj. destruct Hj as [Hj|[->|Hj]]; [|done|].
    + rewrite <- Hold1 by (apply Hpl; set_solver). by apply Hleft.
    + rewrite <- Hold by (apply Hrp; set_solver). by apply Hright.
  - intros c Hc. apply Hlast. rewrite <- Hc. f_equal. apply fmap_obj_ext. intros j Hj. apply Hold1, Hpl. set_solver.
  - intros c Hc. apply Hhead. rewrite <- Hc. f_equal. apply fmap_obj_ext. intros j Hj. apply Hold, Hrp. set_solver.
  - lia.
  - intros j Hj. rewrite Hsame2 by lia. by apply Hold1.
  - rewrite fmap_app. apply chain_app. exists (b_start b). split.
    + replace (obj (objects bf) <$> left) with (obj os1 <$> left); [done|]. apply fmap_obj_ext. intros j Hj. apply Hold1, Hpl. set_solver.
    + cbn. done.
Qed.

Lemma sorted_lookup {A} (R : A → A → Prop) l p q x y :
  StronglySorted R l → (p < q)%nat → l !! p = Some x → l !! q = Some y → R x y.
Proof.
  intros Hs. revert p q. induction Hs as [|a l Hs IH Hf]; intros p q Hpq Hp Hq; [done|].
  destruct p as [|p], q as [|q]; try lia; cbn in *.
  - injection Hp as ->. rewrite Forall_forall in Hf. apply Hf. by eapply list_elem_of_lookup_2.
  - apply (IH p q); [lia|done|done].
Qed.

(** A free block that fits. *)
Definition fitting (bf : BestFit) (n : Z) (i : nat) : Prop :=
  i ∈ blocks bf ∧ is_free (obj (objects bf) i) = true ∧ n <= size (obj (objects bf) i).
(** The free space at the end of the range. *)
Definition tail_space (bf : BestFit) : Z :=
  match last (view bf) with Some b => if is_free b then size b else 0 | None => 0 end.
(** Where the block comes from. *)
Definition best_choice (n : Z) (bf : BestFit) (i : nat) (bf' : BestFit) : Prop :=
  let r := rounded (align bf) n in
  (fitting bf r i ∧ (∀ j, fitting bf r j → size (obj (objects bf) i) <= size (obj (objects bf) j)) ∧
     b_start (obj (objects bf') i) = b_start (obj (objects bf) i) ∧ limit bf' = limit bf) ∨
  ((∀ j, ¬ fitting bf r j) ∧ limit bf' = limit bf + r - tail_space bf ∧ b_end (obj (objects bf') i) = limit bf').

Lemma malloc_spec n bf : wf bf → 0 <= n → ∃ i bf', malloc n bf = Ok (i, bf') ∧ allocated n bf i bf' ∧ best_choice n bf i bf'.
Proof.
  intros Hwf Hn. pose proof (wf_align _ Hwf) as Ha. unfold malloc, ensure. rewrite (proj2 (Z.eqb_neq _ _)) by lia. cbn [negb require]. ok_bind.
  set (r := rounded (align bf) n). pose proof (best_spec (objects bf) r (blocks bf)) as Hspec. fold (best bf r) in Hspec.
  destruct (best bf r) as [i|].
  - destruct Hspec as (Hi & Hf & Hfit & Hmin). pose proof (wf_ids _ Hwf i Hi) as Hid.
    assert (fitting bf r i ∧ ∀ j, fitting bf r j → size (obj (objects bf) i) <= size (obj (objects bf) j)) as [Hfi Hbest]
      by (split; [done|]; intros j (? & ? & ?); by apply Hmin).
    destruct (Z.eqb_spec (size (obj (objects bf) i) - r) 0) as [Ez|Ez].
    + eexists i, _. split; [done|]. split; [apply found_whole; try done; unfold r in *; lia|].
      left. split; [done|]. split; [done|]. cbn. by rewrite obj_insert_eq.
    + destruct (index_of_split i (blocks bf) (wf_nodup _ Hwf) Hi) as (pre & post & E & Hix & _).
      rewrite Hix. eexists i, _. split; [done|]. split; [apply found_split; try done; unfold r in *; lia|].
      left. split; [done|]. split; [done|]. cbn. rewrite obj_app_l, obj_insert_eq by (done || by rewrite length_insert). done.
  - assert (∀ j, ¬ fitting bf r j) as Hno by (intros j (Hj & Hf & ?); specialize (Hspec j Hj Hf); lia).
    assert (∀ o, (∀ i, o = Some i → last (blocks bf) = Some i ∧ is_free (obj (objects bf) i) = false) → last (blocks bf) = o → tail_space bf = 0) as Htail.
    { intros o Ho Hl. unfold tail_space, view. rewrite fmap_last, Hl. destruct o as [i|]; [|done]. cbn. by destruct (Ho i eq_refl) as [_ ->]. }
    assert (tail_space bf = 0 → allocated n bf (length (objects bf)) (MkBestFit (limit bf + r) (blocks bf ++ [length (objects bf)]) (align bf)
       (objects bf ++ [MkBlock (limit bf) (limit bf + r) false])) ∧ best_choice n bf (length (objects bf))
       (MkBestFit (limit bf + r) (blocks bf ++ [length (objects bf)]) (align bf) (objects bf ++ [MkBlock (limit bf) (limit bf + r) false]))) as Hnew.
    { intros Ht. split; [by apply grown_new|]. right. split; [done|]. cbn. fold r. rewrite obj_app_r, Ht. split; [lia|done]. }
    destruct (last (blocks bf)) as [i|] eqn:El.
    + assert (∃ pre, blocks bf = pre ++ [i]) as [pre E] by by apply last_Some.
      assert (i ∈ blocks bf) as Hi by (rewrite E; set_solver). pose proof (wf_ids _ Hwf i Hi) as Hid.
      destruct (is_free (obj (objects bf) i)) eqn:Ef.
      * eexists i, _. split; [done|]. split; [eapply grown_last; try done; by apply Hspec|]. right. split; [done|].
        cbn. rewrite obj_insert_eq by done. split; [|done]. unfold tail_space, view. rewrite fmap_last, El. cbn. rewrite Ef. fold r.
        pose proof (wf_chain _ Hwf) as Hch. unfold view in Hch. rewrite E, fmap_app in Hch. apply chain_app in Hch as (m & _ & (_ & _ & Hend)).
        cbn in Hend. lia.
      * eexists _, _. split; [done|]. apply Hnew. apply (Htail (Some i)); [|done]. intros j [= <-]. done.
    + eexists _, _. split; [done|]. apply Hnew. by apply (Htail None).
Qed.

(** ** Sequences of calls *)

(** The states that calls reach, with the handles in use and the handles given back.  [malloc] is
    called with a size, [free] with a handle in use. *)
Inductive reached (a : Z) : BestFit → gset nat → gset nat → Prop :=
| reached_new : reached a (new_best_fit a) ∅ ∅
| reached_malloc bf used dead n i bf' :
    reached a bf used dead → 0 <= n → malloc n bf = Ok (i, bf') → reached a bf' ({[i]} ∪ used) dead
| reached_free bf used dead i bf' :
    reached a bf used dead → i ∈ used → free i bf = Ok bf' → reached a bf' (used ∖ {[i]}) ({[i]} ∪ dead).

Record tracked (a : Z) (bf : BestFit) (used dead : gset nat) : Prop := {
  tr_wf : wf bf;
  tr_align : align bf = a;
  tr_used : ∀ i, i ∈ used ↔ in_use bf i;
  tr_dead : ∀ i, i ∈ dead → (i < length (objects bf))%nat ∧ i ∉ blocks bf ∧ is_free (obj (objects bf) i) = false;
}.
Lemma reached_tracked a bf used dead : 0 < a → reached a bf used dead → tracked a bf used dead.
Proof.
  intros Ha. induction 1 as [|bf used dead n i bf' _ [Hwf Hal Hu Hd] Hn Hm|bf used dead i bf' _ [Hwf Hal Hu Hd] Hi Hf].
  - split; [by apply new_wf|done|..]; [|set_solver]. intros i. split; [set_solver|]. by intros [?%elem_of_nil _].
  - destruct (malloc_spec n bf Hwf Hn) as (i' & bf1 & E & [Hwf' Hlive _ _ Hothers [Hlen Hdead] Hal'] & _).
    rewrite Hm in E. injection E as <- <-. split; [done|by rewrite Hal'|..].
    + intros j. destruct (decide (j = i)) as [->|Hji]; [set_solver|]. rewrite (proj1 (Hothers j Hji)), <- Hu. set_solver.
    + intros j Hj. destruct (Hd j Hj) as (Hlt & Hin & Hfr). destruct (Hdead j Hlt Hin) as [? ->]. split; [lia|done].
  - apply Hu in Hi. destruct (free_spec bf i Hwf Hi) as (bf1 & E & [Hwf' [Hni Ho] Hothers [Hlen Hdead] _ Hal']).
    rewrite Hf in E. injection E as <-. split; [done|by rewrite Hal'|..].
    + intros j. destruct (decide (j = i)) as [->|Hji].
      * split; [set_solver|]. by intros [? _].
      * rewrite (proj1 (Hothers j Hji)), <- Hu. set_solver.
    + intros j [->%elem_of_singleton|Hj]%elem_of_union.
      * destruct Hi as [Hi Hu']. split; [pose proof (wf_ids _ Hwf i Hi); lia|]. split; [done|]. by rewrite Ho.
      * destruct (Hd j Hj) as (Hlt & Hin & Hfr). destruct (Hdead j Hlt Hin) as [? ->]. split; [lia|done].
Qed.

(** C33. The allocator is safe in every state that calls of [malloc] and [free] reach: a block in use is
    aligned and lies in the range, two blocks in use never share a byte, a call of [malloc] or a
    [free] of a block in use succeeds, and a block given back twice is rejected. *)
Theorem best_fit_safe a bf used dead :
  0 < a → reached a bf used dead →
  (∀ i, i ∈ used → let b := obj (objects bf) i in
     (a | b_start b) ∧ (a | b_end b) ∧ 0 <= b_start b <= b_end b ∧ b_end b <= limit bf) ∧
  (∀ i j, i ∈ used → j ∈ used → i ≠ j →
     b_end (obj (objects bf) i) <= b_start (obj (objects bf) j) ∨ b_end (obj (objects bf) j) <= b_start (obj (objects bf) i)) ∧
  (∀ n, 0 <= n → ∃ i bf', malloc n bf = Ok (i, bf') ∧ i ∉ used ∪ dead) ∧
  (∀ i, i ∈ used → ∃ bf', free i bf = Ok bf') ∧
  (∀ i, i ∈ dead → raises_class ValueError (free i bf)).
Proof.
  intros Ha [Hwf Hal Hu Hd]%reached_tracked; [|done].
  assert (∀ i, i ∈ blocks bf → obj (objects bf) i ∈ view bf) as Hview by (intros i Hi; apply list_elem_of_fmap; by exists i).
  split; [|split; [|split; [|split]]].
  - intros i [Hi _]%Hu. destruct (wf_aligned _ Hwf _ (Hview i Hi)) as [? ?]. rewrite <- Hal. split; [done|]. split; [done|].
    pose proof (proj2 (chain_bound _ _ _ (wf_chain _ Hwf)) _ (Hview i Hi)). lia.
  - intros i j [Hi _]%Hu [Hj _]%Hu Hij. pose proof (chain_ordered _ _ _ (wf_chain _ Hwf)) as Ho.
    apply list_elem_of_lookup in Hi as [p Hp], Hj as [q Hq].
    assert (∀ p q i j, (p < q)%nat → blocks bf !! p = Some i → blocks bf !! q = Some j →
      b_end (obj (objects bf) i) <= b_start (obj (objects bf) j)) as Hlt.
    { clear -Ho. intros p q i j Hpq Hp Hq. apply (sorted_lookup (λ a b, b_end a <= b_start b) (view bf) p q); [done..| |];
        unfold view; by rewrite list_lookup_fmap, ?Hp, ?Hq. }
    destruct (Nat.lt_trichotomy p q) as [?|[->|?]]; [left; by eapply Hlt|congruence|right; by eapply Hlt].
  - intros n Hn. destruct (malloc_spec n bf Hwf Hn) as (i & bf' & E & [_ Hlive Hnew _ _ [_ Hdead] _] & _). exists i, bf'.
    split; [done|]. rewrite elem_of_union, Hu. intros [?|Hi]; [done|]. destruct (Hd i Hi) as (Hlt & Hin & _).
    destruct (Hdead i Hlt Hin) as [Hni _]. by destruct Hlive.
  - intros i Hi%Hu. destruct (free_spec bf i Hwf Hi) as (bf' & ? & _). by exists bf'.
  - intros i Hi. destruct (Hd i Hi) as (_ & Hin & Hfr). unfold free, ensure. rewrite Hfr. cbn [negb require]. ok_bind.
    by rewrite index_of_None.
Qed.

(** C34. Best fit: an allocation takes a smallest free block that fits, cut to size from its start; only
    if none fits does the range grow, by no more than what the free space at its end lacks.  All
    blocks in use stay what and where they were. *)
Theorem malloc_best_fit a bf used dead n i bf' :
  0 < a → reached a bf used dead → 0 <= n → malloc n bf = Ok (i, bf') →
  best_choice n bf i bf' ∧ n <= size (obj (objects bf') i) < n + a ∧
  ∀ j, j ∈ used → obj (objects bf') j = obj (objects bf) j.
Proof.
  intros Ha [Hwf Hal Hu Hd]%reached_tracked Hn Hm; [|done].
  destruct (malloc_spec n bf Hwf Hn) as (i' & bf1 & E & [_ _ Hnew Hsize Hothers _ _] & Hbest).
  rewrite Hm in E. injection E as <- <-. split; [done|]. rewrite <- Hal. split; [done|].
  intros j Hj%Hu. apply (Hothers j); [|done]. by intros ->.
Qed.

(** ** Three tiles, one of which is reused *)

Definition after {A} (m : result A) (def : A) : A := match m with Ok a => a | Raise _ => def end.
Definition tiles0 : BestFit := new_best_fit 32.
Definition tiles1 : BestFit := (after (malloc 100 tiles0) (0%nat, tiles0)).2.
Definition tiles2 : BestFit := (after (malloc 40 tiles1) (0%nat, tiles1)).2.
Definition tiles3 : BestFit := after (free 0 tiles2) tiles2.
Definition tiles4 : BestFit := (after (malloc 20 tiles3) (0%nat, tiles3)).2.

Example tiles_view :
  (limit <$> [tiles1; tiles2; tiles3; tiles4]) = [128; 192; 192; 192] ∧
  ((λ b, (b_start b, b_end b, is_free b)) <$> view tiles4) = [(0, 32, false); (32, 128, true); (128, 192, false)].
Proof. split; reflexivity. Qed.

Definition tiles_used : gset nat := ({[1%nat]} ∪ ({[0%nat]} ∪ ∅)) ∖ {[0%nat]}.
Lemma tiles_reached : reached 32 tiles3 tiles_used ({[0%nat]} ∪ ∅).
Proof.
  apply (reached_free 32 tiles2); [|set_solver|reflexivity].
  apply (reached_malloc 32 tiles1 _ _ 40); [|lia|reflexivity]. apply (reached_malloc 32 tiles0 _ _ 100); [|lia|reflexivity]. constructor.
Qed.
Lemma best_fit_safe_witness :
  (∃ bf', free 1 tiles3 = Ok bf') ∧ raises_class ValueError (free 0 tiles3).
Proof.
  destruct (best_fit_safe 32 tiles3 tiles_used _ ltac:(lia) tiles_reached) as (_ & _ & _ & Hfree & Hdead).
  split; [apply Hfree; unfold tiles_used; set_solver|apply Hdead; set_solver].
Defined.
Lemma malloc_best_fit_witness :
  best_choice 20 tiles3 2 tiles4 ∧ 20 <= size (obj (objects tiles4) 2) < 20 + 32 ∧
  obj (objects tiles4) 1 = obj (objects tiles3) 1.
Proof.
  destruct (malloc_best_fit 32 tiles3 tiles_used _ 20 2 tiles4 ltac:(lia) tiles_reached ltac:(lia) eq_refl) as (H1 & H2 & H3).
  split; [exact H1|]. split; [exact H2|]. apply H3. unfold tiles_used. set_solver.
Defined.
