(* ===== verification/IntrinsicLayouts.v ===== *)
(** Index arithmetic of the matrix intrinsics ([intrinsics/]): the fractal layouts that the
    compiler gives to on-chip buffers ([ascend_layout.py]), the register fragments of matrix
    instructions and the swizzle of shared memory ([mma_layout.py], [mfma_layout.py]), and the
    offsets of [utils.py].  The theorems relate the fractal layouts to those of the simulator,
    show that fragments lose no element, and say when a swizzle stays in its row. *)

From S2P Require Import Prelude PyStr Errors Values Layout.
Local Open Scope string_scope.
Local Open Scope Z_scope.
Local Open Scope list_scope.

(** ** Fractal layouts of buffers ([ascend_layout.py]) *)

(** [a // b] and [a % b], with the error of Python integers; an expression of TVM has the same
    value and an error of TVM. *)
Definition floordiv (a b : Z) : result Z :=
  if b =? 0 then raise ZeroDivisionError "integer division or modulo by zero" else Ok (a / b).
Definition modulo (a b : Z) : result Z :=
  if b =? 0 then raise ZeroDivisionError "integer division or modulo by zero" else Ok (a mod b).

(** [ceil_div], [round_up] *)
Definition ceil_div (a b : Z) : result Z := floordiv (a + b - 1) b.
Definition round_up_to (a b : Z) : result Z := q ← ceil_div a b; Ok (q * b).

(** Elements per C0 block and per fractal, from the bits of the element type. *)
Definition ele_num_per_c0 (bits : Z) : result Z := q ← floordiv BYTE_PER_C0 bits; Ok (q * 8).
Definition ele_num_per_fractal (bits : Z) : result Z := q ← floordiv BYTE_PER_FRACTAL bits; Ok (q * 8).

(** The strided index over fractals of a layout: extents and strides of rows and columns. *)
Definition fractal_index (row_in col_in row_stride row_by_fractal col_stride col_by_fractal i j : Z) : result Z :=
  a ← floordiv i row_in; b ← floordiv j col_in; c ← modulo i row_in; d ← modulo j col_in;
  Ok (a * row_by_fractal + b * col_by_fractal + c * row_stride + d * col_stride).

(** The arguments of a transform: [i, j = args[-2:]] and [args[:-2]]. *)
Definition last_two (l : list Z) : result (list Z * Z * Z) :=
  match rev l with
  | j :: i :: front => Ok (rev front, i, j)
  | _ => raise ValueError "not enough values to unpack"
  end.
(** [shape[-k]] *)
Definition from_end (shape : list Z) (k : nat) : result Z :=
  match rev shape !! pred k with Some d => Ok d | None => raise IndexError "list index out of range" end.

(** [make_zn_layout] and its [transform_func] *)
Definition zn_layout (shape : list Z) (bits : Z) (args : list Z) : result (list Z) :=
  c0 ← ele_num_per_c0 bits;
  fractal ← ele_num_per_fractal bits;
  '(front, i, j) ← last_two args;
  rows ← from_end shape 2;
  cols ← from_end shape 1;
  _ ← ceil_div rows C0_NUM_PER_FRACTAL;
  _ ← ceil_div cols c0;
  rounded ← round_up_to rows C0_NUM_PER_FRACTAL;
  x ← fractal_index C0_NUM_PER_FRACTAL c0 c0 fractal 1 (rounded * c0) i j;
  Ok (front ++ [x]).
(** [make_nz_layout] and its [transform_func] *)
Definition nz_layout (shape : list Z) (bits : Z) (args : list Z) : result (list Z) :=
  c0 ← ele_num_per_c0 bits;
  fractal ← ele_num_per_fractal bits;
  '(front, i, j) ← last_two args;
  rows ← from_end shape 2;
  cols ← from_end shape 1;
  _ ← ceil_div rows c0;
  _ ← ceil_div cols C0_NUM_PER_FRACTAL;
  rounded ← round_up_to cols C0_NUM_PER_FRACTAL;
  x ← fractal_index c0 C0_NUM_PER_FRACTAL 1 (rounded * c0) c0 fractal i j;
  Ok (front ++ [x]).
(** [make_col_major_layout] and its [transform_func] *)
Definition col_major_layout (args : list Z) : result (list Z) :=
  '(front, i, j) ← last_two args; Ok (front ++ [j; i]).

(** ** Fragments of matrix instructions ([mma_layout.py], [mfma_layout.py]) *)

Definition ldmatrix_32x8_to_shared_16x16_layout (thread_id local_id : Z) : Z * Z :=
  (thread_id mod 16, 8 * (thread_id / 16) + local_id mod 8).
Definition ldmatrix_trans_32x8_to_shared_16x16_layout (thread_id local_id : Z) : Z * Z :=
  (8 * (thread_id / 16) + thread_id mod 8, 8 * (thread_id mod 16 / 8) + local_id mod 8).
Definition ldmatrix_16x32_to_shared_16x32_layout_a (thread_id local_id : Z) : Z * Z :=
  (thread_id mod 16, 16 * (thread_id / 16) + local_id mod 16).
Definition ldmatrix_16x32_to_shared_16x32_layout_b (thread_id local_id : Z) : Z * Z :=
  (8 * (thread_id / 16) + thread_id mod 8, 16 * (thread_id mod 16 / 8) + local_id mod 16).
Definition ldmatrix_32x16_to_shared_16x32_layout_a (thread_id local_id : Z) : Z * Z :=
  (thread_id mod 16, local_id + thread_id / 16 * 16).
Definition ldmatrix_32x16_to_shared_16x32_layout_b (thread_id local_id : Z) : Z * Z :=
  (thread_id / 16 * 8 + thread_id mod 8, local_id + 16 * (thread_id mod 16 / 8)).
Definition mma_store_32x8_to_shared_16x16_layout (thread_id local_id : Z) : Z * Z :=
  (8 * (local_id mod 4 / 2) + thread_id / 4, 8 * (local_id / 4) + thread_id mod 4 * 2 + local_id mod 2).
Definition shared_16x16_to_mma_32x8_layout_sr (i j : Z) : Z * Z :=
  (4 * (i mod 8) + j mod 8 / 2, 4 * (j / 8) + i / 8 * 2 + j mod 2).
Definition shared_16x16_to_mma_32x8_layout_rs (i j : Z) : Z * Z :=
  (4 * (j mod 8) + i mod 8 / 2, 4 * (i / 8) + j / 8 * 2 + i mod 2).
Definition shared_16x32_to_mma_32x16_layout (i j : Z) : Z * Z :=
  (4 * (i mod 8) + j mod 16 / 4, 8 * (j / 16) + i / 8 * 4 + j mod 4).
Definition shared_32x16_to_mma_32x16_layout (i j : Z) : Z * Z :=
  (i mod 16 / 4 + 4 * (j mod 8), 8 * (j / 8) + i / 16 * 4 + i mod 4).
Definition mma_32x8_to_shared_16x16_layout (thread_id local_id : Z) : Z * Z :=
  (8 * (local_id mod 4 / 2) + thread_id / 4, 8 * (local_id / 4) + thread_id mod 4 * 2 + local_id mod 2).
Definition shared_16x16_to_mma_32x8_smoothlayout (i j : Z) : Z * Z := (i * 2 + j / 8, j mod 8).
Definition shared_16x32_to_mma_32x16_smoothlayout (i j : Z) : Z * Z := (i * 2 + j / 16, j mod 16).
Definition shared_32x16_to_mma_32x16_smoothlayout (i j : Z) : Z * Z := (i * 2 + j / 16, j mod 16).

Definition shared_16x4_to_local_64x1_layout_A (i j : Z) : Z * Z := (j * 16 + i, 0).
Definition thread_id_shared_access_64x1_to_16x4_layout_A (thread_id local_id : Z) : Z * Z :=
  (thread_id mod 16, thread_id / 16).
Definition shared_4x16_to_local_64x1_layout_B (i j : Z) : Z * Z := (i * 16 + j, 0).
Definition thread_id_shared_access_64x1_to_4x16_layout_B (thread_id local_id : Z) : Z * Z :=
  (thread_id / 16, thread_id mod 16).
Definition shared_16x16_to_local_64x4_layout_C (i j : Z) : Z * Z := (j + i / 4 * 16, i mod 4).
Definition thread_id_shared_access_64x4_to_16x16_layout_A (thread_id local_id : Z) : Z * Z :=
  (thread_id mod 16, thread_id / 16 * 4 + local_id).
Definition shared_16x16_to_local_64x4_layout_A (i j : Z) : Z * Z := (i + 16 * (j / 4), j mod 4).
Definition thread_id_shared_access_64x4_to_16x16_layout_B (thread_id local_id : Z) : Z * Z :=
  (local_id + thread_id / 16 * 4, thread_id mod 16).
Definition shared_16x16_to_local_64x4_layout_B (i j : Z) : Z * Z := (j + i / 4 * 16, i mod 4).
Definition thread_id_shared_access_64x4_to_16x16_layout_C_m_n (thread_id local_id : Z) : Z * Z :=
  (local_id + thread_id / 16 * 4, thread_id mod 16).
Definition thread_id_shared_access_64x4_to_16x16_layout_C_n_m (thread_id local_id : Z) : Z * Z :=
  (thread_id mod 16, local_id + thread_id / 16 * 4).
Definition thread_id_shared_access_64x8_to_16x32_layout_A (thread_id local_id : Z) : Z * Z :=
  (thread_id mod 16, thread_id / 16 * 8 + local_id).
Definition shared_16x32_to_local_64x8_layout_A (i j : Z) : Z * Z := (i + 16 * (j / 8), j mod 8).
Definition thread_id_shared_access_64x8_to_16x32_layout_B (thread_id local_id : Z) : Z * Z :=
  (local_id + thread_id / 16 * 8, thread_id mod 16).
Definition shared_16x32_to_local_64x8_layout_B (i j : Z) : Z * Z := (j + i / 8 * 16, i mod 8).

(** ** Swizzles *)

(** [get_swizzle_layout]; [bits] is the width of the element type. *)
Definition get_swizzle_layout (row_idx col_idx row_size bits : Z) (swizzle_bytes : option Z) : result (Z * Z) :=
  let row_bytes := bits * row_size / 8 in
  _ ← ensure (row_bytes mod 32 =? 0) AssertionError "Row size must be multiple of 32B.";
  let swizzle_bytes := default (Z.min 128 row_bytes) swizzle_bytes in
  elem_per_16B ← floordiv 128 bits;
  col_idx_16B ← floordiv col_idx elem_per_16B;
  col_idx_in_16B ← modulo col_idx elem_per_16B;
  phase ← modulo row_idx (swizzle_bytes / 16);
  Ok (row_idx, Z.lxor col_idx_16B phase * elem_per_16B + col_idx_in_16B).

(** [make_mma_swizzle_layout] *)
Definition mma_swizzle_layout (shape : list Z) (bits : Z) (is_smooth : bool) (args : list Z) : result (list Z) :=
  row_size ← from_end shape 1;
  if is_smooth || negb (row_size * bits mod 512 =? 0) then Ok args
  else '(front, i, j) ← last_two args; '(i, j) ← get_swizzle_layout i j row_size bits None; Ok (front ++ [i; j]).

(** [make_mfma_swizzle_layout] *)
Definition mfma_swizzle (inner bits vec row col : Z) : result (Z * Z) :=
  elems ← floordiv (32 * 32) bits;
  rows_per_phase ← floordiv elems inner;
  let per_phase := Z.max 1 rows_per_phase in
  by_vec ← floordiv inner vec;
  let max_phase := Z.min (16 / per_phase) by_vec in
  phase ← modulo (row / per_phase) max_phase;
  Ok (row, Z.lxor (col / vec) phase * vec + col mod vec).

(** ** Offsets ([utils.py]) *)

(** [get_ldmatrix_offset] *)
Definition get_ldmatrix_offset (matrix : string) (row_idx col_idx stride bits : Z) (transposed : bool) : result Z :=
  _ ← ensure (mem_str matrix ["A"; "B"]) AssertionError "matrix should be either A or B";
  let offset p := Ok (fst p * stride + snd p) in
  if bits =? 16 then
    offset (if transposed then ldmatrix_trans_32x8_to_shared_16x16_layout row_idx col_idx
            else ldmatrix_32x8_to_shared_16x16_layout row_idx col_idx)
  else if bits =? 8 then
    if mem_str matrix ["B"] && transposed then offset (ldmatrix_16x32_to_shared_16x32_layout_b row_idx col_idx)
    else if mem_str matrix ["A"] && negb transposed then offset (ldmatrix_16x32_to_shared_16x32_layout_a row_idx col_idx)
    else raise ValueError "ldmatrix only supports B transposed and A non-transposed for int8"
  else raise ValueError "Unsupported dtype".

(** [get_mma_micro_size] *)
Definition get_mma_micro_size (dtype : string) : Z * Z * Z :=
  (16, 16, if mem_str dtype ["e4m3_float8"; "e5m2_float8"; "int8"] then 32 else 16).

(** [index_to_coordinates]: the loop takes the dimensions from the last to the first. *)
Fixpoint coordinates_rev (index : Z) (dims : list Z) : result (list Z) :=
  match dims with
  | [] => Ok []
  | d :: dims => c ← modulo index d; q ← floordiv index d; rest ← coordinates_rev q dims; Ok (c :: rest)
  end.
Definition index_to_coordinates (index : Z) (shape : list Z) : result (list Z) :=
  l ← coordinates_rev index (rev shape); Ok (rev l).

(** ** The compiler and the simulator agree on fractal layouts *)

Lemma floordiv_ok a b : b ≠ 0 → floordiv a b = Ok (a / b).
Proof. intros Hb. unfold floordiv. by rewrite (proj2 (Z.eqb_neq _ _)). Qed.
Lemma modulo_ok a b : b ≠ 0 → modulo a b = Ok (a mod b).
Proof. intros Hb. unfold modulo. by rewrite (proj2 (Z.eqb_neq _ _)). Qed.

Lemma last_two_app front i j : last_two (front ++ [i; j]) = Ok (front, i, j).
Proof. unfold last_two. rewrite rev_app_distr. cbn. by rewrite rev_involutive. Qed.
Lemma from_end_app front rows cols : from_end (front ++ [rows; cols]) 2 = Ok rows ∧ from_end (front ++ [rows; cols]) 1 = Ok cols.
Proof. unfold from_end. by rewrite rev_app_distr. Qed.

(** The sizes of elements the simulator accepts. *)
Lemma item_sizes itemsize :
  0 < itemsize → BYTE_PER_C0 mod itemsize = 0 → itemsize ∈ [1; 2; 4; 8; 16; 32].
Proof.
  intros Hpos Hmod. assert (itemsize <= 32) as Hle.
  { apply Z.divide_pos_le; [done|]. by apply Z.mod_divide; [lia|]. }
  assert (itemsize ∈ seqZ 1 32) as Hin by (apply elem_of_seqZ; lia).
  assert (forallb (λ x, negb (BYTE_PER_C0 mod x =? 0) || bool_decide (x ∈ [1; 2; 4; 8; 16; 32])) (seqZ 1 32) = true) as Hall
    by (vm_compute; reflexivity).
  rewrite forallb_forall in Hall. apply list_elem_of_In, Hall in Hin. rewrite Hmod in Hin. by apply bool_decide_eq_true in Hin.
Qed.

(** C35. The compiler's fractal layouts and the simulator's are the same map: for elements of one, two
    or four bytes, [make_zn_layout] and [make_nz_layout] send every coordinate of a matrix to the
    offset that [physical_index] computes, and keep the leading dimensions.  For the wider elements
    that the simulator accepts, the compiler's layouts divide by zero and no index exists. *)
Theorem ascend_layouts_agree front batch rows cols itemsize i j :
  0 < itemsize → BYTE_PER_C0 mod itemsize = 0 → 0 <= i < rows → 0 <= j < cols →
  (itemsize <= 4 → ∃ x y,
     physical_index "zN" i j [rows; cols] itemsize = Ok x ∧
     zn_layout (front ++ [rows; cols]) (8 * itemsize) (batch ++ [i; j]) = Ok (batch ++ [x]) ∧
     physical_index "nZ" i j [rows; cols] itemsize = Ok y ∧
     nz_layout (front ++ [rows; cols]) (8 * itemsize) (batch ++ [i; j]) = Ok (batch ++ [y])) ∧
  (4 < itemsize →
     (∃ x y, physical_index "zN" i j [rows; cols] itemsize = Ok x ∧ physical_index "nZ" i j [rows; cols] itemsize = Ok y) ∧
     (∃ e, zn_layout (front ++ [rows; cols]) (8 * itemsize) (batch ++ [i; j]) = Raise e) ∧
     (∃ e, nz_layout (front ++ [rows; cols]) (8 * itemsize) (batch ++ [i; j]) = Raise e)).
Proof.
  intros Hpos Hmod Hi Hj. destruct (from_end_app front rows cols) as [Hrows Hcols]. pose proof (item_sizes _ Hpos Hmod) as Hsize.
  assert (validate [rows; cols] itemsize = Ok (rows, cols, BYTE_PER_C0 / itemsize)) as Hval.
  { unfold validate. rewrite Hmod. replace (rows <? 0) with false by lia. replace (cols <? 0) with false by lia.
    by replace (itemsize <=? 0) with false by lia. }
  assert (∀ layout, layout = "zN" ∨ layout = "nZ" → ∃ x, physical_index layout i j [rows; cols] itemsize = Ok x) as Hx.
  { intros layout Hl. unfold physical_index. rewrite Hval. ok_bind. replace (_ && _) with true by lia.
    destruct Hl as [->| ->]; eexists; reflexivity. }
  split; intros Hle.
  - assert (compiled : itemsize = 1 ∨ itemsize = 2 ∨ itemsize = 4).
    { rewrite !elem_of_cons, elem_of_nil in Hsize. lia. }
    destruct (Hx "zN" ltac:(by left)) as [x Ex], (Hx "nZ" ltac:(by right)) as [y Ey]. exists x, y.
    assert (compiled_c0 : BYTE_PER_C0 / itemsize ≠ 0) by by destruct compiled as [->|[-> | ->]].
    assert (ele_num_per_c0 (8 * itemsize) = Ok (BYTE_PER_C0 / itemsize)) as E1 by by destruct compiled as [->|[-> | ->]].
    assert (ele_num_per_fractal (8 * itemsize) = Ok (BYTE_PER_FRACTAL / itemsize)) as E2 by by destruct compiled as [->|[-> | ->]].
    split; [done|]. pose proof Ey as Hy. unfold physical_index in Ex, Ey. rewrite Hval in Ex, Ey. ok_bind.
    cbn [mbind outcome_bind] in Ex, Ey. replace (_ && _) with true in Ex, Ey by lia. cbn [negb] in Ex, Ey.
    change (normalize "zN") with "zn" in Ex. change (normalize "nZ") with "nz" in Ey. cbn -[Z.div Z.mul Z.modulo] in Ex, Ey.
    injection Ex as <-. injection Ey as <-. unfold zn_layout, nz_layout. rewrite E1, E2. ok_bind. rewrite !last_two_app, Hrows, Hcols. ok_bind.
    unfold ceil_div, round_up_to, fractal_index, ceil_div. rewrite !floordiv_ok, !modulo_ok by (exact compiled_c0 || (unfold C0_NUM_PER_FRACTAL; lia)). ok_bind.
    unfold round_up, Layout.ceil_div. split; [|split; [exact Hy|]]; do 3 f_equal; lia.
  - split; [destruct (Hx "zN" ltac:(by left)) as [x ?], (Hx "nZ" ltac:(by right)) as [y ?]; by exists x, y|].
    assert (wide : itemsize = 8 ∨ itemsize = 16 ∨ itemsize = 32) by (rewrite !elem_of_cons, elem_of_nil in Hsize; lia).
    assert (ele_num_per_c0 (8 * itemsize) = Ok 0) as E1 by by destruct wide as [->|[-> | ->]].
    assert (ele_num_per_fractal (8 * itemsize) = Ok (BYTE_PER_FRACTAL / itemsize)) as E2 by by destruct wide as [->|[-> | ->]].
    unfold zn_layout, nz_layout. rewrite E1, E2. ok_bind. rewrite !last_two_app, Hrows, Hcols. ok_bind. split; by eexists.
Qed.
Lemma ascend_layouts_agree_witness :
  (∃ x y, physical_index "zN" 17 21 [40; 50] 2 = Ok x ∧ zn_layout [3; 40; 50] 16 [1; 17; 21] = Ok [1; x] ∧
          physical_index "nZ" 17 21 [40; 50] 2 = Ok y ∧ nz_layout [3; 40; 50] 16 [1; 17; 21] = Ok [1; y]) ∧
  ∃ e, zn_layout [40; 50] 64 [17; 21] = Raise e.
Proof.
  split.
  - apply (ascend_layouts_agree [3] [1] 40 50 2 17 21); lia || done.
  - apply (ascend_layouts_agree [] [] 40 50 8 17 21); lia || done.
Defined.

(** ** Fragments lose no element *)

(** A fragment: the extents of the matrix, the threads and the elements of each, and both maps. *)
Record fragment := MkFragment {
  fr_rows : Z;
  fr_cols : Z;
  fr_threads : Z;
  fr_locals : Z;
  fr_to : Z → Z → Z * Z;
  fr_from : Z → Z → Z * Z;
}.
Definition fragments : list fragment :=
  [MkFragment 16 16 32 8 shared_16x16_to_mma_32x8_layout_sr mma_32x8_to_shared_16x16_layout;
   MkFragment 16 16 32 8 shared_16x16_to_mma_32x8_layout_sr mma_store_32x8_to_shared_16x16_layout;
   MkFragment 16 4 64 1 shared_16x4_to_local_64x1_layout_A thread_id_shared_access_64x1_to_16x4_layout_A;
   MkFragment 4 16 64 1 shared_4x16_to_local_64x1_layout_B thread_id_shared_access_64x1_to_4x16_layout_B;
   MkFragment 16 16 64 4 shared_16x16_to_local_64x4_layout_A thread_id_shared_access_64x4_to_16x16_layout_A;
   MkFragment 16 16 64 4 shared_16x16_to_local_64x4_layout_B thread_id_shared_access_64x4_to_16x16_layout_B;
   MkFragment 16 16 64 4 shared_16x16_to_local_64x4_layout_C thread_id_shared_access_64x4_to_16x16_layout_C_m_n;
   MkFragment 16 32 64 8 shared_16x32_to_local_64x8_layout_A thread_id_shared_access_64x8_to_16x32_layout_A;
   MkFragment 32 16 64 8 shared_16x32_to_local_64x8_layout_B thread_id_shared_access_64x8_to_16x32_layout_B].

Definition inside (rows cols : Z) (p : Z * Z) : bool :=
  (0 <=? p.1) && (p.1 <? rows) && ((0 <=? p.2) && (p.2 <? cols)).
Definition points (rows cols : Z) : list (Z * Z) := i ← seqZ 0 rows; j ← seqZ 0 cols; [(i, j)].
Definition inverts (rows cols rows' cols' : Z) (f g : Z → Z → Z * Z) : bool :=
  forallb (λ p, inside rows' cols' (f p.1 p.2) && bool_decide (g (f p.1 p.2).1 (f p.1 p.2).2 = p)) (points rows cols).

Lemma elem_of_points rows cols i j : (i, j) ∈ points rows cols ↔ 0 <= i < rows ∧ 0 <= j < cols.
Proof.
  unfold points. rewrite list_elem_of_bind. setoid_rewrite list_elem_of_bind. setoid_rewrite list_elem_of_singleton.
  setoid_rewrite elem_of_seqZ. split; [intros (x & (y & [= -> ->] & ?) & ?); lia|]. intros [? ?]. exists i.
  split; [|lia]. exists j. split; [done|lia].
Qed.
Lemma inverts_spec rows cols rows' cols' f g :
  inverts rows cols rows' cols' f g = true →
  ∀ i j, 0 <= i < rows → 0 <= j < cols →
    0 <= (f i j).1 < rows' ∧ 0 <= (f i j).2 < cols' ∧ g (f i j).1 (f i j).2 = (i, j).
Proof.
  unfold inverts. rewrite forallb_forall. intros H i j Hi Hj. specialize (H (i, j)). cbn [fst snd] in H.
  rewrite <- list_elem_of_In, elem_of_points, andb_true_iff in H. destruct H as [Hin Hinv]; [done|].
  apply bool_decide_eq_true in Hinv. unfold inside in Hin. split; [lia|]. split; [lia|done].
Qed.

(** Every matrix fragment is a bijection between the elements of its tile and the registers of the
    threads: the two maps of the code are inverse to each other, in both directions, and stay in
    their ranges. *)
Theorem fragments_bijective fr :
  fr ∈ fragments →
  (∀ i j, 0 <= i < fr_rows fr → 0 <= j < fr_cols fr →
     0 <= (fr_to fr i j).1 < fr_threads fr ∧ 0 <= (fr_to fr i j).2 < fr_locals fr ∧
     fr_from fr (fr_to fr i j).1 (fr_to fr i j).2 = (i, j)) ∧
  (∀ t l, 0 <= t < fr_threads fr → 0 <= l < fr_locals fr →
     0 <= (fr_from fr t l).1 < fr_rows fr ∧ 0 <= (fr_from fr t l).2 < fr_cols fr ∧
     fr_to fr (fr_from fr t l).1 (fr_from fr t l).2 = (t, l)).
Proof.
  intros Hfr. assert (forallb (λ fr, inverts (fr_rows fr) (fr_cols fr) (fr_threads fr) (fr_locals fr) (fr_to fr) (fr_from fr) &&
    inverts (fr_threads fr) (fr_locals fr) (fr_rows fr) (fr_cols fr) (fr_from fr) (fr_to fr)) fragments = true) as H by (vm_compute; reflexivity).
  rewrite forallb_forall in H. apply list_elem_of_In, H, andb_true_iff in Hfr as [H1 H2].
  split; by apply inverts_spec.
Qed.
Lemma fragments_bijective_witness :
  mma_32x8_to_shared_16x16_layout (shared_16x16_to_mma_32x8_layout_sr 9 13).1 (shared_16x16_to_mma_32x8_layout_sr 9 13).2 = (9, 13).
Proof. apply (fragments_bijective (MkFragment 16 16 32 8 shared_16x16_to_mma_32x8_layout_sr mma_32x8_to_shared_16x16_layout)); [by left|cbn; lia|cbn; lia]. Defined.

(** ** Swizzles that stay in their row *)

Lemma lxor_block k m q p : 0 <= k → 0 <= p < 2 ^ k → 0 <= q < 2 ^ k * m → 0 <= Z.lxor q p < 2 ^ k * m.
Proof.
  intros Hk Hp Hq. assert (0 <= Z.lxor q p) as H0 by (apply Z.lxor_nonneg; lia). split; [done|].
  assert (Z.lxor q p / 2 ^ k = q / 2 ^ k) as E.
  { rewrite <- !Z.shiftr_div_pow2 by done. rewrite Z.shiftr_lxor, (Z.shiftr_div_pow2 p), Z.div_small by done. apply Z.lxor_0_r. }
  assert (q / 2 ^ k < m) by (apply Z.div_lt_upper_bound; lia).
  pose proof (Z.mod_pos_bound (Z.lxor q p) (2 ^ k)). pose proof (Z.div_mod (Z.lxor q p) (2 ^ k)). nia.
Qed.

(** The unit of the swizzle: 2, 4 or 8 blocks of 16 bytes. *)
Lemma swizzle_unit row_bytes :
  row_bytes = 32 ∨ row_bytes = 64 ∨ (0 < row_bytes ∧ row_bytes mod 128 = 0) →
  ∃ k m, 0 <= k ∧ Z.min 128 row_bytes / 16 = 2 ^ k ∧ row_bytes = 16 * (2 ^ k * m) ∧ row_bytes mod 32 = 0.
Proof.
  intros [->|[->|[Hpos Hmod]]]; [by exists 1, 1|by exists 2, 1|].
  apply Z.mod_divide in Hmod as [m ->]; [|lia]. exists 3, m. split; [done|]. rewrite Z.min_l by lia. split; [done|].
  split; [lia|]. replace (m * 128) with (m * 4 * 32) by lia. apply Z.mod_mul. lia.
Qed.

(** C36. The swizzle of shared memory permutes every row whose width is 32 bytes, 64 bytes or a multiple
    of 128 bytes, for elements whose width in bits divides 128: a column goes to a column of the
    same row, and swizzling again brings it back.
    For other widths that [make_mma_swizzle_layout] also swizzles, such as 96 elements of 16 bits,
    a column can leave its row. *)
Theorem swizzle_permutes_rows row col row_size bits :
  0 < bits → 128 mod bits = 0 → 0 <= row → 0 <= col < row_size →
  (let row_bytes := bits * row_size / 8 in bits * row_size = 8 * row_bytes ∧
     (row_bytes = 32 ∨ row_bytes = 64 ∨ (0 < row_bytes ∧ row_bytes mod 128 = 0))) →
  (∃ col', get_swizzle_layout row col row_size bits None = Ok (row, col') ∧ 0 <= col' < row_size ∧
     get_swizzle_layout row col' row_size bits None = Ok (row, col)) ∧
  mma_swizzle_layout [64; 96] 16 false [7; 64] = Ok [7; 120].
Proof.
  intros Hb Hd Hrow Hcol [Hbytes Hunit]. split; [|reflexivity].
  destruct (swizzle_unit _ Hunit) as (k & m & Hk & Hsw & Hm & H32).
  apply Z.mod_divide in Hd as [e He]; [|lia]. assert (0 < e) as He0 by nia.
  assert (128 / bits = e) as Hdiv by (rewrite He; apply Z.div_mul; lia).
  assert (row_size = e * (2 ^ k * m)) as Hsize by nia.
  pose proof (Z.pow_pos_nonneg 2 k ltac:(lia) Hk) as Hpow.
  assert (∀ c, get_swizzle_layout row c row_size bits None = Ok (row, Z.lxor (c / e) (row mod 2 ^ k) * e + c mod e)) as Hrun.
  { intros c. unfold get_swizzle_layout, ensure. cbv zeta. rewrite H32. cbn [Z.eqb require default option_fmap]. ok_bind.
    rewrite (floordiv_ok 128), Hdiv by lia. ok_bind. rewrite floordiv_ok, !modulo_ok by (rewrite ?Hsw; lia). ok_bind. by rewrite Hsw. }
  pose proof (Z.mod_pos_bound row (2 ^ k) Hpow) as Hphase. pose proof (Z.mod_pos_bound col e He0) as Hin.
  assert (0 <= col / e < 2 ^ k * m) as Hq by (split; [apply Z.div_pos; lia|apply Z.div_lt_upper_bound; lia]).
  pose proof (lxor_block k m (col / e) (row mod 2 ^ k) Hk Hphase Hq) as Hx. set (x := Z.lxor (col / e) (row mod 2 ^ k)) in *.
  exists (x * e + col mod e). split; [apply Hrun|]. split; [nia|]. rewrite Hrun. do 2 f_equal.
  rewrite Z.div_add_l, (Z.div_small (col mod e)), Z.add_0_r by lia.
  replace ((x * e + col mod e) mod e) with (col mod e) by (rewrite Z.add_comm, Z.mod_add, Z.mod_mod by lia; done). unfold x. rewrite Z.lxor_assoc, Z.lxor_nilpotent, Z.lxor_0_r.
  pose proof (Z.div_mod col e). lia.
Qed.
Lemma swizzle_permutes_rows_witness :
  ∃ col', get_swizzle_layout 5 50 64 16 None = Ok (5, col') ∧ 0 <= col' < 64 ∧ get_swizzle_layout 5 col' 64 16 None = Ok (5, 50).
Proof. apply (swizzle_permutes_rows 5 50 64 16); try lia; [done|]. split; [done|]. right. right. done. Defined.

(** ** Coordinates *)

Definition flatten_index (coordinates shape : list Z) : Z :=
  foldl (λ acc cd, acc * cd.2 + cd.1) 0 (zip coordinates shape).
Definition volume (shape : list Z) : Z := foldr Z.mul 1 shape.

Lemma coordinates_rev_spec index dims :
  Forall (λ d, 0 < d) dims → 0 <= index < volume dims →
  ∃ l, coordinates_rev index dims = Ok l ∧ Forall2 (λ c d, 0 <= c < d) l dims ∧
    foldr (λ cd acc, acc * cd.2 + cd.1) 0 (zip l dims) = index.
Proof.
  intros Hpos. revert index. induction Hpos as [|d dims Hd _ IH]; intros index Hindex; cbn in *.
  - exists []. split; [done|]. split; [constructor|]. cbn. lia.
  - rewrite modulo_ok, floordiv_ok by lia. ok_bind. destruct (IH (index / d)) as (l & -> & Hl & Hf).
    { split; [apply Z.div_pos; lia|]. apply Z.div_lt_upper_bound; unfold volume in *; lia. }
    ok_bind. eexists. split; [done|]. split; [constructor; [by apply Z.mod_pos_bound|done]|]. cbn. rewrite Hf.
    pose proof (Z.div_mod index d ltac:(lia)). lia.
Qed.
Lemma volume_rev shape : volume (rev shape) = volume shape.
Proof.
  unfold volume. induction shape as [|d shape IH]; [done|]. cbn [rev foldr]. rewrite foldr_app. cbn. rewrite <- IH.
  generalize (rev shape). intros l. induction l as [|x l IHl]; cbn; [lia|]. rewrite IHl. lia.
Qed.

Lemma zip_rev {A B} (l : list A) (k : list B) : length l = length k → zip (rev l) (rev k) = rev (zip l k).
Proof.
  revert k. induction l as [|a l IH]; intros [|b k] Hl; try done. cbn [rev zip_with]. injection Hl as Hl.
  rewrite zip_with_app by by rewrite !length_rev. by rewrite IH.
Qed.
Lemma foldl_rev {A B} (f : B → A → B) b l : foldl f b (rev l) = foldr (λ a acc, f acc a) b l.
Proof. induction l as [|a l IH]; [done|]. cbn [rev foldr]. rewrite foldl_app. cbn. by rewrite IH. Qed.
Lemma Forall2_rev' {A B} (P : A → B → Prop) l k : Forall2 P l k → Forall2 P (rev l) (rev k).
Proof. induction 1; cbn; [constructor|]. apply Forall2_app; [done|by constructor]. Qed.

(** [index_to_coordinates] inverts the row-major index: every index below the volume of a shape has
    coordinates inside the shape whose row-major index it is. *)
Theorem index_to_coordinates_inverts index shape :
  Forall (λ d, 0 < d) shape → 0 <= index < volume shape →
  ∃ l, index_to_coordinates index shape = Ok l ∧ Forall2 (λ c d, 0 <= c < d) l shape ∧ flatten_index l shape = index.
Proof.
  intros Hpos Hindex. unfold index_to_coordinates.
  destruct (coordinates_rev_spec index (rev shape)) as (l & -> & Hl & Hf); [by apply Forall_rev|by rewrite volume_rev|].
  ok_bind. exists (rev l). split; [done|]. pose proof (Forall2_rev' _ _ _ Hl) as Hl'. rewrite rev_involutive in Hl'. split; [done|].
  unfold flatten_index. rewrite <- Hf. apply Forall2_length in Hl. rewrite length_rev in Hl.
  replace (zip (rev l) shape) with (rev (zip l (rev shape))); [by rewrite foldl_rev|].
  rewrite <- zip_rev by by rewrite length_rev. by rewrite rev_involutive.
Qed.
Lemma index_to_coordinates_inverts_witness :
  ∃ l, index_to_coordinates 100 [4; 5; 6] = Ok l ∧ Forall2 (λ c d, 0 <= c < d) l [4; 5; 6] ∧ flatten_index l [4; 5; 6] = 100.
Proof. apply (index_to_coordinates_inverts 100 [4; 5; 6]); [repeat constructor|cbn; lia]. Defined.
